(* ===== verification/_CoqProject ===== *)
-Q . S2P
Prelude.v
Gostrings.v
Chan.v
Circular.v
Bytebuffer.v
Ring.v
Crc16.v
Netio.v
Framing.v
Tcptask.v
Sendloop.v
Tcpbuftask.v
Poolsend.v
Msgbuff.v
Udptask.v
Resp.v
Respread.v
Strconv.v
Gotype.v
Scan.v
Utils.v
Scantype.v
Reply.v
Packet.v
Cmdpool.v
Redisconn.v
Pipeline.v
Redisfail.v
Redisdb.v
Helper.v
Pool.v
Objects.v
Admin.v
Adminspec.v
Adminconc.v
Service.v
Logfile.v
Logblock.v
Logflush.v
Loghead.v
Logflags.v
Logger.v
Initenv.v
Redismsg.v
Redisstream.v
Mempool.v
Msgbuffer.v
Readstream.v
Reqkey.v
Ringbuffer.v
Forward.v
Forwardspec.v
Forwardinv.v
Forwardsim.v
Forwardwrite.v
Forwardrun.v
Classify.v
Hashes.v
Md5.v
Dispatch.v
Clusterroute.v
Clusternodes.v
Redirect.v
Timer.v
Package.v
