(* ===== verification/Prelude.v ===== *)
(** * Verification of redis-proxy

    The repository is a proxy for Redis, written in C++ (src/src), with a front
    board written in Go (src/frontboard/src).  A client connects to the proxy
    and sends requests; the proxy finds the key of each, forwards it to the
    server the key belongs to and gives the replies back in order.  The front
    board has a network library, a Redis client and a web server that
    administers Redis instances.

    This development models, of the Go code, the network library gonet
    (lib/gonet), the Redis client library (lib/redis), the web server
    (gredis_webserver) and the small packages they use (common, lib/env,
    lib/utils, lib/service, lib/glog); and, of the C++ code, the way of a
    request through the proxy and back (proxy, common), the choice of the server
    (proxy/twem, proxy/native), and the memory, buffers, hashes and timers they
    use (common).  Names of Go files below are relative to src/frontboard/src,
    names of C++ files to src/src.

    ** How the code is modelled

    A Go function is a Rocq function of the same name.  Structs are records,
    bytes are integers [Z] and byte slices lists of them, integers of a width
    are [Z] with the wrap-around written out ([wrap], [swrap]).  A computation
    that can panic has type [go A]; errors are values of inductive types, one
    per package, returned beside the result as in Go.  Shared state is passed
    explicitly.  Goroutines are step functions over a shared state, a step per
    atomic action (an access to a shared variable or channel, a critical section,
    a write to a connection), so that a test and what follows it are two steps
    where another goroutine can come between them; a run is a list of actions:
    theorems about runs hold for every interleaving.  A program that talks to Redis is a tree of commands
    ([prog] in Redisdb.v), run alone or interleaved with others.  Loops are
    structural where they can be; where fuel is needed its value is in the
    definition, and lemmas show that it is enough.

    A C++ method is a function on the state of its object.  An object is known
    by its address, a number, in a map of the objects that exist; null is 0 or
    [None].  [Panic] is here a failed [ASSERT], the use of a deleted object, the
    second release of a block, an access outside of a buffer, or other undefined
    behaviour such as an [int]
    that overflows: a theorem that a result is [Ret] says that none of these
    happens.  The proxy works in one thread, its events are the steps of a run,
    and theorems about runs hold for every order of events.

    ** The files, the code they model and what is shown

    Prelude.v (this file): the [go] type and its notation, machine integers,
    slices with Go's panics, little-endian numbers, and the lemmas and tactics
    the other files share.  Chan.v: buffered channels.  Circular.v: byte streams
    in circular arrays.  Netio.v: what is used of packages io and net.
    Gostrings.v: what is used of package strings.

    gonet:
    - Bytebuffer.v (lib/gonet/bytebuffer.go): the growable buffer is a byte
      queue, no operation panics.
    - Ring.v (ring.go): the message ring is a bounded FIFO queue, also when its
      64-bit counters wrap.
    - Framing.v, Tcptask.v, Sendloop.v (tcptask.go): the class [Framing] and the
      receive loops over it; what is sent is what is received, however the
      stream is cut; the send loop keeps the order, also when a write fails after
      a part of its bytes, loses no wake-up and can finish; a session closes once.
    - Tcpbuftask.v, Poolsend.v (tcpbuftask.go): the same for flagged frames, and
      the loop that streams a ring with interruptions between its messages; the
      stream has no gaps, and the loop panics only after [Close], which sets
      fields to nil between its tests and their use.
    - Msgbuff.v (msgbuff.go): the message pools.
    - Udptask.v (udptask.go, udpserver.go): packets, sequence numbers, dispatch.

    redis:
    - Crc16.v (lib/redis/crc16.go): the hash slot of a key is that of the
      cluster specification, the table is CRC-16/XMODEM.
    - Resp.v, Respread.v (redisConn.go): commands on the wire, and replies read
      back; the reader is total.
    - Cmdpool.v, Redisconn.v, Pipeline.v, Redisfail.v (cmdpool.go, redisConn.go,
      resultPool.go): the connection with its goroutines.  Every accepted
      command is completed exactly once or still in flight, unless flushing
      fails; on a working connection every caller gets the reply to its own
      command and everything drains; what goes wrong when flushing fails, a
      silent connection is replaced, or a reconnect leaves commands behind in the
      channel it replaces.
    - Strconv.v, Reply.v (reply.go): converting replies.
    - Packet.v (bufio.go): the packet buffer.
    - Gotype.v, Scan.v, Scantype.v (scan.go): Go values with their types,
      scanning replies into variables and structs; scanning is type safe, and
      the description of a struct type is consistent.
    - Redisdb.v: programs of Redis commands, and the class [Redis] of servers
      that do what the documentation of the commands says.
    - Helper.v, Objects.v (helper.go): keys and objects; a struct that is
      written is the struct that is read.
    - Pool.v (pool.go, script.go): addresses, the registry of pools, channels for
      results, scripts that are run once.

    web server and services:
    - Admin.v (gredis_webserver, common/error.go): the operations on the
      administration database and the request handlers.
    - Adminspec.v: the handlers implement an abstract registry, whose answers to
      look-ups are left open because the code does not look anything up, and
      whose counts are the documented ones, which the code leaves at zero;
      addresses are conserved, numbers are handed out once.
    - Adminconc.v: creations that run at the same time keep those properties and
      finish; what concurrent deletions and failed calls do.
    - Utils.v (lib/utils, lib/env): packed addresses, conversions, comments in
      the configuration.
    - Service.v (lib/service/service.go): the life of a process.
    - Initenv.v (common/env.go): the configuration applied to the log.

    the log (lib/glog):
    - Logfile.v (glog_file.go, rotateFile of glog.go): names, directories and
      headers of log files.
    - Logblock.v (syncBuffer of glog.go): the blocks a log file is buffered in,
      linked lists in a store, with the invariant that they are disjoint.
    - Logflush.v (Flush, Write and exit of glog.go): lines are written while any
      number of goroutines flush.  No line is lost, split or written twice, and
      with one flusher they stay in order; a flush on a working disk finishes
      and stores everything; a failing disk can hang the log.
    - Loghead.v: the header of a line, written by hand into a recycled array, is
      the documented one and can be read back.
    - Logflags.v: the flags; verbose logging answers as if it had no cache.
    - Logger.v: messages, their routes to the files of the severities, and the
      creation of these files; every message reaches the files it belongs to
      ([belongs], which is what the code does and not what its comments say).

    the proxy (C++):
    - Redismsg.v, Redisstream.v, Reqkey.v (proxy/redismsg.cpp): the parser, a
      state machine called again for every piece of input; it finds each reply
      in a stream, however the bytes arrive, and the key of a request, if it is
      not empty and the buffer does not move meanwhile.
    - Mempool.v (common/mempool.cpp): blocks in use are disjoint and large
      enough, if the memory of the pool was zero, as an index is not initialised.  Msgbuffer.v, Readstream.v (common/msgbuffer.cpp, the reading half
      of proxy/redisevent.cpp): every reply is handed on once, in order and
      unchanged, in a block nobody else writes.
    - Ringbuffer.v (common/ringbuffer.cpp): the rings of waiting requests are
      queues.
    - Forward.v, Forwardspec.v, Forwardinv.v, Forwardsim.v, Forwardwrite.v,
      Forwardrun.v (proxy/accesslayer.cpp, proxy/redisevent.cpp, GR_MsgIdenty
      of proxy/redismsg.cpp): the proxy as a whole refines a specification in
      which every client gets the answers to its own requests in their order,
      whichever connections are lost, as long as nothing is broadcast and every
      request that is forwarded has a connected server with room.  An identity
      records whether the block of its request has been given back.
    - Classify.v (ProcessMsg of proxy/accesslayer.cpp): which requests the proxy
      answers, forwards and sends to all the servers.
    - Hashes.v, Md5.v (common/hash.cpp): the hashes; MD5 is that of RFC 1321,
      Jenkins' hash does not depend on where the key is.
    - Dispatch.v (proxy/twem): ketama takes the next point of the ring and moves
      only the keys of a server that is added, but for points that servers share;
      modula follows the weights, as long as their sum is an [int].
    - Clusterroute.v (proxy/native/gr_clusterroute.cpp, proxy/route.cpp): the
      table of slots never leads to a deleted server, unless a connect succeeds
      or fails at once.  Clusternodes.v: after the answer to CLUSTER NODES a
      request goes to the node that the answer lists with its slot, if the nodes
      with slots are marked as working masters.
    - Redirect.v (SlotPending of proxy/redisevent.cpp): a request that is moved
      or asked joins an open connection to the address of the reply or gets an
      error; the slot moves when the server there has answered, unless there was
      an ASK, and MOVED does not go on for ever.
    - Timer.v (common/gr_timer.cpp): the linked lists of timers are a list of
      timers, whatever the callbacks do; with positive intervals and callbacks
      that leave the timers alone a round runs what is due, ten at most, and the
      proxy does not sleep longer than the next timer allows if fewer were due.
    - Package.v (common/utils.cpp, GR_MsgProcess of proxy/redismsg.cpp): numbers
      as text, and the commands the proxy sends on its own behalf; they are the
      requests they mean, written inside their blocks.

    ** How the parts interact

    Framing.v is the interface between the receive loops of the two TCP tasks
    and the buffer: the theorems about decoding are proved for every instance of
    the class.  Chan.v and Cmdpool.v are what Redisconn.v builds on.  Resp.v and
    Respread.v say what Redisconn.v puts on the wire and makes of replies;
    Redisconn.v's [interface_asks] says that the calls with a fixed number of
    arguments write the commands of the general ones, and Pipeline.v that they
    are answered in order; so Helper.v, Pool.v and Admin.v use a connection only
    through [Req].  Their theorems are proved for every instance of the class
    [Redis]; the keyspace of Redisdb.v is one.  Objects.v gives Adminspec.v the
    reading and writing of records.  Logger.v runs the buffers of Logflush.v, one
    per severity, and its theorem on messages is the composition of its own
    invariant with the refinement of Logflush.v, which in turn rests on the
    block operations of Logblock.v and the rotation of Logfile.v.

    In the proxy, Readstream.v composes the parser, the buffer and the pool:
    it uses the lemmas of Redisstream.v on where a reply ends and those
    of Mempool.v on blocks.  Forward.v works on the whole messages that
    Readstream.v and Reqkey.v deliver, with the queues of Ringbuffer.v; which
    server a request is for is an argument there, and Dispatch.v, Clusterroute.v
    and Clusternodes.v say which one it is.  Clusternodes.v runs the nodes it
    reads through the operations of Clusterroute.v, and Redirect.v composes the
    two for redirected requests.  Package.v writes requests in the form Reqkey.v
    reads.

    ** Parameters

    Formatting and parsing of floats, [Fprint] of values that are not integers,
    JSON, redis-cli, the clock, dialing, SHA-1 and the scripting of the server,
    the file system, callers and stack traces known to the runtime, and the
    order in which a range visits a map are arguments of the definitions; the
    hypotheses on them (a float is parsed as it was printed, a range visits
    every entry once, what a server does on EVAL) are named in the sections that
    use them.  In the proxy: [qsort], [inet_aton], the clock, how much a socket
    takes or gives, what comes of a [connect], the bytes in memory that is not
    initialised, and what the callbacks of timers do; in Package.v the memory
    pool, with the hypothesis that a block has the size asked for.

    ** Bounds and fuel

    Decimal numbers: the fuel of [dec] is the binary logarithm, at least the
    number of digits.  [readReply] is given one more than the length of the
    stream; every reply takes a byte.  The loops of buffered writers get one
    more than the length of the data; every round makes progress.  Walks along
    the blocks of the log get the number of blocks allocated, which bounds a list
    without repetition; the parsers of patterns one more than the length of the
    pattern.  The sizes of blocks, lines and log files are those of the source.
    Times have fields in their calendar ranges, process numbers seven digits.
    The number of instances the registry theorems allow is bounded by 2^63, where
    INCR fails; lengths on the wire by what the reader accepts.

    In the proxy a message has fewer than 2^31 bytes, because lengths are [int],
    a reply fewer than 2^26, because the buffer is enlarged fourfold, and a client
    sends fewer than 2^64 requests; the rings have the lengths of the source.  The
    parser gets three steps for every byte and four more.  Keys have fewer than
    2^61 bytes for MD5 and 2^32 for Jenkins' hash, where the source's counters
    wrap; the ketama ring fits its array ([ring_fits]), and the weights of modula
    have a sum below 2^31 - 10.  A cluster has at most 1023 servers.  Flags of a node get one more step than the text has bytes.  The
    loop over timers gets the number of timers that exist, and the pool is not
    used up: the source goes wrong then (Example [pool_used_up]).  The loops over
    digits get the rounds a 64-bit number needs.

    ** Not modelled

    Sockets, listening, dialing and accepting (tcpserver.go, tcpclient.go),
    static files and the start of the web server (main.go, parts of router.go):
    input and output.  Of the log, the ticker of the flush daemon, the time-out
    of timeoutFlush and the hook logExitFunc, which is only set while a fatal
    message is written; setting the log file after the first message.
    Time-outs are nondeterministic actions; the clock that triggers them is not
    modelled.  Of pool.go, SendSync and Flush and the setters of the time-outs.
    Vendored packages (lib/proto, lib/gogoproto, lib/protobuf, lib/yaml,
    github.com, golang.org, gopkg.in) are only called.

    Of the proxy: epoll, sockets, accepting, signals, shared memory and the
    processes (proxy.cpp, gr_masterproxy.cpp, gr_workproxy.cpp), which are system
    calls; reading the configuration; the connection to the seed node of a
    cluster with its retries, and the reply to ASKING; the sentinel's replies; replication and
    the loading of dumps (replicaevent.cpp, gr_rdb.cpp, gr_loadevent.cpp); the
    filter of keys; the distribution random; statistics and administration; the
    ring of message buffers and the packing functions that nothing calls.  Copies
    of Redis and of libraries in the repository are not part of the
    development. *)

From stdpp Require Export base list gmap strings.
From Stdlib Require Export ZArith Lia.

Declare Scope go_scope.
Delimit Scope go_scope with go.
#[global] Open Scope Z_scope.

(** ** Panics: a Go computation returns a value or panics. *)

Inductive go (A : Type) : Type :=
| Ret (a : A)
| Panic.
Arguments Ret {A} a.
Arguments Panic {A}.

Definition go_bind {A B : Type} (c : go A) (k : A -> go B) : go B :=
  match c with
  | Ret a => k a
  | Panic => Panic
  end.

Notation "'let!' x ':=' c 'in' k" := (go_bind c (fun x => k))
  (at level 10, x pattern, c at level 100, k at level 200) : go_scope.
#[global] Open Scope go_scope.

(** ** Machine integers: [wrap w z] is the conversion of [z] to an unsigned
    [w]-bit integer, [swrap w z] to a signed (two's complement) one. *)

Definition wrap (w z : Z) : Z := z mod 2 ^ w.
Definition swrap (w z : Z) : Z := (z + 2 ^ (w - 1)) mod 2 ^ w - 2 ^ (w - 1).

Abbreviation u8 := (wrap 8).
Abbreviation u16 := (wrap 16).
Abbreviation u32 := (wrap 32).
Abbreviation u64 := (wrap 64).
Abbreviation i32 := (swrap 32).
Abbreviation i64 := (swrap 64).

Definition is_byte (b : Z) : Prop := 0 <= b < 256.

(** ** Go strings and byte slices are lists of bytes, a byte is a [Z]. *)

Definition bytes : Type := list Z.

Fixpoint str (s : string) : list Z :=
  match s with
  | EmptyString => []
  | String c s => Z.of_N (Ascii.N_of_ascii c) :: str s
  end.

(** ** Slices: indexing, slicing and [copy] with Go's bounds checks.

    Every slice of the modelled code comes from [make], so its capacity is
    its length and the bounds checks are against the length. *)

Section slices.
Context {A : Type}.
Implicit Types (l src dst : list A) (i j : Z).

Definition zlen (l : list A) : Z := Z.of_nat (length l).

Definition zget (l : list A) (i : Z) : go A :=
  if decide (0 <= i) then
    match l !! Z.to_nat i with
    | Some x => Ret x
    | None => Panic
    end
  else Panic.

Definition zset (l : list A) (i : Z) (x : A) : go (list A) :=
  if decide (0 <= i < zlen l) then Ret (<[Z.to_nat i := x]> l) else Panic.

(** [sub l i j] are the elements at [i <= k < j]. *)
Definition sub (l : list A) (i j : Z) : list A :=
  take (Z.to_nat (j - i)) (drop (Z.to_nat i) l).

(** [slice l i j] is the Go expression [l[i:j]]. *)
Definition slice (l : list A) (i j : Z) : go (list A) :=
  if decide (0 <= i /\ i <= j /\ j <= zlen l) then Ret (sub l i j) else Panic.

(** [overwrite dst off src]: [dst] with as much of [src] as fits written at
    [off]. *)
Definition overwrite (dst : list A) (off : nat) (src : list A) : list A :=
  take off dst ++ take (length dst - off) src ++ drop (off + length src) dst.

(** [copy_to dst off src] is the array [dst] after [copy(dst[off:], src)]. *)
Definition copy_to (dst : list A) (off : Z) (src : list A) : go (list A) :=
  if decide (0 <= off <= zlen dst) then Ret (overwrite dst (Z.to_nat off) src)
  else Panic.

End slices.

(** [make([]byte, n)]. *)
Definition zeros (n : Z) : list Z := replicate (Z.to_nat n) 0.

Definition make_bytes (n : Z) : go (list Z) :=
  if decide (0 <= n) then Ret (zeros n) else Panic.

(** [le_bytes k v]: the [k] low bytes of [v], least significant first, as
    written by [binary.LittleEndian.PutUintXX] and by the [byte(v)],
    [byte(v>>8)], ... sequences of the frame headers. *)
Fixpoint le_bytes (k : nat) (v : Z) : list Z :=
  match k with
  | O => []
  | S k => u8 v :: le_bytes k (Z.shiftr v 8)
  end.

(** The inverse, [b[0] | b[1]<<8 | ...]. *)
Fixpoint le_value (l : list Z) : Z :=
  match l with
  | [] => 0
  | b :: l => Z.lor b (Z.shiftl (le_value l) 8)
  end.

#[global] Arguments zeros : simpl never.
#[global] Arguments zlen {A} l : simpl never.
#[global] Arguments zget {A} l i : simpl never.
#[global] Arguments zset {A} l i x : simpl never.
#[global] Arguments sub {A} l i j : simpl never.
#[global] Arguments slice {A} l i j : simpl never.
#[global] Arguments overwrite {A} dst off src : simpl never.
#[global] Arguments copy_to {A} dst off src : simpl never.
#[global] Arguments wrap : simpl never.
#[global] Arguments swrap : simpl never.

(** ** Proof automation *)

Create HintDb go discriminated.

(** Split the conditionals of a model, turning boolean tests into
    propositions, and simplify. *)
Ltac case_test :=
  match goal with
  | |- context [decide ?P] => destruct (decide P)
  | H : context [decide ?P] |- _ => destruct (decide P)
  | |- context [Z.ltb ?x ?y] => destruct (Z.ltb_spec x y)
  | |- context [Z.leb ?x ?y] => destruct (Z.leb_spec x y)
  | |- context [Z.eqb ?x ?y] => destruct (Z.eqb_spec x y)
  | H : context [Z.ltb ?x ?y] |- _ => destruct (Z.ltb_spec x y)
  | H : context [Z.leb ?x ?y] |- _ => destruct (Z.leb_spec x y)
  | H : context [Z.eqb ?x ?y] |- _ => destruct (Z.eqb_spec x y)
  end.

Ltac go_simp := repeat first [progress simplify_eq/= | case_test]; try done.

(** ** Lists *)

Section slice_lemmas.
Context {A : Type}.
Implicit Types (l src dst : list A) (i j k : Z).

Lemma zlen_nonneg l : 0 <= zlen l.
Proof. unfold zlen; lia. Qed.

Lemma zlen_nil : zlen (@nil A) = 0.
Proof. done. Qed.

Lemma zlen_cons x l : zlen (x :: l) = 1 + zlen l.
Proof. unfold zlen; simpl; lia. Qed.

Lemma zlen_pos l : l <> [] -> 0 < zlen l.
Proof. destruct l; [done|]. unfold zlen; simpl; lia. Qed.

Lemma zlen_app l src : zlen (l ++ src) = zlen l + zlen src.
Proof. unfold zlen; rewrite length_app; lia. Qed.

Lemma zlen_take n l : zlen (take n l) = Z.min (Z.of_nat n) (zlen l).
Proof. unfold zlen; rewrite length_take; lia. Qed.

Lemma zlen_drop n l : zlen (drop n l) = Z.max 0 (zlen l - Z.of_nat n).
Proof. unfold zlen; rewrite length_drop; lia. Qed.

Lemma zlen_sub l i j : 0 <= i -> i <= j -> j <= zlen l -> zlen (sub l i j) = j - i.
Proof. intros; unfold sub; rewrite zlen_take, zlen_drop; lia. Qed.

Lemma length_overwrite dst off src :
  (off <= length dst)%nat -> length (overwrite dst off src) = length dst.
Proof.
  intros; unfold overwrite. rewrite !length_app, !length_take, length_drop. lia.
Qed.

Lemma zlen_overwrite dst i src :
  0 <= i <= zlen dst -> zlen (overwrite dst (Z.to_nat i) src) = zlen dst.
Proof.
  unfold zlen; intros. rewrite length_overwrite; lia.
Qed.

Lemma slice_ok l i j :
  0 <= i -> i <= j -> j <= zlen l -> slice l i j = Ret (sub l i j).
Proof. intros. unfold slice. rewrite decide_True; [done | lia]. Qed.

Lemma copy_to_ok dst i src :
  0 <= i <= zlen dst -> copy_to dst i src = Ret (overwrite dst (Z.to_nat i) src).
Proof. intros. unfold copy_to. by rewrite decide_True. Qed.

(** Lookup in an overwritten array. *)
Lemma lookup_overwrite dst off src k :
  (off <= length dst)%nat ->
  overwrite dst off src !! Z.to_nat k =
    (if decide (off <= Z.to_nat k < off + length src /\ Z.to_nat k < length dst)%nat
     then src !! (Z.to_nat k - off)%nat else dst !! Z.to_nat k).
Proof.
  intros Hoff. unfold overwrite. set (n := Z.to_nat k).
  destruct (decide (n < off)%nat).
  { rewrite lookup_app_l by (rewrite length_take; lia).
    rewrite lookup_take_lt by lia. rewrite decide_False by lia. done. }
  rewrite lookup_app_r by (rewrite length_take; lia). rewrite length_take.
  replace (n - off `min` length dst)%nat with (n - off)%nat by lia.
  case_decide.
  - rewrite lookup_app_l by (rewrite length_take; lia).
    rewrite lookup_take_lt by lia. done.
  - rewrite lookup_app_r by (rewrite length_take; lia). rewrite length_take, lookup_drop.
    destruct (decide (n < length dst)%nat).
    + f_equal; lia.
    + rewrite !lookup_ge_None_2 by lia. done.
Qed.

Lemma sub_nil l i : sub l i i = [].
Proof. unfold sub. by rewrite Z.sub_diag. Qed.

Lemma sub_full l : sub l 0 (zlen l) = l.
Proof. unfold sub, zlen. rewrite Z.sub_0_r, Nat2Z.id. by rewrite firstn_all. Qed.

Lemma sub_app l i j k : 0 <= i <= j -> j <= k -> sub l i k = sub l i j ++ sub l j k.
Proof.
  intros. unfold sub.
  replace (Z.to_nat (k - i)) with (Z.to_nat (j - i) + Z.to_nat (k - j))%nat by lia.
  rewrite <- take_take_drop, drop_drop. do 3 f_equal. lia.
Qed.

Lemma drop_sub l i j k : 0 <= i -> 0 <= k -> i + k <= j ->
  drop (Z.to_nat k) (sub l i j) = sub l (i + k) j.
Proof.
  intros. unfold sub. rewrite skipn_firstn_comm, drop_drop. f_equal; [lia|]. f_equal. lia.
Qed.

Lemma take_sub l i j k : 0 <= k -> i + k <= j -> take (Z.to_nat k) (sub l i j) = sub l i (i + k).
Proof. intros. unfold sub. rewrite take_take. f_equal. lia. Qed.

Lemma sub_overwrite_before dst i j k src :
  0 <= i -> j <= k -> k <= zlen dst ->
  sub (overwrite dst (Z.to_nat k) src) i j = sub dst i j.
Proof.
  intros. unfold sub. destruct (decide (j <= i)).
  { replace (Z.to_nat (j - i)) with 0%nat by lia. done. }
  unfold overwrite, zlen in *.
  rewrite drop_app_le by (rewrite length_take; lia).
  rewrite take_app_le by (rewrite length_drop, length_take; lia).
  rewrite skipn_firstn_comm, take_take. f_equal. lia.
Qed.

Lemma sub_overwrite_at dst k src :
  0 <= k -> k + zlen src <= zlen dst ->
  sub (overwrite dst (Z.to_nat k) src) k (k + zlen src) = src.
Proof.
  intros. unfold sub, overwrite, zlen in *.
  rewrite drop_app_ge by (rewrite length_take; lia).
  rewrite length_take. replace (Z.to_nat k - _)%nat with 0%nat by lia. rewrite drop_0.
  rewrite (take_ge src) by lia. rewrite take_app_le by lia. apply take_ge. lia.
Qed.

Lemma sub_app_l l src i j : 0 <= i -> j <= zlen l -> sub (l ++ src) i j = sub l i j.
Proof.
  intros. unfold sub, zlen in *. destruct (decide (j <= i)).
  { by replace (Z.to_nat (j - i)) with 0%nat by lia. }
  rewrite drop_app_le by lia. rewrite take_app_le by (rewrite length_drop; lia). done.
Qed.

Lemma sub_app_r_full l src : sub (l ++ src) (zlen l) (zlen l + zlen src) = src.
Proof.
  unfold sub, zlen. rewrite Nat2Z.id, drop_app_length. apply take_ge. lia.
Qed.

(** Writing behind a prefix. *)
Lemma overwrite_rest (a pad src : list A) : (length src <= length pad)%nat ->
  overwrite (a ++ pad) (length a) src = a ++ src ++ drop (length src) pad.
Proof.
  intros Hl. unfold overwrite. rewrite take_app_length, length_app, take_ge by lia.
  by rewrite drop_app_ge, Nat.add_sub_swap, Nat.sub_diag by lia.
Qed.

Lemma overwrite_0 dst src : (length src <= length dst)%nat ->
  overwrite dst 0 src = src ++ drop (length src) dst.
Proof. intros. unfold overwrite. simpl. by rewrite Nat.sub_0_r, take_ge. Qed.

(** Filling the tail of an array. *)
Lemma overwrite_tail hd tl src : length tl = length src ->
  overwrite (hd ++ tl) (length hd) src = hd ++ src.
Proof.
  intros E. unfold overwrite. rewrite take_app_length, length_app.
  rewrite take_ge, drop_ge by (rewrite ?length_app; lia). by rewrite app_nil_r.
Qed.

(** Appending at the end of a window. *)
Lemma sub_overwrite_app dst i k src :
  0 <= i <= k -> k + zlen src <= zlen dst ->
  sub (overwrite dst (Z.to_nat k) src) i (k + zlen src) = sub dst i k ++ src.
Proof.
  intros. pose proof (zlen_nonneg src).
  rewrite (sub_app _ i k) by lia. rewrite sub_overwrite_at by lia.
  rewrite sub_overwrite_before by lia. done.
Qed.

Lemma zget_ok l i x : 0 <= i -> l !! Z.to_nat i = Some x -> zget l i = Ret x.
Proof. intros ? Hx. unfold zget. rewrite decide_True by done. by rewrite Hx. Qed.

Lemma zset_ok l i x : 0 <= i < zlen l -> zset l i x = Ret (<[Z.to_nat i := x]> l).
Proof. intros. unfold zset. by rewrite decide_True. Qed.

(** Setting the element behind a window. *)
Lemma sub_insert_app l i k x : 0 <= i <= k -> k < zlen l ->
  sub (<[Z.to_nat k := x]> l) i (k + 1) = sub l i k ++ [x].
Proof.
  intros Hi Hk. assert (<[Z.to_nat k := x]> l = overwrite l (Z.to_nat k) [x]) as ->.
  { unfold overwrite, zlen in *. rewrite insert_take_drop by lia.
    rewrite (take_ge [x]) by (cbn [length]; lia). cbn [length app]. by rewrite Nat.add_1_r. }
  apply (sub_overwrite_app l i k [x]); [done|]. unfold zlen in *. simpl. lia.
Qed.

Lemma zlen_insert l n x : zlen (<[n := x]> l) = zlen l.
Proof. unfold zlen. by rewrite length_insert. Qed.

End slice_lemmas.

Lemma zlen_fmap {A B : Type} (f : A -> B) (l : list A) : zlen (f <$> l) = zlen l.
Proof. unfold zlen. by rewrite length_fmap. Qed.

Lemma zlen_zeros n : 0 <= n -> zlen (zeros n) = n.
Proof. intros. unfold zlen, zeros. rewrite length_replicate. lia. Qed.

Lemma length_le_bytes k v : length (le_bytes k v) = k.
Proof. revert v; induction k; simpl; intros; congruence. Qed.

Lemma zlen_le_bytes k v : zlen (le_bytes k v) = Z.of_nat k.
Proof. unfold zlen. by rewrite length_le_bytes. Qed.

Lemma le_bytes_is_byte k v : Forall is_byte (le_bytes k v).
Proof.
  revert v; induction k; simpl; intros; constructor; [|done].
  unfold is_byte, wrap. apply Z.mod_pos_bound. lia.
Qed.

(** Reading back the [k] bytes of [v] gives [v] modulo [2^(8k)]. *)
Lemma le_value_bytes k v : le_value (le_bytes k v) = v mod 2 ^ (8 * Z.of_nat k).
Proof.
  revert v; induction k as [|k IH]; intros v; cbn [le_bytes le_value].
  - by rewrite Z.mod_1_r.
  - rewrite IH. unfold wrap. rewrite <- !Z.land_ones by lia.
    apply Z.bits_inj'. intros n Hn.
    rewrite Z.lor_spec, Z.shiftl_spec, !Z.land_spec, !Z.testbit_ones by lia.
    destruct (Z.ltb_spec n 8).
    + rewrite (Z.testbit_neg_r _ (n - 8)) by lia.
      destruct (Z.leb_spec 0 n), (Z.ltb_spec n (8 * Z.of_nat (S k))); try lia.
      by destruct (Z.testbit v n).
    + rewrite Z.shiftr_spec by lia.
      replace (n - 8 + 8) with n by lia.
      destruct (Z.leb_spec 0 n), (Z.leb_spec 0 (n - 8)); try lia.
      destruct (Z.ltb_spec (n - 8) (8 * Z.of_nat k)),
        (Z.ltb_spec n (8 * Z.of_nat (S k))); try lia;
        by destruct (Z.testbit v n).
Qed.

Lemma le_value_nonneg l : Forall is_byte l -> 0 <= le_value l.
Proof.
  induction 1 as [|b l Hb _ IH]; simpl; [done|]. apply Z.lor_nonneg.
  split; [unfold is_byte in Hb; lia|]. by apply Z.shiftl_nonneg.
Qed.

Lemma le_value_bytes_small k v :
  0 <= v < 2 ^ (8 * Z.of_nat k) -> le_value (le_bytes k v) = v.
Proof. intros. rewrite le_value_bytes. by apply Z.mod_small. Qed.

(** ** Machine integers *)

Lemma wrap_range w z : 0 <= w -> 0 <= wrap w z < 2 ^ w.
Proof. intros. apply Z.mod_pos_bound. apply Z.pow_pos_nonneg; lia. Qed.

Lemma wrap_small w z : 0 <= z < 2 ^ w -> wrap w z = z.
Proof. apply Z.mod_small. Qed.

(** Reduction modulo a smaller power of two does not see a wrap. *)
Lemma wrap_mod_pow2 w k z : 0 <= k <= w -> wrap w z mod 2 ^ k = z mod 2 ^ k.
Proof.
  intros. unfold wrap. apply Z.mod_mod_divide. exists (2 ^ (w - k)).
  rewrite <- Z.pow_add_r by lia. f_equal. lia.
Qed.

Lemma land_mask k z : 0 <= k -> Z.land z (2 ^ k - 1) = z mod 2 ^ k.
Proof.
  intros. replace (2 ^ k - 1) with (Z.ones k) by (rewrite Z.ones_equiv; lia).
  by apply Z.land_ones.
Qed.

Lemma swrap_small w z : 0 < w -> - 2 ^ (w - 1) <= z < 2 ^ (w - 1) -> swrap w z = z.
Proof.
  intros. unfold swrap. assert (2 ^ w = 2 * 2 ^ (w - 1)).
  { rewrite <- Z.pow_succ_r by lia. f_equal. lia. }
  rewrite Z.mod_small; lia.
Qed.

Lemma swrap_range w z : 0 < w -> - 2 ^ (w - 1) <= swrap w z < 2 ^ (w - 1).
Proof.
  intros. unfold swrap. assert (2 ^ w = 2 * 2 ^ (w - 1)).
  { rewrite <- Z.pow_succ_r by lia. f_equal. lia. }
  pose proof (Z.mod_pos_bound (z + 2 ^ (w - 1)) (2 ^ w)).
  pose proof (Z.pow_pos_nonneg 2 (w - 1)). lia.
Qed.

Lemma drop_app_zlen {A} (a b : list A) : drop (Z.to_nat (zlen a)) (a ++ b) = b.
Proof. unfold zlen. rewrite Nat2Z.id. apply drop_app_length. Qed.

Lemma take_app_zlen {A} (a b : list A) : take (Z.to_nat (zlen a)) (a ++ b) = a.
Proof. unfold zlen. rewrite Nat2Z.id. apply take_app_length. Qed.

Lemma slice_app {A} (x y z : list A) : slice (x ++ y ++ z) (zlen x) (zlen x + zlen y) = Ret y.
Proof.
  unfold slice. rewrite decide_True by (rewrite !zlen_app; pose proof (zlen_nonneg x); pose proof (zlen_nonneg y); pose proof (zlen_nonneg z); lia).
  unfold sub. f_equal. replace (Z.to_nat (zlen x + zlen y - zlen x)) with (length y) by (unfold zlen; lia).
  replace (Z.to_nat (zlen x)) with (length x) by (unfold zlen; lia). by rewrite drop_app_length, take_app_length.
Qed.

Lemma swrap_cong w a b : a mod 2 ^ w = b mod 2 ^ w -> swrap w a = swrap w b.
Proof.
  intros E. unfold swrap. by rewrite <- (Zplus_mod_idemp_l a), E, Zplus_mod_idemp_l.
Qed.

Lemma swrap_mod w a : 0 < w -> swrap w a mod 2 ^ w = a mod 2 ^ w.
Proof.
  intros Hw. unfold swrap. rewrite Zminus_mod_idemp_l. f_equal. lia.
Qed.

Lemma swrap_add_l w a b : 0 < w -> swrap w (swrap w a + b) = swrap w (a + b).
Proof.
  intros Hw. apply swrap_cong. by rewrite <- Zplus_mod_idemp_l, swrap_mod, Zplus_mod_idemp_l.
Qed.

Lemma swrap_mul_l w a b : 0 < w -> swrap w (swrap w a * b) = swrap w (a * b).
Proof.
  intros Hw. apply swrap_cong. by rewrite <- Zmult_mod_idemp_l, swrap_mod, Zmult_mod_idemp_l.
Qed.

Lemma swrap_opp w a : 0 < w -> swrap w (- swrap w a) = swrap w (- a).
Proof.
  intros Hw. apply swrap_cong. rewrite <- !(Z.sub_0_l), <- Zminus_mod_idemp_r, swrap_mod by done.
  by rewrite Zminus_mod_idemp_r.
Qed.

Lemma lor_range n x y : 0 <= n -> 0 <= x < 2 ^ n -> 0 <= y < 2 ^ n -> 0 <= Z.lor x y < 2 ^ n.
Proof.
  intros Hn Hx Hy. rewrite <- (Z.mod_small x (2 ^ n)), <- (Z.mod_small y (2 ^ n)) by done.
  rewrite <- !Z.land_ones by done. rewrite <- Z.land_lor_distr_l, Z.land_ones by done.
  apply Z.mod_pos_bound. apply Z.pow_pos_nonneg; lia.
Qed.

Lemma lxor_range n x y : 0 <= n -> 0 <= x < 2 ^ n -> 0 <= y < 2 ^ n -> 0 <= Z.lxor x y < 2 ^ n.
Proof.
  intros Hn Hx Hy. assert (0 <= Z.lxor x y) by (apply Z.lxor_nonneg; lia).
  split; [done|]. rewrite <- (Z.mod_small x (2 ^ n)), <- (Z.mod_small y (2 ^ n)) by done.
  rewrite <- !Z.land_ones by done.
  replace (Z.lxor _ _) with (Z.land (Z.lxor x y) (Z.ones n)).
  - rewrite Z.land_ones by done. apply Z.mod_pos_bound. apply Z.pow_pos_nonneg; lia.
  - apply Z.bits_inj'. intros i _. rewrite Z.land_spec, !Z.lxor_spec, !Z.land_spec.
    by destruct (Z.testbit x i), (Z.testbit y i), (Z.testbit (Z.ones n) i).
Qed.

Lemma fold_left_cons {A B : Type} (f : A -> B -> A) x l a :
  fold_left f (x :: l) a = fold_left f l (f a x).
Proof. done. Qed.

#[global] Arguments le_bytes : simpl never.
