(* ===== verification/Gostrings.v ===== *)
(** * What the sources use of package strings

    Bytes stand for the characters of strings, and separators are not empty. *)

From S2P Require Import Prelude.

(** Package strings' [Split] at a one-byte separator. *)
Fixpoint Split (sep : Z) (s : list Z) : list (list Z) :=
  match s with
  | [] => [[]]
  | b :: s =>
      if b =? sep then [] :: Split sep s
      else match Split sep s with [] => [[b]] | p :: ps => (b :: p) :: ps end
  end.

Fixpoint has_prefix (p s : list Z) : bool :=
  match p, s with
  | [], _ => true
  | x :: p, y :: s => (x =? y) && has_prefix p s
  | _ :: _, [] => false
  end.

(** [strings.Split] at a separator of any positive length: [skip] bytes of a
    separator are still to be passed over. *)
Fixpoint split_at (sep : list Z) (skip : nat) (s : list Z) : list (list Z) :=
  match s with
  | [] => [[]]
  | b :: s' =>
      match skip with
      | S n => split_at sep n s'
      | O =>
          if has_prefix sep s then [] :: split_at sep (length sep - 1) s'
          else match split_at sep 0 s' with [] => [[b]] | p :: ps => (b :: p) :: ps end
      end
  end.

Definition SplitStr (s sep : list Z) : list (list Z) := split_at sep 0 s.

Definition has_suffix (p s : list Z) : bool := has_prefix (rev p) (rev s).

(** [strings.LastIndex] of one byte. *)
Fixpoint last_index (s : list Z) (b : Z) (i found : Z) : Z :=
  match s with
  | [] => found
  | x :: s => last_index s b (i + 1) (if x =? b then i else found)
  end.
Definition LastIndex (s : list Z) (b : Z) : Z := last_index s b 0 (-1).

(** [if i := strings.LastIndex(file, slash); i >= 0 { file = file[i+1:] }] *)
Definition base_name (file : list Z) : go (list Z) :=
  let i := LastIndex file 47 in
  if 0 <=? i then slice file (i + 1) (zlen file) else Ret file.

(** [strings.ContainsAny] *)
Definition ContainsAny (s chars : list Z) : bool := existsb (fun b => existsb (Z.eqb b) chars) s.

(** [strings.ToUpper] of ASCII letters. *)
Definition upper (b : Z) : Z := if (97 <=? b) && (b <=? 122) then b - 32 else b.
Definition ToUpper (s : list Z) : list Z := upper <$> s.

Lemma Split_none sep s : sep ∉ s -> Split sep s = [s].
Proof.
  induction s as [|b s IH]; [done|]. intros [Hb Hs]%not_elem_of_cons. cbn. rewrite (proj2 (Z.eqb_neq _ _)) by congruence.
  by rewrite IH.
Qed.

Lemma Split_app sep s rest : sep ∉ s -> Split sep (s ++ sep :: rest) = s :: Split sep rest.
Proof.
  induction s as [|b s IH]; [cbn; by rewrite Z.eqb_refl|]. intros [Hb Hs]%not_elem_of_cons. cbn.
  rewrite (proj2 (Z.eqb_neq _ _)) by congruence. by rewrite IH.
Qed.

Lemma last_index_none s b : forall i found, b ∉ s -> last_index s b i found = found.
Proof.
  induction s as [|x s IH]; intros i found Hs; [done|]. apply not_elem_of_cons in Hs as [Hx Hs]. cbn.
  rewrite (proj2 (Z.eqb_neq _ _)) by congruence. by apply IH.
Qed.

Lemma last_index_at pre b post : forall i found, b ∉ post -> last_index (pre ++ b :: post) b i found = i + zlen pre.
Proof.
  induction pre as [|x pre IH]; intros i found Hp.
  - cbn. rewrite Z.eqb_refl, last_index_none by done. rewrite zlen_nil. lia.
  - cbn [app last_index]. rewrite IH, zlen_cons by done. lia.
Qed.

Lemma LastIndex_at pre b post : b ∉ post -> LastIndex (pre ++ b :: post) b = zlen pre.
Proof. intros Hp. unfold LastIndex. rewrite last_index_at by done. lia. Qed.

Lemma last_index_range s b : forall i found, last_index s b i found = found \/ i <= last_index s b i found < i + zlen s.
Proof.
  induction s as [|x s IH]; intros i found; cbn; [by left|]. rewrite zlen_cons.
  destruct (IH (i + 1) (if x =? b then i else found)) as [->|?]; [|lia]. pose proof (zlen_nonneg s).
  destruct (x =? b); [right; lia|by left].
Qed.

Lemma base_name_total file : exists r, base_name file = Ret r.
Proof.
  unfold base_name, LastIndex. destruct (last_index_range file 47 0 (-1)) as [->|H]; [by eexists|].
  rewrite (proj2 (Z.leb_le _ _)) by lia. unfold slice. rewrite decide_True by lia. by eexists.
Qed.

Lemma base_name_path dir base : 47 ∉ base -> base_name (dir ++ 47 :: base) = Ret base.
Proof.
  intros Hb. unfold base_name. rewrite LastIndex_at by done. rewrite (proj2 (Z.leb_le _ _)) by apply zlen_nonneg.
  rewrite <- (slice_app (dir ++ [47]) base []). rewrite app_nil_r, <- app_assoc, !zlen_app, zlen_cons.
  f_equal; cbn; rewrite ?zlen_cons, ?zlen_nil; lia.
Qed.
