(* ===== verification/Chan.v ===== *)
(** * Buffered Go channels

    A channel as the operations of the packages see it: its capacity, the
    values queued in it and whether it is closed.  Sending on or closing a
    closed channel panics; a receive from a closed and drained channel yields
    the zero value at once. *)

From S2P Require Import Prelude.

Record chan (A : Type) := mkChan { cap : nat; items : list A; chclosed : bool }.
Arguments mkChan {A} _ _ _.
Arguments cap {A} _.
Arguments items {A} _.
Arguments chclosed {A} _.

Section Chan.
Context {A : Type}.
Implicit Types (c : chan A) (x : A).

(** [make(chan A, n)] *)
Definition make_chan (n : nat) : chan A := {| cap := n; items := []; chclosed := false |}.

Definition full c : bool := (cap c <=? length (items c))%nat.

Definition push c x : chan A :=
  {| cap := cap c; items := items c ++ [x]; chclosed := chclosed c |}.

(** [select { case c <- x: default: }] when no receiver is waiting: the new
    channel and whether the value was queued. *)
Definition try_send c x : go (chan A * bool) :=
  if chclosed c then Panic else if full c then Ret (c, false) else Ret (push c x, true).

(** [c <- x]: [None] when the sender blocks. *)
Definition send c x : go (option (chan A)) :=
  if chclosed c then Panic else if full c then Ret None else Ret (Some (push c x)).

(** [close(c)] *)
Definition close_chan c : go (chan A) :=
  if chclosed c then Panic else Ret {| cap := cap c; items := items c; chclosed := true |}.

Inductive received : Type :=
| RecvBlocks
| RecvClosed
| RecvValue (x : A) (c : chan A).

(** [<-c] *)
Definition recv c : received :=
  match items c with
  | x :: xs => RecvValue x {| cap := cap c; items := xs; chclosed := chclosed c |}
  | [] => if chclosed c then RecvClosed else RecvBlocks
  end.

Lemma recv_value c x c' : recv c = RecvValue x c' ->
  items c = x :: items c' /\ cap c' = cap c /\ chclosed c' = chclosed c.
Proof. unfold recv. destruct (items c) as [|y l] eqn:E; [by destruct (chclosed c)|]. by intros [= -> <-]. Qed.

Lemma recv_blocks c : recv c = RecvBlocks -> items c = [] /\ chclosed c = false.
Proof. unfold recv. destruct (items c) as [|y l] eqn:E; [by destruct (chclosed c)|done]. Qed.

Lemma send_value c x c' : send c x = Ret (Some c') ->
  items c' = items c ++ [x] /\ cap c' = cap c /\ chclosed c' = false /\ chclosed c = false.
Proof. unfold send. destruct (chclosed c) eqn:E; [done|]. destruct (full c); [done|]. intros [= <-]. simpl. by rewrite E. Qed.

(** ** Wake-up channels *)

(** An open channel that holds at most one token. *)
Definition wakeup c : Prop := cap c = 1%nat /\ chclosed c = false.

Lemma wakeup_make : wakeup (make_chan 1).
Proof. done. Qed.

(** A non-blocking send to a wake-up channel leaves a token in it, whether or
    not one was there. *)
Lemma wakeup_try_send c x : wakeup c ->
  exists c' ok, try_send c x = Ret (c', ok) /\ wakeup c' /\ items c' <> [].
Proof.
  intros [Hcap Hcl]. unfold try_send. rewrite Hcl. destruct (full c) eqn:Hf.
  - exists c, false. split; [done|]. split; [done|]. unfold full in Hf. rewrite Hcap in Hf.
    by destruct (items c).
  - exists (push c x), true. split; [done|]. split; [done|]. simpl. by destruct (items c).
Qed.

End Chan.

Arguments received : clear implicits.
#[export] Hint Resolve wakeup_make : go.
