(* ===== verification/Circular.v ===== *)
(** * Circular buffers

    A byte stream kept in a fixed array: byte [i] of the stream is at [i]
    modulo the size.  [produce] is the reference writer, [ring_holds] says that
    the array holds the last bytes of a stream, [section_spec] gives the
    contiguous part of the array that starts at a stream position. *)

From S2P Require Import Prelude.

(** Write [bs] at stream position [i]. *)
Fixpoint produce (mem : list Z) (i : Z) (bs : list Z) : list Z :=
  match bs with
  | [] => mem
  | b :: bs => produce (<[Z.to_nat (i mod zlen mem) := b]> mem) (i + 1) bs
  end.

(** The ring holds the last bytes of the stream. *)
Definition ring_holds (mem hist : list Z) : Prop :=
  0 < zlen mem /\ forall i, 0 <= i < zlen hist -> zlen hist - zlen mem <= i ->
    mem !! Z.to_nat (i mod zlen mem) = hist !! Z.to_nat i.

(** ** Facts *)

Lemma lookup_sub {A} (l : list A) i j k : 0 <= i -> 0 <= k -> i + k < j ->
  sub l i j !! Z.to_nat k = l !! Z.to_nat (i + k).
Proof.
  intros. unfold sub. rewrite lookup_take, lookup_drop, Z2Nat.inj_add by lia. case_decide; [done|lia].
Qed.

Lemma mod_neq i j L : 0 < L -> 0 < i - j < L -> i mod L <> j mod L.
Proof.
  intros HL Hd Heq. pose proof (Z.div_mod i L ltac:(lia)). pose proof (Z.div_mod j L ltac:(lia)).
  assert (L * (i / L - j / L) = i - j) by lia. destruct (Z.le_gt_cases (i / L - j / L) 0); nia.
Qed.

Lemma zlen_produce bs : forall mem i, zlen (produce mem i bs) = zlen mem.
Proof. induction bs as [|b bs IH]; intros mem i; simpl; [done|]. by rewrite IH, zlen_insert. Qed.

Lemma produce_one mem hist b : ring_holds mem hist ->
  ring_holds (<[Z.to_nat (zlen hist mod zlen mem) := b]> mem) (hist ++ [b]).
Proof.
  intros [HL Hr]. unfold ring_holds. rewrite zlen_insert, zlen_app. change (zlen [b]) with 1. split; [done|].
  intros i Hi Hwin. pose proof (zlen_nonneg hist). destruct (decide (i = zlen hist)) as [->|Hne].
  - rewrite list_lookup_insert_eq.
    + unfold zlen. rewrite Nat2Z.id. by rewrite list_lookup_middle.
    + pose proof (Z.mod_pos_bound (zlen hist) (zlen mem) HL).
      assert (Z.of_nat (length mem) = zlen mem) by done. lia.
  - rewrite list_lookup_insert_ne.
    + rewrite lookup_app_l by (unfold zlen in *; lia). apply Hr; lia.
    + pose proof (Z.mod_pos_bound i (zlen mem) HL). pose proof (Z.mod_pos_bound (zlen hist) (zlen mem) HL).
      pose proof (mod_neq (zlen hist) i (zlen mem) HL ltac:(lia)). lia.
Qed.

Lemma produce_holds bs : forall mem hist, ring_holds mem hist ->
  ring_holds (produce mem (zlen hist) bs) (hist ++ bs).
Proof.
  induction bs as [|b bs IH]; intros mem hist Hr; simpl; [by rewrite app_nil_r|].
  apply produce_one with (b := b) in Hr. apply IH in Hr. rewrite zlen_app in Hr.
  change (zlen [b]) with 1 in Hr. by rewrite <- app_assoc in Hr.
Qed.

(** The section of the ring between two indices at most its size apart. *)
Lemma section_arith L S E : 0 < L -> 0 <= S < E -> E - S <= L ->
  let a := S mod L in let b := if S mod L <? E mod L then E mod L else L in
  0 <= a < b /\ b <= L /\ S + (b - a) <= E /\
  (S mod L = 0 -> S + (b - a) = E) /\ (S + (b - a) = E \/ (S + (b - a)) mod L = 0).
Proof.
  intros HL HS HE a b. subst a b.
  pose proof (Z.mod_pos_bound S L HL). pose proof (Z.mod_pos_bound E L HL).
  pose proof (Z.div_mod S L ltac:(lia)). pose proof (Z.div_mod E L ltac:(lia)).
  set (q := S / L) in *. set (q' := E / L) in *.
  assert (L * (q' - q) = (E - S) - (E mod L - S mod L)) by lia.
  case_test.
  - assert (q' - q = 0) by (assert (q' - q = 0 \/ q' - q <= -1 \/ 1 <= q' - q) as [|[|]] by lia; nia).
    split_and!; lia.
  - assert (q' - q = 1) by (assert (q' - q <= 0 \/ q' - q = 1 \/ 2 <= q' - q) as [|[|]] by lia; nia).
    split_and!; try nia. right. replace (S + (L - S mod L)) with ((q + 1) * L) by nia. apply Z.mod_mul. lia.
Qed.

Lemma mod_shift S L k : 0 < L -> 0 <= k -> S mod L + k < L -> (S + k) mod L = S mod L + k.
Proof.
  intros HL Hk Hlt. pose proof (Z.mod_pos_bound S L HL).
  rewrite <- (Z.mod_small (S mod L + k) L) by lia. by rewrite Z.add_mod_idemp_l by lia.
Qed.

(** A contiguous part of the ring that starts at a stream position. *)
Lemma section_at mem hist S k : ring_holds mem hist -> 0 <= S -> 0 <= k -> S + k <= zlen hist -> zlen hist - S <= zlen mem ->
  S mod zlen mem + k <= zlen mem ->
  slice mem (S mod zlen mem) (S mod zlen mem + k) = Ret (sub hist S (S + k)).
Proof.
  intros [HL Hr] HS Hk Hsum HE Hb. pose proof (Z.mod_pos_bound S (zlen mem) HL). rewrite slice_ok by lia. f_equal.
  apply list_eq_same_length with (n := Z.to_nat k).
  - pose proof (zlen_sub hist S (S + k)). unfold zlen in *. lia.
  - pose proof (zlen_sub mem (S mod zlen mem) (S mod zlen mem + k)). unfold zlen in *. lia.
  - intros i x y Hi. rewrite <- (Nat2Z.id i).
    rewrite (lookup_sub mem (S mod zlen mem)), (lookup_sub hist S) by lia. rewrite <- (Hr (S + Z.of_nat i)) by lia.
    rewrite (mod_shift S) by lia. congruence.
Qed.

Lemma section_spec mem hist S : ring_holds mem hist -> 0 <= S < zlen hist ->
  zlen hist - S <= zlen mem ->
  let a := S mod zlen mem in
  let b := if S mod zlen mem <? zlen hist mod zlen mem then zlen hist mod zlen mem else zlen mem in
  slice mem a b = Ret (sub hist S (S + (b - a))) /\ 0 < b - a /\ S + (b - a) <= zlen hist /\
  (S mod zlen mem = 0 -> S + (b - a) = zlen hist) /\
  (S + (b - a) = zlen hist \/ (S + (b - a)) mod zlen mem = 0).
Proof.
  intros Hr HS HE a b. pose proof Hr as [HL _].
  pose proof (section_arith (zlen mem) S (zlen hist) HL HS HE) as Hsec. cbv zeta in Hsec.
  fold b in Hsec. fold a in Hsec. destruct Hsec as (Ha & Hb & Hsum & Hz & Hend).
  split; [|split_and!; [lia|done..]]. replace b with (a + (b - a)) at 1 by lia. apply section_at; try done; try lia.
Qed.

Lemma produce_nil mem i : produce mem i [] = mem.
Proof. done. Qed.

Lemma produce_cons mem i b bs :
  produce mem i (b :: bs) = produce (<[Z.to_nat (i mod zlen mem) := b]> mem) (i + 1) bs.
Proof. done. Qed.

Lemma produce_app a b : forall mem i, produce mem i (a ++ b) = produce (produce mem i a) (i + zlen a) b.
Proof.
  induction a as [|x a IH]; intros mem i; simpl; [by rewrite zlen_nil, Z.add_0_r|].
  rewrite IH, zlen_cons. f_equal. lia.
Qed.

Lemma produce_mod bs : forall mem i j, 0 < zlen mem -> i mod zlen mem = j mod zlen mem ->
  produce mem i bs = produce mem j bs.
Proof.
  induction bs as [|b bs IH]; intros mem i j HL Hij; simpl; [done|]. rewrite Hij.
  apply IH; rewrite zlen_insert; [done|].
  rewrite <- (Z.add_mod_idemp_l i), Hij, Z.add_mod_idemp_l by lia. done.
Qed.

(** A write that does not wrap is one [copy]. *)
Lemma produce_overwrite bs : forall mem i, 0 <= i -> i + zlen bs <= zlen mem ->
  produce mem i bs = overwrite mem (Z.to_nat i) bs.
Proof.
  induction bs as [|b bs IH]; intros mem i Hi Hle; simpl.
  - unfold overwrite. simpl. rewrite Nat.add_0_r, take_nil. simpl. by rewrite take_drop.
  - rewrite zlen_cons in Hle. pose proof (zlen_nonneg bs). rewrite Z.mod_small by lia.
    rewrite IH by (rewrite ?zlen_insert; lia).
    replace (Z.to_nat (i + 1)) with (S (Z.to_nat i)) by lia. set (n := Z.to_nat i).
    assert (n + S (length bs) <= length mem)%nat by (unfold zlen in *; lia).
    unfold overwrite. rewrite length_insert.
    rewrite (take_S_r _ n b) by (rewrite list_lookup_insert_eq; [done|lia]).
    rewrite take_insert_ge, <- app_assoc by lia. f_equal.
    rewrite !take_ge by (simpl; lia). simpl. f_equal. f_equal.
    rewrite drop_insert_lt by lia. f_equal. lia.
Qed.

#[global] Arguments produce : simpl never.
