(* ===== verification/Bytebuffer.v ===== *)
(** * gonet/bytebuffer.go: the growable byte buffer of the network tasks

    [ByteBuffer] is the Go struct, one definition per method.  The
    abstraction is the byte queue [readable b], the bytes between the reader
    and the writer index; [wf] is the representation invariant.  The lemmas
    [*_spec] say what each method does to the queue and that it cannot panic
    on a well-formed buffer; they are what the tasks build on. *)

From S2P Require Import Prelude.

Definition presize : Z := 0.
Definition initsize : Z := 128.

Record ByteBuffer := mkByteBuffer {
  _buffer : list Z;
  _prependSize : Z;
  _readerIndex : Z;
  _writerIndex : Z
}.

Definition NewByteBuffer : ByteBuffer :=
  {| _buffer := zeros (presize + initsize);
     _prependSize := presize;
     _readerIndex := presize;
     _writerIndex := presize |}.

Definition with_buffer (b : ByteBuffer) (buf : list Z) : ByteBuffer :=
  {| _buffer := buf; _prependSize := _prependSize b;
     _readerIndex := _readerIndex b; _writerIndex := _writerIndex b |}.

Definition with_indices (b : ByteBuffer) (r w : Z) : ByteBuffer :=
  {| _buffer := _buffer b; _prependSize := _prependSize b;
     _readerIndex := r; _writerIndex := w |}.

Definition WrSize (b : ByteBuffer) : Z := zlen (_buffer b) - _writerIndex b.

Definition RdSize (b : ByteBuffer) : Z := _writerIndex b - _readerIndex b.

Definition RdReady (b : ByteBuffer) : bool := _readerIndex b <? _writerIndex b.

Definition MaxSize (b : ByteBuffer) : Z := zlen (_buffer b).

(** [nil] slices are the empty list. *)
Definition WrBuf (b : ByteBuffer) : go (list Z) :=
  if zlen (_buffer b) <=? _writerIndex b then Ret []
  else slice (_buffer b) (_writerIndex b) (zlen (_buffer b)).

Definition RdBuf (b : ByteBuffer) : go (list Z) :=
  if zlen (_buffer b) <=? _readerIndex b then Ret []
  else slice (_buffer b) (_readerIndex b) (zlen (_buffer b)).

Definition WrFlip (b : ByteBuffer) (size : Z) : ByteBuffer :=
  with_indices b (_readerIndex b) (_writerIndex b + size).

Definition Reset (b : ByteBuffer) : ByteBuffer :=
  with_indices b (_prependSize b) (_prependSize b).

Definition RdFlip (b : ByteBuffer) (size : Z) : ByteBuffer :=
  if size <? RdSize b then with_indices b (_readerIndex b + size) (_writerIndex b)
  else Reset b.

Definition wrreserve (b : ByteBuffer) (size : Z) : go ByteBuffer :=
  if WrSize b + _readerIndex b <? size + _prependSize b then
    let! tmpbuff := make_bytes (_writerIndex b + size) in
    let! tmpbuff := copy_to tmpbuff 0 (_buffer b) in
    Ret (with_buffer b tmpbuff)
  else
    let readable := RdSize b in
    let! src := slice (_buffer b) (_readerIndex b) (_writerIndex b) in
    let! buf := copy_to (_buffer b) (_prependSize b) src in
    Ret (with_indices (with_buffer b buf) (_prependSize b)
           (_prependSize b + readable)).

Definition WrGrow (b : ByteBuffer) (size : Z) : go ByteBuffer :=
  if WrSize b <? size then wrreserve b size else Ret b.

(** [copy(this._buffer[this._writerIndex:], data)]. *)
Definition write_at_writer (b : ByteBuffer) (data : list Z) : go ByteBuffer :=
  let! buf := copy_to (_buffer b) (_writerIndex b) data in
  Ret (with_buffer b buf).

(** [binary.LittleEndian.PutUintXX(this._buffer[this._writerIndex:], num)]
    panics when fewer than [k] bytes are left. *)
Definition put_uint (b : ByteBuffer) (k : nat) (num : Z) : go ByteBuffer :=
  if decide (_writerIndex b + Z.of_nat k <= zlen (_buffer b))
  then write_at_writer b (le_bytes k num) else Panic.

Definition AppendUint16 (b : ByteBuffer) (num : Z) : go ByteBuffer :=
  let! b := WrGrow b 2 in
  let! b := put_uint b 2 num in
  Ret (WrFlip b 2).

Definition AppendUint32 (b : ByteBuffer) (num : Z) : go ByteBuffer :=
  let! b := WrGrow b 4 in
  let! b := put_uint b 4 num in
  Ret (WrFlip b 4).

Definition AppendUint64 (b : ByteBuffer) (num : Z) : go ByteBuffer :=
  let! b := WrGrow b 8 in
  let! b := put_uint b 8 num in
  Ret (WrFlip b 8).

Definition Append (b : ByteBuffer) (buff : list Z) : go ByteBuffer :=
  let size := zlen buff in
  if size =? 0 then Ret b
  else
    let! b := WrGrow b size in
    let! b := write_at_writer b buff in
    Ret (WrFlip b size).

Definition Prepend (b : ByteBuffer) (buff : list Z) : go (ByteBuffer * bool) :=
  let size := zlen buff in
  if _readerIndex b <? size then Ret (b, false)
  else
    let b := with_indices b (_readerIndex b - size) (_writerIndex b) in
    let! buf := copy_to (_buffer b) (_readerIndex b) buff in
    Ret (with_buffer b buf, true).

(** ** Representation invariant and abstraction *)

Definition wf (b : ByteBuffer) : Prop :=
  0 <= _prependSize b <= zlen (_buffer b) /\ 0 <= _readerIndex b /\
  _readerIndex b <= _writerIndex b /\ _writerIndex b <= zlen (_buffer b).

Definition readable (b : ByteBuffer) : list Z :=
  sub (_buffer b) (_readerIndex b) (_writerIndex b).

(** A program over one buffer, and the byte queue it should implement. *)
Inductive op : Type :=
| OpAppend (buff : list Z)
| OpUint16 (num : Z)
| OpUint32 (num : Z)
| OpUint64 (num : Z)
| OpRdFlip (size : nat)
| OpReset.

Definition run_op (b : ByteBuffer) (o : op) : go ByteBuffer :=
  match o with
  | OpAppend buff => Append b buff
  | OpUint16 num => AppendUint16 b num
  | OpUint32 num => AppendUint32 b num
  | OpUint64 num => AppendUint64 b num
  | OpRdFlip size => Ret (RdFlip b (Z.of_nat size))
  | OpReset => Ret (Reset b)
  end.

Fixpoint run_ops (b : ByteBuffer) (os : list op) : go ByteBuffer :=
  match os with
  | [] => Ret b
  | o :: os => let! b := run_op b o in run_ops b os
  end.

Definition queue_op (q : list Z) (o : op) : list Z :=
  match o with
  | OpAppend buff => q ++ buff
  | OpUint16 num => q ++ le_bytes 2 num
  | OpUint32 num => q ++ le_bytes 4 num
  | OpUint64 num => q ++ le_bytes 8 num
  | OpRdFlip size => drop size q
  | OpReset => []
  end.

Definition queue_ops (q : list Z) (os : list op) : list Z := fold_left queue_op os q.

(** ** What the methods do to the queue *)

Lemma wf_new : wf NewByteBuffer /\ readable NewByteBuffer = [].
Proof. split; [|done]. unfold wf; simpl. unfold presize. rewrite zlen_zeros; unfold initsize; lia. Qed.

Lemma RdSize_readable b : wf b -> RdSize b = zlen (readable b).
Proof. intros (?&?&?&?). unfold RdSize, readable. rewrite zlen_sub; lia. Qed.

Lemma RdReady_readable b : wf b -> RdReady b = true <-> readable b <> [].
Proof.
  intros Hwf. pose proof (RdSize_readable b Hwf) as Hs. unfold RdSize, RdReady in *.
  rewrite Z.ltb_lt. destruct (readable b); [rewrite zlen_nil in Hs | rewrite zlen_cons in Hs].
  - split; [lia | congruence].
  - pose proof (zlen_nonneg l). split; [congruence | lia].
Qed.

Lemma RdBuf_spec b : wf b ->
  exists rest, RdBuf b = Ret (readable b ++ rest) /\ zlen (readable b ++ rest) = zlen (_buffer b) - _readerIndex b.
Proof.
  intros (?&?&?&?). unfold RdBuf. case_test.
  - exists []. unfold readable. replace (_writerIndex b) with (_readerIndex b) by lia.
    rewrite sub_nil. split; [done|]. rewrite app_nil_l, zlen_nil. lia.
  - rewrite slice_ok by lia. exists (sub (_buffer b) (_writerIndex b) (zlen (_buffer b))).
    unfold readable. rewrite <- sub_app by lia. split; [done|]. rewrite zlen_sub; lia.
Qed.

Lemma Reset_spec b : wf b -> wf (Reset b) /\ readable (Reset b) = [].
Proof. intros (?&?&?&?). unfold wf, readable; simpl. split; [lia | apply sub_nil]. Qed.

Lemma RdFlip_spec b size : wf b -> 0 <= size ->
  wf (RdFlip b size) /\ readable (RdFlip b size) = drop (Z.to_nat size) (readable b).
Proof.
  intros Hwf ?. pose proof Hwf as (?&?&?&?). pose proof (RdSize_readable b Hwf).
  unfold RdFlip. case_test.
  - unfold RdSize in *. split; [unfold wf; simpl; lia|].
    unfold readable; simpl. by rewrite drop_sub by lia.
  - destruct (Reset_spec b Hwf) as [? ->]. split; [done|].
    rewrite drop_ge; [done|]. unfold zlen in *. lia.
Qed.

(** Growing keeps the queue and makes room. *)
Lemma wrreserve_spec b size : wf b -> 0 <= size -> WrSize b < size ->
  exists b', wrreserve b size = Ret b' /\ wf b' /\ readable b' = readable b /\
    size <= WrSize b'.
Proof.
  intros (?&?&?&?) ? ?. unfold wrreserve, WrSize in *. case_test.
  - unfold make_bytes. rewrite decide_True by lia. simpl.
    pose proof (zlen_zeros (_writerIndex b + size) ltac:(lia)).
    rewrite copy_to_ok by lia. simpl. eexists; split; [done|].
    unfold wf, readable; simpl. rewrite zlen_overwrite by lia.
    repeat split; try lia.
    change (Z.to_nat 0) with 0%nat. rewrite overwrite_0 by (unfold zlen in *; lia).
    by rewrite sub_app_l by lia.
  - rewrite slice_ok by lia. simpl. rewrite copy_to_ok by lia. simpl.
    eexists; split; [done|]. unfold wf, readable; simpl.
    rewrite zlen_overwrite by lia. unfold RdSize.
    repeat split; try lia.
    pose proof (zlen_sub (_buffer b) (_readerIndex b) (_writerIndex b)) as Hl.
    rewrite <- (Hl ltac:(lia) ltac:(lia) ltac:(lia)).
    apply sub_overwrite_at; lia.
Qed.

Lemma WrGrow_spec b size : wf b -> 0 <= size ->
  exists b', WrGrow b size = Ret b' /\ wf b' /\ readable b' = readable b /\
    size <= WrSize b'.
Proof.
  intros. unfold WrGrow. case_test; [by apply wrreserve_spec|].
  exists b. eauto with lia.
Qed.

(** Writing into the reserved room and flipping appends to the queue. *)
Lemma write_flip_spec b data : wf b -> zlen data <= WrSize b ->
  exists b', write_at_writer b data = Ret b' /\ wf (WrFlip b' (zlen data)) /\
    readable (WrFlip b' (zlen data)) = readable b ++ data.
Proof.
  intros (?&?&?&?) ?. unfold write_at_writer, WrSize in *. pose proof (zlen_nonneg data).
  rewrite copy_to_ok by lia. eexists; split; [done|].
  unfold wf, readable; simpl. rewrite zlen_overwrite by lia.
  split; [lia|]. apply sub_overwrite_app; lia.
Qed.

Lemma Append_spec b buff : wf b ->
  exists b', Append b buff = Ret b' /\ wf b' /\ readable b' = readable b ++ buff.
Proof.
  intros Hwf. unfold Append. pose proof (zlen_nonneg buff). case_test.
  - exists b. destruct buff; [by rewrite app_nil_r|].
    rewrite zlen_cons in *. pose proof (zlen_nonneg buff). lia.
  - destruct (WrGrow_spec b (zlen buff)) as (b1 & -> & ? & Hr & ?); [done..|]. simpl.
    destruct (write_flip_spec b1 buff) as (b2 & -> & ? & Hr2); [done..|]. simpl.
    eexists; split; [done|]. by rewrite Hr2, Hr.
Qed.

Lemma put_uint_spec b k num : wf b -> Z.of_nat k <= WrSize b ->
  put_uint b k num = write_at_writer b (le_bytes k num).
Proof. intros (?&?&?&?) ?. unfold put_uint, WrSize in *. by rewrite decide_True by lia. Qed.

(** The three fixed-width appends have one body up to the width. *)
Lemma append_uint_spec b (k : nat) num : wf b ->
  exists b', (let! b := WrGrow b (Z.of_nat k) in
              let! b := put_uint b k num in Ret (WrFlip b (Z.of_nat k))) = Ret b' /\
    wf b' /\ readable b' = readable b ++ le_bytes k num.
Proof.
  intros Hwf. destruct (WrGrow_spec b (Z.of_nat k)) as (b1 & -> & ? & Hr & ?); [done|lia|].
  simpl. rewrite put_uint_spec by done. pose proof (zlen_le_bytes k num) as Hk.
  destruct (write_flip_spec b1 (le_bytes k num)) as (b2 & -> & ? & Hr2); [done|lia|].
  rewrite Hk in *. simpl. eexists; split; [done|]. by rewrite Hr2, Hr.
Qed.

Lemma run_op_spec b o : wf b ->
  exists b', run_op b o = Ret b' /\ wf b' /\ readable b' = queue_op (readable b) o.
Proof.
  intros Hwf. destruct o as [buff|num|num|num|size|]; simpl.
  - by apply Append_spec.
  - by apply (append_uint_spec b 2).
  - by apply (append_uint_spec b 4).
  - by apply (append_uint_spec b 8).
  - eexists; split; [done|]. destruct (RdFlip_spec b (Z.of_nat size)) as [? ->]; [done|lia|].
    by rewrite Nat2Z.id.
  - eexists; split; [done|]. by apply Reset_spec.
Qed.

Lemma run_ops_spec os : forall b, wf b ->
  exists b', run_ops b os = Ret b' /\ wf b' /\ readable b' = queue_ops (readable b) os.
Proof.
  induction os as [|o os IH]; intros b Hwf; simpl.
  - eauto.
  - destruct (run_op_spec b o Hwf) as (b1 & -> & ? & <-). simpl. by apply IH.
Qed.

(** C30: a [ByteBuffer] implements a byte queue.  Any sequence of appends
    (bytes and fixed-width integers), reads and resets on a new buffer runs
    without a panic, leaves the buffer well formed, and the readable bytes
    are those of the queue that performed the same operations. *)
Theorem bytebuffer_refines_queue (os : list op) :
  exists b, run_ops NewByteBuffer os = Ret b /\ wf b /\ readable b = queue_ops [] os.
Proof.
  destruct wf_new as [Hwf Hr]. destruct (run_ops_spec os _ Hwf) as (b & ? & ? & Hq).
  rewrite Hr in Hq. eauto.
Qed.

Lemma Prepend_fits b buff : wf b -> zlen buff <= _readerIndex b ->
  exists b', Prepend b buff = Ret (b', true) /\ wf b' /\ readable b' = buff ++ readable b.
Proof.
  intros (?&?&?&?) ?. pose proof (zlen_nonneg buff). unfold Prepend. case_test; [lia|].
  simpl. rewrite copy_to_ok by lia. eexists; split; [done|].
  unfold wf, readable; simpl. rewrite zlen_overwrite by lia. split; [lia|].
  rewrite (sub_app _ (_readerIndex b - zlen buff) (_readerIndex b)) by lia.
  replace (_readerIndex b) with ((_readerIndex b - zlen buff) + zlen buff) at 3 by lia.
  rewrite sub_overwrite_at by lia. f_equal.
  unfold sub. f_equal. unfold overwrite. unfold zlen in *.
  rewrite app_assoc, drop_app_ge; rewrite length_app, !length_take; [|lia].
  rewrite drop_drop. f_equal. lia.
Qed.

(** [Prepend] puts the bytes in front of the queue when they fit before
    the reader index, and otherwise reports [false] and changes nothing. *)
Theorem prepend_front (b : ByteBuffer) (buff : list Z) (Hwf : wf b) :
  (zlen buff <= _readerIndex b ->
   exists b', Prepend b buff = Ret (b', true) /\ wf b' /\ readable b' = buff ++ readable b) /\
  (_readerIndex b < zlen buff -> Prepend b buff = Ret (b, false)).
Proof.
  split; [by apply Prepend_fits|]. intros. unfold Prepend. case_test; [done | lia].
Qed.

Lemma prepend_front_witness :
  exists b', Prepend (RdFlip (WrFlip NewByteBuffer 6) 4) [1; 2; 3] = Ret (b', true) /\ wf b' /\
    readable b' = [1; 2; 3] ++ readable (RdFlip (WrFlip NewByteBuffer 6) 4).
Proof.
  apply (prepend_front (RdFlip (WrFlip NewByteBuffer 6) 4) [1; 2; 3]); [|vm_compute; congruence].
  vm_compute. repeat split; congruence.
Defined.
