(* ===== verification/Ring.v ===== *)
(** * gonet/ring.go: the ring buffer between the UDP reader and its task

    [Ring] is the Go struct with its 64-bit counters; [Get] and [Set] return a
    pointer into [data], which is the index of the slot.  The abstraction
    [queue r] lists the slots between the read and the write counter.  The
    theorems say that [init] rounds the capacity up to a power of two, and
    that the ring is a bounded FIFO queue even when the counters wrap. *)

From S2P Require Import Prelude.

Record UdpMsg := mkUdpMsg {
  MsgNo : Z;
  Index : Z;
  Body : list Z
}.

Definition zeroMsg : UdpMsg := {| MsgNo := 0; Index := 0; Body := [] |}.

Inductive ring_err : Type := ErrRingEmpty | ErrRingFull.

Record Ring := mkRing {
  rp : Z;
  num : Z;
  mask : Z;
  wp : Z;
  data : list UdpMsg
}.

(** The loop [for num&(num-1) != 0 { num &= (num - 1) }]: at most 64 rounds,
    since each clears one set bit of a 64-bit number. *)
Fixpoint init_loop (fuel : nat) (n : Z) : Z :=
  match fuel with
  | O => n
  | S fuel =>
      if Z.land n (u64 (n - 1)) =? 0 then n
      else init_loop fuel (Z.land n (u64 (n - 1)))
  end.

(** The capacity [init] computes for a requested [n]. *)
Definition init_num (n : Z) : Z :=
  if Z.land n (u64 (n - 1)) =? 0 then n
  else u64 (Z.shiftl (init_loop 64 n) 1).

Definition init (r : Ring) (n : Z) : Ring :=
  let n := init_num n in
  {| rp := rp r; wp := wp r; num := n; mask := u64 (n - 1);
     data := replicate (Z.to_nat n) zeroMsg |}.

Definition emptyRing : Ring := {| rp := 0; num := 0; mask := 0; wp := 0; data := [] |}.

Definition NewRing (n : Z) : Ring := init emptyRing (u64 n).

Definition Init (r : Ring) (n : Z) : Ring := init r (u64 n).

(** [&r.data[i]] panics when the index is out of range. *)
Definition slot_ptr (r : Ring) (i : Z) : go Z :=
  if decide (0 <= i < zlen (data r)) then Ret i else Panic.

Definition Get (r : Ring) : go (ring_err + Z) :=
  if rp r =? wp r then Ret (inl ErrRingEmpty)
  else let! p := slot_ptr r (Z.land (rp r) (mask r)) in Ret (inr p).

Definition GetAdv (r : Ring) : Ring :=
  {| rp := u64 (rp r + 1); num := num r; mask := mask r; wp := wp r; data := data r |}.

Definition Set_ (r : Ring) : go (ring_err + Z) :=
  if num r <=? u64 (wp r - rp r) then Ret (inl ErrRingFull)
  else let! p := slot_ptr r (Z.land (wp r) (mask r)) in Ret (inr p).

Definition SetAdv (r : Ring) : Ring :=
  {| rp := rp r; num := num r; mask := mask r; wp := u64 (wp r + 1); data := data r |}.

Definition Reset (r : Ring) : Ring :=
  {| rp := 0; num := num r; mask := mask r; wp := 0; data := data r |}.

(** Reading and writing through the returned pointer. *)
Definition load (r : Ring) (p : Z) : UdpMsg :=
  match data r !! Z.to_nat p with Some m => m | None => zeroMsg end.

Definition store (r : Ring) (p : Z) (m : UdpMsg) : Ring :=
  {| rp := rp r; num := num r; mask := mask r; wp := wp r;
     data := <[Z.to_nat p := m]> (data r) |}.

(** The producer's and the consumer's use of the ring, as in [UdpTask]:
    [Set], fill the slot, [SetAdv]; [Get], read the slot, [GetAdv]. *)
Definition push (r : Ring) (m : UdpMsg) : go (Ring * bool) :=
  let! p := Set_ r in
  match p with
  | inl _ => Ret (r, false)
  | inr p => Ret (SetAdv (store r p m), true)
  end.

Definition pop (r : Ring) : go (Ring * option UdpMsg) :=
  let! p := Get r in
  match p with
  | inl _ => Ret (r, None)
  | inr p => Ret (GetAdv r, Some (load r p))
  end.

(** ** Abstraction *)

Definition count (r : Ring) : Z := u64 (wp r - rp r).

Definition queue (r : Ring) : list UdpMsg :=
  (fun i => load r (Z.land (u64 (rp r + i)) (mask r))) <$> seqZ 0 (count r).

Definition wf (r : Ring) : Prop :=
  (exists k, 0 <= k < 64 /\ num r = 2 ^ k) /\ mask r = num r - 1 /\
  zlen (data r) = num r /\ 0 <= rp r < 2 ^ 64 /\ 0 <= wp r < 2 ^ 64 /\
  count r <= num r.

(** A client of the ring, and the bounded queue of capacity [cap]. *)
Inductive ring_op : Type := OpPush (m : UdpMsg) | OpPop.

Inductive ring_out : Type := Pushed (ok : bool) | Popped (m : option UdpMsg).

Fixpoint run_ring (r : Ring) (os : list ring_op) : go (Ring * list ring_out) :=
  match os with
  | [] => Ret (r, [])
  | OpPush m :: os =>
      let! (r, ok) := push r m in
      let! (r, outs) := run_ring r os in Ret (r, Pushed ok :: outs)
  | OpPop :: os =>
      let! (r, m) := pop r in
      let! (r, outs) := run_ring r os in Ret (r, Popped m :: outs)
  end.

Fixpoint run_fifo (cap : Z) (q : list UdpMsg) (os : list ring_op) : list ring_out :=
  match os with
  | [] => []
  | OpPush m :: os =>
      if zlen q <? cap then Pushed true :: run_fifo cap (q ++ [m]) os
      else Pushed false :: run_fifo cap q os
  | OpPop :: os => Popped (head q) :: run_fifo cap (tail q) os
  end.

(** ** The capacity *)

(** Clearing the lowest set bit: [n & (n-1)]. *)
Lemma clear_low_bits n k : 0 < n -> 0 <= k -> (2 ^ k | n) ->
  (2 ^ (k + 1) | Z.land n (n - 1)).
Proof.
  intros Hn Hk [q ->]. rewrite <- Z.mod_divide by (apply Z.pow_nonzero; lia).
  rewrite <- Z.land_ones by lia. apply Z.bits_inj'. intros i Hi.
  rewrite Z.bits_0, !Z.land_spec, Z.testbit_ones by lia.
  assert (q * 2 ^ k - 1 = (q - 1) * 2 ^ k + (2 ^ k - 1)) as -> by lia.
  destruct (Z.ltb_spec i (k + 1)); [|by rewrite !andb_false_r].
  destruct (decide (i < k)).
  - rewrite Z.mul_pow2_bits_low by lia. done.
  - replace i with k by lia. rewrite !Z.testbit_odd, !Z.shiftr_div_pow2 by lia.
    assert (0 < 2 ^ k) by (apply Z.pow_pos_nonneg; lia).
    rewrite Z.div_mul by lia.
    rewrite Z.div_add_l, (Z.div_small (2 ^ k - 1)) by lia.
    rewrite Z.add_0_r. replace (Z.odd (q - 1)) with (negb (Z.odd q)).
    + by destruct (Z.odd q).
    + rewrite Z.sub_1_r, Z.odd_pred. by rewrite Z.negb_odd.
Qed.

Lemma clear_low_top n : 0 < n -> n <> 2 ^ Z.log2 n ->
  0 < Z.land n (n - 1) /\ Z.log2 (Z.land n (n - 1)) = Z.log2 n.
Proof.
  intros Hn Hne. pose proof (Z.log2_spec n Hn) as Hlog. pose proof (Z.log2_nonneg n).
  assert (Z.testbit (Z.land n (n - 1)) (Z.log2 n) = true) as Hbit.
  { rewrite Z.land_spec, Z.bit_log2 by lia. simpl.
    rewrite <- (Z.log2_unique (n - 1) (Z.log2 n)) by lia. apply Z.bit_log2.
    pose proof (Z.pow_pos_nonneg 2 (Z.log2 n)). lia. }
  assert (0 <= Z.land n (n - 1)) by (apply Z.land_nonneg; lia).
  assert (Z.land n (n - 1) <> 0) by (intros E; rewrite E, Z.bits_0 in Hbit; done).
  split; [lia|]. apply Z.le_antisymm.
  - etransitivity; [apply Z.log2_land; lia|]. lia.
  - destruct (Z.le_gt_cases (Z.log2 n) (Z.log2 (Z.land n (n - 1)))) as [|Hlt]; [done|].
    rewrite Z.bits_above_log2 in Hbit by lia. done.
Qed.

Lemma clear_low_pow2 k : 0 <= k -> Z.land (2 ^ k) (2 ^ k - 1) = 0.
Proof.
  intros. replace (2 ^ k - 1) with (Z.ones k) by (rewrite Z.ones_equiv; lia).
  rewrite Z.land_ones by lia. apply Z.mod_same. apply Z.pow_nonzero; lia.
Qed.

Lemma u64_pred n : 0 < n < 2 ^ 64 -> u64 (n - 1) = n - 1.
Proof. intros. unfold wrap. apply Z.mod_small. lia. Qed.

(** The loop leaves the highest set bit of [n], whatever [n]. *)
Lemma init_loop_spec fuel : forall n, 0 < n < 2 ^ 64 -> (fuel <= 64)%nat ->
  (2 ^ (64 - Z.of_nat fuel) | n) -> init_loop fuel n = 2 ^ Z.log2 n.
Proof.
  induction fuel as [|fuel IH]; intros n Hn Hf Hd.
  { rewrite Z.sub_0_r in Hd. apply Z.divide_pos_le in Hd; lia. }
  simpl. rewrite u64_pred by done. pose proof (Z.log2_nonneg n).
  destruct (decide (n = 2 ^ Z.log2 n)) as [E|Hne].
  - replace (Z.land n (n - 1)) with 0 by (rewrite E, clear_low_pow2; lia). done.
  - destruct (clear_low_top n ltac:(lia) Hne) as [Hpos Hlog].
    case_test; [lia|]. rewrite IH; [by rewrite Hlog| |lia|].
    + split; [done|]. apply Z.log2_lt_pow2; [done|]. rewrite Hlog.
      apply Z.log2_lt_pow2; lia.
    + replace (64 - Z.of_nat fuel) with (64 - Z.of_nat (S fuel) + 1) by lia.
      apply clear_low_bits; [lia|lia|done].
Qed.

Lemma init_num_spec n : 0 < n <= 2 ^ 63 ->
  exists k, 0 <= k < 64 /\ init_num n = 2 ^ k /\ n <= 2 ^ k < 2 * n.
Proof.
  intros Hn. unfold init_num. rewrite u64_pred by lia.
  pose proof (Z.log2_nonneg n). pose proof (Z.log2_spec n ltac:(lia)) as Hlog.
  rewrite Z.pow_succ_r in Hlog by lia.
  assert (Z.log2 n < 64) by (apply Z.log2_lt_pow2; lia).
  destruct (decide (n = 2 ^ Z.log2 n)) as [E|Hne].
  - replace (Z.land n (n - 1)) with 0 by (rewrite E, clear_low_pow2; lia).
    exists (Z.log2 n). simpl. lia.
  - destruct (clear_low_top n ltac:(lia) Hne) as [Hpos _]. case_test; [lia|].
    rewrite init_loop_spec by (try lia; simpl; apply Z.divide_1_l).
    assert (Z.log2 n < 63).
    { apply Z.log2_lt_pow2; [lia|]. destruct (decide (n = 2 ^ 63)) as [->|]; [done | lia]. }
    exists (Z.log2 n + 1). rewrite Z.shiftl_mul_pow2, <- Z.pow_add_r by lia.
    unfold wrap. rewrite Z.mod_small.
    + rewrite Z.pow_add_r by lia. lia.
    + split; [apply Z.pow_nonneg; lia|]. apply Z.pow_lt_mono_r; lia.
Qed.

(** ** The queue *)

(** The slot a counter designates does not see the wrap of the counter. *)
Lemma slot_mod r i : wf r -> Z.land (u64 i) (mask r) = i mod num r.
Proof.
  intros ((k & Hk & Hnum) & -> & _). rewrite Hnum, land_mask by lia.
  apply wrap_mod_pow2. lia.
Qed.

Lemma count_range r : 0 <= count r < 2 ^ 64.
Proof. apply wrap_range. lia. Qed.

Lemma num_pos r : wf r -> 0 < num r < 2 ^ 64.
Proof.
  intros ((k & Hk & ->) & _). split; [apply Z.pow_pos_nonneg; lia|].
  apply Z.pow_lt_mono_r; lia.
Qed.

Lemma length_queue r : zlen (queue r) = count r.
Proof.
  unfold zlen, queue. rewrite length_fmap, length_seqZ. pose proof (count_range r). lia.
Qed.

(** [queue] in terms of slots modulo the capacity. *)
Lemma queue_alt r : wf r -> queue r = (fun i => load r ((rp r + i) mod num r)) <$> seqZ 0 (count r).
Proof. intros. unfold queue. apply list_fmap_ext. intros i x _. by rewrite slot_mod. Qed.

Lemma wp_slot r : wf r -> wp r mod num r = (rp r + count r) mod num r.
Proof.
  intros Hwf. pose proof Hwf as ((k & Hk & Hnum) & _). rewrite Hnum. unfold count.
  rewrite <- Zplus_mod_idemp_r, wrap_mod_pow2 by lia. rewrite Zplus_mod_idemp_r. f_equal. lia.
Qed.

Lemma slot_ptr_mod r i : wf r -> slot_ptr r (i mod num r) = Ret (i mod num r).
Proof.
  intros Hwf. pose proof (num_pos r Hwf). destruct Hwf as (_ & _ & Hlen & _).
  unfold slot_ptr. rewrite decide_True; [done|]. rewrite Hlen. apply Z.mod_pos_bound. lia.
Qed.

Lemma small_u64 z : 0 <= z < 2 ^ 64 -> u64 z = z.
Proof. apply wrap_small. Qed.

Lemma push_full r m : wf r -> count r = num r -> push r m = Ret (r, false).
Proof. intros Hwf Hc. unfold push, Set_. fold (count r). rewrite Hc, Z.leb_refl. done. Qed.

(** Distinct offsets below the capacity designate distinct slots. *)
Lemma slot_ne (a i j n : Z) : 0 <= i < n -> 0 <= j < n -> i <> j ->
  (a + i) mod n <> (a + j) mod n.
Proof.
  intros Hi Hj Hne Heq. apply Hne.
  assert ((i - j) mod n = 0) as Hd.
  { replace (i - j) with ((a + i) - (a + j)) by lia.
    rewrite Zminus_mod, Heq, Z.sub_diag. apply Z.mod_0_l. lia. }
  destruct (decide (0 <= i - j)).
  - rewrite Z.mod_small in Hd by lia. lia.
  - rewrite <- (Z.mod_add _ 1) in Hd by lia. rewrite Z.mod_small in Hd by lia. lia.
Qed.

Lemma count_SetAdv r p m : wf r -> count r < num r ->
  count (SetAdv (store r p m)) = count r + 1.
Proof.
  intros Hwf Hc. pose proof (num_pos r Hwf). pose proof (count_range r). unfold count in *. simpl.
  unfold wrap in *. rewrite Zminus_mod_idemp_l.
  replace (wp r + 1 - rp r) with ((wp r - rp r) + 1) by lia.
  rewrite <- Zplus_mod_idemp_l. apply Z.mod_small. lia.
Qed.

Lemma push_room r m : wf r -> count r < num r ->
  exists r', push r m = Ret (r', true) /\ wf r' /\ num r' = num r /\ queue r' = queue r ++ [m].
Proof.
  intros Hwf Hc. pose proof (num_pos r Hwf). pose proof (count_range r).
  unfold push, Set_. fold (count r). case_test; [lia|].
  pose proof Hwf as (Hk & Hmask & Hlen & Hrp & Hwp & _).
  rewrite <- (small_u64 (wp r)) by done. rewrite slot_mod, slot_ptr_mod by done. simpl.
  eexists; split; [done|]. pose proof (count_SetAdv r (wp r mod num r) m Hwf Hc) as Hcnt.
  assert (wf (SetAdv (store r (wp r mod num r) m))) as Hwf'.
  { unfold wf. rewrite Hcnt. simpl. rewrite zlen_insert.
    pose proof (wrap_range 64 (wp r + 1)). repeat split; try done; lia. }
  split; [done|]. split; [done|]. rewrite !queue_alt by done. rewrite Hcnt, seqZ_app by lia.
  rewrite fmap_app, Z.add_0_l. simpl. rewrite wp_slot by done.
  pose proof (Z.mod_pos_bound (rp r + count r) (num r)). unfold zlen in Hlen. f_equal.
  - apply list_fmap_ext. intros i x Hx. apply lookup_seqZ in Hx. unfold load; simpl.
    rewrite list_lookup_insert_ne; [done|]. intros E.
    pose proof (Z.mod_pos_bound (rp r + x) (num r)).
    apply (slot_ne (rp r) (count r) x (num r)); lia.
  - unfold load; simpl. rewrite list_lookup_insert_eq by lia. done.
Qed.

Lemma pop_empty r : wf r -> queue r = [] -> pop r = Ret (r, None).
Proof.
  intros Hwf Hq. pose proof (length_queue r) as Hc. rewrite Hq, zlen_nil in Hc.
  pose proof Hwf as (_ & _ & _ & Hrp & Hwp & _). unfold pop, Get.
  replace (rp r =? wp r) with true; [done|]. symmetry. apply Z.eqb_eq.
  unfold count, wrap in Hc. symmetry in Hc.
  destruct (decide (0 <= wp r - rp r)).
  - rewrite Z.mod_small in Hc by lia. lia.
  - rewrite <- (Z.mod_add _ 1) in Hc by lia. rewrite Z.mod_small in Hc by lia. lia.
Qed.

Lemma pop_nonempty r m q : wf r -> queue r = m :: q ->
  exists r', pop r = Ret (r', Some m) /\ wf r' /\ num r' = num r /\ queue r' = q.
Proof.
  intros Hwf Hq. pose proof (length_queue r) as Hc. rewrite Hq, zlen_cons in Hc.
  pose proof (zlen_nonneg q). pose proof (num_pos r Hwf). pose proof (count_range r).
  pose proof Hwf as (Hk & Hmask & Hlen & Hrp & Hwp & Hcn). unfold pop, Get.
  case_test. { unfold count in Hc. rewrite e, Z.sub_diag in Hc. change (u64 0) with 0 in Hc. lia. }
  rewrite <- (small_u64 (rp r)) by done. rewrite slot_mod, slot_ptr_mod by done. simpl.
  rewrite queue_alt in Hq by done. rewrite seqZ_cons in Hq by lia. simpl in Hq.
  rewrite Z.add_0_r in Hq. injection Hq as Hm Hq'. rewrite Hm.
  eexists; split; [done|].
  assert (count (GetAdv r) = count r - 1) as Hcnt.
  { unfold count in *. simpl. unfold wrap in *. rewrite Zminus_mod_idemp_r.
    replace (wp r - (rp r + 1)) with ((wp r - rp r) - 1) by lia.
    rewrite <- Zminus_mod_idemp_l. apply Z.mod_small. lia. }
  assert (wf (GetAdv r)) as Hwf'.
  { unfold wf. rewrite Hcnt. simpl. pose proof (wrap_range 64 (rp r + 1)).
    repeat split; try done; lia. }
  split; [done|]. split; [done|]. rewrite queue_alt, Hcnt by done. rewrite <- Hq'. simpl.
  change (Z.succ 0) with (1 + 0). rewrite <- fmap_add_seqZ, <- list_fmap_compose, Z.sub_1_r.
  apply list_fmap_ext. intros i x _. simpl.
  replace ((u64 (rp r + 1) + x) mod num r) with ((rp r + (1 + x)) mod num r); [done|].
  destruct Hk as (k & Hk & ->).
  rewrite <- (Zplus_mod_idemp_l (u64 _)), wrap_mod_pow2, Zplus_mod_idemp_l by lia.
  f_equal. lia.
Qed.

(** The consumer's steps taken apart: the pointer, and a write to the slot
    after the read counter has moved on. *)
Lemma Get_nonempty r m q : wf r -> queue r = m :: q ->
  Get r = Ret (inr (rp r mod num r)) /\ load r (rp r mod num r) = m /\
  wf (GetAdv r) /\ queue (GetAdv r) = q /\ 0 < count r.
Proof.
  intros Hwf Hq. destruct (pop_nonempty r m q Hwf Hq) as (r' & Hpop & Hwf' & _ & Hq').
  pose proof (length_queue r) as Hc. rewrite Hq, zlen_cons in Hc. pose proof (zlen_nonneg q).
  pose proof Hwf as (_ & _ & _ & Hrp & _). unfold pop, Get in *.
  destruct (rp r =? wp r); [done|].
  assert (slot_ptr r (Z.land (rp r) (mask r)) = Ret (rp r mod num r)) as Hp.
  { rewrite <- (small_u64 (rp r)) at 1 by done. by rewrite slot_mod, slot_ptr_mod. }
  rewrite Hp in *. simpl in *. injection Hpop as <- Hm. split_and!; try done. lia.
Qed.

Lemma store_consumed r x : wf r -> 0 < count r -> wf (GetAdv r) ->
  let r' := store (GetAdv r) (rp r mod num r) x in
  wf r' /\ num r' = num r /\ queue r' = queue (GetAdv r).
Proof.
  intros Hwf Hc Hwf1 r'. pose proof (num_pos r Hwf). pose proof Hwf as (Hk & _ & _ & _ & _ & Hcn).
  assert (wf r') as Hwf'. { unfold wf, count in *. simpl in *. by rewrite zlen_insert. }
  split; [done|]. split; [done|]. rewrite !queue_alt by done.
  apply list_fmap_ext. intros i y Hy. apply lookup_seqZ in Hy. unfold load; simpl.
  assert (count r' = count r - 1) as Hcnt.
  { unfold count in *. simpl. unfold wrap in *. rewrite Zminus_mod_idemp_r.
    replace (wp r - (rp r + 1)) with ((wp r - rp r) - 1) by lia.
    rewrite <- Zminus_mod_idemp_l. apply Z.mod_small. pose proof (Z.mod_pos_bound (wp r - rp r) (2 ^ 64)). lia. }
  change (count (GetAdv r)) with (count r') in Hy.
  rewrite list_lookup_insert_ne; [done|]. destruct Hk as (k & Hk & Hnum).
  replace ((u64 (rp r + 1) + y) mod num r) with ((rp r + (1 + y)) mod num r).
  - intros E. pose proof (Z.mod_pos_bound (rp r + (1 + y)) (num r)). pose proof (Z.mod_pos_bound (rp r) (num r)).
    apply (slot_ne (rp r) (1 + y) 0 (num r)); [lia|lia|lia|]. rewrite Z.add_0_r. lia.
  - rewrite Hnum. rewrite <- (Zplus_mod_idemp_l (u64 _)), wrap_mod_pow2, Zplus_mod_idemp_l by lia.
    f_equal. lia.
Qed.

Lemma run_ring_spec os : forall r, wf r ->
  exists r', run_ring r os = Ret (r', run_fifo (num r) (queue r) os) /\ wf r' /\ num r' = num r.
Proof.
  induction os as [|[m|] os IH]; intros r Hwf; simpl; [by eauto| |].
  - rewrite length_queue. pose proof Hwf as (_ & _ & _ & _ & _ & Hc). case_test.
    + destruct (push_room r m Hwf ltac:(done)) as (r1 & -> & Hwf1 & Hn1 & Hq1). simpl.
      destruct (IH r1 Hwf1) as (r2 & -> & ? & ?). simpl. rewrite Hn1, Hq1. naive_solver congruence.
    + rewrite push_full by (done || lia). simpl.
      destruct (IH r Hwf) as (r2 & -> & ? & ?). simpl. eauto.
  - destruct (queue r) as [|m q] eqn:Hq.
    + rewrite pop_empty by done. simpl. destruct (IH r Hwf) as (r2 & -> & ? & ?). rewrite Hq.
      simpl. eauto.
    + destruct (pop_nonempty r m q Hwf Hq) as (r1 & -> & Hwf1 & Hn1 & Hq1). simpl.
      destruct (IH r1 Hwf1) as (r2 & -> & ? & ?). simpl. rewrite Hn1, Hq1. naive_solver congruence.
Qed.

Lemma NewRing_spec n : 0 < n <= 2 ^ 63 ->
  wf (NewRing n) /\ queue (NewRing n) = [] /\ n <= num (NewRing n) < 2 * n.
Proof.
  intros Hn. unfold NewRing. rewrite small_u64 by lia.
  destruct (init_num_spec n Hn) as (k & Hk & Hi & Hb).
  assert (num (init emptyRing n) = 2 ^ k) as Hnum by done.
  unfold wf, queue, count. rewrite Hnum. simpl. rewrite Hi.
  assert (0 < 2 ^ k < 2 ^ 64).
  { split; [apply Z.pow_pos_nonneg; lia | apply Z.pow_lt_mono_r; lia]. }
  split; [|split; [done|lia]]. split; [by exists k|]. rewrite u64_pred by lia.
  split; [done|]. split; [unfold zlen; rewrite length_replicate; lia|].
  change (u64 (0 - 0)) with 0. lia.
Qed.

(** [NewRing n] gives the smallest power of two that is at least [n] as
    the capacity, for every [n] a slice can be made of: the rounding loop of
    [init] ends within its 64 rounds with the highest bit of [n]. *)
Theorem ring_capacity (n : Z) (Hn : 0 < n <= 2 ^ 63) :
  exists k, 0 <= k < 64 /\ num (NewRing n) = 2 ^ k /\ n <= 2 ^ k < 2 * n.
Proof.
  unfold NewRing. rewrite small_u64 by lia. destruct (init_num_spec n Hn) as (k & ? & ? & ?).
  exists k. done.
Qed.

Lemma ring_capacity_witness :
  exists k, 0 <= k < 64 /\ num (NewRing 1000) = 2 ^ k /\ 1000 <= 2 ^ k < 2 * 1000.
Proof. apply (ring_capacity 1000). lia. Defined.

(** C31: the ring is a bounded FIFO queue.  From any well-formed state, also
    one whose 64-bit counters are about to wrap, every sequence of producer
    and consumer operations runs without a panic and gives the results of a
    queue of capacity [num]: a push fails exactly when the queue is full, a
    pop returns the oldest message. *)
Theorem ring_refines_fifo (r : Ring) (os : list ring_op) (Hwf : wf r) :
  exists r', run_ring r os = Ret (r', run_fifo (num r) (queue r) os) /\ wf r'.
Proof. destruct (run_ring_spec os r Hwf) as (r' & ? & ? & _). eauto. Qed.

(** A ring whose counters wrap during the run. *)
Definition wrapping_ring : Ring :=
  {| rp := 2 ^ 64 - 1; num := 2; mask := 1; wp := 2 ^ 64 - 1; data := [zeroMsg; zeroMsg] |}.

Lemma ring_refines_fifo_witness :
  let m i := {| MsgNo := i; Index := i; Body := [i] |} in
  exists r', run_ring wrapping_ring [OpPush (m 1); OpPush (m 2); OpPush (m 3); OpPop; OpPop; OpPop]
    = Ret (r', [Pushed true; Pushed true; Pushed false; Popped (Some (m 1)); Popped (Some (m 2)); Popped None])
    /\ wf r'.
Proof.
  intros m. apply (ring_refines_fifo wrapping_ring).
  unfold wf; simpl. split; [exists 1; lia|]. repeat split; simpl; try lia. vm_compute. congruence.
Defined.
