(* ===== verification/Crc16.v ===== *)
(** * redis/crc16.go: the hash slot of a key

    [crc16] is the table-driven loop of the source and [KeyHashSlot] its use on
    the hash tag of a key.  [crc_byte] is the bit-by-bit CRC-16/XMODEM
    (polynomial 0x1021); the table is proved to be it. *)

From S2P Require Import Prelude.

Definition crc16tab : list Z :=
  [
   0x0000; 0x1021; 0x2042; 0x3063; 0x4084; 0x50a5; 0x60c6; 0x70e7;
   0x8108; 0x9129; 0xa14a; 0xb16b; 0xc18c; 0xd1ad; 0xe1ce; 0xf1ef;
   0x1231; 0x0210; 0x3273; 0x2252; 0x52b5; 0x4294; 0x72f7; 0x62d6;
   0x9339; 0x8318; 0xb37b; 0xa35a; 0xd3bd; 0xc39c; 0xf3ff; 0xe3de;
   0x2462; 0x3443; 0x0420; 0x1401; 0x64e6; 0x74c7; 0x44a4; 0x5485;
   0xa56a; 0xb54b; 0x8528; 0x9509; 0xe5ee; 0xf5cf; 0xc5ac; 0xd58d;
   0x3653; 0x2672; 0x1611; 0x0630; 0x76d7; 0x66f6; 0x5695; 0x46b4;
   0xb75b; 0xa77a; 0x9719; 0x8738; 0xf7df; 0xe7fe; 0xd79d; 0xc7bc;
   0x48c4; 0x58e5; 0x6886; 0x78a7; 0x0840; 0x1861; 0x2802; 0x3823;
   0xc9cc; 0xd9ed; 0xe98e; 0xf9af; 0x8948; 0x9969; 0xa90a; 0xb92b;
   0x5af5; 0x4ad4; 0x7ab7; 0x6a96; 0x1a71; 0x0a50; 0x3a33; 0x2a12;
   0xdbfd; 0xcbdc; 0xfbbf; 0xeb9e; 0x9b79; 0x8b58; 0xbb3b; 0xab1a;
   0x6ca6; 0x7c87; 0x4ce4; 0x5cc5; 0x2c22; 0x3c03; 0x0c60; 0x1c41;
   0xedae; 0xfd8f; 0xcdec; 0xddcd; 0xad2a; 0xbd0b; 0x8d68; 0x9d49;
   0x7e97; 0x6eb6; 0x5ed5; 0x4ef4; 0x3e13; 0x2e32; 0x1e51; 0x0e70;
   0xff9f; 0xefbe; 0xdfdd; 0xcffc; 0xbf1b; 0xaf3a; 0x9f59; 0x8f78;
   0x9188; 0x81a9; 0xb1ca; 0xa1eb; 0xd10c; 0xc12d; 0xf14e; 0xe16f;
   0x1080; 0x00a1; 0x30c2; 0x20e3; 0x5004; 0x4025; 0x7046; 0x6067;
   0x83b9; 0x9398; 0xa3fb; 0xb3da; 0xc33d; 0xd31c; 0xe37f; 0xf35e;
   0x02b1; 0x1290; 0x22f3; 0x32d2; 0x4235; 0x5214; 0x6277; 0x7256;
   0xb5ea; 0xa5cb; 0x95a8; 0x8589; 0xf56e; 0xe54f; 0xd52c; 0xc50d;
   0x34e2; 0x24c3; 0x14a0; 0x0481; 0x7466; 0x6447; 0x5424; 0x4405;
   0xa7db; 0xb7fa; 0x8799; 0x97b8; 0xe75f; 0xf77e; 0xc71d; 0xd73c;
   0x26d3; 0x36f2; 0x0691; 0x16b0; 0x6657; 0x7676; 0x4615; 0x5634;
   0xd94c; 0xc96d; 0xf90e; 0xe92f; 0x99c8; 0x89e9; 0xb98a; 0xa9ab;
   0x5844; 0x4865; 0x7806; 0x6827; 0x18c0; 0x08e1; 0x3882; 0x28a3;
   0xcb7d; 0xdb5c; 0xeb3f; 0xfb1e; 0x8bf9; 0x9bd8; 0xabbb; 0xbb9a;
   0x4a75; 0x5a54; 0x6a37; 0x7a16; 0x0af1; 0x1ad0; 0x2ab3; 0x3a92;
   0xfd2e; 0xed0f; 0xdd6c; 0xcd4d; 0xbdaa; 0xad8b; 0x9de8; 0x8dc9;
   0x7c26; 0x6c07; 0x5c64; 0x4c45; 0x3ca2; 0x2c83; 0x1ce0; 0x0cc1;
   0xef1f; 0xff3e; 0xcf5d; 0xdf7c; 0xaf9b; 0xbfba; 0x8fd9; 0x9ff8;
   0x6e17; 0x7e36; 0x4e55; 0x5e74; 0x2e93; 0x3eb2; 0x0ed1; 0x1ef0].

(** The index is masked to eight bits, so the table access cannot panic. *)
Definition crc16_step (crc bufValue : Z) : Z :=
  Z.lxor (u16 (Z.shiftl crc 8))
    (nth (Z.to_nat (Z.land (Z.lxor (Z.shiftr crc 8) bufValue) 0xFF)) crc16tab 0).

(** [for counter = 0; counter < len; counter++]; reading past the end of
    [buf] panics. *)
Fixpoint crc16_loop (buf : list Z) (rounds : nat) (counter crc : Z) : go Z :=
  match rounds with
  | O => Ret crc
  | S rounds =>
      let! b := zget buf counter in
      crc16_loop buf rounds (counter + 1) (crc16_step crc b)
  end.

Definition crc16 (buf : list Z) (len : Z) : go Z :=
  crc16_loop buf (Z.to_nat len) 0 0.

(** The scanning loops of [KeyHashSlot]: the first index from [i] on, in the
    list that starts at [i], where the byte is [c], or the end. *)
Fixpoint scan_byte (l : list Z) (c i : Z) : Z :=
  match l with
  | [] => i
  | b :: l => if b =? c then i else scan_byte l c (i + 1)
  end.

Definition KeyHashSlot (key : list Z) : go Z :=
  let keylen := zlen key in
  let s := scan_byte key 123 0 in
  if s =? keylen then
    let! c := crc16 key keylen in Ret (Z.land c 0x3FFF)
  else
    let e := scan_byte (drop (Z.to_nat (s + 1)) key) 125 (s + 1) in
    if (e =? keylen) || (e =? s + 1) then
      let! c := crc16 key keylen in Ret (Z.land c 0x3FFF)
    else
      let! strKey := slice key (s + 1) keylen in
      let! c := crc16 strKey (e - s - 1) in Ret (Z.land c 0x3FFF).

(** ** Reference: CRC-16/XMODEM, one bit at a time *)

Definition crc_bit (crc : Z) : Z :=
  Z.lxor (u16 (Z.shiftl crc 1)) (if Z.testbit crc 15 then 0x1021 else 0).

Definition crc_byte (crc b : Z) : Z := Nat.iter 8 crc_bit (Z.lxor crc (Z.shiftl b 8)).

Definition crc_xmodem (l : list Z) : Z := fold_left crc_byte l 0.

(** The part of a key that Redis Cluster hashes: what is between the first
    '{' and the first '}' after it, unless that is empty or there is no such
    pair, and then the whole key. *)
Inductive hashed : list Z -> list Z -> Prop :=
| hashed_tag pre tag post :
    123 ∉ pre -> 125 ∉ tag -> tag <> [] -> hashed (pre ++ 123 :: tag ++ 125 :: post) tag
| hashed_whole key :
    (forall pre tag post, key = pre ++ 123 :: tag ++ 125 :: post ->
       123 ∉ pre -> 125 ∉ tag -> tag = []) -> hashed key key.

(** ** The table *)

Lemma table_all :
  map (fun x => nth x crc16tab 0) (seq 0 256) =
  map (fun x => Nat.iter 8 crc_bit (Z.shiftl (Z.of_nat x) 8)) (seq 0 256).
Proof. vm_compute. reflexivity. Qed.

Lemma low_all :
  map (fun x => Nat.iter 8 crc_bit (Z.of_nat x)) (seq 0 256) =
  map (fun x => Z.shiftl (Z.of_nat x) 8) (seq 0 256).
Proof. vm_compute. reflexivity. Qed.

(** Two functions that agree on the list [0 .. 255] agree on bytes. *)
Lemma seq_256 (f g : nat -> Z) x :
  map f (seq 0 256) = map g (seq 0 256) -> 0 <= x < 256 -> f (Z.to_nat x) = g (Z.to_nat x).
Proof. intros Hf Hx. rewrite map_ext_in_iff in Hf. apply Hf. apply in_seq. lia. Qed.

Lemma u16_lxor a b : u16 (Z.lxor a b) = Z.lxor (u16 a) (u16 b).
Proof.
  unfold wrap. rewrite <- !Z.land_ones by lia. apply Z.bits_inj'. intros n Hn.
  rewrite Z.land_spec, !Z.lxor_spec, !Z.land_spec.
  by destruct (Z.testbit a n), (Z.testbit b n), (Z.testbit (Z.ones 16) n).
Qed.

Lemma lxor_swap a b c d : Z.lxor (Z.lxor a b) (Z.lxor c d) = Z.lxor (Z.lxor a c) (Z.lxor b d).
Proof.
  apply Z.bits_inj'. intros n _. rewrite !Z.lxor_spec.
  by destruct (Z.testbit a n), (Z.testbit b n), (Z.testbit c n), (Z.testbit d n).
Qed.

(** One bit step is linear over exclusive or. *)
Lemma crc_bit_lxor a b : crc_bit (Z.lxor a b) = Z.lxor (crc_bit a) (crc_bit b).
Proof.
  unfold crc_bit. rewrite Z.lxor_spec, Z.shiftl_lxor, u16_lxor.
  assert (forall x y : bool, (if xorb x y then 0x1021 else 0) =
    Z.lxor (if x then 0x1021 else 0) (if y then 0x1021 else 0)) as -> by (by intros [] []).
  apply lxor_swap.
Qed.

Lemma crc_bits_lxor n a b :
  Nat.iter n crc_bit (Z.lxor a b) = Z.lxor (Nat.iter n crc_bit a) (Nat.iter n crc_bit b).
Proof. induction n; simpl; [done|]. by rewrite IHn, crc_bit_lxor. Qed.

Lemma lxor_byte_split crc b : 0 <= crc < 2 ^ 16 -> is_byte b ->
  Z.lxor crc (Z.shiftl b 8) =
  Z.lxor (Z.shiftl (Z.lxor (Z.shiftr crc 8) b) 8) (Z.land crc 0xFF).
Proof.
  intros Hc Hb. apply Z.bits_inj'. intros n Hn.
  change 0xFF with (Z.ones 8). rewrite !Z.lxor_spec, Z.land_spec, Z.testbit_ones by lia.
  destruct (Z.ltb_spec n 8).
  - rewrite !Z.shiftl_spec_low by lia. destruct (Z.leb_spec 0 n); [|lia]. simpl.
    by destruct (Z.testbit crc n).
  - rewrite !Z.shiftl_spec_high, Z.lxor_spec, Z.shiftr_spec by lia.
    replace (n - 8 + 8) with n by lia. rewrite !andb_false_r, xorb_false_r. done.
Qed.

Lemma high_byte_range crc b : 0 <= crc < 2 ^ 16 -> is_byte b ->
  0 <= Z.lxor (Z.shiftr crc 8) b < 256.
Proof.
  intros Hc Hb. rewrite Z.shiftr_div_pow2 by lia.
  assert (0 <= crc / 2 ^ 8 < 256) by (split; [apply Z.div_pos; lia | apply Z.div_lt_upper_bound; lia]).
  by apply (lxor_range 8).
Qed.

Lemma table_entry x : 0 <= x < 256 ->
  nth (Z.to_nat x) crc16tab 0 = Nat.iter 8 crc_bit (Z.shiftl x 8).
Proof.
  intros Hx. rewrite <- (Z2Nat.id x) at 2 by lia. exact (seq_256 _ _ x table_all Hx).
Qed.

Lemma low_entry x : 0 <= x < 256 -> Nat.iter 8 crc_bit x = Z.shiftl x 8.
Proof.
  intros Hx. rewrite <- (Z2Nat.id x) by lia. exact (seq_256 _ _ x low_all Hx).
Qed.

Lemma land_FF x : Z.land x 0xFF = x mod 256.
Proof. apply (land_mask 8). lia. Qed.

Lemma u16_shiftl8 x : u16 (Z.shiftl x 8) = Z.shiftl (x mod 256) 8.
Proof.
  unfold wrap. rewrite !Z.shiftl_mul_pow2 by lia. apply (Z.mul_mod_distr_r x 256 256); lia.
Qed.

Lemma crc16_step_byte crc b : 0 <= crc < 2 ^ 16 -> is_byte b ->
  crc16_step crc b = crc_byte crc b.
Proof.
  intros Hc Hb. unfold crc16_step, crc_byte. pose proof (high_byte_range crc b Hc Hb) as Hx.
  rewrite lxor_byte_split, crc_bits_lxor by done. rewrite !land_FF.
  rewrite (Z.mod_small (Z.lxor _ _)) by done. rewrite table_entry by done.
  rewrite (low_entry (crc mod 256)) by (apply Z.mod_pos_bound; lia).
  rewrite u16_shiftl8. apply Z.lxor_comm.
Qed.

Lemma crc_bit_range crc : 0 <= crc_bit crc < 2 ^ 16.
Proof.
  unfold crc_bit. pose proof (wrap_range 16 (Z.shiftl crc 1) ltac:(lia)) as Hr.
  assert (0 <= (if Z.testbit crc 15 then 0x1021 else 0) < 2 ^ 16) as Hk by (destruct (Z.testbit crc 15); lia).
  by apply lxor_range.
Qed.

Lemma crc_byte_range crc b : 0 <= crc_byte crc b < 2 ^ 16.
Proof. unfold crc_byte. simpl. apply crc_bit_range. Qed.

(** ** The loops *)

Lemma fold_step_byte l : forall crc, Forall is_byte l -> 0 <= crc < 2 ^ 16 ->
  fold_left crc16_step l crc = fold_left crc_byte l crc.
Proof.
  induction l as [|b l IH]; intros crc Hl Hc; [done|]. inversion_clear Hl.
  rewrite !fold_left_cons.
  rewrite crc16_step_byte by done. apply IH; [done | apply crc_byte_range].
Qed.

Lemma fold_crc_range l : forall crc, 0 <= crc < 2 ^ 16 -> 0 <= fold_left crc_byte l crc < 2 ^ 16.
Proof. induction l; intros; [done|]. rewrite fold_left_cons. apply IHl, crc_byte_range. Qed.

Lemma crc16_loop_fold buf n : forall i crc, (i + n <= length buf)%nat ->
  crc16_loop buf n (Z.of_nat i) crc = Ret (fold_left crc16_step (take n (drop i buf)) crc).
Proof.
  induction n as [|n IH]; intros i crc Hi; cbn [crc16_loop]; [done|].
  destruct (lookup_lt_is_Some_2 buf i) as [b Hb]; [lia|].
  rewrite (zget_ok _ _ b) by (rewrite ?Nat2Z.id; done || lia). cbn [go_bind].
  replace (Z.of_nat i + 1) with (Z.of_nat (S i)) by lia. rewrite IH by lia.
  by rewrite (drop_S _ b i Hb), firstn_cons, fold_left_cons.
Qed.

Lemma crc16_take buf len : Forall is_byte buf -> 0 <= len <= zlen buf ->
  crc16 buf len = Ret (crc_xmodem (take (Z.to_nat len) buf)).
Proof.
  intros Hb Hl. unfold crc16, zlen in *. rewrite (crc16_loop_fold _ _ 0) by lia.
  rewrite drop_0. unfold crc_xmodem. rewrite fold_step_byte; [done| |lia]. by apply Forall_take.
Qed.

Lemma crc16_full buf : Forall is_byte buf -> crc16 buf (zlen buf) = Ret (crc_xmodem buf).
Proof.
  intros. pose proof (zlen_nonneg buf). rewrite crc16_take by (done || lia).
  unfold zlen. by rewrite Nat2Z.id, firstn_all.
Qed.

Lemma scan_byte_notin l c : forall i, c ∉ l -> scan_byte l c i = i + zlen l.
Proof.
  induction l as [|b l IH]; intros i Hc; simpl.
  - rewrite zlen_nil. lia.
  - apply not_elem_of_cons in Hc as [Hb Hl]. case_test; [congruence|].
    rewrite IH, zlen_cons by done. lia.
Qed.

Lemma scan_byte_found pre c post : forall i, c ∉ pre ->
  scan_byte (pre ++ c :: post) c i = i + zlen pre.
Proof.
  induction pre as [|b l IH]; intros i Hc; simpl.
  - rewrite Z.eqb_refl, zlen_nil. lia.
  - apply not_elem_of_cons in Hc as [Hb Hl]. case_test; [congruence|].
    rewrite IH, zlen_cons by done. lia.
Qed.

Lemma drop_app_cons {A} (pre : list A) x post n :
  n = zlen pre + 1 -> drop (Z.to_nat n) (pre ++ x :: post) = post.
Proof.
  intros ->. unfold zlen. replace (Z.to_nat _) with (S (length pre)) by lia.
  replace (pre ++ x :: post) with ((pre ++ [x]) ++ post) by (by rewrite <- app_assoc).
  rewrite drop_app_ge by (rewrite length_app; simpl; lia). rewrite length_app; simpl.
  by replace (S (length pre) - (length pre + 1))%nat with 0%nat by lia.
Qed.

Lemma slot_of_tag pre tag post : Forall is_byte tag -> 123 ∉ pre -> 125 ∉ tag -> tag <> [] ->
  Forall is_byte post ->
  KeyHashSlot (pre ++ 123 :: tag ++ 125 :: post) = Ret (Z.land (crc_xmodem tag) 0x3FFF).
Proof.
  intros Hb Hpre Htag Hne Hpost. unfold KeyHashSlot. rewrite scan_byte_found by done.
  pose proof (zlen_nonneg pre). pose proof (zlen_nonneg post).
  assert (0 < zlen tag) by (destruct tag; [done|]; rewrite zlen_cons; pose proof (zlen_nonneg tag); lia).
  rewrite drop_app_cons by lia. rewrite scan_byte_found by done.
  rewrite !zlen_app, zlen_cons, zlen_app, zlen_cons.
  repeat (case_test; try lia). simpl. rewrite slice_ok; rewrite ?zlen_app, ?zlen_cons, ?zlen_app, ?zlen_cons; try lia.
  cbn [go_bind]. unfold sub. rewrite drop_app_cons by lia. rewrite take_ge.
  2: { rewrite length_app; simpl. unfold zlen in *. lia. }
  rewrite crc16_take.
  - cbn [go_bind]. unfold zlen in *. rewrite take_app_le by lia. rewrite take_ge by lia. done.
  - apply Forall_app. split; [done|]. constructor; [|done]. unfold is_byte. lia.
  - rewrite zlen_app, zlen_cons. lia.
Qed.

Lemma slot_of_whole key : Forall is_byte key ->
  (forall pre tag post, key = pre ++ 123 :: tag ++ 125 :: post ->
     123 ∉ pre -> 125 ∉ tag -> tag = []) ->
  KeyHashSlot key = Ret (Z.land (crc_xmodem key) 0x3FFF).
Proof.
  intros Hb Hno. unfold KeyHashSlot. rewrite crc16_full by done. cbn [go_bind].
  destruct (decide (123 ∈ key)) as [Hin|Hin].
  2: { rewrite scan_byte_notin by done. by rewrite Z.add_0_l, Z.eqb_refl. }
  destruct (list_elem_of_split_l key 123 Hin) as (pre & rest & -> & Hpre).
  rewrite scan_byte_found by done. rewrite zlen_app, zlen_cons, drop_app_cons by lia.
  pose proof (zlen_nonneg rest). case_test; [done|].
  destruct (decide (125 ∈ rest)) as [Hin2|Hin2].
  2: { rewrite scan_byte_notin by done. by replace (_ =? _) with true by lia. }
  destruct (list_elem_of_split_l rest 125 Hin2) as (tag & post & -> & Htag).
  assert (tag = []) as -> by (by apply (Hno pre tag post)). rewrite scan_byte_found by done.
  replace (0 + zlen pre + 1 + zlen [] =? 0 + zlen pre + 1) with true by (rewrite (@zlen_nil Z); lia).
  by rewrite orb_true_r.
Qed.

(** The table-driven [crc16] computes CRC-16/XMODEM, bit by bit with
    polynomial 0x1021, of every prefix of the buffer, without a panic. *)
Theorem crc16_is_xmodem (buf : list Z) (len : Z) (Hbuf : Forall is_byte buf) (Hlen : 0 <= len <= zlen buf) :
  crc16 buf len = Ret (crc_xmodem (take (Z.to_nat len) buf)).
Proof. by apply crc16_take. Qed.

Lemma crc16_is_xmodem_witness :
  crc16 (str "123456789") 9 = Ret (crc_xmodem (take (Z.to_nat 9) (str "123456789"))) /\
  crc_xmodem (str "123456789") = 0x31C3.
Proof.
  split; [|vm_compute; done]. apply (crc16_is_xmodem (str "123456789") 9).
  - repeat constructor; vm_compute; congruence.
  - vm_compute. split; congruence.
Defined.

(** C26: [KeyHashSlot] implements Redis Cluster's key distribution: the slot is
    the low 14 bits of the CRC of the key's hash tag, the part between the
    first '{' and the next '}' when it is not empty, and else of the whole
    key.  So it is below 16384, keys with one tag share a slot, and no key
    makes it panic. *)
Theorem key_hash_slot_spec (key part : list Z) (Hkey : Forall is_byte key) (Hpart : hashed key part) :
  KeyHashSlot key = Ret (crc_xmodem part mod 16384) /\ 0 <= crc_xmodem part mod 16384 < 16384.
Proof.
  rewrite <- (land_mask 14) by lia. split; [|rewrite (land_mask 14) by lia; apply Z.mod_pos_bound; lia].
  inversion Hpart; subst.
  - rewrite Forall_app, Forall_cons, Forall_app, Forall_cons in Hkey.
    destruct Hkey as (_ & _ & ? & _ & ?). by apply slot_of_tag.
  - by apply slot_of_whole.
Qed.

Lemma key_hash_slot_spec_witness :
  KeyHashSlot (str "user{1000}.a") = Ret (crc_xmodem (str "1000") mod 16384) /\
  0 <= crc_xmodem (str "1000") mod 16384 < 16384.
Proof.
  apply (key_hash_slot_spec (str "user{1000}.a") (str "1000")).
  - repeat constructor; vm_compute; congruence.
  - apply (hashed_tag (str "user") (str "1000") (str ".a")).
    + refine (bool_decide_unpack _ _). by vm_compute.
    + refine (bool_decide_unpack _ _). by vm_compute.
    + vm_compute. congruence.
Defined.
