(* ===== verification/Netio.v ===== *)
(** * The parts of Go's [io] and [net] packages the network tasks use

    A connection's inbound side is the list of segments the network will
    deliver, followed by end of file.  [ReadAtLeast] is the loop of
    [io.ReadAtLeast] over it; how the byte stream is cut into segments is
    arbitrary.  [fill] is the sequence the receive loops run to get more bytes
    into a [ByteBuffer]: grow, read into the writable window, flip. *)

From S2P Require Import Prelude Bytebuffer.

Inductive io_err : Type := EOF | ErrUnexpectedEOF | ErrShortBuffer.

(** The loop of [io.ReadAtLeast] on a buffer of [cap] bytes, [got] read so
    far: a [Read] returns at most the free space of the buffer. *)
Fixpoint read_loop (segs : list (list Z)) (cap min : Z) (got : list Z)
    : list Z * list (list Z) * option io_err :=
  if min <=? zlen got then (got, segs, None)
  else
    match segs with
    | [] => (got, [], Some (if zlen got =? 0 then EOF else ErrUnexpectedEOF))
    | seg :: segs =>
        let free := cap - zlen got in
        if zlen seg <=? free then read_loop segs cap min (got ++ seg)
        else (got ++ take (Z.to_nat free) seg, drop (Z.to_nat free) seg :: segs, None)
    end.

Definition ReadAtLeast (segs : list (list Z)) (buflen min : Z)
    : list Z * list (list Z) * option io_err :=
  if buflen <? min then ([], segs, Some ErrShortBuffer)
  else read_loop segs buflen min [].

(** Grow to [neednum], read at least [neednum] bytes into the window after the
    writer index, and advance it by what was read. *)
Definition fill (segs : list (list Z)) (buff : ByteBuffer) (neednum : Z)
    : go (list (list Z) * ByteBuffer * option io_err) :=
  let! buff := WrGrow buff neednum in
  let! wb := WrBuf buff in
  let '(data, segs, err) := ReadAtLeast segs (zlen wb) neednum in
  let! buff := write_at_writer buff data in
  Ret (segs, WrFlip buff (zlen data), err).

(** ** Facts *)

Lemma read_loop_spec segs cap min : forall got data segs' err,
  min <= cap -> zlen got <= cap ->
  read_loop segs cap min got = (data, segs', err) ->
  data ++ concat segs' = got ++ concat segs /\ zlen data <= cap /\
  match err with
  | None => min <= zlen data
  | Some _ => zlen data < min /\ segs' = []
  end.
Proof.
  induction segs as [|seg segs IH]; intros got data segs' err Hmin Hgot; simpl.
  - case_test; intros; simplify_eq; [done|]. rewrite !app_nil_r. auto with lia.
  - case_test; [intros; simplify_eq; done|]. case_test.
    + intros Hr. apply IH in Hr; [|done|rewrite zlen_app; lia]. by rewrite <- app_assoc in Hr.
    + intros; simplify_eq. rewrite zlen_app, zlen_take. simpl.
      rewrite <- app_assoc. rewrite (app_assoc (take _ _)), take_drop. split; [done|lia].
Qed.

Lemma WrBuf_len b : wf b -> exists wb, WrBuf b = Ret wb /\ zlen wb = WrSize b.
Proof.
  intros (?&?&?&?). unfold WrBuf, WrSize. case_test.
  - exists []. rewrite (@zlen_nil Z). split; [done|lia].
  - rewrite slice_ok by lia. eexists; split; [done|]. rewrite zlen_sub; lia.
Qed.

(** [fill] never panics and never loses or reorders bytes: what is buffered
    followed by what is still to come is unchanged. *)
Lemma fill_spec segs b need : wf b -> 0 < need ->
  exists segs' b' err, fill segs b need = Ret (segs', b', err) /\ wf b' /\
    readable b' ++ concat segs' = readable b ++ concat segs /\
    match err with
    | None => zlen (readable b) + need <= zlen (readable b')
    | Some _ => zlen (readable b') < zlen (readable b) + need /\ segs' = []
    end.
Proof.
  intros Hwf Hneed. unfold fill.
  destruct (WrGrow_spec b need Hwf ltac:(lia)) as (b1 & -> & Hwf1 & Hr1 & Hroom). cbn [go_bind].
  destruct (WrBuf_len b1 Hwf1) as (wb & -> & Hwb). cbn [go_bind]. rewrite Hwb.
  unfold ReadAtLeast. case_test; [lia|].
  destruct (read_loop segs (WrSize b1) need []) as [[data segs'] err] eqn:Hread.
  apply read_loop_spec in Hread as (Hstream & Hcap & Herr); [|done|rewrite zlen_nil; lia].
  destruct (write_flip_spec b1 data Hwf1 Hcap) as (b2 & -> & Hwf2 & Hr2). cbn [go_bind].
  do 3 eexists; split; [done|]. rewrite Hr2, Hr1. split; [done|].
  rewrite <- app_assoc, Hstream. split; [done|]. rewrite zlen_app.
  destruct err; [destruct Herr; split; [lia|done] | lia].
Qed.

(** The guard the receive loops put in front of [fill]: have at least [n]
    bytes buffered. *)
Lemma fill_to_spec segs b n : wf b ->
  exists segs' b' err,
    (if RdSize b <? n then fill segs b (n - RdSize b) else Ret (segs, b, None))
      = Ret (segs', b', err) /\ wf b' /\
    readable b' ++ concat segs' = readable b ++ concat segs /\
    match err with
    | None => n <= zlen (readable b')
    | Some _ => zlen (readable b') < n /\ segs' = []
    end.
Proof.
  intros Hwf. rewrite (RdSize_readable b Hwf). case_test.
  - destruct (fill_spec segs b (n - zlen (readable b)) Hwf ltac:(lia))
      as (segs' & b' & err & Hf & Hwf' & Hs & He).
    do 3 eexists; split; [exact Hf|]. split; [done|]. split; [done|].
    destruct err; [destruct He; split; [lia|done] | lia].
  - do 3 eexists; split; [done|]. done.
Qed.

Lemma RdBuf_slice b i j : wf b -> 0 <= i -> i <= j -> j <= zlen (readable b) ->
  exists buf, RdBuf b = Ret buf /\ slice buf i j = Ret (sub (readable b) i j).
Proof.
  intros Hwf ? ? ?. destruct (RdBuf_spec b Hwf) as (rest & -> & _).
  eexists; split; [done|]. rewrite slice_ok, sub_app_l; rewrite ?zlen_app; try done.
  pose proof (zlen_nonneg rest). lia.
Qed.
