(* ===== verification/Framing.v ===== *)
(** * Length-prefixed framing over a byte stream

    The TCP tasks of gonet cut the byte stream of a connection into messages:
    a header of [cmd_header_size] bytes that holds the length of the body, and
    the body.  The class [Framing] is what a task contributes (how it reads
    the length and the message out of the receive buffer, and which lengths it
    accepts); [frame_round] is one round of the receive loop over it,
    [decodes] the declarative meaning of the stream.  The lemmas show that
    every receive loop of this shape is a decoder. *)

From S2P Require Import Prelude Bytebuffer Netio.

(** Constants of tcptask.go that the tasks of the package share. *)
Definition recvbuff_max_size : Z := 1 * 1024 * 1024.
Definition cmd_max_size : Z := 256 * 1024.
Definition sendcmd_max_size : Z := 32 * 1024.
Definition cmd_header_size : Z := 4.
Definition cmd_verify_time : Z := 30.

Class Framing (M : Type) := {
  (** the code: the length and the message taken from the read buffer *)
  read_size : list Z -> go Z;
  read_msg : list Z -> Z -> go M;
  accepts : Z -> bool;
  (** the meaning of a header, and of a header with a body *)
  body_size : list Z -> Z;
  message : list Z -> list Z -> M;
  read_size_ok hdr rest : zlen hdr = cmd_header_size -> Forall is_byte hdr ->
    read_size (hdr ++ rest) = Ret (body_size hdr);
  read_msg_ok hdr body rest : zlen hdr = cmd_header_size -> zlen body = body_size hdr ->
    read_msg (hdr ++ body ++ rest) (body_size hdr) = Ret (message hdr body);
  body_size_nonneg hdr : zlen hdr = cmd_header_size -> Forall is_byte hdr -> 0 <= body_size hdr
}.

(** How a receive loop ends. *)
Inductive recv_end : Type :=
| RecvErr (e : io_err)
| RecvBadSize (datasize : Z).

(** The decoding of a stream ends where the stream stops, between frames or
    in one, or at a refused length. *)
Inductive stream_end : Type :=
| StreamClosed
| BadSize (datasize : Z).

Definition end_class (e : recv_end) : stream_end :=
  match e with
  | RecvErr _ => StreamClosed
  | RecvBadSize n => BadSize n
  end.

(** [for { round }]: the messages delivered and how the loop ended, [None]
    when the fuel ran out. *)
Fixpoint loop {M} (round : list (list Z) -> ByteBuffer -> go (recv_end + (list (list Z) * ByteBuffer * M)))
    (fuel : nat) (conn : list (list Z)) (rb : ByteBuffer) : go (list M * option recv_end) :=
  match fuel with
  | O => Ret ([], None)
  | S fuel =>
      let! r := round conn rb in
      match r with
      | inl e => Ret ([], Some e)
      | inr (conn, rb, msg) =>
          let! (msgs, e) := loop round fuel conn rb in Ret (msg :: msgs, e)
      end
  end.

Lemma loop_ext {M} (r1 r2 : list (list Z) -> ByteBuffer -> go (recv_end + (list (list Z) * ByteBuffer * M))) :
  (forall conn rb, r1 conn rb = r2 conn rb) ->
  forall fuel conn rb, loop r1 fuel conn rb = loop r2 fuel conn rb.
Proof.
  intros Hr. induction fuel as [|fuel IH]; intros conn rb; simpl; [done|].
  rewrite Hr. destruct (r2 conn rb) as [[|[[]]]|]; simpl; [done| |done]. by rewrite IH.
Qed.

Lemma header_inv (hdr : list Z) : zlen hdr = cmd_header_size ->
  exists m0 m1 m2 m3, hdr = [m0; m1; m2; m3].
Proof.
  unfold zlen, cmd_header_size. destruct hdr as [|m0 [|m1 [|m2 [|m3 [|]]]]]; simpl; intros; try lia. eauto.
Qed.

(** A frame with a 3-byte length and a flag. *)
Definition buf_frame (flag : Z) (body : list Z) : list Z := le_bytes 3 (zlen body) ++ flag :: body.

Lemma header_bytes3 n flag : [u8 n; u8 (Z.shiftr n 8); u8 (Z.shiftr n 16); flag] = le_bytes 3 n ++ [flag].
Proof. unfold le_bytes. rewrite !Z.shiftr_shiftr by lia. done. Qed.

(** The body of the frame at the head of a buffer. *)
Lemma slice_frame (hdr body rest : list Z) n : zlen hdr = cmd_header_size -> zlen body = n ->
  slice (hdr ++ body ++ rest) cmd_header_size (cmd_header_size + n) = Ret body.
Proof.
  intros Hh <-. pose proof (zlen_nonneg rest). pose proof (zlen_nonneg body).
  unfold cmd_header_size in *. rewrite slice_ok by (rewrite ?zlen_app; lia). f_equal.
  rewrite app_assoc, sub_app_l by (rewrite ?zlen_app; lia). rewrite <- Hh. apply sub_app_r_full.
Qed.

Section Framing.
Context {M : Type} `{F : Framing M}.

Definition frame_round (conn : list (list Z)) (rb : ByteBuffer)
    : go (recv_end + (list (list Z) * ByteBuffer * M)) :=
  let! (conn, rb, err) :=
    (if RdSize rb <? cmd_header_size
     then fill conn rb (cmd_header_size - RdSize rb)
     else Ret (conn, rb, None)) in
  match err with
  | Some e => Ret (inl (RecvErr e))
  | None =>
      let! msgbuff := RdBuf rb in
      let! datasize := read_size msgbuff in
      if negb (accepts datasize) then Ret (inl (RecvBadSize datasize))
      else
        let! (conn, rb, err) :=
          (if RdSize rb <? datasize + cmd_header_size
           then fill conn rb (datasize + cmd_header_size - RdSize rb)
           else Ret (conn, rb, None)) in
        match err with
        | Some e => Ret (inl (RecvErr e))
        | None =>
            let! msgbuff := RdBuf rb in
            let! msg := read_msg msgbuff datasize in
            Ret (inr (conn, RdFlip rb (datasize + cmd_header_size), msg))
        end
  end.

Inductive decodes : list Z -> list M -> stream_end -> Prop :=
| dec_short s : zlen s < cmd_header_size -> decodes s [] StreamClosed
| dec_bad hdr rest :
    zlen hdr = cmd_header_size -> accepts (body_size hdr) = false ->
    decodes (hdr ++ rest) [] (BadSize (body_size hdr))
| dec_cut hdr rest :
    zlen hdr = cmd_header_size -> accepts (body_size hdr) = true -> zlen rest < body_size hdr ->
    decodes (hdr ++ rest) [] StreamClosed
| dec_msg hdr body rest msgs e :
    zlen hdr = cmd_header_size -> accepts (body_size hdr) = true -> zlen body = body_size hdr ->
    decodes rest msgs e ->
    decodes (hdr ++ body ++ rest) (message hdr body :: msgs) e.

(** [bs] is a frame of the message [m]. *)
Definition framed (m : M) (bs : list Z) : Prop :=
  exists hdr body, bs = hdr ++ body /\ zlen hdr = cmd_header_size /\
    accepts (body_size hdr) = true /\ zlen body = body_size hdr /\ message hdr body = m.

(** ** The receive loop decodes the stream *)

Lemma RdBuf_app b : wf b -> exists rest, RdBuf b = Ret (readable b ++ rest).
Proof. intros Hwf. destruct (RdBuf_spec b Hwf) as (rest & -> & _). eauto. Qed.

(** The frame at the head of a stream that is long enough. *)
Lemma split_at (s : list Z) n : 0 <= n -> n <= zlen s ->
  exists a b, s = a ++ b /\ zlen a = n.
Proof.
  intros. exists (take (Z.to_nat n) s), (drop (Z.to_nat n) s). rewrite take_drop, zlen_take.
  split; [done|lia].
Qed.

Lemma app_same_head (a b c d : list Z) : zlen a = zlen c -> a ++ b = c ++ d -> a = c /\ b = d.
Proof. unfold zlen. intros. apply app_inj_1; [lia|done]. Qed.

Lemma prefix_split (x y a b : list Z) : x ++ y = a ++ b -> zlen a <= zlen x ->
  exists r, x = a ++ r /\ b = r ++ y.
Proof.
  intros E Hl. destruct (split_at x (zlen a) (zlen_nonneg a) Hl) as (a' & r & -> & Ha).
  rewrite <- app_assoc in E. apply app_same_head in E as [-> <-]; [|done]. eauto.
Qed.

Lemma frame_round_spec conn rb : wf rb -> Forall is_byte (readable rb ++ concat conn) ->
  exists r, frame_round conn rb = Ret r /\
  match r with
  | inl e => decodes (readable rb ++ concat conn) [] (end_class e)
  | inr (conn', rb', msg) =>
      wf rb' /\ exists hdr body, zlen hdr = cmd_header_size /\ accepts (body_size hdr) = true /\
        zlen body = body_size hdr /\ msg = message hdr body /\
        readable rb ++ concat conn = hdr ++ body ++ (readable rb' ++ concat conn')
  end.
Proof.
  intros Hwf Hbytes. unfold frame_round.
  destruct (fill_to_spec conn rb cmd_header_size Hwf) as (c1 & b1 & e1 & -> & Hwf1 & Hs1 & He1).
  cbn [go_bind]. rewrite <- Hs1 in *. clear Hs1. destruct e1 as [e1|].
  { destruct He1 as [Hlt ->]. rewrite app_nil_r. eexists; split; [done|]. by constructor. }
  destruct (split_at (readable b1) cmd_header_size ltac:(done) He1) as (hdr & tl & Hr1 & Hhdr).
  destruct (RdBuf_app b1 Hwf1) as (x1 & ->). rewrite Hr1 in Hbytes |- *. rewrite <- !app_assoc in *.
  cbn [go_bind]. apply Forall_app in Hbytes as [Hb _]. rewrite read_size_ok by done. cbn [go_bind].
  destruct (accepts (body_size hdr)) eqn:Hok; simpl.
  2: { eexists; split; [done|]. by constructor. }
  pose proof (body_size_nonneg hdr Hhdr Hb) as Hn.
  destruct (fill_to_spec c1 b1 (body_size hdr + cmd_header_size) Hwf1)
    as (c2 & b2 & e2 & -> & Hwf2 & Hs2 & He2).
  cbn [go_bind]. rewrite Hr1, <- app_assoc in Hs2. destruct e2 as [e2|].
  { destruct He2 as [Hlt ->]. simpl in Hs2. rewrite app_nil_r in Hs2. rewrite Hs2, zlen_app in Hlt.
    eexists; split; [done|]. apply dec_cut; [done|done|lia]. }
  destruct (prefix_split _ _ _ _ Hs2 ltac:(lia)) as (r2 & Hr2 & Htl). rewrite Htl.
  rewrite Hr2, zlen_app in He2.
  destruct (split_at r2 (body_size hdr) Hn ltac:(lia)) as (body & rest & -> & Hbody).
  destruct (RdBuf_app b2 Hwf2) as (x2 & ->). rewrite Hr2, <- !app_assoc. cbn [go_bind].
  rewrite read_msg_ok by done. cbn [go_bind]. eexists; split; [done|].
  destruct (RdFlip_spec b2 (body_size hdr + cmd_header_size) Hwf2) as [Hwf3 Hr3];
    [unfold cmd_header_size; lia|].
  split; [done|]. exists hdr, body. split_and!; try done.
  rewrite Hr3, Hr2.
  replace (body_size hdr + cmd_header_size) with (zlen (hdr ++ body)) by (rewrite zlen_app; lia).
  by rewrite (app_assoc hdr body rest), drop_app_zlen.
Qed.

Lemma loop_spec fuel : forall conn rb, wf rb -> Forall is_byte (readable rb ++ concat conn) ->
  (length (readable rb ++ concat conn) < fuel)%nat ->
  exists msgs e, loop frame_round fuel conn rb = Ret (msgs, Some e) /\
    decodes (readable rb ++ concat conn) msgs (end_class e).
Proof.
  induction fuel as [|fuel IH]; intros conn rb Hwf Hb Hfuel; [lia|]. simpl.
  destruct (frame_round_spec conn rb Hwf Hb) as (r & -> & Hr). cbn [go_bind].
  destruct r as [e | [[conn' rb'] msg]]; [by eauto|].
  destruct Hr as (Hwf' & hdr & body & Hhdr & Hok & Hmsg & -> & Hs). rewrite Hs in Hfuel, Hb.
  rewrite !length_app in Hfuel. unfold zlen, cmd_header_size in Hhdr.
  rewrite !Forall_app in Hb. destruct Hb as (_ & _ & Hb).
  destruct (IH conn' rb' Hwf') as (msgs & e & -> & Hd); [by apply Forall_app|rewrite length_app; lia|].
  cbn [go_bind]. eexists _, e. split; [done|]. rewrite Hs. by apply dec_msg.
Qed.

(** ** Decoding is a function of the stream *)

Lemma decodes_inv s msgs e : decodes s msgs e ->
  let hdr := take 4 s in let rest := drop 4 s in let n := body_size hdr in
  (zlen s < 4 /\ msgs = [] /\ e = StreamClosed) \/
  (4 <= zlen s /\ accepts n = false /\ msgs = [] /\ e = BadSize n) \/
  (4 <= zlen s /\ accepts n = true /\ zlen rest < n /\ msgs = [] /\ e = StreamClosed) \/
  (4 <= zlen s /\ accepts n = true /\ n <= zlen rest /\ exists msgs',
     msgs = message hdr (take (Z.to_nat n) rest) :: msgs' /\ decodes (drop (Z.to_nat n) rest) msgs' e).
Proof.
  destruct 1 as [s Hs|hdr rest Hh Hb|hdr rest Hh Hok Hc|hdr body rest msgs e Hh Hok Hb Hd]; [by left|..];
    right; pose proof (take_app_zlen hdr) as Ht; pose proof (drop_app_zlen hdr) as Hdr;
    rewrite Hh in Ht, Hdr; change (Z.to_nat cmd_header_size) with 4%nat in *;
    rewrite !Ht, ?Hdr, zlen_app, Hh; unfold cmd_header_size;
    pose proof (zlen_nonneg rest); [left|right; left|right; right].
  - auto with lia.
  - auto with lia.
  - rewrite zlen_app. pose proof (zlen_nonneg body). split; [lia|]. split; [done|]. split; [lia|].
    rewrite <- Hb, take_app_zlen, drop_app_zlen. eauto.
Qed.

Lemma decodes_det_len n : forall s msgs e msgs' e', (length s < n)%nat ->
  decodes s msgs e -> decodes s msgs' e' -> msgs = msgs' /\ e = e'.
Proof.
  induction n as [|n IH]; intros s msgs e msgs' e' Hn H1 H2; [lia|].
  apply decodes_inv in H1, H2. simpl in H1, H2.
  destruct H1 as [?|[?|[?|(? & ? & ? & m1 & -> & H1)]]], H2 as [?|[?|[?|(? & ? & ? & m2 & -> & H2)]]];
    try (destruct_and?; subst; auto; congruence || lia).
  set (rest := drop (Z.to_nat _) _) in *.
  assert (length rest < n)%nat by (unfold rest; rewrite !length_drop; unfold zlen in *; lia).
  by destruct (IH rest m1 e m2 e') as [-> ->].
Qed.

Lemma decodes_det s msgs e msgs' e' :
  decodes s msgs e -> decodes s msgs' e' -> msgs = msgs' /\ e = e'.
Proof. apply (decodes_det_len (S (length s))). lia. Qed.

(** On a new buffer the loop returns the one decoding of the stream. *)
Lemma loop_decodes segs : Forall is_byte (concat segs) ->
  exists msgs e, loop frame_round (S (length (concat segs))) segs NewByteBuffer = Ret (msgs, Some e) /\
    decodes (concat segs) msgs (end_class e) /\
    forall msgs' e', decodes (concat segs) msgs' e' -> msgs' = msgs /\ e' = end_class e.
Proof.
  intros Hb. destruct wf_new as [Hwf Hr].
  destruct (loop_spec (S (length (concat segs))) segs NewByteBuffer Hwf) as (msgs & e & He & Hd);
    rewrite ?Hr; [done|simpl; lia|].
  rewrite Hr in Hd. exists msgs, e. split; [done|]. split; [done|]. intros. by eapply decodes_det.
Qed.

Lemma decodes_framed ms wires rest ms' e :
  Forall2 framed ms wires -> decodes rest ms' e -> decodes (concat wires ++ rest) (ms ++ ms') e.
Proof.
  induction 1 as [|m bs ms wires (hdr & body & -> & Hh & Hok & Hb & <-) _ IH]; intros Hd; [done|].
  cbn [concat app]. rewrite <- !app_assoc. by apply dec_msg; [..|apply IH].
Qed.

(** Frames sent back to back are received as their messages, however the
    network cuts them. *)
Lemma loop_framed ms wires segs : Forall2 framed ms wires -> concat segs = concat wires ->
  Forall is_byte (concat segs) ->
  exists e, loop frame_round (S (length (concat segs))) segs NewByteBuffer = Ret (ms, Some (RecvErr e)).
Proof.
  intros Hf Hs Hb. destruct (loop_decodes segs Hb) as (msgs & e & He & _ & Huniq).
  destruct (Huniq ms StreamClosed) as [<- Hend].
  { rewrite Hs, <- (app_nil_r ms), <- (app_nil_r (concat wires)).
    by apply decodes_framed; [|apply dec_short]. }
  destruct e as [e|]; [by exists e|done].
Qed.

End Framing.
