(* ===== verification/Tcptask.v ===== *)
(** * gonet/tcptask.go: a TCP connection that exchanges framed messages

    A frame is a 4-byte little-endian length and that many bytes.  The file
    models the task's state and operations, the receive loop as a function of
    the inbound byte stream, and the ends of a session; the send loop, with the
    senders and a concurrent [Close], is in Sendloop.v. *)

From S2P Require Import Prelude Chan Bytebuffer Netio Framing.

(** ** State *)

(** The task.  [connOpen] is the state of [Conn], [closeCalls] counts the calls
    of [derived.OnClose], [running] the goroutine pairs started. *)
Record TcpTask := mkTcpTask {
  closed : Z;
  verified : Z;
  stopedChan : chan unit;
  recvBuff : ByteBuffer;
  sendBuff : ByteBuffer;
  signal : chan unit;
  keepAliveSecond : Z;
  TaskIndex : Z;
  connOpen : bool;
  closeCalls : nat;
  running : nat
}.

Definition NewTcpTask (now : Z) : TcpTask :=
  {| closed := -1; verified := 0; stopedChan := make_chan 1;
     recvBuff := NewByteBuffer; sendBuff := NewByteBuffer; signal := make_chan 1;
     keepAliveSecond := 0; TaskIndex := now;
     connOpen := true; closeCalls := 0; running := 0 |}.

Definition NewTcpTaskTimeout (now timeout : Z) : TcpTask :=
  {| closed := -1; verified := 0; stopedChan := make_chan 1;
     recvBuff := NewByteBuffer; sendBuff := NewByteBuffer; signal := make_chan 1;
     keepAliveSecond := timeout; TaskIndex := now;
     connOpen := true; closeCalls := 0; running := 0 |}.

Definition set_closed (t : TcpTask) (c : Z) : TcpTask :=
  {| closed := c; verified := verified t; stopedChan := stopedChan t;
     recvBuff := recvBuff t; sendBuff := sendBuff t; signal := signal t;
     keepAliveSecond := keepAliveSecond t; TaskIndex := TaskIndex t;
     connOpen := connOpen t; closeCalls := closeCalls t; running := running t |}.

Definition set_sendBuff (t : TcpTask) (b : ByteBuffer) : TcpTask :=
  {| closed := closed t; verified := verified t; stopedChan := stopedChan t;
     recvBuff := recvBuff t; sendBuff := b; signal := signal t;
     keepAliveSecond := keepAliveSecond t; TaskIndex := TaskIndex t;
     connOpen := connOpen t; closeCalls := closeCalls t; running := running t |}.

Definition set_signal (t : TcpTask) (c : chan unit) : TcpTask :=
  {| closed := closed t; verified := verified t; stopedChan := stopedChan t;
     recvBuff := recvBuff t; sendBuff := sendBuff t; signal := c;
     keepAliveSecond := keepAliveSecond t; TaskIndex := TaskIndex t;
     connOpen := connOpen t; closeCalls := closeCalls t; running := running t |}.

Definition set_stopedChan (t : TcpTask) (c : chan unit) : TcpTask :=
  {| closed := closed t; verified := verified t; stopedChan := c;
     recvBuff := recvBuff t; sendBuff := sendBuff t; signal := signal t;
     keepAliveSecond := keepAliveSecond t; TaskIndex := TaskIndex t;
     connOpen := connOpen t; closeCalls := closeCalls t; running := running t |}.

(** ** Operations *)

Definition Signal (t : TcpTask) : go TcpTask :=
  let! (c, _) := try_send (signal t) tt in Ret (set_signal t c).

Definition IsClosed (t : TcpTask) : bool := negb (closed t =? 0).

Definition Stop (t : TcpTask) : go (TcpTask * bool) :=
  if IsClosed t then Ret (t, false)
  else
    let! (c, sent) := try_send (stopedChan t) tt in
    if sent then Ret (set_stopedChan t c, true) else Ret (t, false).

(** [CompareAndSwap(&closed, -1, 0)], then the two loops are started. *)
Definition Start (t : TcpTask) : TcpTask :=
  if closed t =? -1 then
    {| closed := 0; verified := verified t; stopedChan := stopedChan t;
       recvBuff := recvBuff t; sendBuff := sendBuff t; signal := signal t;
       keepAliveSecond := keepAliveSecond t; TaskIndex := TaskIndex t;
       connOpen := connOpen t; closeCalls := closeCalls t; running := S (running t) |}
  else t.

(** [Close]: the state reached and whether it panicked on the way.  The
    connection is closed and the buffers reset before [close(stopedChan)],
    and [OnClose] is called after it. *)
Definition Close (t : TcpTask) : TcpTask * bool :=
  if closed t =? 0 then
    let t' := {| closed := -1; verified := verified t; stopedChan := stopedChan t;
       recvBuff := Reset (recvBuff t); sendBuff := Reset (sendBuff t); signal := signal t;
       keepAliveSecond := keepAliveSecond t; TaskIndex := TaskIndex t;
       connOpen := false; closeCalls := closeCalls t; running := running t |} in
    match close_chan (stopedChan t) with
    | Panic => (t', true)
    | Ret c =>
        ({| closed := closed t'; verified := verified t'; stopedChan := c;
            recvBuff := recvBuff t'; sendBuff := sendBuff t'; signal := signal t';
            keepAliveSecond := keepAliveSecond t'; TaskIndex := TaskIndex t';
            connOpen := false; closeCalls := S (closeCalls t'); running := running t' |}, false)
    end
  else (t, false).

Definition Verify (t : TcpTask) : TcpTask :=
  {| closed := closed t; verified := 1; stopedChan := stopedChan t;
     recvBuff := recvBuff t; sendBuff := sendBuff t; signal := signal t;
     keepAliveSecond := keepAliveSecond t; TaskIndex := TaskIndex t;
     connOpen := connOpen t; closeCalls := closeCalls t; running := running t |}.

Definition IsVerified (t : TcpTask) : bool := verified t =? 1.

Definition Terminate (t : TcpTask) : TcpTask * bool := Close t.

(** The body the four send operations share: append the pieces to [sendBuff]
    under the mutex, then wake the send loop. *)
Definition send_pieces (t : TcpTask) (app : ByteBuffer -> go ByteBuffer) : go (TcpTask * bool) :=
  if IsClosed t then Ret (t, false)
  else
    let! b := app (sendBuff t) in
    let! t := Signal (set_sendBuff t b) in
    Ret (t, true).

Definition RouteRpcBuffToService (t : TcpTask) (flag innerId uid : Z) (buffer : list Z)
    : go (TcpTask * bool) :=
  let bsize := zlen buffer + 8 + 8 + 1 in
  send_pieces t (fun b =>
    let! b := Append b [u8 bsize; u8 (Z.shiftr bsize 8); u8 (Z.shiftr bsize 16);
                        u8 (Z.shiftr bsize 24); flag] in
    let! b := AppendUint64 b innerId in
    let! b := AppendUint64 b (u64 uid) in
    Append b buffer).

Definition SendInnerMsgToClient (t : TcpTask) (flag mainCmd subCmd rpcId : Z) (buffer : list Z)
    : go (TcpTask * bool) :=
  let bsize := zlen buffer + 8 in
  send_pieces t (fun b =>
    let! b := Append b [u8 bsize; u8 (Z.shiftr bsize 8); u8 (Z.shiftr bsize 16);
                        u8 (Z.shiftr bsize 24); flag; mainCmd] in
    let! b := AppendUint16 b subCmd in
    let! b := AppendUint32 b rpcId in
    Append b buffer).

Definition AsyncRawSend (t : TcpTask) (buffer : list Z) : go (TcpTask * bool) :=
  send_pieces t (fun b => Append b buffer).

Definition AsyncSend (t : TcpTask) (buffer : list Z) : go (TcpTask * bool) :=
  let bsize := zlen buffer in
  send_pieces t (fun b =>
    let! b := Append b [u8 bsize; u8 (Z.shiftr bsize 8); u8 (Z.shiftr bsize 16);
                        u8 (Z.shiftr bsize 24)] in
    Append b buffer).

Definition AsyncSendWithHead (t : TcpTask) (head buffer : list Z) : go (TcpTask * bool) :=
  let bsize := zlen buffer + zlen head + cmd_header_size in
  send_pieces t (fun b =>
    let! b := Append b [u8 bsize; u8 (Z.shiftr bsize 8); u8 (Z.shiftr bsize 16);
                        u8 (Z.shiftr bsize 24)] in
    let! b := Append b head in
    Append b buffer).

(** ** The receive loop *)

Definition readAtLeast (conn : list (list Z)) (buff : ByteBuffer) (neednum : Z)
    : go (list (list Z) * ByteBuffer * option io_err) := fill conn buff neednum.

(** One round: the loop ends, or a message is passed to [ParseMsg]. *)
Definition recv_round (conn : list (list Z)) (rb : ByteBuffer)
    : go (recv_end + (list (list Z) * ByteBuffer * list Z)) :=
  let totalsize := RdSize rb in
  let! (conn, rb, err) :=
    (if totalsize <? cmd_header_size
     then readAtLeast conn rb (cmd_header_size - totalsize)
     else Ret (conn, rb, None)) in
  match err with
  | Some e => Ret (inl (RecvErr e))
  | None =>
      let totalsize := RdSize rb in
      let! msgbuff := RdBuf rb in
      let! header := slice msgbuff 0 4 in
      let datasize := le_value header in
      if (datasize <=? 0) || (cmd_max_size <? datasize) then Ret (inl (RecvBadSize datasize))
      else
        let! (conn, rb, err) :=
          (if totalsize <? datasize + cmd_header_size
           then readAtLeast conn rb (datasize + cmd_header_size - totalsize)
           else Ret (conn, rb, None)) in
        match err with
        | Some e => Ret (inl (RecvErr e))
        | None =>
            let! msgbuff := RdBuf rb in
            let! msg := slice msgbuff cmd_header_size (cmd_header_size + datasize) in
            Ret (inr (conn, RdFlip rb (datasize + cmd_header_size), msg))
        end
  end.

Definition recvloop := loop recv_round.

(** ** The wire format *)

(** The header is the length; lengths from 1 to [cmd_max_size] are accepted. *)
#[refine, export] Instance tcp_framing : Framing (list Z) := {
  read_size msgbuff := let! header := slice msgbuff 0 4 in Ret (le_value header);
  read_msg msgbuff datasize := slice msgbuff cmd_header_size (cmd_header_size + datasize);
  accepts datasize := negb ((datasize <=? 0) || (cmd_max_size <? datasize));
  body_size := le_value;
  message hdr body := body
}.
Proof.
  - intros hdr rest Hh _. unfold cmd_header_size in Hh.
    rewrite slice_ok by (rewrite ?zlen_app; pose proof (zlen_nonneg rest); lia). cbn [go_bind].
    rewrite sub_app_l by lia. by rewrite <- Hh, sub_full.
  - intros hdr body rest Hh Hb. by apply slice_frame.
  - intros hdr _ Hb. by apply le_value_nonneg.
Defined.

Lemma recv_round_frame conn rb : recv_round conn rb = frame_round conn rb.
Proof.
  unfold recv_round, frame_round, readAtLeast. destruct (_ : go (_ * _ * _)) as [[[c b] e]|]; [|done].
  cbn [go_bind]. destruct e; [done|]. destruct (RdBuf b) as [mb|]; [|done]. cbn [go_bind].
  simpl. destruct (slice mb 0 4); [|done]. cbn [go_bind]. by rewrite negb_involutive.
Qed.

Lemma recvloop_frame fuel conn rb : recvloop fuel conn rb = loop frame_round fuel conn rb.
Proof. apply loop_ext, recv_round_frame. Qed.

Definition size_ok (n : Z) : Prop := 0 < n <= cmd_max_size.

(** The frame of a message. *)
Definition frame (body : list Z) : list Z := le_bytes 4 (zlen body) ++ body.

Lemma accepts_ok n : size_ok n -> accepts n = true.
Proof. unfold size_ok, accepts. simpl. intros. apply negb_true_iff, orb_false_iff. lia. Qed.

Lemma frame_framed (body : list Z) : size_ok (zlen body) -> framed body (frame body).
Proof.
  intros Hok. exists (le_bytes 4 (zlen body)), body. cbn [body_size tcp_framing message].
  rewrite le_value_bytes_small by (unfold size_ok, cmd_max_size in *; lia).
  split_and!; try done. by apply accepts_ok.
Qed.

(** C24: the receive loop is a decoder of the byte stream.  However the network
    cuts the stream into segments, [recvloop] on a new task neither panics nor
    runs forever: it delivers exactly the messages of the frames that arrived
    whole, in order, and ends when the stream does or at the first frame whose
    length is zero or above [cmd_max_size]. *)
Theorem tcp_recvloop_decodes (segs : list (list Z)) (Hbytes : Forall is_byte (concat segs)) :
  exists msgs e, recvloop (S (length (concat segs))) segs NewByteBuffer = Ret (msgs, Some e) /\
    decodes (concat segs) msgs (end_class e) /\
    forall msgs' e', decodes (concat segs) msgs' e' -> msgs' = msgs /\ e' = end_class e.
Proof. rewrite recvloop_frame. by apply loop_decodes. Qed.

Lemma tcp_recvloop_decodes_witness :
  exists msgs e, recvloop 10 [[1; 0]; [0; 0; 7; 0; 0; 0]; [0]] NewByteBuffer = Ret (msgs, Some e) /\
    decodes [1; 0; 0; 0; 7; 0; 0; 0; 0] msgs (end_class e) /\ msgs = [[7]] /\ e = RecvBadSize 0.
Proof.
  destruct (tcp_recvloop_decodes [[1; 0]; [0; 0; 7; 0; 0; 0]; [0]]) as (msgs & e & He & Hd & _).
  - refine (bool_decide_unpack _ _). by vm_compute.
  - exists msgs, e. split; [exact He|]. split; [exact Hd|]. vm_compute in He. by simplify_eq.
Defined.

(** ** What the senders put on the wire *)

Lemma header_bytes n :
  [u8 n; u8 (Z.shiftr n 8); u8 (Z.shiftr n 16); u8 (Z.shiftr n 24)] = le_bytes 4 n.
Proof. unfold le_bytes. rewrite !Z.shiftr_shiftr by lia. done. Qed.

(** A sender of an open task appends [bs] to the send queue, sets the signal
    and reports [true]; on a closed task it reports [false]. *)
Definition sends (t : TcpTask) (bs : list Z) (r : go (TcpTask * bool)) : Prop :=
  if IsClosed t then r = Ret (t, false)
  else exists b c, r = Ret (set_signal (set_sendBuff t b) c, true) /\ wf b /\
    readable b = readable (sendBuff t) ++ bs /\ wakeup c /\ items c <> [].

Lemma send_pieces_spec t app bs : wf (sendBuff t) -> wakeup (signal t) ->
  (exists b, app (sendBuff t) = Ret b /\ wf b /\ readable b = readable (sendBuff t) ++ bs) ->
  sends t bs (send_pieces t app).
Proof.
  intros Hwf Hsig (b & Happ & Hwfb & Hr). unfold sends, send_pieces.
  destruct (IsClosed t); [done|]. rewrite Happ. cbn [go_bind]. unfold Signal. simpl.
  destruct (wakeup_try_send (signal t) tt Hsig) as (c & ok & -> & Hw & Hi). cbn [go_bind].
  by exists b, c.
Qed.

(** The pieces of every sender are a program over the buffer. *)
Lemma sends_ops t app os bs : wf (sendBuff t) -> wakeup (signal t) ->
  (forall b, app b = run_ops b os) -> queue_ops [] os = bs ->
  (forall q, queue_ops q os = q ++ queue_ops [] os) ->
  sends t bs (send_pieces t app).
Proof.
  intros Hwf Hsig Happ <- Hq. apply send_pieces_spec; [done|done|]. rewrite Happ.
  destruct (run_ops_spec os (sendBuff t) Hwf) as (b & ? & ? & Hr). exists b. by rewrite Hr, Hq.
Qed.

Lemma go_bind_ret {A} (c : go A) : go_bind c Ret = c.
Proof. by destruct c. Qed.

Ltac solve_sends ops :=
  eapply (sends_ops _ _ ops); [done|done| | |];
  [ intros b; cbn [run_ops run_op]; rewrite <- ?header_bytes; cbn [app]; repeat (match goal with |- go_bind ?c _ = go_bind ?c _ => destruct c; [|done]; cbn [go_bind] end);
    by rewrite ?go_bind_ret
  | unfold frame, queue_ops; cbn [fold_left queue_op app];
    rewrite ?zlen_cons, ?zlen_app, ?zlen_le_bytes, <- ?app_assoc; cbn [app];
    first [done | f_equal; f_equal; lia]
  | intros q; unfold queue_ops; simpl; rewrite <- ?app_assoc; done ].

(** What each sender of a task puts on the wire.  On a closed task it
    returns [false] and changes nothing; otherwise it appends its bytes to the
    send queue as one piece, leaves the wake-up signal set and returns [true].
    The bytes of [AsyncSend], [RouteRpcBuffToService] and
    [SendInnerMsgToClient] are the frame of the message they document. *)
Theorem tcp_send_wire (t : TcpTask) (buffer : list Z) (flag mainCmd subCmd rpcId innerId uid : Z)
    (Hwf : wf (sendBuff t)) (Hsig : wakeup (signal t)) :
  sends t buffer (AsyncRawSend t buffer) /\
  sends t (frame buffer) (AsyncSend t buffer) /\
  sends t (frame (flag :: le_bytes 8 innerId ++ le_bytes 8 (u64 uid) ++ buffer))
    (RouteRpcBuffToService t flag innerId uid buffer) /\
  sends t (frame (flag :: mainCmd :: le_bytes 2 subCmd ++ le_bytes 4 rpcId ++ buffer))
    (SendInnerMsgToClient t flag mainCmd subCmd rpcId buffer).
Proof.
  split_and!.
  - solve_sends [OpAppend buffer].
  - solve_sends [OpAppend (le_bytes 4 (zlen buffer)); OpAppend buffer].
  - solve_sends [OpAppend (le_bytes 4 (zlen buffer + 8 + 8 + 1) ++ [flag]); OpUint64 innerId;
                 OpUint64 (u64 uid); OpAppend buffer].
  - solve_sends [OpAppend (le_bytes 4 (zlen buffer + 8) ++ [flag; mainCmd]); OpUint16 subCmd;
                 OpUint32 rpcId; OpAppend buffer].
Qed.

(** Any started task with an open signal channel, for the witnesses. *)
Definition open_task : TcpTask := Start (NewTcpTask 0).

Lemma tcp_send_wire_witness :
  sends open_task [7; 8] (AsyncRawSend open_task [7; 8]) /\
  sends open_task (frame [7; 8]) (AsyncSend open_task [7; 8]) /\
  sends open_task (frame (1 :: le_bytes 8 2 ++ le_bytes 8 (u64 (-1)) ++ [7; 8]))
    (RouteRpcBuffToService open_task 1 2 (-1) [7; 8]) /\
  sends open_task (frame (1 :: 2 :: le_bytes 2 3 ++ le_bytes 4 4 ++ [7; 8]))
    (SendInnerMsgToClient open_task 1 2 3 4 [7; 8]).
Proof.
  apply (tcp_send_wire open_task [7; 8] 1 2 3 4 2 (-1)); [|done].
  vm_compute. repeat split; congruence.
Defined.

(** ** End to end *)

Fixpoint send_all (t : TcpTask) (bodies : list (list Z)) : go TcpTask :=
  match bodies with
  | [] => Ret t
  | b :: bodies => let! (t, _) := AsyncSend t b in send_all t bodies
  end.

Lemma AsyncSend_sends t buffer : wf (sendBuff t) -> wakeup (signal t) ->
  sends t (frame buffer) (AsyncSend t buffer).
Proof. intros. solve_sends [OpAppend (le_bytes 4 (zlen buffer)); OpAppend buffer]. Qed.

Lemma send_all_spec bodies : forall t, wf (sendBuff t) -> wakeup (signal t) -> closed t = 0 ->
  exists t', send_all t bodies = Ret t' /\
    readable (sendBuff t') = readable (sendBuff t) ++ concat (frame <$> bodies).
Proof.
  induction bodies as [|b bodies IH]; intros t Hwf Hs Hc; cbn [send_all].
  - exists t. by rewrite fmap_nil, app_nil_r.
  - pose proof (AsyncSend_sends t b Hwf Hs) as Hsend. unfold sends, IsClosed in Hsend.
    rewrite Hc in Hsend. destruct Hsend as (b1 & c1 & -> & Hwf1 & Hr1 & Hs1 & _). cbn [go_bind].
    destruct (IH (set_signal (set_sendBuff t b1) c1) Hwf1 Hs1 Hc) as (t2 & -> & Hr2).
    exists t2. split; [done|]. rewrite Hr2, fmap_cons. cbn [concat sendBuff set_signal set_sendBuff].
    by rewrite Hr1, app_assoc.
Qed.

(** C7: end to end, messages survive the wire.  The bytes a started task queues
    for any sequence of [AsyncSend] calls with bodies of 1 to [cmd_max_size]
    bytes, delivered to a peer in any segmentation, make the peer's
    [recvloop] call [ParseMsg] with exactly those bodies in that order. *)
Theorem tcp_roundtrip (bodies : list (list Z))
    (Hok : Forall (fun b : list Z => size_ok (zlen b) /\ Forall is_byte b) bodies) :
  exists t, send_all (Start (NewTcpTask 0)) bodies = Ret t /\
    forall segs, concat segs = readable (sendBuff t) ->
      exists e, recvloop (S (length (concat segs))) segs NewByteBuffer = Ret (bodies, Some (RecvErr e)).
Proof.
  destruct wf_new as [Hwf Hr].
  destruct (send_all_spec bodies (Start (NewTcpTask 0)) Hwf) as (t & Ht & Hq); [done..|].
  exists t. split; [done|]. intros segs Hwire. rewrite recvloop_frame.
  change (sendBuff (Start (NewTcpTask 0))) with NewByteBuffer in Hq. rewrite Hr, app_nil_l in Hq.
  apply (loop_framed bodies (frame <$> bodies)); [|congruence|].
  - apply Forall2_fmap_r, Forall_Forall2_diag, (Forall_impl _ _ _ Hok).
    intros b [Hb _]. by apply frame_framed.
  - rewrite Hwire, Hq. apply Forall_concat, Forall_fmap, (Forall_impl _ _ _ Hok).
    intros b [_ Hb]. apply Forall_app. split; [apply le_bytes_is_byte|done].
Qed.

Lemma tcp_roundtrip_witness :
  exists e, recvloop 16 [[5; 0; 0]; [0; 104; 101; 108; 108; 111; 2]; [0; 0; 0]; [111; 107]] NewByteBuffer
    = Ret ([str "hello"; str "ok"], Some (RecvErr e)).
Proof.
  destruct (tcp_roundtrip [str "hello"; str "ok"]) as (t & Ht & H).
  - refine (bool_decide_unpack _ _). by vm_compute.
  - vm_compute in Ht. injection Ht as <-.
    apply (H [[5; 0; 0]; [0; 104; 101; 108; 108; 111; 2]; [0; 0; 0]; [111; 107]]). reflexivity.
Defined.

Lemma AsyncSendWithHead_sends t head buffer : wf (sendBuff t) -> wakeup (signal t) ->
  sends t (le_bytes 4 (zlen buffer + zlen head + 4) ++ head ++ buffer) (AsyncSendWithHead t head buffer).
Proof.
  intros. unfold AsyncSendWithHead, cmd_header_size.
  solve_sends [OpAppend (le_bytes 4 (zlen buffer + zlen head + 4)); OpAppend head; OpAppend buffer].
Qed.

(** [AsyncSendWithHead] writes a length that also counts the 4 header
    bytes, while [recvloop] counts only what follows the header.  The message
    is therefore not delivered until 4 bytes of the next frame have arrived,
    and it is delivered with these 4 bytes at its end. *)
Theorem async_send_with_head_overruns (t : TcpTask) (head buffer next rest : list Z)
    (msgs : list (list Z)) (e : stream_end)
    (Hwf : wf (sendBuff t)) (Hsig : wakeup (signal t))
    (Hok : size_ok (zlen buffer + zlen head + 4)) (Hnext : zlen next = 4) (Hrest : decodes rest msgs e) :
  let wire := le_bytes 4 (zlen buffer + zlen head + 4) ++ head ++ buffer in
  sends t wire (AsyncSendWithHead t head buffer) /\
  decodes wire [] StreamClosed /\
  decodes (wire ++ next ++ rest) ((head ++ buffer ++ next) :: msgs) e.
Proof.
  intros wire. split; [by apply AsyncSendWithHead_sends|]. subst wire.
  assert (le_value (le_bytes 4 (zlen buffer + zlen head + 4)) = zlen buffer + zlen head + 4) as Hv.
  { apply le_value_bytes_small. unfold size_ok, cmd_max_size in Hok. lia. }
  split.
  - apply dec_cut; cbn [body_size tcp_framing]; [apply zlen_le_bytes | by rewrite Hv; apply (accepts_ok _ Hok) | rewrite Hv, zlen_app; lia].
  - rewrite <- app_assoc. replace ((head ++ buffer) ++ next ++ rest) with ((head ++ buffer ++ next) ++ rest)
      by (by rewrite <- !app_assoc).
    apply (dec_msg (F := tcp_framing) (le_bytes 4 _) (head ++ buffer ++ next) rest msgs e); cbn [body_size tcp_framing];
      [apply zlen_le_bytes | by rewrite Hv; apply (accepts_ok _ Hok) | rewrite Hv, !zlen_app; lia | done].
Qed.

Lemma async_send_with_head_overruns_witness :
  let wire := le_bytes 4 (zlen [2] + zlen [1] + 4) ++ [1] ++ [2] in
  sends open_task wire (AsyncSendWithHead open_task [1] [2]) /\
  decodes wire [] StreamClosed /\
  decodes (wire ++ [9; 9; 9; 9] ++ []) (([1] ++ [2] ++ [9; 9; 9; 9]) :: []) StreamClosed.
Proof.
  apply (async_send_with_head_overruns open_task [1] [2] [9; 9; 9; 9] [] [] StreamClosed).
  - vm_compute. repeat split; congruence.
  - done.
  - vm_compute. split; congruence.
  - done.
  - by apply dec_short.
Defined.

(** ** Lifecycle *)

(** What other goroutines may call on a running task. *)
Inductive life_op : Type :=
| LClose
| LTerminate
| LStop
| LVerify
| LSend (buffer : list Z).

(** The state after a call, and whether the call panicked. *)
Definition life_step (t : TcpTask) (o : life_op) : TcpTask * bool :=
  match o with
  | LClose => Close t
  | LTerminate => Terminate t
  | LStop => match Stop t with Ret (t, _) => (t, false) | Panic => (t, true) end
  | LVerify => (Verify t, false)
  | LSend buffer => match AsyncSend t buffer with Ret (t, _) => (t, false) | Panic => (t, true) end
  end.

Fixpoint run_life (t : TcpTask) (os : list life_op) : TcpTask * bool :=
  match os with
  | [] => (t, false)
  | o :: os =>
      let (t, p) := life_step t o in
      if p then (t, true) else run_life t os
  end.

Definition is_close (o : life_op) : bool :=
  match o with LClose | LTerminate => true | _ => false end.

(** Invariant of one session: [ended] says whether it was closed. *)
Definition session (ended : bool) (t : TcpTask) : Prop :=
  wf (sendBuff t) /\ wakeup (signal t) /\ IsClosed t = ended /\ connOpen t = negb ended /\
  closeCalls t = (if ended then 1 else 0)%nat /\ chclosed (stopedChan t) = ended /\
  (closed t = 0 \/ closed t = -1).

Lemma Close_session ended t : session ended t -> exists t', Close t = (t', false) /\ session true t'.
Proof.
  intros (Hwf & Hs & Hc & Ho & Hn & Hch & [Hz|Hz]); unfold Close, IsClosed in *; rewrite Hz in *; simpl in *.
  - subst ended. unfold close_chan. rewrite Hch. eexists; split; [done|].
    unfold session, IsClosed; simpl. rewrite Hn. pose proof (Reset_spec _ Hwf) as [? _]. naive_solver.
  - subst ended. eexists; split; [done|]. unfold session, IsClosed. rewrite Hz. naive_solver.
Qed.

Lemma life_step_session ended t o : session ended t ->
  exists t', life_step t o = (t', false) /\ session (ended || is_close o) t'.
Proof.
  intros Hses. destruct o as [| | | |buffer]; simpl; rewrite ?orb_true_r, ?orb_false_r.
  - by apply Close_session with ended.
  - by apply Close_session with ended.
  - pose proof Hses as (Hwf & Hs & Hc & Ho & Hn & Hch & Hz). unfold Stop. rewrite Hc.
    destruct ended; [eauto|]. unfold try_send. rewrite Hch.
    destruct (full (stopedChan t)); cbn [go_bind]; eexists; (split; [done|]); [done|].
    unfold session, IsClosed in *; simpl. done.
  - eexists; split; [done|]. done.
  - pose proof Hses as (Hwf & Hs & Hc & Ho & Hn & Hch & Hz).
    pose proof (AsyncSend_sends t buffer Hwf Hs) as Hsend. unfold sends in Hsend. rewrite Hc in Hsend.
    destruct ended; [rewrite Hsend; eauto|]. destruct Hsend as (b & c & -> & Hwb & _ & Hw & _).
    eexists; split; [done|]. done.
Qed.

Lemma run_life_session os : forall ended t, session ended t ->
  exists t', run_life t os = (t', false) /\ session (ended || existsb is_close os) t'.
Proof.
  induction os as [|o os IH]; intros ended t Hs; simpl.
  - exists t. by rewrite orb_false_r.
  - destruct (life_step_session ended t o Hs) as (t1 & -> & Hs1).
    destruct (IH _ t1 Hs1) as (t2 & -> & Hs2). exists t2. by rewrite orb_assoc.
Qed.

(** A session closes once.  Whatever calls of [Close], [Terminate], [Stop],
    [Verify] and [AsyncSend] the goroutines make on a started task and in
    whatever order, none panics; when one of them closes the task the
    connection is closed, [OnClose] is called exactly once, and later closes
    do nothing. *)
Theorem tcp_session_closes_once (now : Z) (os : list life_op) :
  exists t, run_life (Start (NewTcpTask now)) os = (t, false) /\
    IsClosed t = existsb is_close os /\ connOpen t = negb (existsb is_close os) /\
    closeCalls t = (if existsb is_close os then 1 else 0)%nat.
Proof.
  destruct (run_life_session os false (Start (NewTcpTask now))) as (t & Hrun & Hs).
  - destruct wf_new. unfold session, wakeup, IsClosed; simpl. split_and!; try done. by left.
  - exists t. destruct Hs as (_ & _ & ? & ? & ? & _). done.
Qed.

(** A task cannot be used for a second session, although [Close] puts
    [closed] back to -1 and [Start] accepts the task again: [stopedChan] stays
    closed, so the next [Close] panics when it closes it again, after closing
    the connection and without calling [OnClose]. *)
Theorem tcp_restart_panics (t : TcpTask) (Hopen : session false t) :
  exists t1, Close t = (t1, false) /\ closed (Start t1) = 0 /\
    snd (Close (Start t1)) = true /\ closeCalls (fst (Close (Start t1))) = closeCalls t1.
Proof.
  destruct (Close_session false t Hopen) as (t1 & Hc & (_ & _ & Hcl & _ & _ & Hch & Hz)).
  exists t1. split; [done|]. unfold IsClosed in Hcl. destruct Hz as [Hz|Hz]; rewrite Hz in Hcl; [done|].
  unfold Start. rewrite Hz. simpl. split; [done|]. unfold Close, close_chan. simpl. by rewrite Hch.
Qed.

Lemma tcp_restart_panics_witness :
  exists t1, Close open_task = (t1, false) /\ closed (Start t1) = 0 /\
    snd (Close (Start t1)) = true /\ closeCalls (fst (Close (Start t1))) = closeCalls t1.
Proof.
  apply (tcp_restart_panics open_task). unfold session, wf, wakeup. split_and!; vm_compute; first [reflexivity | discriminate | by left].
Defined.
