(* ===== verification/Sendloop.v ===== *)
(** * The send loop of gonet/tcptask.go and gonet/tcpbuftask.go

    The senders append to [sendBuff] under a mutex and then set the capacity
    one [signal] channel; the send loop waits for the signal, moves the queued
    bytes to its own [tmpByte] buffer and writes that to the connection until
    both are empty; a [Close] from another goroutine closes the connection and
    resets [sendBuff].  The atomic actions of these goroutines interleave in
    the relation [step].  The theorems say that the connection receives the
    appended bytes in order, that no wake-up is lost, and that the loop can
    always finish. *)

From S2P Require Import Prelude Bytebuffer.

(** Where the send loop is: waiting in the [select], at the top of the inner
    loop, about to write, or returned. *)
Inductive loop_pc : Type := Waiting | Draining | Writing | Returned.

(** [pending] counts the senders between their append and their [Signal];
    [written] is what the connection accepted; [history] is every byte
    appended so far, which only the specification uses. *)
Record tx := mkTx {
  sendBuff : ByteBuffer;
  tmpByte : ByteBuffer;
  signal : bool;
  pc : loop_pc;
  pending : nat;
  connOpen : bool;
  written : list Z;
  history : list Z
}.

Definition tx_init : tx :=
  {| sendBuff := NewByteBuffer; tmpByte := NewByteBuffer; signal := false; pc := Waiting;
     pending := 0; connOpen := true; written := []; history := [] |}.

(** The critical section of the loop:
    [if this.sendBuff.RdReady() { tmpByte.Append(...); this.sendBuff.Reset() }]. *)
Definition take_queued (send tmp : ByteBuffer) : go (ByteBuffer * ByteBuffer) :=
  if RdReady send then
    let! rd := RdBuf send in
    let! queued := slice rd 0 (RdSize send) in
    let! tmp := Append tmp queued in
    Ret (Reset send, tmp)
  else Ret (send, tmp).

Inductive step : tx -> tx -> Prop :=
| step_append s bs b :
    (** a sender, under the mutex *)
    Append (sendBuff s) bs = Ret b ->
    step s {| sendBuff := b; tmpByte := tmpByte s; signal := signal s; pc := pc s;
              pending := S (pending s); connOpen := connOpen s; written := written s;
              history := history s ++ bs |}
| step_signal s n :
    (** the sender's [Signal] *)
    pending s = S n ->
    step s {| sendBuff := sendBuff s; tmpByte := tmpByte s; signal := true; pc := pc s;
              pending := n; connOpen := connOpen s; written := written s; history := history s |}
| step_wake s :
    pc s = Waiting -> signal s = true ->
    step s {| sendBuff := sendBuff s; tmpByte := tmpByte s; signal := false; pc := Draining;
              pending := pending s; connOpen := connOpen s; written := written s; history := history s |}
| step_take s b t :
    pc s = Draining -> take_queued (sendBuff s) (tmpByte s) = Ret (b, t) ->
    step s {| sendBuff := b; tmpByte := t; signal := signal s;
              pc := if RdReady t then Writing else Waiting;
              pending := pending s; connOpen := connOpen s; written := written s; history := history s |}
| step_write s rd out writenum :
    (** [Conn.Write] accepts the first [writenum] of the bytes it is given *)
    pc s = Writing -> connOpen s = true ->
    RdBuf (tmpByte s) = Ret rd -> slice rd 0 (RdSize (tmpByte s)) = Ret out ->
    0 <= writenum <= zlen out ->
    step s {| sendBuff := sendBuff s; tmpByte := RdFlip (tmpByte s) writenum; signal := signal s;
              pc := Draining; pending := pending s; connOpen := connOpen s;
              written := written s ++ take (Z.to_nat writenum) out; history := history s |}
| step_write_error s rd out writenum :
    (** [Conn.Write] fails after it has taken [writenum] bytes: the loop returns
        without moving its reader *)
    pc s = Writing -> RdBuf (tmpByte s) = Ret rd -> slice rd 0 (RdSize (tmpByte s)) = Ret out ->
    0 <= writenum <= zlen out -> connOpen s = true \/ writenum = 0 ->
    step s {| sendBuff := sendBuff s; tmpByte := tmpByte s; signal := signal s; pc := Returned;
              pending := pending s; connOpen := connOpen s;
              written := written s ++ take (Z.to_nat writenum) out; history := history s |}
| step_stop s :
    (** a token in [stopedChan], or the verification timeout *)
    pc s = Waiting ->
    step s {| sendBuff := sendBuff s; tmpByte := tmpByte s; signal := signal s; pc := Returned;
              pending := pending s; connOpen := connOpen s; written := written s; history := history s |}
| step_close s :
    (** [Close]: [Conn.Close()] *)
    step s {| sendBuff := sendBuff s; tmpByte := tmpByte s; signal := signal s; pc := pc s;
              pending := pending s; connOpen := false; written := written s; history := history s |}
| step_reset s :
    (** [Close], later: [sendBuff.Reset()] *)
    connOpen s = false ->
    step s {| sendBuff := Reset (sendBuff s); tmpByte := tmpByte s; signal := signal s; pc := pc s;
              pending := pending s; connOpen := false; written := written s; history := history s |}.

Inductive steps : tx -> tx -> Prop :=
| steps_refl s : steps s s
| steps_step s1 s2 s3 : step s1 s2 -> steps s2 s3 -> steps s1 s3.

Definition reachable (s : tx) : Prop := steps tx_init s.

(** ** Invariant *)

Record inv (s : tx) : Prop := mkInv {
  inv_send : wf (sendBuff s);
  inv_tmp : wf (tmpByte s);
  inv_prefix : exists rest, history s = written s ++ rest;
  inv_stream : connOpen s = true -> pc s <> Returned ->
    history s = written s ++ readable (tmpByte s) ++ readable (sendBuff s);
  inv_left : connOpen s = true ->
    exists n, history s = written s ++ drop n (readable (tmpByte s)) ++ readable (sendBuff s);
  inv_wait : pc s = Waiting -> readable (tmpByte s) = [];
  inv_wake : pc s = Waiting -> signal s = false -> pending s = 0%nat -> readable (sendBuff s) = []
}.

Lemma read_all b : wf b ->
  exists rd, RdBuf b = Ret rd /\ slice rd 0 (RdSize b) = Ret (readable b).
Proof.
  intros Hwf. destruct (RdBuf_spec b Hwf) as (rest & -> & _). eexists; split; [done|].
  rewrite (RdSize_readable b Hwf). pose proof (zlen_nonneg (readable b)).
  rewrite slice_ok, sub_app_l, sub_full; rewrite ?zlen_app; try done; try lia.
  pose proof (zlen_nonneg rest). lia.
Qed.

Lemma take_queued_spec send tmp : wf send -> wf tmp ->
  exists b t, take_queued send tmp = Ret (b, t) /\ wf b /\ wf t /\ readable b = [] /\
    readable t = readable tmp ++ readable send.
Proof.
  intros Hs Ht. unfold take_queued. pose proof (RdReady_readable send Hs) as Hrdy.
  destruct (RdReady send).
  - destruct (read_all send Hs) as (rd & -> & E). cbn [go_bind]. rewrite E. cbn [go_bind].
    destruct (Append_spec tmp (readable send) Ht) as (t & -> & ? & ?). cbn [go_bind].
    destruct (Reset_spec send Hs). eauto 10.
  - destruct (readable send) eqn:E; [|by discriminate (proj2 Hrdy)].
    exists send, tmp. by rewrite app_nil_r.
Qed.

Lemma inv_init : inv tx_init.
Proof.
  destruct wf_new as [Hwf Hr]. split; simpl; first [done | by exists [] | by intros; exists 0%nat].
Qed.

Lemma inv_step s s' : inv s -> step s s' -> inv s'.
Proof.
  intros [Hsend Htmp [rest Hpre] Hstr Hleft Hwait Hwake] Hstep.
  destruct Hstep as [s bs b Happ|s n Hp|s Hpc Hsig|s b t Hpc Htake|s rd out n Hpc Hopen Hrd Hsl Hn|s rd out n Hpc Hrd Hsl Hn Hopen|s Hpc|s|s Hopen];
    try (split; simpl; eauto; done).
  - destruct (Append_spec (sendBuff s) bs Hsend) as (b' & E & Hwf & Hr). rewrite Happ in E.
    simplify_eq. split; simpl; try done.
    + exists (rest ++ bs). by rewrite Hpre, app_assoc.
    + intros Ho Hp. by rewrite Hr, (Hstr Ho Hp), !app_assoc.
    + intros Ho. destruct (Hleft Ho) as [n E']. exists n. by rewrite Hr, E', !app_assoc.
  - split; simpl; eauto; try done. intros Ho _. apply (Hstr Ho). by rewrite Hpc.
  - destruct (take_queued_spec _ _ Hsend Htmp) as (b' & t' & E & Hwb & Hwt & Hrb & Hrt).
    rewrite Htake in E. simplify_eq. split; simpl; try done; eauto.
    + intros Ho _. by rewrite (Hstr Ho ltac:(by rewrite Hpc)), Hrt, Hrb, app_nil_r.
    + intros Ho. exists 0%nat. by rewrite (Hstr Ho ltac:(by rewrite Hpc)), Hrt, Hrb, app_nil_r.
    + pose proof (RdReady_readable t' Hwt) as Hrdy. intros Hw.
      destruct (RdReady t'); [done|]. destruct (readable t'); [done|]. by discriminate (proj2 Hrdy).
  - destruct (read_all _ Htmp) as (rd' & E & E'). rewrite Hrd in E. simplify_eq.
    rewrite Hsl in E'. simplify_eq.
    destruct (RdFlip_spec (tmpByte s) n Htmp) as [Hwf Hr]; [lia|].
    assert (connOpen s = true -> history s =
      (written s ++ take (Z.to_nat n) (readable (tmpByte s))) ++
      drop (Z.to_nat n) (readable (tmpByte s)) ++ readable (sendBuff s)) as Hs'.
    { intros Ho. rewrite (Hstr Ho ltac:(by rewrite Hpc)), <- app_assoc. f_equal. by rewrite app_assoc, take_drop. }
    split; simpl; try done.
    + eexists. by apply Hs'.
    + rewrite Hr. eauto.
    + intros Ho. exists 0%nat. rewrite Hr. by apply Hs'.
  - destruct (read_all _ Htmp) as (rd' & E & E'). rewrite Hrd in E. simplify_eq. rewrite Hsl in E'. simplify_eq.
    assert (connOpen s = true -> history s = (written s ++ take (Z.to_nat n) (readable (tmpByte s))) ++
      drop (Z.to_nat n) (readable (tmpByte s)) ++ readable (sendBuff s)) as Hs'.
    { intros Ho. rewrite (Hstr Ho ltac:(by rewrite Hpc)), <- app_assoc. f_equal. by rewrite app_assoc, take_drop. }
    split; simpl; try done; [|by eauto].
    destruct Hopen as [Ho| ->]; [eexists; by apply Hs'|]. exists rest. by rewrite app_nil_r.
  - split; simpl; try done; eauto. by apply Reset_spec. intros. by apply Reset_spec.
Qed.

Lemma inv_steps s s' : steps s s' -> inv s -> inv s'.
Proof. induction 1; eauto using inv_step. Qed.

Lemma reachable_inv s : reachable s -> inv s.
Proof. intros H. apply (inv_steps _ _ H inv_init). Qed.

(** C8: in order, without loss or duplication.  In every interleaving of the
    senders, the send loop, partial writes, writes that fail after a part of
    their bytes, and a concurrent [Close], what the connection has accepted is
    a prefix of the appended bytes; as long as the connection is open and the
    loop runs, the rest of them is exactly what the two buffers hold; and when
    the loop has returned and the connection is still open, the buffers hold
    the rest behind the part of [tmpByte] that the failed write took. *)
Theorem sendloop_in_order (s : tx) (Hr : reachable s) :
  (exists rest, history s = written s ++ rest) /\
  (connOpen s = true -> pc s <> Returned -> history s = written s ++ readable (tmpByte s) ++ readable (sendBuff s)) /\
  (connOpen s = true -> exists n, history s = written s ++ drop n (readable (tmpByte s)) ++ readable (sendBuff s)).
Proof. destruct (reachable_inv s Hr). done. Qed.

(** C34: no wake-up is lost.  While the connection is open: when the send loop
    waits in its [select], no signal is pending and every sender has signalled,
    then all appended bytes have been written, although the signal channel holds only one token. *)
Theorem sendloop_no_lost_wakeup (s : tx) (Hr : reachable s) (Hopen : connOpen s = true)
    (Hpc : pc s = Waiting) (Hsig : signal s = false) (Hpend : pending s = 0%nat) :
  written s = history s.
Proof.
  destruct (reachable_inv s Hr) as [_ _ _ Hstr _ Hwait Hwake].
  rewrite (Hstr Hopen ltac:(by rewrite Hpc)), (Hwait Hpc), (Hwake Hpc Hsig Hpend). by rewrite !app_nil_r.
Qed.

(** ** Progress *)

Lemma steps_trans s1 s2 s3 : steps s1 s2 -> steps s2 s3 -> steps s1 s3.
Proof. induction 1; eauto using steps. Qed.

Lemma steps_one s1 s2 : step s1 s2 -> steps s1 s2.
Proof. eauto using steps. Qed.

(** The loop can empty its buffers from the top of the inner loop: one move,
    one full write, one empty round. *)
Lemma drain s : inv s -> pc s = Draining -> connOpen s = true ->
  exists s', steps s s' /\ pc s' = Waiting /\ signal s' = signal s /\ pending s' = pending s /\
    connOpen s' = true /\ written s' = history s /\ history s' = history s.
Proof.
  intros [Hsend Htmp _ Hstr' _ _ _] Hpc Hopen. pose proof (fun Ho => Hstr' Ho ltac:(by rewrite Hpc)) as Hstr.
  destruct (take_queued_spec _ _ Hsend Htmp) as (b & t & E & Hwb & Hwt & Hrb & Hrt).
  pose proof (step_take s b t Hpc E) as St1. pose proof (RdReady_readable t Hwt) as Hrdy.
  destruct (RdReady t) eqn:Ht.
  2: { eexists; split; [exact (steps_one _ _ St1)|]. simpl. repeat split; try done.
       rewrite (Hstr Hopen), <- Hrt. destruct (readable t); [by rewrite app_nil_r|].
       by discriminate (proj2 Hrdy). }
  destruct (read_all t Hwt) as (rd & Hrd & Hsl). set (out := readable t) in *.
  set (s1 := mkTx _ _ _ _ _ _ _ _) in St1.
  pose proof (step_write s1 rd out (zlen out) eq_refl Hopen Hrd Hsl) as St2.
  pose proof (zlen_nonneg out). specialize (St2 ltac:(lia)). set (s2 := mkTx _ _ _ _ _ _ _ _) in St2.
  destruct (RdFlip_spec t (zlen out) Hwt) as [Hwt2 Hrt2]; [lia|].
  assert (readable (RdFlip t (zlen out)) = []) as Hnil.
  { rewrite Hrt2. apply drop_ge. unfold zlen, out. lia. }
  assert (RdReady (RdFlip t (zlen out)) = false) as Hnr.
  { apply not_true_is_false. rewrite (RdReady_readable _ Hwt2), Hnil. auto. }
  assert (take_queued (sendBuff s2) (tmpByte s2) = Ret (b, RdFlip t (zlen out))) as E2.
  { simpl. unfold take_queued. pose proof (RdReady_readable b Hwb) as Hb. rewrite Hrb in Hb.
    destruct (RdReady b); [by destruct (proj1 Hb)|done]. }
  pose proof (step_take s2 b (RdFlip t (zlen out)) eq_refl E2) as St3. rewrite Hnr in St3.
  eexists; split; [by eapply steps_step, steps_step, steps_one|]. simpl.
  repeat split; try done. rewrite (Hstr Hopen), <- Hrt. f_equal. apply take_ge. unfold zlen, out. lia.
Qed.

(** A state from which the loop can write out everything appended so far. *)
Definition can_finish (s : tx) : Prop :=
  exists s', steps s s' /\ pc s' = Waiting /\ written s' = history s /\ history s' = history s.

Lemma can_finish_draining s : inv s -> pc s = Draining -> connOpen s = true -> can_finish s.
Proof.
  intros Hi Hpc Ho. destruct (drain s Hi Hpc Ho) as (s' & ? & ? & _ & _ & _ & ? & ?). by exists s'.
Qed.

Lemma can_finish_step s s' : step s s' -> history s' = history s -> can_finish s' -> can_finish s.
Proof.
  intros Hs Hh (s2 & H2 & Hp & Hw & Hh2). exists s2. rewrite Hh in *. eauto using steps.
Qed.

Lemma can_finish_writing s : inv s -> pc s = Writing -> connOpen s = true -> can_finish s.
Proof.
  intros Hi Hpc Ho. pose proof Hi as [_ Htmp _ _ _ _ _].
  destruct (read_all _ Htmp) as (rd & Hrd & Hsl).
  pose proof (zlen_nonneg (readable (tmpByte s))).
  pose proof (step_write s rd _ 0 Hpc Ho Hrd Hsl ltac:(lia)) as St.
  apply (can_finish_step _ _ St eq_refl). apply can_finish_draining; [|done|done].
  by apply inv_step with s.
Qed.

Lemma can_finish_woken s : inv s -> pc s = Waiting -> connOpen s = true -> signal s = true -> can_finish s.
Proof.
  intros Hi Hpc Ho Hsig. pose proof (step_wake s Hpc Hsig) as St.
  apply (can_finish_step _ _ St eq_refl). apply can_finish_draining; [|done|done].
  by apply inv_step with s.
Qed.

(** The send loop can always finish.  In every reachable state in which the
    loop has not returned and the connection is open, some continuation of the
    senders' pending signals and the loop's own steps, without a panic,
    writes out every byte appended so far. *)
Theorem sendloop_can_finish (s : tx) (Hr : reachable s) (Hopen : connOpen s = true)
    (Hpc : pc s <> Returned) : can_finish s.
Proof.
  pose proof (reachable_inv s Hr) as Hi. destruct (pc s) eqn:Epc; [| | |done].
  - destruct (signal s) eqn:Esig; [by apply can_finish_woken|].
    destruct (pending s) as [|n] eqn:Ep.
    + destruct Hi as [_ _ _ Hstr _ Hwait Hwake]. exists s. split; [constructor|].
      rewrite (Hstr Hopen ltac:(by rewrite Epc)), (Hwait Epc), (Hwake Epc Esig Ep), !app_nil_r. done.
    + pose proof (step_signal s n Ep) as St. apply (can_finish_step _ _ St eq_refl).
      by apply can_finish_woken; [apply inv_step with s|..].
  - by apply can_finish_draining.
  - by apply can_finish_writing.
Qed.

(** ** Executable runs *)

Inductive action : Type :=
| AAppend (bs : list Z)
| ASignal
| AWake
| ATake
| AWrite (writenum : Z).

Definition exec (s : tx) (a : action) : go tx :=
  match a with
  | AAppend bs =>
      let! b := Append (sendBuff s) bs in
      Ret {| sendBuff := b; tmpByte := tmpByte s; signal := signal s; pc := pc s;
             pending := S (pending s); connOpen := connOpen s; written := written s;
             history := history s ++ bs |}
  | ASignal =>
      match pending s with
      | O => Panic
      | S n => Ret {| sendBuff := sendBuff s; tmpByte := tmpByte s; signal := true; pc := pc s;
                      pending := n; connOpen := connOpen s; written := written s;
                      history := history s |}
      end
  | AWake =>
      match pc s, signal s with
      | Waiting, true =>
          Ret {| sendBuff := sendBuff s; tmpByte := tmpByte s; signal := false; pc := Draining;
                 pending := pending s; connOpen := connOpen s; written := written s;
                 history := history s |}
      | _, _ => Panic
      end
  | ATake =>
      match pc s with
      | Draining =>
          let! (b, t) := take_queued (sendBuff s) (tmpByte s) in
          Ret {| sendBuff := b; tmpByte := t; signal := signal s;
                 pc := if RdReady t then Writing else Waiting; pending := pending s;
                 connOpen := connOpen s; written := written s; history := history s |}
      | _ => Panic
      end
  | AWrite writenum =>
      match pc s, connOpen s with
      | Writing, true =>
          let! rd := RdBuf (tmpByte s) in
          let! out := slice rd 0 (RdSize (tmpByte s)) in
          if decide (0 <= writenum <= zlen out) then
            Ret {| sendBuff := sendBuff s; tmpByte := RdFlip (tmpByte s) writenum;
                   signal := signal s; pc := Draining; pending := pending s;
                   connOpen := connOpen s; written := written s ++ take (Z.to_nat writenum) out;
                   history := history s |}
          else Panic
      | _, _ => Panic
      end
  end.

Fixpoint exec_all (s : tx) (acts : list action) : go tx :=
  match acts with
  | [] => Ret s
  | a :: acts => let! s := exec s a in exec_all s acts
  end.

Lemma exec_step s a s' : exec s a = Ret s' -> step s s'.
Proof.
  destruct a as [bs| | | |n]; simpl.
  - destruct (Append (sendBuff s) bs) eqn:E; [|done]. intros; simplify_eq/=. by apply step_append.
  - destruct (pending s) eqn:E; [done|]. intros; simplify_eq/=. by apply step_signal.
  - destruct (pc s) eqn:E, (signal s) eqn:E'; try done. intros; simplify_eq/=. by apply step_wake.
  - destruct (pc s) eqn:E; try done. destruct (take_queued _ _) as [[b t]|] eqn:Et; [|done].
    intros; simplify_eq/=. by apply step_take.
  - destruct (pc s) eqn:E, (connOpen s) eqn:E'; try done.
    destruct (RdBuf _) as [rd|] eqn:Er; [|done]. simpl.
    destruct (slice _ _ _) as [out|] eqn:Es; [|done]. simpl. case_decide; [|done].
    intros; simplify_eq/=. pose proof (step_write s rd out n E E' Er Es ltac:(done)) as St.
    by rewrite E' in St.
Qed.

Lemma exec_all_steps acts : forall s s', exec_all s acts = Ret s' -> steps s s'.
Proof.
  induction acts as [|a acts IH]; intros s s'; simpl; [intros; simplify_eq; constructor|].
  destruct (exec s a) as [s1|] eqn:E; [|done]. simpl. eauto using steps, exec_step.
Qed.

(** A run in which the second sender appends while the loop is about to write
    and the connection accepts only part of the bytes, and its end. *)
Definition busy_run : list action :=
  [AAppend [1; 2; 3]; ASignal; AWake; ATake; AAppend [4; 5]; AWrite 2].

Definition finished_run : list action :=
  busy_run ++ [ATake; AWrite 3; ATake; ASignal; AWake; ATake].

Definition final (r : go tx) : tx := match r with Ret s => s | Panic => tx_init end.

Lemma sendloop_in_order_witness :
  let s := final (exec_all tx_init busy_run) in
  written s = [1; 2] /\ history s = written s ++ readable (tmpByte s) ++ readable (sendBuff s).
Proof.
  intros s. split; [vm_compute; reflexivity|].
  apply (sendloop_in_order s); [|vm_compute; reflexivity|vm_compute; congruence].
  apply (exec_all_steps busy_run). vm_compute. reflexivity.
Defined.

Lemma sendloop_no_lost_wakeup_witness :
  let s := final (exec_all tx_init finished_run) in written s = history s.
Proof.
  intros s. apply (sendloop_no_lost_wakeup s); try (vm_compute; reflexivity).
  apply (exec_all_steps finished_run). vm_compute. reflexivity.
Defined.

Lemma sendloop_can_finish_witness :
  let s := final (exec_all tx_init busy_run) in can_finish s.
Proof.
  intros s. apply (sendloop_can_finish s); try (vm_compute; congruence).
  apply (exec_all_steps busy_run). vm_compute. reflexivity.
Defined.
