(* ===== verification/Tcpbuftask.v ===== *)
(** * gonet/tcpbuftask.go: the TCP task with flagged frames

    A frame is a 3-byte little-endian length, a flag byte and the body.  The
    file models the task's state, every operation, the receive loop and the
    exits of the two send loops.  [sendloop] itself has the body of the one of
    tcptask.go and is modelled in Sendloop; [poolsendloop] is modelled in
    Poolsend. *)

From S2P Require Import Prelude Chan Bytebuffer Netio Framing.

Definition interrupt_chan_len : nat := 10.
Definition immediat_chan_len : nat := 24.

(** Pointers to a send buffer are numbers, [nil] is [None]. *)
Record SendBuffInfo := mkSendBuffInfo {
  info_sendBuff : option nat;
  info_buffLen : Z;
  info_startIdx : Z;
  info_preSendBuff : list Z
}.

(** [connOpen] is the state of [Conn]; [running] lists the [PoolSend] argument
    of every started pair of loops and [closeCalls] counts the calls of
    [Derived.OnClose].  The receive buffer belongs to [recvloop]
    and the stream indices to [poolsendloop]. *)
Record TcpBufTask := mkTcpBufTask {
  closed : Z;
  stopped : Z;
  stoppedBuff : Z;
  verified : bool;
  stopedChan : chan bool;
  stopedBuffChan : chan bool;
  sendBuff : ByteBuffer;
  signal : chan Z;
  newBuffSignal : chan Z;
  interruptBuffChan : chan (list Z);
  immediatBuffChan : chan (list Z);
  initSendBuff : chan SendBuffInfo;
  sendBuffPtr : option nat;
  interruptBuff : option ByteBuffer;
  connOpen : bool;
  running : list bool;
  closeCalls : nat
}.

Definition set_closed (t : TcpBufTask) (x : Z) : TcpBufTask :=
  mkTcpBufTask x (stopped t) (stoppedBuff t) (verified t) (stopedChan t) (stopedBuffChan t)
    (sendBuff t) (signal t) (newBuffSignal t) (interruptBuffChan t) (immediatBuffChan t)
    (initSendBuff t) (sendBuffPtr t) (interruptBuff t) (connOpen t) (running t) (closeCalls t).
Definition set_stopped (t : TcpBufTask) (x : Z) : TcpBufTask :=
  mkTcpBufTask (closed t) x (stoppedBuff t) (verified t) (stopedChan t) (stopedBuffChan t)
    (sendBuff t) (signal t) (newBuffSignal t) (interruptBuffChan t) (immediatBuffChan t)
    (initSendBuff t) (sendBuffPtr t) (interruptBuff t) (connOpen t) (running t) (closeCalls t).
Definition set_stoppedBuff (t : TcpBufTask) (x : Z) : TcpBufTask :=
  mkTcpBufTask (closed t) (stopped t) x (verified t) (stopedChan t) (stopedBuffChan t)
    (sendBuff t) (signal t) (newBuffSignal t) (interruptBuffChan t) (immediatBuffChan t)
    (initSendBuff t) (sendBuffPtr t) (interruptBuff t) (connOpen t) (running t) (closeCalls t).
Definition set_verified (t : TcpBufTask) (x : bool) : TcpBufTask :=
  mkTcpBufTask (closed t) (stopped t) (stoppedBuff t) x (stopedChan t) (stopedBuffChan t)
    (sendBuff t) (signal t) (newBuffSignal t) (interruptBuffChan t) (immediatBuffChan t)
    (initSendBuff t) (sendBuffPtr t) (interruptBuff t) (connOpen t) (running t) (closeCalls t).
Definition set_stopedChan (t : TcpBufTask) (x : chan bool) : TcpBufTask :=
  mkTcpBufTask (closed t) (stopped t) (stoppedBuff t) (verified t) x (stopedBuffChan t)
    (sendBuff t) (signal t) (newBuffSignal t) (interruptBuffChan t) (immediatBuffChan t)
    (initSendBuff t) (sendBuffPtr t) (interruptBuff t) (connOpen t) (running t) (closeCalls t).
Definition set_stopedBuffChan (t : TcpBufTask) (x : chan bool) : TcpBufTask :=
  mkTcpBufTask (closed t) (stopped t) (stoppedBuff t) (verified t) (stopedChan t) x (sendBuff t)
    (signal t) (newBuffSignal t) (interruptBuffChan t) (immediatBuffChan t) (initSendBuff t)
    (sendBuffPtr t) (interruptBuff t) (connOpen t) (running t) (closeCalls t).
Definition set_sendBuff (t : TcpBufTask) (x : ByteBuffer) : TcpBufTask :=
  mkTcpBufTask (closed t) (stopped t) (stoppedBuff t) (verified t) (stopedChan t)
    (stopedBuffChan t) x (signal t) (newBuffSignal t) (interruptBuffChan t) (immediatBuffChan t)
    (initSendBuff t) (sendBuffPtr t) (interruptBuff t) (connOpen t) (running t) (closeCalls t).
Definition set_signal (t : TcpBufTask) (x : chan Z) : TcpBufTask :=
  mkTcpBufTask (closed t) (stopped t) (stoppedBuff t) (verified t) (stopedChan t)
    (stopedBuffChan t) (sendBuff t) x (newBuffSignal t) (interruptBuffChan t) (immediatBuffChan t)
    (initSendBuff t) (sendBuffPtr t) (interruptBuff t) (connOpen t) (running t) (closeCalls t).
Definition set_newBuffSignal (t : TcpBufTask) (x : chan Z) : TcpBufTask :=
  mkTcpBufTask (closed t) (stopped t) (stoppedBuff t) (verified t) (stopedChan t)
    (stopedBuffChan t) (sendBuff t) (signal t) x (interruptBuffChan t) (immediatBuffChan t)
    (initSendBuff t) (sendBuffPtr t) (interruptBuff t) (connOpen t) (running t) (closeCalls t).
Definition set_interruptBuffChan (t : TcpBufTask) (x : chan (list Z)) : TcpBufTask :=
  mkTcpBufTask (closed t) (stopped t) (stoppedBuff t) (verified t) (stopedChan t)
    (stopedBuffChan t) (sendBuff t) (signal t) (newBuffSignal t) x (immediatBuffChan t)
    (initSendBuff t) (sendBuffPtr t) (interruptBuff t) (connOpen t) (running t) (closeCalls t).
Definition set_immediatBuffChan (t : TcpBufTask) (x : chan (list Z)) : TcpBufTask :=
  mkTcpBufTask (closed t) (stopped t) (stoppedBuff t) (verified t) (stopedChan t)
    (stopedBuffChan t) (sendBuff t) (signal t) (newBuffSignal t) (interruptBuffChan t) x
    (initSendBuff t) (sendBuffPtr t) (interruptBuff t) (connOpen t) (running t) (closeCalls t).
Definition set_initSendBuff (t : TcpBufTask) (x : chan SendBuffInfo) : TcpBufTask :=
  mkTcpBufTask (closed t) (stopped t) (stoppedBuff t) (verified t) (stopedChan t)
    (stopedBuffChan t) (sendBuff t) (signal t) (newBuffSignal t) (interruptBuffChan t)
    (immediatBuffChan t) x (sendBuffPtr t) (interruptBuff t) (connOpen t) (running t)
    (closeCalls t).
Definition set_sendBuffPtr (t : TcpBufTask) (x : option nat) : TcpBufTask :=
  mkTcpBufTask (closed t) (stopped t) (stoppedBuff t) (verified t) (stopedChan t)
    (stopedBuffChan t) (sendBuff t) (signal t) (newBuffSignal t) (interruptBuffChan t)
    (immediatBuffChan t) (initSendBuff t) x (interruptBuff t) (connOpen t) (running t)
    (closeCalls t).
Definition set_interruptBuff (t : TcpBufTask) (x : option ByteBuffer) : TcpBufTask :=
  mkTcpBufTask (closed t) (stopped t) (stoppedBuff t) (verified t) (stopedChan t)
    (stopedBuffChan t) (sendBuff t) (signal t) (newBuffSignal t) (interruptBuffChan t)
    (immediatBuffChan t) (initSendBuff t) (sendBuffPtr t) x (connOpen t) (running t)
    (closeCalls t).
Definition set_connOpen (t : TcpBufTask) (x : bool) : TcpBufTask :=
  mkTcpBufTask (closed t) (stopped t) (stoppedBuff t) (verified t) (stopedChan t)
    (stopedBuffChan t) (sendBuff t) (signal t) (newBuffSignal t) (interruptBuffChan t)
    (immediatBuffChan t) (initSendBuff t) (sendBuffPtr t) (interruptBuff t) x (running t)
    (closeCalls t).
Definition set_running (t : TcpBufTask) (x : list bool) : TcpBufTask :=
  mkTcpBufTask (closed t) (stopped t) (stoppedBuff t) (verified t) (stopedChan t)
    (stopedBuffChan t) (sendBuff t) (signal t) (newBuffSignal t) (interruptBuffChan t)
    (immediatBuffChan t) (initSendBuff t) (sendBuffPtr t) (interruptBuff t) (connOpen t) x
    (closeCalls t).
Definition set_closeCalls (t : TcpBufTask) (x : nat) : TcpBufTask :=
  mkTcpBufTask (closed t) (stopped t) (stoppedBuff t) (verified t) (stopedChan t)
    (stopedBuffChan t) (sendBuff t) (signal t) (newBuffSignal t) (interruptBuffChan t)
    (immediatBuffChan t) (initSendBuff t) (sendBuffPtr t) (interruptBuff t) (connOpen t)
    (running t) x.

Definition NewTcpBufTask : TcpBufTask :=
  {| closed := -1; stopped := -1; stoppedBuff := -1; verified := false;
     stopedChan := make_chan 1; stopedBuffChan := make_chan 1;
     sendBuff := NewByteBuffer; signal := make_chan 1; newBuffSignal := make_chan 1;
     interruptBuffChan := make_chan interrupt_chan_len;
     immediatBuffChan := make_chan immediat_chan_len; initSendBuff := make_chan 1;
     sendBuffPtr := None; interruptBuff := Some NewByteBuffer; connOpen := true; running := [];
     closeCalls := 0 |}.

(** ** Flags and stop channels *)

Definition IsStoppedBuff (t : TcpBufTask) : bool := negb (stoppedBuff t =? 0).
Definition IsStopped (t : TcpBufTask) : bool := negb (stopped t =? 0).
Definition IsClosed (t : TcpBufTask) : bool := negb (closed t =? 0).
Definition Verify (t : TcpBufTask) : TcpBufTask := set_verified t true.
Definition IsVerified (t : TcpBufTask) : bool := verified t.

Definition Signal (t : TcpBufTask) : go TcpBufTask :=
  let! (c, _) := try_send (signal t) 1 in Ret (set_signal t c).

(** A panic of the send is recovered; the flag stays set. *)
Definition stopchan (t : TcpBufTask) : TcpBufTask :=
  if IsStopped t then t
  else
    let t := set_stopped t 1 in
    match try_send (stopedChan t) true with
    | Ret (c, _) => set_stopedChan t c
    | Panic => t
    end.

Definition stopbuff (t : TcpBufTask) : TcpBufTask :=
  if IsStoppedBuff t then t
  else
    let t := set_stoppedBuff t 1 in
    match try_send (stopedBuffChan t) true with
    | Ret (c, _) => set_stopedBuffChan t c
    | Panic => t
    end.

Definition Stop (t : TcpBufTask) : TcpBufTask * bool := (stopbuff (stopchan t), true).

Definition Start (t : TcpBufTask) (PoolSend : bool) : TcpBufTask :=
  if closed t =? -1 then
    set_running (set_stoppedBuff (set_stopped (set_closed t 0) 0) 0) (running t ++ [PoolSend])
  else t.

(** The two stop channels are recreated without a buffer. *)
Definition Reset (t : TcpBufTask) : TcpBufTask * bool :=
  if negb (closed t =? 1) then (t, false)
  else if negb (IsVerified t) then (t, false)
  else
    let t := set_verified (set_stoppedBuff (set_stopped (set_closed t (-1)) (-1)) (-1)) false in
    (set_stopedBuffChan (set_stopedChan t (make_chan 0)) (make_chan 0), true).

(** ** Closing *)

Section Derived.
(** [Derived.OnClose()], which may use the task it is called from. *)
Variable OnClose : TcpBufTask -> TcpBufTask.

(** The channels are closed in this order before [OnClose] is called; a panic
    is recovered and skips the rest. *)
Definition close_channels (t : TcpBufTask) : TcpBufTask :=
  match close_chan (interruptBuffChan t) with
  | Panic => t
  | Ret c =>
      let t := set_interruptBuffChan t c in
      match close_chan (immediatBuffChan t) with
      | Panic => t
      | Ret c =>
          let t := set_immediatBuffChan t c in
          match close_chan (initSendBuff t) with
          | Panic => t
          | Ret c => OnClose (set_closeCalls (set_initSendBuff t c) (S (closeCalls t)))
          end
      end
  end.

(** The stores of [Close] between [Stop] and the first [close], and
    [Conn.Close()]. *)
Definition mark_closed (t : TcpBufTask) : TcpBufTask :=
  {| closed := closed t; stopped := 1; stoppedBuff := 1; verified := verified t;
     stopedChan := stopedChan t; stopedBuffChan := stopedBuffChan t; sendBuff := sendBuff t;
     signal := signal t; newBuffSignal := newBuffSignal t;
     interruptBuffChan := interruptBuffChan t; immediatBuffChan := immediatBuffChan t;
     initSendBuff := initSendBuff t; sendBuffPtr := None; interruptBuff := None;
     connOpen := false; running := running t; closeCalls := closeCalls t |}.

Definition Close (t : TcpBufTask) : TcpBufTask :=
  if closed t =? 0 then close_channels (mark_closed (fst (Stop (set_closed t 1)))) else t.

Definition Terminate (t : TcpBufTask) : TcpBufTask := Close t.

(** The deferred calls of [sendloop]: [stopbuff], [Close], then the flag and
    [close(stopedChan)], whose panic comes before [recover] is called. *)
Definition sendloop_exit (t : TcpBufTask) : go TcpBufTask :=
  let t := Close (stopbuff t) in
  let t := set_stopped t 1 in
  let! c := close_chan (stopedChan t) in
  Ret (set_stopedChan t c).

(** The same for [poolsendloop]. *)
Definition poolsendloop_exit (t : TcpBufTask) : go TcpBufTask :=
  let t := Close (stopchan t) in
  let t := set_stoppedBuff t 1 in
  let! c := close_chan (stopedBuffChan t) in
  Ret (set_stopedBuffChan t c).

(** ** Sending *)

(** [make], then the four header bytes, then [copy]. *)
Definition getsendbuff (flag : Z) (buff : list Z) : go (list Z) :=
  let bsize := zlen buff in
  let! tmpBuff := make_bytes (bsize + 4) in
  let! tmpBuff := zset tmpBuff 0 (u8 bsize) in
  let! tmpBuff := zset tmpBuff 1 (u8 (Z.shiftr bsize 8)) in
  let! tmpBuff := zset tmpBuff 2 (u8 (Z.shiftr bsize 16)) in
  let! tmpBuff := zset tmpBuff 3 flag in
  copy_to tmpBuff 4 buff.

Definition AsyncSend (t : TcpBufTask) (buffer : list Z) (flag : Z) : go (TcpBufTask * bool) :=
  if IsClosed t then Ret (t, false)
  else
    let bsize := zlen buffer in
    let! b := Append (sendBuff t) [u8 bsize; u8 (Z.shiftr bsize 8); u8 (Z.shiftr bsize 16); flag] in
    let! b := Append b buffer in
    let! t := Signal (set_sendBuff t b) in
    Ret (t, true).

Definition AsyncSendWithHead (t : TcpBufTask) (head buffer : list Z) (flag : Z)
    : go (TcpBufTask * bool) :=
  if IsClosed t then Ret (t, false)
  else
    let bsize := zlen buffer + zlen head in
    let! b := Append (sendBuff t) [u8 bsize; u8 (Z.shiftr bsize 8); u8 (Z.shiftr bsize 16); flag] in
    let! b := Append b head in
    let! b := Append b buffer in
    let! t := Signal (set_sendBuff t b) in
    Ret (t, true).

(** The deferred [recover]: a panic closes the task, and the function returns
    the zero value [false]. *)
Definition recover_close {A} (t : TcpBufTask) (r : go A) (k : A -> TcpBufTask * bool) : TcpBufTask * bool :=
  match r with
  | Ret a => k a
  | Panic => (Close t, false)
  end.

(** A full channel drops the message; the result is [true] all the same. *)
Definition SendImmediateBuff (t : TcpBufTask) (buff : list Z) (flag : Z) : TcpBufTask * bool :=
  recover_close t (getsendbuff flag buff) (fun tmpBuff =>
    if IsClosed t then (t, false)
    else recover_close t (try_send (immediatBuffChan t) tmpBuff) (fun '(c, _) =>
           (set_immediatBuffChan t c, true))).

Definition AsyncSendBuff (t : TcpBufTask) (buff : list Z) (flag : Z) : TcpBufTask * bool :=
  recover_close t (getsendbuff flag buff) (fun tmpBuff =>
    if IsClosed t then (t, false)
    else recover_close t (try_send (interruptBuffChan t) tmpBuff) (fun '(c, _) =>
           (set_interruptBuffChan t c, true))).

(** The [Safe] variants wait for room in the channel: [None] when the call
    blocks. *)
Definition SendImmediateBuffSafe (t : TcpBufTask) (buff : list Z) (flag : Z) : option (TcpBufTask * bool) :=
  match getsendbuff flag buff with
  | Panic => Some (Close t, false)
  | Ret tmpBuff =>
      if IsClosed t then Some (t, false)
      else match send (immediatBuffChan t) tmpBuff with
           | Panic => Some (Close t, false)
           | Ret None => None
           | Ret (Some c) => Some (set_immediatBuffChan t c, true)
           end
  end.

Definition AsyncSendBuffSafe (t : TcpBufTask) (buff : list Z) (flag : Z) : option (TcpBufTask * bool) :=
  match getsendbuff flag buff with
  | Panic => Some (Close t, false)
  | Ret tmpBuff =>
      if IsClosed t then Some (t, false)
      else match send (interruptBuffChan t) tmpBuff with
           | Panic => Some (Close t, false)
           | Ret None => None
           | Ret (Some c) => Some (set_interruptBuffChan t c, true)
           end
  end.

End Derived.

Definition SetSendBuff (t : TcpBufTask) (SendBuff : option nat) (buffLen startIdx : Z)
    (preSendBuff : list Z) : go (option TcpBufTask) :=
  if IsClosed t then Ret (Some t)
  else
    let! c := send (initSendBuff t) (mkSendBuffInfo SendBuff buffLen startIdx preSendBuff) in
    Ret (set_initSendBuff t <$> c).

Definition SetSendBuffWithFlag (t : TcpBufTask) (SendBuff : option nat) (buffLen startIdx : Z)
    (preSendBuff : list Z) (flag : Z) : go (option TcpBufTask) :=
  if IsClosed t then Ret (Some t)
  else
    let! tmpBuff := getsendbuff flag preSendBuff in
    let! c := send (initSendBuff t) (mkSendBuffInfo SendBuff buffLen startIdx tmpBuff) in
    Ret (set_initSendBuff t <$> c).

Definition NewBuffNotice (t : TcpBufTask) : go TcpBufTask :=
  if IsClosed t then Ret t
  else let! (c, _) := try_send (newBuffSignal t) 1 in Ret (set_newBuffSignal t c).

(** What a [Conn.Write] reports: the bytes it took, or an error. *)
Inductive write_res : Type :=
| WOk (writenum : Z)
| WErr.

(** The loop over the results of its writes: [None] when all of [writes] were
    consumed and the loop goes on. *)
Fixpoint SyncSendBuff (buff : list Z) (start : Z) (writes : list write_res) : go (option bool) :=
  match writes with
  | [] => Ret None
  | w :: writes =>
      let! rest := slice buff start (zlen buff) in
      match w with
      | WErr => Ret (Some false)
      | WOk writenum => SyncSendBuff buff (start + writenum) writes
      end
  end.

(** ** The receive loop *)

(** Grow if there is not enough room, read, and flip when the read succeeded. *)
Definition read_more (conn : list (list Z)) (rb : ByteBuffer) (neednum : Z)
    : go (list (list Z) * ByteBuffer * option io_err) :=
  let! rb := (if WrSize rb <? neednum then WrGrow rb neednum else Ret rb) in
  let! wb := WrBuf rb in
  let '(data, conn, err) := ReadAtLeast conn (zlen wb) neednum in
  let! rb := write_at_writer rb data in
  Ret (conn, match err with Some _ => rb | None => WrFlip rb (zlen data) end, err).

Definition recv_round (conn : list (list Z)) (rb : ByteBuffer)
    : go (recv_end + (list (list Z) * ByteBuffer * (list Z * Z))) :=
  let totalsize := RdSize rb in
  let! (conn, rb, err) :=
    (if totalsize <? cmd_header_size
     then read_more conn rb (cmd_header_size - totalsize)
     else Ret (conn, rb, None)) in
  match err with
  | Some e => Ret (inl (RecvErr e))
  | None =>
      let totalsize := RdSize rb in
      let! msgbuff := RdBuf rb in
      let! m0 := zget msgbuff 0 in
      let! m1 := zget msgbuff 1 in
      let! m2 := zget msgbuff 2 in
      let datasize := Z.lor (Z.lor m0 (Z.shiftl m1 8)) (Z.shiftl m2 16) in
      if cmd_max_size <? datasize then Ret (inl (RecvBadSize datasize))
      else
        let! (conn, rb, err) :=
          (if totalsize <? cmd_header_size + datasize
           then read_more conn rb (cmd_header_size + datasize - totalsize)
           else Ret (conn, rb, None)) in
        match err with
        | Some e => Ret (inl (RecvErr e))
        | None =>
            let! msgbuff := RdBuf rb in
            let! body := slice msgbuff cmd_header_size (cmd_header_size + datasize) in
            let! flag := zget msgbuff 3 in
            Ret (inr (conn, RdFlip rb (cmd_header_size + datasize), (body, flag)))
        end
  end.

Definition recvloop := loop recv_round.

(** ** The wire format *)

(** [[m0; m1; m2; flag]]: any 24-bit length up to [cmd_max_size], zero
    included. *)
#[refine, export] Instance tcpbuf_framing : Framing (list Z * Z) := {
  read_size msgbuff :=
    let! m0 := zget msgbuff 0 in
    let! m1 := zget msgbuff 1 in
    let! m2 := zget msgbuff 2 in
    Ret (Z.lor (Z.lor m0 (Z.shiftl m1 8)) (Z.shiftl m2 16));
  read_msg msgbuff datasize :=
    let! body := slice msgbuff cmd_header_size (cmd_header_size + datasize) in
    let! flag := zget msgbuff 3 in
    Ret (body, flag);
  accepts datasize := negb (cmd_max_size <? datasize);
  body_size hdr := le_value (take 3 hdr);
  message hdr body := (body, default 0 (hdr !! 3%nat))
}.
Proof.
  - intros hdr rest Hh _. destruct (header_inv hdr Hh) as (m0 & m1 & m2 & m3 & ->). simpl.
    f_equal. rewrite !Z.shiftl_lor, !Z.shiftl_shiftl by lia. simpl. by rewrite Z.lor_0_r, Z.lor_assoc.
  - intros hdr body rest Hh Hb. rewrite slice_frame by done.
    by destruct (header_inv hdr Hh) as (m0 & m1 & m2 & m3 & ->).
  - intros hdr _ Hb. apply le_value_nonneg. by apply Forall_take.
Defined.

Lemma read_more_fill {A} (b : bool) conn rb n (k : _ -> go A) :
  (forall c b1 b2 e, k (c, b1, Some e) = k (c, b2, Some e)) ->
  go_bind (if b then read_more conn rb n else Ret (conn, rb, None)) k =
  go_bind (if b then fill conn rb n else Ret (conn, rb, None)) k.
Proof.
  intros Hk. destruct b; [|done]. unfold read_more, fill.
  assert ((if WrSize rb <? n then WrGrow rb n else Ret rb) = WrGrow rb n) as ->.
  { unfold WrGrow. by destruct (WrSize rb <? n). }
  destruct (WrGrow rb n) as [rb'|]; [|done]. cbn [go_bind]. destruct (WrBuf rb') as [wb|]; [|done].
  cbn [go_bind]. destruct (ReadAtLeast conn (zlen wb) n) as [[data c] [e|]];
    destruct (write_at_writer rb' data); try done. simpl. apply Hk.
Qed.

Lemma buf_recv_round_frame conn rb : recv_round conn rb = frame_round conn rb.
Proof.
  unfold recv_round, frame_round. rewrite read_more_fill by done.
  destruct (_ : go (_ * _ * _)) as [[[c b] e]|]; [|done].
  cbn [go_bind]. destruct e; [done|]. destruct (RdBuf b) as [mb|]; [|done]. cbn [go_bind].
  simpl. destruct (zget mb 0); [|done]. destruct (zget mb 1); [|done]. destruct (zget mb 2); [|done].
  cbn [go_bind]. rewrite negb_involutive. destruct (cmd_max_size <? _); [done|].
  rewrite read_more_fill by done. rewrite !(Z.add_comm cmd_header_size).
  destruct (_ : go (_ * _ * _)) as [[[c' b'] e']|]; [|done]. cbn [go_bind]. destruct e'; [done|].
  destruct (RdBuf b') as [mb'|]; [|done]. cbn [go_bind].
  destruct (slice _ _ _); [|done]. cbn [go_bind]. by destruct (zget mb' 3).
Qed.

Lemma buf_recvloop_frame fuel conn rb : recvloop fuel conn rb = loop frame_round fuel conn rb.
Proof. apply loop_ext, buf_recv_round_frame. Qed.

(** The receive loop of the buffered task decodes its stream.  Whatever
    the segmentation, it neither panics nor runs forever and delivers exactly
    the bodies and flags of the frames that arrived whole, up to the end of
    the stream or the first length above [cmd_max_size]. *)
Theorem tcpbuf_recvloop_decodes (segs : list (list Z)) (Hbytes : Forall is_byte (concat segs)) :
  exists msgs e, recvloop (S (length (concat segs))) segs NewByteBuffer = Ret (msgs, Some e) /\
    decodes (concat segs) msgs (end_class e) /\
    forall msgs' e', decodes (concat segs) msgs' e' -> msgs' = msgs /\ e' = end_class e.
Proof. rewrite buf_recvloop_frame. by apply loop_decodes. Qed.

Lemma tcpbuf_recvloop_decodes_witness :
  exists msgs e, recvloop 14 [[1; 0]; [0; 5; 7; 0; 0; 0]; [6; 1; 0; 4; 0]] NewByteBuffer = Ret (msgs, Some e) /\
    decodes [1; 0; 0; 5; 7; 0; 0; 0; 6; 1; 0; 4; 0] msgs (end_class e) /\
    msgs = [([7], 5); ([], 6)] /\ e = RecvBadSize 262145.
Proof.
  destruct (tcpbuf_recvloop_decodes [[1; 0]; [0; 5; 7; 0; 0; 0]; [6; 1; 0; 4; 0]]) as (msgs & e & He & Hd & _).
  - refine (bool_decide_unpack _ _). by vm_compute.
  - exists msgs, e. split; [exact He|]. split; [exact Hd|]. vm_compute in He. by simplify_eq.
Defined.

(** ** What the senders put on the wire *)

Lemma getsendbuff_spec flag buff : getsendbuff flag buff = Ret (buf_frame flag buff).
Proof.
  unfold getsendbuff. pose proof (zlen_nonneg buff). unfold make_bytes. rewrite decide_True by lia.
  cbn [go_bind]. assert (zeros (zlen buff + 4) = [0; 0; 0; 0] ++ zeros (zlen buff)) as ->.
  { unfold zeros. by replace (Z.to_nat (zlen buff + 4)) with (4 + Z.to_nat (zlen buff))%nat by lia. }
  pose proof (zlen_zeros (zlen buff) ltac:(lia)) as Hz.
  repeat (rewrite zset_ok by (rewrite ?zlen_insert, zlen_app, Hz; change (zlen [0; 0; 0; 0]) with 4; lia);
    cbn [go_bind]).
  rewrite copy_to_ok by (rewrite ?zlen_insert, zlen_app, Hz; change (zlen [0; 0; 0; 0]) with 4; lia).
  f_equal. unfold buf_frame.
  change (le_bytes 3 (zlen buff) ++ flag :: buff) with (le_bytes 3 (zlen buff) ++ [flag] ++ buff).
  rewrite app_assoc, <- header_bytes3.
  apply (overwrite_tail [_; _; _; _] (zeros (zlen buff)) buff), Nat2Z.inj, Hz.
Qed.

(** A sender of an open task appends [bs] to the send queue, leaves a wake-up
    and reports [true]; on a closed task it reports [false]. *)
Definition buf_sends (t : TcpBufTask) (bs : list Z) (r : go (TcpBufTask * bool)) : Prop :=
  if IsClosed t then r = Ret (t, false)
  else exists b c, r = Ret (set_signal (set_sendBuff t b) c, true) /\ wf b /\
    readable b = readable (sendBuff t) ++ bs /\ wakeup c /\ items c <> [].

Lemma buf_AsyncSendWithHead_sends t head buffer flag : wf (sendBuff t) -> wakeup (signal t) ->
  buf_sends t (buf_frame flag (head ++ buffer)) (AsyncSendWithHead t head buffer flag).
Proof.
  intros Hwf Hs. unfold buf_sends, AsyncSendWithHead. destruct (IsClosed t); [done|].
  rewrite header_bytes3.
  destruct (Append_spec (sendBuff t) (le_bytes 3 (zlen buffer + zlen head) ++ [flag]) Hwf) as (b1 & -> & Hw1 & Hr1).
  cbn [go_bind]. destruct (Append_spec b1 head Hw1) as (b2 & -> & Hw2 & Hr2).
  cbn [go_bind]. destruct (Append_spec b2 buffer Hw2) as (b3 & -> & Hw3 & Hr3). cbn [go_bind].
  unfold Signal. simpl. destruct (wakeup_try_send (signal t) 1 Hs) as (c & ok & -> & Hc & Hi).
  cbn [go_bind]. exists b3, c. split_and!; try done. rewrite Hr3, Hr2, Hr1. unfold buf_frame.
  by rewrite zlen_app, (Z.add_comm (zlen buffer)), <- !app_assoc.
Qed.

Lemma AsyncSend_head t buffer flag : AsyncSend t buffer flag = AsyncSendWithHead t [] buffer flag.
Proof.
  unfold AsyncSend, AsyncSendWithHead. rewrite zlen_nil, Z.add_0_r. destruct (IsClosed t); [done|].
  by destruct (Append _ _).
Qed.

(** What the buffered task puts on the wire.  [AsyncSend] and
    [AsyncSendWithHead] append one frame (a length that counts the head but
    not the header, the flag, the bytes) to the send queue of an open task,
    leave the wake-up signal set and return [true], and return [false] on a
    closed one; [getsendbuff] builds the same frame in a new slice. *)
Theorem tcpbuf_send_wire (t : TcpBufTask) (head buffer : list Z) (flag : Z)
    (Hwf : wf (sendBuff t)) (Hsig : wakeup (signal t)) :
  buf_sends t (buf_frame flag buffer) (AsyncSend t buffer flag) /\
  buf_sends t (buf_frame flag (head ++ buffer)) (AsyncSendWithHead t head buffer flag) /\
  getsendbuff flag buffer = Ret (buf_frame flag buffer).
Proof.
  split; [|split; [by apply buf_AsyncSendWithHead_sends | apply getsendbuff_spec]].
  rewrite AsyncSend_head. by apply buf_AsyncSendWithHead_sends.
Qed.

Definition open_buf_task : TcpBufTask := Start NewTcpBufTask false.

Lemma tcpbuf_send_wire_witness :
  buf_sends open_buf_task (buf_frame 9 [7]) (AsyncSend open_buf_task [7] 9) /\
  buf_sends open_buf_task (buf_frame 9 ([1] ++ [7])) (AsyncSendWithHead open_buf_task [1] [7] 9) /\
  getsendbuff 9 [7] = Ret (buf_frame 9 [7]).
Proof. apply (tcpbuf_send_wire open_buf_task [1] [7] 9); [vm_compute; repeat split; congruence|done]. Defined.

(** ** End to end *)

Fixpoint send_all (t : TcpBufTask) (msgs : list (list Z * Z)) : go TcpBufTask :=
  match msgs with
  | [] => Ret t
  | (buffer, flag) :: msgs => let! (t, _) := AsyncSend t buffer flag in send_all t msgs
  end.

Definition msg_frame (m : list Z * Z) : list Z := buf_frame m.2 m.1.

Lemma buf_send_all_spec msgs : forall t, wf (sendBuff t) -> wakeup (signal t) -> closed t = 0 ->
  exists t', send_all t msgs = Ret t' /\
    readable (sendBuff t') = readable (sendBuff t) ++ concat (msg_frame <$> msgs).
Proof.
  induction msgs as [|[b f] msgs IH]; intros t Hwf Hs Hc; cbn [send_all].
  - exists t. by rewrite fmap_nil, app_nil_r.
  - pose proof (buf_AsyncSendWithHead_sends t [] b f Hwf Hs) as Hsend. rewrite <- AsyncSend_head in Hsend.
    unfold buf_sends, IsClosed in Hsend. rewrite Hc in Hsend.
    destruct Hsend as (b1 & c1 & -> & Hwf1 & Hr1 & Hs1 & _). cbn [go_bind].
    destruct (IH (set_signal (set_sendBuff t b1) c1) Hwf1 Hs1 Hc) as (t2 & -> & Hr2).
    exists t2. split; [done|]. rewrite Hr2, fmap_cons. cbn [concat sendBuff set_signal set_sendBuff].
    by rewrite Hr1, app_assoc.
Qed.

Lemma body_size_frame n flag : body_size (le_bytes 3 n ++ [flag]) = n mod 2 ^ 24.
Proof.
  cbn [body_size tcpbuf_framing]. rewrite take_app_le by done.
  rewrite take_ge by done. by rewrite le_value_bytes.
Qed.

Lemma msg_framed (m : list Z * Z) : zlen m.1 <= cmd_max_size -> framed m (msg_frame m).
Proof.
  destruct m as [body flag]. intros Hn. pose proof (zlen_nonneg body).
  exists (le_bytes 3 (zlen body) ++ [flag]), body. rewrite body_size_frame. unfold cmd_max_size in Hn. simpl in Hn.
  rewrite Z.mod_small by lia. unfold msg_frame, buf_frame. simpl. split_and!; try done.
  apply negb_true_iff, Z.ltb_ge. done.
Qed.

(** C36: end to end, messages and flags survive the wire.  The bytes a started
    task queues for any sequence of [AsyncSend] calls with bodies of at most
    [cmd_max_size] bytes, the empty ones included, make the peer's [recvloop]
    deliver exactly those bodies with their flags in that order, however the
    network cuts the stream. *)
Theorem tcpbuf_roundtrip (msgs : list (list Z * Z))
    (Hok : Forall (fun m : list Z * Z => zlen m.1 <= cmd_max_size /\ Forall is_byte m.1 /\ is_byte m.2) msgs) :
  exists t, send_all (Start NewTcpBufTask false) msgs = Ret t /\
    forall segs, concat segs = readable (sendBuff t) ->
      exists e, recvloop (S (length (concat segs))) segs NewByteBuffer = Ret (msgs, Some (RecvErr e)).
Proof.
  destruct wf_new as [Hwf Hr].
  destruct (buf_send_all_spec msgs (Start NewTcpBufTask false) Hwf) as (t & Ht & Hq); [done..|].
  exists t. split; [done|]. intros segs Hwire. rewrite buf_recvloop_frame.
  change (sendBuff (Start NewTcpBufTask false)) with NewByteBuffer in Hq. rewrite Hr, app_nil_l in Hq.
  apply (loop_framed msgs (msg_frame <$> msgs)); [|congruence|].
  - apply Forall2_fmap_r, Forall_Forall2_diag, (Forall_impl _ _ _ Hok).
    intros m [Hm _]. by apply msg_framed.
  - rewrite Hwire, Hq. apply Forall_concat, Forall_fmap, (Forall_impl _ _ _ Hok).
    intros m (_ & Hb & Hf). apply Forall_app. split; [apply le_bytes_is_byte|]. by constructor.
Qed.

Lemma tcpbuf_roundtrip_witness :
  exists e, recvloop 16 [[5; 0; 0]; [1; 104; 101; 108; 108; 111; 2]; [0; 0; 0]; [111; 107]] NewByteBuffer
    = Ret ([(str "hello", 1); (str "ok", 0)], Some (RecvErr e)).
Proof.
  destruct (tcpbuf_roundtrip [(str "hello", 1); (str "ok", 0)]) as (t & Ht & H).
  - refine (bool_decide_unpack _ _). by vm_compute.
  - vm_compute in Ht. injection Ht as <-.
    apply (H [[5; 0; 0]; [1; 104; 101; 108; 108; 111; 2]; [0; 0; 0]; [111; 107]]). reflexivity.
Defined.

(** The length field has 24 bits and the senders do not check the size.
    [AsyncSend] of a body whose length modulo 2^24 is above [cmd_max_size]
    queues it and reports [true], and the peer's loop ends on the frame,
    delivering nothing. *)
Theorem tcpbuf_oversize_refused (t : TcpBufTask) (buffer rest : list Z) (flag : Z)
    (Hwf : wf (sendBuff t)) (Hsig : wakeup (signal t)) (Hopen : IsClosed t = false)
    (Hbig : cmd_max_size < zlen buffer mod 2 ^ 24) :
  exists t', AsyncSend t buffer flag = Ret (t', true) /\
    readable (sendBuff t') = readable (sendBuff t) ++ buf_frame flag buffer /\
    decodes (buf_frame flag buffer ++ rest) [] (BadSize (zlen buffer mod 2 ^ 24)).
Proof.
  pose proof (buf_AsyncSendWithHead_sends t [] buffer flag Hwf Hsig) as Hs. rewrite <- AsyncSend_head in Hs.
  unfold buf_sends in Hs. rewrite Hopen in Hs. destruct Hs as (b & c & -> & _ & Hr & _).
  eexists; split; [done|]. split; [done|]. unfold buf_frame.
  change (flag :: buffer) with ([flag] ++ buffer). rewrite <- (body_size_frame (zlen buffer) flag), app_assoc, <- app_assoc.
  apply dec_bad; [by rewrite zlen_app, zlen_le_bytes|]. rewrite body_size_frame.
  simpl. apply negb_false_iff, Z.ltb_lt. done.
Qed.

Lemma tcpbuf_oversize_refused_witness :
  exists t', AsyncSend open_buf_task (zeros 262145) 0 = Ret (t', true) /\
    readable (sendBuff t') = readable (sendBuff open_buf_task) ++ buf_frame 0 (zeros 262145) /\
    decodes (buf_frame 0 (zeros 262145) ++ []) [] (BadSize (zlen (zeros 262145) mod 2 ^ 24)).
Proof.
  apply (tcpbuf_oversize_refused open_buf_task (zeros 262145) [] 0).
  - vm_compute. repeat split; congruence.
  - done.
  - done.
  - rewrite zlen_zeros; done.
Defined.

(** The senders of the two message channels.  All four report [false] on a
    closed task.  On an open one the frame is queued when the channel has
    room; when it is full the plain variants drop the message and still report
    [true], and the [Safe] variants block. *)
Theorem tcpbuf_channel_senders (OnClose : TcpBufTask -> TcpBufTask) (t : TcpBufTask) (buff : list Z) (flag : Z)
    (Him : chclosed (immediatBuffChan t) = false) (Hin : chclosed (interruptBuffChan t) = false) :
  let m := buf_frame flag buff in
  let immediate := set_immediatBuffChan t (push (immediatBuffChan t) m) in
  let interrupt := set_interruptBuffChan t (push (interruptBuffChan t) m) in
  SendImmediateBuff OnClose t buff flag =
    (if IsClosed t then (t, false) else if full (immediatBuffChan t) then (t, true) else (immediate, true)) /\
  AsyncSendBuff OnClose t buff flag =
    (if IsClosed t then (t, false) else if full (interruptBuffChan t) then (t, true) else (interrupt, true)) /\
  SendImmediateBuffSafe OnClose t buff flag =
    (if IsClosed t then Some (t, false) else if full (immediatBuffChan t) then None else Some (immediate, true)) /\
  AsyncSendBuffSafe OnClose t buff flag =
    (if IsClosed t then Some (t, false) else if full (interruptBuffChan t) then None else Some (interrupt, true)).
Proof.
  intros m immediate interrupt.
  unfold SendImmediateBuff, AsyncSendBuff, SendImmediateBuffSafe, AsyncSendBuffSafe, try_send, send.
  rewrite getsendbuff_spec. simpl. destruct (IsClosed t); [done|]. rewrite Him, Hin.
  destruct t. simpl. by destruct (full _), (full _).
Qed.

Lemma tcpbuf_channel_senders_witness :
  SendImmediateBuff id open_buf_task [7] 1 =
    (set_immediatBuffChan open_buf_task (push (make_chan 24) [1; 0; 0; 1; 7]), true).
Proof.
  destruct (tcpbuf_channel_senders id open_buf_task [7] 1) as [-> _]; reflexivity.
Defined.

(** [SyncSendBuff] never reports success.  Its loop has no exit other than
    a write error: while the connection takes what it is given (partial writes
    included) the loop goes on, also after everything has been written, and
    when it returns it returns [false]. *)
Theorem sync_send_never_succeeds (buff : list Z) (sizes : list Z) (Hsizes : Forall (fun n => 0 <= n) sizes)
    (Hsum : fold_right Z.add 0 sizes <= zlen buff) (rest : list write_res) :
  SyncSendBuff buff 0 (WOk <$> sizes) = Ret None /\
  SyncSendBuff buff 0 ((WOk <$> sizes) ++ WErr :: rest) = Ret (Some false) /\
  forall start writes, SyncSendBuff buff start writes <> Ret (Some true).
Proof.
  assert (Hgen : forall sizes start, Forall (fun n => 0 <= n) sizes -> 0 <= start ->
    start + fold_right Z.add 0 sizes <= zlen buff ->
    SyncSendBuff buff start (WOk <$> sizes) = Ret None /\
    SyncSendBuff buff start ((WOk <$> sizes) ++ WErr :: rest) = Ret (Some false)).
  { clear. induction sizes as [|n sizes IH]; intros start Hs H0 Hsum.
    - simpl in *. rewrite slice_ok by lia. done.
    - apply Forall_cons in Hs as [Hn Hs]. simpl in *.
      assert (0 <= fold_right Z.add 0 sizes) by (clear -Hs; induction Hs; simpl; lia).
      rewrite slice_ok by lia. simpl. apply IH; [done|lia|lia]. }
  destruct (Hgen sizes 0 Hsizes ltac:(lia) ltac:(lia)). split; [done|]. split; [done|].
  intros start writes. revert start. induction writes as [|[n|] writes IH]; intros start; simpl;
    [done| |]; destruct (slice _ _ _); simpl; try done.
Qed.

Lemma sync_send_never_succeeds_witness :
  SyncSendBuff [1; 2; 3] 0 [WOk 2; WOk 1; WOk 0; WOk 0] = Ret None /\
  forall start writes, SyncSendBuff [1; 2; 3] start writes <> Ret (Some true).
Proof.
  destruct (sync_send_never_succeeds [1; 2; 3] [2; 1; 0; 0]) with (rest := @nil write_res) as (H1 & _ & H2).
  - repeat constructor; lia.
  - done.
  - split; [exact H1|exact H2].
Defined.

(** ** Lifecycle *)

(** What the goroutines of one session may do with the task; [LExit] is the
    end of the send loop that [Start] started. *)
Inductive life_op : Type :=
| LClose
| LStop
| LVerify
| LSend (buffer : list Z) (flag : Z)
| LImmediate (buffer : list Z) (flag : Z)
| LInterrupt (buffer : list Z) (flag : Z)
| LNotice
| LExit.

Definition life_step (PoolSend : bool) (t : TcpBufTask) (o : life_op) : go TcpBufTask :=
  match o with
  | LClose => Ret (Close id t)
  | LStop => Ret (fst (Stop t))
  | LVerify => Ret (Verify t)
  | LSend buffer flag => let! (t, _) := AsyncSend t buffer flag in Ret t
  | LImmediate buffer flag => Ret (fst (SendImmediateBuff id t buffer flag))
  | LInterrupt buffer flag => Ret (fst (AsyncSendBuff id t buffer flag))
  | LNotice => NewBuffNotice t
  | LExit => if PoolSend then poolsendloop_exit id t else sendloop_exit id t
  end.

Fixpoint run_life (PoolSend : bool) (t : TcpBufTask) (os : list life_op) : go TcpBufTask :=
  match os with
  | [] => Ret t
  | o :: os => let! t := life_step PoolSend t o in run_life PoolSend t os
  end.

Definition is_exit (o : life_op) : bool := match o with LExit => true | _ => false end.
Definition is_close (o : life_op) : bool := match o with LClose | LExit => true | _ => false end.

(** Invariant of a session: [ended] says whether it was closed, [exited]
    whether its send loop is gone. *)
Record session (PoolSend ended exited : bool) (t : TcpBufTask) : Prop := mkSession {
  se_wf : wf (sendBuff t);
  se_signal : wakeup (signal t);
  se_notice : chclosed (newBuffSignal t) = false;
  se_closed : closed t = if ended then 1 else 0;
  se_conn : connOpen t = negb ended;
  se_calls : closeCalls t = if ended then 1%nat else 0%nat;
  se_interrupt : chclosed (interruptBuffChan t) = ended;
  se_immediat : chclosed (immediatBuffChan t) = ended;
  se_init : chclosed (initSendBuff t) = ended;
  se_stop : chclosed (if PoolSend then stopedBuffChan t else stopedChan t) = exited;
  se_stopped : ended = true -> stopped t = 1 /\ stoppedBuff t = 1;
  se_exited : exited = true -> ended = true
}.

(** Updates that leave the flags alone. *)
Definition same_flags (t t' : TcpBufTask) : Prop :=
  wf (sendBuff t') /\ wakeup (signal t') /\ chclosed (newBuffSignal t') = chclosed (newBuffSignal t) /\
  closed t' = closed t /\ connOpen t' = connOpen t /\ closeCalls t' = closeCalls t /\
  chclosed (interruptBuffChan t') = chclosed (interruptBuffChan t) /\
  chclosed (immediatBuffChan t') = chclosed (immediatBuffChan t) /\
  chclosed (initSendBuff t') = chclosed (initSendBuff t) /\
  chclosed (stopedChan t') = chclosed (stopedChan t) /\
  chclosed (stopedBuffChan t') = chclosed (stopedBuffChan t) /\
  (stopped t = 1 -> stopped t' = 1) /\ (stoppedBuff t = 1 -> stoppedBuff t' = 1).

Lemma session_same p e x t t' : session p e x t -> same_flags t t' -> session p e x t'.
Proof.
  intros [Hwf Hsig Hno Hc Hco Hca Hin Him Hini Hst Hstop Hex]
    (?&?&En&Ec&Eco&Eca&Ein&Eim&Eini&Est&Estb&Hs&Hsb).
  split; try done; try congruence; [by destruct p; congruence|].
  intros He. destruct (Hstop He). auto.
Qed.

Lemma try_send_chclosed {A} (c c' : chan A) x ok : try_send c x = Ret (c', ok) -> chclosed c' = chclosed c.
Proof. unfold try_send. intros. go_simp; destruct (chclosed c) eqn:?, (full c); by simplify_eq/=. Qed.

Lemma stopchan_same t : wf (sendBuff t) -> wakeup (signal t) -> same_flags t (stopchan t).
Proof.
  intros. unfold same_flags, stopchan, IsStopped. destruct (negb _); [by split_and!|].
  destruct (try_send _ _) as [[c ok]|] eqn:E; simpl; [|split_and!; done].
  apply try_send_chclosed in E. simpl in E. split_and!; done.
Qed.

Lemma stopbuff_same t : wf (sendBuff t) -> wakeup (signal t) -> same_flags t (stopbuff t).
Proof.
  intros. unfold same_flags, stopbuff, IsStoppedBuff. destruct (negb _); [by split_and!|].
  destruct (try_send _ _) as [[c ok]|] eqn:E; simpl; [|split_and!; done].
  apply try_send_chclosed in E. simpl in E. split_and!; done.
Qed.

Lemma Stop_session p e x t : session p e x t -> session p e x (fst (Stop t)).
Proof.
  intros Hs. simpl. assert (session p e x (stopchan t)) as Hs1.
  { eapply session_same; [done|]. apply stopchan_same; apply Hs. }
  eapply session_same; [done|]. apply stopbuff_same; apply Hs1.
Qed.

(** The flags of a started task after [closed] has been set. *)
Lemma buf_Close_session p e x t : session p e x t -> session p true x (Close id t).
Proof.
  intros Hs. unfold Close. rewrite (se_closed _ _ _ _ Hs). destruct e; [done|]. simpl.
  assert (same_flags (set_closed t 1) (stopbuff (stopchan (set_closed t 1)))) as Hf.
  { pose proof (stopchan_same (set_closed t 1) (se_wf _ _ _ _ Hs) (se_signal _ _ _ _ Hs)) as H1.
    pose proof H1 as (Hw & Hg & _).
    pose proof (stopbuff_same (stopchan (set_closed t 1)) Hw Hg) as H2.
    unfold same_flags in *. destruct_and!. split_and!; try done; try congruence; tauto. }
  set (u := stopbuff _) in *. destruct Hf as (?&?&En&Ec&Eco&Eca&Ein&Eim&Eini&Est&Estb&_&_). simpl in *.
  destruct Hs as [Hwf Hsig Hno Hc Hco Hca Hin Him Hini Hst Hstop Hex]. simpl in *.
  unfold close_channels, close_chan. simpl. rewrite Ein, Hin. simpl. rewrite Eim, Him. simpl.
  rewrite Eini, Hini. simpl. split; simpl; try done; try congruence; destruct p; congruence.
Qed.

Lemma chan_sender_session p e x t buff flag : session p e x t ->
  session p e x (fst (SendImmediateBuff id t buff flag)) /\
  session p e x (fst (AsyncSendBuff id t buff flag)).
Proof.
  intros Hs. unfold SendImmediateBuff, AsyncSendBuff. rewrite getsendbuff_spec. simpl.
  unfold IsClosed. rewrite (se_closed _ _ _ _ Hs). destruct e; [done|]. simpl.
  pose proof Hs as [Hwf Hsig Hno Hc Hco Hca Hin Him Hini Hst Hstop Hex].
  split; unfold try_send; rewrite ?Him, ?Hin; destruct (full _); simpl;
    (eapply session_same; [exact Hs|]); unfold same_flags; simpl; split_and!; done.
Qed.

Lemma exit_session (p e : bool) t : session p e false t ->
  exists t', (if p then poolsendloop_exit id t else sendloop_exit id t) = Ret t' /\ session p true true t'.
Proof.
  intros Hs. unfold poolsendloop_exit, sendloop_exit, close_chan. destruct p.
  - assert (session true true false (Close id (stopchan t))) as Hc.
    { apply buf_Close_session with e. eapply session_same; [exact Hs|]. apply stopchan_same; apply Hs. }
    destruct Hc as [Hwf Hsig Hno Hc Hco Hca Hin Him Hini Hst Hstop Hex]. simpl in *. rewrite Hst.
    eexists; split; [done|]. split; simpl; try done. split; [|done]. by apply Hstop.
  - assert (session false true false (Close id (stopbuff t))) as Hc.
    { apply buf_Close_session with e. eapply session_same; [exact Hs|]. apply stopbuff_same; apply Hs. }
    destruct Hc as [Hwf Hsig Hno Hc Hco Hca Hin Him Hini Hst Hstop Hex]. simpl in *. rewrite Hst.
    eexists; split; [done|]. split; simpl; try done. split; [done|]. by apply Hstop.
Qed.

Lemma buf_life_step_session p e x t o : session p e x t -> is_exit o && x = false ->
  exists t', life_step p t o = Ret t' /\ session p (e || is_close o) (x || is_exit o) t'.
Proof.
  intros Hs Hx. destruct o as [| | |buffer flag|buffer flag|buffer flag| |]; simpl in *;
    rewrite ?orb_true_r, ?orb_false_r.
  - eauto using buf_Close_session.
  - eexists; split; [done|]. by apply Stop_session.
  - eexists; split; [done|]. eapply session_same; [exact Hs|]. destruct Hs. unfold same_flags; simpl. by split_and!.
  - pose proof (buf_AsyncSendWithHead_sends t [] buffer flag (se_wf _ _ _ _ Hs) (se_signal _ _ _ _ Hs)) as Hsend.
    rewrite <- AsyncSend_head in Hsend. unfold buf_sends in Hsend.
    destruct (IsClosed t); [rewrite Hsend; eauto|]. destruct Hsend as (b & c & -> & Hwb & _ & Hw & _).
    eexists; split; [done|]. eapply session_same; [exact Hs|]. unfold same_flags; simpl. by split_and!.
  - eexists; split; [done|]. by apply chan_sender_session.
  - eexists; split; [done|]. by apply chan_sender_session.
  - unfold NewBuffNotice. destruct (IsClosed t); [eauto|].
    unfold try_send. rewrite (se_notice _ _ _ _ Hs).
    destruct (full _); eexists; (split; [done|]);
      (eapply session_same; [exact Hs|]; destruct Hs; unfold same_flags; simpl; by split_and!).
  - subst x. simpl. by apply exit_session with e.
Qed.

Lemma buf_run_life_session p os : forall e t, session p e false t -> existsb is_exit os = false ->
  exists t', run_life p t os = Ret t' /\ session p (e || existsb is_close os) false t'.
Proof.
  induction os as [|o os IH]; intros e t Hs Ho; simpl in *.
  - exists t. by rewrite orb_false_r.
  - apply orb_false_iff in Ho as [Ho Hos].
    destruct (buf_life_step_session p e false t o Hs) as (t1 & -> & Hs1); [by rewrite Ho|].
    rewrite Ho in Hs1. cbn [go_bind]. destruct (IH _ t1 Hs1 Hos) as (t2 & -> & Hs2).
    exists t2. by rewrite orb_assoc.
Qed.

Lemma run_life_exited p os : forall t, session p true true t -> existsb is_exit os = false ->
  exists t', run_life p t os = Ret t' /\ session p true true t'.
Proof.
  induction os as [|o os IH]; intros t Hs Ho; simpl in *; [eauto|].
  apply orb_false_iff in Ho as [Ho Hos].
  destruct (buf_life_step_session p true true t o Hs) as (t1 & -> & Hs1); [by rewrite Ho|].
  rewrite Ho in Hs1. cbn [go_bind]. by apply IH.
Qed.

Lemma run_life_app p os1 os2 : forall t,
  run_life p t (os1 ++ os2) = (let! t := run_life p t os1 in run_life p t os2).
Proof.
  induction os1 as [|o os1 IH]; intros t; simpl; [done|].
  destruct (life_step p t o); simpl; [apply IH|done].
Qed.

(** One session of a buffered task.  Started in either mode, under any
    sequence of closes, stops, verifications, sends and notifications, with
    the end of its send loop anywhere in it, no call panics; once the task is
    closed the connection is closed, [OnClose] has been called exactly once
    and the stop channel has been closed exactly once. *)
Theorem tcpbuf_session_closes_once (PoolSend : bool) (os1 os2 : list life_op)
    (H1 : existsb is_exit os1 = false) (H2 : existsb is_exit os2 = false) :
  (exists t, run_life PoolSend (Start NewTcpBufTask PoolSend) os1 = Ret t /\
     IsClosed t = existsb is_close os1 /\ connOpen t = negb (existsb is_close os1) /\
     closeCalls t = (if existsb is_close os1 then 1 else 0)%nat) /\
  (exists t, run_life PoolSend (Start NewTcpBufTask PoolSend) (os1 ++ LExit :: os2) = Ret t /\
     IsClosed t = true /\ connOpen t = false /\ closeCalls t = 1%nat /\
     chclosed (if PoolSend then stopedBuffChan t else stopedChan t) = true).
Proof.
  assert (session PoolSend false false (Start NewTcpBufTask PoolSend)) as Hinit.
  { destruct wf_new. by split; destruct PoolSend. }
  destruct (buf_run_life_session PoolSend os1 false _ Hinit H1) as (t1 & Hrun1 & Hs1). simpl in Hs1.
  destruct (exit_session _ _ _ Hs1) as (t2 & Hexit & Hs2).
  destruct (run_life_exited PoolSend os2 t2 Hs2 H2) as (t3 & Hrun3 & Hs3).
  split.
  - exists t1. destruct Hs1. unfold IsClosed. split_and!; try done.
    rewrite se_closed0. by destruct (existsb is_close os1).
  - exists t3. rewrite run_life_app, Hrun1. cbn [go_bind run_life life_step]. rewrite Hexit. cbn [go_bind].
    destruct Hs3. unfold IsClosed. rewrite se_closed0. split_and!; done.
Qed.

Lemma tcpbuf_session_closes_once_witness :
  exists t, run_life true (Start NewTcpBufTask true)
    ([LVerify; LImmediate [1] 2; LSend [3] 4] ++ LExit :: [LNotice; LClose]) = Ret t /\
    closeCalls t = 1%nat.
Proof.
  destruct (tcpbuf_session_closes_once true [LVerify; LImmediate [1] 2; LSend [3] 4] [LNotice; LClose])
    as [_ (t & Hr & _ & _ & Hc & _)]; [reflexivity|reflexivity|]. exists t. split; [exact Hr|exact Hc].
Defined.

(** ** A second session *)

(** [Reset] prepares a closed task for a new session without new message
    channels.  The restarted task reports itself open, but the first
    [SendImmediateBuff] finds its channel closed, returns [false] and closes
    the task; that close stops at the already closed channels, so [OnClose] is
    not called for the second session. *)
Theorem tcpbuf_second_session (OnClose : TcpBufTask -> TcpBufTask) (p x : bool) (t : TcpBufTask)
    (buff : list Z) (flag : Z) (Hs : session p true x t) (Hv : verified t = true) :
  let t2 := Start (fst (Reset t)) p in
  snd (Reset t) = true /\ IsClosed t2 = false /\
  SendImmediateBuff OnClose t2 buff flag = (Close OnClose t2, false) /\
  IsClosed (Close OnClose t2) = true /\ connOpen (Close OnClose t2) = false /\
  closeCalls (Close OnClose t2) = closeCalls t.
Proof.
  destruct Hs as [Hwf Hsig Hno Hc Hco Hca Hin Him Hini Hst Hstop Hex].
  unfold Reset, IsVerified. rewrite Hc, Hv. simpl.
  unfold SendImmediateBuff. rewrite getsendbuff_spec. unfold Start, IsClosed. simpl.
  unfold try_send. simpl. rewrite Him. simpl. split_and!; try done;
    unfold Close, close_channels, close_chan; simpl; by rewrite Hin.
Qed.

Definition closed_session : TcpBufTask := Close id (Verify (Start NewTcpBufTask false)).

Lemma tcpbuf_second_session_witness :
  SendImmediateBuff id (Start (fst (Reset closed_session)) false) [1] 2 =
    (Close id (Start (fst (Reset closed_session)) false), false).
Proof.
  destruct (tcpbuf_second_session id false false closed_session [1] 2) as (_ & _ & H & _).
  - split; vm_compute; repeat split; congruence.
  - reflexivity.
  - exact H.
Defined.

Lemma stopbuff_frame u : closed (stopbuff u) = closed u /\ verified (stopbuff u) = verified u /\
  interruptBuffChan (stopbuff u) = interruptBuffChan u /\ immediatBuffChan (stopbuff u) = immediatBuffChan u /\
  initSendBuff (stopbuff u) = initSendBuff u /\ stopedChan (stopbuff u) = stopedChan u.
Proof. unfold stopbuff. destruct (IsStoppedBuff u); [done|]. by destruct (try_send _ _) as [[]|]. Qed.

Lemma stopchan_frame u : closed (stopchan u) = closed u /\ verified (stopchan u) = verified u /\
  interruptBuffChan (stopchan u) = interruptBuffChan u /\ immediatBuffChan (stopchan u) = immediatBuffChan u /\
  initSendBuff (stopchan u) = initSendBuff u.
Proof. unfold stopchan. destruct (IsStopped u); [done|]. by destruct (try_send _ _) as [[]|]. Qed.

Lemma stop_frame u : let v := stopbuff (stopchan u) in
  closed v = closed u /\ verified v = verified u /\ interruptBuffChan v = interruptBuffChan u /\
  immediatBuffChan v = immediatBuffChan u /\ initSendBuff v = initSendBuff u.
Proof.
  intros v. subst v. destruct (stopbuff_frame (stopchan u)) as (-> & -> & -> & -> & -> & _). apply stopchan_frame.
Qed.

Lemma stop_chclosed u : chclosed (stopedChan (stopbuff (stopchan u))) = chclosed (stopedChan u).
Proof.
  destruct (stopbuff_frame (stopchan u)) as (_ & _ & _ & _ & _ & ->). unfold stopchan.
  destruct (IsStopped u); [done|]. simpl. destruct (try_send _ _) as [[c ok]|] eqn:E; [|done].
  apply try_send_chclosed in E. done.
Qed.

(** With the interrupt channel already closed, [Close] stops there; closing a
    closed stop channel then panics. *)
Lemma close_channels_open OnClose u : chclosed (interruptBuffChan u) = false ->
  chclosed (immediatBuffChan u) = false -> chclosed (initSendBuff u) = false ->
  let shut {A} (c : chan A) := {| cap := cap c; items := items c; chclosed := true |} in
  close_channels OnClose u =
    OnClose (set_closeCalls (set_initSendBuff (set_immediatBuffChan (set_interruptBuffChan u
      (shut (interruptBuffChan u))) (shut (immediatBuffChan u))) (shut (initSendBuff u))) (S (closeCalls u))).
Proof. intros H1 H2 H3. unfold close_channels, close_chan. rewrite H1. simpl. rewrite H2. simpl. by rewrite H3. Qed.

Lemma close_channels_closed OnClose u :
  chclosed (interruptBuffChan u) = true -> close_channels OnClose u = u.
Proof. intros H. unfold close_channels, close_chan. by rewrite H. Qed.

Lemma exit_panics OnClose u : closed u = 0 -> chclosed (interruptBuffChan u) = true ->
  chclosed (stopedChan u) = true -> sendloop_exit OnClose u = Panic.
Proof.
  intros Hc Hi Hs. destruct (stopbuff_frame u) as (Ec & _ & Ein & _ & _ & Est).
  unfold sendloop_exit, Close. set (u1 := stopbuff u) in *. rewrite Ec, Hc. cbn [Z.eqb Stop fst].
  destruct (stop_frame (set_closed u1 1)) as (_ & _ & Ein2 & _).
  pose proof (stop_chclosed (set_closed u1 1)) as Ecl.
  set (w := stopbuff (stopchan _)) in *.
  rewrite close_channels_closed by (change (chclosed (interruptBuffChan w) = true); rewrite Ein2; simpl; congruence).
  unfold close_chan. cbn [stopedChan set_stopped mark_closed]. rewrite Ecl. simpl. by rewrite Est, Hs.
Qed.

(** Reconnecting from [OnClose] breaks the next session.  When the send
    loop's own exit closes the task and [OnClose] resets and restarts it, the
    old loop then closes the stop channel of the new session: the new send
    loop is told to stop at once, and closing the channel again at its exit
    panics outside any [recover]. *)
Theorem tcpbuf_reconnect_in_onclose (t : TcpBufTask) (Hs : session false false false t)
    (Hv : verified t = true) :
  let reconnect := fun t => Start (fst (Reset t)) false in
  exists t', sendloop_exit reconnect t = Ret t' /\ IsClosed t' = false /\
    recv (stopedChan t') = RecvClosed /\ sendloop_exit reconnect t' = Panic.
Proof.
  intros reconnect.
  assert (forall u, chclosed (interruptBuffChan u) = false -> chclosed (immediatBuffChan u) = false ->
    chclosed (initSendBuff u) = false -> verified u = true -> closed u = 0 ->
    exists v, Close reconnect u = v /\ closed v = 0 /\ stopedChan v = make_chan 0 /\
      chclosed (interruptBuffChan v) = true) as Hclose.
  { intros u Hin Him Hini Hv' Hc. unfold Close. rewrite Hc. cbn [Z.eqb Stop fst].
    destruct (stop_frame (set_closed u 1)) as (Ec & Ev & Ein & Eim & Eini).
    generalize dependent (stopbuff (stopchan (set_closed u 1))). simpl. intros w Ec Ev Ein Eim Eini.
    rewrite close_channels_open by (simpl; congruence).
    unfold reconnect, Reset, IsVerified. simpl. rewrite Ec, Ev, Hv'. simpl.
    eexists; split; [done|]. done. }
  destruct (stopbuff_frame t) as (Ec & Ev & Ein & Eim & Eini & Est).
  destruct Hs as [Hwf Hsig Hno Hc Hco Hca Hin Him Hini Hst Hstop Hex].
  unfold sendloop_exit at 1.
  destruct (Hclose (stopbuff t)) as (v & -> & Hcv & Hsv & Hiv); [congruence..|].
  unfold close_chan. simpl. rewrite Hsv. simpl. eexists; split; [done|].
  unfold IsClosed. simpl. rewrite Hcv. split; [done|]. split; [done|].
  apply exit_panics; simpl; [by rewrite Hcv|by rewrite Hiv|done].
Qed.

Lemma tcpbuf_reconnect_in_onclose_witness :
  let reconnect := fun t => Start (fst (Reset t)) false in
  exists t', sendloop_exit reconnect (Verify open_buf_task) = Ret t' /\ IsClosed t' = false /\
    recv (stopedChan t') = RecvClosed /\ sendloop_exit reconnect t' = Panic.
Proof.
  apply (tcpbuf_reconnect_in_onclose (Verify open_buf_task)).
  - split; vm_compute; repeat split; congruence.
  - reflexivity.
Defined.
