(* ===== verification/Poolsend.v ===== *)
(** * gonet/tcpbuftask.go: [poolsendloop]

    The pool send loop streams the contents of a ring that its owner fills
    (the implementation of [ITcpBufTask], through [GetEndIdx]), and puts
    immediate and interrupting messages between the messages of the stream.
    Every case of the loop's [select], every iteration of its inner loops, the
    owner writing into the ring and a concurrent [Close] are actions of a
    shared state; [exec] runs one. *)

From S2P Require Import Prelude Circular Bytebuffer.

(** Where the loop is.  A field that a concurrent [Close] sets to nil is read
    again after each test, so that a test and the use behind it are two
    actions: [Noticed] is behind the test of [sendBuffPtr] for a notification,
    [Section_ a b] behind the one of the streaming loop, with the section to be
    written; [IntrTested], [IntrReady] and [IntrWritten n] are behind the test
    of [interruptBuff], behind [RdReady] and behind a write of [n] bytes;
    [AppendTested] is behind the test before [Append]. *)
Inductive pool_pc : Type :=
| Idle | Noticed | Streaming | Section_ (a b : Z)
| Interrupting | IntrTested | IntrReady | IntrWritten (n : Z) | AppendTested (buff : list Z)
| Returned | Panicked.

(** What the loop has written: the message sent before a stream that starts at
    [pos], bytes of the stream, and bytes of immediate or interrupting
    messages. *)
Inductive piece : Type :=
| PInit (pos : Z) (pre : list Z)
| PStream (bs : list Z)
| POut (bs : list Z).

(** The fields of the task the loop uses, the ring memory [mem] behind
    [sendBuffPtr] ([ptr] says whether it is non-nil), [closed], which [Close]
    sets first, and three histories: the bytes the owner has put into the ring,
    the values [GetEndIdx] has had, and what was written to the connection. *)
Record pool := mkPool {
  startIdx : Z;
  endIdx : Z;
  buffLen : Z;
  buffValid : bool;
  ptr : bool;
  interruptBuff : option ByteBuffer;
  pc : pool_pc;
  closed : bool;
  connOpen : bool;
  mem : list Z;
  hist : list Z;
  ends : list Z;
  wire : list piece
}.

Definition GetEndIdx (s : pool) : Z := zlen (hist s).

(** Go's [%] truncates. *)
Definition getBuffSection (s : pool) : Z * Z :=
  if negb (ptr s) then (0, 0)
  else
    let startIdx := Z.rem (startIdx s) (buffLen s) in
    let endIdx := Z.rem (endIdx s) (buffLen s) in
    if startIdx <? endIdx then (startIdx, endIdx) else (startIdx, buffLen s).

Definition set_pc (s : pool) (x : pool_pc) : pool :=
  mkPool (startIdx s) (endIdx s) (buffLen s) (buffValid s) (ptr s) (interruptBuff s) x (closed s) (connOpen s)
    (mem s) (hist s) (ends s) (wire s).
Definition set_endIdx (s : pool) (x : Z) : pool :=
  mkPool (startIdx s) x (buffLen s) (buffValid s) (ptr s) (interruptBuff s) (pc s) (closed s) (connOpen s)
    (mem s) (hist s) (ends s) (wire s).
Definition set_interruptBuff (s : pool) (x : option ByteBuffer) : pool :=
  mkPool (startIdx s) (endIdx s) (buffLen s) (buffValid s) (ptr s) x (pc s) (closed s) (connOpen s)
    (mem s) (hist s) (ends s) (wire s).
Definition add_wire (s : pool) (p : piece) : pool :=
  mkPool (startIdx s) (endIdx s) (buffLen s) (buffValid s) (ptr s) (interruptBuff s) (pc s) (closed s) (connOpen s)
    (mem s) (hist s) (ends s) (wire s ++ [p]).
Definition advance (s : pool) (n : Z) : pool :=
  mkPool (startIdx s + n) (endIdx s) (buffLen s) (buffValid s) (ptr s) (interruptBuff s) (pc s) (closed s) (connOpen s)
    (mem s) (hist s) (ends s) (wire s).

Inductive action : Type :=
| AProduce (bs : list Z)
| AInit (pos : Z) (pre : list Z)
| AImmediate (buff : list Z)
| AInterrupt (buff : list Z)
| AAppend
| ANotice
| ALength
| ASection
| AStream (writenum : Z)
| AStreamErr (writenum : Z)
| AFlush
| AReady
| AFlushWrite (writenum : Z)
| AFlushErr (writenum : Z)
| AFlip
| AOutErr (buff : list Z) (writenum : Z)
| AStop
| AClosePtr
| ACloseIntr
| ACloseConn.

(** A [Conn.Write] of [out] that takes [writenum] bytes. *)
Definition write_ok (s : pool) (out : list Z) (writenum : Z) : bool :=
  connOpen s && (0 <=? writenum) && (writenum <=? zlen out).

(** A [Conn.Write] of [out] that fails after [writenum] bytes; a closed
    connection takes none. *)
Definition write_err (s : pool) (out : list Z) (writenum : Z) : bool :=
  (connOpen s || (writenum =? 0)) && (0 <=? writenum) && (writenum <=? zlen out).

(** [case <-newBuffSignal], up to the test of [sendBuffPtr]. *)
Definition on_notice (s : pool) : pool :=
  if negb (buffValid s) then s
  else
    let s := set_endIdx s (GetEndIdx s) in
    if negb (ptr s) then set_pc s Returned else set_pc s Noticed.

(** [len( *this.sendBuffPtr)] *)
Definition on_length (s : pool) : pool :=
  if negb (ptr s) then set_pc s Panicked
  else if zlen (mem s) <? endIdx s - startIdx s then set_pc s Returned
  else set_pc s Streaming.

(** One iteration of the first inner loop, up to the test of [sendBuffPtr]. *)
Definition stream_step (s : pool) : pool :=
  let s := set_endIdx s (GetEndIdx s) in
  if startIdx s =? endIdx s then set_pc s Interrupting
  else
    let '(a, b) := getBuffSection s in
    if negb (ptr s) then set_pc s Interrupting else set_pc s (Section_ a b).

(** The rest of the iteration: [None] when the write does not take [writenum]
    bytes; with [ok = false] the write fails. *)
Definition stream_write (s : pool) (a b writenum : Z) (ok : bool) : option pool :=
  if negb (ptr s) then Some (set_pc s Panicked)
  else
    match slice (mem s) a b with
    | Panic => Some (set_pc s Panicked)
    | Ret out =>
        let s1 := add_wire s (PStream (take (Z.to_nat writenum) out)) in
        if ok then if write_ok s out writenum then Some (set_pc (advance s1 writenum) Streaming) else None
        else if write_err s out writenum then Some (set_pc s1 Returned) else None
    end.

(** One iteration of the second inner loop: the test, [RdReady], the write and
    [RdFlip], each with [interruptBuff] read again. *)
Definition flush_test (s : pool) : pool :=
  match interruptBuff s with None => set_pc s Idle | Some _ => set_pc s IntrTested end.

Definition flush_ready (s : pool) : pool :=
  match interruptBuff s with
  | None => set_pc s Panicked
  | Some ib => if RdReady ib then set_pc s IntrReady else set_pc s Idle
  end.

Definition flush_write (s : pool) (writenum : Z) (ok : bool) : option pool :=
  match interruptBuff s with
  | None => Some (set_pc s Panicked)
  | Some ib =>
      match (let! rd := RdBuf ib in slice rd 0 (RdSize ib)) with
      | Panic => Some (set_pc s Panicked)
      | Ret out =>
          let s1 := add_wire s (POut (take (Z.to_nat writenum) out)) in
          if ok then if write_ok s out writenum then Some (set_pc s1 (IntrWritten writenum)) else None
          else if write_err s out writenum then Some (set_pc s1 Returned) else None
      end
  end.

Definition flush_flip (s : pool) (writenum : Z) : pool :=
  match interruptBuff s with
  | None => set_pc s Panicked
  | Some ib => set_pc (set_interruptBuff s (Some (RdFlip ib writenum))) Interrupting
  end.

(** [case sbi := <-initSendBuff] with the ring [mem] and start index [pos]. *)
Definition on_init (s : pool) (pos : Z) (pre : list Z) : pool :=
  let s := add_wire s (PInit pos pre) in
  mkPool pos pos (zlen (mem s)) true true (interruptBuff s) (pc s) (closed s) (connOpen s)
    (mem s) (hist s) (ends s) (wire s).

(** [case buff := <-interruptBuffChan]: the test, and [Append]. *)
Definition on_interrupt (s : pool) (buff : list Z) : pool :=
  match interruptBuff s with None => s | Some _ => set_pc s (AppendTested buff) end.

Definition on_append (s : pool) (buff : list Z) : pool :=
  match interruptBuff s with
  | None => set_pc s Panicked
  | Some ib =>
      match Append ib buff with
      | Ret ib => set_pc (set_interruptBuff s (Some ib)) Idle
      | Panic => set_pc s Panicked
      end
  end.

Definition on_produce (s : pool) (bs : list Z) : pool :=
  mkPool (startIdx s) (endIdx s) (buffLen s) (buffValid s) (ptr s) (interruptBuff s) (pc s) (closed s) (connOpen s)
    (produce (mem s) (zlen (hist s)) bs) (hist s ++ bs) (zlen (hist s ++ bs) :: ends s) (wire s).

(** [Close]: [closed] is set and [sendBuffPtr] becomes nil, then [interruptBuff],
    then the connection is closed. *)
Definition close_ptr (s : pool) : pool :=
  mkPool (startIdx s) (endIdx s) (buffLen s) (buffValid s) false (interruptBuff s) (pc s) true (connOpen s)
    (mem s) (hist s) (ends s) (wire s).
Definition close_intr (s : pool) : pool := set_interruptBuff s None.
Definition close_conn (s : pool) : pool :=
  mkPool (startIdx s) (endIdx s) (buffLen s) (buffValid s) (ptr s) (interruptBuff s) (pc s) (closed s) false
    (mem s) (hist s) (ends s) (wire s).

Definition idle (s : pool) : bool := match pc s with Idle => true | _ => false end.
Definition streaming (s : pool) : bool := match pc s with Noticed | Streaming | Section_ _ _ => true | _ => false end.

(** One action, [None] when it is not enabled.  [paced] restricts the owner:
    while the loop streams, it does not get more than the ring's size ahead.
    A stream is set up at a position where the owner has ended a message.
    [AOutErr] is a failed write of an immediate message or of one before a
    stream. *)
Definition exec (paced : bool) (s : pool) (a : action) : option pool :=
  match a, pc s with
  | AProduce bs, _ =>
      if paced && streaming s && (zlen (mem s) <? zlen (hist s) + zlen bs - startIdx s) then None
      else Some (on_produce s bs)
  | AInit pos pre, Idle =>
      if (connOpen s || bool_decide (pre = [])) && bool_decide (pos ∈ ends s) then Some (on_init s pos pre) else None
  | AImmediate buff, Idle =>
      if zlen buff =? 0 then Some s else if connOpen s then Some (add_wire s (POut buff)) else None
  | AOutErr buff n, Idle =>
      if write_err s buff n then Some (set_pc (add_wire s (POut (take (Z.to_nat n) buff))) Returned) else None
  | AInterrupt buff, Idle => Some (on_interrupt s buff)
  | AAppend, AppendTested buff => Some (on_append s buff)
  | ANotice, Idle => Some (on_notice s)
  | ALength, Noticed => Some (on_length s)
  | ASection, Streaming => Some (stream_step s)
  | AStream n, Section_ a b => stream_write s a b n true
  | AStreamErr n, Section_ a b => stream_write s a b n false
  | AFlush, Interrupting => Some (flush_test s)
  | AReady, IntrTested => Some (flush_ready s)
  | AFlushWrite n, IntrReady => flush_write s n true
  | AFlushErr n, IntrReady => flush_write s n false
  | AFlip, IntrWritten n => Some (flush_flip s n)
  | AStop, Idle => Some (set_pc s Returned)
  | AClosePtr, _ => if closed s then None else Some (close_ptr s)
  | ACloseIntr, _ => if closed s then Some (close_intr s) else None
  | ACloseConn, _ => match interruptBuff s with None => Some (close_conn s) | Some _ => None end
  | _, _ => None
  end.

Fixpoint exec_all (paced : bool) (s : pool) (acts : list action) : option pool :=
  match acts with
  | [] => Some s
  | a :: acts => s ← exec paced s a; exec_all paced s acts
  end.

(** The loop as [NewTcpBufTask] and [Start] leave it, over a ring [m] whose
    owner has produced nothing. *)
Definition pool_init (m : list Z) : pool :=
  mkPool 0 0 0 false false (Some NewByteBuffer) Idle false true m [] [0] [].

(** ** Specification of the wire *)

(** [wire_ok strict h e w o]: on the wire [w], every stream starts at its
    position and continues without gap or repetition with the bytes of [h]; and
    if [strict] holds, every other message stands where the stream is at one of
    the message ends [e].  [o] is the position of the current stream. *)
Inductive wire_ok (strict : bool) (h e : list Z) : list piece -> option Z -> Prop :=
| wo_nil : wire_ok strict h e [] None
| wo_init w o pos pre : wire_ok strict h e w o -> 0 <= pos -> pos ∈ e ->
    wire_ok strict h e (w ++ [PInit pos pre]) (Some pos)
| wo_stream w pos bs : wire_ok strict h e w (Some pos) -> 0 <= pos -> pos + zlen bs <= zlen h ->
    bs = sub h pos (pos + zlen bs) -> wire_ok strict h e (w ++ [PStream bs]) (Some (pos + zlen bs))
| wo_out w o bs : wire_ok strict h e w o -> (strict = true -> forall pos, o = Some pos -> pos ∈ e) ->
    wire_ok strict h e (w ++ [POut bs]) o.

(** The loop goes on. *)
Definition running (s : pool) : bool := match pc s with Returned | Panicked => false | _ => true end.

(** The loop is outside of the streaming loop. *)
Definition between (s : pool) : bool := running s && negb (streaming s).

Definition position (s : pool) : option Z := if buffValid s then Some (startIdx s) else None.

Record inv (s : pool) : Prop := mkInv {
  iv_ring : ring_holds (mem s) (hist s);
  iv_ends : zlen (hist s) ∈ ends s /\ Forall (fun p => 0 <= p <= zlen (hist s)) (ends s);
  iv_len : buffValid s = true -> buffLen s = zlen (mem s) /\ 0 <= startIdx s <= zlen (hist s);
  iv_intr : forall ib, interruptBuff s = Some ib -> wf ib;
  iv_wire : exists o, wire_ok (negb (closed s)) (hist s) (ends s) (wire s) o /\ (running s = true -> o = position s);
  iv_valid : streaming s = true -> buffValid s = true;
  iv_noticed : pc s = Noticed -> endIdx s = zlen (hist s) \/ zlen (hist s) - startIdx s <= zlen (mem s);
  iv_room : streaming s = true -> pc s <> Noticed -> zlen (hist s) - startIdx s <= zlen (mem s);
  iv_section : forall a b, pc s = Section_ a b -> a = startIdx s mod zlen (mem s) /\ a < b <= zlen (mem s) /\ startIdx s + (b - a) <= zlen (hist s);
  iv_written : forall n, pc s = IntrWritten n -> 0 <= n /\ forall ib, interruptBuff s = Some ib -> n <= zlen (readable ib);
  iv_bound : between s = true -> closed s = false -> buffValid s = true -> startIdx s ∈ ends s;
  iv_open : closed s = false -> (buffValid s = true -> ptr s = true) /\ interruptBuff s <> None;
  iv_pc : pc s = Panicked -> closed s = true
}.

(** ** The wire *)

Lemma wire_ok_mono strict h e w o bs x : wire_ok strict h e w o -> wire_ok strict (h ++ bs) (x :: e) w o.
Proof.
  pose proof (zlen_nonneg bs).
  induction 1 as [|w o pos pre _ IH Hp Hin|w pos bs' _ IH Hp Hle Hbs|w o bs' _ IH Hin].
  - constructor.
  - apply wo_init with o; [done|done|by right].
  - apply wo_stream; [done|done|rewrite zlen_app; lia|]. by rewrite sub_app_l by (pose proof (zlen_nonneg bs'); lia).
  - apply wo_out; [done|]. intros. right. by apply Hin.
Qed.

Lemma wire_ok_loose strict h e w o : wire_ok strict h e w o -> wire_ok false h e w o.
Proof. induction 1; by econstructor. Qed.

(** ** Every action keeps the invariant *)

Lemma inv_produce s bs : inv s ->
  (streaming s = true -> zlen (hist s) + zlen bs - startIdx s <= zlen (mem s)) -> inv (on_produce s bs).
Proof.
  intros [Hring [Hend Hends] Hlen Hintr (o & Hwire & Ho) Hval Hnot Hroom Hsec Hwr Hbound Hopen Hpc] Hpace.
  pose proof (zlen_nonneg bs). split; unfold between, running, streaming, position in *; simpl in *; rewrite ?zlen_produce, ?zlen_app; try done.
  - by apply produce_holds.
  - split; [by left|]. constructor; [pose proof (zlen_nonneg (hist s)); lia|].
    eapply Forall_impl; [exact Hends|]. simpl. lia.
  - intros Hv. destruct (Hlen Hv). split; [done|lia].
  - exists o. split; [by apply wire_ok_mono|done].
  - intros E. right. rewrite E in Hpace. specialize (Hpace eq_refl). lia.
  - intros E _. specialize (Hpace E). lia.
  - intros a b E. destruct (Hsec a b E) as (? & ? & ?). split_and!; [done|lia|lia|lia].
  - intros. right. by apply Hbound.
Qed.

(** A message that is not part of the stream. *)
Lemma inv_out s bs x : inv s -> between s = true -> (x = pc s \/ x = Returned \/ exists n, x = IntrWritten n /\ 0 <= n /\ forall ib, interruptBuff s = Some ib -> n <= zlen (readable ib)) ->
  inv (set_pc (add_wire s (POut bs)) x).
Proof.
  intros [Hring Hends Hlen Hintr (o & Hwire & Ho) Hval Hnot Hroom Hsec Hwr Hbound Hopen Hpc] Hb Hx.
  assert (running s = true) as Hrun by (unfold between in Hb; by destruct (running s)).
  assert (streaming s = false) as Hst by (unfold between in Hb; destruct (streaming s); [by rewrite andb_false_r in Hb|done]).
  assert (wire_ok (negb (closed s)) (hist s) (ends s) (wire s ++ [POut bs]) (position s)) as Hw.
  { rewrite (Ho Hrun) in Hwire. apply wo_out; [done|]. intros Hs pos E. unfold position in E. destruct (buffValid s) eqn:Ev; [|done]. injection E as <-.
    apply Hbound; [done| |done]. by destruct (closed s). }
  destruct Hx as [->|[->|(n & -> & Hn)]]; split; unfold between, running, streaming, position in *; simpl; try done; eauto.
  intros n' [= <-]. done.
Qed.

Lemma inv_leave s x : inv s -> x = Returned \/ (x = Panicked /\ closed s = true) -> inv (set_pc s x).
Proof.
  intros [Hring Hends Hlen Hintr (o & Hwire & Ho) Hval Hnot Hroom Hsec Hwr Hbound Hopen Hpc] [->|[-> Hc]];
    split; unfold between, running, streaming, position in *; simpl; try done; eauto; by exists o.
Qed.

(** From one place outside of the streaming loop to another. *)
Lemma inv_move s x : inv s -> between s = true -> between (set_pc s x) = true -> (forall n, x <> IntrWritten n) -> inv (set_pc s x).
Proof.
  intros [Hring Hends Hlen Hintr (o & Hwire & Ho) Hval Hnot Hroom Hsec Hwr Hbound Hopen Hpc] Hb Hb' Hx.
  assert (running s = true) as Hrun by (unfold between in Hb; by destruct (running s)).
  split; try done; simpl.
  - exists o. split; [done|]. intros _. by apply Ho.
  - intros E. unfold between in Hb'. by rewrite E, andb_false_r in Hb'.
  - intros ->. done.
  - intros E. unfold between in Hb'. by rewrite E, andb_false_r in Hb'.
  - intros a b ->. done.
  - intros n ->. by destruct (Hx n).
  - intros _. by apply Hbound.
  - intros ->. done.
Qed.

Lemma inv_init_stream s pos pre : inv s -> pc s = Idle -> pos ∈ ends s -> inv (on_init s pos pre).
Proof.
  intros [Hring [Hend Hends] Hlen Hintr (o & Hwire & Ho) Hval Hnot Hroom Hsec Hwr Hbound Hopen Hpc] Hidle Hpos.
  assert (0 <= pos <= zlen (hist s)) by (by eapply Forall_forall in Hends).
  split; unfold between, running, streaming, position in *; simpl; rewrite ?Hidle in *; try done.
  - exists (Some pos). split; [|done]. eapply wo_init; [exact Hwire|lia|done].
  - intros Hc. split; [done|]. by apply Hopen.
Qed.

Lemma inv_intr_set s ib x : inv s -> wf ib -> between s = true -> between (set_pc s x) = true -> (forall n, x <> IntrWritten n) ->
  inv (set_pc (set_interruptBuff s (Some ib)) x).
Proof.
  intros Hi Hwf Hb Hb' Hx. pose proof (inv_move s x Hi Hb Hb' Hx) as [Hring Hends Hlen Hintr Hwire Hval Hnot Hroom Hsec Hwr Hbound Hopen Hpc].
  split; try done; simpl in *.
  - by intros ? [= <-].
  - intros n ->. by destruct (Hx n).
  - intros Hc. split; [|done]. by apply Hopen.
Qed.

Lemma inv_append s buff : inv s -> pc s = AppendTested buff -> inv (on_append s buff).
Proof.
  intros Hi Hpc. unfold on_append. destruct (interruptBuff s) as [ib|] eqn:E.
  - destruct (Append_spec ib buff (iv_intr _ Hi _ E)) as (ib' & -> & Hwf & _).
    apply inv_intr_set; [done|done| |done|done]. unfold between, running, streaming. by rewrite Hpc.
  - apply inv_leave; [done|]. right. split; [done|]. destruct (closed s) eqn:Hc; [done|]. by destruct (iv_open _ Hi Hc).
Qed.

Lemma inv_notice s : inv s -> pc s = Idle -> inv (on_notice s).
Proof.
  intros [Hring Hends Hlen Hintr (o & Hwire & Ho) Hval Hnot Hroom Hsec Hwr Hbound Hopen Hpc] Hidle. unfold on_notice.
  unfold between, running, streaming, position in *. rewrite Hidle in *.
  destruct (buffValid s) eqn:Hv; simpl; [|split; unfold between, running, streaming, position; simpl; rewrite ?Hidle, ?Hv; try done; eauto].
  destruct (ptr s) eqn:Hptr; simpl; split; unfold between, running, streaming, position; simpl; rewrite ?Hv, ?Hptr; try done; eauto.
Qed.

Lemma inv_length s : inv s -> pc s = Noticed -> inv (on_length s).
Proof.
  intros Hi Hpc. unfold on_length. destruct (ptr s) eqn:Hptr; simpl.
  2: { apply inv_leave; [done|]. right. split; [done|]. destruct (closed s) eqn:Hc; [done|].
       destruct (iv_open _ Hi Hc) as [Hp _]. rewrite Hptr in Hp. discriminate Hp. apply (iv_valid _ Hi). unfold streaming. by rewrite Hpc. }
  case_test; [by apply inv_leave; auto|].
  destruct Hi as [Hring Hends Hlen Hintr (o & Hwire & Ho) Hval Hnot Hroom Hsec Hwr Hbound Hopen Hpc'].
  unfold between, running, streaming, position in *. rewrite Hpc in *.
  split; unfold between, running, streaming, position; simpl; try done; eauto. intros _ _. destruct (Hnot eq_refl); lia.
Qed.

(** The section of the ring that is written next. *)
Lemma section_next s : inv s -> pc s = Streaming -> ptr s = true -> startIdx s <> zlen (hist s) ->
  exists a b, getBuffSection (set_endIdx s (GetEndIdx s)) = (a, b) /\ a = startIdx s mod zlen (mem s) /\ a < b <= zlen (mem s) /\
    startIdx s + (b - a) <= zlen (hist s) /\
    (startIdx s mod zlen (mem s) = 0 -> startIdx s + (b - a) = zlen (hist s)) /\
    (startIdx s + (b - a) = zlen (hist s) \/ (startIdx s + (b - a)) mod zlen (mem s) = 0).
Proof.
  intros Hi Hpc Hptr Hne. assert (streaming s = true) as Hst by (unfold streaming; by rewrite Hpc).
  pose proof (iv_room _ Hi Hst ltac:(by rewrite Hpc)) as Hroom. pose proof (iv_valid _ Hi Hst) as Hv.
  destruct (iv_len _ Hi Hv) as [Hlen Hs]. pose proof (iv_ring _ Hi) as [HL _].
  pose proof (section_arith (zlen (mem s)) (startIdx s) (zlen (hist s)) HL ltac:(lia) Hroom) as Hsec. cbv zeta in Hsec.
  unfold getBuffSection, GetEndIdx. simpl. rewrite Hptr, Hlen. simpl.
  rewrite !Z.rem_mod_nonneg by (pose proof (zlen_nonneg (hist s)); lia).
  destruct (_ <? _); eexists _, _; (split; [done|]); split_and!; try done; try lia.
Qed.

Lemma inv_stream s : inv s -> pc s = Streaming -> inv (stream_step s).
Proof.
  intros Hi Hpc. unfold stream_step. simpl. unfold GetEndIdx at 1.
  destruct (Z.eqb_spec (startIdx s) (zlen (hist s))) as [He|He].
  { destruct Hi as [Hring [Hend Hends] Hlen Hintr (o & Hwire & Ho) Hval Hnot Hroom Hsec Hwr Hbound Hopen Hpc'].
    unfold between, running, streaming, position in *. rewrite Hpc in *.
    split; unfold between, running, streaming, position; simpl; try done; eauto. intros _ _ _. by rewrite He. }
  destruct (ptr s) eqn:Hptr.
  - destruct (section_next s Hi Hpc Hptr He) as (a & b & -> & Ha & Hab & Hle & _). simpl.
    destruct Hi as [Hring Hends Hlen Hintr (o & Hwire & Ho) Hval Hnot Hroom Hsec Hwr Hbound Hopen Hpc'].
    unfold between, running, streaming, position in *. rewrite Hpc in *.
    split; unfold between, running, streaming, position; simpl; try done; eauto.
    by intros ? ? [= <- <-].
  - unfold getBuffSection. simpl. rewrite Hptr. simpl.
    assert (closed s = true) as Hc.
    { destruct (closed s) eqn:Hc; [done|]. destruct (iv_open _ Hi Hc) as [Hp _]. rewrite Hptr in Hp. discriminate Hp.
      apply (iv_valid _ Hi). unfold streaming. by rewrite Hpc. }
    destruct Hi as [Hring Hends Hlen Hintr (o & Hwire & Ho) Hval Hnot Hroom Hsec Hwr Hbound Hopen Hpc'].
    unfold between, running, streaming, position in *. rewrite Hpc, Hc in *.
    split; unfold between, running, streaming, position; simpl; rewrite ?Hc; try done; eauto.
Qed.

(** The bytes of the section, and the invariant after a write of [n] of them. *)
Lemma section_bytes s a b : inv s -> pc s = Section_ a b -> slice (mem s) a b = Ret (sub (hist s) (startIdx s) (startIdx s + (b - a))).
Proof.
  intros Hi Hpc. destruct (iv_section _ Hi a b Hpc) as (Ha & Hb & Hle). assert (streaming s = true) as Hst by (unfold streaming; by rewrite Hpc).
  destruct (iv_len _ Hi (iv_valid _ Hi Hst)) as [_ Hs]. pose proof (iv_room _ Hi Hst ltac:(by rewrite Hpc)).
  pose proof (section_at (mem s) (hist s) (startIdx s) (b - a) (iv_ring _ Hi)) as E. rewrite <- Ha in E.
  replace (a + (b - a)) with b in E by lia. apply E; lia.
Qed.

Lemma inv_stream_write s a b n ok s' : inv s -> pc s = Section_ a b -> stream_write s a b n ok = Some s' -> inv s'.
Proof.
  intros Hi Hpc. unfold stream_write. assert (streaming s = true) as Hst by (unfold streaming; by rewrite Hpc).
  destruct (ptr s) eqn:Hptr; simpl.
  2: { intros [= <-]. apply inv_leave; [done|]. right. split; [done|]. destruct (closed s) eqn:Hc; [done|].
       destruct (iv_open _ Hi Hc) as [Hp _]. rewrite Hptr in Hp. discriminate Hp. by apply (iv_valid _ Hi). }
  rewrite (section_bytes s a b Hi Hpc). destruct (iv_section _ Hi a b Hpc) as (Ha & Hb & Hle).
  pose proof (iv_valid _ Hi Hst) as Hv. destruct (iv_len _ Hi Hv) as [Hlen Hs].
  set (out := sub _ _ _). assert (zlen out = b - a) as Hz by (unfold out; rewrite zlen_sub; lia).
  assert (0 <= n <= b - a -> wire_ok (negb (closed s)) (hist s) (ends s) (wire s ++ [PStream (take (Z.to_nat n) out)]) (Some (startIdx s + n))) as Hw.
  { intros Hn. destruct (iv_wire _ Hi) as (o & Hwire & Ho). rewrite Ho in Hwire by (unfold running; by rewrite Hpc). unfold position in Hwire. rewrite Hv in Hwire.
    assert (take (Z.to_nat n) out = sub (hist s) (startIdx s) (startIdx s + n)) as -> by (apply take_sub; lia).
    assert (zlen (sub (hist s) (startIdx s) (startIdx s + n)) = n) as Hzn by (rewrite zlen_sub; lia).
    replace (Some (startIdx s + n)) with (Some (startIdx s + zlen (sub (hist s) (startIdx s) (startIdx s + n)))) by (by rewrite Hzn). apply wo_stream; [done|lia|rewrite Hzn; lia|by rewrite Hzn]. }
  destruct Hi as [Hring Hends Hlen' Hintr _ Hval Hnot Hroom Hsec Hwr Hbound Hopen Hpc'].
  pose proof (Hroom Hst ltac:(by rewrite Hpc)) as Hr.
  destruct ok; [destruct (write_ok s out n) eqn:E|destruct (write_err s out n) eqn:E]; intros H; try done; injection H as <-;
    unfold write_ok, write_err in E; rewrite !andb_true_iff in E; destruct E as [[_ En0] En]; rewrite Hz in En;
    split; unfold between, running, streaming, position; simpl; rewrite ?Hv; try done; eauto; try (by intros; lia).
  all: first [eexists; split; [by apply Hw; lia|done] | intros Hc; split; [by rewrite Hptr|by apply Hopen]].
Qed.

(** The write of the interrupting messages, all at once. *)
Lemma inv_flush_write s n ok s' : inv s -> pc s = IntrReady -> flush_write s n ok = Some s' -> inv s'.
Proof.
  intros Hi Hpc. unfold flush_write. assert (between s = true) as Hb by (unfold between, running, streaming; by rewrite Hpc).
  destruct (interruptBuff s) as [ib|] eqn:E.
  2: { intros [= <-]. apply inv_leave; [done|]. right. split; [done|]. destruct (closed s) eqn:Hc; [done|]. by destruct (iv_open _ Hi Hc). }
  pose proof (iv_intr _ Hi _ E) as Hwf. destruct (RdBuf_spec ib Hwf) as (rest & Hrd & _). rewrite Hrd. cbn [go_bind].
  rewrite (RdSize_readable ib Hwf). pose proof (zlen_nonneg (readable ib)). pose proof (zlen_nonneg rest).
  rewrite slice_ok, sub_app_l, sub_full by (rewrite ?zlen_app; lia || done).
  destruct ok; [destruct (write_ok s (readable ib) n) eqn:Hw|destruct (write_err s (readable ib) n) eqn:Hw]; intros H'; try done; injection H' as <-.
  - unfold write_ok in Hw. rewrite !andb_true_iff in Hw. destruct Hw as [[_ Hn0] Hn].
    apply inv_out; [done|done|]. right. right. exists n. split; [done|]. split; [lia|]. intros ib' E'. rewrite E in E'. injection E' as <-. lia.
  - apply inv_out; auto.
Qed.

Lemma inv_flip s n : inv s -> pc s = IntrWritten n -> inv (flush_flip s n).
Proof.
  intros Hi Hpc. unfold flush_flip. destruct (iv_written _ Hi n Hpc) as [Hn Hle]. destruct (interruptBuff s) as [ib|] eqn:E.
  - apply inv_intr_set; [done|apply RdFlip_spec; [by apply (iv_intr _ Hi)|specialize (Hle ib eq_refl); lia]| |done|done].
    unfold between, running, streaming. by rewrite Hpc.
  - apply inv_leave; [done|]. right. split; [done|]. destruct (closed s) eqn:Hc; [done|]. by destruct (iv_open _ Hi Hc).
Qed.

Lemma inv_flush s : inv s -> pc s = Interrupting -> inv (flush_test s).
Proof.
  intros Hi Hpc. unfold flush_test. destruct (interruptBuff s); apply inv_move; try done; unfold between, running, streaming; by rewrite Hpc.
Qed.

Lemma inv_ready s : inv s -> pc s = IntrTested -> inv (flush_ready s).
Proof.
  intros Hi Hpc. unfold flush_ready. destruct (interruptBuff s) as [ib|] eqn:E.
  - destruct (RdReady ib); apply inv_move; try done; unfold between, running, streaming; by rewrite Hpc.
  - apply inv_leave; [done|]. right. split; [done|]. destruct (closed s) eqn:Hc; [done|]. by destruct (iv_open _ Hi Hc).
Qed.

Lemma inv_close s : inv s -> inv (close_ptr s) /\ (closed s = true -> inv (close_intr s)) /\ (closed s = true -> inv (close_conn s)).
Proof.
  intros [Hring Hends Hlen Hintr (o & Hwire & Ho) Hval Hnot Hroom Hsec Hwr Hbound Hopen Hpc].
  split; [|split]; [|intros Hc..]; split; unfold between, running, streaming, position in *; simpl; rewrite ?Hc in *; try done; eauto.
  - exists o. split; [by eapply wire_ok_loose|done].
  - intros n E. split; [by apply (Hwr n)|done].
Qed.

Lemma inv_exec s a s' : inv s -> exec true s a = Some s' -> inv s'.
Proof.
  intros Hi. assert (pc s = Idle -> between s = true) as Hidle by (intros E; unfold between, running, streaming; by rewrite E).
  destruct (inv_close s Hi) as (Hc1 & Hc2 & Hc3).
  destruct a as [bs|pos pre|buff|buff| | | | |n|n| | |n|n| |buff n| | | |]; cbn [exec].
  1: { destruct (true && streaming s && _) eqn:E; [done|]. intros [= <-]. apply inv_produce; [done|]. intros Hst. rewrite Hst in E. simpl in E. lia. }
  17: { destruct (closed s); [done|]. by intros [= <-]. }
  17: { destruct (closed s); [|done]. intros [= <-]. auto. }
  17: { destruct (interruptBuff s) eqn:E; [done|]. intros [= <-]. apply Hc3. destruct (closed s) eqn:Hc; [done|]. by destruct (iv_open _ Hi Hc). }
  all: destruct (pc s) eqn:Hpc; try done.
  - destruct (_ && bool_decide (pos ∈ _)) eqn:Hb; [|done]. apply andb_true_iff in Hb as [_ Hb].
    apply bool_decide_eq_true in Hb. intros [= <-]. by apply inv_init_stream.
  - case_test; [by intros [= <-]|]. destruct (connOpen s); [|done]. intros [= <-].
    pose proof (inv_out s buff Idle Hi (Hidle eq_refl)) as H. unfold set_pc in H. simpl in H. unfold add_wire. rewrite Hpc. apply H. left. done.
  - intros [= <-]. unfold on_interrupt. destruct (interruptBuff s); [|done]. by apply inv_move; auto.
  - intros [= <-]. by apply inv_append.
  - intros [= <-]. by apply inv_notice.
  - intros [= <-]. by apply inv_length.
  - intros [= <-]. by apply inv_stream.
  - by apply inv_stream_write.
  - by apply inv_stream_write.
  - intros [= <-]. by apply inv_flush.
  - intros [= <-]. by apply inv_ready.
  - by apply inv_flush_write.
  - by apply inv_flush_write.
  - intros [= <-]. by apply inv_flip.
  - destruct (write_err s buff n); [|done]. intros [= <-]. apply inv_out; auto.
  - intros [= <-]. apply inv_leave; auto.
Qed.

Lemma inv_exec_all acts : forall s s', inv s -> exec_all true s acts = Some s' -> inv s'.
Proof.
  induction acts as [|a acts IH]; intros s s' Hi; simpl; [by intros [= <-]|].
  destruct (exec true s a) as [s1|] eqn:E; simpl; [|done]. apply IH. by eapply inv_exec.
Qed.

Lemma inv_pool_init m : 0 < zlen m -> inv (pool_init m).
Proof.
  intros Hm. split; simpl; try done.
  - split; [done|]. intros i. change (zlen (@nil Z)) with 0. lia.
  - split; [by left|]. by apply Forall_singleton.
  - intros ib [= <-]. apply wf_new.
  - exists None. split; [constructor|done].
Qed.

(** C10: the pool send loop streams the ring faithfully.  In every interleaving
    of the owner filling the ring, stream set-ups, immediate and interrupting
    messages, partial and failed writes and the steps of [Close] in which the
    owner does not lap a loop that is streaming: each stream on the wire starts
    at its set-up position and continues with the owner's bytes without gap,
    repetition or corruption although the ring wraps.  Until [Close] is called
    every other message stands at the end of a message of the stream, never
    inside one, and the loop does not panic. *)
Theorem pool_stream_faithful (m : list Z) (acts : list action) (s : pool)
    (Hm : 0 < zlen m) (Hrun : exec_all true (pool_init m) acts = Some s) :
  (exists o, wire_ok (negb (closed s)) (hist s) (ends s) (wire s) o /\ (running s = true -> o = position s)) /\
  (pc s = Panicked -> closed s = true).
Proof. destruct (inv_exec_all acts _ s (inv_pool_init m Hm) Hrun). done. Qed.

(** A run over a ring of 4 bytes that wraps, with an immediate message between
    two messages of the stream and an interrupting one after them. *)
Definition wrap_run : list action :=
  [AInit 0 [9]; AProduce [1; 2; 3]; ANotice; ALength; ASection; AStream 2; ASection; AStream 1; ASection; AFlush; AReady;
   AImmediate [7]; AProduce [4; 5]; AInterrupt [8]; AAppend; ANotice; ALength; ASection; AStream 1; ASection; AStream 1; ASection;
   AFlush; AReady; AFlushWrite 1; AFlip; AFlush; AReady].

Definition pool_final (paced : bool) (acts : list action) : pool :=
  default (pool_init [0; 0; 0; 0]) (exec_all paced (pool_init [0; 0; 0; 0]) acts).

Lemma pool_stream_faithful_witness :
  let s := pool_final true wrap_run in
  wire s = [PInit 0 [9]; PStream [1; 2]; PStream [3]; POut [7]; PStream [4]; PStream [5]; POut [8]] /\
  exists o, wire_ok true (hist s) (ends s) (wire s) o.
Proof.
  intros s. split; [vm_compute; reflexivity|].
  destruct (pool_stream_faithful [0; 0; 0; 0] wrap_run s) as [(o & H & _) _].
  - reflexivity.
  - vm_compute. reflexivity.
  - exists o. exact H.
Defined.

(** [Close] between a test for nil and the use behind it makes the loop panic
    (the panic is recovered, and the loop has ended). *)
Example close_panics :
  pc (pool_final true [AInit 0 []; AProduce [1]; ANotice; ALength; ASection; AClosePtr; AStream 1]) = Panicked.
Proof. done. Qed.

(** Between the two assignments of [Close] an interrupting message gets into the
    middle of a message of the stream. *)
Example close_interrupts :
  let s := pool_final true [AInit 0 []; AProduce [1; 2]; AInterrupt [8]; AAppend; ANotice; ALength; ASection; AStream 1;
                            AClosePtr; ASection; AFlush; AReady; AFlushWrite 1] in
  wire s = [PInit 0 []; PStream [1]; POut [8]] /\ ends s = [2; 0].
Proof. vm_compute. done. Qed.

(** A full write of a section: the end of the stream is reached, or the end of
    the ring. *)
Lemma stream_full s : inv s -> pc s = Streaming -> closed s = false -> connOpen s = true -> startIdx s <> zlen (hist s) ->
  exists n s1, exec_all true s [ASection; AStream n] = Some s1 /\ inv s1 /\ pc s1 = Streaming /\ closed s1 = false /\ connOpen s1 = true /\
    hist s1 = hist s /\ mem s1 = mem s /\
    (startIdx s mod zlen (mem s) = 0 -> startIdx s1 = zlen (hist s)) /\
    (startIdx s1 = zlen (hist s) \/ startIdx s1 mod zlen (mem s) = 0).
Proof.
  intros Hi Hpc Hc Ho Hne. pose proof (iv_valid _ Hi ltac:(unfold streaming; by rewrite Hpc)) as Hv. destruct (iv_open _ Hi Hc) as [Hptr _]. specialize (Hptr Hv).
  destruct (section_next s Hi Hpc Hptr Hne) as (a & b & Hsec & Ha & Hab & Hle & Hz & Hend).
  assert (stream_step s = set_pc (set_endIdx s (GetEndIdx s)) (Section_ a b)) as Hst.
  { unfold stream_step. simpl. unfold GetEndIdx at 1. rewrite (proj2 (Z.eqb_neq _ _) Hne), Hsec, Hptr. done. }
  pose proof (inv_stream s Hi Hpc) as Hi1. rewrite Hst in Hi1. pose proof (section_bytes _ a b Hi1 eq_refl) as Hsl. simpl in Hsl.
  pose proof (iv_len _ Hi Hv) as [_ Hs].
  exists (b - a). eexists. split.
  { cbn [exec_all exec]. rewrite Hpc. cbn [mbind option_bind]. rewrite Hst. cbn [exec pc set_pc]. unfold stream_write. simpl. rewrite Hptr, Hsl. simpl.
    unfold write_ok. simpl. rewrite zlen_sub, Ho by lia.
    by rewrite (proj2 (Z.leb_le 0 (b - a))), (proj2 (Z.leb_le (b - a) _)) by lia. }
  split; [|simpl; done].
  eapply (inv_stream_write _ a b (b - a) true); [exact Hi1|done|]. unfold stream_write. simpl. rewrite Hptr, Hsl. simpl.
  unfold write_ok. simpl. rewrite zlen_sub, Ho by lia. by rewrite (proj2 (Z.leb_le 0 (b - a))), (proj2 (Z.leb_le (b - a) _)) by lia.
Qed.

Lemma stream_end s : pc s = Streaming -> startIdx s = zlen (hist s) ->
  exec true s ASection = Some (set_pc (set_endIdx s (GetEndIdx s)) Interrupting).
Proof. intros Hpc Hs. simpl. rewrite Hpc. unfold stream_step, GetEndIdx. simpl. by rewrite Hs, Z.eqb_refl. Qed.

Lemma exec_all_app acts1 acts2 : forall s, exec_all true s (acts1 ++ acts2) = exec_all true s acts1 ≫= fun s => exec_all true s acts2.
Proof. induction acts1 as [|a acts1 IH]; intros s; simpl; [done|]. destruct (exec true s a); simpl; [apply IH|done]. Qed.

(** A notification flushes the ring in at most two full writes.  From any
    state a paced run reaches at the top of the streaming loop with an open
    connection, writing each section completely brings the loop to
    [startIdx = GetEndIdx] and out of the inner loop. *)
Theorem pool_stream_flushes (m : list Z) (acts : list action) (s : pool)
    (Hm : 0 < zlen m) (Hrun : exec_all true (pool_init m) acts = Some s)
    (Hpc : pc s = Streaming) (Hclosed : closed s = false) (Hopen : connOpen s = true) :
  exists sizes s', (length sizes <= 2)%nat /\
    exec_all true s (concat (map (fun n => [ASection; AStream n]) sizes) ++ [ASection]) = Some s' /\
    pc s' = Interrupting /\ startIdx s' = GetEndIdx s' /\ hist s' = hist s.
Proof.
  pose proof (inv_exec_all acts _ s (inv_pool_init m Hm) Hrun) as Hi. clear Hrun acts Hm m.
  destruct (decide (startIdx s = zlen (hist s))) as [He|He].
  { exists []. eexists. split; [simpl; lia|]. cbn [app map concat exec_all]. rewrite stream_end by done. done. }
  destruct (stream_full s Hi Hpc Hclosed Hopen He) as (n1 & s1 & Hst1 & Hi1 & Hpc1 & Hc1 & Ho1 & Hh1 & Hm1 & _ & Hd).
  destruct (decide (startIdx s1 = zlen (hist s))) as [He1|He1].
  { exists [n1]. eexists. split; [simpl; lia|]. cbn [map concat]. rewrite app_nil_r, exec_all_app, Hst1. cbn [mbind option_bind exec_all].
    rewrite stream_end by congruence. simpl. unfold GetEndIdx. split; [done|]. simpl. split_and!; congruence. }
  destruct Hd as [|Hz]; [done|].
  destruct (stream_full s1 Hi1 Hpc1 Hc1 Ho1 ltac:(congruence)) as (n2 & s2 & Hst2 & _ & Hpc2 & _ & _ & Hh2 & _ & Hend & _).
  rewrite Hm1, Hh1 in Hend. specialize (Hend Hz).
  exists [n1; n2]. eexists. split; [simpl; lia|]. cbn [map concat]. rewrite app_nil_r, <- app_assoc, exec_all_app, Hst1. cbn [mbind option_bind].
  rewrite exec_all_app, Hst2. cbn [mbind option_bind exec_all].
  rewrite stream_end by congruence. simpl. unfold GetEndIdx. split; [done|]. simpl. split_and!; congruence.
Qed.

Lemma pool_stream_flushes_witness :
  let s := pool_final true (take 17 wrap_run) in
  exists sizes s', (length sizes <= 2)%nat /\
    exec_all true s (concat (map (fun n => [ASection; AStream n]) sizes) ++ [ASection]) = Some s' /\
    pc s' = Interrupting /\ startIdx s' = GetEndIdx s' /\ hist s' = hist s.
Proof.
  intros s. apply (pool_stream_flushes [0; 0; 0; 0] (take 17 wrap_run) s); vm_compute; reflexivity.
Defined.

(** The check for an overrun is made once per notification.  If the owner
    gets more than the ring's size ahead while the loop is in its inner loop,
    the loop does not notice and sends bytes of another part of the stream:
    here the ring has 4 bytes, the stream is 1 to 6, and after 1 the loop sends
    6 at stream position 1. *)
Theorem pool_overrun_undetected :
  let s := pool_final false
    [AInit 0 []; AProduce [1; 2]; ANotice; ALength; ASection; AStream 1; AProduce [3; 4; 5; 6]; ASection; AStream 1] in
  hist s = [1; 2; 3; 4; 5; 6] /\ wire s = [PInit 0 []; PStream [1]; PStream [6]] /\ pc s = Streaming.
Proof. vm_compute. done. Qed.
