(* ===== verification/Msgbuff.v ===== *)
(** * gonet/msgbuff.go: ring-buffered message pools

    A [msgPool] keeps framed messages (3-byte length, flag, body) in a ring
    with 64-bit stream indices, once for sending ([addSendMsg],
    [getSendMsgBuff], [addSendIndex]) and once for receiving ([getRecvBuff],
    [addRecvIndex], [getRecvMsg]).  [msgPoolMgr] recycles pools.

    The abstraction is the stream of all bytes put into the ring: [stream p
    hist c] says that [hist] was put in and its first [c] bytes taken out. *)

From S2P Require Import Prelude Circular Bytebuffer Netio Framing.

Definition default_poollen : Z := 1024 * 1024.

Record msgPool := mkMsgPool {
  poolLen : Z;
  pool : list Z;
  start : Z;
  end_ : Z;
  tmpPool : list Z;
  index : Z;
  flag : Z;
  msgLen : Z
}.

Definition with_pool (p : msgPool) (m : list Z) (i : Z) : msgPool :=
  mkMsgPool (poolLen p) m (start p) (end_ p) (tmpPool p) i (flag p) (msgLen p).
Definition with_end (p : msgPool) (e : Z) : msgPool :=
  mkMsgPool (poolLen p) (pool p) (start p) e (tmpPool p) (index p) (flag p) (msgLen p).
Definition with_msgLen (p : msgPool) (n : Z) : msgPool :=
  mkMsgPool (poolLen p) (pool p) (start p) (end_ p) (tmpPool p) (index p) (flag p) n.

(** The [New] function of the pool manager. *)
Definition new_msgPool : msgPool :=
  mkMsgPool default_poollen (zeros default_poollen) 0 0 (zeros cmd_max_size) 0 0 0.

Definition reset (p : msgPool) : msgPool := mkMsgPool (poolLen p) (pool p) 0 0 (tmpPool p) 0 0 0.

(** ** Recycling *)

(** The pools that [sync.Pool] holds. *)
Record msgPoolMgr := mkMsgPoolMgr { mgr_poolLen : Z; poolMgr : list msgPool }.

Definition new_msgPoolMgr : msgPoolMgr := mkMsgPoolMgr default_poollen [].

(** [sync.Pool.Get] returns one of the pools it holds, or makes a new one:
    [pick] is its choice. *)
Definition getMsgPool (m : msgPoolMgr) (pick : option nat) : msgPoolMgr * msgPool :=
  match pick ≫= fun i => (i,.) <$> poolMgr m !! i with
  | Some (i, p) => (mkMsgPoolMgr (mgr_poolLen m) (delete i (poolMgr m)), p)
  | None => (m, new_msgPool)
  end.

Definition releaseMsgPool (m : msgPoolMgr) (p : option msgPool) : msgPoolMgr :=
  match p with
  | None => m
  | Some p =>
      if negb (poolLen p =? mgr_poolLen m) then m
      else mkMsgPoolMgr (mgr_poolLen m) (reset p :: poolMgr m)
  end.

(** ** Sending *)

Definition addSendIndex (p : msgPool) (sendLen : Z) : msgPool :=
  mkMsgPool (poolLen p) (pool p) (u64 (start p + u64 sendLen)) (end_ p) (tmpPool p) (index p)
    (flag p) (msgLen p).

Definition getSendMsgBuff (p : msgPool) : go (list Z * bool) :=
  if start p =? end_ p then Ret ([], false)
  else if poolLen p <? u64 (end_ p - start p) then Ret ([], true)
  else
    let sIndex := start p mod poolLen p in
    let eIndex := end_ p mod poolLen p in
    if eIndex <? sIndex then let! b := slice (pool p) sIndex (zlen (pool p)) in Ret (b, false)
    else let! b := slice (pool p) sIndex eIndex in Ret (b, false).

(** The four assignments of a header at the given places of the ring. *)
Definition set4 (m : list Z) (i0 i1 i2 i3 buffLen flag : Z) : go (list Z) :=
  let! m := zset m i0 (u8 buffLen) in
  let! m := zset m i1 (u8 (Z.shiftr buffLen 8)) in
  let! m := zset m i2 (u8 (Z.shiftr buffLen 16)) in
  zset m i3 flag.

(** The header, in one piece or around the end of the ring, and the index
    after it. *)
Definition put_header (p : msgPool) (buffLen flag : Z) : go msgPool :=
  let L := poolLen p in
  let index := end_ p mod L in
  if index <=? L - 4 then
    let! m := set4 (pool p) index (index + 1) (index + 2) (index + 3) buffLen flag in
    Ret (with_pool p m (if index + 4 =? L then 0 else index + 4))
  else if index + 1 =? L then
    let! m := set4 (pool p) (L - 1) 0 1 2 buffLen flag in Ret (with_pool p m 3)
  else if index + 2 =? L then
    let! m := set4 (pool p) (L - 2) (L - 1) 0 1 buffLen flag in Ret (with_pool p m 2)
  else if index + 3 =? L then
    let! m := set4 (pool p) (L - 3) (L - 2) (L - 1) 0 buffLen flag in Ret (with_pool p m 1)
  else Ret (with_pool p (pool p) index).

(** The body, in one copy or in two. *)
Definition put_body (p : msgPool) (buffer : list Z) : go msgPool :=
  let room := poolLen p - index p in
  if room <? zlen buffer then
    let! a := slice buffer 0 room in
    let! m := copy_to (pool p) (index p) a in
    let! b := slice buffer room (zlen buffer) in
    let! m := copy_to m 0 b in
    Ret (with_pool p m (index p))
  else
    let! m := copy_to (pool p) (index p) buffer in
    Ret (with_pool p m (index p)).

Definition addSendMsg (p : msgPool) (buffer : list Z) (flag : Z) : go (msgPool * bool) :=
  let buffLen := zlen buffer in
  if cmd_max_size <? buffLen then Ret (p, false)
  else
    let! p := put_header p buffLen flag in
    let! p := put_body p buffer in
    Ret (with_end p (u64 (end_ p + u64 (buffLen + 4))), true).

(** ** Receiving *)

Definition read_len (p : msgPool) (i0 i1 i2 : Z) : go Z :=
  let! b0 := zget (pool p) i0 in
  let! b1 := zget (pool p) i1 in
  let! b2 := zget (pool p) i2 in
  Ret (Z.lor (Z.lor b0 (Z.shiftl b1 8)) (Z.shiftl b2 16)).

(** Where to read into (the slice from that index to the end of the ring,
    [None] for nil) and how many bytes at least. *)
Definition getRecvBuff (p : msgPool) : go (msgPool * option Z * Z) :=
  let L := poolLen p in
  if end_ p =? 0 then Ret (p, Some 0, cmd_header_size)
  else
    let! (p, refused) :=
      (if (msgLen p =? 0) && (cmd_header_size <=? u64 (end_ p - start p)) then
         let! n := read_len p (start p mod L) (u64 (start p + 1) mod L) (u64 (start p + 2) mod L) in
         Ret (with_msgLen p n, cmd_max_size <? n)
       else Ret (p, false)) in
    if refused then Ret (p, None, 0)
    else if negb (msgLen p =? 0) && (u64 (msgLen p + cmd_header_size) <=? u64 (end_ p - start p))
    then Ret (p, None, 0)
    else
      let n := u64 (msgLen p + cmd_header_size) in
      let sIndex := start p mod L in
      let eIndex := end_ p mod L in
      let leftLen := u64 (u64 (n - end_ p) + start p) in
      if u64 (sIndex + n) <=? L then Ret (p, Some eIndex, leftLen)
      else if L <=? u64 (eIndex + leftLen) then Ret (p, Some eIndex, L - eIndex)
      else Ret (p, Some eIndex, leftLen).

(** A message was taken out: [start] moves behind it and [msgLen] is reset. *)
Definition taken (p : msgPool) (tmp : list Z) (fl : Z) : msgPool :=
  mkMsgPool (poolLen p) (pool p) (u64 (start p + u64 (msgLen p + cmd_header_size))) (end_ p) tmp
    (index p) fl 0.

Definition getRecvMsg (p : msgPool) : go (msgPool * list Z * Z) :=
  let L := poolLen p in
  if (u64 (end_ p - start p) <? u64 (msgLen p + cmd_header_size)) || (end_ p <? start p)
  then Ret (p, [], 0)
  else if (msgLen p =? 0) && (end_ p <? u64 (start p + cmd_header_size)) then Ret (p, [], 0)
  else if msgLen p =? 0 then Ret (p, [], 0)
  else if cmd_max_size <? msgLen p then Ret (p, [], 0)
  else
    let startIndex := start p mod L in
    let endIndex := u64 (u64 (start p + msgLen p) + cmd_header_size) mod L in
    if endIndex <? startIndex + cmd_header_size then
      if startIndex + cmd_header_size <=? L then
        let! fl := zget (pool p) (startIndex + cmd_header_size - 1) in
        let! a := slice (pool p) (startIndex + cmd_header_size) (zlen (pool p)) in
        let! tmp := copy_to (tmpPool p) 0 a in
        let! b := slice (pool p) 0 (msgLen p - (L - startIndex - cmd_header_size)) in
        let! tmp := copy_to tmp (L - startIndex - cmd_header_size) b in
        let p := taken p tmp fl in
        let! msg := slice (tmpPool p) 0 (msgLen p) in
        Ret (p, msg, fl)
      else
        let! fl := zget (pool p) (cmd_header_size - (L - startIndex) - 1) in
        let p := taken p (tmpPool p) fl in
        let! msg := slice (pool p) (cmd_header_size - (L - startIndex)) endIndex in
        Ret (p, msg, fl)
    else
      let p := taken p (tmpPool p) (flag p) in
      let! msg := slice (pool p) (startIndex + cmd_header_size) endIndex in
      let! fl := zget (pool p) (startIndex + cmd_header_size - 1) in
      Ret (p, msg, fl).

Definition addRecvIndex (p : msgPool) (num : Z) : go (msgPool * bool) :=
  let p := with_end p (u64 (end_ p + u64 num)) in
  if poolLen p <? u64 (end_ p - start p) then Ret (p, false)
  else
    let! (p, bad) :=
      (if start p =? 0 then
         if end_ p <? cmd_header_size then Ret (p, true)
         else let! n := read_len p 0 1 2 in Ret (with_msgLen p n, false)
       else Ret (p, false)) in
    if bad then Ret (p, false)
    else if cmd_max_size <? msgLen p then Ret (p, false)
    else Ret (p, true).

(** ** The stream in the ring *)

(** The ring size is a power of two, as [default_poollen] is, and at least a
    header long. *)
Record stream (p : msgPool) (hist : list Z) (c : Z) : Prop := mkStream {
  st_len : zlen (pool p) = poolLen p;
  st_size : exists k, 2 <= k < 63 /\ poolLen p = 2 ^ k;
  st_ring : ring_holds (pool p) hist;
  st_c : 0 <= c <= zlen hist;
  st_room : zlen hist - c <= poolLen p;
  st_start : start p = u64 c;
  st_end : end_ p = u64 (zlen hist)
}.

Lemma u64_mod_pow2 k z : 0 <= k <= 64 -> u64 z mod 2 ^ k = z mod 2 ^ k.
Proof. intros. by apply wrap_mod_pow2. Qed.

Lemma u64_diff a b : 0 <= a - b < 2 ^ 64 -> u64 (u64 a - u64 b) = a - b.
Proof.
  intros. unfold wrap. rewrite <- Zminus_mod. by apply Z.mod_small.
Qed.

Lemma u64_add a b : u64 (u64 a + b) = u64 (a + b).
Proof. unfold wrap. apply Zplus_mod_idemp_l. Qed.

Lemma mod_add_small E k L : 0 < L -> 0 <= k <= L ->
  (E + k) mod L = if E mod L + k <? L then E mod L + k else E mod L + k - L.
Proof.
  intros HL Hk. pose proof (Z.mod_pos_bound E L HL). rewrite <- Z.add_mod_idemp_l by lia. case_test.
  - apply Z.mod_small. lia.
  - rewrite <- (Z.mod_small (E mod L + k - L) L) by lia. rewrite <- (Z_mod_plus_full _ (-1) L). f_equal; lia.
Qed.

Section Size.
Context (p : msgPool) (hist : list Z) (c : Z) (Hst : stream p hist c).

Lemma size_bounds : 4 <= poolLen p < 2 ^ 63.
Proof.
  destruct (st_size _ _ _ Hst) as (k & Hk & ->). split.
  - change 4 with (2 ^ 2). apply Z.pow_le_mono_r; lia.
  - apply Z.pow_lt_mono_r; lia.
Qed.

Lemma u64_mod_size z : u64 z mod poolLen p = z mod poolLen p.
Proof. destruct (st_size _ _ _ Hst) as (k & Hk & ->). apply u64_mod_pow2. lia. Qed.

Lemma used_u64 : u64 (end_ p - start p) = zlen hist - c.
Proof.
  rewrite (st_start _ _ _ Hst), (st_end _ _ _ Hst). apply u64_diff.
  pose proof size_bounds. pose proof (st_c _ _ _ Hst). pose proof (st_room _ _ _ Hst). lia.
Qed.
End Size.

(** ** Sending *)

Lemma set4_produce m E buffLen fl i0 i1 i2 i3 : 4 <= zlen m ->
  i0 = E mod zlen m -> i1 = (E + 1) mod zlen m -> i2 = (E + 2) mod zlen m -> i3 = (E + 3) mod zlen m ->
  set4 m i0 i1 i2 i3 buffLen fl = Ret (produce m E (le_bytes 3 buffLen ++ [fl])).
Proof.
  intros HL -> -> -> ->. rewrite <- header_bytes3. unfold set4. rewrite !produce_cons, produce_nil, !zlen_insert.
  pose proof (Z.mod_pos_bound E (zlen m) ltac:(lia)). pose proof (Z.mod_pos_bound (E + 1) (zlen m) ltac:(lia)).
  pose proof (Z.mod_pos_bound (E + 2) (zlen m) ltac:(lia)). pose proof (Z.mod_pos_bound (E + 3) (zlen m) ltac:(lia)).
  repeat (rewrite zset_ok by (rewrite ?zlen_insert; lia); cbn [go_bind]).
  by replace (E + 1 + 1) with (E + 2) by lia; replace (E + 2 + 1) with (E + 3) by lia.
Qed.

Lemma put_header_spec p hist c buffLen fl : stream p hist c ->
  put_header p buffLen fl =
    Ret (with_pool p (produce (pool p) (zlen hist) (le_bytes 3 buffLen ++ [fl])) ((zlen hist + 4) mod poolLen p)).
Proof.
  intros Hst. pose proof (size_bounds _ _ _ Hst) as HL. unfold put_header.
  rewrite (st_end _ _ _ Hst), (u64_mod_size _ _ _ Hst). rewrite <- (st_len _ _ _ Hst) in *.
  set (L := zlen (pool p)) in *. pose proof (Z.mod_pos_bound (zlen hist) L ltac:(lia)) as Hi.
  assert (forall k, 0 <= k <= L -> (zlen hist + k) mod L =
    if zlen hist mod L + k <? L then zlen hist mod L + k else zlen hist mod L + k - L) as Hk.
  { intros k ?. apply mod_add_small; lia. }
  rewrite (Hk 4) by lia.
  repeat case_test; try lia;
    (rewrite (set4_produce (pool p) (zlen hist)) by (fold L; rewrite ?Hk by lia; repeat case_test; lia));
    cbn [go_bind]; f_equal; f_equal; lia.
Qed.

Lemma put_body_spec p buffer E : zlen (pool p) = poolLen p -> 0 < poolLen p ->
  index p = E mod poolLen p -> zlen buffer <= poolLen p ->
  put_body p buffer = Ret (with_pool p (produce (pool p) E buffer) (index p)).
Proof.
  intros Hlen HL Hidx Hfit. unfold put_body. pose proof (Z.mod_pos_bound E (poolLen p) HL) as Hi.
  rewrite <- Hidx in Hi. pose proof (zlen_nonneg buffer). case_test.
  - set (room := poolLen p - index p) in *. rewrite !slice_ok by lia. cbn [go_bind].
    rewrite copy_to_ok by lia. cbn [go_bind]. rewrite copy_to_ok by (rewrite zlen_overwrite; lia).
    cbn [go_bind]. f_equal. f_equal.
    assert (buffer = sub buffer 0 room ++ sub buffer room (zlen buffer)) as Hsplit
      by (rewrite <- sub_app, sub_full by lia; done).
    replace (produce (pool p) E buffer) with
      (produce (pool p) E (sub buffer 0 room ++ sub buffer room (zlen buffer))) by (by rewrite <- Hsplit).
    rewrite produce_app, zlen_sub by lia.
    rewrite (produce_mod _ (pool p) E (index p)) by (rewrite ?Hlen, ?Hidx, ?Z.mod_mod; lia).
    rewrite (produce_overwrite (sub buffer 0 room)) by (rewrite ?zlen_sub; lia).
    rewrite (produce_mod _ _ (E + (room - 0)) 0).
    + by rewrite produce_overwrite by (rewrite ?zlen_overwrite, ?zlen_sub; lia).
    + rewrite zlen_overwrite; lia.
    + rewrite zlen_overwrite, Hlen by lia. rewrite Z.mod_0_l by lia. unfold room. rewrite Hidx.
      rewrite <- Z.add_mod_idemp_l by lia. replace (_ + _) with (1 * poolLen p) by lia. apply Z.mod_mul. lia.
  - rewrite copy_to_ok by lia. cbn [go_bind]. f_equal. f_equal.
    rewrite (produce_mod _ (pool p) E (index p)) by (rewrite ?Hlen, ?Hidx, ?Z.mod_mod; lia).
    by rewrite produce_overwrite by lia.
Qed.

Lemma buf_frame_len fl buffer : zlen (buf_frame fl buffer) = zlen buffer + 4.
Proof. unfold buf_frame. rewrite zlen_app, zlen_le_bytes, zlen_cons. lia. Qed.

Lemma addSendMsg_stream p hist c buffer fl : stream p hist c ->
  zlen buffer <= cmd_max_size -> zlen hist - c + (zlen buffer + 4) <= poolLen p ->
  exists p', addSendMsg p buffer fl = Ret (p', true) /\ stream p' (hist ++ buf_frame fl buffer) c.
Proof.
  intros Hst Hmax Hfit. pose proof (size_bounds _ _ _ Hst) as HL. pose proof (st_c _ _ _ Hst).
  unfold addSendMsg. case_test; [lia|]. rewrite (put_header_spec p hist c) by done. cbn [go_bind].
  rewrite (put_body_spec _ buffer (zlen hist + 4)); cbn [pool with_pool poolLen index];
    [|by rewrite zlen_produce; apply Hst|lia|done|lia].
  cbn [go_bind]. eexists; split; [done|]. pose proof (zlen_nonneg buffer).
  assert (produce (produce (pool p) (zlen hist) (le_bytes 3 (zlen buffer) ++ [fl])) (zlen hist + 4) buffer =
          produce (pool p) (zlen hist) (buf_frame fl buffer)) as Hp.
  { unfold buf_frame. change (fl :: buffer) with ([fl] ++ buffer). rewrite app_assoc, (produce_app (_ ++ _)).
    by rewrite zlen_app, zlen_le_bytes. }
  split; cbn [pool with_pool with_end poolLen start end_]; rewrite ?Hp, ?zlen_app, ?buf_frame_len.
  - rewrite zlen_produce. apply Hst.
  - apply Hst.
  - apply produce_holds, Hst.
  - lia.
  - lia.
  - apply Hst.
  - rewrite (st_end _ _ _ Hst). unfold wrap. rewrite <- Zplus_mod. done.
Qed.

(** A section that does not fill the ring. *)
Lemma getSendMsgBuff_stream p hist c : stream p hist c -> 0 < zlen hist - c < poolLen p ->
  exists n, getSendMsgBuff p = Ret (sub hist c (c + n), false) /\ 0 < n /\ c + n <= zlen hist.
Proof.
  intros Hst Hused. pose proof (size_bounds _ _ _ Hst) as HL. pose proof (st_c _ _ _ Hst).
  unfold getSendMsgBuff. rewrite (used_u64 _ _ _ Hst).
  assert (start p <> end_ p) as Hne.
  { intros E. pose proof (used_u64 _ _ _ Hst) as Hu. rewrite E, Z.sub_diag in Hu. unfold wrap in Hu. rewrite Zmod_0_l in Hu. lia. }
  rewrite (proj2 (Z.eqb_neq _ _) Hne). case_test; [lia|].
  rewrite (st_start _ _ _ Hst), (st_end _ _ _ Hst), !(u64_mod_size _ _ _ Hst).
  pose proof (section_spec (pool p) hist c (st_ring _ _ _ Hst)) as Hsec. rewrite (st_len _ _ _ Hst) in *.
  destruct Hsec as (Hsl & Hpos & Hle & _); [lia|lia|].
  assert (c mod poolLen p <> zlen hist mod poolLen p).
  { intros E. symmetry in E. revert E. apply mod_neq; lia. }
  destruct (Z.ltb_spec (c mod poolLen p) (zlen hist mod poolLen p)); case_test; try lia;
    rewrite Hsl; eexists; (split; [done|split; [exact Hpos|exact Hle]]).
Qed.

(** The sending half of a message pool is a byte queue.  On a ring that
    holds the stream [hist] from position [c] on: [addSendMsg] refuses a body
    above [cmd_max_size]; when the frame fits into the free part of the ring it
    appends exactly the frame, whatever the positions at which the header and
    the body wrap; [getSendMsgBuff] yields the next bytes of the queue while it
    is neither empty nor full; [addSendIndex] takes bytes out of it.  The
    64-bit indices may wrap. *)
Theorem msgpool_send_queue (p : msgPool) (hist : list Z) (c : Z) (Hst : stream p hist c) :
  (forall buffer fl, cmd_max_size < zlen buffer -> addSendMsg p buffer fl = Ret (p, false)) /\
  (forall buffer fl, zlen buffer <= cmd_max_size -> zlen hist - c + (zlen buffer + 4) <= poolLen p ->
     exists p', addSendMsg p buffer fl = Ret (p', true) /\ stream p' (hist ++ buf_frame fl buffer) c) /\
  (zlen hist = c -> getSendMsgBuff p = Ret ([], false)) /\
  (0 < zlen hist - c < poolLen p ->
     exists n, getSendMsgBuff p = Ret (sub hist c (c + n), false) /\ 0 < n /\ c + n <= zlen hist) /\
  (forall n, 0 <= n -> c + n <= zlen hist -> stream (addSendIndex p n) hist (c + n)).
Proof.
  split_and!.
  - intros. unfold addSendMsg. by rewrite (proj2 (Z.ltb_lt _ _)).
  - intros. by apply addSendMsg_stream.
  - intros He. unfold getSendMsgBuff. rewrite (st_start _ _ _ Hst), (st_end _ _ _ Hst), He. by rewrite Z.eqb_refl.
  - by apply getSendMsgBuff_stream.
  - intros n Hn Hle. destruct Hst as [? ? ? ? ? Hs ?]. split; simpl; try done; try lia.
    rewrite Hs. unfold wrap. by rewrite <- Zplus_mod.
Qed.

(** A full ring stalls the sender.  When exactly [poolLen] bytes are queued
    the two ring indices coincide and [getSendMsgBuff] returns an empty slice
    without an error, so nothing is sent although the queue is full. *)
Theorem msgpool_full_stalls (p : msgPool) (hist : list Z) (c : Z) (Hst : stream p hist c)
    (Hfull : zlen hist - c = poolLen p) : getSendMsgBuff p = Ret ([], false).
Proof.
  pose proof (size_bounds _ _ _ Hst) as HL. unfold getSendMsgBuff. rewrite (used_u64 _ _ _ Hst).
  destruct (start p =? end_ p); [done|]. rewrite Hfull, Z.ltb_irrefl.
  rewrite (st_start _ _ _ Hst), (st_end _ _ _ Hst), !(u64_mod_size _ _ _ Hst).
  replace (zlen hist) with (c + 1 * poolLen p) by lia. rewrite Z_mod_plus_full, Z.ltb_irrefl.
  pose proof (Z.mod_pos_bound c (poolLen p) ltac:(lia)).
  rewrite slice_ok by (rewrite ?(st_len _ _ _ Hst); lia). by rewrite sub_nil.
Qed.

Lemma stream_empty k m tmp i fl n : 2 <= k < 63 -> zlen m = 2 ^ k ->
  stream (mkMsgPool (2 ^ k) m 0 0 tmp i fl n) [] 0.
Proof.
  intros Hk Hm. assert (0 < 2 ^ k) by (apply Z.pow_pos_nonneg; lia).
  split; simpl; try done.
  - by exists k.
  - split; [lia|]. intros j. change (zlen (@nil Z)) with 0. lia.
  - change (zlen (@nil Z)) with 0. lia.
Qed.

Definition pool8 : msgPool := mkMsgPool 8 (zeros 8) 0 0 (zeros 8) 0 0 0.

Lemma stream_pool8 : stream pool8 [] 0.
Proof. apply (stream_empty 3 (zeros 8)); [lia|done]. Qed.

Lemma msgpool_send_queue_witness :
  exists p1 p2, addSendMsg pool8 [1; 2] 9 = Ret (p1, true) /\
    stream (addSendIndex p1 6) ([] ++ buf_frame 9 [1; 2]) 6 /\
    addSendMsg (addSendIndex p1 6) [3; 4; 5] 7 = Ret (p2, true) /\
    stream p2 (([] ++ buf_frame 9 [1; 2]) ++ buf_frame 7 [3; 4; 5]) 6.
Proof.
  destruct (msgpool_send_queue pool8 [] 0 stream_pool8) as (_ & Hadd & _).
  destruct (Hadd [1; 2] 9) as (p1 & E1 & S1); [done|done|].
  destruct (msgpool_send_queue p1 _ 0 S1) as (_ & _ & _ & _ & Hidx).
  pose proof (Hidx 6 ltac:(done) ltac:(done)) as S2.
  destruct (msgpool_send_queue _ _ _ S2) as (_ & Hadd2 & _).
  destruct (Hadd2 [3; 4; 5] 7) as (p2 & E2 & S3); [done|by vm_compute in E1; injection E1 as <-|].
  by exists p1, p2.
Defined.

Lemma msgpool_full_stalls_witness :
  exists p, addSendMsg pool8 [1; 2; 3; 4] 9 = Ret (p, true) /\ getSendMsgBuff p = Ret ([], false).
Proof.
  destruct (addSendMsg_stream pool8 [] 0 [1; 2; 3; 4] 9 stream_pool8)
    as (p & E & S); [done|done|].
  exists p. split; [done|]. apply (msgpool_full_stalls p _ 0 S). vm_compute in E. by injection E as <-.
Defined.

(** ** Receiving *)

(** A pool whose unread bytes begin with a whole message of length [n]. *)
Record ready (p : msgPool) (hist : list Z) (c n : Z) : Prop := mkReady {
  rd_stream : stream p hist c;
  rd_total : zlen hist < 2 ^ 64;
  rd_tmp : zlen (tmpPool p) = cmd_max_size;
  rd_msgLen : msgLen p = n;
  rd_n : 0 < n <= cmd_max_size;
  rd_whole : c + 4 + n <= zlen hist
}.

(** The byte of the stream at position [i], and a contiguous range of it, in
    the ring. *)
Lemma ring_get p hist c i x : stream p hist c -> c <= i < zlen hist -> hist !! Z.to_nat i = Some x ->
  forall j, j = i mod poolLen p -> zget (pool p) j = Ret x.
Proof.
  intros Hst Hi Hx j ->. destruct (st_ring _ _ _ Hst) as [HL Hr]. rewrite (st_len _ _ _ Hst) in *.
  pose proof (st_room _ _ _ Hst). pose proof (st_c _ _ _ Hst).
  apply zget_ok; [apply Z.mod_pos_bound; lia|]. rewrite Hr by lia. done.
Qed.

Lemma ring_slice p hist c i n a b : stream p hist c -> c <= i -> 0 < n -> i + n <= zlen hist ->
  a = i mod poolLen p -> b = a + n -> b <= poolLen p ->
  slice (pool p) a b = Ret (sub hist i (i + n)).
Proof.
  intros Hst Hi Hn Hle -> -> Hb. destruct (st_ring _ _ _ Hst) as [HL Hr]. rewrite (st_len _ _ _ Hst) in *.
  pose proof (st_room _ _ _ Hst). pose proof (st_c _ _ _ Hst). pose proof (st_len _ _ _ Hst).
  pose proof (Z.mod_pos_bound i (poolLen p) HL). rewrite slice_ok by lia. f_equal.
  apply list_eq_same_length with (n := Z.to_nat n).
  - pose proof (zlen_sub hist i (i + n)). unfold zlen in *. lia.
  - pose proof (zlen_sub (pool p) (i mod poolLen p) (i mod poolLen p + n)). unfold zlen in *. lia.
  - intros k x y Hk. rewrite <- (Nat2Z.id k).
    rewrite (lookup_sub (pool p)), (lookup_sub hist) by lia. rewrite <- (Hr (i + Z.of_nat k)) by lia.
    rewrite (mod_shift i) by lia. congruence.
Qed.

Lemma taken_stream p hist c n tmp fl : ready p hist c n -> stream (taken p tmp fl) hist (c + 4 + n).
Proof.
  intros [[? ? ? ? ? Hs ?] ? ? Hn ? ?]. split; simpl; try done; try lia.
  rewrite Hs, Hn. unfold wrap, cmd_header_size. rewrite <- Zplus_mod. f_equal. lia.
Qed.

(** The tests in front of the message are passed. *)
Lemma getRecvMsg_ready p hist c n : ready p hist c n ->
  (u64 (end_ p - start p) <? u64 (msgLen p + cmd_header_size)) = false /\ (end_ p <? start p) = false /\
  (msgLen p =? 0) = false /\ (cmd_max_size <? msgLen p) = false /\
  start p mod poolLen p = c mod poolLen p /\
  u64 (u64 (start p + msgLen p) + cmd_header_size) mod poolLen p = (c + (4 + n)) mod poolLen p.
Proof.
  intros [Hst Ht ? Hn ? ?]. pose proof (st_c _ _ _ Hst). rewrite (used_u64 _ _ _ Hst), Hn.
  rewrite (wrap_small 64 (n + cmd_header_size)) by (unfold cmd_header_size, cmd_max_size in *; lia).
  rewrite (st_start _ _ _ Hst), (st_end _ _ _ Hst). unfold cmd_header_size in *.
  split_and!.
  - apply Z.ltb_ge. lia.
  - apply Z.ltb_ge. rewrite !wrap_small by lia. lia.
  - apply Z.eqb_neq. lia.
  - apply Z.ltb_ge. lia.
  - by apply (u64_mod_size _ _ _ Hst).
  - rewrite !u64_add, (u64_mod_size _ _ _ Hst). rewrite (wrap_small 64 c) by lia.
    by replace (c + n + 4) with (c + (4 + n)) by lia.
Qed.

(** A received message that lies in one piece is returned intact.  When the
    header wraps around the end of the ring, or the whole frame ends before it,
    [getRecvMsg] returns exactly the body and the flag of the next frame and
    moves behind it. *)
Theorem msgpool_recv_intact (p : msgPool) (hist : list Z) (c n fl : Z) (Hr : ready p hist c n)
    (Hfl : hist !! Z.to_nat (c + 3) = Some fl)
    (Hpos : poolLen p < c mod poolLen p + 4 \/ c mod poolLen p + 4 + n < poolLen p) :
  exists p', getRecvMsg p = Ret (p', sub hist (c + 4) (c + 4 + n), fl) /\
    stream p' hist (c + 4 + n) /\ msgLen p' = 0.
Proof.
  pose proof Hr as [Hst Ht Htmp Hn Hnr Hw]. pose proof (size_bounds _ _ _ Hst) as HL.
  pose proof (st_c _ _ _ Hst). pose proof (st_room _ _ _ Hst).
  destruct (getRecvMsg_ready _ _ _ _ Hr) as (E1 & E2 & E3 & E4 & E5 & E6).
  unfold getRecvMsg. rewrite E1, E2, E3, E4, E5, E6. cbn [orb andb]. unfold cmd_header_size.
  pose proof (Z.mod_pos_bound c (poolLen p) ltac:(lia)).
  assert (forall k, 0 <= k <= poolLen p -> (c + k) mod poolLen p =
    if c mod poolLen p + k <? poolLen p then c mod poolLen p + k else c mod poolLen p + k - poolLen p) as Hk.
  { intros k ?. apply mod_add_small; lia. }
  rewrite (Hk (4 + n)) by lia. destruct Hpos as [Hwrap|Hin].
  - repeat case_test; try lia.
    rewrite (ring_get p hist c (c + 3) fl Hst) by (first [lia | done | rewrite Hk by lia; case_test; lia]).
    cbn [go_bind]. cbn [pool taken].
    rewrite (ring_slice p hist c (c + 4) n _ _ Hst) by (first [lia | rewrite Hk by lia; case_test; lia]).
    cbn [go_bind]. eexists; split; [done|]. split; [by apply taken_stream|done].
  - repeat case_test; try lia. cbn [pool taken].
    rewrite (ring_slice p hist c (c + 4) n _ _ Hst) by (first [lia | rewrite Hk by lia; case_test; lia]).
    cbn [go_bind].
    rewrite (ring_get p hist c (c + 3) fl Hst) by (first [lia | done | rewrite Hk by lia; case_test; lia]).
    cbn [go_bind]. eexists; split; [done|]. split; [by apply taken_stream|done].
Qed.

(** A received message whose body reaches or crosses the end of the ring is
    lost.  [getRecvMsg] assembles it in [tmpPool] but resets [msgLen] before it
    takes [tmpPool[:msgLen]], so it returns an empty message with the right
    flag and moves behind the frame. *)
Theorem msgpool_recv_wrapped_lost (p : msgPool) (hist : list Z) (c n fl : Z) (Hr : ready p hist c n)
    (Hfl : hist !! Z.to_nat (c + 3) = Some fl)
    (Hpos : c mod poolLen p + 4 <= poolLen p <= c mod poolLen p + 4 + n) :
  exists p', getRecvMsg p = Ret (p', [], fl) /\ stream p' hist (c + 4 + n) /\ msgLen p' = 0.
Proof.
  pose proof Hr as [Hst Ht Htmp Hn Hnr Hw]. pose proof (size_bounds _ _ _ Hst) as HL.
  pose proof (st_c _ _ _ Hst). pose proof (st_room _ _ _ Hst). pose proof (st_len _ _ _ Hst).
  destruct (getRecvMsg_ready _ _ _ _ Hr) as (E1 & E2 & E3 & E4 & E5 & E6).
  unfold getRecvMsg. rewrite E1, E2, E3, E4, E5, E6. cbn [orb andb]. unfold cmd_header_size.
  pose proof (Z.mod_pos_bound c (poolLen p) ltac:(lia)).
  rewrite (mod_add_small c (4 + n)) by lia. repeat case_test; try lia.
  rewrite (ring_get p hist c (c + 3) fl Hst) by
    (first [lia | done | rewrite mod_add_small by lia; case_test; lia]).
  cbn [go_bind]. rewrite slice_ok by lia. cbn [go_bind]. rewrite copy_to_ok by lia. cbn [go_bind].
  rewrite slice_ok by (rewrite ?Hn; lia). cbn [go_bind].
  rewrite copy_to_ok by (rewrite zlen_overwrite; lia). cbn [go_bind]. cbn [tmpPool msgLen taken].
  rewrite slice_ok by (rewrite ?zlen_overwrite; rewrite ?zlen_overwrite; lia). cbn [go_bind].
  rewrite sub_nil. eexists; split; [done|]. split; [by apply taken_stream|done].
Qed.

(** Pools that hold one frame, for the witnesses. *)
Definition recv_pool (m : list Z) (n : Z) : msgPool :=
  mkMsgPool 8 m 0 (zlen m) (zeros cmd_max_size) 0 0 n.

Lemma recv_pool_ready m n : zlen m = 8 -> 0 < n <= 4 -> ready (recv_pool m n) m 0 n.
Proof.
  intros Hm Hn. split; [|rewrite Hm; lia|apply zlen_zeros; done|done|unfold cmd_max_size; lia|rewrite Hm; lia].
  split; simpl; rewrite ?Hm; try done.
  - by exists 3.
  - split; [lia|]. intros i Hi _. rewrite Hm in *. by rewrite Z.mod_small by lia.
Qed.

Lemma msgpool_recv_intact_witness :
  exists p', getRecvMsg (recv_pool [2; 0; 0; 9; 5; 6; 1; 0] 2) = Ret (p', [5; 6], 9).
Proof.
  destruct (msgpool_recv_intact (recv_pool [2; 0; 0; 9; 5; 6; 1; 0] 2) [2; 0; 0; 9; 5; 6; 1; 0] 0 2 9)
    as (p' & H & _).
  - by apply recv_pool_ready.
  - done.
  - by right.
  - by exists p'.
Defined.

Lemma msgpool_recv_wrapped_lost_witness :
  exists p', getRecvMsg (recv_pool [4; 0; 0; 9; 5; 6; 7; 8] 4) = Ret (p', [], 9).
Proof.
  destruct (msgpool_recv_wrapped_lost (recv_pool [4; 0; 0; 9; 5; 6; 7; 8] 4) [4; 0; 0; 9; 5; 6; 7; 8] 0 4 9)
    as (p' & H & _).
  - by apply recv_pool_ready.
  - done.
  - done.
  - by exists p'.
Defined.

(** The receive window is large enough.  While a message of length [n] is
    incomplete, [getRecvBuff] hands out the free part of the ring from the end
    of the stream on, and asks for at least one byte and for no more than fits
    before the end of the ring, so [io.ReadAtLeast] is not refused. *)
Theorem msgpool_recv_window (p : msgPool) (hist : list Z) (c n : Z) (Hst : stream p hist c)
    (Htotal : 0 < zlen hist < 2 ^ 64) (Hn : msgLen p = n) (Hnr : 0 < n <= cmd_max_size)
    (Hfits : n + 4 <= poolLen p) (Hwait : zlen hist - c < n + 4) :
  exists need, getRecvBuff p = Ret (p, Some (zlen hist mod poolLen p), need) /\
    0 < need <= poolLen p - zlen hist mod poolLen p /\ need <= n + 4 - (zlen hist - c).
Proof.
  pose proof (size_bounds _ _ _ Hst) as HL. pose proof (st_c _ _ _ Hst).
  pose proof (used_u64 _ _ _ Hst) as Hu.
  assert (end_ p = zlen hist) as He by (rewrite (st_end _ _ _ Hst); apply wrap_small; lia).
  assert (start p = c) as Hs by (rewrite (st_start _ _ _ Hst); apply wrap_small; lia).
  unfold getRecvBuff. rewrite Hn, He, (proj2 (Z.eqb_neq (zlen hist) 0)), (proj2 (Z.eqb_neq n 0)) by lia.
  cbn [andb go_bind]. rewrite Hu, He, Hs, Hn, (proj2 (Z.eqb_neq n 0)) by lia. cbn [negb andb].
  unfold cmd_header_size, cmd_max_size in *. rewrite (wrap_small 64 (n + 4)), u64_add by lia.
  rewrite (wrap_small 64 (n + 4 - zlen hist + c)) by lia.
  pose proof (Z.mod_pos_bound c (poolLen p) ltac:(lia)) as Hcb.
  pose proof (Z.mod_pos_bound (zlen hist) (poolLen p) ltac:(lia)) as Heb.
  rewrite (wrap_small 64 (c mod poolLen p + (n + 4))) by lia.
  rewrite (wrap_small 64 (zlen hist mod poolLen p + _)) by lia.
  pose proof (mod_add_small c (zlen hist - c) (poolLen p) ltac:(lia) ltac:(lia)) as Hm.
  replace (c + (zlen hist - c)) with (zlen hist) in Hm by lia. rewrite Hm in *. clear Hm.
  repeat case_test; try lia; eexists; (split; [done|]); lia.
Qed.

Lemma msgpool_recv_window_witness :
  exists need, getRecvBuff (mkMsgPool 8 [3; 0; 0; 9; 0; 0; 0; 0] 0 4 [] 0 0 3) =
    Ret (mkMsgPool 8 [3; 0; 0; 9; 0; 0; 0; 0] 0 4 [] 0 0 3, Some 4, need) /\ 0 < need <= 4 /\ need <= 3.
Proof.
  destruct (msgpool_recv_window (mkMsgPool 8 [3; 0; 0; 9; 0; 0; 0; 0] 0 4 [] 0 0 3) [3; 0; 0; 9] 0 3)
    as (need & H & Hb & Hm); try done.
  - split; try done; [by exists 3|]. split; [done|]. simpl. intros i Hi _.
    change (zlen [3; 0; 0; 9]) with 4 in Hi. change (zlen [3; 0; 0; 9; 0; 0; 0; 0]) with 8.
    rewrite Z.mod_small by lia. assert (i = 0 \/ i = 1 \/ i = 2 \/ i = 3) as [->|[->|[->| ->]]] by lia; done.
  - by exists need.
Defined.
