(* ===== verification/Udptask.v ===== *)
(** * gonet/udptask.go and gonet/udpserver.go: messages over UDP

    A packet is a 16-bit sequence number, a message number and a body.  The
    task puts packets into rings, from which [recvloop] and [sendloop] take
    them; [recv_step] and [send_step] are one iteration of their inner loops,
    [recv_drain] and [send_drain] an inner loop run to its end.  The server
    dispatches packets by the sender's address. *)

From Stdlib Require Import Sorting.Sorted.
From stdpp Require Import gmap sorting.
From S2P Require Import Prelude Chan Ring.

(** [hasDerived]: whether [Derived] is non-nil; [closeCalls] counts its
    [OnClose] calls. *)
Record UdpTask := mkUdpTask {
  Key : list Z;
  closed : Z;
  recvBuff : Ring;
  sendBuff : Ring;
  hasDerived : bool;
  sendSignal : chan unit;
  recvSignal : chan unit;
  sendClose : chan unit;
  recvClose : chan unit;
  closeCalls : nat
}.

Definition NewUdpTask (derived : bool) : UdpTask :=
  {| Key := []; closed := 0; recvBuff := NewRing 1024; sendBuff := NewRing 1024; hasDerived := derived;
     sendSignal := make_chan 1; recvSignal := make_chan 1; sendClose := make_chan 1;
     recvClose := make_chan 1; closeCalls := 0 |}.

Definition IsClosed (t : UdpTask) : bool := negb (closed t =? 0).

Definition set_recv (t : UdpTask) (r : Ring) (c : chan unit) : UdpTask :=
  mkUdpTask (Key t) (closed t) r (sendBuff t) (hasDerived t) (sendSignal t) c (sendClose t) (recvClose t)
    (closeCalls t).
Definition set_send (t : UdpTask) (r : Ring) (c : chan unit) : UdpTask :=
  mkUdpTask (Key t) (closed t) (recvBuff t) r (hasDerived t) c (recvSignal t) (sendClose t) (recvClose t)
    (closeCalls t).
Definition set_Key (t : UdpTask) (k : list Z) : UdpTask :=
  mkUdpTask k (closed t) (recvBuff t) (sendBuff t) (hasDerived t) (sendSignal t) (recvSignal t)
    (sendClose t) (recvClose t) (closeCalls t).

(** A stop token into both close channels, then all four channels are closed;
    [OnClose] of a nil [Derived] panics. *)
Definition Close (t : UdpTask) : go UdpTask :=
  if closed t =? 0 then
    let! (sc, _) := try_send (sendClose t) tt in
    let! (rc, _) := try_send (recvClose t) tt in
    let! sc := close_chan sc in
    let! rc := close_chan rc in
    let! ss := close_chan (sendSignal t) in
    let! rs := close_chan (recvSignal t) in
    if hasDerived t then
      Ret (mkUdpTask (Key t) 1 (recvBuff t) (sendBuff t) (hasDerived t) ss rs sc rc (S (closeCalls t)))
    else Panic
  else Ret t.

Inductive udp_err : Type := ErrUdpClosed | ErrRing (e : ring_err).

Definition onRecv (t : UdpTask) (data : list Z) : go (UdpTask * option udp_err) :=
  if IsClosed t || (zlen data <? 3) then Ret (t, Some ErrUdpClosed)
  else
    let! buf := make_bytes (zlen data - 3) in
    let! src := slice data 3 (zlen data) in
    let! buf := copy_to buf 0 src in
    let! p := Set_ (recvBuff t) in
    match p with
    | inl e => Ret (t, Some (ErrRing e))
    | inr p =>
        let! d0 := zget data 0 in
        let! d1 := zget data 1 in
        let! d2 := zget data 2 in
        let msg := {| MsgNo := d2; Index := Z.lor d0 (Z.shiftl d1 8); Body := buf |} in
        let r := SetAdv (store (recvBuff t) p msg) in
        let! (c, _) := try_send (recvSignal t) tt in
        Ret (set_recv t r c, None)
    end.

(** The slot keeps its old [Index]; a full ring drops the message. *)
Definition AsyncSend (t : UdpTask) (buffer : list Z) (msgNo : Z) : go (UdpTask * bool) :=
  if IsClosed t then Ret (t, false)
  else
    let! p := Set_ (sendBuff t) in
    let r :=
      match p with
      | inl _ => sendBuff t
      | inr p => SetAdv (store (sendBuff t) p
                   {| MsgNo := msgNo; Index := Index (load (sendBuff t) p); Body := buffer |})
      end in
    let! (c, _) := try_send (sendSignal t) tt in
    Ret (set_send t r c, true).

(** ** The loops *)

(** One iteration of [recvloop]'s inner loop: [None] when the ring is empty;
    else the ring, [curIdx] and what [ParseMsg] is called with. *)
Definition recv_step (derived : bool) (r : Ring) (curIdx : Z) : go (option (Ring * Z * option (list Z * Z))) :=
  let! p := Get r in
  match p with
  | inl _ => Ret None
  | inr p =>
      let r := GetAdv r in
      let buf := load r p in
      let cleared := store r p {| MsgNo := MsgNo buf; Index := Index buf; Body := [] |} in
      if derived then
        if Index buf <=? curIdx then Ret (Some (r, curIdx, None))
        else Ret (Some (cleared, Index buf, Some (Body buf, MsgNo buf)))
      else Ret (Some (cleared, curIdx, None))
  end.

Fixpoint recv_drain (fuel : nat) (derived : bool) (r : Ring) (curIdx : Z)
    : go (Ring * Z * list (list Z * Z)) :=
  match fuel with
  | O => Ret (r, curIdx, [])
  | S fuel =>
      let! s := recv_step derived r curIdx in
      match s with
      | None => Ret (r, curIdx, [])
      | Some (r, curIdx, m) =>
          let! (r, curIdx, ms) := recv_drain fuel derived r curIdx in
          Ret (r, curIdx, match m with Some m => m :: ms | None => ms end)
      end
  end.

(** One iteration of [sendloop]'s inner loop: the packet that is written.  The
    first three bytes of the message's own buffer are overwritten. *)
Definition send_step (r : Ring) (index : Z) : go (option (Ring * Z * list Z)) :=
  let! p := Get r in
  match p with
  | inl _ => Ret None
  | inr p =>
      let r := GetAdv r in
      let buf := load r p in
      let index := Z.land (index + 1) 65535 in
      let! body := zset (Body buf) 0 (u8 (Z.land index 255)) in
      let! body := zset body 1 (u8 (Z.land (Z.shiftr index 8) 255)) in
      let! body := zset body 2 (u8 (MsgNo buf)) in
      Ret (Some (store r p {| MsgNo := MsgNo buf; Index := Index buf; Body := body |}, index, body))
  end.

(** The inner loop when every [WriteToUDP] succeeds. *)
Fixpoint send_drain (fuel : nat) (r : Ring) (index : Z) : go (Ring * Z * list (list Z)) :=
  match fuel with
  | O => Ret (r, index, [])
  | S fuel =>
      let! s := send_step r index in
      match s with
      | None => Ret (r, index, [])
      | Some (r, index, pkt) =>
          let! (r, index, pkts) := send_drain fuel r index in Ret (r, index, pkt :: pkts)
      end
  end.

(** ** The server *)

Section Server.
(** [Handshake] decides whether an unknown sender gets a task. *)
Variable Handshake : list Z -> list Z -> option UdpTask.
Variable maxPacketSize : Z.

Abbreviation clients := (gmap (list Z) UdpTask).

(** One packet [data] from the address [key]. *)
Definition udp_packet (m : clients) (key data : list Z) : go clients :=
  if maxPacketSize <=? zlen data then Ret m
  else
    match m !! key with
    | Some c => let! (c, _) := onRecv c data in Ret (<[key := c]> m)
    | None =>
        match Handshake data key with
        | Some c => Ret (<[key := set_Key c key]> m)
        | None => Ret m
        end
    end.

(** The send loop of a task has ended. *)
Definition udp_task_end (m : clients) (task : UdpTask) : clients := delete (Key task) m.

End Server.

(** ** Receiving *)

(** The messages of a queue whose sequence number is above all before them. *)
Fixpoint fresh (curIdx : Z) (q : list UdpMsg) : list UdpMsg :=
  match q with
  | [] => []
  | m :: q => if Index m <=? curIdx then fresh curIdx q else m :: fresh (Index m) q
  end.

Definition delivery (m : UdpMsg) : list Z * Z := (Body m, MsgNo m).

Lemma recv_step_spec r m q cur : wf r -> queue r = m :: q ->
  exists r', recv_step true r cur =
    Ret (Some (r', if Index m <=? cur then cur else Index m, if Index m <=? cur then None else Some (delivery m))) /\
    wf r' /\ queue r' = q.
Proof.
  intros Hwf Hq. destruct (Get_nonempty r m q Hwf Hq) as (Hg & Hl & Hwf1 & Hq1 & Hc).
  unfold recv_step. rewrite Hg. simpl. change (load (GetAdv r)) with (load r). rewrite Hl.
  destruct (Index m <=? cur); [by eexists|]. eexists; split; [done|].
  destruct (store_consumed r {| MsgNo := MsgNo m; Index := Index m; Body := [] |} Hwf Hc Hwf1) as (? & _ & Hq2).
  by rewrite Hq2.
Qed.

Lemma Get_empty r : wf r -> queue r = [] -> Get r = Ret (inl ErrRingEmpty).
Proof.
  intros Hwf Hq. pose proof (pop_empty r Hwf Hq) as Hp. unfold pop, Get in *.
  destruct (rp r =? wp r); [done|]. by destruct (slot_ptr _ _).
Qed.

Lemma recv_drain_spec fuel : forall r cur, wf r -> (length (queue r) < fuel)%nat ->
  exists r' cur', recv_drain fuel true r cur = Ret (r', cur', delivery <$> fresh cur (queue r)) /\
    wf r' /\ queue r' = [].
Proof.
  induction fuel as [|fuel IH]; intros r cur Hwf Hf; [lia|]. simpl.
  destruct (queue r) as [|m q] eqn:Hq.
  - unfold recv_step. rewrite (Get_empty r Hwf Hq). simpl. by exists r, cur.
  - destruct (recv_step_spec r m q cur Hwf Hq) as (r1 & -> & Hwf1 & Hq1). cbn [go_bind].
    destruct (IH r1 (if Index m <=? cur then cur else Index m) Hwf1) as (r2 & cur2 & -> & Hwf2 & Hq2).
    { rewrite Hq1. simpl in Hf. lia. }
    cbn [go_bind]. rewrite Hq1. exists r2, cur2. split; [|done]. simpl. by destruct (Index m <=? cur).
Qed.

Lemma fresh_sorted q : forall cur, StronglySorted Z.lt (cur :: (Index <$> fresh cur q)).
Proof.
  induction q as [|m q IH]; intros cur; simpl; [repeat constructor|]. case_test; [apply IH|].
  specialize (IH (Index m)). constructor; [exact IH|]. simpl. constructor; [lia|].
  apply StronglySorted_inv in IH as [_ IH]. eapply Forall_impl; [exact IH|]. simpl. lia.
Qed.

Lemma fresh_sublist q : forall cur, fresh cur q `sublist_of` q.
Proof. induction q as [|m q IH]; intros cur; simpl; [done|]. case_test; by constructor. Qed.

(** The UDP receiver filters by sequence number.  On any queue of packets,
    however the network reordered, duplicated or dropped them, the inner loop
    of [recvloop] empties the ring without a panic and passes on exactly the
    messages whose number is above all those passed on before: a subsequence
    of the queue with strictly increasing numbers. *)
Theorem udp_recv_filters (r : Ring) (curIdx : Z) (Hwf : wf r) :
  exists r' cur', recv_drain (S (length (queue r))) true r curIdx =
      Ret (r', cur', delivery <$> fresh curIdx (queue r)) /\ wf r' /\ queue r' = [] /\
    fresh curIdx (queue r) `sublist_of` queue r /\
    StronglySorted Z.lt (curIdx :: (Index <$> fresh curIdx (queue r))).
Proof.
  destruct (recv_drain_spec (S (length (queue r))) r curIdx Hwf ltac:(lia)) as (r' & cur' & Hd & Hwf' & Hq).
  exists r', cur'. split_and!; try done; [apply fresh_sublist|apply fresh_sorted].
Qed.

(** ** The tasks' queues *)

Record task_ok (t : UdpTask) : Prop := mkTaskOk {
  tk_recv : wf (recvBuff t);
  tk_send : wf (sendBuff t);
  tk_rsig : IsClosed t = false -> wakeup (recvSignal t);
  tk_ssig : IsClosed t = false -> wakeup (sendSignal t)
}.

Lemma push_Set r m : wf r -> count r < num r ->
  exists p, Set_ r = Ret (inr p) /\ push r m = Ret (SetAdv (store r p m), true).
Proof.
  intros Hwf Hc. destruct (push_room r m Hwf Hc) as (r' & Hp & _). unfold push in *.
  destruct (Set_ r) as [[e|p]|]; simpl in *; [done| |done]. by exists p.
Qed.

Lemma Set_full r : count r = num r -> Set_ r = Ret (inl ErrRingFull).
Proof. intros Hc. unfold Set_. fold (count r). by rewrite Hc, Z.leb_refl. Qed.

(** What [onRecv] queues for a packet. *)
Definition packet_msg (data : list Z) : UdpMsg :=
  {| MsgNo := nth 2 data 0; Index := Z.lor (nth 0 data 0) (Z.shiftl (nth 1 data 0) 8); Body := drop 3 data |}.

Lemma onRecv_room t data : task_ok t -> IsClosed t = false -> 3 <= zlen data ->
  count (recvBuff t) < num (recvBuff t) ->
  exists t', onRecv t data = Ret (t', None) /\ task_ok t' /\ IsClosed t' = false /\ Key t' = Key t /\
    queue (recvBuff t') = queue (recvBuff t) ++ [packet_msg data] /\ num (recvBuff t') = num (recvBuff t).
Proof.
  intros [Hr Hs Hrs Hss] Hc Hlen Hroom. unfold onRecv. rewrite Hc, (proj2 (Z.ltb_ge _ _)) by lia. simpl.
  destruct data as [|d0 [|d1 [|d2 body]]]; try (unfold zlen in Hlen; simpl in Hlen; lia).
  assert (zlen (d0 :: d1 :: d2 :: body) - 3 = zlen body) as Hz by (rewrite !zlen_cons; lia).
  rewrite Hz. pose proof (zlen_nonneg body). unfold make_bytes. rewrite decide_True by lia. cbn [go_bind].
  rewrite slice_ok by (rewrite ?zlen_cons; lia). cbn [go_bind].
  assert (sub (d0 :: d1 :: d2 :: body) 3 (zlen (d0 :: d1 :: d2 :: body)) = body) as ->.
  { change (d0 :: d1 :: d2 :: body) with ([d0; d1; d2] ++ body). rewrite zlen_app. apply sub_app_r_full. }
  rewrite copy_to_ok by (rewrite zlen_zeros; lia). cbn [go_bind].
  assert (overwrite (zeros (zlen body)) (Z.to_nat 0) body = body) as ->.
  { apply (overwrite_tail []). apply Nat2Z.inj. change (zlen (zeros (zlen body)) = zlen body). apply zlen_zeros. lia. }
  destruct (push_Set (recvBuff t) (packet_msg (d0 :: d1 :: d2 :: body)) Hr Hroom) as (p & -> & Hp).
  destruct (push_room (recvBuff t) (packet_msg (d0 :: d1 :: d2 :: body)) Hr Hroom) as (r' & Hp' & Hwf' & Hn & Hq).
  rewrite Hp in Hp'. injection Hp' as <-. cbn [go_bind zget].
  destruct (wakeup_try_send (recvSignal t) tt (Hrs Hc)) as (c & ok & Ec & Hw & _). simpl. rewrite Ec. simpl.
  eexists; split; [done|]. split; [by split|]. done.
Qed.

Lemma AsyncSend_room t buffer msgNo : task_ok t -> IsClosed t = false ->
  count (sendBuff t) < num (sendBuff t) ->
  exists t' i, AsyncSend t buffer msgNo = Ret (t', true) /\ task_ok t' /\ IsClosed t' = false /\
    queue (sendBuff t') = queue (sendBuff t) ++ [{| MsgNo := msgNo; Index := i; Body := buffer |}] /\
    num (sendBuff t') = num (sendBuff t).
Proof.
  intros [Hr Hs Hrs Hss] Hc Hroom. unfold AsyncSend. rewrite Hc.
  destruct (push_Set (sendBuff t) zeroMsg Hs Hroom) as (p & HS & _). rewrite HS. cbn [go_bind].
  set (m := {| MsgNo := msgNo; Index := Index (load (sendBuff t) p); Body := buffer |}).
  destruct (push_Set (sendBuff t) m Hs Hroom) as (p' & HS' & Hp). rewrite HS in HS'. injection HS' as <-.
  destruct (push_room (sendBuff t) m Hs Hroom) as (r' & Hp' & Hwf' & Hn & Hq).
  rewrite Hp in Hp'. injection Hp' as <-.
  destruct (wakeup_try_send (sendSignal t) tt (Hss Hc)) as (c & ok & Ec & Hw & _). rewrite Ec. simpl.
  eexists _, _; split; [done|]. split; [by split|]. done.
Qed.

(** What [AsyncSend] of a UDP task does: [false] on a closed task; on an
    open one with room in the ring the message is queued behind the others; and
    when the ring is full the message is dropped although the result is
    [true]. *)
Theorem udp_async_send (t : UdpTask) (buffer : list Z) (msgNo : Z) (Hok : task_ok t) :
  (IsClosed t = true -> AsyncSend t buffer msgNo = Ret (t, false)) /\
  (IsClosed t = false -> count (sendBuff t) < num (sendBuff t) ->
     exists t' i, AsyncSend t buffer msgNo = Ret (t', true) /\
       queue (sendBuff t') = queue (sendBuff t) ++ [{| MsgNo := msgNo; Index := i; Body := buffer |}]) /\
  (IsClosed t = false -> count (sendBuff t) = num (sendBuff t) ->
     exists t', AsyncSend t buffer msgNo = Ret (t', true) /\ sendBuff t' = sendBuff t).
Proof.
  split_and!.
  - intros Hc. unfold AsyncSend. by rewrite Hc.
  - intros Hc Hroom. destruct (AsyncSend_room t buffer msgNo Hok Hc Hroom) as (t' & i & ? & _ & _ & ? & _). eauto.
  - intros Hc Hf. unfold AsyncSend. rewrite Hc, (Set_full _ Hf). cbn [go_bind].
    destruct (wakeup_try_send (sendSignal t) tt (tk_ssig _ Hok Hc)) as (c & ok & -> & _). by eexists.
Qed.

(** ** Sending *)

Definition packet (index : Z) (m : UdpMsg) : list Z :=
  le_bytes 2 index ++ u8 (MsgNo m) :: drop 3 (Body m).

(** Consecutive numbers modulo 2^16. *)
Fixpoint packets (index : Z) (q : list UdpMsg) : list (list Z) :=
  match q with
  | [] => []
  | m :: q => let index := Z.land (index + 1) 65535 in packet index m :: packets index q
  end.

Lemma land_255 z : Z.land z 255 = u8 z.
Proof. change 255 with (2 ^ 8 - 1). by rewrite land_mask. Qed.

Lemma send_step_spec r m q index : wf r -> queue r = m :: q -> 3 <= zlen (Body m) ->
  exists r', send_step r index = Ret (Some (r', Z.land (index + 1) 65535, packet (Z.land (index + 1) 65535) m)) /\
    wf r' /\ queue r' = q.
Proof.
  intros Hwf Hq Hl. destruct (Get_nonempty r m q Hwf Hq) as (Hg & Hld & Hwf1 & Hq1 & Hc).
  unfold send_step. rewrite Hg. cbn [go_bind]. change (load (GetAdv r)) with (load r). rewrite Hld.
  set (i := Z.land (index + 1) 65535).
  destruct (Body m) as [|b0 [|b1 [|b2 body]]] eqn:Hb; try (unfold zlen in Hl; simpl in Hl; lia).
  repeat (rewrite zset_ok by (rewrite ?zlen_insert; lia); cbn [go_bind]). simpl.
  eexists. split.
  - do 3 f_equal. unfold packet. rewrite Hb. simpl. rewrite !land_255. unfold wrap.
    by rewrite !Z.mod_mod.
  - destruct (store_consumed r {| MsgNo := MsgNo m; Index := Index m;
      Body := u8 (Z.land i 255) :: u8 (Z.land (i ≫ 8) 255) :: u8 (MsgNo m) :: body |} Hwf Hc Hwf1) as (? & _ & Hq2).
    by rewrite Hq2.
Qed.

Lemma send_drain_spec fuel : forall r index, wf r -> (length (queue r) < fuel)%nat ->
  Forall (fun m => 3 <= zlen (Body m)) (queue r) ->
  exists r' index', send_drain fuel r index = Ret (r', index', packets index (queue r)) /\ wf r' /\ queue r' = [].
Proof.
  induction fuel as [|fuel IH]; intros r index Hwf Hf Hall; [lia|]. simpl.
  destruct (queue r) as [|m q] eqn:Hq.
  - unfold send_step. rewrite (Get_empty r Hwf Hq). simpl. by exists r, index.
  - apply Forall_cons in Hall as [Hm Hall].
    destruct (send_step_spec r m q index Hwf Hq Hm) as (r1 & -> & Hwf1 & Hq1). cbn [go_bind].
    destruct (IH r1 (Z.land (index + 1) 65535) Hwf1) as (r2 & i2 & -> & Hwf2 & Hq2).
    { rewrite Hq1. simpl in Hf. lia. } { by rewrite Hq1. }
    cbn [go_bind]. rewrite Hq1. by exists r2, i2.
Qed.

(** ** End to end *)

Fixpoint send_all (t : UdpTask) (ms : list (list Z * Z)) : go UdpTask :=
  match ms with
  | [] => Ret t
  | (buffer, msgNo) :: ms => let! (t, _) := AsyncSend t buffer msgNo in send_all t ms
  end.

Fixpoint recv_all (t : UdpTask) (pkts : list (list Z)) : go UdpTask :=
  match pkts with
  | [] => Ret t
  | p :: pkts => let! (t, _) := onRecv t p in recv_all t pkts
  end.

Lemma send_all_queue ms : forall t, task_ok t -> IsClosed t = false ->
  count (sendBuff t) + zlen ms <= num (sendBuff t) ->
  exists t' q, send_all t ms = Ret t' /\ task_ok t' /\ queue (sendBuff t') = queue (sendBuff t) ++ q /\
    delivery <$> q = ms.
Proof.
  induction ms as [|[b n] ms IH]; intros t Hok Hc Hroom; simpl.
  - exists t, []. by rewrite app_nil_r.
  - rewrite zlen_cons in Hroom. pose proof (zlen_nonneg ms).
    destruct (AsyncSend_room t b n Hok Hc) as (t1 & i & -> & Hok1 & Hc1 & Hq1 & Hn1); [lia|]. cbn [go_bind].
    destruct (IH t1 Hok1 Hc1) as (t2 & q & -> & Hok2 & Hq2 & Hd).
    { rewrite <- length_queue, Hq1, zlen_app, length_queue, Hn1. change (zlen [_]) with 1. lia. }
    exists t2, ({| MsgNo := n; Index := i; Body := b |} :: q). split; [done|]. split; [done|].
    rewrite Hq2, Hq1, <- app_assoc. split; [done|]. by rewrite fmap_cons, Hd.
Qed.

Lemma recv_all_queue pkts : forall t, task_ok t -> IsClosed t = false ->
  Forall (fun p : list Z => 3 <= zlen p) pkts -> count (recvBuff t) + zlen pkts <= num (recvBuff t) ->
  exists t', recv_all t pkts = Ret t' /\ task_ok t' /\
    queue (recvBuff t') = queue (recvBuff t) ++ (packet_msg <$> pkts).
Proof.
  induction pkts as [|p pkts IH]; intros t Hok Hc Hall Hroom; simpl.
  - exists t. by rewrite app_nil_r.
  - apply Forall_cons in Hall as [Hp Hall]. rewrite zlen_cons in Hroom. pose proof (zlen_nonneg pkts).
    destruct (onRecv_room t p Hok Hc Hp) as (t1 & -> & Hok1 & Hc1 & _ & Hq1 & Hn1); [lia|]. cbn [go_bind].
    destruct (IH t1 Hok1 Hc1 Hall) as (t2 & -> & Hok2 & Hq2).
    { rewrite <- length_queue, Hq1, zlen_app, length_queue, Hn1. change (zlen [_]) with 1. lia. }
    exists t2. split; [done|]. split; [done|]. by rewrite Hq2, Hq1, <- app_assoc.
Qed.

Lemma task_ok_new d : task_ok (NewUdpTask d) /\ queue (recvBuff (NewUdpTask d)) = [] /\
  queue (sendBuff (NewUdpTask d)) = [] /\ 1024 <= num (recvBuff (NewUdpTask d)) /\ 1024 <= num (sendBuff (NewUdpTask d)).
Proof.
  destruct (NewRing_spec 1024 ltac:(lia)) as (Hwf & Hq & Hn). simpl.
  split_and!; try done; try lia; by split.
Qed.

Lemma packet_number index m : 0 <= index < 2 ^ 16 ->
  packet_msg (packet index m) = {| MsgNo := u8 (MsgNo m); Index := index; Body := drop 3 (Body m) |}.
Proof.
  intros Hi. pose proof (le_value_bytes_small 2 index Hi) as Hv. unfold packet_msg, packet.
  change (le_bytes 2 index) with [u8 index; u8 (Z.shiftr index 8)] in *. simpl in *.
  rewrite Z.lor_0_r in Hv. by rewrite Hv.
Qed.

Lemma packets_fresh q : forall index, 0 <= index -> index + zlen q < 2 ^ 16 ->
  delivery <$> fresh index (packet_msg <$> packets index q) =
    (fun m => (drop 3 (Body m), u8 (MsgNo m))) <$> q.
Proof.
  induction q as [|m q IH]; intros index Hi Hq; [done|]. rewrite zlen_cons in Hq. pose proof (zlen_nonneg q).
  cbn [packets fmap list_fmap fresh]. change 65535 with (2 ^ 16 - 1). rewrite land_mask by lia.
  rewrite Z.mod_small by lia. rewrite packet_number by lia. cbn [Index]. case_test; [lia|].
  cbn [fmap list_fmap]. f_equal. apply IH; lia.
Qed.

Lemma length_packets q : forall index, length (packets index q) = length q.
Proof. induction q as [|m q IH]; intros index; simpl; [done|]. by rewrite IH. Qed.

Lemma packets_long q : forall index, Forall (fun p : list Z => 3 <= zlen p) (packets index q).
Proof.
  induction q as [|m q IH]; intros index; simpl; constructor; [|apply IH].
  unfold packet. rewrite zlen_app, zlen_le_bytes, zlen_cons. pose proof (zlen_nonneg (drop 3 (Body m))). lia.
Qed.

(** End to end over a network that delivers in order.  Up to 1024 messages
    queued with [AsyncSend] on a new task (each buffer starts with the three
    reserved header bytes) are sent by [sendloop] as numbered packets; passed
    to [onRecv] of a new task they are delivered by its [recvloop] in order,
    with their bodies and the low byte of their message numbers. *)
Theorem udp_roundtrip (ms : list (list Z * Z)) (Hn : zlen ms <= 1024)
    (Hbody : Forall (fun m : list Z * Z => 3 <= zlen m.1) ms) :
  exists t r index pkts t' r' cur,
    send_all (NewUdpTask true) ms = Ret t /\
    send_drain 1025 (sendBuff t) 0 = Ret (r, index, pkts) /\
    recv_all (NewUdpTask true) pkts = Ret t' /\
    recv_drain 1025 true (recvBuff t') 0 = Ret (r', cur, (fun m => (drop 3 m.1, u8 m.2)) <$> ms).
Proof.
  destruct (task_ok_new true) as (Hok & Hrq & Hsq & Hrn & Hsn).
  destruct (send_all_queue ms (NewUdpTask true) Hok eq_refl) as (t & q & Ht & Htok & Hq & Hd).
  { rewrite <- length_queue, Hsq. change (zlen []) with 0. lia. }
  rewrite Hsq, app_nil_l in Hq.
  assert (length q = length ms) as Hlen by (by rewrite <- Hd, length_fmap).
  assert (zlen q = zlen ms) as Hz by (unfold zlen; by rewrite Hlen). unfold zlen in Hn.
  assert (Forall (fun m => 3 <= zlen (Body m)) q) as Hb.
  { rewrite <- Hd, Forall_fmap in Hbody. eapply Forall_impl; [exact Hbody|]. by intros []. }
  destruct (send_drain_spec 1025 (sendBuff t) 0 (tk_send _ Htok)) as (r & index & Hs & _ & _);
    rewrite ?Hq; [lia|done|]. rewrite Hq in Hs.
  destruct (recv_all_queue (packets 0 q) (NewUdpTask true) Hok eq_refl (packets_long q 0)) as (t' & Ht' & Htok' & Hq').
  { rewrite <- length_queue, Hrq. change (zlen []) with 0. unfold zlen. rewrite length_packets. lia. }
  rewrite Hrq, app_nil_l in Hq'.
  destruct (recv_drain_spec 1025 (recvBuff t') 0 (tk_recv _ Htok')) as (r' & cur & Hr & _ & _).
  { rewrite Hq', length_fmap, length_packets. lia. }
  exists t, r, index, (packets 0 q), t', r', cur. split_and!; try done.
  rewrite Hr, Hq', packets_fresh by (unfold zlen; lia). do 3 f_equal. rewrite <- Hd, <- list_fmap_compose. done.
Qed.

Lemma udp_roundtrip_witness :
  exists t r index pkts t' r' cur,
    send_all (NewUdpTask true) [([0; 0; 0; 7; 8], 5); ([0; 0; 0], 300)] = Ret t /\
    send_drain 1025 (sendBuff t) 0 = Ret (r, index, pkts) /\
    recv_all (NewUdpTask true) pkts = Ret t' /\
    recv_drain 1025 true (recvBuff t') 0 = Ret (r', cur, [([7; 8], 5); ([], 44)]).
Proof.
  apply (udp_roundtrip [([0; 0; 0; 7; 8], 5); ([0; 0; 0], 300)]); [done|].
  repeat constructor; done.
Defined.

(** ** Limits *)

Lemma fresh_exhausted cur q : Forall (fun m => Index m <= cur) q -> fresh cur q = [].
Proof. induction 1 as [|m q Hm _ IH]; simpl; [done|]. by rewrite (proj2 (Z.leb_le _ _) Hm). Qed.

(** The sequence numbers run out.  The numbers have 16 bits and the sender
    wraps to 0, but [recvloop] compares them as integers: once it has passed on
    number 65535 it drops every further packet, whatever is received. *)
Theorem udp_sequence_exhausted (t : UdpTask) (pkts : list (list Z)) (Hok : task_ok t) (Hopen : IsClosed t = false)
    (Hempty : queue (recvBuff t) = []) (Hroom : zlen pkts <= num (recvBuff t))
    (Hpkts : Forall (fun p : list Z => 3 <= zlen p /\ Forall is_byte p) pkts) :
  exists t' r cur, recv_all t pkts = Ret t' /\
    recv_drain (S (length pkts)) true (recvBuff t') 65535 = Ret (r, cur, []).
Proof.
  destruct (recv_all_queue pkts t Hok Hopen) as (t' & Ht & Hok' & Hq).
  { eapply Forall_impl; [exact Hpkts|]. by intros p [? _]. }
  { rewrite <- length_queue, Hempty. change (zlen []) with 0. lia. }
  rewrite Hempty, app_nil_l in Hq.
  destruct (recv_drain_spec (S (length pkts)) (recvBuff t') 65535 (tk_recv _ Hok')) as (r & cur & Hd & _ & _).
  { rewrite Hq, length_fmap. lia. }
  exists t', r, cur. split; [done|]. rewrite Hd, Hq, fresh_exhausted; [done|].
  apply Forall_fmap. eapply Forall_impl; [exact Hpkts|]. intros p [Hp Hb].
  destruct p as [|d0 [|d1 p]]; try (unfold zlen in Hp; simpl in Hp; lia).
  apply Forall_cons in Hb as [H0 Hb]. apply Forall_cons in Hb as [H1 _]. simpl.
  assert (0 <= Z.lor d0 (Z.shiftl d1 8) < 2 ^ 16); [|lia]. unfold is_byte in *.
  apply lor_range; [lia|lia|]. rewrite Z.shiftl_mul_pow2; lia.
Qed.

Lemma udp_recv_filters_witness :
  let m i := {| MsgNo := 1; Index := i; Body := [i] |} in
  let r := {| rp := 0; num := 8; mask := 7; wp := 5; data := [m 2; m 1; m 2; m 5; m 3; m 0; m 0; m 0] |} in
  exists r' cur', recv_drain 6 true r 0 = Ret (r', cur', [([2], 1); ([5], 1)]).
Proof.
  intros m r. destruct (udp_recv_filters r 0) as (r' & cur' & H & _).
  - split_and!; try done. by exists 3.
  - by exists r', cur'.
Defined.

Lemma udp_async_send_witness :
  exists t' i, AsyncSend (NewUdpTask true) [0; 0; 0; 9] 7 = Ret (t', true) /\
    queue (sendBuff t') = [] ++ [{| MsgNo := 7; Index := i; Body := [0; 0; 0; 9] |}].
Proof.
  destruct (udp_async_send (NewUdpTask true) [0; 0; 0; 9] 7) as (_ & H & _).
  - apply task_ok_new.
  - destruct H as (t' & i & H); [reflexivity|vm_compute; reflexivity|]. by exists t', i.
Defined.

Lemma udp_sequence_exhausted_witness :
  exists t' r cur, recv_all (NewUdpTask true) [[0; 0; 1; 42]; [1; 0; 1; 43]] = Ret t' /\
    recv_drain 3 true (recvBuff t') 65535 = Ret (r, cur, []).
Proof.
  destruct (task_ok_new true) as (Hok & Hq & _ & Hn & _).
  apply (udp_sequence_exhausted (NewUdpTask true) [[0; 0; 1; 42]; [1; 0; 1; 43]]); try done.
  refine (bool_decide_unpack _ _). by vm_compute.
Defined.

(** A slot is reused while it is still read.  [recvloop] advances the read
    counter before it uses the slot, so on a full ring a packet that arrives in
    between is written into that very slot: the loop passes on the new message
    in place of the oldest one, which is lost, and then clears the body of the
    new message, which is still queued. *)
Theorem udp_slot_reused (r : Ring) (m0 m : UdpMsg) (q : list UdpMsg) (Hwf : wf r)
    (Hq : queue r = m0 :: q) (Hfull : count r = num r) :
  exists p r2, Get r = Ret (inr p) /\ push (GetAdv r) m = Ret (r2, true) /\ load r2 p = m /\
    queue r2 = q ++ [m] /\
    queue (store r2 p {| MsgNo := MsgNo m; Index := Index m; Body := [] |}) =
      q ++ [{| MsgNo := MsgNo m; Index := Index m; Body := [] |}].
Proof.
  destruct (Get_nonempty r m0 q Hwf Hq) as (Hg & _ & Hwf1 & Hq1 & Hc). pose proof (num_pos r Hwf) as Hn.
  set (p := rp r mod num r) in *.
  assert (count (GetAdv r) < num (GetAdv r)) as Hroom.
  { rewrite <- length_queue, Hq1. pose proof (length_queue r) as Hl. rewrite Hq, zlen_cons in Hl. simpl. lia. }
  assert (Set_ (GetAdv r) = Ret (inr p)) as HS.
  { unfold Set_. fold (count (GetAdv r)). rewrite (proj2 (Z.leb_gt _ _) Hroom).
    pose proof Hwf1 as (_ & _ & _ & _ & Hwp & _). rewrite <- (small_u64 (wp (GetAdv r))) by done.
    rewrite slot_mod, slot_ptr_mod by done. simpl. rewrite wp_slot, Hfull by done.
    unfold p. rewrite <- (Z_mod_plus_full (rp r) 1 (num r)). by rewrite Z.mul_1_l. }
  assert (forall x, queue (SetAdv (store (GetAdv r) p x)) = q ++ [x]) as Hpush.
  { intros x. destruct (push_room (GetAdv r) x Hwf1 Hroom) as (r' & Hp & _ & _ & Hq').
    unfold push in Hp. rewrite HS in Hp. injection Hp as <-. by rewrite Hq', Hq1. }
  exists p, (SetAdv (store (GetAdv r) p m)). split; [done|]. split; [unfold push; by rewrite HS|].
  assert (Z.to_nat p < length (data r))%nat as Hlt.
  { pose proof Hwf as (_ & _ & Hlen & _). unfold zlen in Hlen. pose proof (Z.mod_pos_bound (rp r) (num r)). lia. }
  split; [unfold load; simpl; by rewrite list_lookup_insert_eq|]. split; [done|].
  rewrite <- Hpush. unfold store, SetAdv. simpl. by rewrite list_insert_insert_eq.
Qed.

Lemma udp_slot_reused_witness :
  let m i := {| MsgNo := 1; Index := i; Body := [i] |} in
  let r := {| rp := 6; num := 2; mask := 1; wp := 8; data := [m 1; m 2] |} in
  exists p r2, Get r = Ret (inr p) /\ push (GetAdv r) (m 3) = Ret (r2, true) /\ load r2 p = m 3 /\
    queue r2 = [m 2; m 3] /\
    queue (store r2 p {| MsgNo := 1; Index := 3; Body := [] |}) = [m 2; {| MsgNo := 1; Index := 3; Body := [] |}].
Proof.
  intros m r. apply (udp_slot_reused r (m 1) (m 3) [m 2]).
  - split_and!; try done. by exists 1.
  - reflexivity.
  - reflexivity.
Defined.

(** ** The server *)

(** Every task is filed under its key and can take packets. *)
Definition server_ok (m : gmap (list Z) UdpTask) : Prop :=
  map_Forall (fun k c => Key c = k /\ task_ok c) m.

Lemma onRecv_total t data : task_ok t ->
  exists t' e, onRecv t data = Ret (t', e) /\ task_ok t' /\ Key t' = Key t.
Proof.
  intros Hok. destruct (IsClosed t || (zlen data <? 3)) eqn:E.
  { exists t, (Some ErrUdpClosed). unfold onRecv. by rewrite E. }
  apply orb_false_iff in E as [Hc Hl]. apply Z.ltb_ge in Hl.
  pose proof (tk_recv _ Hok) as (_ & _ & _ & _ & _ & Hcn).
  destruct (decide (count (recvBuff t) < num (recvBuff t))) as [Hroom|Hfull].
  - destruct (onRecv_room t data Hok Hc Hl Hroom) as (t' & ? & ? & _ & ? & _). eauto.
  - exists t, (Some (ErrRing ErrRingFull)). unfold onRecv. rewrite Hc, (proj2 (Z.ltb_ge _ _) Hl). simpl.
    unfold make_bytes. rewrite decide_True by lia. cbn [go_bind]. rewrite slice_ok by lia. cbn [go_bind].
    rewrite copy_to_ok by (rewrite zlen_zeros; lia). cbn [go_bind]. by rewrite Set_full by lia.
Qed.

(** The server dispatches by address.  Whatever packets arrive and tasks
    end, handling a packet never panics and every task stays filed under the
    address it was created for; a packet reaches at most the task of its
    sender, and the end of a task removes only that task. *)
Theorem udp_server_dispatch (Handshake : list Z -> list Z -> option UdpTask) (maxPacketSize : Z)
    (m : gmap (list Z) UdpTask) (key data : list Z) (Hm : server_ok m)
    (Hhs : forall d k c, Handshake d k = Some c -> task_ok c) :
  (exists m', udp_packet Handshake maxPacketSize m key data = Ret m' /\ server_ok m' /\
     forall k, k <> key -> m' !! k = m !! k) /\
  (forall c, m !! key = Some c -> server_ok (udp_task_end m c) /\ udp_task_end m c !! key = None /\
     forall k, k <> key -> udp_task_end m c !! k = m !! k).
Proof.
  split.
  - unfold udp_packet. case_test; [by eauto|]. destruct (m !! key) as [c|] eqn:Hk.
    + destruct (Hm key c Hk) as [Hkey Hok]. destruct (onRecv_total c data Hok) as (c' & e & -> & Hok' & Hkey').
      cbn [go_bind]. eexists; split; [done|]. split.
      * apply map_Forall_insert_2; [by rewrite Hkey'|done].
      * intros k Hne. by rewrite lookup_insert_ne.
    + destruct (Handshake data key) as [c|] eqn:Hc; [|by eauto]. eexists; split; [done|]. split.
      * apply map_Forall_insert_2; [|done]. split; [done|]. pose proof (Hhs _ _ _ Hc) as []. by split.
      * intros k Hne. by rewrite lookup_insert_ne.
  - intros c Hc. destruct (Hm key c Hc) as [Hkey _]. unfold udp_task_end. rewrite Hkey. split_and!.
    + by apply map_Forall_delete.
    + by rewrite lookup_delete_eq.
    + intros k Hne. by rewrite lookup_delete_ne.
Qed.

Lemma udp_server_dispatch_witness :
  let hs := fun (d k : list Z) => Some (NewUdpTask true) in
  exists m', udp_packet hs 1024 (∅ : gmap (list Z) UdpTask) [1] [2] = Ret m' /\ server_ok m'.
Proof.
  intros hs. destruct (udp_server_dispatch hs 1024 ∅ [1] [2]) as [(m' & H & Hok & _) _].
  - apply map_Forall_empty.
  - intros d k c [= <-]. apply task_ok_new.
  - by exists m'.
Defined.
