(* ===== verification/Resp.v ===== *)
(** * redis/redisConn.go: the wire protocol

    Commands are written as arrays of bulk strings through a [bufio.Writer];
    replies are read from a [bufio.Reader].  The writer's buffer and its
    sticky error are modelled, so that the code's habit of looking only at the
    last error of a sequence of writes is part of what is proved.  Floats and
    values of other types are formatted by functions the development takes as
    parameters. *)

From S2P Require Import Prelude.

Definition CR : Z := 13.
Definition LF : Z := 10.
Definition STRTRUE : list Z := str "1".
Definition STRFALSE : list Z := str "0".
Definition STRLINEBREAK : list Z := [CR; LF].
Definition STRNIL : list Z := [].

(** ** Decimal numbers *)

Fixpoint dec_loop (fuel : nat) (n : Z) (acc : list Z) : list Z :=
  let acc := (48 + n mod 10) :: acc in
  if n / 10 =? 0 then acc
  else match fuel with O => acc | S fuel => dec_loop fuel (n / 10) acc end.

(** The digits of [n >= 0]: dividing by ten shortens the binary length, so
    [log2 n] rounds are enough. *)
Definition dec (n : Z) : list Z := dec_loop (Z.to_nat (Z.log2 n)) n [].

(** [strconv.AppendInt(nil, n, 10)] *)
Definition itoa (n : Z) : list Z := if n <? 0 then 45 :: dec (- n) else dec n.

(** The number a list of digits denotes. *)
Definition dec_value (l : list Z) : Z := fold_left (fun a b => a * 10 + (b - 48)) l 0.

(** ** [bufio.Writer] over a connection *)

(** [sent] is what the connection took; it fails once [budget] bytes have been
    taken.  [werr] is the writer's sticky error. *)
Record bufw := mkBufw {
  sent : list Z;
  wbuf : list Z;
  werr : bool;
  budget : Z
}.

Definition wbuf_size : Z := 4096.

Definition conn_write (b : bufw) (p rest : list Z) : bufw :=
  if zlen (sent b) + zlen p <=? budget b
  then mkBufw (sent b ++ p) rest false (budget b)
  else mkBufw (sent b ++ take (Z.to_nat (budget b - zlen (sent b))) p) rest true (budget b).

Definition Flush_bw (b : bufw) : bufw * bool :=
  if werr b then (b, true)
  else match wbuf b with
       | [] => (b, false)
       | p => let b := conn_write b p [] in (b, werr b)
       end.

(** [Write] and [WriteString]: while the data does not fit, fill the buffer and
    flush it; [direct] is [Write]'s shortcut for large data on an empty
    buffer. *)
Fixpoint write_loop (fuel : nat) (direct : bool) (b : bufw) (p : list Z) : bufw * bool :=
  if werr b then (b, true)
  else if zlen (wbuf b) + zlen p <=? wbuf_size
  then (mkBufw (sent b) (wbuf b ++ p) false (budget b), false)
  else
    match fuel with
    | O => (b, true)
    | S fuel =>
        if direct && (zlen (wbuf b) =? 0) then write_loop fuel direct (conn_write b p []) []
        else
          let n := Z.to_nat (wbuf_size - zlen (wbuf b)) in
          write_loop fuel direct (conn_write b (wbuf b ++ take n p) []) (drop n p)
    end.

Definition Write_bw (b : bufw) (p : list Z) : bufw * bool := write_loop (S (length p)) true b p.
Definition WriteString_bw (b : bufw) (s : list Z) : bufw * bool := write_loop (S (length s)) false b s.

(** ** Writing commands *)

(** The scratch array of [writeLen] and the writer. *)
Record wcon := mkWcon { lenScratch : list Z; bw : bufw }.

Section Args.
Context {F V : Type} (AppendFloat : F -> list Z) (Fprint : V -> list Z).

(** The dynamic types [writeInterface] distinguishes. *)
Inductive arg : Type :=
| AString (s : list Z)
| ABytes (p : list Z)
| AInt (n : Z)
| AInt64 (n : Z)
| AFloat64 (f : F)
| ABool (b : bool)
| ANil
| AOther (v : V).

(** The loop that writes the digits from the back.  The index leaves the array
    after 30 rounds. *)
Fixpoint len_loop (fuel : nat) (scratch : list Z) (i n : Z) : go (list Z * Z) :=
  match fuel with
  | O => Panic
  | S fuel =>
      let! scratch := zset scratch i (u8 (48 + Z.rem n 10)) in
      let i := i - 1 in
      let n := Z.quot n 10 in
      if n =? 0 then Ret (scratch, i) else len_loop fuel scratch i n
  end.

Definition writeLen (w : wcon) (prefix n : Z) : go (wcon * bool) :=
  let! s := zset (lenScratch w) (zlen (lenScratch w) - 1) LF in
  let! s := zset s (zlen s - 2) CR in
  let! (s, i) := len_loop 31 s (zlen s - 3) n in
  let! s := zset s i prefix in
  let! out := slice s i (zlen s) in
  let (b, err) := Write_bw (bw w) out in
  Ret (mkWcon s b, err).

(** The first two results are dropped. *)
Definition writeString (w : wcon) (s : list Z) : go (wcon * bool) :=
  let! (w, _) := writeLen w 36 (zlen s) in
  let (b, _) := WriteString_bw (bw w) s in
  let (b, err) := WriteString_bw b STRLINEBREAK in
  Ret (mkWcon (lenScratch w) b, err).

Definition writeBytes (w : wcon) (p : list Z) : go (wcon * bool) :=
  let! (w, _) := writeLen w 36 (zlen p) in
  let (b, _) := Write_bw (bw w) p in
  let (b, err) := WriteString_bw b STRLINEBREAK in
  Ret (mkWcon (lenScratch w) b, err).

Definition writeInt64 (w : wcon) (n : Z) : go (wcon * bool) := writeBytes w (itoa n).

Definition writeFloat64 (w : wcon) (f : F) : go (wcon * bool) := writeBytes w (AppendFloat f).

Definition writeInterface (w : wcon) (a : arg) : go (wcon * bool) :=
  match a with
  | AString s => writeString w s
  | ABytes p => writeBytes w p
  | AInt n => writeInt64 w n
  | AInt64 n => writeInt64 w n
  | AFloat64 f => writeFloat64 w f
  | ABool true => writeString w STRTRUE
  | ABool false => writeString w STRFALSE
  | ANil => writeString w STRNIL
  | AOther v => writeBytes w (Fprint v)
  end.

Inductive cmd_err : Type := ErrRedisNetFatal | ErrWrite | ErrInvalidArgNum.

(** [for _, arg := range args { err = writeInterface(arg); if err != nil return }] *)
Fixpoint write_args (w : wcon) (args : list arg) : go (wcon * bool) :=
  match args with
  | [] => Ret (w, false)
  | a :: args =>
      let! (w, err) := writeInterface w a in
      if err then Ret (w, true) else write_args w args
  end.

Definition ARGSNUMARRAY : Z := -1.
Definition ARGSNUM0 : Z := 0.
Definition ARGSNUM1 : Z := 1.
Definition ARGSNUM2 : Z := 2.
Definition ARGSNUM3 : Z := 3.
Definition ARGSKEY : Z := 4.

(** The body of [writeCommand]; [args] is a pointer to a slice, and [len] of a
    nil one panics. *)
Definition write_command_body (w : wcon) (argNum : Z) (cmd : list Z) (arg1 arg2 arg3 : arg)
    (args : option (list arg)) : go (wcon * option cmd_err) :=
  let! n :=
    (if argNum =? ARGSKEY then match args with Some l => Ret (2 + zlen l) | None => Panic end
     else if argNum =? ARGSNUMARRAY then match args with Some l => Ret (1 + zlen l) | None => Panic end
     else Ret (1 + argNum)) in
  let! (w, err) := writeLen w 42 n in
  if err then Ret (w, Some ErrWrite)
  else
    let! (w, err) := writeString w cmd in
    if err then Ret (w, Some ErrWrite)
    else
      let finish (r : go (wcon * bool)) : go (wcon * option cmd_err) :=
        let! (w, err) := r in Ret (w, if err then Some ErrWrite else None) in
      if argNum =? ARGSNUMARRAY then finish (write_args w (default [] args))
      else if argNum =? ARGSNUM0 then Ret (w, None)
      else if argNum =? ARGSNUM1 then finish (write_args w [arg1])
      else if argNum =? ARGSNUM2 then finish (write_args w [arg1; arg2])
      else if argNum =? ARGSNUM3 then finish (write_args w [arg1; arg2; arg3])
      else if argNum =? ARGSKEY then finish (write_args w (arg1 :: default [] args))
      else Ret (w, Some ErrInvalidArgNum).

(** A panic is recovered into [ErrRedisNetFatal]; what was written before it
    stays in the writer, which is then given up. *)
Definition writeCommand (w : wcon) (argNum : Z) (cmd : list Z) (arg1 arg2 arg3 : arg)
    (args : option (list arg)) : wcon * option cmd_err :=
  match write_command_body w argNum cmd arg1 arg2 arg3 args with
  | Ret r => r
  | Panic => (w, Some ErrRedisNetFatal)
  end.

(** ** Specification *)

Definition arg_bytes (a : arg) : list Z :=
  match a with
  | AString s => s
  | ABytes p => p
  | AInt n => itoa n
  | AInt64 n => itoa n
  | AFloat64 f => AppendFloat f
  | ABool b => if b then str "1" else str "0"
  | ANil => []
  | AOther v => Fprint v
  end.

(** The parts of a command for each way of passing the arguments; fields the
    way does not use may hold anything. *)
Definition command_parts (argNum : Z) (cmd : list Z) (arg1 arg2 arg3 : arg) (args : option (list arg))
    : option (list (list Z)) :=
  if argNum =? ARGSNUMARRAY then l ← args; Some (cmd :: (arg_bytes <$> l))
  else if argNum =? ARGSKEY then l ← args; Some (cmd :: arg_bytes arg1 :: (arg_bytes <$> l))
  else if argNum =? ARGSNUM0 then Some [cmd]
  else if argNum =? ARGSNUM1 then Some (cmd :: (arg_bytes <$> [arg1]))
  else if argNum =? ARGSNUM2 then Some (cmd :: (arg_bytes <$> [arg1; arg2]))
  else if argNum =? ARGSNUM3 then Some (cmd :: (arg_bytes <$> [arg1; arg2; arg3])) else None.

End Args.

Arguments arg : clear implicits.

Definition header (prefix n : Z) : list Z := prefix :: dec n ++ [CR; LF].
Definition bulk (p : list Z) : list Z := header 36 (zlen p) ++ p ++ [CR; LF].
Definition encode_command (parts : list (list Z)) : list Z :=
  header 42 (zlen parts) ++ concat (bulk <$> parts).

(** ** The writer *)

(** [total] was written so far: it is in the connection and the buffer, or the
    connection failed and has a proper prefix. *)
Record bw_ok (b : bufw) (total : list Z) : Prop := mkBwOk {
  bo_ok : werr b = false -> sent b ++ wbuf b = total;
  bo_err : werr b = true -> exists rest, total = sent b ++ rest;
  bo_len : zlen (wbuf b) <= wbuf_size;
  bo_budget : zlen (sent b) <= budget b
}.

Lemma conn_write_ok b total q : bw_ok b total -> werr b = false ->
  bw_ok (conn_write b (wbuf b ++ q) []) (total ++ q).
Proof.
  intros [Hok _ Hlen Hb] He. rewrite <- (Hok He), <- app_assoc. unfold conn_write.
  case_test; split; simpl; try done.
  - by rewrite app_nil_r.
  - rewrite zlen_app. lia.
  - intros _. exists (drop (Z.to_nat (budget b - zlen (sent b))) (wbuf b ++ q)).
    by rewrite <- app_assoc, take_drop.
  - rewrite !zlen_app, zlen_take. lia.
Qed.

Lemma bw_ok_failed b total q : bw_ok b total -> werr b = true -> bw_ok b (total ++ q).
Proof.
  intros [_ Herr Hlen Hb] He. split; try done; [congruence|]. intros _. destruct (Herr He) as [rest ->].
  exists (rest ++ q). by rewrite app_assoc.
Qed.

Lemma conn_write_buf b p q : wbuf (conn_write b p q) = q.
Proof. unfold conn_write. by destruct (_ <=? _). Qed.

Lemma write_loop_spec fuel : forall direct b p total, bw_ok b total ->
  (length p + (if Z.eqb (zlen (wbuf b)) wbuf_size then 1 else 0) <= fuel)%nat ->
  let r := write_loop fuel direct b p in bw_ok r.1 (total ++ p) /\ r.2 = werr r.1 /\
    (werr b = true -> r.1 = b).
Proof.
  induction fuel as [|fuel IH]; intros direct b p total Hok Hf; simpl;
    (destruct (werr b) eqn:He; [simpl; split_and!; try done; by apply bw_ok_failed|]).
  all: pose proof (bo_len _ _ Hok) as Hlen; case_test; simpl;
    [split_and!; try done; destruct Hok as [Hs _ _ Hb]; split; simpl; try done;
     [intros _; rewrite <- (Hs He); by rewrite app_assoc | rewrite zlen_app; lia] |].
  - destruct p; [|simpl in Hf; lia]. change (zlen []) with 0 in *. case_test; simpl in *; lia.
  - destruct (direct && (zlen (wbuf b) =? 0)) eqn:Hd.
    + apply andb_true_iff in Hd as [_ Hd]. apply Z.eqb_eq in Hd.
      destruct (wbuf b) eqn:Hb; [|rewrite zlen_cons in Hd; pose proof (zlen_nonneg l); lia].
      pose proof (conn_write_ok b total p Hok He) as Hok1. rewrite Hb in Hok1.
      destruct (IH direct _ [] (total ++ p) Hok1) as (H1 & H2 & _); [rewrite conn_write_buf; simpl; lia|].
      rewrite app_nil_r in H1. done.
    + set (n := Z.to_nat (wbuf_size - zlen (wbuf b))).
      pose proof (conn_write_ok b total (take n p) Hok He) as Hok1.
      destruct (IH direct _ (drop n p) _ Hok1) as (H1 & H2 & _).
      { rewrite conn_write_buf, length_drop. subst n. change (zlen []) with 0. unfold wbuf_size, zlen in *.
        cbn [Z.eqb]. destruct (Z.eqb_spec (Z.of_nat (length (wbuf b))) 4096); lia. }
      rewrite <- app_assoc, take_drop in H1. done.
Qed.

Lemma write_spec b p total : bw_ok b total ->
  (bw_ok (Write_bw b p).1 (total ++ p) /\ (Write_bw b p).2 = werr (Write_bw b p).1 /\
   (werr b = true -> werr (Write_bw b p).1 = true)) /\
  (bw_ok (WriteString_bw b p).1 (total ++ p) /\ (WriteString_bw b p).2 = werr (WriteString_bw b p).1 /\
   (werr b = true -> werr (WriteString_bw b p).1 = true)).
Proof.
  intros Hok. unfold Write_bw, WriteString_bw.
  destruct (write_loop_spec (S (length p)) true b p total Hok) as (? & ? & H1); [case_test; lia|].
  destruct (write_loop_spec (S (length p)) false b p total Hok) as (? & ? & H2); [case_test; lia|].
  split_and!; try done; intros He; [by rewrite H1 | by rewrite H2].
Qed.

(** ** Decimal numbers *)

Lemma dec_loop_value fuel : forall n acc, 0 <= n -> (Z.to_nat (Z.log2 n) <= fuel)%nat ->
  exists ds, dec_loop fuel n acc = ds ++ acc /\ dec_value ds = n /\ Forall (fun d => 48 <= d <= 57) ds /\ ds <> [].
Proof.
  induction fuel as [|fuel IH]; intros n acc Hn Hf; simpl;
    pose proof (Z.mod_pos_bound n 10 ltac:(lia)); pose proof (Z.div_mod n 10 ltac:(lia)); case_test.
  - exists [48 + n mod 10]. split_and!; try done; [unfold dec_value; simpl; lia|repeat constructor; lia].
  - assert (n < 10); [|assert (n / 10 = 0) by (apply Z.div_small; lia); lia].
    assert (Z.log2 n = 0) as Hlog by (pose proof (Z.log2_nonneg n); lia).
    destruct (decide (n = 0)); [lia|]. destruct (Z.log2_spec n ltac:(lia)) as [_ Hup]. rewrite Hlog in Hup. simpl in Hup. lia.
  - exists [48 + n mod 10]. split_and!; try done; [unfold dec_value; simpl; lia|repeat constructor; lia].
  - assert (0 < n / 10) by (pose proof (Z.div_pos n 10); lia).
    destruct (IH (n / 10) ((48 + n mod 10) :: acc)) as (ds & -> & Hv & Hd & Hne); [lia| |].
    { assert (Z.log2 (n / 10) < Z.log2 n); [|lia].
      assert (Z.log2 (n / 10) <= Z.log2 (n / 2)) as Hl by (apply Z.log2_le_mono, Z.div_le_compat_l; lia).
      change (n / 2) with (n / 2 ^ 1) in Hl. rewrite <- Z.shiftr_div_pow2, Z.log2_shiftr in Hl by lia.
      assert (1 <= Z.log2 n); [|lia]. change 1 with (Z.log2 2). apply Z.log2_le_mono. lia. }
    exists (ds ++ [48 + n mod 10]). rewrite <- app_assoc. split_and!; try done.
    + unfold dec_value in *. rewrite fold_left_app, Hv. simpl. lia.
    + apply Forall_app. split; [done|]. repeat constructor; lia.
    + by destruct ds.
Qed.

Lemma dec_spec n : 0 <= n -> dec_value (dec n) = n /\ Forall (fun d => 48 <= d <= 57) (dec n) /\ dec n <> [].
Proof.
  intros Hn. unfold dec. destruct (dec_loop_value (Z.to_nat (Z.log2 n)) n [] Hn ltac:(lia)) as (ds & -> & ? & ? & ?).
  by rewrite app_nil_r.
Qed.

Lemma log2_div10 n : 0 < n / 10 -> Z.log2 (n / 10) < Z.log2 n.
Proof.
  intros Hn. pose proof (Z.div_mod n 10 ltac:(lia)). pose proof (Z.mod_pos_bound n 10 ltac:(lia)).
  assert (Z.log2 (n / 10) <= Z.log2 (n / 2)) as Hl by (apply Z.log2_le_mono, Z.div_le_compat_l; lia).
  change (n / 2) with (n / 2 ^ 1) in Hl. rewrite <- Z.shiftr_div_pow2, Z.log2_shiftr in Hl by lia.
  assert (1 <= Z.log2 n); [|lia]. change 1 with (Z.log2 2). apply Z.log2_le_mono. lia.
Qed.

Lemma dec_loop_acc f : forall n acc, dec_loop f n acc = dec_loop f n [] ++ acc.
Proof.
  induction f as [|f IH]; intros n acc; simpl; destruct (n / 10 =? 0); try done.
  rewrite (IH _ (_ :: acc)), (IH _ [_]). by rewrite <- app_assoc.
Qed.

Lemma dec_loop_fuel f : forall f' n acc, 0 <= n -> (Z.to_nat (Z.log2 n) <= f)%nat -> (Z.to_nat (Z.log2 n) <= f')%nat ->
  dec_loop f n acc = dec_loop f' n acc.
Proof.
  induction f as [|f IH]; intros [|f'] n acc Hn Hf Hf'; simpl; try done;
    (destruct (Z.eqb_spec (n / 10) 0) as [?|Hne]; [done|]);
    pose proof (log2_div10 n ltac:(pose proof (Z.div_pos n 10); lia)); pose proof (Z.log2_nonneg (n / 10)); try lia.
  assert (0 <= n / 10) by (apply Z.div_pos; lia). apply IH; lia.
Qed.

Lemma dec_step n : 0 <= n -> dec n = (if n / 10 =? 0 then [] else dec (n / 10)) ++ [48 + n mod 10].
Proof.
  intros Hn. unfold dec at 1. destruct (Z.to_nat (Z.log2 n)) as [|f] eqn:Hf; simpl;
    (destruct (Z.eqb_spec (n / 10) 0) as [?|Hne]; [done|]);
    pose proof (log2_div10 n ltac:(pose proof (Z.div_pos n 10); lia)); pose proof (Z.log2_nonneg (n / 10)); [lia|].
  assert (0 <= n / 10) by (apply Z.div_pos; lia).
  rewrite dec_loop_acc. f_equal. apply dec_loop_fuel; lia.
Qed.

Lemma dec_length k : forall n, 0 <= n < 10 ^ Z.of_nat (S k) -> (length (dec n) <= S k)%nat.
Proof.
  induction k as [|k IH]; intros n Hn; rewrite dec_step by lia; rewrite length_app; simpl.
  - rewrite (Z.div_small n 10) by (simpl in Hn; lia). simpl. lia.
  - case_test; [simpl; lia|]. assert (length (dec (n / 10)) <= S k)%nat; [|lia]. apply IH.
    split; [apply Z.div_pos; lia|]. apply Z.div_lt_upper_bound; [lia|].
    replace (10 * 10 ^ Z.of_nat (S k)) with (10 ^ Z.of_nat (S (S k))); [lia|].
    rewrite (Nat2Z.inj_succ (S k)), Z.pow_succ_r by lia. done.
Qed.

Lemma sub_insert_at (s : list Z) i x : 0 <= i < zlen s ->
  sub (<[Z.to_nat i := x]> s) i (zlen s) = x :: sub s (i + 1) (zlen s).
Proof.
  intros Hi. unfold sub, zlen in *. rewrite !take_ge by (rewrite ?length_drop, ?length_insert; lia).
  replace (Z.to_nat (i + 1)) with (S (Z.to_nat i)) by lia.
  rewrite insert_take_drop by lia. rewrite drop_app_ge; rewrite length_take; [|lia].
  by replace (Z.to_nat i - Z.to_nat i `min` length s)%nat with 0%nat by lia.
Qed.

Lemma len_loop_spec fuel : forall s i n, 0 <= n -> zlen (dec n) <= i + 1 -> i < zlen s ->
  (length (dec n) <= fuel)%nat ->
  exists s', len_loop fuel s i n = Ret (s', i - zlen (dec n)) /\ zlen s' = zlen s /\
    sub s' (i - zlen (dec n) + 1) (zlen s) = dec n ++ sub s (i + 1) (zlen s).
Proof.
  induction fuel as [|fuel IH]; intros s i n Hn Hi Hs Hf;
    rewrite (dec_step n Hn) in *; rewrite zlen_app, ?length_app in *; change (zlen [_]) with 1 in *; simpl in Hf; [lia|].
  simpl. set (ds := if n / 10 =? 0 then [] else dec (n / 10)) in *. pose proof (zlen_nonneg ds).
  rewrite zset_ok by lia. cbn [go_bind]. rewrite Z.rem_mod_nonneg, Z.quot_div_nonneg by lia.
  pose proof (Z.mod_pos_bound n 10 ltac:(lia)). rewrite wrap_small by lia.
  destruct (Z.eqb_spec (n / 10) 0) as [E|E].
  - subst ds. change (zlen []) with 0. exists (<[Z.to_nat i := 48 + n mod 10]> s).
    split; [by replace (i - (0 + 1)) with (i - 1) by lia|]. rewrite zlen_insert. split; [done|].
    replace (i - (0 + 1) + 1) with i by lia. by rewrite sub_insert_at by lia.
  - assert (0 <= n / 10) by (apply Z.div_pos; lia).
    destruct (IH (<[Z.to_nat i := 48 + n mod 10]> s) (i - 1) (n / 10)) as (s' & -> & Hl & Hsub);
      rewrite ?zlen_insert; fold ds; subst ds; try lia.
    exists s'. rewrite zlen_insert in *.
    split; [by replace (i - 1 - zlen (dec (n / 10))) with (i - (zlen (dec (n / 10)) + 1)) by lia|]. split; [done|].
    replace (i - (zlen (dec (n / 10)) + 1) + 1) with (i - 1 - zlen (dec (n / 10)) + 1) by lia.
    rewrite Hsub, <- app_assoc. f_equal. replace (i - 1 + 1) with i by lia. by rewrite sub_insert_at by lia.
Qed.

Definition wc_ok (w : wcon) (total : list Z) : Prop := zlen (lenScratch w) = 32 /\ bw_ok (bw w) total.

(** The result of a write: the bytes are added, the error reported is the
    writer's sticky one, and an earlier error persists. *)
Definition wrote (w : wcon) (total p : list Z) (r : go (wcon * bool)) : Prop :=
  exists w' e, r = Ret (w', e) /\ wc_ok w' (total ++ p) /\ e = werr (bw w') /\
    (werr (bw w) = true -> e = true).

Lemma writeLen_spec w total prefix n : wc_ok w total -> 0 <= n < 2 ^ 63 ->
  wrote w total (header prefix n) (writeLen w prefix n).
Proof.
  intros [Hs Hb] Hn. unfold writeLen.
  assert (length (dec n) <= 19)%nat as Hd by (apply dec_length; simpl; lia).
  rewrite zset_ok by lia. cbn [go_bind]. rewrite zset_ok by (rewrite zlen_insert; lia). cbn [go_bind].
  set (s := <[Z.to_nat (zlen _ - 2) := CR]> _). assert (zlen s = 32) as Hl by (unfold s; by rewrite !zlen_insert).
  destruct (len_loop_spec 31 s (zlen s - 3) n) as (s' & -> & Hl' & Hsub); [lia|unfold zlen in *; lia|lia|lia|].
  cbn [go_bind]. rewrite Hl in *. set (i := 32 - 3 - zlen (dec n)) in *.
  assert (0 <= i < 32) by (unfold i, zlen in *; lia). rewrite zset_ok by lia. cbn [go_bind].
  rewrite slice_ok by (rewrite ?zlen_insert; lia). cbn [go_bind].
  assert (sub (<[Z.to_nat i := prefix]> s') i (zlen (<[Z.to_nat i := prefix]> s')) = header prefix n) as ->.
  { rewrite zlen_insert, sub_insert_at by lia. unfold header. f_equal. rewrite Hl', Hsub. f_equal.
    unfold s. rewrite zlen_insert, Hs. change (Z.to_nat (32 - 1)) with 31%nat. change (Z.to_nat (32 - 2)) with 30%nat.
    destruct (lenScratch w) as [|x0 l]; [done|].
    do 31 (destruct l as [|?x l]; [unfold zlen in Hs; simpl in Hs; lia|]).
    destruct l; [done|]. unfold zlen in Hs. simpl in Hs. lia. }
  destruct (write_spec (bw w) (header prefix n) total Hb) as [(H1 & H2 & H3) _].
  destruct (Write_bw (bw w) (header prefix n)) as [b e]. simpl in *. subst e.
  eexists _, _. split; [done|]. split; [|done]. split; [by simpl; rewrite zlen_insert|done].
Qed.

Definition short (s : list Z) : Prop := zlen s < 2 ^ 63.

Lemma write_bulk_spec (direct : bool) w total s : wc_ok w total -> short s ->
  wrote w total (bulk s)
    (let! (w, _) := writeLen w 36 (zlen s) in
     let (b, _) := (if direct then Write_bw else WriteString_bw) (bw w) s in
     let (b, err) := WriteString_bw b STRLINEBREAK in
     Ret (mkWcon (lenScratch w) b, err)).
Proof.
  intros Hw Hs. pose proof (zlen_nonneg s).
  destruct (writeLen_spec w total 36 (zlen s) Hw) as (w1 & e1 & -> & [Hl1 Hw1] & -> & He1); [unfold short in Hs; lia|].
  cbn [go_bind].
  assert (exists b2, (if direct then Write_bw else WriteString_bw) (bw w1) s = (b2, werr b2) /\
    bw_ok b2 ((total ++ header 36 (zlen s)) ++ s) /\ (werr (bw w1) = true -> werr b2 = true)) as (b2 & -> & Hb2 & He2).
  { destruct (write_spec (bw w1) s _ Hw1) as [(? & E & ?) (? & E' & ?)].
    destruct direct; [destruct (Write_bw _ _) as [b e]|destruct (WriteString_bw _ _) as [b e]]; simpl in *; subst e; eauto. }
  destruct (write_spec b2 STRLINEBREAK _ Hb2) as [_ (Hb3 & E3 & He3)].
  destruct (WriteString_bw b2 STRLINEBREAK) as [b3 e3]. simpl in *. subst e3.
  eexists _, _. split; [done|]. split; [split; [done|]|split; [done|auto]].
  unfold bulk. by rewrite <- !app_assoc in Hb3.
Qed.

Section Args.
Context {F V : Type} (AppendFloat : F -> list Z) (Fprint : V -> list Z).
Implicit Types (a : arg F V).

Lemma writeInterface_spec w total a : wc_ok w total -> short (arg_bytes AppendFloat Fprint a) ->
  wrote w total (bulk (arg_bytes AppendFloat Fprint a)) (writeInterface AppendFloat Fprint w a).
Proof.
  intros Hw Hs. destruct a as [s|p|n|n|f|[]| |v]; simpl in *;
    first [by apply (write_bulk_spec false) | by apply (write_bulk_spec true)].
Qed.

Lemma write_args_spec args : forall w total, wc_ok w total -> werr (bw w) = false ->
  Forall (fun a => short (arg_bytes AppendFloat Fprint a)) args ->
  exists w' p rest, write_args AppendFloat Fprint w args = Ret (w', werr (bw w')) /\ wc_ok w' (total ++ p) /\
    concat (bulk <$> (arg_bytes AppendFloat Fprint <$> args)) = p ++ rest /\ (werr (bw w') = false -> rest = []).
Proof.
  induction args as [|a args IH]; intros w total Hw He Hall; rewrite ?fmap_cons; cbn [concat write_args].
  - exists w, [], []. by rewrite He, app_nil_r.
  - apply Forall_cons in Hall as [Ha Hall].
    destruct (writeInterface_spec w total a Hw Ha) as (w1 & e1 & -> & Hw1 & -> & _). cbn [go_bind].
    destruct (werr (bw w1)) eqn:E1.
    + eexists w1, _, _. split; [by rewrite E1|]. split; [done|]. split; [done|]. by rewrite E1.
    + destruct (IH w1 _ Hw1 E1 Hall) as (w2 & p & rest & -> & Hw2 & Hc & Hr).
      exists w2, (bulk (arg_bytes AppendFloat Fprint a) ++ p), rest. split; [done|].
      rewrite app_assoc. split; [done|]. rewrite Hc, <- app_assoc. done.
Qed.

(** The command body is the header, the command name and its arguments. *)
Lemma write_command_shape w argNum cmd arg1 arg2 arg3 args parts :
  command_parts AppendFloat Fprint argNum cmd arg1 arg2 arg3 args = Some parts ->
  exists l, parts = cmd :: (arg_bytes AppendFloat Fprint <$> l) /\
    write_command_body AppendFloat Fprint w argNum cmd arg1 arg2 arg3 args =
      (let! (w, err) := writeLen w 42 (zlen parts) in
       if (err : bool) then Ret (w, Some ErrWrite)
       else
         let! (w, err) := writeString w cmd in
         if (err : bool) then Ret (w, Some ErrWrite)
         else let! (w, err) := write_args AppendFloat Fprint w l in Ret (w, if (err : bool) then Some ErrWrite else None)).
Proof.
  unfold command_parts, ARGSNUMARRAY, ARGSNUM0, ARGSNUM1, ARGSNUM2, ARGSNUM3, ARGSKEY.
  assert (forall l : list (arg F V), zlen (arg_bytes AppendFloat Fprint <$> l) = zlen l) as Hz
    by (intros; unfold zlen; by rewrite length_fmap).
  destruct (Z.eqb_spec argNum (-1)) as [->|].
  { destruct args as [l|]; [|done]. intros [= <-]. exists l. split; [done|]. by rewrite zlen_cons, Hz. }
  destruct (Z.eqb_spec argNum 4) as [->|].
  { destruct args as [l|]; [|done]. intros [= <-]. exists (arg1 :: l). split; [done|]. rewrite !zlen_cons, Hz.
    by replace (1 + (1 + zlen l)) with (2 + zlen l) by lia. }
  destruct (Z.eqb_spec argNum 0) as [->|]; [intros [= <-]|].
  { exists []. split; [done|]. unfold write_command_body. cbn [Z.eqb Pos.eqb ARGSKEY ARGSNUMARRAY ARGSNUM0 go_bind].
    change (zlen [cmd]) with (1 + 0). destruct (writeLen w 42 (1 + 0)) as [[w1 []]|]; [done| |done]. cbn [go_bind].
    by destruct (writeString w1 cmd) as [[w2 []]|]. }
  destruct (Z.eqb_spec argNum 1) as [->|]; [intros [= <-]; by exists [arg1]|].
  destruct (Z.eqb_spec argNum 2) as [->|]; [intros [= <-]; by exists [arg1; arg2]|].
  destruct (Z.eqb_spec argNum 3) as [->|]; [intros [= <-]; by exists [arg1; arg2; arg3]|done].
Qed.

(** What the connection has after a command was written and flushed. *)
Lemma Flush_spec b total : bw_ok b total ->
  bw_ok (Flush_bw b).1 total /\ ((Flush_bw b).2 = false -> sent (Flush_bw b).1 = total /\ wbuf (Flush_bw b).1 = []).
Proof.
  intros Hok. unfold Flush_bw. destruct (werr b) eqn:He; [done|].
  destruct (wbuf b) as [|x p] eqn:Hb.
  - split; [done|]. intros _. simpl. rewrite <- (bo_ok _ _ Hok He), Hb, app_nil_r. done.
  - pose proof (conn_write_ok b total [] Hok He) as H. rewrite !app_nil_r, Hb in H. cbn [fst snd].
    split; [done|]. intros Hf. rewrite <- (bo_ok _ _ H Hf), conn_write_buf, app_nil_r. done.
Qed.

Lemma bw_prefix b total : bw_ok b total -> exists q, total = sent b ++ q.
Proof. intros H. destruct (werr b) eqn:E; [by apply (bo_err _ _ H)|]. exists (wbuf b). symmetry. by apply (bo_ok _ _ H). Qed.

Lemma write_command_body_spec w total argNum cmd arg1 arg2 arg3 args parts :
  wc_ok w total -> werr (bw w) = false ->
  command_parts AppendFloat Fprint argNum cmd arg1 arg2 arg3 args = Some parts ->
  Forall short parts -> zlen parts < 2 ^ 63 ->
  exists w' p rest, write_command_body AppendFloat Fprint w argNum cmd arg1 arg2 arg3 args =
      Ret (w', if werr (bw w') then Some ErrWrite else None) /\
    wc_ok w' (total ++ p) /\ encode_command parts = p ++ rest /\ (werr (bw w') = false -> rest = []).
Proof.
  intros Hw He Hparts Hshort Hn.
  destruct (write_command_shape w _ _ _ _ _ _ _ Hparts) as (l & -> & ->).
  set (parts := cmd :: _) in *. apply Forall_cons in Hshort as [Hc Hl].
  rewrite Forall_fmap in Hl. unfold compose in Hl.
  destruct (writeLen_spec w total 42 (zlen parts) Hw) as (w1 & e1 & -> & Hw1 & -> & _);
    [pose proof (zlen_nonneg parts); lia|]. cbn [go_bind].
  destruct (werr (bw w1)) eqn:E1.
  { eexists w1, _, _. rewrite E1. split; [done|]. split; [exact Hw1|]. by split. }
  destruct (write_bulk_spec false w1 _ cmd Hw1 Hc) as (w2 & e2 & Hws & Hw2 & -> & _).
  change (writeString w1 cmd = Ret (w2, werr (bw w2))) in Hws. rewrite Hws. cbn [go_bind].
  assert (encode_command parts = header 42 (zlen parts) ++ bulk cmd ++ concat (bulk <$> (arg_bytes AppendFloat Fprint <$> l)))
    as Henc by done.
  destruct (werr (bw w2)) eqn:E2.
  { eexists w2, (header 42 (zlen parts) ++ bulk cmd), _. rewrite E2, app_assoc. split; [done|]. split; [exact Hw2|].
    split; [by rewrite Henc, app_assoc|done]. }
  destruct (write_args_spec l w2 _ Hw2 E2 Hl) as (w3 & p & rest & -> & Hw3 & Hp & Hr). cbn [go_bind].
  exists w3, (header 42 (zlen parts) ++ bulk cmd ++ p), rest. split; [done|].
  rewrite !app_assoc. split; [done|]. rewrite Henc, Hp, !app_assoc. done.
Qed.

(** C25: a command reaches the connection whole or an error is reported.  For
    every way of passing the arguments and every argument type, on a writer
    that has taken [total] without error: if [writeCommand] and the following
    [Flush] report no error, the connection has received [total] followed by
    exactly the RESP encoding of the command; if one reports an error, it has a
    prefix of that.  The errors the code drops between the writes are not lost,
    because the writer's error is sticky. *)
Theorem write_command_wire (w : wcon) (total : list Z) (argNum : Z) (cmd : list Z) (arg1 arg2 arg3 : arg F V)
    (args : option (list (arg F V))) (parts : list (list Z))
    (Hw : wc_ok w total) (He : werr (bw w) = false)
    (Hparts : command_parts AppendFloat Fprint argNum cmd arg1 arg2 arg3 args = Some parts)
    (Hshort : Forall short parts) (Hn : zlen parts < 2 ^ 63) :
  exists w' e, writeCommand AppendFloat Fprint w argNum cmd arg1 arg2 arg3 args = (w', e) /\
    (e = None \/ e = Some ErrWrite) /\
    (exists rest, total ++ encode_command parts = sent (Flush_bw (bw w')).1 ++ rest) /\
    (e = None -> (Flush_bw (bw w')).2 = false -> sent (Flush_bw (bw w')).1 = total ++ encode_command parts).
Proof.
  destruct (write_command_body_spec w total _ _ _ _ _ _ _ Hw He Hparts Hshort Hn) as (w' & p & rest & Hb & Hok & Hp & Hr).
  unfold writeCommand. rewrite Hb. eexists _, _. split; [done|].
  destruct (Flush_spec _ _ (proj2 Hok)) as [Hf Hsent]. split; [destruct (werr (bw w')); auto|]. split.
  - destruct (bw_prefix _ _ Hf) as [q Hq]. exists (q ++ rest). by rewrite Hp, app_assoc, Hq, <- app_assoc.
  - intros Hnone Hfl. destruct (werr (bw w')) eqn:E; [done|]. rewrite (proj1 (Hsent Hfl)), Hp, (Hr eq_refl).
    by rewrite app_nil_r.
Qed.

End Args.

Lemma write_command_wire_witness :
  let w := mkWcon (zeros 32) (mkBufw [] [] false 1000) in
  let wire := encode_command [str "SET"; str "k"; str "-7"] in
  exists w' e,
    writeCommand (fun f : list Z => f) (fun v : list Z => v) w ARGSNUM2 (str "SET") (AString (str "k")) (AInt (-7))
      ANil None = (w', e) /\
    (e = None \/ e = Some ErrWrite) /\
    (exists rest, [] ++ wire = sent (Flush_bw (bw w')).1 ++ rest) /\
    (e = None -> (Flush_bw (bw w')).2 = false -> sent (Flush_bw (bw w')).1 = [] ++ wire).
Proof.
  intros w wire. apply (write_command_wire (fun f : list Z => f) (fun v : list Z => v)).
  - split; [reflexivity|]. constructor; simpl; try done; vm_compute; congruence.
  - reflexivity.
  - vm_compute. reflexivity.
  - repeat constructor; vm_compute; congruence.
  - vm_compute. congruence.
Defined.
