(* ===== verification/Respread.v ===== *)
(** * redis/redisConn.go: reading replies

    The inbound side of the connection is the byte stream that will arrive,
    followed by end of file.  [readReply] is recursive on arrays; the fuel
    bounds both the nesting and the number of elements read, and one more than
    the length of the stream is always enough, since every reply takes at least
    one byte. *)

From S2P Require Import Prelude Resp.

(** The dynamic types of a reply: nil, string, [Error], int64, [[]byte] and
    [[]interface{}]. *)
#[local] Unset Elimination Schemes.
Inductive reply : Type :=
| RNil
| RStatus (s : list Z)
| RError (s : list Z)
| RInt (n : Z)
| RBulk (p : list Z)
| RArray (l : list reply).
#[local] Set Elimination Schemes.

Inductive read_err : Type :=
| EEOF
| EUnexpectedEOF
| ELongLine
| EBadTerminator
| EMalformedLength
| EIllegalLength
| EMalformedInt
| EShortLine
| EBadBulk
| EUnexpectedLine
| ENetFatal.

(** ** Lines *)

Definition rbuf_size : nat := Z.to_nat 4096.

(** The bytes up to and including the first line feed. *)
Fixpoint split_lf (l : list Z) : option (list Z * list Z) :=
  match l with
  | [] => None
  | b :: l =>
      if b =? LF then Some ([b], l)
      else match split_lf l with
           | Some (p, rest) => Some (b :: p, rest)
           | None => None
           end
  end.

(** [bufio.Reader.ReadSlice('\n')]: the line must fit into the buffer. *)
Definition ReadSlice (inp : list Z) : list Z * (list Z + read_err) :=
  match split_lf (take rbuf_size inp) with
  | Some (p, _) => (drop (length p) inp, inl p)
  | None =>
      if (rbuf_size <=? length inp)%nat then (drop rbuf_size inp, inr ELongLine) else ([], inr EEOF)
  end.

Definition readLine (inp : list Z) : list Z * (list Z + read_err) :=
  match ReadSlice inp with
  | (inp, inr e) => (inp, inr e)
  | (inp, inl p) =>
      let i := zlen p - 2 in
      if (i <? 0) || negb (nth (Z.to_nat i) p 0 =? CR) then (inp, inr EBadTerminator)
      else (inp, inl (take (Z.to_nat i) p))
  end.

(** ** Numbers *)

(** The loops [for _, b := range p] with Go's wrap-around on int64. *)
Fixpoint digits_loop (p : list Z) (n : Z) : option Z :=
  match p with
  | [] => Some n
  | b :: p =>
      let n := i64 (n * 10) in
      if (b <? 48) || (57 <? b) then None else digits_loop p (i64 (n + (b - 48)))
  end.

Definition parseLen (p : list Z) : Z * option read_err :=
  match p with
  | [] => (-1, Some EMalformedLength)
  | _ =>
      if bool_decide (p = [45; 49]) then (-1, None)
      else match digits_loop p 0 with
           | None => (-1, Some EIllegalLength)
           | Some n => (n, None)
           end
  end.

Definition parseInt (p : list Z) : Z * option read_err :=
  match p with
  | [] => (0, Some EMalformedInt)
  | b :: rest =>
      let negate := b =? 45 in
      let p := if negate then rest else p in
      match p with
      | [] => (0, Some EMalformedInt)
      | _ =>
          match digits_loop p 0 with
          | None => (0, Some EIllegalLength)
          | Some n => (if negate then i64 (- n) else n, None)
          end
      end
  end.

(** ** Replies *)

(** [make([]T, n)] for elements of [size] bytes panics above the address
    space. *)
Definition maxAlloc : Z := 2 ^ 48.
Definition make_ok (n size : Z) : bool := n * size <=? maxAlloc.

Definition okReply : reply := RStatus (str "OK").
Definition pongReply : reply := RStatus (str "PONG").

(** [io.ReadFull] *)
Definition ReadFull (inp : list Z) (n : Z) : list Z * (list Z + read_err) :=
  if n <=? zlen inp then (drop (Z.to_nat n) inp, inl (take (Z.to_nat n) inp))
  else ([], inr (match inp with [] => EEOF | _ => EUnexpectedEOF end)).

(** The reader of one reply and the loop over the elements of an array: the
    stream left, the value and the error; [None] when the fuel runs out. *)
Definition rresult : Type := list Z * reply * option read_err.

Fixpoint read_elems (rd : list Z -> option rresult) (fuel : nat) (n : Z) (inp : list Z)
    : option (list Z * (list reply + read_err)) :=
  if n <=? 0 then Some (inp, inl [])
  else
    match fuel with
    | O => None
    | S fuel =>
        match rd inp with
        | None => None
        | Some (inp, _, Some e) => Some (inp, inr e)
        | Some (inp, r, None) =>
            match read_elems rd fuel (n - 1) inp with
            | None => None
            | Some (inp, inl rs) => Some (inp, inl (r :: rs))
            | Some (inp, inr e) => Some (inp, inr e)
            end
        end
    end.

(** [case '$'] *)
Definition read_bulk (inp line : list Z) : rresult :=
  match parseLen line with
  | (_, Some e) => (inp, RNil, Some e)
  | (n, None) =>
      if n <? 0 then (inp, RNil, None)
      else if negb (make_ok n 1) then (inp, RNil, Some ENetFatal)
      else
        match ReadFull inp n with
        | (inp, inr e) => (inp, RNil, Some e)
        | (inp, inl p) =>
            match readLine inp with
            | (inp, inr e) => (inp, RNil, Some e)
            | (inp, inl l) => if zlen l =? 0 then (inp, RBulk p, None) else (inp, RNil, Some EBadBulk)
            end
        end
  end.

(** [case '*'] *)
Definition read_array (rd : list Z -> option rresult) (fuel : nat) (inp line : list Z) : option rresult :=
  match parseLen line with
  | (_, Some e) => Some (inp, RNil, Some e)
  | (n, None) =>
      if n <? 0 then Some (inp, RNil, None)
      else if negb (make_ok n 16) then Some (inp, RNil, Some ENetFatal)
      else
        match read_elems rd fuel n inp with
        | None => None
        | Some (inp, inr e) => Some (inp, RNil, Some e)
        | Some (inp, inl rs) => Some (inp, RArray rs, None)
        end
  end.

(** [case '+']: the two frequent replies are shared values. *)
Definition read_status (line : list Z) : reply :=
  if bool_decide (line = str "+OK") then okReply
  else if bool_decide (line = str "+PONG") then pongReply
  else RStatus (drop 1 line).

Fixpoint readReply (fuel : nat) (inp : list Z) : option rresult :=
  match fuel with
  | O => None
  | S fuel =>
      match readLine inp with
      | (inp, inr e) => Some (inp, RNil, Some e)
      | (inp, inl line) =>
          match line with
          | [] => Some (inp, RNil, Some EShortLine)
          | b :: rest =>
              if b =? 43 then Some (inp, read_status line, None)
              else if b =? 45 then Some (inp, RError rest, None)
              else if b =? 58 then let (n, e) := parseInt rest in Some (inp, RInt n, e)
              else if b =? 36 then Some (read_bulk inp rest)
              else if b =? 42 then read_array (readReply fuel) fuel inp rest
              else Some (inp, RNil, Some EUnexpectedLine)
          end
      end
  end.

(** [receive]: an error reply becomes the error of the call. *)
Inductive call_err : Type := ErrRead (e : read_err) | ErrServer (s : list Z).

Definition receive (fuel : nat) (inp : list Z) : option (list Z * reply * option call_err) :=
  match readReply fuel inp with
  | None => None
  | Some (inp, r, Some e) => Some (inp, r, Some (ErrRead e))
  | Some (inp, RError s, None) => Some (inp, RError s, Some (ErrServer s))
  | Some (inp, r, None) => Some (inp, r, None)
  end.

(** ** Specification: the encoding of replies *)

Fixpoint encode (r : reply) : list Z :=
  match r with
  | RNil => str "$-1" ++ [CR; LF]
  | RStatus s => 43 :: s ++ [CR; LF]
  | RError s => 45 :: s ++ [CR; LF]
  | RInt n => 58 :: itoa n ++ [CR; LF]
  | RBulk p => bulk p
  | RArray l => header 42 (zlen l) ++ concat (map encode l)
  end.

(** Replies a server can send: lines without a line feed that fit into the
    reader's buffer, 64-bit integers, sizes that can be allocated. *)
Fixpoint sendable (r : reply) : Prop :=
  match r with
  | RNil => True
  | RStatus s | RError s => (LF ∉ s) /\ (length s + 3 <= rbuf_size)%nat
  | RInt n => - 2 ^ 63 <= n < 2 ^ 63
  | RBulk p => zlen p <= maxAlloc
  | RArray l => zlen l * 16 <= maxAlloc /\ fold_right (fun r P => sendable r /\ P) True l
  end.

(** Induction over replies with the elements of arrays. *)
Fixpoint reply_ind (P : reply -> Prop) (HN : P RNil) (HS : forall s, P (RStatus s)) (HE : forall s, P (RError s))
    (HI : forall n, P (RInt n)) (HB : forall p, P (RBulk p)) (HA : forall l, Forall P l -> P (RArray l))
    (r : reply) : P r :=
  match r with
  | RNil => HN
  | RStatus s => HS s
  | RError s => HE s
  | RInt n => HI n
  | RBulk p => HB p
  | RArray l => HA l ((fix all (l : list reply) : Forall P l :=
      match l with
      | [] => Forall_nil_2 P
      | r :: l => Forall_cons_2 P r l (reply_ind P HN HS HE HI HB HA r) (all l)
      end) l)
  end.

(** ** Numbers *)

Lemma digits_loop_value ds : forall a, Forall (fun d => 48 <= d <= 57) ds ->
  digits_loop ds (i64 a) = Some (i64 (fold_left (fun a b => a * 10 + (b - 48)) ds a)).
Proof.
  induction ds as [|d ds IH]; intros a Hd; simpl; [done|]. apply Forall_cons in Hd as [Hd Hds].
  rewrite (proj2 (Z.ltb_ge d 48)), (proj2 (Z.ltb_ge 57 d)) by lia. simpl.
  rewrite swrap_mul_l, swrap_add_l by lia. by apply IH.
Qed.

Lemma digits_loop_dec n : 0 <= n -> digits_loop (dec n) 0 = Some (i64 n).
Proof.
  intros Hn. destruct (dec_spec n Hn) as (Hv & Hd & _). change 0 with (i64 0) at 1.
  rewrite digits_loop_value by done. fold (dec_value (dec n)). by rewrite Hv.
Qed.

Lemma dec_head n : 0 <= n -> exists d ds, dec n = d :: ds /\ 48 <= d <= 57.
Proof.
  intros Hn. destruct (dec_spec n Hn) as (_ & Hd & Hne). destruct (dec n) as [|d ds]; [done|].
  apply Forall_cons in Hd as [Hd _]. eauto.
Qed.

Lemma parseLen_dec n : 0 <= n -> parseLen (dec n) = (i64 n, None).
Proof.
  intros Hn. unfold parseLen. destruct (dec_head n Hn) as (d & ds & E & Hd).
  rewrite E, bool_decide_eq_false_2 by (intros [= -> _]; lia). rewrite <- E. by rewrite digits_loop_dec.
Qed.

Lemma parseInt_itoa n : parseInt (itoa n) = (i64 n, None).
Proof.
  unfold itoa. case_test.
  - simpl. destruct (dec_head (- n) ltac:(lia)) as (d & ds & E & Hd). rewrite E, <- E.
    rewrite digits_loop_dec by lia. rewrite swrap_opp by lia. by rewrite Z.opp_involutive.
  - unfold parseInt. destruct (dec_head n ltac:(lia)) as (d & ds & E & Hd). rewrite E.
    rewrite (proj2 (Z.eqb_neq d 45)) by lia. rewrite <- E. by rewrite digits_loop_dec by lia.
Qed.

(** Integers and lengths are read modulo 2^64.  [parseInt] of the decimal
    form of any integer and [parseLen] of any natural number succeed with the
    64-bit value: exact in range, down to the smallest int64, and silently
    wrapped around outside. *)
Theorem parse_numbers (n : Z) :
  parseInt (itoa n) = (i64 n, None) /\ (0 <= n -> parseLen (dec n) = (i64 n, None)) /\
  (- 2 ^ 63 <= n < 2 ^ 63 -> i64 n = n).
Proof.
  split_and!; [apply parseInt_itoa | apply parseLen_dec |]. intros. apply swrap_small; lia.
Qed.

(** ** Lines *)

Lemma split_lf_line s rest : (LF ∉ s) -> split_lf (s ++ LF :: rest) = Some (s ++ [LF], rest).
Proof.
  induction s as [|b s IH]; intros Hs; simpl; [done|]. rewrite not_elem_of_cons in Hs. destruct Hs as [Hb Hs].
  rewrite (proj2 (Z.eqb_neq b LF)) by done. by rewrite IH.
Qed.

Lemma readLine_line s rest : (LF ∉ s) -> (length s + 2 <= rbuf_size)%nat ->
  readLine (s ++ [CR; LF] ++ rest) = (rest, inl s).
Proof.
  intros Hs Hlen. unfold readLine, ReadSlice.
  assert (take rbuf_size (s ++ [CR; LF] ++ rest) = (s ++ [CR]) ++ LF :: take (rbuf_size - (length s + 2)) rest) as ->.
  { rewrite take_app_ge by lia. rewrite <- app_assoc. f_equal.
    replace (rbuf_size - length s)%nat with (S (S (rbuf_size - (length s + 2)))) by lia.
    cbn [app]. rewrite !firstn_cons. reflexivity. }
  rewrite split_lf_line by (rewrite elem_of_app, list_elem_of_singleton; intros [?|?]; done).
  rewrite (app_assoc s [CR; LF] rest). replace (s ++ [CR; LF]) with ((s ++ [CR]) ++ [LF]) by (by rewrite <- app_assoc).
  rewrite drop_app_length. rewrite <- app_assoc. simpl.
  assert (zlen (s ++ [CR; LF]) - 2 = zlen s) as -> by (rewrite zlen_app; change (zlen [CR; LF]) with 2; lia).
  rewrite (proj2 (Z.ltb_ge _ _) (zlen_nonneg s)). unfold zlen. rewrite Nat2Z.id.
  rewrite app_nth2, Nat.sub_diag by lia. simpl. by rewrite take_app_length.
Qed.

Lemma split_lf_length l p rest : split_lf l = Some (p, rest) -> l = p ++ rest /\ p <> [].
Proof.
  revert p rest. induction l as [|b l IH]; intros p rest; simpl; [done|]. case_test; [by intros [= <- <-]|].
  destruct (split_lf l) as [[p' rest']|]; [|done]. intros [= <- <-]. destruct (IH p' rest' eq_refl) as [-> _]. done.
Qed.

(** Reading a line never grows the stream, and takes at least two bytes when it
    succeeds. *)
Lemma readLine_length inp inp' r : readLine inp = (inp', r) ->
  match r with
  | inl _ => (length inp' + 2 <= length inp)%nat
  | inr _ => (length inp' <= length inp)%nat
  end.
Proof.
  unfold readLine, ReadSlice. destruct (split_lf (take rbuf_size inp)) as [[p rest]|] eqn:E.
  - apply split_lf_length in E as [E Hne].
    assert (length p <= length inp)%nat.
    { pose proof (f_equal length E) as El. rewrite length_take, length_app in El. lia. }
    destruct ((zlen p - 2 <? 0) || _) eqn:Hb; intros [= <- <-]; rewrite length_drop; [lia|].
    apply orb_false_iff in Hb as [Hb _]. apply Z.ltb_ge in Hb. unfold zlen in Hb. lia.
  - destruct (_ <=? _)%nat; intros [= <- <-]; rewrite ?length_drop; simpl; lia.
Qed.

Lemma ReadFull_length inp n inp' r : ReadFull inp n = (inp', r) -> (length inp' <= length inp)%nat.
Proof. unfold ReadFull. case_test; intros [= <- <-]; rewrite ?length_drop; simpl; lia. Qed.

Lemma read_bulk_length inp line inp' r e : read_bulk inp line = (inp', r, e) -> (length inp' <= length inp)%nat.
Proof.
  unfold read_bulk. destruct (parseLen line) as [n [pe|]]; [by intros [= <- <- <-]|].
  case_test; [by intros [= <- <- <-]|]. destruct (negb _); [by intros [= <- <- <-]|].
  destruct (ReadFull inp n) as [inp1 [p|fe]] eqn:Ef; apply ReadFull_length in Ef; [|by intros [= <- <- <-]].
  destruct (readLine inp1) as [inp2 [l|le]] eqn:El; apply readLine_length in El.
  - case_test; intros [= <- <- <-]; lia.
  - intros [= <- <- <-]. lia.
Qed.

(** ** Termination *)

Definition reads (rd : list Z -> option rresult) (bound : nat) : Prop :=
  forall inp, (length inp < bound)%nat -> exists inp' r e, rd inp = Some (inp', r, e) /\
    (length inp' <= length inp)%nat /\ (e = None -> (length inp' < length inp)%nat).

Lemma read_elems_total rd bound fuel : reads rd bound -> forall n inp,
  (length inp < bound)%nat -> (length inp < fuel)%nat ->
  exists inp' r, read_elems rd fuel n inp = Some (inp', r) /\ (length inp' <= length inp)%nat.
Proof.
  intros Hrd. induction fuel as [|fuel IH]; intros n inp Hb Hf; simpl; [lia|].
  case_test; [by eauto|]. destruct (Hrd inp Hb) as (inp1 & r & e & -> & Hle & Hlt).
  destruct e as [e|]; [by eauto|]. specialize (Hlt eq_refl).
  destruct (IH (n - 1) inp1 ltac:(lia) ltac:(lia)) as (inp2 & rs & -> & Hle2).
  destruct rs as [rs|e]; eexists _, _; (split; [done|lia]).
Qed.

Lemma readReply_reads fuel : reads (readReply fuel) fuel.
Proof.
  induction fuel as [|fuel IH]; intros inp Hlen; [lia|]. simpl.
  destruct (readLine inp) as [inp1 [line|e]] eqn:El; apply readLine_length in El.
  2: { eexists _, _, _. split; [done|]. split; [done|done]. }
  assert (forall (r : reply) (e : option read_err), exists inp' r' e', Some (inp1, r, e) = Some (inp', r', e') /\
    (length inp' <= length inp)%nat /\ (e' = None -> (length inp' < length inp)%nat)) as Hsome.
  { intros r e. eexists _, _, _. split; [done|]. split; lia. }
  destruct line as [|b rest]; [apply Hsome|]. do 2 (case_test; [apply Hsome|]).
  case_test; [destruct (parseInt rest); apply Hsome|]. case_test; [|case_test; [|apply Hsome]].
  - destruct (read_bulk inp1 rest) as [[inp2 r] be] eqn:Eb. apply read_bulk_length in Eb.
    eexists _, _, _. split; [done|]. split; lia.
  - unfold read_array. destruct (parseLen rest) as [cnt [pe|]]; [apply Hsome|].
    case_test; [apply Hsome|]. destruct (negb _); [apply Hsome|].
    destruct (read_elems_total (readReply fuel) fuel fuel IH cnt inp1) as (inp2 & [rs|re] & -> & Hle); [lia|lia|..];
      eexists _, _, _; (split; [done|]); split; lia.
Qed.

(** Reading a reply always ends.  On every byte stream, [readReply] with
    fuel above the length of the stream returns a reply or an error; it never
    runs past the stream, and a reply without error has taken at least one
    byte. *)
Theorem read_reply_total (inp : list Z) :
  exists inp' r e, readReply (S (length inp)) inp = Some (inp', r, e) /\
    (length inp' <= length inp)%nat /\ (e = None -> (length inp' < length inp)%nat).
Proof. apply readReply_reads. lia. Qed.

(** ** Round trips *)

Lemma itoa_line n : - 2 ^ 63 <= n < 2 ^ 63 -> (LF ∉ 58 :: itoa n) /\ (length (58%Z :: itoa n) + 2 <= rbuf_size)%nat.
Proof.
  intros Hn. unfold rbuf_size.
  assert (forall m, 0 <= m <= 2 ^ 63 -> (LF ∉ dec m) /\ (length (dec m) <= 19)%nat) as Hdec.
  { intros m Hm. split; [|apply dec_length; simpl; lia]. intros Hin.
    destruct (dec_spec m ltac:(lia)) as (_ & Hd & _). rewrite Forall_forall in Hd. specialize (Hd _ Hin).
    unfold LF in Hd. lia. }
  unfold itoa. rewrite !not_elem_of_cons. case_test.
  - destruct (Hdec (- n) ltac:(lia)) as [? ?]. rewrite not_elem_of_cons. cbn [length]. split; [done|lia].
  - destruct (Hdec n ltac:(lia)) as [? ?]. cbn [length]. split; [done|lia].
Qed.

Lemma header_line prefix n : prefix <> LF -> 0 <= n <= maxAlloc ->
  (LF ∉ prefix :: dec n) /\ (length (prefix :: dec n) + 2 <= rbuf_size)%nat.
Proof.
  intros Hp Hn. unfold maxAlloc in Hn. destruct (dec_spec n ltac:(lia)) as (_ & Hd & _).
  rewrite not_elem_of_cons. split; [split; [done|]|].
  - intros Hin. rewrite Forall_forall in Hd. specialize (Hd _ Hin). unfold LF in Hd. lia.
  - assert (length (dec n) <= 19)%nat by (apply dec_length; simpl; lia). unfold rbuf_size. cbn [length]. lia.
Qed.

(** A reader that reads back the encodings of [l] reads an array of them. *)
Lemma read_elems_encoded (enc : reply -> list Z) rd fuel l : forall rest,
  (length l <= fuel)%nat ->
  (forall r tail, r ∈ l -> rd (enc r ++ tail) = Some (tail, r, None)) ->
  read_elems rd fuel (zlen l) (concat (map enc l) ++ rest) = Some (rest, inl l).
Proof.
  revert fuel. induction l as [|r l IH]; intros fuel rest Hf Hrd; [by destruct fuel|].
  destruct fuel as [|fuel]; [simpl in Hf; lia|]. cbn [read_elems map concat]. rewrite zlen_cons.
  pose proof (zlen_nonneg l). case_test; [lia|]. rewrite <- app_assoc, Hrd by left.
  replace (1 + zlen l - 1) with (zlen l) by lia. rewrite IH; [done|simpl in Hf; lia|].
  intros. apply Hrd. by right.
Qed.

Lemma encode_nonempty r : (0 < length (encode r))%nat.
Proof. destruct r; simpl; try lia; unfold bulk, header; simpl; lia. Qed.

Lemma encode_elem r l : r ∈ l -> (length (encode r) <= length (concat (map encode l)))%nat.
Proof.
  induction l as [|x l IH]; [by rewrite elem_of_nil|]. rewrite elem_of_cons. intros [->|Hin]; simpl; rewrite length_app.
  - lia.
  - specialize (IH Hin). lia.
Qed.

Lemma concat_map_length l : (length l <= length (concat (map encode l)))%nat.
Proof.
  induction l as [|r l IH]; simpl; [lia|]. rewrite length_app. pose proof (encode_nonempty r). lia.
Qed.

Lemma sendable_elem l r : fold_right (fun r P => sendable r /\ P) True l -> r ∈ l -> sendable r.
Proof.
  induction l as [|x l IH]; [by rewrite elem_of_nil|]. simpl. intros [Hx Hl]. rewrite elem_of_cons.
  intros [->|Hin]; auto.
Qed.

Lemma read_bulk_encoded p rest : zlen p <= maxAlloc ->
  read_bulk (p ++ [CR; LF] ++ rest) (dec (zlen p)) = (rest, RBulk p, None).
Proof.
  intros Hp. pose proof (zlen_nonneg p). unfold read_bulk. rewrite parseLen_dec by lia.
  rewrite swrap_small by (unfold maxAlloc in *; lia). case_test; [lia|]. unfold make_ok.
  rewrite Z.mul_1_r, (proj2 (Z.leb_le _ _) Hp). cbn [negb]. unfold ReadFull.
  rewrite zlen_app. pose proof (zlen_nonneg ([CR; LF] ++ rest)). rewrite (proj2 (Z.leb_le _ _)) by lia.
  rewrite drop_app_zlen, take_app_zlen.
  pose proof (readLine_line [] rest) as Hl. cbn [app] in *.
  rewrite Hl; [done|by apply not_elem_of_nil|unfold rbuf_size; simpl; lia].
Qed.

(** The first line of an encoded reply. *)
Lemma readReply_line fuel line rest : (LF ∉ line) -> (length line + 2 <= rbuf_size)%nat ->
  readReply (S fuel) ((line ++ [CR; LF]) ++ rest) =
    match line with
    | [] => Some (rest, RNil, Some EShortLine)
    | b :: l =>
        if b =? 43 then Some (rest, read_status line, None)
        else if b =? 45 then Some (rest, RError l, None)
        else if b =? 58 then let (n, e) := parseInt l in Some (rest, RInt n, e)
        else if b =? 36 then Some (read_bulk rest l)
        else if b =? 42 then read_array (readReply fuel) fuel rest l
        else Some (rest, RNil, Some EUnexpectedLine)
    end.
Proof. intros H1 H2. cbn [readReply]. by rewrite <- app_assoc, readLine_line. Qed.

Lemma read_status_line s : read_status (43 :: s) = RStatus s.
Proof.
  unfold read_status. case_bool_decide as E; [by injection E as ->|]. clear E.
  case_bool_decide as E; [by injection E as ->|done].
Qed.

Lemma readReply_encoded r : forall fuel rest, sendable r -> (length (encode r) < fuel)%nat ->
  readReply fuel (encode r ++ rest) = Some (rest, r, None).
Proof.
  induction r as [|s|s|n|p|l IH] using reply_ind; intros [|fuel] rest Hs Hf; try lia.
  - cbn [encode]. rewrite readReply_line; [done|by apply (bool_decide_unpack _)|unfold rbuf_size; simpl; lia].
  - destruct Hs as [Hs Hl]. change (encode (RStatus s)) with ((43 :: s) ++ [CR; LF]).
    rewrite readReply_line; [by rewrite read_status_line|by apply not_elem_of_cons|cbn [length]; lia].
  - destruct Hs as [Hs Hl]. change (encode (RError s)) with ((45 :: s) ++ [CR; LF]).
    rewrite readReply_line; [done|by apply not_elem_of_cons|cbn [length]; lia].
  - change (encode (RInt n)) with ((58 :: itoa n) ++ [CR; LF]). destruct (itoa_line n Hs).
    rewrite readReply_line by done. cbn [Z.eqb Pos.eqb]. rewrite parseInt_itoa. simpl in Hs. by rewrite swrap_small by lia.
  - cbn [encode]. unfold bulk. change (header 36 (zlen p)) with ((36 :: dec (zlen p)) ++ [CR; LF]).
    destruct (header_line 36 (zlen p)); [done|pose proof (zlen_nonneg p); done|].
    rewrite <- !(app_assoc (_ ++ [CR; LF])), readReply_line by done. cbn [Z.eqb Pos.eqb].
    rewrite <- app_assoc. by rewrite read_bulk_encoded.
  - destruct Hs as [Hlen Hs]. pose proof (zlen_nonneg l).
    assert (encode (RArray l) = ((42 :: dec (zlen l)) ++ [CR; LF]) ++ concat (map encode l)) as Henc by done.
    rewrite Henc in *. destruct (header_line 42 (zlen l)); [done|unfold maxAlloc in *; lia|].
    rewrite <- !(app_assoc (_ ++ [CR; LF])), readReply_line by done. cbn [Z.eqb Pos.eqb].
    rewrite !length_app in Hf. cbn [length] in Hf.
    unfold read_array. rewrite parseLen_dec by lia. rewrite swrap_small by (unfold maxAlloc in *; lia).
    case_test; [lia|]. unfold make_ok. rewrite (proj2 (Z.leb_le _ _) Hlen). cbn [negb].
    rewrite (read_elems_encoded encode); [done|pose proof (concat_map_length l); lia|].
    intros r tail Hin. rewrite Forall_forall in IH. apply IH; [done|by eapply sendable_elem|].
    pose proof (encode_elem r l Hin). lia.
Qed.

(** C11: replies survive the wire.  Whatever reply a server encodes (status and
    error lines, 64-bit integers, bulk strings with any bytes, null, and
    arrays nested to any depth), [readReply] returns exactly that reply and
    leaves exactly the bytes behind it in the stream. *)
Theorem reply_roundtrip (r : reply) (rest : list Z) (Hs : sendable r) :
  readReply (S (length (encode r ++ rest))) (encode r ++ rest) = Some (rest, r, None).
Proof. apply readReply_encoded; [done|]. rewrite length_app. lia. Qed.

Lemma reply_roundtrip_witness :
  let r := RArray [RStatus (str "OK"); RInt (-42); RBulk [13; 10; 0]; RNil; RArray []; RError (str "ERR x")] in
  readReply (S (length (encode r ++ [1; 2]))) (encode r ++ [1; 2]) = Some ([1; 2], r, None).
Proof.
  intros r. apply (reply_roundtrip r [1; 2]). unfold r, rbuf_size. simpl.
  repeat split; try (apply (bool_decide_unpack _); done); try lia; unfold maxAlloc; vm_compute; congruence.
Defined.

Lemma encode_command_array parts :
  encode_command parts = encode (RArray (RBulk <$> parts)).
Proof.
  unfold encode_command. cbn [encode]. f_equal; [unfold header, zlen; by rewrite length_fmap|].
  f_equal. induction parts as [|p parts IH]; [done|]. rewrite !fmap_cons. cbn [map encode]. by rewrite IH.
Qed.

(** A command is an array of bulk strings.  What [writeCommand] puts on the
    wire is read back, by any reader of the protocol, as the array of the
    command name and its arguments as byte strings, whatever bytes they
    contain. *)
Theorem command_is_array (parts : list (list Z)) (rest : list Z) (Hn : zlen parts * 16 <= maxAlloc)
    (Hp : Forall (fun p : list Z => zlen p <= maxAlloc) parts) :
  readReply (S (length (encode_command parts ++ rest))) (encode_command parts ++ rest) =
    Some (rest, RArray (RBulk <$> parts), None).
Proof.
  rewrite encode_command_array. apply readReply_encoded; [|rewrite length_app; lia]. cbn [sendable].
  split; [unfold zlen in *; by rewrite length_fmap|].
  induction Hp as [|p parts Hp _ IH]; [done|]. cbn [fmap list_fmap fold_right sendable]. split; [done|].
  apply IH. rewrite zlen_cons in Hn. lia.
Qed.

Lemma command_is_array_witness :
  readReply 100 (encode_command [str "SET"; str "k"; [13; 10; 36]] ++ []) =
    Some ([], RArray (RBulk <$> [str "SET"; str "k"; [13; 10; 36]]), None).
Proof.
  pose proof (command_is_array [str "SET"; str "k"; [13; 10; 36]] []) as H.
  rewrite <- H; [reflexivity|vm_compute; congruence|].
  repeat constructor; vm_compute; congruence.
Defined.
