(* ===== verification/Strconv.v ===== *)
(** * The number parsers of package strconv

    What reply.go and scan.go use of Go's strconv: [ParseUint] and [ParseInt]
    in base ten with their range errors, and [ParseBool].  A parser returns a
    value also with an error. *)

From S2P Require Import Prelude Resp.

Inductive num_err : Type := ErrSyntax | ErrRange.

Definition cutoff10 : Z := 1844674407370955162.

(** The digits of [ParseUint]; the range error is raised as soon as the value
    is too large, before the rest is looked at. *)
Fixpoint uint_loop (p : list Z) (n maxVal : Z) : Z * option num_err :=
  match p with
  | [] => (n, None)
  | b :: p =>
      if (b <? 48) || (57 <? b) then (0, Some ErrSyntax)
      else if cutoff10 <=? n then (maxVal, Some ErrRange)
      else if maxVal <? n * 10 + (b - 48) then (maxVal, Some ErrRange)
      else uint_loop p (n * 10 + (b - 48)) maxVal
  end.

Definition ParseUint (s : list Z) (bitSize : Z) : Z * option num_err :=
  match s with
  | [] => (0, Some ErrSyntax)
  | _ => uint_loop s 0 (2 ^ (if bitSize =? 0 then 64 else bitSize) - 1)
  end.

Definition ParseInt (s : list Z) (bitSize : Z) : Z * option num_err :=
  let neg := match s with b :: _ => b =? 45 | [] => false end in
  let rest := match s with b :: l => if (b =? 43) || (b =? 45) then l else s | [] => [] end in
  match ParseUint rest bitSize with
  | (_, Some ErrSyntax) => (0, Some ErrSyntax)
  | (un, _) =>
      let cutoff := 2 ^ ((if bitSize =? 0 then 64 else bitSize) - 1) in
      if negb neg && (cutoff <=? un) then (cutoff - 1, Some ErrRange)
      else if neg && (cutoff <? un) then (- cutoff, Some ErrRange)
      else (if neg then - un else un, None)
  end.

Definition ParseBool (s : list Z) : bool * option num_err :=
  if bool_decide (s ∈ [str "1"; str "t"; str "T"; str "TRUE"; str "true"; str "True"]) then (true, None)
  else if bool_decide (s ∈ [str "0"; str "f"; str "F"; str "FALSE"; str "false"; str "False"]) then (false, None)
  else (false, Some ErrSyntax).

(** ** Decimal strings *)

Definition is_digit (d : Z) : Prop := 48 <= d <= 57.
Definition shift (a b : Z) : Z := a * 10 + (b - 48).

Lemma fold_grows ds : forall a, Forall is_digit ds -> 0 <= a -> a <= fold_left shift ds a.
Proof.
  induction ds as [|d ds IH]; intros a Hd Ha; simpl; [lia|]. apply Forall_cons in Hd as [Hd Hds].
  unfold is_digit in Hd. specialize (IH (shift a d) Hds). unfold shift in *. lia.
Qed.

Lemma uint_loop_digits maxVal ds : forall n, maxVal < 2 ^ 64 -> Forall is_digit ds -> 0 <= n <= maxVal ->
  uint_loop ds n maxVal =
    if fold_left shift ds n <=? maxVal then (fold_left shift ds n, None) else (maxVal, Some ErrRange).
Proof.
  induction ds as [|d ds IH]; intros n Hm Hd Hn; cbn [uint_loop fold_left].
  { by rewrite (proj2 (Z.leb_le _ _)) by lia. }
  apply Forall_cons in Hd as [Hd Hds]. unfold is_digit in Hd.
  assert (0 <= n * 10 + (d - 48) <= fold_left shift ds (shift n d)) as Hg.
  { split; [lia|]. apply (fold_grows ds (shift n d) Hds). unfold shift. lia. }
  rewrite (proj2 (Z.ltb_ge d 48)), (proj2 (Z.ltb_ge 57 d)) by lia. cbn [orb]. unfold cutoff10.
  destruct (Z.leb_spec 1844674407370955162 n); [|destruct (Z.ltb_spec maxVal (n * 10 + (d - 48)))].
  - by rewrite (proj2 (Z.leb_gt _ _)) by lia.
  - by rewrite (proj2 (Z.leb_gt _ _)) by lia.
  - apply (IH (n * 10 + (d - 48))); [done|done|lia].
Qed.

(** The decimal form of a natural number is parsed exactly or out of range. *)
Lemma ParseUint_dec n bits : 0 <= n -> 0 < bits <= 64 ->
  ParseUint (dec n) bits = if n <? 2 ^ bits then (n, None) else (2 ^ bits - 1, Some ErrRange).
Proof.
  intros Hn Hb. destruct (dec_spec n Hn) as (Hv & Hd & Hne). unfold ParseUint.
  destruct (dec n) as [|d ds] eqn:E; [done|]. rewrite (proj2 (Z.eqb_neq bits 0)) by lia.
  pose proof (Z.pow_le_mono_r 2 bits 64). pose proof (Z.pow_pos_nonneg 2 bits).
  rewrite uint_loop_digits by (done || lia). change (fold_left shift (d :: ds) 0) with (dec_value (d :: ds)). rewrite Hv.
  destruct (Z.leb_spec n (2 ^ bits - 1)), (Z.ltb_spec n (2 ^ bits)); (done || lia).
Qed.

(** The decimal form of an integer is parsed exactly, or clipped with
    [ErrRange]. *)
Lemma ParseInt_itoa n bits : 1 < bits <= 64 ->
  ParseInt (itoa n) bits =
    if n <? - 2 ^ (bits - 1) then (- 2 ^ (bits - 1), Some ErrRange)
    else if n <? 2 ^ (bits - 1) then (n, None) else (2 ^ (bits - 1) - 1, Some ErrRange).
Proof.
  intros Hb. assert (2 ^ bits = 2 * 2 ^ (bits - 1)) as Hpow by (rewrite <- Z.pow_succ_r by lia; f_equal; lia).
  pose proof (Z.pow_le_mono_r 2 1 (bits - 1) ltac:(lia) ltac:(lia)) as Hpos. rewrite Z.pow_1_r in Hpos.
  unfold itoa. destruct (Z.ltb_spec n 0) as [Hneg|Hpos'].
  - unfold ParseInt. cbn [Z.eqb Pos.eqb orb]. rewrite ParseUint_dec by lia. rewrite (proj2 (Z.eqb_neq bits 0)) by lia.
    rewrite (proj2 (Z.ltb_lt n (2 ^ (bits - 1)))) by lia.
    destruct (Z.ltb_spec (- n) (2 ^ bits)); cbn [negb andb].
    + destruct (Z.ltb_spec (2 ^ (bits - 1)) (- n)), (Z.ltb_spec n (- 2 ^ (bits - 1))); try lia; [done|]. by rewrite Z.opp_involutive.
    + rewrite (proj2 (Z.ltb_lt (2 ^ (bits - 1)) _)) by lia. by rewrite (proj2 (Z.ltb_lt n _)) by lia.
  - destruct (dec_spec n Hpos') as (_ & Hd & Hne). unfold ParseInt. pose proof (ParseUint_dec n bits Hpos' ltac:(lia)) as HU.
    destruct (dec n) as [|d ds] eqn:E; [done|]. apply Forall_cons in Hd as [Hd _].
    rewrite (proj2 (Z.eqb_neq d 45)), (proj2 (Z.eqb_neq d 43)) by lia. cbn [orb negb andb]. rewrite HU.
    rewrite (proj2 (Z.eqb_neq bits 0)) by lia. rewrite (proj2 (Z.ltb_ge n (- 2 ^ (bits - 1)))) by lia.
    destruct (Z.ltb_spec n (2 ^ bits)); cbn [negb andb].
    + destruct (Z.leb_spec (2 ^ (bits - 1)) n), (Z.ltb_spec n (2 ^ (bits - 1))); (done || lia).
    + rewrite (proj2 (Z.leb_le (2 ^ (bits - 1)) _)) by lia. by rewrite (proj2 (Z.ltb_ge n (2 ^ (bits - 1)))) by lia.
Qed.

Lemma dec_no_sep n sep : 0 <= n -> sep < 48 \/ 57 < sep -> sep ∉ dec n.
Proof.
  intros Hn Hsep Hin. destruct (dec_spec n Hn) as (_ & Hd & _). rewrite Forall_forall in Hd.
  specialize (Hd sep Hin). cbn in Hd. lia.
Qed.

Lemma uint_loop_nonneg maxVal p : forall n, 0 <= maxVal -> 0 <= n -> 0 <= (uint_loop p n maxVal).1.
Proof.
  induction p as [|b p IH]; intros n Hm Hn; cbn; [done|].
  destruct ((b <? 48) || (57 <? b)) eqn:Hb; [done|]. apply orb_false_iff in Hb as [Hb _]. apply Z.ltb_ge in Hb.
  destruct (cutoff10 <=? n); [done|]. destruct (maxVal <? n * 10 + (b - 48)); [done|]. apply IH; lia.
Qed.

(** What [ParseInt] accepts fits its type. *)
Lemma ParseInt_bound s v : ParseInt s 0 = (v, None) -> v < 2 ^ 63.
Proof.
  unfold ParseInt. set (rest := match s with b :: l => if (b =? 43) || (b =? 45) then l else s | [] => [] end).
  assert (0 <= (ParseUint rest 0).1) as Hn by (unfold ParseUint; destruct rest; [done|apply uint_loop_nonneg; done || lia]).
  destruct (ParseUint rest 0) as [un [[]|]]; cbn [fst] in Hn; [done|..];
    (destruct (match s with b :: _ => b =? 45 | [] => false end); cbn [negb andb Z.eqb];
     [case_match; [done|]; intros [= <-]; lia|case_match; [done|]; intros [= <-]; by apply Z.leb_gt]).
Qed.
