(* ===== verification/Gotype.v ===== *)
(** * Go values and their types, as package reflect shows them

    The destinations of scan.go: the kinds its type switches name, values of
    those kinds, the zero value, and the path of field numbers that
    [FieldByIndex] follows.  A slice carries the elements between its length
    and its capacity too, because [SetLen] brings them back; a map is the list of
    its entries in the order a range over it visits them.  A pointer holds
    the value it points to; two pointers to one variable are not modelled. *)

From S2P Require Import Prelude Respread.

(** A field of a struct type: its name, the value of its [redis] tag, whether
    it is exported ([PkgPath] is empty) and whether it is embedded. *)
Record finfo := mkField {
  fname : list Z;
  ftag : list Z;
  exported : bool;
  anonymous : bool;
}.

Inductive gtype : Type :=
| TInt (bits : Z)
| TUint (bits : Z)
| TFloat (bits : Z)
| TBool
| TString
| TInterface
| TSlice (elem : gtype)
| TPtr (elem : gtype)
| TMap (key elem : gtype)
| TStruct (fields : list (finfo * gtype)).

Inductive gval (F : Type) : Type :=
| VInt (n : Z)
| VUint (n : Z)
| VFloat (f : F)
| VBool (b : bool)
| VString (s : list Z)
| VInterface (r : option reply)
| VSlice (vs spare : list (gval F))
| VPtr (v : option (gval F))
| VMap (kvs : list (gval F * gval F))
| VStruct (vs : list (gval F)).

Arguments VInt {F}.
Arguments VUint {F}.
Arguments VFloat {F}.
Arguments VBool {F}.
Arguments VString {F}.
Arguments VInterface {F}.
Arguments VSlice {F}.
Arguments VPtr {F}.
Arguments VMap {F}.
Arguments VStruct {F}.

Section Gotype.
Context {F : Type} (fzero : F).
#[local] Abbreviation gval := (gval F).

(** The zero value of a type. *)
Fixpoint zero (t : gtype) : gval :=
  match t with
  | TInt _ => VInt 0
  | TUint _ => VUint 0
  | TFloat _ => VFloat fzero
  | TBool => VBool false
  | TString => VString []
  | TInterface => VInterface None
  | TSlice _ => VSlice [] []
  | TPtr _ => VPtr None
  | TMap _ _ => VMap []
  | TStruct fs => VStruct ((fix fields fs := match fs with [] => [] | f :: fs => zero f.2 :: fields fs end) fs)
  end.

(** The values of a type. *)
Fixpoint has_type (t : gtype) (v : gval) {struct t} : Prop :=
  match t, v with
  | TInt w, VInt n => - 2 ^ (w - 1) <= n < 2 ^ (w - 1)
  | TUint w, VUint n => 0 <= n < 2 ^ w
  | TFloat _, VFloat _ => True
  | TBool, VBool _ => True
  | TString, VString _ => True
  | TInterface, VInterface _ => True
  | TSlice e, VSlice vs spare => Forall (has_type e) vs /\ Forall (has_type e) spare
  | TPtr e, VPtr o => match o with Some v => has_type e v | None => True end
  | TMap k e, VMap kvs => Forall (fun kv => has_type k kv.1 /\ has_type e kv.2) kvs
  | TStruct fs, VStruct vs =>
      (fix fields fs vs {struct fs} :=
         match fs, vs with
         | [], [] => True
         | f :: fs, v :: vs => has_type f.2 v /\ fields fs vs
         | _, _ => False
         end) fs vs
  | _, _ => False
  end.

(** Integer types have a positive width, as far as the type is looked at. *)
Fixpoint wf_type (t : gtype) : Prop :=
  match t with
  | TInt w | TUint w => 1 < w <= 64
  | TSlice e | TPtr e => wf_type e
  | TMap k e => wf_type k /\ wf_type e
  | TStruct fs => (fix fields fs := match fs with [] => True | f :: fs => wf_type f.2 /\ fields fs end) fs
  | _ => True
  end.

Fixpoint get_path (v : gval) (p : list nat) : option gval :=
  match p with
  | [] => Some v
  | i :: p =>
      match v with
      | VStruct vs => match vs !! i with Some v => get_path v p | None => None end
      | _ => None
      end
  end.

Fixpoint set_path (v : gval) (p : list nat) (x : gval) : gval :=
  match p with
  | [] => x
  | i :: p =>
      match v with
      | VStruct vs => match vs !! i with Some v => VStruct (<[i := set_path v p x]> vs) | None => VStruct vs end
      | _ => v
      end
  end.

Fixpoint type_path (t : gtype) (p : list nat) : option gtype :=
  match p with
  | [] => Some t
  | i :: p =>
      match t with
      | TStruct fs => match fs !! i with Some f => type_path f.2 p | None => None end
      | _ => None
      end
  end.

(** ** The typing rules of structs *)

Lemma has_type_struct fs vs :
  has_type (TStruct fs) (VStruct vs) <-> Forall2 (fun (f : finfo * gtype) v => has_type f.2 v) fs vs.
Proof.
  revert vs. induction fs as [|f fs IH]; intros [|v vs]; cbn.
  - split; [constructor|done].
  - split; [done|intros H; inversion H].
  - split; [done|intros H; inversion H].
  - rewrite Forall2_cons. by rewrite <- IH.
Qed.

Lemma struct_value fs v : has_type (TStruct fs) v -> exists vs, v = VStruct vs.
Proof. destruct v; try done. eauto. Qed.

Lemma wf_type_field fs i f : wf_type (TStruct fs) -> fs !! i = Some f -> wf_type f.2.
Proof.
  revert i. induction fs as [|f' fs IH]; intros [|i]; try done; cbn.
  - intros [H _] [= ->]. done.
  - intros [_ H]. by apply IH.
Qed.

Lemma gtype_ind' (P : gtype -> Prop) :
  (forall w, P (TInt w)) -> (forall w, P (TUint w)) -> (forall w, P (TFloat w)) -> P TBool -> P TString ->
  P TInterface -> (forall e, P e -> P (TSlice e)) -> (forall e, P e -> P (TPtr e)) ->
  (forall k e, P k -> P e -> P (TMap k e)) ->
  (forall fs, Forall (fun f : finfo * gtype => P f.2) fs -> P (TStruct fs)) -> forall t, P t.
Proof.
  intros H1 H2 H3 H4 H5 H6 H7 H8 HM H9. fix IH 1.
  intros [w|w|w| | | |e|e|k e|fs]; [done..| |apply H7, IH|apply H8, IH|apply HM; apply IH|apply H9].
  - done.
  - induction fs as [|f fs IHf]; constructor; [apply IH|exact IHf].
Qed.

Lemma zero_typed t : wf_type t -> has_type t (zero t).
Proof.
  induction t as [w|w|w| | | |e IH|e IH|k e _ _|fs IH] using gtype_ind'; cbn; intros Hwf; auto.
  - pose proof (Z.pow_pos_nonneg 2 (w - 1)). lia.
  - pose proof (Z.pow_pos_nonneg 2 w). lia.
  - induction IH as [|f fs Hf _ IHf]; [done|]. destruct Hwf as [H1 H2]. by split; [apply Hf|apply IHf].
Qed.

Lemma get_path_typed p : forall t v ft, has_type t v -> type_path t p = Some ft ->
  exists x, get_path v p = Some x /\ has_type ft x.
Proof.
  induction p as [|i p IH]; intros t v ft Hv Hp; cbn in *; [exists v; by simplify_eq|].
  destruct t as [| | | | | | | | |fs]; try done. destruct (fs !! i) as [f|] eqn:Ef; [|done].
  destruct (struct_value _ _ Hv) as [vs ->]. apply has_type_struct in Hv.
  destruct (Forall2_lookup_l _ _ _ _ _ Hv Ef) as (x & -> & Hx). eauto.
Qed.

Lemma set_path_typed p : forall t v ft x, has_type t v -> type_path t p = Some ft -> has_type ft x ->
  has_type t (set_path v p x).
Proof.
  induction p as [|i p IH]; intros t v ft x Hv Hp Hx; cbn in *; [by simplify_eq|].
  destruct t as [| | | | | | | | |fs]; try done. destruct (fs !! i) as [f|] eqn:Ef; [|done].
  destruct (struct_value _ _ Hv) as [vs ->]. apply has_type_struct in Hv.
  destruct (Forall2_lookup_l _ _ _ _ _ Hv Ef) as (y & Hy & Hyt). rewrite Hy. apply has_type_struct.
  rewrite <- (list_insert_id fs i f Ef) at 1. apply Forall2_insert; eauto.
Qed.

Lemma get_set_same p : forall v x, is_Some (get_path v p) -> get_path (set_path v p x) p = Some x.
Proof.
  induction p as [|i p IH]; intros v x Hv; cbn in *; [done|].
  destruct v as [| | | | | | | | |vs]; try by destruct Hv. destruct (vs !! i) as [y|] eqn:Ey; [|by destruct Hv].
  rewrite list_lookup_insert_eq by (by eapply lookup_lt_Some). auto.
Qed.

(** A write leaves alone every path that is not below or above it. *)
Lemma get_set_other p : forall q v x, ~ p `prefix_of` q -> ~ q `prefix_of` p ->
  get_path (set_path v p x) q = get_path v q.
Proof.
  induction p as [|i p IH]; intros q v x Hpq Hqp; cbn in *; [destruct Hpq; by exists q|].
  destruct q as [|j q]; [destruct Hqp; by eexists|].
  destruct v as [| | | | | | | | |vs]; try done. destruct (vs !! i) as [y|] eqn:Ey; [|done]. cbn.
  destruct (decide (i = j)) as [->|Hij].
  - rewrite list_lookup_insert_eq by (by eapply lookup_lt_Some). rewrite Ey. apply IH; intros H.
    + by apply Hpq, prefix_cons.
    + by apply Hqp, prefix_cons.
  - by rewrite list_lookup_insert_ne.
Qed.
End Gotype.
