(* ===== verification/Scan.v ===== *)
(** * redis/scan.go: scanning replies into variables and structs

    [convertAssign] and its parts, [Scan], the compiled description of a struct
    type ([compileStructSpec]), [ScanStruct], [ScanStructByValue], [ScanSlice]
    and the flattening of values into command arguments ([AddFlat]).  A
    destination is a pointer to a value of a Go type; every operation returns
    the destination as it leaves it, also with an error, and [Panic] where
    package reflect panics.  [structSpecForType] keeps the compiled description
    of each type in a cache; since [compileStructSpec] depends on the type
    only, the model computes it at each use.  Parsing and printing floats, and
    printing values of kinds other than integers, are parameters. *)

From S2P Require Import Prelude Gostrings Resp Respread Strconv Gotype.

Inductive scan_err : Type :=
| SErrNum (e : num_err)
| SCannotConvert
| SErrReply (s : list Z)
| SArrayShort
| SOddValues
| SKeyNotBulk
| SNamesMismatch
| errScanStructValue
| errScanSliceValue
| SBadFieldName (name : list Z)
| SNoFields
| SNotMultiple.

(** ** The description of a struct type *)

Record fieldSpec := mkFieldSpec { name : list Z; index : list nat }.

Record structSpec := mkStructSpec {
  m : gmap (list Z) fieldSpec;
  l : list fieldSpec;
}.

(** The state of the compilation: the map [depth] and the description. *)
Record cstate := mkCState { depth : gmap (list Z) Z; ss : structSpec }.

(** The name of a field: the first part of its tag, if there is one. *)
Definition tag_name (f : finfo) : list Z := default [] (head (Split 44 (ftag f))).
Definition field_name (f : finfo) : list Z := if 0 <? zlen (tag_name f) then tag_name f else fname f.

(** A field that is neither unexported nor embedded; [i] is its number.  Every
    flag of a tag is unknown. *)
Definition compile_field (f : finfo) (idx : list nat) (i : nat) (st : cstate) : go cstate :=
  if bool_decide (tag_name f = str "-") then Ret st
  else
    let nm := field_name f in
    if 0 <? zlen (tail (Split 44 (ftag f))) then Panic
    else
      let d := default (2 ^ 30) (depth st !! nm) in
      if zlen idx =? d then
        Ret (mkCState (depth st)
               (mkStructSpec (delete nm (m (ss st))) (filter (fun fs => nm <> name fs) (l (ss st)))))
      else if zlen idx <? d then
        let fs := mkFieldSpec nm (idx ++ [i]) in
        Ret (mkCState (<[nm := zlen idx]> (depth st)) (mkStructSpec (<[nm := fs]> (m (ss st))) (l (ss st) ++ [fs])))
      else Ret st.

(** The loop over the fields; embedded structs are compiled in place. *)
Definition compile_fields (compile : gtype -> list nat -> cstate -> go cstate) (idx : list nat)
    : list (finfo * gtype) -> nat -> cstate -> go cstate :=
  fix fields fs i st {struct fs} :=
    match fs with
    | [] => Ret st
    | f :: fs =>
        let! st :=
          if negb (exported f.1) then Ret st
          else if anonymous f.1 then
            match f.2 with
            | TStruct _ => compile f.2 (idx ++ [i]) st
            | _ => Ret st
            end
          else compile_field f.1 idx i st in
        fields fs (S i) st
    end.

Fixpoint compileStructSpec (t : gtype) (idx : list nat) (st : cstate) {struct t} : go cstate :=
  match t with
  | TStruct fs => compile_fields compileStructSpec idx fs 0 st
  | _ => Panic
  end.

Definition structSpecForType (t : gtype) : go structSpec :=
  let! st := compileStructSpec t [] (mkCState ∅ (mkStructSpec ∅ [])) in Ret (ss st).

Section Scan.
Context {F : Type} (fzero : F).
Context (ParseFloat : list Z -> Z -> F * option num_err).
#[local] Abbreviation gval := (gval F).

(** ** Converting one value *)

Definition is_uint8 (t : gtype) : bool := match t with TUint w => w =? 8 | _ => false end.

Definition convertAssignBytes (t : gtype) (d : gval) (s : list Z) : gval * option scan_err :=
  match t with
  | TFloat w => let '(x, err) := ParseFloat s w in (VFloat x, SErrNum <$> err)
  | TInt w => let '(x, err) := ParseInt s w in (VInt (swrap w x), SErrNum <$> err)
  | TUint w => let '(x, err) := ParseUint s w in (VUint (wrap w x), SErrNum <$> err)
  | TBool => let '(x, err) := ParseBool s in (VBool x, SErrNum <$> err)
  | TString => (VString s, None)
  | TSlice e => if is_uint8 e then (VSlice (VUint <$> s) [], None) else (d, Some SCannotConvert)
  | _ => (d, Some SCannotConvert)
  end.

Definition convertAssignInt (t : gtype) (d : gval) (s : Z) : gval * option scan_err :=
  match t with
  | TInt w =>
      if swrap w s =? s then (VInt (swrap w s), None) else (VInt 0, Some (SErrNum ErrRange))
  | TUint w =>
      if s <? 0 then (d, Some (SErrNum ErrRange))
      else if wrap w s =? s then (VUint (wrap w s), None)
      else (VUint 0, Some (SErrNum ErrRange))
  | TBool => (VBool (negb (s =? 0)), None)
  | _ => (d, Some SCannotConvert)
  end.

Definition convertAssignValue (t : gtype) (d : gval) (s : reply) : gval * option scan_err :=
  match s with
  | RBulk s => convertAssignBytes t d s
  | RInt n => convertAssignInt t d n
  | _ => (d, Some SCannotConvert)
  end.

(** [ensureLen] on a slice with elements of type [e]. *)
Definition ensureLen (e : gtype) (vs spare : list gval) (n : nat) : list gval * list gval :=
  if decide (length vs + length spare < n)%nat then (replicate n (zero fzero e), [])
  else (take n (vs ++ spare), drop n (vs ++ spare)).

Definition is_nil (s : reply) : bool := match s with RNil => true | _ => false end.

(** The loops over a slice's elements; [ScanSlice] skips nil values,
    [convertAssignValues] does not. *)
Fixpoint assign_elems (skip : bool) (e : gtype) (vs : list gval) (src : list reply) : list gval * option scan_err :=
  match vs, src with
  | v :: vs, s :: src =>
      if skip && is_nil s then let '(vs, err) := assign_elems skip e vs src in (v :: vs, err)
      else
        match convertAssignValue e v s with
        | (v, Some err) => (v :: vs, Some err)
        | (v, None) => let '(vs, err) := assign_elems skip e vs src in (v :: vs, err)
        end
  | _, _ => (vs, None)
  end.

Definition convertAssignValues (t : gtype) (d : gval) (s : list reply) : gval * option scan_err :=
  match t, d with
  | TSlice e, VSlice vs spare =>
      let '(vs, spare) := ensureLen e vs spare (length s) in
      let '(vs, err) := assign_elems false e vs s in (VSlice vs spare, err)
  | _, _ => (d, Some SCannotConvert)
  end.

(** ** Destinations *)

(** The values a caller passes as a destination: nil, a nil pointer, a pointer
    to a value, or something that is not a pointer. *)
Inductive dest : Type :=
| DNil
| DNilPtr (t : gtype)
| DPtr (t : gtype) (v : gval)
| DNotPtr.

(** The content of an interface that holds a reply. *)
Definition iface (s : reply) : option reply := if is_nil s then None else Some s.

(** The cases [*string], [*int], [*bool] and [*[]byte] of the type switch do
    what [convertAssignBytes] and [convertAssignInt] do on those types. *)
Definition assign_to (d : dest) (on_iface : option reply) (assign : gtype -> gval -> gval * option scan_err)
    : go (dest * option scan_err) :=
  match d with
  | DNil => Ret (DNil, None)
  | DNilPtr _ => Panic
  | DPtr TInterface _ => Ret (DPtr TInterface (VInterface on_iface), None)
  | DPtr t v => let '(v, err) := assign t v in Ret (DPtr t v, err)
  | DNotPtr => Ret (DNotPtr, Some SCannotConvert)
  end.

Definition convertAssign (d : dest) (s : reply) : go (dest * option scan_err) :=
  match s with
  | RNil => Ret (d, None)
  | RBulk p => assign_to d (iface s) (fun t v => convertAssignBytes t v p)
  | RInt n => assign_to d (iface s) (fun t v => convertAssignInt t v n)
  | RArray s' =>
      assign_to d (iface s) (fun t v =>
        match t with
        | TSlice TInterface => (VSlice ((fun x => VInterface (iface x)) <$> s') [], None)
        | _ => convertAssignValues t v s'
        end)
  | RError e => Ret (d, Some (SErrReply e))
  | RStatus _ => match d with DNil => Panic | _ => Ret (d, Some SCannotConvert) end
  end.

Fixpoint scan_dests (src : list reply) (ds : list dest) : go (list dest * option scan_err) :=
  match src, ds with
  | s :: src, d :: ds =>
      let! (d, err) := convertAssign d s in
      match err with
      | Some err => Ret (d :: ds, Some err)
      | None => let! (ds, err) := scan_dests src ds in Ret (d :: ds, err)
      end
  | _, _ => Ret (ds, None)
  end.

(** The values that were not copied, and the destinations. *)
Definition Scan (src : list reply) (ds : list dest) : go (list reply * list dest * option scan_err) :=
  if (length src <? length ds)%nat then Ret ([], ds, Some SArrayShort)
  else
    let! (ds', err) := scan_dests src ds in
    Ret (drop (length ds) src, ds', err).

(** ** Structs *)

(** [convertAssignValue(d.FieldByIndex(fs.index), s)] on a struct of type
    [t]; a path that leaves the struct panics. *)
Definition assign_at (t : gtype) (d : gval) (fs : fieldSpec) (s : reply) : go (gval * option scan_err) :=
  match type_path t (index fs), get_path d (index fs) with
  | Some ft, Some x =>
      let '(x, err) := convertAssignValue ft x s in Ret (set_path d (index fs) x, err)
  | _, _ => Panic
  end.

(** Names the struct does not have are skipped. *)
Definition assign_name (sp : structSpec) (t : gtype) (d : gval) (nm : list Z) (s : reply)
    : go (gval * option scan_err) :=
  match m sp !! nm with
  | None => Ret (d, None)
  | Some fs => assign_at t d fs s
  end.

Fixpoint scan_pairs (sp : structSpec) (t : gtype) (d : gval) (src : list reply) : go (gval * option scan_err) :=
  match src with
  | k :: s :: src =>
      if is_nil s then scan_pairs sp t d src
      else
        match k with
        | RBulk nm =>
            let! (d, err) := assign_name sp t d nm s in
            match err with
            | Some err => Ret (d, Some err)
            | None => scan_pairs sp t d src
            end
        | _ => Ret (d, Some SKeyNotBulk)
        end
  | _ => Ret (d, None)
  end.

Definition ScanStruct (src : list reply) (dst : dest) : go (dest * option scan_err) :=
  match dst with
  | DPtr (TStruct fs) d =>
      let t := TStruct fs in
      let! sp := structSpecForType t in
      if negb (zlen src mod 2 =? 0) then Ret (dst, Some SOddValues)
      else let! (d, err) := scan_pairs sp t d src in Ret (DPtr t d, err)
  | _ => Ret (dst, Some errScanStructValue)
  end.

(** The order of the names is that of a range over a map, given by
    [range]. *)
Definition GetStructFields (range : list (list Z) -> list (list Z)) (dst : dest) : go (list (list Z) * option scan_err) :=
  match dst with
  | DPtr (TStruct fs) _ =>
      let! sp := structSpecForType (TStruct fs) in Ret (range (name <$> (map_to_list (m sp)).*2), None)
  | _ => Ret ([], Some errScanStructValue)
  end.

Fixpoint scan_names (sp : structSpec) (t : gtype) (d : gval) (src : list reply) (names : list (option (list Z)))
    : go (gval * option scan_err) :=
  match src, names with
  | s :: src, nm :: names =>
      if is_nil s then scan_names sp t d src names
      else
        match nm with
        | None => Ret (d, Some SKeyNotBulk)
        | Some nm =>
            let! (d, err) := assign_name sp t d nm s in
            match err with
            | Some err => Ret (d, Some err)
            | None => scan_names sp t d src names
            end
        end
  | _, _ => Ret (d, None)
  end.

(** A name is [None] when the byte slice is nil. *)
Definition ScanStructByValue (src : list reply) (names : list (option (list Z))) (dst : dest)
    : go (dest * option scan_err) :=
  if negb (zlen src =? zlen names) then Ret (dst, Some SNamesMismatch)
  else
    match dst with
    | DPtr (TStruct fs) d =>
        let! sp := structSpecForType (TStruct fs) in
        let! (d, err) := scan_names sp (TStruct fs) d src names in
        Ret (DPtr (TStruct fs) d, err)
    | _ => Ret (dst, Some errScanStructValue)
    end.

(** ** Slices *)

Fixpoint scan_row (t : gtype) (d : gval) (fss : list fieldSpec) (src : list reply) : go (gval * option scan_err) :=
  match fss, src with
  | fs :: fss, s :: src =>
      if is_nil s then scan_row t d fss src
      else
        let! (d, err) := assign_at t d fs s in
        match err with
        | Some err => Ret (d, Some err)
        | None => scan_row t d fss src
        end
  | _, _ => Ret (d, None)
  end.

(** One row per element; a nil pointer element is given a new struct. *)
Fixpoint scan_rows (isPtr : bool) (t : gtype) (vs : list gval) (fss : list fieldSpec) (src : list reply)
    : go (list gval * option scan_err) :=
  match vs with
  | [] => Ret ([], None)
  | v :: vs =>
      let d := match isPtr, v with
               | true, VPtr None => zero fzero t
               | true, VPtr (Some d) => d
               | _, _ => v
               end in
      let! (d, err) := scan_row t d fss (take (length fss) src) in
      let v := if isPtr then VPtr (Some d) else d in
      match err with
      | Some err => Ret (v :: vs, Some err)
      | None => let! (vs, err) := scan_rows isPtr t vs fss (drop (length fss) src) in Ret (v :: vs, err)
      end
  end.

Fixpoint named_fields (sp : structSpec) (fieldNames : list (list Z)) : list fieldSpec + list Z :=
  match fieldNames with
  | [] => inl []
  | nm :: names =>
      match m sp !! nm with
      | None => inr nm
      | Some fs => match named_fields sp names with inl fss => inl (fs :: fss) | inr nm => inr nm end
      end
  end.

Definition ScanSlice (src : list reply) (dst : dest) (fieldNames : list (list Z)) : go (dest * option scan_err) :=
  match dst with
  | DPtr (TSlice e) (VSlice vs spare) =>
      let isPtr := match e with TPtr (TStruct _) => true | _ => false end in
      let t := match e with TPtr (TStruct fs) => TStruct fs | _ => e end in
      match t with
      | TStruct _ =>
          let! sp := structSpecForType t in
          match (if 0 <? zlen fieldNames then named_fields sp fieldNames else inl (l sp)) with
          | inr nm => Ret (dst, Some (SBadFieldName nm))
          | inl fss =>
              if zlen fss =? 0 then Ret (dst, Some SNoFields)
              else
                let n := zlen src / zlen fss in
                if negb (n * zlen fss =? zlen src) then Ret (dst, Some SNotMultiple)
                else
                  let '(vs, spare) := ensureLen e vs spare (Z.to_nat n) in
                  let! (vs, err) := scan_rows isPtr t vs fss src in
                  Ret (DPtr (TSlice e) (VSlice vs spare), err)
          end
      | _ =>
          let '(vs, spare) := ensureLen e vs spare (length src) in
          let '(vs, err) := assign_elems true e vs src in
          Ret (DPtr (TSlice e) (VSlice vs spare), err)
      end
  | _ => Ret (dst, Some errScanSliceValue)
  end.

(** ** Arguments *)

(** A value in a command's arguments, with its type; [None] is nil. *)
#[local] Abbreviation value := (option (gtype * gval)).

Definition Args : Type := list value.

Definition Add (args : Args) (vs : list value) : Args := args ++ vs.

Fixpoint flatten_fields (t : gtype) (v : gval) (fss : list fieldSpec) (args : Args) : go Args :=
  match fss with
  | [] => Ret args
  | fs :: fss =>
      match type_path t (index fs), get_path v (index fs) with
      | Some ft, Some fv => flatten_fields t v fss (args ++ [Some (TString, VString (name fs)); Some (ft, fv)])
      | _, _ => Panic
      end
  end.

Definition flattenStruct (args : Args) (t : gtype) (v : gval) : go Args :=
  let! sp := structSpecForType t in flatten_fields t v (l sp) args.

Definition AddFlat (args : Args) (v : value) : go Args :=
  match v with
  | Some (TStruct fs, x) => flattenStruct args (TStruct fs) x
  | Some (TSlice e, VSlice vs _) => Ret (args ++ ((fun x => Some (e, x)) <$> vs))
  | Some (TMap k e, VMap kvs) => Ret (args ++ flat_map (fun kv => [Some (k, kv.1); Some (e, kv.2)]) kvs)
  | Some (TPtr (TStruct fs), VPtr o) =>
      match o with
      | Some x => flattenStruct args (TStruct fs) x
      | None => Ret args
      end
  | _ => Ret (args ++ [v])
  end.

(** What [writeInterface] makes of a value: the builtin types it names, all
    others through [Fprint], which prints integers in decimal. *)
Definition arg_of (v : value) : arg F (gtype * gval) :=
  match v with
  | None => ANil
  | Some (t, x) =>
      match t, x with
      | TString, VString s => AString s
      | TBool, VBool b => ABool b
      | TInt w, VInt n => if w =? 64 then AInt64 n else AOther (t, x)
      | TFloat w, VFloat f => if w =? 64 then AFloat64 f else AOther (t, x)
      | TSlice e, VSlice vs _ =>
          if is_uint8 e then ABytes ((fun x => match x with VUint b => b | _ => 0 end) <$> vs) else AOther (t, x)
      | TInterface, VInterface None => ANil
      | TInterface, VInterface (Some (RStatus s)) => AString s
      | TInterface, VInterface (Some (RBulk p)) => ABytes p
      | TInterface, VInterface (Some (RInt n)) => AInt64 n
      | _, _ => AOther (t, x)
      end
  end.

Definition Fprint (rest : gtype * gval -> list Z) (x : gtype * gval) : list Z :=
  match x.2 with
  | VInt n => itoa n
  | VUint n => dec n
  | _ => rest x
  end.
End Scan.
