(* ===== verification/Utils.v ===== *)
(** * lib/utils and lib/env: strings, addresses and the configuration file

    utils/ip.go packs addresses into integers, utils/parsestr.go converts
    strings and drops the errors, env/env.go reads a JSON file with comments.
    The decoder of JSON and the parser of floats are parameters; bytes stand
    for the characters of strings. *)

From S2P Require Import Prelude Gostrings Resp Strconv.

(** ** utils/ip.go *)

(** [strconv.Atoi] with the error dropped. *)
Definition Atoi (s : list Z) : Z := (ParseInt s 0).1.

Definition IPToUInt32 (ip : list Z) : Z :=
  match Split 46 ip with
  | [s0; s1; s2; s3] =>
      let sum := u32 (0 + u32 (Z.shiftl (u32 (Atoi s0)) 24)) in
      let sum := u32 (sum + u32 (Z.shiftl (u32 (Atoi s1)) 16)) in
      let sum := u32 (sum + u32 (Z.shiftl (u32 (Atoi s2)) 8)) in
      u32 (sum + u32 (Atoi s3))
  | _ => 0
  end.

Definition AddrToUint64 (addr : list Z) : Z :=
  match Split 58 addr with
  | [ip; port] =>
      let intIp := IPToUInt32 ip in
      if intIp =? 0 then 0
      else
        match ParseUint port 64 with
        | (_, Some _) => 0
        | (intPort, None) => Z.lor (u64 (Z.shiftl intIp 32)) intPort
        end
  | _ => 0
  end.

(** ** utils/parsestr.go *)

Definition StrRemoveEmpty (s : list Z) : list Z := filter (fun b => b <> 32) s.

Fixpoint StrListRemoveEmpty (strs : list (list Z)) : list (list Z) :=
  match strs with
  | [] => []
  | s :: strs =>
      let tmpStr := StrRemoveEmpty s in
      if bool_decide (tmpStr = []) then StrListRemoveEmpty strs else tmpStr :: StrListRemoveEmpty strs
  end.

Definition StrRemoveEmptySlice (s sep : list Z) : list (list Z) := StrListRemoveEmpty (SplitStr s sep).

Definition StrToInt (s : list Z) : Z := i64 (ParseInt s 64).1.
Definition StrToInt32 (s : list Z) : Z := i32 (ParseInt s 64).1.
Definition StrToInt64 (s : list Z) : Z := (ParseInt s 64).1.
Definition StrToUint32 (s : list Z) : Z := u32 (ParseUint s 64).1.
Definition StrToUint64 (s : list Z) : Z := (ParseUint s 64).1.

(** ** env/env.go *)

Definition config : Type := gmap (list Z) (gmap (list Z) (list Z)).

(** The text of the file with everything from a double slash to the end of
    the line removed, and the lines joined. *)
Definition strip_comments (file : list Z) : list Z :=
  concat (map (fun line => default [] (head (SplitStr line [47; 47]))) (Split 10 file)).

(** [file] is [None] when it cannot be read.  [unmarshal] merges the decoded
    tables into the configuration, and reports whether it could. *)
Definition Load (unmarshal : list Z -> config -> config * bool) (configData : config) (file : option (list Z))
    : config * bool :=
  match file with
  | None => (configData, false)
  | Some f => unmarshal (strip_comments f) configData
  end.

Definition Get (configData : config) (table key : list Z) : list Z :=
  match configData !! table with
  | None => []
  | Some t => default [] (t !! key)
  end.

(** ** Addresses *)

Lemma lor_disjoint x p : 0 <= p < 2 ^ 32 -> Z.lor (x * 2 ^ 32) p = x * 2 ^ 32 + p.
Proof.
  intros Hp. assert (Z.land (x * 2 ^ 32) p = 0) as Hl.
  { rewrite <- Z.shiftl_mul_pow2 by lia. replace p with (Z.land p (Z.ones 32)) by (rewrite Z.land_ones, Z.mod_small by lia; done).
    apply Z.bits_inj'. intros n Hn. rewrite !Z.land_spec, Z.shiftl_spec, Z.testbit_ones, Z.bits_0 by lia.
    destruct (Z.ltb_spec n 32); [by rewrite (Z.testbit_neg_r x) by lia|]. by rewrite !andb_false_r. }
  rewrite Z.add_nocarry_lxor by done. by rewrite Z.lxor_lor.
Qed.

Definition ip_string (a b c d : Z) : list Z := dec a ++ 46 :: dec b ++ 46 :: dec c ++ 46 :: dec d.
Definition ip_value (a b c d : Z) : Z := a * 2 ^ 24 + b * 2 ^ 16 + c * 2 ^ 8 + d.

Lemma Atoi_dec n : 0 <= n < 2 ^ 63 -> Atoi (dec n) = n.
Proof.
  intros Hn. unfold Atoi. replace (ParseInt (dec n) 0) with (ParseInt (dec n) 64).
  - replace (dec n) with (itoa n) by (unfold itoa; by rewrite (proj2 (Z.ltb_ge n 0)) by lia).
    rewrite ParseInt_itoa by lia. by rewrite (proj2 (Z.ltb_ge _ (- _))), (proj2 (Z.ltb_lt _ _)) by lia.
  - unfold ParseInt, ParseUint. reflexivity.
Qed.

Lemma split_ip a b c d : 0 <= a -> 0 <= b -> 0 <= c -> 0 <= d -> Split 46 (ip_string a b c d) = [dec a; dec b; dec c; dec d].
Proof.
  intros. unfold ip_string. rewrite !Split_app by (apply dec_no_sep; lia). by rewrite Split_none by (apply dec_no_sep; lia).
Qed.

Lemma IPToUInt32_string a b c d : 0 <= a < 256 -> 0 <= b < 256 -> 0 <= c < 256 -> 0 <= d < 256 ->
  IPToUInt32 (ip_string a b c d) = ip_value a b c d.
Proof.
  intros. unfold IPToUInt32, ip_value. rewrite split_ip by lia. rewrite !Atoi_dec by lia. rewrite !Z.shiftl_mul_pow2 by lia.
  rewrite (wrap_small 32 a), (wrap_small 32 b), (wrap_small 32 c), (wrap_small 32 d) by lia.
  rewrite (wrap_small 32 (a * 2 ^ 24)), (wrap_small 32 (b * 2 ^ 16)), (wrap_small 32 (c * 2 ^ 8)) by lia.
  cbv zeta. rewrite (wrap_small 32 (0 + a * 2 ^ 24)), (wrap_small 32 (0 + a * 2 ^ 24 + b * 2 ^ 16)) by lia.
  rewrite (wrap_small 32 (0 + a * 2 ^ 24 + b * 2 ^ 16 + c * 2 ^ 8)) by lia. rewrite wrap_small by lia. lia.
Qed.

Lemma ip_string_no_colon a b c d : 0 <= a -> 0 <= b -> 0 <= c -> 0 <= d -> 58 ∉ ip_string a b c d.
Proof.
  intros. unfold ip_string. rewrite !not_elem_of_app, !not_elem_of_cons, !not_elem_of_app, !not_elem_of_cons.
  split_and!; try done; try (apply dec_no_sep; lia).
  rewrite not_elem_of_app, not_elem_of_cons. split_and!; [apply dec_no_sep; lia|done|apply dec_no_sep; lia].
Qed.

(** Addresses are packed exactly.  For an IPv4 address other than
    0.0.0.0, written in decimal, and a port below 2^32, [AddrToUint64] has the
    address in its upper and the port in its lower half; so different
    addresses have different numbers, none of them zero, the value for
    malformed input. *)
Theorem addr_packed a b c d p : 0 <= a < 256 -> 0 <= b < 256 -> 0 <= c < 256 -> 0 <= d < 256 -> 0 <= p < 2 ^ 32 ->
  0 < ip_value a b c d ->
  let n := AddrToUint64 (ip_string a b c d ++ 58 :: dec p) in
  n = ip_value a b c d * 2 ^ 32 + p /\
  [Z.shiftr n 56; Z.land (Z.shiftr n 48) 255; Z.land (Z.shiftr n 40) 255; Z.land (Z.shiftr n 32) 255; Z.land n (2 ^ 32 - 1)] =
    [a; b; c; d; p].
Proof.
  intros Ha Hb Hc Hd Hp Hip n. assert (n = ip_value a b c d * 2 ^ 32 + p) as ->.
  - unfold n, AddrToUint64. rewrite Split_app by (apply ip_string_no_colon; lia). rewrite Split_none by (apply dec_no_sep; lia).
    rewrite IPToUInt32_string by lia. cbv zeta. rewrite (proj2 (Z.eqb_neq _ _)) by lia. rewrite ParseUint_dec by lia.
    rewrite (proj2 (Z.ltb_lt _ _)) by lia. rewrite Z.shiftl_mul_pow2 by lia.
    unfold ip_value in *. rewrite wrap_small by lia. rewrite lor_disjoint by lia. done.
  - split; [done|]. unfold ip_value. rewrite !Z.shiftr_div_pow2 by lia.
    change 255 with (Z.ones 8). change (2 ^ 32 - 1) with (Z.ones 32). rewrite !Z.land_ones by lia.
    repeat f_equal; Z.to_euclidean_division_equations; lia.
Qed.

Lemma addr_packed_witness :
  let n := AddrToUint64 (ip_string 192 168 0 1 ++ 58 :: dec 6379) in
  n = ip_value 192 168 0 1 * 2 ^ 32 + 6379 /\
  [Z.shiftr n 56; Z.land (Z.shiftr n 48) 255; Z.land (Z.shiftr n 40) 255; Z.land (Z.shiftr n 32) 255; Z.land n (2 ^ 32 - 1)] =
    [192; 168; 0; 1; 6379].
Proof. apply (addr_packed 192 168 0 1 6379); unfold ip_value; lia. Defined.

(** Octets and ports are not checked: an octet of 256 is carried into the one
    before it, letters count as zero, and a port of 2^32 changes the
    address. *)
Example addr_unchecked :
  IPToUInt32 (str "10.0.0.256") = IPToUInt32 (str "10.0.1.0") /\
  IPToUInt32 (str "10.x.0.1") = IPToUInt32 (str "10.0.0.1") /\
  AddrToUint64 (str "10.0.0.0:4294967296") = AddrToUint64 (str "10.0.0.1:0").
Proof. vm_compute. done. Qed.

(** ** Comments in the configuration *)

(** No two slashes next to each other. *)
Fixpoint dslash_free (s : list Z) : bool :=
  match s with
  | a :: ((b :: _) as s') => negb ((a =? 47) && (b =? 47)) && dslash_free s'
  | _ => true
  end.

Fixpoint join_lines (ls : list (list Z)) : list Z :=
  match ls with
  | [] => []
  | [s] => s
  | s :: ls => s ++ 10 :: join_lines ls
  end.

Lemma Split_lines ls : ls <> [] -> Forall (fun s => 10 ∉ s) ls -> Split 10 (join_lines ls) = ls.
Proof.
  intros Hne H. induction H as [|s ls Hs _ IH]; [done|]. destruct ls as [|s' ls]; [by apply Split_none|].
  change (join_lines (s :: s' :: ls)) with (s ++ 10 :: join_lines (s' :: ls)). rewrite Split_app by done. by rewrite IH.
Qed.

Lemma dslash_tail a s : dslash_free (a :: s) = true -> dslash_free s = true.
Proof. destruct s as [|b s]; [done|]. intros H. by apply andb_prop in H as [_ H]. Qed.

Lemma dslash_prefix a b s s' : dslash_free (a :: b :: s) = true -> has_prefix [47; 47] (a :: b :: s') = false.
Proof.
  intros [H _]%andb_prop. cbn [has_prefix]. rewrite andb_true_r, (Z.eqb_sym 47 a), (Z.eqb_sym 47 b).
  by apply negb_true_iff.
Qed.

(** The text before a comment, and a line without one. *)
Lemma before_comment code rest : dslash_free (code ++ [47]) = true ->
  head (SplitStr (code ++ 47 :: 47 :: rest) [47; 47]) = Some code.
Proof.
  unfold SplitStr. induction code as [|b code IH]; intros Hd; [done|]. specialize (IH (dslash_tail _ _ Hd)).
  assert (has_prefix [47; 47] (b :: code ++ 47 :: 47 :: rest) = false) as E.
  { destruct code as [|b' code]; exact (dslash_prefix _ _ _ _ Hd). }
  cbn [app split_at]. rewrite E. destruct (split_at [47; 47] 0 (code ++ 47 :: 47 :: rest)) as [|p ps]; [done|]. cbn in *. congruence.
Qed.

Lemma no_comment code : dslash_free code = true -> SplitStr code [47; 47] = [code].
Proof.
  unfold SplitStr. induction code as [|b code IH]; intros Hd; [done|].
  assert (has_prefix [47; 47] (b :: code) = false) as E.
  { destruct code as [|b' code]; [cbn [has_prefix]; by rewrite andb_false_r|exact (dslash_prefix _ _ _ _ Hd)]. }
  cbn [split_at]. by rewrite E, (IH (dslash_tail _ _ Hd)).
Qed.

(** A line of the file: its text and its comment, if it has one. *)
Definition line_text (x : list Z * option (list Z)) : list Z :=
  match x.2 with Some c => x.1 ++ 47 :: 47 :: c | None => x.1 end.
Definition line_ok (x : list Z * option (list Z)) : Prop :=
  10 ∉ line_text x /\ dslash_free (match x.2 with Some _ => x.1 ++ [47] | None => x.1 end) = true.

(** Comments are removed from the configuration.  When no line's text
    has a double slash of its own, what [Load] decodes is the texts of the
    lines, without their comments and line ends. *)
Theorem config_comments (lines : list (list Z * option (list Z))) : Forall line_ok lines ->
  strip_comments (join_lines (line_text <$> lines)) = concat lines.*1.
Proof.
  intros Hl. destruct lines as [|x lines]; [done|]. unfold strip_comments. rewrite Split_lines.
  - clear -Hl. induction Hl as [|[code [c|]] ls [_ Hd] _ IH]; [done|..]; rewrite !fmap_cons; cbn [map concat line_text fst snd] in *.
    + rewrite before_comment by done. f_equal. exact IH.
    + rewrite no_comment by done. f_equal. exact IH.
  - done.
  - apply Forall_fmap. eapply Forall_impl; [exact Hl|]. by intros y [].
Qed.

Lemma config_comments_witness :
  strip_comments (join_lines (line_text <$> [(str "{ a: 1,", Some (str " first")); (str " b: 2 }", None)])) =
    concat [(str "{ a: 1,", Some (str " first")); (str " b: 2 }", None)].*1.
Proof.
  apply config_comments. repeat constructor; (reflexivity || (refine (bool_decide_unpack _ _); vm_compute; exact I)).
Defined.

(** A double slash inside a value is taken for a comment. *)
Example url_cut : strip_comments (str "listen: http://h:80, pid: p") = str "listen: http:".
Proof. vm_compute. reflexivity. Qed.

(** ** Numbers *)

(** Decimal forms are read back; an error is not seen by the caller: malformed
    text is zero, and what does not fit is the largest number, or, for the
    32-bit types, cut off. *)
Lemma str_to_numbers n : - 2 ^ 63 <= n < 2 ^ 63 ->
  StrToInt64 (itoa n) = n /\ StrToInt (itoa n) = n /\ StrToInt32 (itoa n) = i32 n /\
  (0 <= n -> StrToUint64 (dec n) = n /\ StrToUint32 (dec n) = u32 n) /\
  StrToInt64 (itoa (2 ^ 63 + Z.abs n)) = 2 ^ 63 - 1.
Proof.
  intros Hn. unfold StrToInt64, StrToInt, StrToInt32, StrToUint64, StrToUint32. rewrite !ParseInt_itoa by lia.
  rewrite !(proj2 (Z.ltb_ge n (- _))), !(proj2 (Z.ltb_lt n _)) by lia. cbn [fst]. split_and!; [done|by apply swrap_small|done| |].
  - intros H0. rewrite ParseUint_dec by lia. by rewrite (proj2 (Z.ltb_lt _ _)) by lia.
  - by rewrite (proj2 (Z.ltb_ge (2 ^ 63 + Z.abs n) (- _))), (proj2 (Z.ltb_ge (2 ^ 63 + Z.abs n) _)) by lia.
Qed.

(** The cleaned list has no spaces and no empty strings, and cleaning it again
    changes nothing. *)
Lemma cleaned strs : Forall (fun s => s <> [] /\ 32 ∉ s) (StrListRemoveEmpty strs) /\
  StrListRemoveEmpty (StrListRemoveEmpty strs) = StrListRemoveEmpty strs.
Proof.
  assert (forall s, 32 ∉ StrRemoveEmpty s) as Hno by (intros s [? _]%list_elem_of_filter; done).
  assert (forall s, StrRemoveEmpty (StrRemoveEmpty s) = StrRemoveEmpty s) as Hid.
  { intros s. unfold StrRemoveEmpty. rewrite list_filter_filter. apply list_filter_iff. naive_solver. }
  induction strs as [|s strs [IH1 IH2]]; [by split; [constructor|]|]. cbn [StrListRemoveEmpty].
  case_bool_decide; [done|]. split; [by constructor|]. cbn [StrListRemoveEmpty]. rewrite Hid, bool_decide_false by done. by rewrite IH2.
Qed.
