(* ===== verification/Scantype.v ===== *)
(** * redis/scan.go: the description of a struct, and type safety

    The description [compileStructSpec] builds names only paths to fields that
    are not embedded, no path is a prefix of another, and its map and its list
    agree: the map has the last entry of the list for each name.  With that,
    every scanning function leaves a destination of a type a value of the type,
    whatever the replies are, and the reflection calls do not panic. *)

From S2P Require Import Prelude Resp Respread Strconv Gotype Scan.

(** ** Paths to fields *)

(** The name and type of the field at a path through embedded structs. *)
Fixpoint leaf (t : gtype) (p : list nat) : option (list Z * gtype) :=
  match p, t with
  | i :: p, TStruct fs =>
      f ← fs !! i;
      match p with
      | [] => if anonymous f.1 then None else Some (field_name f.1, f.2)
      | _ => if anonymous f.1 then leaf f.2 p else None
      end
  | _, _ => None
  end.

Lemma leaf_step t i p x : leaf t (i :: p) = Some x ->
  exists fs f, t = TStruct fs /\ fs !! i = Some f /\
    (p = [] /\ anonymous f.1 = false /\ x = (field_name f.1, f.2) \/
     p <> [] /\ anonymous f.1 = true /\ leaf f.2 p = Some x).
Proof.
  cbn. destruct t as [| | | | | | | | |fs]; try done. destruct (fs !! i) as [f|] eqn:Ef; [|done]. cbn.
  intros H. exists fs, f. destruct p, (anonymous f.1) eqn:Ea; naive_solver.
Qed.

Lemma leaf_type p : forall t nm ft, leaf t p = Some (nm, ft) -> type_path t p = Some ft.
Proof.
  induction p as [|i p IH]; intros t nm ft H; [by destruct t|].
  destruct (leaf_step _ _ _ _ H) as (fs & f & -> & Ef & [(-> & _ & [= -> ->])|(_ & _ & Hl)]); cbn; rewrite Ef; eauto.
Qed.

Lemma leaf_wf p : forall t nm ft, wf_type t -> leaf t p = Some (nm, ft) -> wf_type ft.
Proof.
  induction p as [|i p IH]; intros t nm ft Hwf H; [by destruct t|].
  destruct (leaf_step _ _ _ _ H) as (fs & f & -> & Ef & [(-> & _ & [= -> ->])|(_ & _ & Hl)]);
    eauto using wf_type_field.
Qed.

(** No path to a field goes through another field. *)
Lemma leaf_prefix p : forall q t x y, leaf t p = Some x -> leaf t q = Some y -> p `prefix_of` q -> p = q.
Proof.
  induction p as [|i p IH]; intros q t x y Hp Hq Hpre; [by destruct t|].
  destruct q as [|j q]; [by apply prefix_nil_not in Hpre|].
  pose proof (prefix_cons_inv_1 _ _ _ _ Hpre) as <-. pose proof (prefix_cons_inv_2 _ _ _ _ Hpre) as Hpq.
  destruct (leaf_step _ _ _ _ Hp) as (fs & f & -> & Ef & HP).
  destruct (leaf_step _ _ _ _ Hq) as (fs' & f' & [= <-] & Ef' & HQ). simplify_eq.
  destruct HP as [(-> & Ha & _)|(Hne & Ha & Hl)], HQ as [(-> & Hb & _)|(Hne' & Hb & Hl')]; try congruence.
  - by f_equal; eauto.
Qed.

(** ** The map and the list of a description *)

Definition last_named (fss : list fieldSpec) (nm : list Z) : option fieldSpec :=
  last (filter (fun fs => name fs = nm) fss).

Record spec_ok (t : gtype) (sp : structSpec) : Prop := mkSpecOk {
  spec_leaf : forall fs, fs ∈ l sp -> exists ft, leaf t (index fs) = Some (name fs, ft);
  spec_map : forall nm, m sp !! nm = last_named (l sp) nm;
}.

Lemma last_named_in fss nm fs : last_named fss nm = Some fs -> name fs = nm /\ fs ∈ fss.
Proof. intros H%last_Some_elem_of. by apply list_elem_of_filter in H. Qed.

Lemma last_named_cons fss fs nm :
  last_named (fs :: fss) nm =
    match last_named fss nm with Some x => Some x | None => if decide (name fs = nm) then Some fs else None end.
Proof.
  unfold last_named. rewrite filter_cons. case_decide.
  - rewrite last_cons. by destruct (last _).
  - by destruct (last _).
Qed.

Lemma last_named_snoc fss fs nm :
  last_named (fss ++ [fs]) nm = if decide (name fs = nm) then Some fs else last_named fss nm.
Proof.
  unfold last_named. rewrite filter_app, filter_cons. rewrite filter_nil. case_decide; [by rewrite last_snoc|].
  by rewrite app_nil_r.
Qed.

Lemma last_named_remove fss nm nm' :
  last_named (filter (fun fs => nm <> name fs) fss) nm' = if decide (nm = nm') then None else last_named fss nm'.
Proof.
  unfold last_named. rewrite list_filter_filter. case_decide as E.
  - subst nm'. induction fss as [|fs fss IH]; [done|]. rewrite filter_cons_False by naive_solver. exact IH.
  - f_equal. apply list_filter_iff. naive_solver.
Qed.

Lemma compile_field_ok t f ft idx i st st' : spec_ok t (ss st) -> leaf t (idx ++ [i]) = Some (field_name f, ft) ->
  compile_field f idx i st = Ret st' -> spec_ok t (ss st').
Proof.
  intros [Hl Hm] Hf. unfold compile_field. case_bool_decide; [by intros [= <-]|].
  destruct (0 <? _); [done|]. destruct (_ =? _); [|destruct (_ <? _)]; intros [= <-]; [..|done]; constructor; cbn [ss m l].
  - intros fs [_ Hin]%list_elem_of_filter. auto.
  - intros nm. rewrite last_named_remove. case_decide as E; [subst; apply lookup_delete_eq|].
    by rewrite lookup_delete_ne.
  - intros fs [Hin| ->%list_elem_of_singleton]%elem_of_app; [auto|]. by exists ft.
  - intros nm. rewrite last_named_snoc. cbn [name]. case_decide as E; [subst; apply lookup_insert_eq|].
    by rewrite lookup_insert_ne.
Qed.

Lemma compile_fields_ok t0 fs_all idx : (forall q, q <> [] -> leaf t0 (idx ++ q) = leaf (TStruct fs_all) q) ->
  Forall (fun f : finfo * gtype => forall idx st st',
    (forall q, q <> [] -> leaf t0 (idx ++ q) = leaf f.2 q) -> spec_ok t0 (ss st) ->
    compileStructSpec f.2 idx st = Ret st' -> spec_ok t0 (ss st')) fs_all ->
  forall fs pre st st', fs_all = pre ++ fs -> spec_ok t0 (ss st) ->
    compile_fields compileStructSpec idx fs (length pre) st = Ret st' -> spec_ok t0 (ss st').
Proof.
  intros Hleaf Hall fs. induction fs as [|f fs IH]; intros pre st st' Efs Hok; [by intros [= <-]|].
  assert (fs_all !! length pre = Some f) as Hf by (rewrite Efs, list_lookup_middle; done).
  assert (f ∈ fs_all) as Hin by (by eapply list_elem_of_lookup_2).
  unfold compile_fields. fold (compile_fields compileStructSpec idx).
  match goal with |- context [go_bind ?c _] => destruct c as [st1|] eqn:E1 end; [cbn|done].
  intros H. refine (IH (pre ++ [f]) st1 st' _ _ _); [by rewrite <- app_assoc| |by rewrite length_app, Nat.add_1_r].
  destruct (exported f.1); cbn [negb] in E1; [|by simplify_eq]. destruct (anonymous f.1) eqn:Ea.
  - destruct (f.2) as [| | | | | | | | |fs2] eqn:Et; try (by simplify_eq). rewrite Forall_forall in Hall.
    eapply (Hall f Hin); [|exact Hok|by rewrite Et]. intros q Hq. rewrite <- app_assoc, Hleaf by done. cbn. rewrite Hf. cbn.
    rewrite Ea, Et. by destruct q.
  - eapply (compile_field_ok _ _ f.2); [done| |done]. rewrite Hleaf by done. cbn. rewrite Hf. cbn. by rewrite Ea.
Qed.

Lemma compileStructSpec_ok t0 t : forall idx st st',
  (forall q, q <> [] -> leaf t0 (idx ++ q) = leaf t q) -> spec_ok t0 (ss st) ->
  compileStructSpec t idx st = Ret st' -> spec_ok t0 (ss st').
Proof.
  induction t as [w|w|w| | | |e IH|e IH|k e _ _|fs IH] using gtype_ind'; intros idx st st' Hleaf Hok Hc; try done.
  by eapply (compile_fields_ok t0 fs idx Hleaf IH fs []).
Qed.

Lemma structSpecForType_ok t sp : structSpecForType t = Ret sp -> spec_ok t sp.
Proof.
  unfold structSpecForType. destruct (compileStructSpec t [] _) as [st|] eqn:E; [cbn; intros [= <-]|done].
  eapply (compileStructSpec_ok t t []); [done| |exact E]. constructor; [by intros fs ?%elem_of_nil|done].
Qed.

Section Types.
Context {F : Type} (fzero : F).
Context (ParseFloat : list Z -> Z -> F * option num_err).
#[local] Abbreviation gval := (gval F).
#[local] Abbreviation dest := (@dest F).
#[local] Abbreviation assign_at := (assign_at ParseFloat).

(** Replies come from the wire: their strings are bytes. *)
Definition bulk_ok (s : reply) : Prop := match s with RBulk p => Forall is_byte p | _ => True end.
Definition reply_ok (s : reply) : Prop := bulk_ok s /\ match s with RArray r => Forall bulk_ok r | _ => True end.

(** The call returns, and leaves a value of the type. *)
Definition keeps (t : gtype) (r : go (gval * option scan_err)) : Prop :=
  exists v err, r = Ret (v, err) /\ has_type t v.

Lemma keeps_next t (r : go (gval * option scan_err)) k : keeps t r -> (forall v, has_type t v -> keeps t (k v)) ->
  keeps t (let! (v, err) := r in match err with Some err => Ret (v, Some err) | None => k v end).
Proof. intros (v & [err|] & -> & Hv) Hk; cbn; [by exists v, (Some err)|by apply Hk]. Qed.

Lemma convertAssignValue_typed t d s : wf_type t -> has_type t d -> bulk_ok s ->
  has_type t (convertAssignValue ParseFloat t d s).1.
Proof.
  intros Hwf Hd Hs. destruct s as [|s|s|n|p|r]; try done; destruct t as [w|w|w| | | |e|e|k e|fs]; try done; cbn in *.
  - destruct (swrap w n =? n); cbn; [apply swrap_range; lia|]. pose proof (Z.pow_pos_nonneg 2 (w - 1)). lia.
  - pose proof (Z.pow_pos_nonneg 2 w). destruct (n <? 0); [done|].
    destruct (wrap w n =? n); cbn; [apply Z.mod_pos_bound|]; lia.
  - destruct (ParseInt p w). cbn. apply swrap_range. lia.
  - destruct (ParseUint p w). cbn. apply Z.mod_pos_bound, Z.pow_pos_nonneg; lia.
  - by destruct (ParseFloat p w).
  - by destruct (ParseBool p).
  - destruct (is_uint8 e) eqn:E; [|done]. destruct e as [w|w|w| | | |e|e|k e|fs]; try done. cbn in E. apply Z.eqb_eq in E as ->.
    cbn. split; [|done]. apply Forall_fmap. eapply Forall_impl; [exact Hs|]. intros b Hb. exact Hb.
Qed.

Lemma assign_at_typed t d fs ft nm s : wf_type t -> has_type t d -> leaf t (index fs) = Some (nm, ft) -> bulk_ok s ->
  keeps t (assign_at t d fs s).
Proof.
  intros Hwf Hd Hl Hs. pose proof (leaf_type _ _ _ _ Hl) as Hp. pose proof (leaf_wf _ _ _ _ Hwf Hl) as Hft.
  destruct (get_path_typed _ _ _ _ Hd Hp) as (x & Hx & Hxt). unfold assign_at. rewrite Hp, Hx.
  pose proof (convertAssignValue_typed ft x s Hft Hxt Hs) as Hv.
  destruct (convertAssignValue ParseFloat ft x s) as [y err]. exists (set_path d (index fs) y), err.
  split; [done|]. by eapply set_path_typed.
Qed.

Section Structs.
Context (fs : list (finfo * gtype)) (sp : structSpec).
Context (Hwf : wf_type (TStruct fs)) (Hsp : spec_ok (TStruct fs) sp).
#[local] Abbreviation t := (TStruct fs).

Lemma assign_name_typed d nm s : has_type t d -> bulk_ok s -> keeps t (assign_name ParseFloat sp t d nm s).
Proof.
  intros Hd Hs. unfold assign_name. rewrite (spec_map _ _ Hsp). destruct (last_named (l sp) nm) as [f|] eqn:E.
  - apply last_named_in in E as [_ Hin]. destruct (spec_leaf _ _ Hsp f Hin) as [ft Hft]. by eapply assign_at_typed.
  - by exists d, None.
Qed.

Lemma scan_pairs_typed : forall src d, has_type t d -> Forall bulk_ok src -> keeps t (scan_pairs ParseFloat sp t d src).
Proof.
  fix IH 1. intros [|k [|s src]] d Hd Hs; [by exists d, None..|].
  apply Forall_cons in Hs as [Hk [Hs Hsrc]%Forall_cons]. cbn [scan_pairs].
  destruct (is_nil s); [by apply IH|]. destruct k; try by exists d, (Some SKeyNotBulk).
  apply keeps_next; [by apply assign_name_typed|]. intros d' Hd'. by apply IH.
Qed.

Lemma scan_names_typed src : forall names d, has_type t d -> Forall bulk_ok src ->
  keeps t (scan_names ParseFloat sp t d src names).
Proof.
  induction src as [|s src IH]; intros [|[nm|] names] d Hd Hs; try by exists d, None.
  - apply Forall_cons in Hs as [Hs Hsrc]. cbn [scan_names]. destruct (is_nil s); [by apply IH|].
    apply keeps_next; [by apply assign_name_typed|eauto].
  - apply Forall_cons in Hs as [Hs Hsrc]. cbn [scan_names]. destruct (is_nil s); [by apply IH|].
    by exists d, (Some SKeyNotBulk).
Qed.

Lemma scan_row_typed fss : forall src d, Forall (fun f => f ∈ l sp) fss -> has_type t d -> Forall bulk_ok src ->
  keeps t (scan_row ParseFloat t d fss src).
Proof.
  induction fss as [|f fss IH]; intros [|s src] d Hf Hd Hs; try by exists d, None.
  apply Forall_cons in Hf as [Hf Hfss]. apply Forall_cons in Hs as [Hs Hsrc]. cbn [scan_row].
  destruct (is_nil s); [by apply IH|]. destruct (spec_leaf _ _ Hsp f Hf) as [ft Hft].
  apply keeps_next; [by eapply assign_at_typed|eauto].
Qed.

Lemma scan_rows_typed isPtr e vs : forall fss src,
  e = (if isPtr : bool then TPtr t else t) -> Forall (fun f => f ∈ l sp) fss -> Forall (has_type e) vs -> Forall bulk_ok src ->
  exists vs' err, scan_rows fzero ParseFloat isPtr t vs fss src = Ret (vs', err) /\ Forall (has_type e) vs'.
Proof.
  induction vs as [|v vs IH]; intros fss src He Hf Hvs Hs; [by exists [], None|].
  apply Forall_cons in Hvs as [Hv Hvs]. cbn [scan_rows].
  set (d := match isPtr, v with true, VPtr None => _ | true, VPtr (Some d) => d | _, _ => v end).
  assert (has_type t d) as Hd.
  { subst e d. destruct isPtr; [|done]. destruct v as [| | | | | | |[v|]| |]; try done. by apply zero_typed. }
  destruct (scan_row_typed fss (take (length fss) src) d Hf Hd) as (d' & err & -> & Hd'); [by apply Forall_take|].
  cbn [go_bind]. assert (has_type e (if isPtr then VPtr (Some d') else d')) as Hv' by (subst e; by destruct isPtr).
  destruct err as [err|]; [eexists _, _; split; [done|by constructor]|].
  destruct (IH fss (drop (length fss) src) He Hf Hvs) as (vs' & err & -> & Hvs'); [by apply Forall_drop|].
  cbn. eexists _, _. split; [done|by constructor].
Qed.
End Structs.

(** ** Slices *)

Lemma ensureLen_typed e vs spare n : wf_type e -> Forall (has_type e) vs -> Forall (has_type e) spare ->
  Forall (has_type e) (ensureLen fzero e vs spare n).1 /\ Forall (has_type e) (ensureLen fzero e vs spare n).2.
Proof.
  intros Hwf Hvs Hsp. unfold ensureLen. case_decide; cbn [fst snd].
  - split; [|done]. apply Forall_replicate. by apply zero_typed.
  - assert (Forall (has_type e) (vs ++ spare)) by (by apply Forall_app). split; [by apply Forall_take|by apply Forall_drop].
Qed.

Lemma assign_elems_typed skip e vs : forall src, wf_type e -> Forall (has_type e) vs -> Forall bulk_ok src ->
  Forall (has_type e) (assign_elems ParseFloat skip e vs src).1.
Proof.
  induction vs as [|v vs IH]; intros [|s src] Hwf Hvs Hs; try done. cbn [assign_elems].
  apply Forall_cons in Hvs as [Hv Hvs]. apply Forall_cons in Hs as [Hs Hsrc]. specialize (IH src Hwf Hvs Hsrc).
  destruct (assign_elems ParseFloat skip e vs src) as [vs' err']. destruct (skip && is_nil s); [by constructor|].
  pose proof (convertAssignValue_typed e v s Hwf Hv Hs) as Hv'.
  by destruct (convertAssignValue ParseFloat e v s) as [v' [err|]]; constructor.
Qed.

Lemma convertAssignValues_typed t v src : wf_type t -> has_type t v -> Forall bulk_ok src ->
  has_type t (convertAssignValues fzero ParseFloat t v src).1.
Proof.
  intros Hwf Hv Hs. destruct t as [| | | | | |e| | |]; try done. destruct v as [| | | | | |vs spare| | |]; try done.
  destruct Hv as [Hvs Hsp]. cbn [convertAssignValues wf_type] in *.
  pose proof (ensureLen_typed e vs spare (length src) Hwf Hvs Hsp) as [H1 H2].
  destruct (ensureLen fzero e vs spare (length src)) as [vs' spare'].
  pose proof (assign_elems_typed false e vs' src Hwf H1 Hs). by destruct (assign_elems ParseFloat false e vs' src).
Qed.

(** ** Destinations *)

Definition dest_type (d : dest) : option gtype := match d with DPtr t _ => Some t | _ => None end.
Definition dest_ok (d : dest) : Prop := match d with DPtr t v => wf_type t /\ has_type t v | _ => True end.

(** The destinations [Scan] can be given: not a nil pointer, and not nil where
    the server sends a status line. *)
Definition scannable (s : reply) (d : dest) : Prop :=
  match d, s with
  | DNilPtr _, _ => False
  | DNil, RStatus _ => False
  | _, _ => True
  end.

(** The struct types in a destination have tags without flags. *)
Definition compiles (d : dest) : Prop :=
  match dest_type d with
  | Some (TStruct fs) | Some (TSlice (TStruct fs)) | Some (TSlice (TPtr (TStruct fs))) =>
      exists sp, structSpecForType (TStruct fs) = Ret sp
  | _ => True
  end.

Definition scanned (d : dest) (r : go (dest * option scan_err)) : Prop :=
  exists d' err, r = Ret (d', err) /\ dest_type d' = dest_type d /\ dest_ok d'.

Lemma scanned_same d err : dest_ok d -> scanned d (Ret (d, err)).
Proof. intros Hd. by exists d, err. Qed.

Lemma assign_to_typed d i f : dest_ok d -> (forall t, d <> DNilPtr t) ->
  (forall t v, wf_type t -> has_type t v -> has_type t (f t v).1) -> scanned d (assign_to d i f).
Proof.
  intros Hd Hn Hf. destruct d as [|t|t v|]; [by apply scanned_same|by destruct (Hn t)| |by apply scanned_same].
  destruct Hd as [Hwf Hv]. pose proof (Hf t v Hwf Hv) as Hv'.
  destruct t; cbn [assign_to];
    destruct (f _ v) as [v' err]; eexists _, _; (split; [reflexivity|split; [reflexivity|by split]]).
Qed.

Lemma convertAssign_typed d s : dest_ok d -> scannable s d -> reply_ok s ->
  scanned d (convertAssign fzero ParseFloat d s).
Proof.
  intros Hd Hsc [Hb Hr]. assert (forall t, d <> DNilPtr t) as Hn by (by intros t ->).
  destruct s as [|s|s|n|p|r]; cbn [convertAssign]; [by apply scanned_same| |by apply scanned_same|..].
  - destruct d; [done|by apply scanned_same..].
  - apply assign_to_typed; [done..|]. intros t v Hwf Hv. by apply (convertAssignValue_typed t v (RInt n)).
  - apply assign_to_typed; [done..|]. intros t v Hwf Hv. by apply (convertAssignValue_typed t v (RBulk p)).
  - apply assign_to_typed; [done..|]. intros t v Hwf Hv.
    pose proof (convertAssignValues_typed t v r Hwf Hv Hr) as H.
    destruct t as [| | | | | |[]| | |]; try exact H. cbn. split; [|done]. apply Forall_fmap, Forall_true. done.
Qed.

Lemma scan_dests_typed src : forall ds, Forall dest_ok ds -> Forall reply_ok src ->
  (forall i s d, src !! i = Some s -> ds !! i = Some d -> scannable s d) ->
  exists ds' err, scan_dests fzero ParseFloat src ds = Ret (ds', err) /\
    dest_type <$> ds' = dest_type <$> ds /\ Forall dest_ok ds'.
Proof.
  induction src as [|s src IH]; intros [|d ds] Hds Hsrc Hsc; try by eexists _, _.
  pose proof Hds as [Hd Hds']%Forall_cons. apply Forall_cons in Hsrc as [Hs Hsrc]. cbn [scan_dests].
  destruct (convertAssign_typed d s Hd (Hsc 0%nat s d eq_refl eq_refl) Hs) as (d' & err & -> & Ht & Hd').
  cbn [go_bind]. destruct err as [err|].
  - eexists _, _. split; [done|]. rewrite !fmap_cons, Ht. split; [done|by constructor].
  - destruct (IH ds Hds' Hsrc (fun i => Hsc (S i))) as (ds2 & err & -> & Ht2 & Hds2). cbn [go_bind].
    eexists _, _. split; [done|]. rewrite !fmap_cons, Ht, Ht2. split; [done|by constructor].
Qed.

Lemma reply_bulk_ok src : Forall reply_ok src -> Forall bulk_ok src.
Proof. intros H. eapply Forall_impl; [exact H|]. by intros s []. Qed.

Lemma named_fields_in t sp names : spec_ok t sp -> forall fss, named_fields sp names = inl fss ->
  Forall (fun f => f ∈ l sp) fss.
Proof.
  intros Hsp. induction names as [|nm names IH]; intros fss; cbn; [by intros [= <-]|].
  rewrite (spec_map _ _ Hsp). destruct (last_named (l sp) nm) as [f|] eqn:E; [|done].
  destruct (named_fields sp names) as [fss'|]; [intros [= <-]|done]. constructor; [|auto].
  by apply last_named_in in E as [_ Hin].
Qed.

Lemma ScanSlice_typed src dst fieldNames : Forall reply_ok src -> dest_ok dst -> compiles dst ->
  scanned dst (ScanSlice fzero ParseFloat src dst fieldNames).
Proof.
  intros Hsrc Hd Hc. apply reply_bulk_ok in Hsrc. destruct dst as [|t|t v|]; try by apply scanned_same.
  destruct t as [| | | | | |e| | |]; try by apply scanned_same. destruct v as [| | | | | |vs spare| | |]; try by destruct Hd.
  cbn [ScanSlice]. set (isPtr := match e with TPtr (TStruct _) => true | _ => false end).
  set (t := match e with TPtr (TStruct fs) => TStruct fs | _ => e end).
  destruct Hd as [Hwf [Hvs Hspare]]. cbn in Hwf.
  assert (wf_type t) as Hwft by (subst t; destruct e as [| | | | | | |[]| |]; done).
  assert (forall fs, t = TStruct fs -> e = (if isPtr then TPtr t else t)) as He.
  { intros fs. subst t isPtr. destruct e as [| | | | | | |[]| |]; try done. }
  assert (forall fs, t = TStruct fs -> exists sp, structSpecForType (TStruct fs) = Ret sp) as Hspec.
  { intros fs. subst t. destruct e as [| | | | | | |[]| |]; try done; by intros [= <-]. }
  clearbody isPtr t. destruct t as [| | | | | | | | |fs];
    try (pose proof (ensureLen_typed e vs spare (length src) Hwf Hvs Hspare) as [H1 H2];
      destruct (ensureLen fzero e vs spare (length src)) as [vs1 sp1];
      pose proof (assign_elems_typed true e vs1 src Hwf H1 Hsrc);
      destruct (assign_elems ParseFloat true e vs1 src) as [vs2 err];
      by exists (DPtr (TSlice e) (VSlice vs2 sp1)), err).
  specialize (He fs eq_refl). destruct (Hspec fs eq_refl) as [sp Hsp].
  rewrite Hsp. cbn [go_bind]. apply structSpecForType_ok in Hsp.
  destruct (if 0 <? zlen fieldNames then named_fields sp fieldNames else inl (l sp)) as [fss|nm] eqn:Ef; [|by apply scanned_same].
  assert (Forall (fun f => f ∈ l sp) fss) as Hfss.
  { destruct (0 <? zlen fieldNames); [by eapply named_fields_in|]. injection Ef as <-. by apply Forall_forall. }
  destruct (zlen fss =? 0); [by apply scanned_same|]. destruct (negb _); [by apply scanned_same|].
  pose proof (ensureLen_typed e vs spare (Z.to_nat (zlen src / zlen fss)) Hwf Hvs Hspare) as [H1 H2].
  destruct (ensureLen fzero e vs spare _) as [vs1 sp1].
  destruct (scan_rows_typed fs sp Hwft Hsp isPtr e vs1 fss src He Hfss H1 Hsrc) as (vs2 & err & -> & Hvs2).
  by exists (DPtr (TSlice e) (VSlice vs2 sp1)), err.
Qed.

(** C32: scanning is type safe.  Whatever the replies are, [ScanStruct],
    [ScanStructByValue], [ScanSlice] and [Scan] return, also with an error, and
    leave in each destination a value of its type: integers in the range of
    their width, slices and structs of the declared elements.  No field path of
    a compiled description makes package reflect panic.  The struct types have
    tags without flags, and [Scan] gets no nil pointer and no nil for a status
    line. *)
Theorem scan_type_safe src names fieldNames dst ds :
  Forall reply_ok src -> dest_ok dst -> compiles dst -> Forall dest_ok ds ->
  (forall i s d, src !! i = Some s -> ds !! i = Some d -> scannable s d) ->
  scanned dst (ScanStruct ParseFloat src dst) /\
  scanned dst (ScanStructByValue ParseFloat src names dst) /\
  scanned dst (ScanSlice fzero ParseFloat src dst fieldNames) /\
  exists rest ds' err, Scan fzero ParseFloat src ds = Ret (rest, ds', err) /\
    dest_type <$> ds' = dest_type <$> ds /\ Forall dest_ok ds'.
Proof.
  intros Hsrc Hd Hc Hds Hsc. pose proof (reply_bulk_ok _ Hsrc) as Hb. split_and!.
  - destruct dst as [|t|t v|]; try by apply scanned_same. destruct t as [| | | | | | | | |fs]; try by apply scanned_same.
    destruct Hc as [sp Hsp], Hd as [Hwf Hv]. cbn [ScanStruct]. rewrite Hsp. cbn [go_bind].
    destruct (negb _); [by apply scanned_same|].
    destruct (scan_pairs_typed fs sp Hwf (structSpecForType_ok _ _ Hsp) src v Hv Hb) as (v' & err & -> & Hv').
    by exists (DPtr (TStruct fs) v'), err.
  - unfold ScanStructByValue. destruct (negb _); [by apply scanned_same|].
    destruct dst as [|t|t v|]; try by apply scanned_same. destruct t as [| | | | | | | | |fs]; try by apply scanned_same.
    destruct Hc as [sp Hsp], Hd as [Hwf Hv]. rewrite Hsp. cbn [go_bind].
    destruct (scan_names_typed fs sp Hwf (structSpecForType_ok _ _ Hsp) src names v Hv Hb) as (v' & err & -> & Hv').
    by exists (DPtr (TStruct fs) v'), err.
  - by apply ScanSlice_typed.
  - unfold Scan. destruct (_ <? _)%nat; [by eexists _, ds, _|].
    destruct (scan_dests_typed src ds Hds Hsrc Hsc) as (ds' & err & -> & Ht & Hds'). by eexists _, _, _.
Qed.
End Types.

(** A struct with an int8 and an embedded struct, and replies that do not
    fit. *)
Definition point : gtype :=
  TStruct [(mkField (str "X") (str "x") true false, TInt 8);
           (mkField (str "Base") [] true true, TStruct [(mkField (str "Name") [] true false, TString)])].

Lemma scan_type_safe_witness :
  let PF := fun (_ : list Z) (_ : Z) => (tt, None) in
  let dst := DPtr point (zero tt point) in
  let src := [RBulk (str "Name"); RBulk (str "p"); RBulk (str "x"); RBulk (str "300")] in
  let ds := [DNil; DPtr (TInt 8) (VInt 5)] in
  scanned dst (ScanStruct PF src dst) /\
  scanned dst (ScanStructByValue PF src [] dst) /\
  scanned dst (ScanSlice tt PF src dst []) /\
  exists rest ds' err, Scan tt PF src ds = Ret (rest, ds', err) /\
    dest_type <$> ds' = dest_type <$> ds /\ Forall dest_ok ds'.
Proof.
  intros PF dst src ds. apply (scan_type_safe tt PF src [] [] dst ds).
  - repeat constructor; unfold is_byte; lia.
  - split; [cbn; lia|]. cbn. split_and!; [lia..|done|done].
  - eexists. vm_compute. reflexivity.
  - repeat constructor; cbn; lia.
  - intros [|[|i]] s d Hs Hd; [injection Hs as <-; injection Hd as <-; exact I..|done].
Defined.

(** The int8 is clipped and the error is reported; the embedded field was
    scanned before. *)
Example scan_point :
  ScanStruct (fun _ _ => (tt, None)) [RBulk (str "Name"); RBulk (str "p"); RBulk (str "x"); RBulk (str "300")]
    (DPtr point (zero tt point)) =
  Ret (DPtr point (VStruct [VInt 127; VStruct [VString (str "p")]]), Some (SErrNum ErrRange)).
Proof. vm_compute. reflexivity. Qed.
