(* ===== verification/Reply.v ===== *)
(** * redis/reply.go: converting replies

    The helpers that turn the pair (reply, error) of a call into Go values.
    The model covers the dynamic types [readReply] produces: nil, status
    strings, errors, int64, byte slices and arrays; the type switches' cases for
    other integer and float types cannot occur on replies and are left out.
    Parsing floats is a parameter. *)

From S2P Require Import Prelude Resp Respread Strconv.

Section Reply.
(** [E] is the type of the errors calls return. *)
Context {E F : Type} (fzero : F) (ParseFloat : list Z -> F * option num_err).

Inductive conv_err : Type :=
| ErrCalled (e : E)
| ErrNil
| ErrReply (s : list Z)
| ErrNum (e : num_err)
| errNegativeInt
| ErrUnexpectedType
| ErrElementType
| ErrOddLength
| ErrMapKey.

Definition conv (A : Type) : Type := A * option conv_err.

Definition num {A B : Type} (f : A -> B) (r : A * option num_err) : conv B := (f r.1, ErrNum <$> r.2).

(** The part all helpers share: an error of the call, a nil reply, an error
    reply, and a type the helper does not know. *)
Definition otherwise {A : Type} (zero : A) (reply : reply) : conv A :=
  match reply with
  | RNil => (zero, Some ErrNil)
  | RError s => (zero, Some (ErrReply s))
  | _ => (zero, Some ErrUnexpectedType)
  end.

Definition Int (reply : reply) (err : option E) : conv Z :=
  match err with
  | Some e => (0, Some (ErrCalled e))
  | None =>
      match reply with
      | RInt n => (n, None)
      | RBulk p => num id (ParseInt p 0)
      | _ => otherwise 0 reply
      end
  end.

Definition Int32 (reply : reply) (err : option E) : conv Z :=
  match err with
  | Some e => (0, Some (ErrCalled e))
  | None =>
      match reply with
      | RInt n => if i32 n =? n then (i32 n, None) else (0, Some (ErrNum ErrRange))
      | RBulk p => num i32 (ParseInt p 0)
      | _ => otherwise 0 reply
      end
  end.

Definition UInt32 (reply : reply) (err : option E) : conv Z :=
  match err with
  | Some e => (0, Some (ErrCalled e))
  | None =>
      match reply with
      | RInt n => if u32 n =? n then (u32 n, None) else (0, Some (ErrNum ErrRange))
      | RBulk p => num u32 (ParseInt p 0)
      | _ => otherwise 0 reply
      end
  end.

Definition Int64 (reply : reply) (err : option E) : conv Z :=
  match err with
  | Some e => (0, Some (ErrCalled e))
  | None =>
      match reply with
      | RInt n => (n, None)
      | RBulk p => num id (ParseInt p 64)
      | _ => otherwise 0 reply
      end
  end.

Definition Uint64 (reply : reply) (err : option E) : conv Z :=
  match err with
  | Some e => (0, Some (ErrCalled e))
  | None =>
      match reply with
      | RInt n => if n <? 0 then (0, Some errNegativeInt) else (n, None)
      | RBulk p => num id (ParseUint p 64)
      | _ => otherwise 0 reply
      end
  end.

Definition Float64 (reply : reply) (err : option E) : conv F :=
  match err with
  | Some e => (fzero, Some (ErrCalled e))
  | None =>
      match reply with
      | RBulk p => num id (ParseFloat p)
      | _ => otherwise fzero reply
      end
  end.

Definition String (reply : reply) (err : option E) : conv (list Z) :=
  match err with
  | Some e => ([], Some (ErrCalled e))
  | None =>
      match reply with
      | RBulk p => (p, None)
      | RStatus s => (s, None)
      | _ => otherwise [] reply
      end
  end.

(** [None] is the nil slice. *)
Definition Bytes (reply : reply) (err : option E) : conv (option (list Z)) :=
  match err with
  | Some e => (None, Some (ErrCalled e))
  | None =>
      match reply with
      | RBulk p => (Some p, None)
      | RStatus s => (Some s, None)
      | _ => otherwise None reply
      end
  end.

Definition Bool (reply : reply) (err : option E) : conv bool :=
  match err with
  | Some e => (false, Some (ErrCalled e))
  | None =>
      match reply with
      | RInt n => (negb (n =? 0), None)
      | RBulk p => num id (ParseBool p)
      | _ => otherwise false reply
      end
  end.

Definition Values (reply : reply) (err : option E) : conv (option (list Respread.reply)) :=
  match err with
  | Some e => (None, Some (ErrCalled e))
  | None =>
      match reply with
      | RArray l => (Some l, None)
      | _ => otherwise None reply
      end
  end.

(** ** Arrays *)

(** [for i := range reply]: converts each element, and stops with no result at
    the first error. *)
Fixpoint each {A : Type} (f : Respread.reply -> A + conv_err) (l : list Respread.reply) : list A + conv_err :=
  match l with
  | [] => inl []
  | r :: l =>
      match f r with
      | inr e => inr e
      | inl x => match each f l with inl xs => inl (x :: xs) | inr e => inr e end
      end
  end.

Definition array {A : Type} (f : Respread.reply -> A + conv_err) (reply : reply) (err : option E) : conv (option (list A)) :=
  match err with
  | Some e => (None, Some (ErrCalled e))
  | None =>
      match reply with
      | RArray l => match each f l with inl xs => (Some xs, None) | inr e => (None, Some e) end
      | _ => otherwise None reply
      end
  end.

Definition parsed {A : Type} (r : A * option num_err) : A + conv_err :=
  match r with (x, None) => inl x | (_, Some e) => inr (ErrNum e) end.

(** Elements: nil is skipped and leaves the zero value; in the number helpers a
    type without a case leaves it too. *)
Definition bytes_elem (r : reply) : option (list Z) + conv_err :=
  match r with RNil => inl None | RBulk p => inl (Some p) | _ => inr ErrElementType end.
Definition string_elem (r : reply) : list Z + conv_err :=
  match r with RNil => inl [] | RBulk p => inl p | _ => inr ErrElementType end.
Definition float_elem (r : reply) : F + conv_err :=
  match r with RBulk p => parsed (ParseFloat p) | RError s => inr (ErrReply s) | _ => inl fzero end.
Definition int64_elem (r : reply) : Z + conv_err :=
  match r with RInt n => inl n | RBulk p => parsed (ParseInt p 64) | RError s => inr (ErrReply s) | _ => inl 0 end.
Definition uint64_elem (r : reply) : Z + conv_err :=
  match r with
  | RInt n => if n <? 0 then inr errNegativeInt else inl n
  | RBulk p => parsed (ParseUint p 64)
  | RError s => inr (ErrReply s)
  | _ => inl 0
  end.

Definition BytesArray := array bytes_elem.
Definition Strings := array string_elem.
Definition Float64s := array float_elem.
Definition Floats := array float_elem.
Definition Int64s := array int64_elem.
Definition Uint64s := array uint64_elem.

(** [Uint32s] looks at the reply before the error; an error reply in the array
    leaves a zero. *)
Definition uint32_elem (r : reply) : Z + conv_err :=
  match r with
  | RInt n => if n <? 0 then inr errNegativeInt else inl (u32 n)
  | RBulk p => match parsed (ParseUint p 64) with inl n => inl (u32 n) | inr e => inr e end
  | _ => inl 0
  end.

Definition is_nil (r : reply) : bool := match r with RNil => true | _ => false end.

Definition Uint32s (reply : reply) (err : option E) : conv (option (list Z)) :=
  if is_nil reply then (None, Some ErrNil)
  else
    match Values reply err with
    | (_, Some e) => (None, Some e)
    | (l, None) => match each uint32_elem (default [] l) with inl xs => (Some xs, None) | inr e => (None, Some e) end
    end.

(** [Ints] fills the slice through [ScanSlice]: an element that cannot be
    converted ends the scan, and the slice scanned so far is returned with the
    error. *)
Definition int_elem (r : reply) : conv Z :=
  match r with
  | RNil => (0, None)
  | RInt n => (n, None)
  | RBulk p => num id (ParseInt p 64)
  | _ => (0, Some ErrElementType)
  end.

Fixpoint scan_ints (l : list reply) : conv (list Z) :=
  match l with
  | [] => ([], None)
  | r :: l =>
      match int_elem r with
      | (x, Some e) => (x :: replicate (length l) 0, Some e)
      | (x, None) => let (xs, e) := scan_ints l in (x :: xs, e)
      end
  end.

Definition Ints (reply : reply) (err : option E) : conv (list Z) :=
  if is_nil reply then ([], Some ErrNil)
  else
    match Values reply err with
    | (_, Some e) => ([], Some e)
    | (l, None) => scan_ints (default [] l)
    end.

(** ** Maps *)

Section Maps.
Context {K W : Type} `{Countable K} (key : Respread.reply -> K + conv_err) (val : Respread.reply -> W + conv_err).

(** [for i := 0; i < len(values); i += 2] *)
Fixpoint pairs (m : gmap K W) (l : list Respread.reply) : gmap K W + conv_err :=
  match l with
  | k :: v :: l =>
      match key k with
      | inr e => inr e
      | inl k => match val v with inr e => inr e | inl v => pairs (<[k := v]> m) l end
      end
  | _ => inl m
  end.

Definition map_of (reply : reply) (err : option E) : conv (option (gmap K W)) :=
  match Values reply err with
  | (_, Some e) => (None, Some e)
  | (l, None) =>
      let l := default [] l in
      if negb (zlen l mod 2 =? 0) then (None, Some ErrOddLength)
      else match pairs ∅ l with inl m => (Some m, None) | inr e => (None, Some e) end
  end.

End Maps.

Definition of_conv {A : Type} (r : conv A) : A + conv_err := match r with (x, None) => inl x | (_, Some e) => inr e end.
Definition bulk_key (r : reply) : list Z + conv_err := match r with RBulk p => inl p | _ => inr ErrMapKey end.

Definition StringMap := map_of bulk_key bulk_key.
Definition IntMap := map_of bulk_key (fun r => of_conv (Int r None)).
Definition Int64Map := map_of bulk_key (fun r => of_conv (Int64 r None)).
Definition Uint64Uint64Map := map_of (fun r => of_conv (Uint64 r None)) (fun r => of_conv (Uint64 r None)).

(** ** Properties *)

Lemma parse_int64 n : - 2 ^ 63 <= n < 2 ^ 63 -> ParseInt (itoa n) 64 = (n, None).
Proof.
  intros Hn. rewrite ParseInt_itoa by lia. rewrite (proj2 (Z.ltb_ge n _)) by (simpl; lia).
  by rewrite (proj2 (Z.ltb_lt n _)) by (simpl; lia).
Qed.

(** Numbers survive as integer replies and as bulk strings.  A 64-bit
    integer is read back whether the server sends it as an integer or as the
    decimal bulk string a previous command stored, one outside the range of
    [uint64] or [int64] gives [ErrRange]; [Int32] and [UInt32] check the range
    of integer replies only: of a bulk string they return the low 32 bits
    without an error. *)
Theorem numbers_convert (n : Z) (Hn : - 2 ^ 63 <= n < 2 ^ 63) :
  Int64 (RInt n) None = (n, None) /\ Int64 (RBulk (itoa n)) None = (n, None) /\
  Int (RBulk (itoa n)) None = (n, None) /\
  (0 <= n -> Uint64 (RBulk (itoa n)) None = (n, None)) /\
  (n < 0 -> Uint64 (RInt n) None = (0, Some errNegativeInt)) /\
  Int32 (RBulk (itoa n)) None = (i32 n, None) /\ UInt32 (RBulk (itoa n)) None = (u32 n, None) /\
  Int32 (RInt n) None = (if (- 2 ^ 31 <=? n) && (n <? 2 ^ 31) then (n, None) else (0, Some (ErrNum ErrRange))) /\
  Int64 (RBulk (itoa (2 ^ 63 + Z.abs n))) None = (2 ^ 63 - 1, Some (ErrNum ErrRange)).
Proof.
  assert (ParseInt (itoa n) 0 = (n, None)) as H0 by (rewrite <- (parse_int64 n Hn); done).
  split; [done|]. unfold Int64, Int, Int32, UInt32, Uint64. rewrite (parse_int64 n Hn), H0. split; [done|]. split; [done|].
  split.
  { intros Hp. unfold itoa. rewrite (proj2 (Z.ltb_ge n 0)) by lia. rewrite ParseUint_dec by lia.
    by rewrite (proj2 (Z.ltb_lt n _)) by (simpl; lia). }
  split; [intros; by rewrite (proj2 (Z.ltb_lt n 0)) by lia|]. split; [done|]. split; [done|]. split.
  - destruct (Z.leb_spec (- 2 ^ 31) n), (Z.ltb_spec n (2 ^ 31)); cbn [andb];
      [rewrite swrap_small by (simpl; lia); by rewrite Z.eqb_refl|..];
      (rewrite (proj2 (Z.eqb_neq _ _)); [done|]); pose proof (swrap_range 32 n ltac:(lia)); simpl in *; lia.
  - rewrite ParseInt_itoa by lia. rewrite (proj2 (Z.ltb_ge _ _)) by (simpl; lia).
    by rewrite (proj2 (Z.ltb_ge _ _)) by (simpl; lia).
Qed.

(** The reply to HGETALL for a hash: names and values alternate. *)
Definition hash_reply (kvs : list (list Z * list Z)) : reply :=
  RArray (flat_map (fun kv => [RBulk kv.1; RBulk kv.2]) kvs).

Lemma flat_map_fmap {A B C : Type} (g : B -> list C) (f : A -> B) (l : list A) :
  flat_map g (f <$> l) = flat_map (fun x => g (f x)) l.
Proof. induction l as [|x l IH]; [done|]. rewrite fmap_cons. cbn [flat_map]. by rewrite IH. Qed.

Section Pairs.
Context {K W : Type} `{Countable K} (key : reply -> K + conv_err) (val : reply -> W + conv_err).
Context (name value : K * W -> list Z).

Lemma pairs_flat (kvs : list (K * W)) : forall m,
  Forall (fun kv => key (RBulk (name kv)) = inl kv.1 /\ val (RBulk (value kv)) = inl kv.2) kvs ->
  pairs key val m (flat_map (fun kv => [RBulk (name kv); RBulk (value kv)]) kvs) =
    inl (fold_left (fun m kv => <[kv.1 := kv.2]> m) kvs m).
Proof.
  induction kvs as [|kv kvs IH]; intros m Hall; [done|]. apply Forall_cons in Hall as [[Hk Hv] Hall].
  cbn [flat_map app pairs fold_left]. by rewrite Hk, Hv, IH.
Qed.

Lemma fold_insert (kvs : list (K * W)) : forall m, NoDup kvs.*1 ->
  fold_left (fun (m : gmap K W) kv => <[kv.1 := kv.2]> m) kvs m = list_to_map kvs ∪ m.
Proof.
  induction kvs as [|[k v] kvs IH]; intros m Hn; [simpl; by rewrite (left_id_L ∅ (∪))|]. rewrite fmap_cons in Hn.
  apply NoDup_cons in Hn as [Hk Hn]. cbn [fold_left fst snd list_to_map]. rewrite IH by done.
  rewrite <- insert_union_r by (by apply not_elem_of_list_to_map_1). by rewrite insert_union_l.
Qed.

Lemma flat_even (kvs : list (K * W)) :
  zlen (flat_map (fun kv => [RBulk (name kv); RBulk (value kv)]) kvs) mod 2 = 0.
Proof.
  assert (zlen (flat_map (fun kv => [RBulk (name kv); RBulk (value kv)]) kvs) = 2 * zlen kvs) as ->.
  { unfold zlen. induction kvs as [|kv kvs IH]; [done|]. cbn [flat_map app length]. lia. }
  rewrite Z.mul_comm. apply Z.mod_mul. lia.
Qed.

(** Alternating keys and values give the map, whatever the order. *)
Lemma map_of_flat (kvs : list (K * W)) : NoDup kvs.*1 ->
  Forall (fun kv => key (RBulk (name kv)) = inl kv.1 /\ val (RBulk (value kv)) = inl kv.2) kvs ->
  map_of key val (RArray (flat_map (fun kv => [RBulk (name kv); RBulk (value kv)]) kvs)) None = (Some (list_to_map kvs), None).
Proof.
  intros Hn Hall. unfold map_of. cbn [Values default]. unfold id. rewrite flat_even. cbn [negb Z.eqb].
  rewrite pairs_flat by done. rewrite fold_insert by done. by rewrite (right_id_L ∅ (∪)).
Qed.

End Pairs.

(** A hash is read back.  Whatever order the server lists the fields of a
    hash in, [StringMap] of the reply is the hash; with decimal values
    [Int64Map] is the map of the integers, with decimal names too
    [Uint64Uint64Map]. *)
Theorem hashes_convert (m : gmap (list Z) (list Z)) (c : gmap (list Z) Z) (u : gmap Z Z)
    (kvs : list (list Z * list Z)) (cs : list (list Z * Z)) (us : list (Z * Z))
    (Hm : kvs ≡ₚ map_to_list m) (Hc : cs ≡ₚ map_to_list c) (Hu : us ≡ₚ map_to_list u)
    (Hcr : map_Forall (fun _ n => - 2 ^ 63 <= n < 2 ^ 63) c)
    (Hur : map_Forall (fun k n => 0 <= k < 2 ^ 64 /\ 0 <= n < 2 ^ 64) u) :
  StringMap (hash_reply kvs) None = (Some m, None) /\
  Int64Map (hash_reply ((fun kv => (kv.1, itoa kv.2)) <$> cs)) None = (Some c, None) /\
  Uint64Uint64Map (hash_reply ((fun kv => (dec kv.1, dec kv.2)) <$> us)) None = (Some u, None).
Proof.
  assert (forall {K W} `{Countable K} (m : gmap K W) (l : list (K * W)), l ≡ₚ map_to_list m ->
    NoDup l.*1 /\ list_to_map l = m /\ forall kv, kv ∈ l -> m !! kv.1 = Some kv.2) as Hlist.
  { intros K W ? ? m' l Hl. assert (NoDup l.*1) as Hn by (rewrite Hl; apply NoDup_fst_map_to_list). split; [done|].
    split; [symmetry; apply list_to_map_flip; by symmetry|]. intros [k v] Hin. apply elem_of_map_to_list. by rewrite <- Hl. }
  destruct (Hlist _ _ _ _ m kvs Hm) as (Hn1 & <- & _). destruct (Hlist _ _ _ _ c cs Hc) as (Hn2 & Hl2 & Hin2).
  destruct (Hlist _ _ _ _ u us Hu) as (Hn3 & Hl3 & Hin3). unfold hash_reply. split; [|split].
  - apply map_of_flat; [done|]. by apply Forall_true.
  - rewrite flat_map_fmap, <- Hl2.
    apply (map_of_flat _ _ fst (fun kv => itoa kv.2)); [done|]. rewrite Forall_forall. intros kv Hkv. split; [done|].
    unfold Int64. by rewrite (parse_int64 kv.2 (Hcr _ _ (Hin2 _ Hkv))).
  - rewrite flat_map_fmap, <- Hl3.
    apply (map_of_flat _ _ (fun kv => dec kv.1) (fun kv => dec kv.2)); [done|]. rewrite Forall_forall. intros kv Hkv.
    destruct (Hur _ _ (Hin3 _ Hkv)) as [Hk Hv]. unfold Uint64. rewrite !ParseUint_dec by lia.
    by rewrite (proj2 (Z.ltb_lt kv.1 _)), (proj2 (Z.ltb_lt kv.2 _)) by lia.
Qed.

(** The error of a call comes first, except in [Ints] and [Uint32s].  Every
    other helper returns the zero value and the error it was given, whatever the
    reply; those two look at the reply first, and as a failed call has a nil
    reply they report [ErrNil], hiding that the call failed. *)
Theorem call_errors_kept (r : reply) (e : E) :
  let err := Some (ErrCalled e) in
  Int r (Some e) = (0, err) /\ Int32 r (Some e) = (0, err) /\ UInt32 r (Some e) = (0, err) /\ Int64 r (Some e) = (0, err) /\
  Uint64 r (Some e) = (0, err) /\ Float64 r (Some e) = (fzero, err) /\ String r (Some e) = ([], err) /\
  Bytes r (Some e) = (None, err) /\ Bool r (Some e) = (false, err) /\ Values r (Some e) = (None, err) /\
  BytesArray r (Some e) = (None, err) /\ Strings r (Some e) = (None, err) /\ Floats r (Some e) = (None, err) /\
  Int64s r (Some e) = (None, err) /\ Uint64s r (Some e) = (None, err) /\ StringMap r (Some e) = (None, err) /\
  IntMap r (Some e) = (None, err) /\ Int64Map r (Some e) = (None, err) /\ Uint64Uint64Map r (Some e) = (None, err) /\
  Ints RNil (Some e) = ([], Some ErrNil) /\ Uint32s RNil (Some e) = (None, Some ErrNil).
Proof. done. Qed.

(** Arrays are converted element by element.  [Strings] succeeds exactly on
    arrays of bulk strings and nils, with nil as the empty string, and
    otherwise returns nothing; [Int64s] of decimal bulk strings gives the
    integers. *)
Theorem arrays_convert (l : list reply) (ns : list Z) (Hns : Forall (fun n => - 2 ^ 63 <= n < 2 ^ 63) ns) :
  Strings (RArray l) None =
    (if forallb (fun r => match r with RNil | RBulk _ => true | _ => false end) l
     then (Some ((fun r => match r with RBulk p => p | _ => [] end) <$> l), None)
     else (None, Some ErrElementType)) /\
  Int64s (RArray ((fun n => RBulk (itoa n)) <$> ns)) None = (Some ns, None) /\
  Ints (RArray ((fun n => RBulk (itoa n)) <$> ns)) None = (ns, None).
Proof.
  split; [|split].
  - unfold Strings, array. induction l as [|r l IH]; [done|]. cbn [each forallb]. rewrite fmap_cons.
    destruct r; simpl; try done; destruct (forallb _ l), (each string_elem l); congruence.
  - unfold Int64s, array. assert (each int64_elem ((fun n => RBulk (itoa n)) <$> ns) = inl ns) as ->; [|done].
    induction Hns as [|n ns Hn _ IH]; [done|]. rewrite fmap_cons. cbn [each int64_elem].
    rewrite (parse_int64 n Hn). cbn [parsed]. by rewrite IH.
  - change (scan_ints ((fun n => RBulk (itoa n)) <$> ns) = (ns, None)).
    induction Hns as [|n ns Hn _ IH]; [done|]. rewrite fmap_cons.
    cbn [scan_ints int_elem]. rewrite (parse_int64 n Hn). unfold num. cbn [fst snd fmap option_fmap option_map]. by rewrite IH.
Qed.

End Reply.

(** ** Witnesses *)

Lemma numbers_convert_witness :
  let n := -5 in
  Int64 (E := unit) (RInt n) None = (n, None) /\ Int64 (E := unit) (RBulk (itoa n)) None = (n, None) /\
  Int (E := unit) (RBulk (itoa n)) None = (n, None) /\
  (0 <= n -> Uint64 (E := unit) (RBulk (itoa n)) None = (n, None)) /\
  (n < 0 -> Uint64 (E := unit) (RInt n) None = (0, Some errNegativeInt)) /\
  Int32 (E := unit) (RBulk (itoa n)) None = (i32 n, None) /\ UInt32 (E := unit) (RBulk (itoa n)) None = (u32 n, None) /\
  Int32 (E := unit) (RInt n) None =
    (if (- 2 ^ 31 <=? n) && (n <? 2 ^ 31) then (n, None) else (0, Some (ErrNum ErrRange))) /\
  Int64 (E := unit) (RBulk (itoa (2 ^ 63 + Z.abs n))) None = (2 ^ 63 - 1, Some (ErrNum ErrRange)).
Proof. intros n. apply (numbers_convert n). unfold n. lia. Defined.

Lemma hashes_convert_witness :
  StringMap (E := unit) (hash_reply [(str "a", str "1")]) None = (Some {[str "a" := str "1"]}, None) /\
  Int64Map (E := unit) (hash_reply ((fun kv => (kv.1, itoa kv.2)) <$> [(str "b", -2)])) None = (Some {[str "b" := -2]}, None) /\
  Uint64Uint64Map (E := unit) (hash_reply ((fun kv => (dec kv.1, dec kv.2)) <$> [(3, 4)])) None = (Some {[3 := 4]}, None).
Proof.
  apply (hashes_convert {[str "a" := str "1"]} {[str "b" := -2]} {[3 := 4]} [(str "a", str "1")] [(str "b", -2)] [(3, 4)]);
    rewrite ?map_to_list_singleton; try done; apply map_Forall_singleton; lia.
Defined.

Lemma arrays_convert_witness :
  Strings (E := unit) (RArray [RBulk (str "x"); RNil]) None = (Some [str "x"; []], None) /\
  Int64s (E := unit) (RArray ((fun n => RBulk (itoa n)) <$> [7; -8])) None = (Some [7; -8], None) /\
  Ints (E := unit) (RArray ((fun n => RBulk (itoa n)) <$> [7; -8])) None = ([7; -8], None).
Proof. apply (arrays_convert [RBulk (str "x"); RNil] [7; -8]). repeat constructor; lia. Defined.
