(* ===== verification/Packet.v ===== *)
(** * redis/bufio.go: the packet buffer

    A growable buffer with a reader and a writer index, used to build commands
    and to read lines.  The bytes before the writer index are what was
    written. *)

From S2P Require Import Prelude Netio Resp Respread.

Definition packSize : Z := 64.
Definition defaultBufSize : Z := 4096.
Definition minReadBufferSize : Z := 16.

(** [a] is the scratch array for digits; methods work on a copy of it. *)
Record Packet := mkPacket { buf : list Z; a : list Z; r : Z; w : Z }.

Definition NewPacketSize (size : Z) : Packet :=
  mkPacket (zeros (if size <? minReadBufferSize then minReadBufferSize else size)) (zeros 10) 0 0.
Definition NewPacket : Packet := NewPacketSize defaultBufSize.

Definition Reset (b : Packet) : Packet := mkPacket (buf b) (a b) 0 0.

Definition Pos (b : Packet) (x : Z) : Packet :=
  if (0 <=? x) && (x <? w b) then mkPacket (buf b) (a b) x (w b) else b.

Definition grow (b : Packet) (size : Z) : go Packet :=
  let need := size - zlen (buf b) + w b in
  if 0 <? need then
    let need := if need <? packSize then packSize else need in
    let! g := make_bytes (zlen (buf b) + need) in
    let! g := (if 0 <? w b then let! old := slice (buf b) 0 (w b) in copy_to g 0 old else Ret g) in
    Ret (mkPacket g (a b) (r b) (w b))
  else Ret b.

(** ** Writing *)

(** [for n >= 10]: the digits from the back of the scratch array. *)
Fixpoint digit_loop (fuel : nat) (a : list Z) (i n : Z) : go (list Z * Z * Z) :=
  if n <? 10 then Ret (a, i, n)
  else
    match fuel with
    | O => Panic
    | S fuel =>
        let i := i - 1 in
        let q := Z.quot n 10 in
        let! a := zset a i (u8 (n - q * 10 + 48)) in
        digit_loop fuel a i q
    end.

(** The last digit; the loop leaves the array after ten digits. *)
Definition digits (b : Packet) (n : Z) : go (list Z * Z) :=
  let! (a, i, n) := digit_loop 11 (a b) 10 n in
  let i := i - 1 in
  let! a := zset a i (u8 (n + 48)) in
  Ret (a, i).

(** [copy(b.buf[pos:], s)] and the line end after it. *)
Definition put_line (b : Packet) (buf : list Z) (pos : Z) (s : list Z) : go Packet :=
  let! buf := copy_to buf pos s in
  let pos := pos + zlen s in
  let! buf := zset buf pos CR in
  let! buf := zset buf (pos + 1) LF in
  Ret (mkPacket buf (a b) (r b) (pos + 2)).

Definition WriteLen (b : Packet) (prefix n : Z) : go Packet :=
  let pos := w b in
  let! (ds, i) := digits b n in
  let! b := grow b (13 - i) in
  let! buf := zset (buf b) pos prefix in
  let! s := slice ds i 10 in
  put_line b buf (pos + 1) s.

Definition WriteInt64 (b : Packet) (n : Z) : go Packet :=
  let pos := w b in
  let! (ds, i) := digits b n in
  let! b := grow b (12 - i) in
  let! s := slice ds i 10 in
  put_line b (buf b) pos s.

Definition WriteBytes (b : Packet) (s : list Z) : go Packet :=
  let! b := WriteLen b 36 (zlen s) in
  let! b := grow b (zlen s + 2) in
  put_line b (buf b) (w b) s.

Definition WriteString (b : Packet) (s : list Z) : go Packet :=
  let! b := WriteLen b 36 (zlen s) in
  let! b := grow b (zlen s + 2) in
  put_line b (buf b) (w b) s.

(** [false]: nothing to append. *)
Definition Bytes (b : Packet) (bt : list Z) : go (Packet * bool) :=
  if zlen bt =? 0 then Ret (b, false)
  else
    let! b := grow b (zlen bt) in
    let! buf := copy_to (buf b) (w b) bt in
    Ret (mkPacket buf (a b) (r b) (w b + zlen bt), true).

Section Args.
Context {F V : Type} (FormatFloat : F -> list Z) (Fprint : V -> list Z).

Definition WriteFloat64 (b : Packet) (f : F) : go Packet := WriteString b (FormatFloat f).

Definition WriteArg (b : Packet) (x : arg F V) : go Packet :=
  match x with
  | AString s => WriteString b s
  | ABytes p => WriteBytes b p
  | AInt n => WriteInt64 b n
  | AInt64 n => WriteInt64 b n
  | AFloat64 f => WriteFloat64 b f
  | ABool true => WriteString b (str "1")
  | ABool false => WriteString b (str "0")
  | ANil => WriteString b []
  | AOther v => WriteBytes b (Fprint v)
  end.

Definition WriteCmd (b : Packet) (cmd : list Z) (size : Z) : go Packet :=
  let! b := WriteLen b 42 size in
  WriteString b cmd.

Fixpoint write_each (b : Packet) (args : list (arg F V)) : go Packet :=
  match args with
  | [] => Ret b
  | x :: args => let! b := WriteArg b x in write_each b args
  end.

Definition WriteCommond (b : Packet) (cmd : list Z) (args : list (arg F V)) : go Packet :=
  let! b := WriteLen b 42 (1 + zlen args) in
  let! b := WriteString b cmd in
  write_each b args.

End Args.

(** ** Reading and flushing *)

(** Reads the segments of a connection; [b.buf[b.w:]] limits one read. *)
Definition read_once (segs : list (list Z)) (free : Z) : option (list Z * list (list Z)) :=
  match segs with
  | [] => None
  | seg :: segs =>
      if zlen seg <=? free then Some (seg, segs)
      else Some (take (Z.to_nat free) seg, drop (Z.to_nat free) seg :: segs)
  end.

(** [n] bytes wanted, [need] of them missing: [b.buf[b.w:]] is filled with at
    least that many. *)
Definition ensure (b : Packet) (segs : list (list Z)) (need : Z) : go (Packet * list (list Z) * option io_err) :=
  if 0 <? need then
    let! win := slice (buf b) (w b) (zlen (buf b)) in
    let '(data, segs, err) := ReadAtLeast segs (zlen win) need in
    let! buf := copy_to (buf b) (w b) data in
    Ret (mkPacket buf (a b) (r b) (w b + zlen data), segs, err)
  else Ret (b, segs, None).

(** [n] is the length of the destination. *)
Definition ReadBytes (b : Packet) (segs : list (list Z)) (n : Z) (ismove : bool)
    : go (Packet * list (list Z) * (list Z + io_err)) :=
  let! (b, segs, err) := ensure b segs (n - (w b - r b)) in
  match err with
  | Some e => Ret (b, segs, inr e)
  | None =>
      let! bt := slice (buf b) (r b) (r b + n) in
      Ret (if ismove then mkPacket (buf b) (a b) (r b + n) (w b) else b, segs, inl bt)
  end.

Definition ReadByte (b : Packet) (segs : list (list Z)) : go (Packet * list (list Z) * (Z + io_err)) :=
  let! (b, segs, err) := ensure b segs (if w b - r b <? 1 then 1 else 0) in
  match err with
  | Some e => Ret (b, segs, inr e)
  | None =>
      let! c := zget (buf b) (r b) in
      Ret (mkPacket (buf b) (a b) (r b + 1) (w b), segs, inl c)
  end.

(** [outcomes] are what the writer takes of each piece and whether it fails;
    the pieces sent are concatenated. *)
Fixpoint flush_loop (outcomes : list (Z * bool)) (p : list Z) : list Z * bool :=
  match outcomes with
  | [] => ([], true)
  | (nn, err) :: outcomes =>
      if (nn <? zlen p) && negb err then
        let (sent, e) := flush_loop outcomes (drop (Z.to_nat nn) p) in (take (Z.to_nat nn) p ++ sent, e)
      else (take (Z.to_nat nn) p, err)
  end.

(** What was sent, and the error. *)
Definition Flush (b : Packet) (outcomes : list (Z * bool)) : Packet * list Z * bool :=
  if w b =? 0 then (b, [], false)
  else let (sent, err) := flush_loop outcomes (sub (buf b) 0 (w b)) in (Reset b, sent, err).

(** [ReadLine]'s result: the line, or why there is none. *)
Inductive line_err : Type := LineRead | LineEnd.

Fixpoint ReadLine (fuel : nat) (b : Packet) (segs : list (list Z))
    : go (option (Packet * list (list Z) * (list Z + line_err))) :=
  match fuel with
  | O => Ret None
  | S fuel =>
      let! win := slice (buf b) (r b) (w b) in
      match split_lf win with
      | Some (line, _) =>
          let r' := r b + zlen line in
          let b := if r' =? w b then mkPacket (buf b) (a b) 0 0 else mkPacket (buf b) (a b) r' (w b) in
          let n := zlen line - 2 in
          if (n <? 0) || negb (nth (Z.to_nat n) line 0 =? CR) then Ret (Some (b, segs, inr LineEnd))
          else Ret (Some (b, segs, inl (take (Z.to_nat n) line)))
      | None =>
          let! b := (if zlen (buf b) - w b <? 4096 then grow b 4096 else Ret b) in
          match read_once segs (zlen (buf b) - w b) with
          | None => Ret (Some (b, [], inr LineRead))
          | Some (data, segs) =>
              let! buf := copy_to (buf b) (w b) data in
              ReadLine fuel (mkPacket buf (a b) (r b) (w b + zlen data)) segs
          end
      end
  end.

(** ** Invariant *)

Record wf (b : Packet) : Prop := mkWf {
  wf_a : zlen (a b) = 10;
  wf_r : 0 <= r b <= w b;
  wf_w : w b <= zlen (buf b)
}.

(** What was written so far. *)
Definition written (b : Packet) : list Z := sub (buf b) 0 (w b).

(** [b'] is [b] with [s] appended. *)
Definition appended (b : Packet) (s : list Z) (res : go Packet) : Prop :=
  exists b', res = Ret b' /\ wf b' /\ written b' = written b ++ s /\ r b' = r b.

Lemma new_wf size : wf (NewPacketSize size) /\ written (NewPacketSize size) = [].
Proof.
  unfold NewPacketSize, minReadBufferSize. split; [|done]. split; simpl; [done|lia|].
  rewrite zlen_zeros; case_test; lia.
Qed.

Lemma grow_spec b size : wf b -> 0 <= size ->
  exists b', grow b size = Ret b' /\ wf b' /\ written b' = written b /\ r b' = r b /\ w b' = w b /\
    w b + size <= zlen (buf b') /\ a b' = a b.
Proof.
  intros [Ha Hr Hw] Hs. unfold grow, packSize. destruct (Z.ltb_spec 0 (size - zlen (buf b) + w b)); [|exists b; split_and!; try done; lia].
  set (need := if _ <? 64 then _ else _).
  assert (size - zlen (buf b) + w b <= need) by (unfold need; case_test; lia).
  pose proof (zlen_nonneg (buf b)). unfold make_bytes. rewrite decide_True by lia. cbn [go_bind].
  assert (zlen (zeros (zlen (buf b) + need)) = zlen (buf b) + need) as Hz by (apply zlen_zeros; lia).
  destruct (Z.ltb_spec 0 (w b)).
  - rewrite slice_ok by lia. cbn [go_bind]. assert (zlen (sub (buf b) 0 (w b)) = w b) as Hl by (rewrite zlen_sub; lia).
    rewrite copy_to_ok by lia. cbn [go_bind]. eexists. split; [done|].
    split; [split; simpl; rewrite ?zlen_overwrite; try done; lia|]. split; [|simpl; rewrite zlen_overwrite; split_and!; lia || done].
    unfold written. simpl. replace (w b) with (0 + zlen (sub (buf b) 0 (w b))) at 2 by lia.
    rewrite (sub_overwrite_app _ 0 0) by lia. done.
  - cbn [go_bind]. eexists. split; [done|]. split; [split; simpl; try done; lia|]. split; [|simpl; split_and!; lia || done].
    unfold written. simpl. by replace (w b) with 0 by lia.
Qed.

Lemma put_line_spec b buf pos s c : zlen (a b) = 10 -> 0 <= r b <= pos -> sub buf 0 pos = c -> pos + zlen s + 2 <= zlen buf ->
  exists b', put_line b buf pos s = Ret b' /\ wf b' /\ written b' = c ++ s ++ [CR; LF] /\ r b' = r b.
Proof.
  intros Ha Hr Hc Hlen. pose proof (zlen_nonneg s). unfold put_line. rewrite copy_to_ok by lia. cbn [go_bind].
  set (b1 := overwrite buf (Z.to_nat pos) s). assert (zlen b1 = zlen buf) as Hl1 by (unfold b1; rewrite zlen_overwrite; lia).
  rewrite zset_ok by lia. cbn [go_bind]. rewrite zset_ok by (rewrite zlen_insert; lia). cbn [go_bind].
  eexists. split; [done|]. split; [split; simpl; rewrite ?zlen_insert; lia|]. split; [|done]. unfold written. simpl.
  replace (pos + zlen s + 2) with (pos + zlen s + 1 + 1) by lia. rewrite sub_insert_app by (rewrite ?zlen_insert; lia).
  rewrite sub_insert_app by lia. unfold b1. rewrite sub_overwrite_app by lia. by rewrite Hc, <- !app_assoc.
Qed.

(** ** Digits *)

Lemma digit_loop_spec fuel : forall ds i n tail, zlen ds = 10 -> 0 <= n -> sub ds i 10 = tail -> i <= 10 ->
  zlen (dec n) <= i -> (length (dec n) <= S fuel)%nat ->
  exists ds' i' n', digit_loop fuel ds i n = Ret (ds', i', n') /\ zlen ds' = 10 /\ 0 <= n' < 10 /\ 1 <= i' <= 10 /\
    (48 + n') :: sub ds' i' 10 = dec n ++ tail.
Proof.
  induction fuel as [|fuel IH]; intros ds i n tail Hl Hn Htail Hi Hd Hf; rewrite (dec_step n Hn) in *;
    rewrite zlen_app, ?length_app in *; change (zlen [_]) with 1 in *; cbn [length] in Hf;
    set (hd := if n / 10 =? 0 then [] else dec (n / 10)) in *; pose proof (zlen_nonneg hd); cbn [digit_loop].
  - assert (hd = []) as Hh by (destruct hd; [done|simpl in Hf; lia]).
    assert (n / 10 = 0).
    { unfold hd in Hh. destruct (Z.eqb_spec (n / 10) 0); [done|]. destruct (dec_spec (n / 10)) as (_ & _ & Hne); [|done].
      apply Z.div_pos; lia. }
    pose proof (Z.div_mod n 10 ltac:(lia)). pose proof (Z.mod_pos_bound n 10 ltac:(lia)).
    rewrite (proj2 (Z.ltb_lt n 10)) by lia. exists ds, i, n. split_and!; try done; try lia.
    rewrite Hh, Htail. simpl. do 2 f_equal. lia.
  - destruct (Z.ltb_spec n 10).
    + exists ds, i, n. split_and!; try done; try lia. assert (n / 10 = 0) as Hz by (apply Z.div_small; lia).
      unfold hd. rewrite Hz, Htail. simpl. by rewrite Z.mod_small by lia.
    + rewrite Z.quot_div_nonneg by lia. assert (0 < n / 10) by (apply Z.div_str_pos; lia).
      assert (hd = dec (n / 10)) as Hh by (unfold hd; rewrite (proj2 (Z.eqb_neq _ _)) by lia; done).
      destruct (dec_spec (n / 10) ltac:(lia)) as (_ & _ & Hne).
      assert (1 <= zlen hd) by (rewrite Hh; destruct (dec (n / 10)); [done|rewrite zlen_cons; pose proof (zlen_nonneg l); lia]).
      rewrite zset_ok by lia. cbn [go_bind]. pose proof (Z.mod_pos_bound n 10 ltac:(lia)).
      replace (n - n / 10 * 10 + 48) with (48 + n mod 10) by (rewrite Z.mod_eq by lia; lia). rewrite wrap_small by lia.
      destruct (IH (<[Z.to_nat (i - 1) := 48 + n mod 10]> ds) (i - 1) (n / 10) ([48 + n mod 10] ++ tail))
        as (ds' & i' & n' & -> & H'); rewrite ?zlen_insert, <- ?Hh; try lia.
      { pose proof (sub_insert_at ds (i - 1) (48 + n mod 10)) as Hs. rewrite Hl in Hs. rewrite Hs by lia.
        replace (i - 1 + 1) with i by lia. by rewrite Htail. }
      exists ds', i', n'. split; [done|]. rewrite Hh, <- app_assoc. exact H'.
Qed.

Lemma digits_spec b n : wf b -> 0 <= n < 10 ^ 10 ->
  exists ds i, digits b n = Ret (ds, i) /\ zlen ds = 10 /\ sub ds i 10 = dec n /\ i = 10 - zlen (dec n) /\ 0 <= i < 10.
Proof.
  intros [Ha _ _] Hn. assert (length (dec n) <= 10)%nat as Hd by (apply dec_length; simpl; lia).
  unfold digits. destruct (digit_loop_spec 11 (a b) 10 n []) as (ds & i & n' & -> & Hl & Hn' & Hi & Hs); try done; try lia.
  { unfold zlen. lia. }
  cbn [go_bind]. rewrite zset_ok by lia. cbn [go_bind]. rewrite wrap_small by lia. eexists _, _. split; [done|].
  rewrite zlen_insert. split; [done|]. pose proof (sub_insert_at ds (i - 1) (n' + 48)) as Hs'. rewrite Hl in Hs'.
  rewrite Hs' by lia. replace (i - 1 + 1) with i by lia. rewrite app_nil_r in Hs. split; [by rewrite <- Hs, Z.add_comm|].
  split; [|lia]. rewrite <- Hs, zlen_cons, zlen_sub by lia. lia.
Qed.

Lemma WriteLen_spec b prefix n : wf b -> 0 <= n < 10 ^ 10 -> appended b (header prefix n) (WriteLen b prefix n).
Proof.
  intros Hwf Hn. unfold appended, WriteLen. destruct (digits_spec b n Hwf Hn) as (ds & i & -> & Hl & Hs & Hi & Hr).
  cbn [go_bind]. destruct (grow_spec b (13 - i) Hwf ltac:(lia)) as (b1 & -> & [Ha1 Hr1 Hw1] & Hwr & Hr' & Hw' & Hroom & _).
  cbn [go_bind]. rewrite zset_ok by lia. cbn [go_bind]. rewrite slice_ok by lia. cbn [go_bind]. rewrite Hs.
  destruct (put_line_spec b1 (<[Z.to_nat (w b) := prefix]> (buf b1)) (w b + 1) (dec n) (written b ++ [prefix]))
    as (b' & -> & Hwf' & Hc & Hr2); [done|lia| |rewrite zlen_insert; lia|].
  - rewrite sub_insert_app by lia. unfold written in *. by rewrite <- Hw' at 1; rewrite Hwr.
  - exists b'. split; [done|]. split; [done|]. split; [|lia]. rewrite Hc. unfold header. by rewrite <- app_assoc.
Qed.

Lemma WriteString_spec b s : wf b -> zlen s < 10 ^ 10 -> appended b (bulk s) (WriteString b s).
Proof.
  intros Hwf Hs. pose proof (zlen_nonneg s). unfold WriteString.
  destruct (WriteLen_spec b 36 (zlen s) Hwf ltac:(lia)) as (b1 & -> & Hwf1 & Hw1 & Hr1). cbn [go_bind].
  destruct (grow_spec b1 (zlen s + 2) Hwf1 ltac:(lia)) as (b2 & -> & [Ha2 Hr2 Hw2] & Hwr2 & Hr2' & Hw2' & Hroom & _). cbn [go_bind].
  destruct (put_line_spec b2 (buf b2) (w b2) s (written b2)) as (b3 & -> & Hwf3 & Hc & Hr3); try done; try lia.
  exists b3. split; [done|]. split; [done|]. split; [|lia]. rewrite Hc, Hwr2, Hw1. unfold bulk. by rewrite <- !app_assoc.
Qed.

(** Integers are written as a line without the length in front. *)
Lemma WriteInt64_spec b n : wf b -> 0 <= n < 10 ^ 10 -> appended b (dec n ++ [CR; LF]) (WriteInt64 b n).
Proof.
  intros Hwf Hn. unfold appended, WriteInt64. destruct (digits_spec b n Hwf Hn) as (ds & i & -> & Hl & Hs & Hi & Hr).
  cbn [go_bind]. destruct (grow_spec b (12 - i) Hwf ltac:(lia)) as (b1 & -> & [Ha1 Hr1 Hw1] & Hwr & Hr' & Hw' & Hroom & _).
  cbn [go_bind]. rewrite slice_ok by lia. cbn [go_bind]. rewrite Hs.
  destruct (put_line_spec b1 (buf b1) (w b) (dec n) (written b)) as (b' & -> & Hwf' & Hc & Hr2); [done|lia| |lia|].
  - unfold written in *. by rewrite <- Hw' at 1.
  - exists b'. split; [done|]. split; [done|]. split; [done|lia].
Qed.

Lemma appended_bind b s1 s2 res k : appended b s1 res ->
  (forall b1, wf b1 -> appended b1 s2 (k b1)) -> appended b (s1 ++ s2) (go_bind res k).
Proof.
  intros (b1 & -> & Hwf & Hw & Hr) Hk. destruct (Hk b1 Hwf) as (b2 & E & Hwf2 & Hw2 & Hr2). cbn [go_bind].
  exists b2. split; [done|]. split; [done|]. split; [by rewrite Hw2, Hw, app_assoc|lia].
Qed.

Section Commands.
Context {F V : Type} (FormatFloat : F -> list Z) (Fprint : V -> list Z).

Definition not_int (x : arg F V) : bool := match x with AInt _ | AInt64 _ => false | _ => true end.

Lemma WriteArg_spec b x : wf b -> not_int x = true -> zlen (arg_bytes FormatFloat Fprint x) < 10 ^ 10 ->
  appended b (bulk (arg_bytes FormatFloat Fprint x)) (WriteArg FormatFloat Fprint b x).
Proof. intros Hwf Hi Hs. destruct x as [s|p|n|n|f|[]| |v]; try done; by apply WriteString_spec. Qed.

Lemma write_each_spec args : forall b, wf b -> forallb not_int args = true ->
  Forall (fun x => zlen (arg_bytes FormatFloat Fprint x) < 10 ^ 10) args ->
  appended b (concat (bulk <$> (arg_bytes FormatFloat Fprint <$> args))) (write_each FormatFloat Fprint b args).
Proof.
  induction args as [|x args IH]; intros b Hwf Hi Hs; cbn [write_each].
  - exists b. split_and!; try done. simpl. by rewrite app_nil_r.
  - cbn [forallb] in Hi. apply andb_true_iff in Hi as [Hx Hi]. apply Forall_cons in Hs as [Hsx Hs].
    rewrite !fmap_cons. cbn [concat]. apply appended_bind; [by apply WriteArg_spec|]. intros. by apply IH.
Qed.

(** A packet holds the commands written to it.  [WriteCommond] of a command
    whose arguments are strings, byte slices, floats, booleans, nil or printable
    values appends exactly its RESP encoding, growing the buffer as needed
    without losing or moving what was written, and never panics. *)
Theorem packet_command_wire (b : Packet) (cmd : list Z) (args : list (arg F V)) (Hwf : wf b)
    (Hi : forallb not_int args = true) (Hc : zlen cmd < 10 ^ 10) (Hn : 1 + zlen args < 10 ^ 10)
    (Hs : Forall (fun x => zlen (arg_bytes FormatFloat Fprint x) < 10 ^ 10) args) :
  appended b (encode_command (cmd :: (arg_bytes FormatFloat Fprint <$> args))) (WriteCommond FormatFloat Fprint b cmd args).
Proof.
  pose proof (zlen_nonneg args). unfold WriteCommond, encode_command. rewrite fmap_cons, zlen_cons.
  assert (zlen (arg_bytes FormatFloat Fprint <$> args) = zlen args) as -> by (unfold zlen; by rewrite length_fmap).
  apply appended_bind; [apply WriteLen_spec; [done|lia]|]. intros b1 Hwf1. cbn [concat].
  apply appended_bind; [by apply WriteString_spec|]. intros b2 Hwf2. by apply write_each_spec.
Qed.

(** An integer argument breaks the command.  [WriteArg] writes an integer as
    a bare line, without the bulk-string header of its length, so the reader
    of the command takes it for a reply of unknown type and gives up. *)
Theorem packet_int_malformed (b : Packet) (cmd : list Z) (n : Z) (Hwf : wf b) (Hc : zlen cmd < 10 ^ 10)
    (Hn : 0 <= n < 10 ^ 10) :
  let wire := header 42 2 ++ bulk cmd ++ dec n ++ [CR; LF] in
  appended b wire (WriteCommond FormatFloat Fprint b cmd [AInt64 n]) /\
  readReply (S (length wire)) wire = Some ([], RNil, Some EUnexpectedLine).
Proof.
  intros wire. split.
  - unfold WriteCommond, wire. apply appended_bind; [apply WriteLen_spec; [done|]; change (1 + zlen [_]) with 2; lia|].
    intros b1 Hwf1. apply appended_bind; [by apply WriteString_spec|]. intros b2 Hwf2. cbn [write_each WriteArg].
    rewrite <- (app_nil_r (dec n ++ [CR; LF])). apply appended_bind; [by apply WriteInt64_spec|].
    intros b3 Hwf3. exists b3. rewrite app_nil_r. done.
  - assert (length (dec n) <= 10)%nat as Hd by (apply dec_length; simpl; lia).
    destruct (header_line 42 2) as [H1 H2]; [done|unfold maxAlloc; lia|].
    assert (sendable (RBulk cmd)) as Hsend by (simpl; unfold maxAlloc; lia).
    destruct (dec_spec n ltac:(lia)) as (_ & Hdig & _). destruct (dec_head n ltac:(lia)) as (d & ds & E & Hdd).
    assert (length (bulk cmd) + 6 <= length wire)%nat as Hlen.
    { unfold wire. rewrite !length_app, E. unfold header. cbn [length]. rewrite length_app. change (dec 2) with [50]. cbn [length]. lia. }
    revert Hlen. generalize (length wire). intros [|[|f]] Hlen; [lia..|].
    unfold wire. change (header 42 2) with ((42 :: dec 2) ++ [CR; LF]).
    rewrite readReply_line by done. cbn [Z.eqb Pos.eqb]. unfold read_array.
    change (parseLen (dec 2)) with (2, @None read_err). cbn [Z.ltb Z.compare negb make_ok Z.mul Pos.mul].
    cbn [read_elems Z.leb Z.compare]. change (bulk cmd) with (encode (RBulk cmd)).
    rewrite (readReply_encoded (RBulk cmd)) by (done || (cbn [encode]; lia)).
    change (2 - 1) with 1. cbn [Z.leb Z.compare]. rewrite <- (app_nil_r (dec n ++ [CR; LF])).
    rewrite readReply_line; [| |unfold rbuf_size; lia].
    + rewrite E. rewrite !(proj2 (Z.eqb_neq d _)) by lia. done.
    + intros Hin. rewrite Forall_forall in Hdig. specialize (Hdig _ Hin). unfold LF in Hdig. lia.
Qed.

End Commands.

Lemma packet_command_wire_witness :
  appended (NewPacketSize 16) (encode_command [str "SET"; str "k"; str "1"])
    (WriteCommond (fun _ : unit => []) (fun _ : unit => []) (NewPacketSize 16) (str "SET") [AString (str "k"); ABool true]).
Proof.
  apply (packet_command_wire (fun _ : unit => []) (fun _ : unit => []) (NewPacketSize 16) (str "SET")
           [AString (str "k"); ABool true]).
  - apply new_wf.
  - reflexivity.
  - vm_compute. reflexivity.
  - vm_compute. reflexivity.
  - repeat constructor; vm_compute; reflexivity.
Defined.

Lemma packet_int_malformed_witness :
  let wire := header 42 2 ++ bulk (str "INCR") ++ dec 7 ++ [CR; LF] in
  appended (NewPacketSize 16) wire
    (WriteCommond (fun _ : unit => []) (fun _ : unit => []) (NewPacketSize 16) (str "INCR") [AInt64 7]) /\
  readReply (S (length wire)) wire = Some ([], RNil, Some EUnexpectedLine).
Proof.
  apply (packet_int_malformed (fun _ : unit => []) (fun _ : unit => []) (NewPacketSize 16) (str "INCR") 7).
  - apply new_wf.
  - vm_compute. reflexivity.
  - lia.
Defined.

(** ** Lines *)

(** What is buffered and not read yet. *)
Definition buffered (b : Packet) : list Z := sub (buf b) (r b) (w b).

Lemma grow_buffered b size : wf b -> 0 <= size -> forall b', grow b size = Ret b' -> buffered b' = buffered b.
Proof.
  intros Hwf Hs b' E. destruct (grow_spec b size Hwf Hs) as (b1 & E1 & [_ Hr1 Hw1] & Hw & Hr & Hww & _).
  rewrite E in E1. injection E1 as <-. destruct Hwf as [_ Hr0 Hw0]. unfold buffered, written in *. rewrite Hr, Hww in *.
  rewrite (sub_app (buf b') 0 (r b)), (sub_app (buf b) 0 (r b)) in Hw by lia.
  apply app_inj_1 in Hw as [_ Hw]; [done|]. apply Nat2Z.inj. change (zlen (sub (buf b') 0 (r b)) = zlen (sub (buf b) 0 (r b))).
  rewrite !zlen_sub by lia. lia.
Qed.

Lemma split_lf_none l : split_lf l = None -> LF ∉ l.
Proof.
  induction l as [|x l IH]; simpl; [by intros _ ?%elem_of_nil|]. case_test; [done|].
  destruct (split_lf l) as [[p q]|]; [done|]. intros _. apply not_elem_of_cons. split; [congruence|by apply IH].
Qed.

Lemma read_once_spec segs free : 0 <= free ->
  match read_once segs free with
  | None => segs = []
  | Some (data, segs') => data ++ concat segs' = concat segs /\ zlen data <= free /\
      ((length segs' + length (concat segs') < length segs + length (concat segs))%nat \/ free = 0)
  end.
Proof.
  intros Hf. destruct segs as [|seg segs]; [done|]. simpl. case_test.
  - split; [done|]. split; [done|]. left. rewrite length_app. lia.
  - cbn [concat length]. rewrite app_assoc, take_drop. split; [done|]. split; [rewrite zlen_take; lia|].
    rewrite !length_app, length_drop. unfold zlen in *. destruct (decide (free = 0)); [by right|left; lia].
Qed.

(** One line is available. *)
Lemma ReadLine_have b segs line rest fuel : wf b -> (LF ∉ line) -> buffered b ++ concat segs = line ++ [CR; LF] ++ rest ->
  LF ∈ buffered b ->
  exists b', ReadLine (S fuel) b segs = Ret (Some (b', segs, inl line)) /\ wf b' /\ buffered b' ++ concat segs = rest.
Proof.
  intros [Ha Hr Hw] Hlf Hs Hin. cbn [ReadLine]. rewrite slice_ok by lia. cbn [go_bind]. fold (buffered b).
  assert (exists tail, buffered b = line ++ [CR; LF] ++ tail) as [tail Ht].
  { destruct (decide (length line + 2 <= length (buffered b))%nat) as [Hle|Hgt].
    - exists (take (length (buffered b) - (length line + 2)) rest).
      apply (f_equal (take (length (buffered b)))) in Hs. rewrite take_app_length in Hs. rewrite Hs at 1.
      rewrite app_assoc, take_app_ge by (rewrite length_app; simpl; lia). rewrite <- app_assoc, length_app. done.
    - exfalso. apply (f_equal (take (length (buffered b)))) in Hs. rewrite take_app_length in Hs.
      replace (line ++ [CR; LF] ++ rest) with ((line ++ [CR]) ++ [LF] ++ rest) in Hs by (by rewrite <- app_assoc).
      rewrite take_app_le in Hs by (rewrite length_app; simpl; lia). rewrite Hs in Hin.
      apply elem_of_take in Hin as (k & Hk & _). apply list_elem_of_lookup_2 in Hk.
      apply elem_of_app in Hk as [Hk|Hk]; [done|]. by apply list_elem_of_singleton in Hk. }
  assert (split_lf (buffered b) = Some (line ++ [CR; LF], tail)) as ->.
  { rewrite Ht. replace (line ++ [CR; LF] ++ tail) with ((line ++ [CR]) ++ LF :: tail) by (by rewrite <- app_assoc).
    rewrite split_lf_line; [by rewrite <- app_assoc|]. rewrite elem_of_app, list_elem_of_singleton. intros [?|?]; done. }
  assert (zlen (line ++ [CR; LF]) = zlen line + 2) as Hl by (rewrite zlen_app; done). rewrite Hl.
  replace (zlen line + 2 - 2) with (zlen line) by lia. rewrite (proj2 (Z.ltb_ge _ _) (zlen_nonneg line)).
  assert (Z.to_nat (zlen line) = length line) as -> by (unfold zlen; lia). rewrite app_nth2, Nat.sub_diag, take_app_length by lia. cbn [nth orb negb Z.eqb CR Pos.eqb].
  assert (zlen (buffered b) = w b - r b) as Hlb by (unfold buffered; apply zlen_sub; lia).
  rewrite Ht in Hlb. rewrite !zlen_app in Hlb. change (zlen [CR; LF]) with 2 in Hlb. pose proof (zlen_nonneg tail).
  assert (tail ++ concat segs = rest) as Hrest.
  { rewrite Ht, <- !app_assoc in Hs. apply app_inv_head in Hs. by apply app_inv_head in Hs. }
  pose proof (zlen_nonneg line). eexists. split; [done|].
  destruct (Z.eqb_spec (r b + (zlen line + 2)) (w b)) as [E|E].
  - split; [split; simpl; lia|]. assert (tail = []) as -> by (destruct tail; [done|rewrite zlen_cons in Hlb; pose proof (zlen_nonneg tail); lia]).
    done.
  - split; [split; simpl; lia|]. rewrite <- Hrest. f_equal. unfold buffered. simpl.
    replace (sub (buf b) (r b + (zlen line + 2)) (w b)) with (drop (Z.to_nat (zlen line + 2)) (buffered b)).
    + rewrite Ht, app_assoc, <- Hl. apply drop_app_zlen.
    + unfold buffered. apply drop_sub; lia.
Qed.

Lemma ReadLine_spec fuel : forall b segs line rest, wf b -> (LF ∉ line) ->
  buffered b ++ concat segs = line ++ [CR; LF] ++ rest -> (length segs + length (concat segs) < fuel)%nat ->
  exists b' segs', ReadLine fuel b segs = Ret (Some (b', segs', inl line)) /\ wf b' /\ buffered b' ++ concat segs' = rest.
Proof.
  induction fuel as [|fuel IH]; intros b segs line rest Hwf Hlf Hs Hf; [lia|].
  destruct (decide (LF ∈ buffered b)) as [Hin|Hni].
  { destruct (ReadLine_have b segs line rest fuel Hwf Hlf Hs Hin) as (b' & H). by exists b', segs. }
  pose proof Hwf as [Ha Hr Hw]. cbn [ReadLine]. rewrite slice_ok by lia. cbn [go_bind]. fold (buffered b).
  destruct (split_lf (buffered b)) as [[p q]|] eqn:Es.
  { exfalso. apply Hni. clear -Es. revert p q Es. induction (buffered b) as [|x l IH]; intros p q; simpl; [done|].
    case_test; [subst; left|]. destruct (split_lf l) as [[p' q']|]; [|done]. right. by eapply IH. }
  assert (exists b1, (if zlen (buf b) - w b <? 4096 then grow b 4096 else Ret b) = Ret b1 /\ wf b1 /\ buffered b1 = buffered b /\
    4096 <= zlen (buf b1) - w b1) as (b1 & -> & Hwf1 & Hb1 & Hroom).
  { case_test; [|exists b; split_and!; try done; lia].
    destruct (grow_spec b 4096 Hwf ltac:(lia)) as (b1 & E & Hwf1 & _ & _ & Hw1 & Hroom & _). exists b1. split; [done|].
    split; [done|]. split; [by apply (grow_buffered b 4096)|lia]. }
  cbn [go_bind]. pose proof (read_once_spec segs (zlen (buf b1) - w b1) ltac:(lia)) as Hread.
  destruct (read_once segs (zlen (buf b1) - w b1)) as [[data segs']|].
  - destruct Hread as (Hcat & Hlen & Hdec). destruct Hwf1 as [Ha1 Hr1 Hw1]. rewrite copy_to_ok by lia. cbn [go_bind].
    pose proof (zlen_nonneg data).
    apply IH; try done; [split; simpl; rewrite ?zlen_overwrite; try done; lia| |destruct Hdec; [|lia]; lia].
    unfold buffered in *. simpl. rewrite sub_overwrite_app by lia. by rewrite Hb1, <- app_assoc, Hcat.
  - subst segs. exfalso. apply Hni. rewrite app_nil_r in Hs. rewrite Hs, !elem_of_app. right. left. right. left.
Qed.

Lemma ensure_spec b segs need : wf b -> need <= zlen (buf b) - w b ->
  exists b' segs' err, ensure b segs need = Ret (b', segs', err) /\ wf b' /\ r b' = r b /\
    buffered b' ++ concat segs' = buffered b ++ concat segs /\
    match err with None => zlen (buffered b) + need <= zlen (buffered b') | Some _ => segs' = [] end.
Proof.
  intros Hwf Hneed. pose proof Hwf as [Ha Hr Hw]. unfold ensure.
  destruct (Z.ltb_spec 0 need); [|exists b, segs, None; split_and!; try done; lia].
  rewrite slice_ok by lia. cbn [go_bind]. rewrite zlen_sub by lia. unfold ReadAtLeast.
  rewrite (proj2 (Z.ltb_ge _ _)) by lia. destruct (read_loop segs _ need []) as [[data segs'] err] eqn:Hrd.
  apply read_loop_spec in Hrd as (Hstream & Hcap & Herr); [|lia|rewrite zlen_nil; lia]. pose proof (zlen_nonneg data).
  rewrite copy_to_ok by lia. cbn [go_bind]. eexists _, _, _. split; [done|].
  assert (sub (overwrite (buf b) (Z.to_nat (w b)) data) (r b) (w b + zlen data) = buffered b ++ data) as Hsub
    by (by rewrite sub_overwrite_app by lia).
  split; [split; simpl; rewrite ?zlen_overwrite; try done; lia|]. split; [done|]. unfold buffered in *. simpl. rewrite Hsub.
  split; [by rewrite <- app_assoc, Hstream|]. destruct err; [by destruct Herr|]. rewrite zlen_app. lia.
Qed.

(** [ReadBytes] with room for the bytes takes the next [n] of the stream, or
    ends with the stream. *)
Lemma ReadBytes_spec b segs n : wf b -> 0 <= n -> n - (w b - r b) <= zlen (buf b) - w b ->
  exists b' segs' res, ReadBytes b segs n true = Ret (b', segs', res) /\ wf b' /\
    match res with
    | inl bt => zlen bt = n /\ bt ++ buffered b' ++ concat segs' = buffered b ++ concat segs
    | inr _ => segs' = [] /\ buffered b' = buffered b ++ concat segs
    end.
Proof.
  intros Hwf Hn Hroom. unfold ReadBytes. pose proof (wf_r _ Hwf). pose proof (wf_w _ Hwf).
  assert (zlen (buffered b) = w b - r b) as Hlb by (unfold buffered; apply zlen_sub; lia).
  destruct (ensure_spec b segs (n - (w b - r b)) Hwf Hroom) as (b1 & segs1 & err & -> & Hwf1 & Hr1 & Hs & He). cbn [go_bind].
  destruct err as [e|].
  - subst segs1. rewrite app_nil_r in Hs. by exists b1, [], (inr e).
  - destruct Hwf1 as [Ha1 Hr1' Hw1].
    assert (zlen (buffered b1) = w b1 - r b1) as Hlb1 by (unfold buffered; apply zlen_sub; lia).
    rewrite slice_ok by lia. cbn [go_bind]. eexists _, _, _. split; [done|]. split; [split; simpl; lia|].
    split; [rewrite zlen_sub; lia|]. rewrite <- Hs, app_assoc. f_equal. unfold buffered. simpl. by rewrite <- sub_app by lia.
Qed.

(** A writer that makes progress gets everything. *)
Lemma flush_loop_all outcomes : forall p sent, flush_loop outcomes p = (sent, false) ->
  Forall (fun o => 0 <= o.1) outcomes -> sent = p.
Proof.
  induction outcomes as [|[nn err] outcomes IH]; intros p sent; simpl; [done|]. intros E Hall.
  apply Forall_cons in Hall as [Hnn Hall]. destruct (Z.ltb_spec nn (zlen p)); cbn [andb] in E.
  - destruct err; cbn [negb] in E; [done|]. destruct (flush_loop _ _) as [q e] eqn:Eq. injection E as <- ->.
    apply IH in Eq; [|done]. subst q. apply take_drop.
  - injection E as <- ->. apply take_ge. unfold zlen in *. simpl in *. lia.
Qed.

(** A line is read whole.  However the network cuts the stream into
    segments, [ReadLine] ends, without a panic, with the first line of what is
    buffered and what is still to come, without its line end, and leaves the
    bytes after it. *)
Theorem packet_read_line (b : Packet) (segs : list (list Z)) (line rest : list Z) (Hwf : wf b) (Hl : LF ∉ line)
    (Hs : buffered b ++ concat segs = line ++ [CR; LF] ++ rest) :
  exists b' segs', ReadLine (S (length segs + length (concat segs))) b segs = Ret (Some (b', segs', inl line)) /\ wf b' /\
    buffered b' ++ concat segs' = rest.
Proof. apply ReadLine_spec; try done. lia. Qed.

Lemma packet_read_line_witness :
  exists b' segs', ReadLine 10 (NewPacketSize 16) [str "PO"; str "NG" ++ [CR]; [LF; 1]] = Ret (Some (b', segs', inl (str "PONG"))) /\
    wf b' /\ buffered b' ++ concat segs' = [1].
Proof.
  pose proof (packet_read_line (NewPacketSize 16) [str "PO"; str "NG" ++ [CR]; [LF; 1]] (str "PONG") [1]) as H.
  apply H; [apply new_wf| |reflexivity]. apply (bool_decide_unpack _). by vm_compute.
Defined.
