(* ===== verification/Cmdpool.v ===== *)
(** * redis/cmdpool.go: the pool of command slots

    A slot is owned through its [useChan], a channel of capacity one that
    holds a token while the slot is free.  [Get] takes the slots round robin
    and waits for the token of the slot whose turn it is. *)

From S2P Require Import Prelude Chan Resp.

Definition CmdUsed : Z := 0.
Definition CmdFree : Z := 1.

Section Pool.
Context {F V : Type}.

(** [ResultChan] is the identity of the caller's channel, [None] for nil.  The
    time stamp is left out. *)
Record Command := mkCommand {
  Cmd : option (list Z);
  CmdNum : Z;
  Arg1 : arg F V;
  Arg2 : arg F V;
  Arg3 : arg F V;
  Args : option (list (arg F V));
  isUsed : Z;
  bPoolCmd : bool;
  useChan : chan Z;
  ResultChan : option nat;
  cmdIndex : Z
}.

(** [new(Command)]; its [useChan] is nil and never used. *)
Definition new_Command : Command :=
  mkCommand None 0 ANil ANil ANil None 0 false (make_chan 0) None 0.

(** What a caller asks for. *)
Record request := mkRequest {
  rq_cmd : list Z;
  rq_num : Z;
  rq_arg1 : arg F V;
  rq_arg2 : arg F V;
  rq_arg3 : arg F V;
  rq_args : option (list (arg F V));
  rq_chan : option nat
}.

Definition set_use (c : Command) (used : Z) (ch : chan Z) : Command :=
  mkCommand (Cmd c) (CmdNum c) (Arg1 c) (Arg2 c) (Arg3 c) (Args c) used (bPoolCmd c) ch (ResultChan c) (cmdIndex c).

(** [release]: the slot and, when it was given back, its index as the new
    [recvIndex].  [None] when the token cannot be put back. *)
Definition release (c : Command) (recvIndex : Z) : option (Command * Z) :=
  if bPoolCmd c && (isUsed c =? CmdUsed) then
    match send (useChan c) 1 with
    | Ret (Some ch) => Some (set_use c CmdFree ch, cmdIndex c)
    | _ => None
    end
  else Some (c, recvIndex).

Record cmdPool := mkCmdPool { size : Z; getIndex : Z; cmds : list Command }.

Definition set_cmds (p : cmdPool) (l : list Command) : cmdPool := mkCmdPool (size p) (getIndex p) l.

Definition fresh_slot : Command :=
  mkCommand None 0 ANil ANil ANil None CmdFree true (push (make_chan 1) 1) None 0.

Definition NewCmdPool (poolSize : Z) : cmdPool :=
  let poolSize := u32 (poolSize * 10) in
  mkCmdPool poolSize 0 (replicate (Z.to_nat poolSize) fresh_slot).

(** [Get] up to its receive: the index of the slot whose turn it is. *)
Definition Get_turn (p : cmdPool) : go (cmdPool * nat) :=
  let tmp := u32 (getIndex p + 1) in
  if size p =? 0 then Panic else Ret (mkCmdPool (size p) tmp (cmds p), Z.to_nat (tmp mod size p)).

(** [Get] from its receive on: [None] while the slot is not free. *)
Definition Get_take (c : Command) (sendIndex : Z) : option (Command * Z) :=
  match recv (useChan c) with
  | RecvValue _ ch =>
      let sendIndex := u64 (sendIndex + 1) in
      Some (mkCommand (Cmd c) (CmdNum c) (Arg1 c) (Arg2 c) (Arg3 c) (Args c) CmdUsed (bPoolCmd c) ch (ResultChan c) sendIndex,
            sendIndex)
  | _ => None
  end.

(** The assignments of [packageRedisCmd]: each way of passing the arguments
    sets its own fields and leaves the others as the last user of the slot left
    them.  [None] is the [default] case. *)
Definition package (c : Command) (r : request) : option Command :=
  let mk a1 a2 a3 args :=
    Some (mkCommand (Some (rq_cmd r)) (rq_num r) a1 a2 a3 args (isUsed c) (bPoolCmd c) (useChan c) (ResultChan c) (cmdIndex c)) in
  if rq_num r =? ARGSNUMARRAY then mk (Arg1 c) (Arg2 c) (Arg3 c) (rq_args r)
  else if rq_num r =? ARGSNUM0 then mk (Arg1 c) (Arg2 c) (Arg3 c) (Args c)
  else if rq_num r =? ARGSNUM1 then mk (rq_arg1 r) (Arg2 c) (Arg3 c) (Args c)
  else if rq_num r =? ARGSNUM2 then mk (rq_arg1 r) (rq_arg2 r) (Arg3 c) (Args c)
  else if rq_num r =? ARGSNUM3 then mk (rq_arg1 r) (rq_arg2 r) (rq_arg3 r) (Args c)
  else if rq_num r =? ARGSKEY then mk (rq_arg1 r) (Arg2 c) (Arg3 c) (rq_args r)
  else None.

Definition set_ResultChan (c : Command) (ch : option nat) : Command :=
  mkCommand (Cmd c) (CmdNum c) (Arg1 c) (Arg2 c) (Arg3 c) (Args c) (isUsed c) (bPoolCmd c) (useChan c) ch (cmdIndex c).

(** ** What a slot stands for *)

Context (AppendFloat : F -> list Z) (Fprint : V -> list Z).

(** The parts of the command in a slot, and of a request. *)
Definition slot_parts (c : Command) : option (list (list Z)) :=
  name ← Cmd c; command_parts AppendFloat Fprint (CmdNum c) name (Arg1 c) (Arg2 c) (Arg3 c) (Args c).

Definition request_parts (r : request) : option (list (list Z)) :=
  command_parts AppendFloat Fprint (rq_num r) (rq_cmd r) (rq_arg1 r) (rq_arg2 r) (rq_arg3 r) (rq_args r).

(** A packaged slot sends the requested command, whatever the slot held
    before. *)
Lemma package_parts c r c' : package c r = Some c' -> slot_parts c' = request_parts r.
Proof.
  unfold package, slot_parts, request_parts, command_parts, ARGSNUMARRAY, ARGSNUM0, ARGSNUM1, ARGSNUM2, ARGSNUM3, ARGSKEY.
  repeat (case_test; [intros [= <-]; simpl; repeat (case_test; try lia); done|]). done.
Qed.

Lemma package_keeps c r c' : package c r = Some c' ->
  isUsed c' = isUsed c /\ bPoolCmd c' = bPoolCmd c /\ useChan c' = useChan c /\ cmdIndex c' = cmdIndex c.
Proof. unfold package. repeat (case_test; [by intros [= <-]|]). done. Qed.

(** A slot in the pool: free with its token, or used without. *)
Definition slot_ok (used : bool) (c : Command) : Prop :=
  bPoolCmd c = true /\ cap (useChan c) = 1%nat /\ chclosed (useChan c) = false /\
  if used then isUsed c = CmdUsed /\ items (useChan c) = [] else isUsed c = CmdFree /\ items (useChan c) = [1].

Lemma fresh_slot_ok : slot_ok false fresh_slot.
Proof. by repeat split. Qed.

Lemma release_used c ri : slot_ok true c ->
  exists c', release c ri = Some (c', cmdIndex c) /\ slot_ok false c'.
Proof.
  intros (Hp & Hcap & Hcl & Hu & Hit). unfold release. rewrite Hp, Hu. cbn [andb Z.eqb CmdUsed]. unfold send, full.
  rewrite Hcl, Hcap, Hit. simpl. eexists. split; [done|]. repeat split; simpl; try done. by rewrite Hit.
Qed.

(** Taking a slot waits while it is used and succeeds when it is free. *)
Lemma Get_take_spec c si used : slot_ok used c ->
  if used then Get_take c si = None
  else exists c', Get_take c si = Some (c', u64 (si + 1)) /\ cmdIndex c' = u64 (si + 1) /\ slot_ok true c'.
Proof.
  intros (Hp & Hcap & Hcl & Hu). unfold Get_take, recv. destruct used; destruct Hu as [_ ->]; [by rewrite Hcl|].
  eexists. split; [done|]. by repeat split.
Qed.

End Pool.

Arguments Command : clear implicits.
Arguments request : clear implicits.
Arguments cmdPool : clear implicits.
