(* ===== verification/Redisconn.v ===== *)
(** * redis/redisConn.go: the connection

    Callers put commands into [cmdChan]; one goroutine writes them to the
    connection and moves them to [waitChan]; another reads the replies and
    pairs each with the head of [waitChan]; a third handles failures and
    closing; a fourth replaces a connection that is silent too long.  A
    command travels as a pointer to its pool slot.  The file models the
    operations of the connection, the goroutines as a step function over the
    shared state, and proves what every interleaving guarantees.

    A step of a goroutine is one access to a shared variable, channel or
    connection: a test and the action that follows it are different steps, and
    a channel is loaded from the field in one step and used in a later one.
    Writing the pieces of one command into the buffered writer is one step.
    What a goroutine does to a counter or a signal at the end of an operation
    may be delayed: [leaving], [closing] and [signalling] count such pending
    actions, which are taken by steps of their own. *)

From S2P Require Import Prelude Chan Resp Respread Cmdpool.

(** ** Constants *)

Definition NetClosed : Z := 0.
Definition NetOpen : Z := 1.
Definition RedisConDead : Z := 0.
Definition RedisConExcetion : Z := 1.
Definition RedisClosedFriendly : Z := 2.
Definition RedisConAlive : Z := 3.
Definition NET_CLOSE_SIGNAL : Z := 1.
Definition ConRetryTimes : Z := -1.
Definition defaultWaitChCap : Z := 5000.
Definition defaultCmdChCap : Z := 5000.

(** ** Results *)

Inductive result_err : Type :=
| ErrRedisConClose
| ErrCall (e : call_err).

Record Result := mkResult { Data : reply; Err : option result_err }.

Definition closed_result : Result := mkResult RNil (Some ErrRedisConClose).

(** What [receive] makes of a reply. *)
Definition reply_result (r : reply) : Result :=
  mkResult r (match r with RError s => Some (ErrCall (ErrServer s)) | _ => None end).

Section Connection.
Context {F V : Type} (AppendFloat : F -> list Z) (Fprint : V -> list Z).
Implicit Types (cmd : Command F V) (rq : request F V).

(** ** Counting commands *)

(** The part of [RedisCon] that accounts for commands: the pool, the counter of
    commands accepted and not completed, the two indices; [leaving] are the
    commands completed and not yet taken off the counter.  [issued] and
    [completed] record the history: the index, channel and parts of each
    accepted command, and each result handed out. *)
Record ledger := mkLedger {
  cmdpool : cmdPool F V;
  waitProcessCmdNum : Z;
  leaving : nat;
  sendIndex : Z;
  recvIndex : Z;
  issued : list (Z * option nat * option (list (list Z)));
  completed : list (Z * option nat * Result)
}.

Definition slots (g : ledger) : list (Command F V) := cmds (cmdpool g).

Definition getProcessingCmdNum (g : ledger) : Z := waitProcessCmdNum g.

(** [packageRedisCmd] and setting [ResultChan], for the slot [i] of the pool.
    [None]: the slot is not free.  [false] is the unknown way of passing
    arguments: the slot is released. *)
Definition packageRedisCmd (g : ledger) (i : nat) rq : option (ledger * bool) :=
  c ← slots g !! i;
  '(c, si) ← Get_take c (sendIndex g);
  match package c rq with
  | None =>
      '(c, ri) ← release c (recvIndex g);
      Some (mkLedger (set_cmds (cmdpool g) (<[i := c]> (slots g))) (waitProcessCmdNum g) (leaving g) si ri
              (issued g) (completed g), false)
  | Some c =>
      Some (mkLedger (set_cmds (cmdpool g) (<[i := set_ResultChan c (rq_chan rq)]> (slots g)))
              (waitProcessCmdNum g) (leaving g) si (recvIndex g)
              (issued g ++ [(cmdIndex c, rq_chan rq, request_parts AppendFloat Fprint rq)]) (completed g), true)
  end.

(** [AddInt64(&c.waitProcessCmdNum, 1)]. *)
Definition count_cmd (g : ledger) : ledger :=
  mkLedger (cmdpool g) (waitProcessCmdNum g + 1) (leaving g) (sendIndex g) (recvIndex g) (issued g) (completed g).

(** [sendResultToUser] of a pool slot: the result goes to the caller and the
    slot back to the pool; the counter is to go down. *)
Definition sendResultToUser (g : ledger) (res : Result) (i : nat) : option ledger :=
  c ← slots g !! i;
  '(c', ri) ← release c (recvIndex g);
  Some (mkLedger (set_cmds (cmdpool g) (<[i := c']> (slots g))) (waitProcessCmdNum g) (S (leaving g)) (sendIndex g) ri
          (issued g) (completed g ++ [(cmdIndex c, ResultChan c, res)])).

(** The end of [sendResultToUser]: [AddInt64(&c.waitProcessCmdNum, -1)]. *)
Definition uncount_cmd (g : ledger) : option ledger :=
  match leaving g with
  | O => None
  | S l => Some (mkLedger (cmdpool g) (waitProcessCmdNum g - 1) l (sendIndex g) (recvIndex g) (issued g) (completed g))
  end.

Definition closeUserChan (g : ledger) (i : nat) : option ledger := sendResultToUser g closed_result i.

(** [closeUserChan] of a [new(Command)], which is in no pool: the counter goes
    down although the command was not counted. *)
Definition closeUserChan_new (g : ledger) (ch : option nat) : ledger :=
  mkLedger (cmdpool g) (waitProcessCmdNum g) (S (leaving g)) (sendIndex g) (recvIndex g) (issued g)
    (completed g ++ [(0, ch, closed_result)]).

(** ** The connection's channels and flags *)

(** [olds] are the channels [waitChan] held before, which goroutines that
    loaded them still use; [hung]: [c.conn], the first connection, is closed;
    [closing] and [signalling] count goroutines inside [netClose] before
    [c.conn.Close] and before [SendExceptionSignal]. *)
Record net := mkNet {
  NetStatus : Z;
  LifeCycle : Z;
  cmdChan : chan nat;
  waitChan : chan nat;
  olds : list (chan nat);
  signal : chan Z;
  conRetryTimes : Z;
  conRetriedTimes : Z;
  closing : nat;
  hung : bool;
  signalling : nat
}.

Definition set_NetStatus (n : net) (x : Z) : net :=
  mkNet x (LifeCycle n) (cmdChan n) (waitChan n) (olds n) (signal n) (conRetryTimes n) (conRetriedTimes n)
    (closing n) (hung n) (signalling n).
Definition set_LifeCycle (n : net) (x : Z) : net :=
  mkNet (NetStatus n) x (cmdChan n) (waitChan n) (olds n) (signal n) (conRetryTimes n) (conRetriedTimes n)
    (closing n) (hung n) (signalling n).
Definition set_cmdChan (n : net) (ch : chan nat) : net :=
  mkNet (NetStatus n) (LifeCycle n) ch (waitChan n) (olds n) (signal n) (conRetryTimes n) (conRetriedTimes n)
    (closing n) (hung n) (signalling n).
Definition set_waits (n : net) (ch : chan nat) (l : list (chan nat)) : net :=
  mkNet (NetStatus n) (LifeCycle n) (cmdChan n) ch l (signal n) (conRetryTimes n) (conRetriedTimes n)
    (closing n) (hung n) (signalling n).
Definition set_conRetriedTimes (n : net) (x : Z) : net :=
  mkNet (NetStatus n) (LifeCycle n) (cmdChan n) (waitChan n) (olds n) (signal n) (conRetryTimes n) x
    (closing n) (hung n) (signalling n).
Definition set_signal (n : net) (ch : chan Z) (c : nat) (h : bool) (k : nat) : net :=
  mkNet (NetStatus n) (LifeCycle n) (cmdChan n) (waitChan n) (olds n) ch (conRetryTimes n) (conRetriedTimes n) c h k.

(** Loading [c.waitChan] gives the number of the channel it holds; [wchan] is
    the channel of that number. *)
Definition gen (n : net) : nat := length (olds n).
Definition wchan (n : net) (k : nat) : chan nat := nth k (olds n) (waitChan n).
Definition set_wchan (n : net) (k : nat) (ch : chan nat) : net :=
  if (k <? gen n)%nat then set_waits n (waitChan n) (<[k := ch]> (olds n)) else set_waits n ch (olds n).

Definition cycleIsExcetion (n : net) : bool := LifeCycle n =? RedisConExcetion.
Definition cycleIsAlive (n : net) : bool := (LifeCycle n =? RedisConAlive) || cycleIsExcetion n.
Definition cycleIsDead (n : net) : bool := LifeCycle n =? RedisConDead.
Definition cycleIsClosedFriendly (n : net) : bool := LifeCycle n =? RedisClosedFriendly.
Definition IsNetClose (n : net) : bool := NetStatus n =? NetClosed.

Definition changeLifeCycle (n : net) (l : Z) : net := set_LifeCycle n l.

Definition tryChangeLifeCycle (n : net) (old new : Z) : net :=
  if LifeCycle n =? old then changeLifeCycle n new else n.

(** [netClose] up to its compare-and-swap. *)
Definition netClose (n : net) : net :=
  if NetStatus n =? NetOpen
  then set_signal (set_NetStatus n NetClosed) (signal n) (S (closing n)) (hung n) (signalling n)
  else set_signal n (signal n) (closing n) (hung n) (S (signalling n)).

(** [c.conn.Close()] in [netClose]. *)
Definition hang_up (n : net) : option net :=
  match closing n with
  | O => None
  | S k => Some (set_signal n (signal n) k true (S (signalling n)))
  end.

Definition SendExceptionSignal (n : net) (sig : Z) : option net :=
  match signalling n with
  | O => None
  | S k =>
      match try_send (signal n) sig with
      | Ret (ch, _) => Some (set_signal n ch (closing n) (hung n) k)
      | Panic => None
      end
  end.

(** [Close]: each of its loops sets a flag and tests it. *)
Inductive close_pc : Type := CLife | CLifeTest | CNet | CNetTest.

Definition Close (p : close_pc) (n : net) : net * option close_pc :=
  match p with
  | CLife => (changeLifeCycle n RedisConDead, Some CLifeTest)
  | CLifeTest => (n, Some (if LifeCycle n =? RedisConDead then CNet else CLife))
  | CNet => (netClose n, Some CNetTest)
  | CNetTest => (n, if IsNetClose n then None else Some CNet)
  end.

Definition CloseFriendly (n : net) : net := changeLifeCycle n RedisClosedFriendly.

(** One round of [cleanChan]: [None] when the channel is empty. *)
Definition pop (ch : chan nat) : option (nat * chan nat) :=
  match recv ch with RecvValue i ch => Some (i, ch) | _ => None end.

(** The end of [closeChan]; the panic of closing a closed channel is recovered. *)
Definition closed_chan (ch : chan nat) : chan nat :=
  match close_chan ch with Ret ch => ch | Panic => ch end.

(** ** The wire *)

(** A connection to a server: the commands the server has received and not
    answered, and the replies on the way back. *)
Record conn := mkConn { atserver : list (Z * list (list Z)); replies : list (Z * reply) }.

(** [conns] are the connections dialled, [br] and [bw] the numbers of those the
    reader and the writer use, [unflushed] the commands in the writer's buffer;
    [answered] records what the servers replied. *)
Record wire := mkWire {
  unflushed : list (Z * list (list Z));
  conns : list conn;
  br : nat;
  bw : nat;
  answered : list (Z * list (list Z) * reply)
}.

(** What the writer's buffer holds goes to the server. *)
Definition written_out (w : wire) : wire :=
  mkWire [] (alter (fun c => mkConn (atserver c ++ unflushed w) (replies c)) (bw w) (conns w)) (br w) (bw w) (answered w).

(** [resetNet]: the dial and then one assignment after the other.  [ok] is the
    outcome of dialling. *)
Inductive reset_pc : Type := NBegin | NDial | NReader | NWriter (k : nat) | NChan | NOpen | NZero.
Inductive reset_out : Type := NNext (p : reset_pc) | NDone | NFailed.

Definition resetNet (ok : bool) (p : reset_pc) (n : net) (w : wire) : net * wire * reset_out :=
  match p with
  | NBegin => (set_conRetriedTimes n (conRetriedTimes n + 1), w, NNext NDial)
  | NDial => (n, w, if ok then NNext NReader else NFailed)
  | NReader =>
      let k := length (conns w) in
      (n, mkWire (unflushed w) (conns w ++ [mkConn [] []]) k (bw w) (answered w), NNext (NWriter k))
  | NWriter k => (n, mkWire [] (conns w) (br w) k (answered w), NNext NChan)
  | NChan => (set_waits n (make_chan (cap (waitChan n))) (olds n ++ [waitChan n]), w, NNext NOpen)
  | NOpen => (set_NetStatus n NetOpen, w, NNext NZero)
  | NZero => (set_conRetriedTimes n 0, w, NDone)
  end.

(** ** The goroutines *)

(** [SDead], [SQuit]: the tests of the life cycle; [SSelect]: waiting on
    [cmdChan]; [SWrite i]: a command in hand; [SWait i]: it is written;
    [SSend i k]: the channel to put it into is loaded; [SFlush i]: it is in that
    channel; [SFail i], [SNet]: the deferred part of [sendToRedis]; [SDrop i]:
    after a failed [Flush]. *)
Inductive send_pc : Type :=
| STop | SDead | SQuit | SSelect
| SWrite (i : nat) | SWait (i : nat) | SSend (i k : nat) | SFlush (i : nat)
| SFail (i : nat) | SNet | SDrop (i : nat) | SEnd.

(** [RCall]: about to load the reader; [RRead k]: in [receive] on connection
    [k]; [RPair]: a result in hand, with it the index of the command the server
    answered; [RTake]: the channel to take its command from is loaded. *)
Inductive recv_pc : Type :=
| RTop | RDead | RQuit | RCall | RRead (k : nat)
| RPair (id : option Z) (res : Result) | RTake (id : option Z) (res : Result) (k : nat) | REnd.

(** The tests and actions of [exceptionProcess] in their order: [XCheck] to
    [XFriendlyTest] are the tests after a signal; [XLast] to [XLastWaitClose]
    close the two channels; [XDead] to [XDeadNum] and [XFriendly],
    [XFriendlyNum] are the loops after [Close] and [CloseFriendly]; [XLoop] on
    is the reconnect loop, with [XLoad] to [XCompare] its inner loop,
    [XShutLoad] to [XShutClose] [closeChan]; [XClose p b] is inside [Close],
    [b] when the retries are used up. *)
Inductive exc_pc : Type :=
| XSignal | XCheck | XCheckNum | XDeadTest | XFriendlyTest
| XLast | XLastClose | XLastLoad | XLastWait (k : nat) | XLastWaitClose (k : nat)
| XDead | XDeadLoad | XDeadWait (k : nat) | XDeadNum
| XFriendly | XFriendlyNum
| XLoop | XLoopAlive | XMark | XLoad | XClean (k : nat) | XCount | XCompare (num : Z)
| XShutLoad | XShut (k : nat) | XShutClose (k : nat)
| XRetry | XReset (p : reset_pc) | XFailed | XDrop | XClose (p : close_pc) (gaveup : bool) | XEnd.

Inductive time_pc : Type := TSleep | TSeen (recv : Z) | TReset (p : reset_pc).

(** [getting]: callers that wait for their slot; [counting]: slots filled and
    not yet counted; [entering]: slots counted whose caller is about to put
    them into [cmdChan]; [closers]: callers inside [Close]. *)
Record RedisCon := mkRedisCon {
  con : net;
  book : ledger;
  line : wire;
  getting : list (nat * request F V);
  counting : list nat;
  entering : list nat;
  spc : send_pc;
  rpc : recv_pc;
  xpc : exc_pc;
  tpc : time_pc;
  closers : list close_pc
}.

(** [SendToConn] and [sendToCmdChan] up to the slot: [checked] for the callers
    that test [IsNetClose] first. *)
Definition names_eval rq : bool :=
  bool_decide (rq_cmd rq = str "EVALSHA") || bool_decide (rq_cmd rq = str "EVAL").

Definition no_args rq : bool :=
  negb (names_eval rq) && (rq_num rq =? ARGSNUMARRAY) &&
  match rq_args rq with None => true | Some l => zlen l <? 1 end.

Definition caller (s : RedisCon) (n : net) (g : ledger) (get : list (nat * request F V)) (cnt ent : list nat) : RedisCon :=
  mkRedisCon n g (line s) get cnt ent (spc s) (rpc s) (xpc s) (tpc s) (closers s).

Definition sendToCmdChan (s : RedisCon) (checked : bool) rq : RedisCon :=
  if checked && IsNetClose (con s) then s
  else
    let refuse := caller s (con s) (closeUserChan_new (book s) (rq_chan rq)) (getting s) (counting s) (entering s) in
    if no_args rq then refuse
    else
      match Get_turn (cmdpool (book s)) with
      | Panic => refuse
      | Ret (p, i) =>
          let g := book s in
          caller s (con s)
            (mkLedger p (waitProcessCmdNum g) (leaving g) (sendIndex g) (recvIndex g) (issued g) (completed g))
            (getting s ++ [(i, rq)]) (counting s) (entering s)
      end.

(** A caller gets its slot. *)
Definition caller_get (s : RedisCon) (k : nat) : option RedisCon :=
  '(i, rq) ← getting s !! k;
  '(g, filled) ← packageRedisCmd (book s) i rq;
  Some (caller s (con s) g (delete k (getting s)) (if (filled : bool) then counting s ++ [i] else counting s) (entering s)).

(** A caller counts its command. *)
Definition caller_count (s : RedisCon) (k : nat) : option RedisCon :=
  i ← counting s !! k;
  Some (caller s (con s) (count_cmd (book s)) (getting s) (delete k (counting s)) (entering s ++ [i])).

(** [c.cmdChan <- sCmd]; on a closed channel the recover completes the command. *)
Definition caller_push (s : RedisCon) (k : nat) : option RedisCon :=
  i ← entering s !! k;
  match send (cmdChan (con s)) i with
  | Panic =>
      g ← closeUserChan (book s) i;
      Some (caller s (con s) g (getting s) (counting s) (delete k (entering s)))
  | Ret None => None
  | Ret (Some ch) =>
      Some (caller s (set_cmdChan (con s) ch) (book s) (getting s) (counting s) (delete k (entering s)))
  end.

(** *** [processReceiveUser] *)

Definition sender (s : RedisCon) (n : net) (g : ledger) (w : wire) (pc : send_pc) : RedisCon :=
  mkRedisCon n g w (getting s) (counting s) (entering s) pc (rpc s) (xpc s) (tpc s) (closers s).

(** [sendToRedis]: writing the command of slot [i]; a failed write closes the
    connection before the deferred part completes the command. *)
Definition write_step (wok : bool) (s : RedisCon) (i : nat) : option RedisCon :=
  let w := line s in
  c ← slots (book s) !! i;
  match slot_parts AppendFloat Fprint c with
  | Some parts =>
      if wok then
        Some (sender s (con s) (book s)
                (mkWire (unflushed w ++ [(cmdIndex c, parts)]) (conns w) (br w) (bw w) (answered w)) (SWait i))
      else Some (sender s (netClose (con s)) (book s) w (SFail i))
  | None => Some (sender s (netClose (con s)) (book s) w (SFail i))
  end.

(** [c.waitChan <- cmd], the channel being loaded. *)
Definition wait_step (s : RedisCon) (i k : nat) : option RedisCon :=
  match send (wchan (con s) k) i with
  | Panic => Some (sender s (con s) (book s) (line s) (SFail i))
  | Ret None => None
  | Ret (Some ch) => Some (sender s (set_wchan (con s) k ch) (book s) (line s) (SFlush i))
  end.

(** The command is completed with an error by the deferred part of
    [sendToRedis] or after a failed [Flush]. *)
Definition send_failed (s : RedisCon) (i : nat) (pc : send_pc) : option RedisCon :=
  g ← closeUserChan (book s) i;
  Some (sender s (con s) g (line s) pc).

(** [Flush].  Nothing is written to the first connection once it is closed. *)
Definition Flush (fok : bool) (s : RedisCon) (i : nat) : option RedisCon :=
  let w := line s in
  if fok then
    match unflushed w with
    | [] => Some (sender s (con s) (book s) w STop)
    | _ => if hung (con s) && (bw w =? 0)%nat then None else Some (sender s (con s) (book s) (written_out w) STop)
    end
  else Some (sender s (netClose (con s)) (book s) w (SDrop i)).

(** One step of the goroutine; [wok] and [fok] are the outcomes of writing and
    of flushing. *)
Definition processReceiveUser (wok fok : bool) (s : RedisCon) : option RedisCon :=
  let n := con s in
  let to (pc : send_pc) := Some (sender s n (book s) (line s) pc) in
  match spc s with
  | STop => to (if IsNetClose n then SDead else SSelect)
  | SDead => to (if cycleIsDead n then SQuit else STop)
  | SQuit => to (if cycleIsDead n then SEnd else STop)
  | SSelect =>
      match recv (cmdChan n) with
      | RecvValue i ch => Some (sender s (set_cmdChan n ch) (book s) (line s) (SWrite i))
      | RecvClosed => to STop
      | RecvBlocks => None
      end
  | SWrite i => write_step wok s i
  | SWait i => to (SSend i (gen n))
  | SSend i k => wait_step s i k
  | SFlush i => Flush fok s i
  | SFail i => send_failed s i SNet
  | SNet => Some (sender s (netClose n) (book s) (line s) STop)
  | SDrop i => send_failed s i STop
  | SEnd => None
  end.

(** A full buffer is written out before [Flush] is called. *)
Definition buffer_spills (s : RedisCon) : option RedisCon :=
  let w := line s in
  match unflushed w with
  | [] => None
  | _ => if hung (con s) && (bw w =? 0)%nat then None else Some (sender s (con s) (book s) (written_out w) (spc s))
  end.

(** A server answers the commands of connection [k] in their order. *)
Definition server_answers (s : RedisCon) (k : nat) (r : reply) : option RedisCon :=
  let w := line s in
  c ← conns w !! k;
  match atserver c with
  | [] => None
  | (id, parts) :: rest =>
      Some (sender s (con s) (book s)
              (mkWire (unflushed w) (<[k := mkConn rest (replies c ++ [(id, r)])]> (conns w)) (br w) (bw w)
                 (answered w ++ [(id, parts, r)])) (spc s))
  end.

(** *** [processReceiveRedis] *)

Definition receiver (s : RedisCon) (n : net) (g : ledger) (w : wire) (pc : recv_pc) : RedisCon :=
  mkRedisCon n g w (getting s) (counting s) (entering s) (spc s) pc (xpc s) (tpc s) (closers s).

(** One step.  A result that meets a closed and drained channel ends in a
    recovered panic, after which the loop starts again. *)
Definition processReceiveRedis (s : RedisCon) : option RedisCon :=
  let n := con s in
  let w := line s in
  let to (pc : recv_pc) := Some (receiver s n (book s) w pc) in
  match rpc s with
  | RTop => to (if IsNetClose n then RDead else RCall)
  | RDead => to (if cycleIsDead n then RQuit else RTop)
  | RQuit => to (if cycleIsDead n then REnd else RTop)
  | RCall => to (RRead (br w))
  | RRead k =>
      c ← conns w !! k;
      match replies c with
      | [] => None
      | (id, r) :: rest =>
          Some (receiver s n (book s)
                  (mkWire (unflushed w) (<[k := mkConn (atserver c) rest]> (conns w)) (br w) (bw w) (answered w))
                  (RPair (Some id) (reply_result r)))
      end
  | RPair id res => to (RTake id res (gen n))
  | RTake _ res k =>
      match recv (wchan n k) with
      | RecvValue i ch =>
          g ← sendResultToUser (book s) res i;
          Some (receiver s (set_wchan n k ch) g w RTop)
      | RecvClosed => to RQuit
      | RecvBlocks => None
      end
  | REnd => None
  end.

(** Reading fails: [receive] closes the connection and returns the error. *)
Definition receive_fails (e : read_err) (s : RedisCon) : option RedisCon :=
  match rpc s with
  | RRead _ =>
      Some (receiver s (netClose (con s)) (book s) (line s) (RPair None (mkResult RNil (Some (ErrCall (ErrRead e))))))
  | _ => None
  end.

(** The reader is replaced in the middle of a reply: the rest is read from the
    new connection, and the result may be anything. *)
Definition receive_torn (r : reply) (s : RedisCon) : option RedisCon :=
  match rpc s with
  | RRead k =>
      if (br (line s) =? k)%nat then None
      else Some (receiver s (con s) (book s) (line s) (RPair None (reply_result r)))
  | _ => None
  end.

(** *** [exceptionProcess] *)

Definition handler (s : RedisCon) (n : net) (g : ledger) (w : wire) (pc : exc_pc) : RedisCon :=
  mkRedisCon n g w (getting s) (counting s) (entering s) (spc s) (rpc s) pc (tpc s) (closers s).

(** A round of [cleanChan] on the channel [ch], which [put] stores back; at its
    end the goroutine goes on at [pc]. *)
Definition cleanChan (s : RedisCon) (ch : chan nat) (put : chan nat -> net) (pc : exc_pc) : option RedisCon :=
  match pop ch with
  | Some (i, ch) => g ← closeUserChan (book s) i; Some (handler s (put ch) g (line s) (xpc s))
  | None => Some (handler s (con s) (book s) (line s) pc)
  end.

Definition clean_cmds (s : RedisCon) (pc : exc_pc) : option RedisCon :=
  cleanChan s (cmdChan (con s)) (set_cmdChan (con s)) pc.

Definition clean_wait (s : RedisCon) (k : nat) (pc : exc_pc) : option RedisCon :=
  cleanChan s (wchan (con s) k) (set_wchan (con s) k) pc.

(** One step; [ok] is the outcome of dialling. *)
Definition exceptionProcess (ok : bool) (s : RedisCon) : option RedisCon :=
  let n := con s in
  let g := book s in
  let put (n : net) (pc : exc_pc) := Some (handler s n g (line s) pc) in
  let to (pc : exc_pc) := put n pc in
  match xpc s with
  | XSignal =>
      match recv (signal n) with
      | RecvValue _ ch => put (set_signal n ch (closing n) (hung n) (signalling n)) XCheck
      | _ => None
      end
  | XCheck => to (if cycleIsAlive n then XDeadTest else XCheckNum)
  | XCheckNum => to (if getProcessingCmdNum g <=? 0 then XLast else XDeadTest)
  | XLast => clean_cmds s XLastClose
  | XLastClose => put (set_cmdChan n (closed_chan (cmdChan n))) XLastLoad
  | XLastLoad => to (XLastWait (gen n))
  | XLastWait k => clean_wait s k (XLastWaitClose k)
  | XLastWaitClose k => put (set_wchan n k (closed_chan (wchan n k))) XEnd
  | XDeadTest => to (if cycleIsDead n then XDead else XFriendlyTest)
  | XDead => clean_cmds s XDeadLoad
  | XDeadLoad => to (XDeadWait (gen n))
  | XDeadWait k => clean_wait s k XDeadNum
  | XDeadNum => to (if getProcessingCmdNum g <=? 0 then XLoop else XDead)
  | XFriendlyTest => to (if cycleIsClosedFriendly n then XFriendly else XLoop)
  | XFriendly => to (if IsNetClose n then XLoop else XFriendlyNum)
  | XFriendlyNum => to (if getProcessingCmdNum g <=? 0 then XClose CLife false else XFriendly)
  | XLoop => to (if IsNetClose n then XLoopAlive else XSignal)
  | XLoopAlive => to (if cycleIsAlive n then XMark else XSignal)
  | XMark => put (tryChangeLifeCycle n RedisConAlive RedisConExcetion) XLoad
  | XLoad => to (XClean (gen n))
  | XClean k => clean_wait s k XCount
  | XCount => to (XCompare (getProcessingCmdNum g))
  | XCompare num => to (if num <=? zlen (items (cmdChan n)) then XShutLoad else XLoad)
  | XShutLoad => to (XShut (gen n))
  | XShut k => clean_wait s k (XShutClose k)
  | XShutClose k => put (set_wchan n k (closed_chan (wchan n k))) XRetry
  | XRetry =>
      to (if cycleIsAlive n && ((conRetryTimes n <? 0) || (conRetriedTimes n <? conRetryTimes n))
          then XReset NBegin else XClose CLife true)
  | XReset p =>
      let '(n, w, out) := resetNet ok p n (line s) in
      Some (handler s n g w (match out with NNext p => XReset p | NDone => XSignal | NFailed => XFailed end))
  | XFailed => to (if 1 <? conRetriedTimes n then XDrop else XLoop)
  | XDrop => clean_cmds s XLoop
  | XClose p gaveup =>
      let '(n, p) := Close p n in
      put n (match p with Some p => XClose p gaveup | None => if gaveup then XSignal else XLoop end)
  | XEnd => None
  end.

(** *** [processTimeOut] *)

(** The commands of a round: the two indices are read one after the other;
    [late]: the reset is due by the clock. *)
Definition processTimeOut (late ok : bool) (s : RedisCon) : RedisCon :=
  let put (n : net) (w : wire) (pc : time_pc) :=
    mkRedisCon n (book s) w (getting s) (counting s) (entering s) (spc s) (rpc s) (xpc s) pc (closers s) in
  match tpc s with
  | TSleep => put (con s) (line s) (TSeen (recvIndex (book s)))
  | TSeen r =>
      put (con s) (line s) (if late && (100 <? u64 (sendIndex (book s) - r)) then TReset NBegin else TSleep)
  | TReset p =>
      let '(n, w, out) := resetNet ok p (con s) (line s) in
      put n w (match out with NNext p => TReset p | _ => TSleep end)
  end.

(** ** Runs *)

(** [Uncounted], [HangUp] and [Signal] are the pending ends of
    [sendResultToUser] and [netClose]. *)
Inductive action : Type :=
| Call (checked : bool) (rq : request F V)
| Got (k : nat)
| Counted (k : nat)
| Pushed (k : nat)
| Uncounted
| Send (wok fok : bool)
| Spill
| Serve (k : nat) (r : reply)
| Recv
| RecvFails (e : read_err)
| RecvTorn (r : reply)
| Except (ok : bool)
| TimeOut (late ok : bool)
| HangUp
| Signal
| DoClose
| Closing (k : nat)
| DoCloseFriendly.

Definition with_con (s : RedisCon) (n : net) (l : list close_pc) : RedisCon :=
  mkRedisCon n (book s) (line s) (getting s) (counting s) (entering s) (spc s) (rpc s) (xpc s) (tpc s) l.

(** A caller inside [Close] goes on. *)
Definition caller_closes (s : RedisCon) (k : nat) : option RedisCon :=
  p ← closers s !! k;
  let '(n, p) := Close p (con s) in
  Some (with_con s n (match p with Some p => <[k := p]> (closers s) | None => delete k (closers s) end)).

Definition step (a : action) (s : RedisCon) : option RedisCon :=
  match a with
  | Call checked rq => Some (sendToCmdChan s checked rq)
  | Got k => caller_get s k
  | Counted k => caller_count s k
  | Pushed k => caller_push s k
  | Uncounted => g ← uncount_cmd (book s); Some (caller s (con s) g (getting s) (counting s) (entering s))
  | Send wok fok => processReceiveUser wok fok s
  | Spill => buffer_spills s
  | Serve k r => server_answers s k r
  | Recv => processReceiveRedis s
  | RecvFails e => receive_fails e s
  | RecvTorn r => receive_torn r s
  | Except ok => exceptionProcess ok s
  | TimeOut late ok => Some (processTimeOut late ok s)
  | HangUp => n ← hang_up (con s); Some (with_con s n (closers s))
  | Signal => n ← SendExceptionSignal (con s) NET_CLOSE_SIGNAL; Some (with_con s n (closers s))
  | DoClose => Some (with_con s (con s) (closers s ++ [CLife]))
  | Closing k => caller_closes s k
  | DoCloseFriendly => Some (with_con s (CloseFriendly (con s)) (closers s))
  end.

Fixpoint run (acts : list action) (s : RedisCon) : option RedisCon :=
  match acts with
  | [] => Some s
  | a :: acts => s ← step a s; run acts s
  end.

(** ** The callers' interface *)

(** The functions of the package are calls of [sendToCmdChan]; [ch] is the
    channel the [Do] variants make and wait on.  [SendCmd] is [Send]. *)
Definition SendToConn (ch : option nat) (name : list Z) (args : option (list (arg F V))) : action :=
  Call true (mkRequest name ARGSNUMARRAY ANil ANil ANil args ch).
Definition sendToCmdChanArgsKey (ch : option nat) (name : list Z) (key : arg F V) (args : option (list (arg F V))) : action :=
  Call false (mkRequest name ARGSKEY key ANil ANil args ch).
Definition sendToCmdChanArgsNum0 (ch : option nat) (name : list Z) : action :=
  Call false (mkRequest name ARGSNUM0 ANil ANil ANil None ch).
Definition sendToCmdChanArgsNum1 (ch : option nat) (name : list Z) (a1 : arg F V) : action :=
  Call false (mkRequest name ARGSNUM1 a1 ANil ANil None ch).
Definition sendToCmdChanArgsNum2 (ch : option nat) (name : list Z) (a1 a2 : arg F V) : action :=
  Call false (mkRequest name ARGSNUM2 a1 a2 ANil None ch).
Definition sendToCmdChanArgsNum3 (ch : option nat) (name : list Z) (a1 a2 a3 : arg F V) : action :=
  Call false (mkRequest name ARGSNUM3 a1 a2 a3 None ch).

Definition Do (ch : nat) (name : list Z) (args : list (arg F V)) : action := SendToConn (Some ch) name (Some args).
Definition DoKeyArgs (ch : nat) (name : list Z) (key : arg F V) (args : option (list (arg F V))) : action :=
  sendToCmdChanArgsKey (Some ch) name key args.
Definition DoKey (ch : nat) (name : list Z) (key : arg F V) (args : list (arg F V)) : action :=
  sendToCmdChanArgsKey (Some ch) name key (Some args).
Definition DoArg1 (ch : nat) (name : list Z) (a : arg F V) : action := sendToCmdChanArgsNum1 (Some ch) name a.
Definition DoArg2 (ch : nat) (name : list Z) (a1 a2 : arg F V) : action := sendToCmdChanArgsNum2 (Some ch) name a1 a2.
Definition DoArg3 (ch : nat) (name : list Z) (a1 a2 a3 : arg F V) : action := sendToCmdChanArgsNum3 (Some ch) name a1 a2 a3.
Definition SendCmd (name : list Z) (args : list (arg F V)) : action := SendToConn None name (Some args).
Definition SendArg0 (name : list Z) : action := sendToCmdChanArgsNum0 None name.
Definition SendArg1 (name : list Z) (a1 : arg F V) : action := sendToCmdChanArgsNum1 None name a1.
Definition SendArg2 (name : list Z) (a1 a2 : arg F V) : action := sendToCmdChanArgsNum2 None name a1 a2.
Definition SendArg3 (name : list Z) (a1 a2 a3 : arg F V) : action := sendToCmdChanArgsNum3 None name a1 a2 a3.

(** The channel and the parts of the command a call asks for. *)
Definition asks (a : action) (ch : option nat) (parts : list (list Z)) : Prop :=
  match a with
  | Call _ rq => rq_chan rq = ch /\ request_parts AppendFloat Fprint rq = Some parts /\ no_args rq = false
  | _ => False
  end.

(** [NewRedisCon] after the dial: default capacities and [init]. *)
Definition init (cmdChanCap waitChanCap : Z) : RedisCon :=
  mkRedisCon
    (mkNet NetOpen RedisConAlive (make_chan (Z.to_nat cmdChanCap)) (make_chan (Z.to_nat waitChanCap)) [] (make_chan 10)
       ConRetryTimes 0 0 false 0)
    (mkLedger (NewCmdPool (waitChanCap + cmdChanCap)) 0 O 0 0 [] [])
    (mkWire [] [mkConn [] []] 0 0 []) [] [] [] STop RTop XSignal TSleep [].

Definition NewRedisCon (cmdChanCap waitChanCap : Z) : RedisCon :=
  let cmdChanCap := if cmdChanCap <=? 0 then defaultCmdChCap else cmdChanCap in
  let waitChanCap := if waitChanCap <=? 0 then defaultWaitChCap else waitChanCap in
  init cmdChanCap waitChanCap.

(** Every function of the interface asks for the command it names, with its
    arguments in order, and for the result on its own channel ([Send]s ask for
    none); [Do] and [Send] need at least one argument. *)
Theorem interface_asks (ch : nat) (name : list Z) (a1 a2 a3 : arg F V) (args : list (arg F V)) :
  let b := arg_bytes AppendFloat Fprint in
  asks (Do ch name (a1 :: args)) (Some ch) (name :: b a1 :: (b <$> args)) /\
  asks (DoKey ch name a1 args) (Some ch) (name :: b a1 :: (b <$> args)) /\
  asks (DoKeyArgs ch name a1 (Some args)) (Some ch) (name :: b a1 :: (b <$> args)) /\
  asks (DoArg1 ch name a1) (Some ch) [name; b a1] /\
  asks (DoArg2 ch name a1 a2) (Some ch) [name; b a1; b a2] /\
  asks (DoArg3 ch name a1 a2 a3) (Some ch) [name; b a1; b a2; b a3] /\
  asks (SendCmd name (a1 :: args)) None (name :: b a1 :: (b <$> args)) /\
  asks (SendArg0 name) None [name] /\ asks (SendArg1 name a1) None [name; b a1] /\
  asks (SendArg2 name a1 a2) None [name; b a1; b a2] /\ asks (SendArg3 name a1 a2 a3) None [name; b a1; b a2; b a3].
Proof.
  assert ((zlen (a1 :: args) <? 1) = false) as Hz by (apply Z.ltb_ge; rewrite zlen_cons; pose proof (zlen_nonneg args); lia).
  simpl. unfold asks, no_args, names_eval. simpl. rewrite Hz, !andb_false_r. by split_and!.
Qed.

(** ** The ledger *)

(** Index, channel and parts of the command in slot [i]. *)
Definition entry (g : ledger) (i : nat) : option (Z * option nat * option (list (list Z))) :=
  (fun c => (cmdIndex c, ResultChan c, slot_parts AppendFloat Fprint c)) <$> slots g !! i.

Definition entries (g : ledger) (fl : list nat) : list (Z * option nat * option (list (list Z))) := omap (entry g) fl.

Lemma entries_cons g i fl :
  entries g (i :: fl) = match entry g i with Some e => e :: entries g fl | None => entries g fl end.
Proof. done. Qed.

(** [fl] are the slots of the commands in flight. *)
Record book_ok (g : ledger) (fl : list nat) : Prop := mkBookOk {
  bk_nodup : NoDup fl;
  bk_range : Forall (fun i => (i < length (slots g))%nat) fl;
  bk_slot : forall i c, slots g !! i = Some c -> slot_ok (bool_decide (i ∈ fl)) c;
  bk_perm : (completed g).*1 ++ (entries g fl).*1 ≡ₚ (issued g).*1;
  bk_issued : Forall (fun e => e ∈ issued g) (entries g fl);
  bk_size : size (cmdpool g) <> 0 /\ size (cmdpool g) = zlen (slots g)
}.

Lemma book_perm g fl fl' : fl ≡ₚ fl' -> book_ok g fl -> book_ok g fl'.
Proof.
  intros Hp [Hn Hr Hs Hq Hi Hz]. split; try done.
  - by rewrite <- Hp.
  - by rewrite <- Hp.
  - intros i c Hl. specialize (Hs i c Hl). by rewrite <- (bool_decide_ext (i ∈ fl) (i ∈ fl')) by (by rewrite Hp).
  - unfold entries in *. by rewrite <- Hp.
  - unfold entries in *. by rewrite <- Hp.
Qed.

Lemma entries_insert g g' i c fl : slots g' = <[i := c]> (slots g) -> i ∉ fl -> entries g' fl = entries g fl.
Proof.
  intros Hs. induction fl as [|j fl IH]; intros Hi; [done|].
  apply not_elem_of_cons in Hi as [Hj Hi]. rewrite !entries_cons. unfold entry. rewrite Hs, list_lookup_insert_ne by done.
  by rewrite IH.
Qed.

(** Completing the command of slot [i] takes it out of the flight. *)
Lemma book_complete g i fl res : book_ok g (i :: fl) ->
  exists c g', slots g !! i = Some c /\ sendResultToUser g res i = Some g' /\ book_ok g' fl /\
    completed g' = completed g ++ [(cmdIndex c, ResultChan c, res)] /\ issued g' = issued g /\
    (forall l, i ∉ l -> entries g' l = entries g l) /\
    waitProcessCmdNum g' = waitProcessCmdNum g /\ leaving g' = S (leaving g) /\ size (cmdpool g') = size (cmdpool g).
Proof.
  intros [Hn Hr Hs Hq Hi Hz]. apply NoDup_cons in Hn as [Hni Hn]. apply Forall_cons in Hr as [Hri Hr].
  destruct (lookup_lt_is_Some_2 _ _ Hri) as [c Hl]. exists c.
  pose proof (Hs i c Hl) as Hok. rewrite bool_decide_true in Hok by left.
  destruct (release_used c (recvIndex g) Hok) as (c' & Hrel & Hok').
  unfold sendResultToUser. rewrite Hl. simpl. rewrite Hrel. simpl. eexists. split; [done|]. split; [done|].
  set (g' := mkLedger _ _ _ _ _ _ _). assert (slots g' = <[i := c']> (slots g)) as Hsl by done.
  pose proof (entries_insert g g' i c' fl Hsl Hni) as He.
  split; [|split; [done|split; [done|split; [intros l; by apply (entries_insert g g' i c')|done]]]]. split; try done.
  - by rewrite Hsl, length_insert.
  - intros j d Hj. rewrite Hsl in Hj. destruct (decide (i = j)) as [<-|Hij].
    + rewrite list_lookup_insert_eq in Hj by done. injection Hj as <-. by rewrite bool_decide_false.
    + rewrite list_lookup_insert_ne in Hj by done. specialize (Hs j d Hj).
      rewrite (bool_decide_ext (j ∈ i :: fl) (j ∈ fl)) in Hs; [done|]. rewrite elem_of_cons. split; [by intros [->|?]|by right].
  - rewrite He. cbn [completed issued g']. rewrite fmap_app, <- Hq, entries_cons. unfold entry.
    rewrite Hl. simpl. by rewrite <- app_assoc.
  - rewrite He. cbn [issued g']. rewrite entries_cons in Hi. unfold entry in Hi. rewrite Hl in Hi.
    by apply Forall_cons in Hi as [_ Hi].
  - rewrite Hsl. unfold zlen in *. by rewrite length_insert.
Qed.

(** Accepting a command adds its slot to the flight. *)
Lemma book_accept g fl i rq g' b : book_ok g fl -> packageRedisCmd g i rq = Some (g', b) ->
  completed g' = completed g /\ waitProcessCmdNum g' = waitProcessCmdNum g /\ leaving g' = leaving g /\
  size (cmdpool g') = size (cmdpool g) /\
  if b then (i ∉ fl) /\ book_ok g' (i :: fl) /\ (forall l, i ∉ l -> entries g' l = entries g l) /\
            exists id, issued g' = issued g ++ [(id, rq_chan rq, request_parts AppendFloat Fprint rq)] /\
              entry g' i = Some (id, rq_chan rq, request_parts AppendFloat Fprint rq)
  else (i ∉ fl) /\ book_ok g' fl /\ (forall l, i ∉ l -> entries g' l = entries g l) /\ issued g' = issued g.
Proof.
  intros [Hn Hr Hs Hq Hi Hz]. unfold packageRedisCmd. destruct (slots g !! i) as [c|] eqn:Hl; [|done]. simpl.
  pose proof (Hs i c Hl) as Hok. pose proof (lookup_lt_Some _ _ _ Hl) as Hlt.
  destruct (decide (i ∈ fl)) as [Hin|Hni].
  { rewrite bool_decide_true in Hok by done. by rewrite (Get_take_spec c (sendIndex g) true Hok). }
  rewrite bool_decide_false in Hok by done.
  destruct (Get_take_spec c (sendIndex g) false Hok) as (c1 & -> & Hidx & Hok1). cbn [mbind option_bind].
  destruct (package c1 rq) as [c2|] eqn:Hp.
  - destruct (package_keeps _ _ _ Hp) as (Hu & Hb & Hch & Hix). pose proof (package_parts AppendFloat Fprint _ _ _ Hp) as Hparts.
    intros [= <- <-]. do 5 (split; [done|]). set (g' := mkLedger _ _ _ _ _ _ _).
    set (c3 := set_ResultChan c2 (rq_chan rq)). assert (slots g' = <[i := c3]> (slots g)) as Hsl by done.
    pose proof (entries_insert g g' i c3 fl Hsl Hni) as He.
    assert (entry g' i = Some (cmdIndex c2, rq_chan rq, request_parts AppendFloat Fprint rq)) as Hent.
    { unfold entry. rewrite Hsl, list_lookup_insert_eq by done. simpl. unfold c3, set_ResultChan. by rewrite <- Hparts. }
    split; [|split; [intros l; by apply (entries_insert g g' i c3)|by exists (cmdIndex c2)]]. split; try done.
    + by constructor.
    + rewrite Hsl, length_insert. by constructor.
    + intros j d Hj. rewrite Hsl in Hj. destruct (decide (i = j)) as [<-|Hij].
      * rewrite list_lookup_insert_eq in Hj by done. injection Hj as <-. rewrite bool_decide_true by left.
        unfold slot_ok, c3, set_ResultChan in *. simpl. by rewrite Hu, Hb, Hch.
      * rewrite list_lookup_insert_ne in Hj by done. specialize (Hs j d Hj).
        rewrite (bool_decide_ext (j ∈ i :: fl) (j ∈ fl)); [done|]. rewrite elem_of_cons. split; [by intros [->|?]|by right].
    + rewrite entries_cons, Hent, fmap_cons, He. cbn [completed issued g'].
      rewrite fmap_app, <- Hq. simpl. solve_Permutation.
    + rewrite entries_cons, Hent, He. cbn [issued g']. constructor.
      * apply elem_of_app. right. by apply list_elem_of_singleton.
      * eapply Forall_impl; [exact Hi|]. intros e Hin. apply elem_of_app. by left.
    + rewrite Hsl. unfold zlen in *. by rewrite length_insert.
  - destruct (release_used c1 (recvIndex g) Hok1) as (c' & -> & Hok'). simpl. intros [= <- <-]. do 4 (split; [done|]).
    set (g' := mkLedger _ _ _ _ _ _ _). assert (slots g' = <[i := c']> (slots g)) as Hsl by done.
    pose proof (entries_insert g g' i c' fl Hsl Hni) as He. split; [done|].
    split; [|split; [intros l; by apply (entries_insert g g' i c')|done]]. split; try done.
    + by rewrite Hsl, length_insert.
    + intros j d Hj. rewrite Hsl in Hj. destruct (decide (i = j)) as [<-|Hij].
      * rewrite list_lookup_insert_eq in Hj by done. injection Hj as <-. by rewrite bool_decide_false.
      * rewrite list_lookup_insert_ne in Hj by done. by apply Hs.
    + by rewrite He.
    + by rewrite He.
    + rewrite Hsl. unfold zlen in *. by rewrite length_insert.
Qed.

(** ** Every command is completed exactly once *)

Definition hand (pc : send_pc) : list nat := match pc with SWrite i | SWait i | SSend i _ | SFail i => [i] | _ => [] end.

(** The commands in the present [waitChan] and in those before it. *)
Definition stranded (n : net) : list nat := concat (items <$> olds n).
Definition wait_items (n : net) : list nat := items (waitChan n) ++ stranded n.

(** The slots of the commands accepted and not completed. *)
Definition inflight (s : RedisCon) : list nat :=
  counting s ++ entering s ++ items (cmdChan (con s)) ++ hand (spc s) ++ wait_items (con s).

(** After a failed [Flush] the send loop is about to complete a command that is
    not in its hand; without such a failure it is never there. *)
Definition sound_pc (pc : send_pc) : Prop := match pc with SDrop _ => False | _ => True end.

Record once (s : RedisCon) : Prop := mkOnce {
  on_book : book_ok (book s) (inflight s);
  on_count : waitProcessCmdNum (book s) = zlen (inflight s) - zlen (counting s) + Z.of_nat (leaving (book s));
  on_pc : sound_pc (spc s)
}.

Lemma concat_insert (l : list (chan nat)) k ch ch' : l !! k = Some ch ->
  exists rest, concat (items <$> l) ≡ₚ items ch ++ rest /\ concat (items <$> <[k := ch']> l) ≡ₚ items ch' ++ rest.
Proof.
  revert k. induction l as [|c l IH]; intros k; [done|]. destruct k as [|k]; cbn [lookup list_lookup insert list_insert].
  - intros [= ->]. by exists (concat (items <$> l)).
  - intros (rest & H1 & H2)%IH. exists (items c ++ rest). cbn [fmap list_fmap concat]. rewrite H1, H2. split; solve_Permutation.
Qed.

(** Storing a wait channel back changes what it holds and nothing else. *)
Lemma set_wchan_items n k ch : exists rest, wait_items n ≡ₚ items (wchan n k) ++ rest /\
  wait_items (set_wchan n k ch) ≡ₚ items ch ++ rest.
Proof.
  unfold set_wchan, wchan, wait_items, stranded, gen. destruct (k <? length (olds n))%nat eqn:E.
  - apply Nat.ltb_lt in E. destruct (lookup_lt_is_Some_2 _ _ E) as [c Hc].
    destruct (concat_insert _ _ _ ch Hc) as (rest & H1 & H2). exists (items (waitChan n) ++ rest).
    rewrite (nth_lookup_Some _ _ _ _ Hc). simpl. rewrite H1, H2. split; solve_Permutation.
  - apply Nat.ltb_ge in E. rewrite nth_overflow by done. by exists (stranded n).
Qed.

Lemma set_wchan_cmds n k ch : cmdChan (set_wchan n k ch) = cmdChan n.
Proof. unfold set_wchan. by destruct (_ <? _)%nat. Qed.

Lemma set_wchan_same n k ch : items ch = items (wchan n k) -> wait_items (set_wchan n k ch) ≡ₚ wait_items n.
Proof. intros E. destruct (set_wchan_items n k ch) as (rest & H1 & H2). by rewrite H1, H2, E. Qed.

Lemma closed_chan_items ch : items (closed_chan ch) = items ch.
Proof. unfold closed_chan, close_chan. by destruct (chclosed ch). Qed.

Lemma book_completes g i fl fl' res g' : book_ok g fl -> fl ≡ₚ i :: fl' -> sendResultToUser g res i = Some g' ->
  book_ok g' fl' /\ waitProcessCmdNum g' = waitProcessCmdNum g /\ leaving g' = S (leaving g).
Proof.
  intros Hb Hp Hs. apply (book_perm _ _ _ Hp) in Hb.
  destruct (book_complete g i fl' res Hb) as (c & g1 & _ & Hs' & Hb' & _ & _ & _ & Hw & Hl & _). rewrite Hs in Hs'. by injection Hs' as <-.
Qed.

(** Steps that move commands about. *)
Lemma once_move s s' : once s -> book s' = book s -> counting s' = counting s ->
  (sound_pc (spc s) -> sound_pc (spc s')) -> inflight s' ≡ₚ inflight s -> once s'.
Proof.
  intros [Hb Hc Hpc] Eb Ec Hs Hp. split; [| |by apply Hs]; rewrite Eb.
  - revert Hb. by apply book_perm.
  - rewrite Hc, Ec. unfold zlen. by rewrite Hp.
Qed.

(** Steps that complete a command. *)
Lemma once_done s s' i res : once s -> sendResultToUser (book s) res i = Some (book s') -> counting s' = counting s ->
  (sound_pc (spc s) -> sound_pc (spc s')) -> inflight s ≡ₚ i :: inflight s' -> once s'.
Proof.
  intros [Hb Hc Hpc] Es Ec Hs Hp. destruct (book_completes _ _ _ _ _ _ Hb Hp Es) as (Hb' & Hw & Hl).
  split; [done| |by apply Hs].
  rewrite Hw, Hl, Hc, Ec. unfold zlen. rewrite Hp. cbn [length]. lia.
Qed.

(** [netClose] leaves channels alone. *)
Lemma netClose_keeps n : cmdChan (netClose n) = cmdChan n /\ waitChan (netClose n) = waitChan n /\ olds (netClose n) = olds n.
Proof. unfold netClose. by destruct (_ =? _). Qed.

Lemma netClose_items n : wait_items (netClose n) = wait_items n.
Proof. unfold wait_items, stranded. by destruct (netClose_keeps n) as (_ & -> & ->). Qed.

Lemma once_write w s i s' : once s -> spc s = SWrite i -> write_step w s i = Some s' -> once s'.
Proof.
  intros Ho Hpc. unfold write_step. destruct (slots (book s) !! i) as [c|]; [|done]. simpl.
  destruct (netClose_keeps (con s)) as [Hc _]. pose proof (netClose_items (con s)) as Hw.
  destruct (slot_parts _ _ c); [destruct w|]; intros [= <-]; apply (once_move s); try done;
    unfold inflight; simpl; by rewrite Hpc, ?Hc, ?Hw.
Qed.

Lemma once_wait s i k s' : once s -> spc s = SSend i k -> wait_step s i k = Some s' -> once s'.
Proof.
  intros Ho Hpc. unfold wait_step. destruct (send _ i) as [[ch|]|] eqn:E; [|done|]; intros [= <-];
    apply (once_move s); try done; unfold inflight; simpl; rewrite Hpc; simpl; [|done].
  apply send_value in E as (E & _). destruct (set_wchan_items (con s) k ch) as (rest & H1 & H2).
  rewrite set_wchan_cmds, H1, H2, E. solve_Permutation.
Qed.

Lemma once_send_failed s i pc s' : once s -> hand (spc s) = [i] -> hand pc = [] -> sound_pc pc ->
  send_failed s i pc = Some s' -> once s'.
Proof.
  intros Ho Hh Hp Hs. unfold send_failed. destruct (closeUserChan (book s) i) as [g|] eqn:E; [|done]. intros [= <-].
  apply (once_done s _ i closed_result); try done. unfold inflight. simpl. rewrite Hh, Hp. solve_Permutation.
Qed.

Lemma once_send w s s' : once s -> processReceiveUser w true s = Some s' -> once s'.
Proof.
  intros Ho. pose proof (on_pc _ Ho) as Hs. unfold processReceiveUser, Flush.
  destruct (spc s) as [| | | |i|i|i k|i|i| |i|] eqn:Hpc; try done.
  1-3: intros [= <-]; apply (once_move s); try done; unfold inflight; simpl; rewrite ?Hpc; by case_match.
  - destruct (recv (cmdChan (con s))) as [| |i ch] eqn:E; [done| |]; intros [= <-];
      apply (once_move s); try done; unfold inflight; simpl; rewrite Hpc; [done|].
    apply recv_value in E as (E & _). rewrite E. unfold wait_items. simpl. solve_Permutation.
  - by apply once_write.
  - intros [= <-]. apply (once_move s); try done. unfold inflight. simpl. by rewrite Hpc.
  - by apply once_wait.
  - destruct (unflushed (line s)); [|destruct (hung _ && _); [done|]]; intros [= <-];
      apply (once_move s); try done; unfold inflight; simpl; by rewrite Hpc.
  - apply once_send_failed; try done. by rewrite Hpc.
  - intros [= <-]. apply (once_move s); try done. unfold inflight. simpl. rewrite Hpc, netClose_items.
    by destruct (netClose_keeps (con s)) as [-> _].
Qed.

Lemma once_recv s s' : once s -> processReceiveRedis s = Some s' -> once s'.
Proof.
  intros Ho. unfold processReceiveRedis. destruct (rpc s) as [| | | |k|id res|id res k|]; try done.
  1-4,6: intros [= <-]; by apply (once_move s).
  - destruct (conns (line s) !! k) as [c|]; [|done]. simpl. destruct (replies c) as [|[id r] l]; [done|]. intros [= <-].
    by apply (once_move s).
  - destruct (recv (wchan (con s) k)) as [| |i ch] eqn:E; [done|intros [= <-]; by apply (once_move s)|].
    apply recv_value in E as (E & _). destruct (sendResultToUser (book s) res i) as [g|] eqn:Es; [|done].
    intros [= <-]. apply (once_done s _ i res); try done. unfold inflight. simpl.
    destruct (set_wchan_items (con s) k ch) as (rest & H1 & H2). rewrite set_wchan_cmds, H1, H2, E. solve_Permutation.
Qed.

(** A round of [cleanChan] completes the command it takes out. *)
Lemma once_clean_cmds s pc s' : once s -> clean_cmds s pc = Some s' -> once s'.
Proof.
  intros Ho. unfold clean_cmds, cleanChan, pop. destruct (recv _) as [| |i ch] eqn:E.
  1-2: intros [= <-]; by apply (once_move s).
  apply recv_value in E as (E & _). destruct (closeUserChan (book s) i) as [g|] eqn:Eg; [|done]. intros [= <-].
  apply (once_done s _ i closed_result); try done. unfold inflight, wait_items. simpl. rewrite E. solve_Permutation.
Qed.

Lemma once_clean_wait s k pc s' : once s -> clean_wait s k pc = Some s' -> once s'.
Proof.
  intros Ho. unfold clean_wait, cleanChan, pop. destruct (recv _) as [| |i ch] eqn:E.
  1-2: intros [= <-]; by apply (once_move s).
  apply recv_value in E as (E & _). destruct (closeUserChan (book s) i) as [g|] eqn:Eg; [|done]. intros [= <-].
  apply (once_done s _ i closed_result); try done. unfold inflight. simpl.
  destruct (set_wchan_items (con s) k ch) as (rest & H1 & H2). rewrite set_wchan_cmds, H1, H2, E. solve_Permutation.
Qed.

(** A new [waitChan] leaves the commands of the old one where they are. *)
Lemma resetNet_items ok p n w : cmdChan (resetNet ok p n w).1.1 = cmdChan n /\
  wait_items (resetNet ok p n w).1.1 ≡ₚ wait_items n.
Proof.
  destruct p; try done. split; [done|]. unfold wait_items, stranded. simpl. rewrite fmap_app, concat_app. simpl.
  solve_Permutation.
Qed.

Lemma Close_items p n : cmdChan (Close p n).1 = cmdChan n /\ wait_items (Close p n).1 = wait_items n.
Proof. destruct p; try done. simpl. by destruct (netClose_keeps n) as [-> _]; rewrite netClose_items. Qed.

Lemma once_except ok s s' : once s -> exceptionProcess ok s = Some s' -> once s'.
Proof.
  intros Ho. unfold exceptionProcess. destruct (xpc s) eqn:Hx; try done;
    try (by apply once_clean_cmds); try (by apply once_clean_wait); try (intros [= <-]; by apply (once_move s)).
  - destruct (recv (signal (con s))) as [| |x ch]; [done..|]. intros [= <-]. by apply (once_move s).
  - intros [= <-]. apply (once_move s); try done. unfold inflight. simpl. by rewrite closed_chan_items.
  - intros [= <-]. apply (once_move s); try done. unfold inflight. simpl.
    by rewrite set_wchan_cmds, set_wchan_same by apply closed_chan_items.
  - intros [= <-]. apply (once_move s); try done. unfold tryChangeLifeCycle. by case_match.
  - intros [= <-]. apply (once_move s); try done. unfold inflight. simpl.
    by rewrite set_wchan_cmds, set_wchan_same by apply closed_chan_items.
  - pose proof (resetNet_items ok p (con s) (line s)) as [H1 H2]. destruct (resetNet _ _ _ _) as [[n w] out].
    intros [= <-]. apply (once_move s); try done. unfold inflight. simpl in *. by rewrite H1, H2.
  - pose proof (Close_items p (con s)) as [H1 H2]. destruct (Close p (con s)) as [n q].
    intros [= <-]. apply (once_move s); try done. unfold inflight. simpl in *. by rewrite H1, H2.
Qed.

Lemma once_timeout late ok s : once s -> once (processTimeOut late ok s).
Proof.
  intros Ho. unfold processTimeOut. destruct (tpc s) as [|r|p]; [by apply (once_move s)..|].
  pose proof (resetNet_items ok p (con s) (line s)) as [H1 H2]. destruct (resetNet _ _ _ _) as [[n w] out].
  apply (once_move s); try done. unfold inflight. simpl in *. by rewrite H1, H2.
Qed.

Lemma once_call s checked rq : once s -> no_args rq = false -> once (sendToCmdChan s checked rq).
Proof.
  intros Ho Hn. unfold sendToCmdChan. destruct (checked && _); [done|]. rewrite Hn.
  destruct Ho as [[Hnd Hr Hs Hq Hi Hz] Hx Hpc]. unfold Get_turn. rewrite (proj2 (Z.eqb_neq _ _) (proj1 Hz)).
  split; [|done|done]. by split.
Qed.

Lemma once_get s k s' : once s -> caller_get s k = Some s' -> once s'.
Proof.
  intros [Hb Hr Hpc]. unfold caller_get. destruct (getting s !! k) as [[i rq]|]; [|done]. simpl.
  destruct (packageRedisCmd (book s) i rq) as [[g b]|] eqn:E; [|done]. intros [= <-].
  apply (book_accept _ _ _ _ _ _ Hb) in E as (_ & Hw & Hl & _ & E). destruct b; destruct E as (_ & E & _); split; simpl; try done.
  - revert E. apply book_perm. unfold inflight. simpl. solve_Permutation.
  - rewrite Hw, Hl, Hr. unfold inflight, zlen. simpl. rewrite !length_app. cbn [length]. lia.
  - by rewrite Hw, Hl, Hr.
Qed.

Lemma once_counted s k s' : once s -> caller_count s k = Some s' -> once s'.
Proof.
  intros [Hb Hr Hpc]. unfold caller_count. destruct (counting s !! k) as [i|] eqn:Ei; [|done]. intros [= <-].
  apply delete_Permutation in Ei. split; simpl; try done.
  - destruct Hb as [? ? ? ? ? ?]. apply (book_perm _ (inflight s)); [|by split]. unfold inflight. simpl.
    rewrite Ei at 1. solve_Permutation.
  - rewrite Hr. unfold inflight, zlen. simpl. apply Permutation_length in Ei. rewrite !length_app. cbn [length] in *. lia.
Qed.

Lemma once_push s k s' : once s -> caller_push s k = Some s' -> once s'.
Proof.
  intros Ho. unfold caller_push. destruct (entering s !! k) as [i|] eqn:Ei; [|done]. simpl.
  apply delete_Permutation in Ei. destruct (send (cmdChan (con s)) i) as [[ch|]|] eqn:E; [|done|].
  - apply send_value in E as (E & _). intros [= <-]. apply (once_move s); try done. unfold inflight, wait_items. simpl.
    rewrite E. revert Ei. generalize (delete k (entering s)). intros l ->. unfold stranded. simpl. solve_Permutation.
  - destruct (closeUserChan (book s) i) as [g|] eqn:Eg; [|done]. intros [= <-].
    apply (once_done s _ i closed_result); try done. unfold inflight. simpl. rewrite Ei at 1. solve_Permutation.
Qed.

Lemma once_uncount s g : once s -> uncount_cmd (book s) = Some g ->
  once (caller s (con s) g (getting s) (counting s) (entering s)).
Proof.
  intros [[? ? ? ? ? ?] Hr Hpc]. unfold uncount_cmd. destruct (leaving (book s)) as [|l]; [done|]. intros [= <-].
  split; [by split| |done]. simpl.
  rewrite Hr. unfold inflight. simpl. lia.
Qed.

(** The actions of a run in which no [Flush] fails and every command has
    arguments. *)
Definition plain (a : action) : bool :=
  match a with
  | Call _ rq => negb (no_args rq)
  | Send _ fok => fok
  | _ => true
  end.

Lemma once_con s n l : once s -> cmdChan n = cmdChan (con s) -> wait_items n = wait_items (con s) -> once (with_con s n l).
Proof. intros Ho Hc Hw. apply (once_move s); try done. unfold inflight. simpl. by rewrite Hc, Hw. Qed.

Lemma SendExceptionSignal_keeps n sig n' : SendExceptionSignal n sig = Some n' ->
  cmdChan n' = cmdChan n /\ wait_items n' = wait_items n.
Proof.
  unfold SendExceptionSignal. destruct (signalling n); [done|]. destruct (try_send _ _) as [[ch b]|]; [|done].
  by intros [= <-].
Qed.

(** Every step keeps the invariant. *)
Lemma once_step a s s' : plain a = true -> once s -> step a s = Some s' -> once s'.
Proof.
  intros Hp Ho. destruct a as [ck rq|k|k|k| |w f| |k r| |e|r|ok|l ok| | | |k|]; simpl in *.
  - intros [= <-]. apply once_call; [done|]. by apply negb_true_iff.
  - by apply once_get.
  - by apply once_counted.
  - by apply once_push.
  - destruct (uncount_cmd (book s)) as [g|] eqn:Eg; [|done]. intros [= <-]. by apply once_uncount.
  - subst f. by apply once_send.
  - unfold buffer_spills. destruct (unflushed _); [done|]. destruct (_ && _); [done|]. intros [= <-]. by apply (once_move s).
  - unfold server_answers. destruct (conns _ !! k) as [c|]; [|done]. simpl. destruct (atserver c) as [|[id p] rest]; [done|].
    intros [= <-]. by apply (once_move s).
  - by apply once_recv.
  - unfold receive_fails. destruct (rpc s); try done. intros [= <-]. apply (once_move s); try done. unfold inflight. simpl.
    rewrite netClose_items. by destruct (netClose_keeps (con s)) as [-> _].
  - unfold receive_torn. destruct (rpc s); try done. destruct (_ =? _)%nat; [done|]. intros [= <-]. by apply (once_move s).
  - by apply once_except.
  - intros [= <-]. by apply once_timeout.
  - unfold hang_up. destruct (closing (con s)); [done|]. intros [= <-]. by apply once_con.
  - destruct (SendExceptionSignal _ _) as [n|] eqn:E; [|done]. apply SendExceptionSignal_keeps in E as [Hc Hw].
    intros [= <-]. by apply once_con.
  - intros [= <-]. by apply once_con.
  - unfold caller_closes. destruct (closers s !! k) as [p|]; [|done]. simpl.
    pose proof (Close_items p (con s)) as [H1 H2]. destruct (Close p (con s)) as [n q]. intros [= <-]. by apply once_con.
  - intros [= <-]. by apply once_con.
Qed.

Lemma once_run acts s s' : Forall (fun a => plain a = true) acts -> once s -> run acts s = Some s' -> once s'.
Proof.
  intros Hp. revert s. induction Hp as [|a acts Ha _ IH]; intros s Ho; simpl; [by intros [= <-]|].
  destruct (step a s) as [s1|] eqn:E; [|done]. simpl. apply IH. by eapply once_step.
Qed.

Lemma once_init c w : 0 < (w + c) * 10 < 2 ^ 32 -> once (init c w).
Proof.
  intros H. split; [|done|done]. split; simpl; try done.
  - constructor.
  - unfold slots. simpl. intros i cmd Hl. apply lookup_replicate in Hl as [-> _]. by apply fresh_slot_ok.
  - unfold slots, zlen. simpl. rewrite wrap_small by lia. rewrite length_replicate. lia.
Qed.

(** C15: no accepted command is completed twice or lost sight of.  In every
    interleaving of the single steps of callers, send loop, servers, receive
    loop, [exceptionProcess] (lost connections, reconnects, failed dials),
    [processTimeOut] with its resets, [Close] and [CloseFriendly], in which no
    [Flush] fails and no command lacks its arguments: the commands completed and
    those still in flight are together exactly the commands accepted, each
    command in flight has its own pool slot, and [waitProcessCmdNum] is their
    number but for the commands about to be counted and those completed and
    about to be taken off.  In flight are also the commands left behind in a
    [waitChan] that a reconnect or a reset has replaced. *)
Theorem commands_complete_once (cmdChanCap waitChanCap : Z) (acts : list action) (s : RedisCon)
    (Hcap : 0 < cmdChanCap /\ 0 < waitChanCap /\ (waitChanCap + cmdChanCap) * 10 < 2 ^ 32)
    (Hplain : Forall (fun a => plain a = true) acts)
    (Hrun : run acts (NewRedisCon cmdChanCap waitChanCap) = Some s) :
  (completed (book s)).*1 ++ (entries (book s) (inflight s)).*1 ≡ₚ (issued (book s)).*1 /\
  length (entries (book s) (inflight s)) = length (inflight s) /\ NoDup (inflight s) /\
  waitProcessCmdNum (book s) = zlen (inflight s) - zlen (counting s) + Z.of_nat (leaving (book s)).
Proof.
  destruct Hcap as (Hc & Hw & Hz). unfold NewRedisCon in Hrun.
  rewrite (proj2 (Z.leb_gt cmdChanCap 0)), (proj2 (Z.leb_gt waitChanCap 0)) in Hrun by lia.
  destruct (once_run _ _ _ Hplain (once_init cmdChanCap waitChanCap ltac:(lia)) Hrun) as [Hb Hcnt _].
  split; [apply bk_perm, Hb|]. split; [|split; [by apply bk_nodup in Hb|done]].
  pose proof (bk_range _ _ Hb) as Hr. revert Hr. generalize (inflight s). intros l.
  induction 1 as [|i l Hi _ IH]; [done|]. rewrite entries_cons. unfold entry.
  destruct (lookup_lt_is_Some_2 _ _ Hi) as [c ->]. simpl. by rewrite IH.
Qed.

End Connection.

Arguments RedisCon : clear implicits.
Arguments ledger : clear implicits.
Arguments action : clear implicits.

(** The tests of the witnesses: one-byte arguments, no floats or other values. *)
Definition get_request (key : Z) (ch : nat) : request unit unit :=
  mkRequest (str "GET") ARGSNUM1 (ABytes [key]) ANil ANil None (Some ch).

Abbreviation run0 := (run (F := unit) (V := unit) (fun _ => []) (fun _ => [])).

(** A call up to [cmdChan]; the send loop from its top back to it. *)
Definition call_cmd (key : Z) (ch : nat) : list (action unit unit) :=
  [Call true (get_request key ch); Got 0; Counted 0; Pushed 0].
Definition send_cmd : list (action unit unit) := replicate 6 (Send true true).

(** One command is sent and answered, but reading fails; [exceptionProcess]
    cleans up and reconnects while the next command waits. *)
Definition failing_run : list (action unit unit) :=
  call_cmd 97 1 ++ call_cmd 98 2 ++ [Recv; Recv] ++ send_cmd ++
  [Serve 0 (RInt 5); RecvFails EShortLine; HangUp; Signal; Except true; Except true; Except true; Except true;
   Except true; Except true; Except true; Except true; Except true; Uncounted] ++
  replicate 14 (Except true) ++ [Call true (get_request 99 3)].

Lemma commands_complete_once_witness :
  exists s, run0 failing_run (NewRedisCon 2 2) = Some s /\ xpc s = XSignal /\ gen (con s) = 1%nat /\
    ((completed (book s)).*1 ++ (entries (fun _ => []) (fun _ => []) (book s) (inflight s)).*1 ≡ₚ (issued (book s)).*1 /\
     length (entries (fun _ => []) (fun _ => []) (book s) (inflight s)) = length (inflight s) /\ NoDup (inflight s) /\
     waitProcessCmdNum (book s) = zlen (inflight s) - zlen (counting s) + Z.of_nat (leaving (book s))).
Proof.
  destruct (run0 failing_run (NewRedisCon 2 2)) as [s|] eqn:E; [|vm_compute in E; discriminate].
  exists s. split; [done|]. split; [vm_compute in E; by injection E as <-|]. split; [vm_compute in E; by injection E as <-|].
  apply (commands_complete_once _ _ 2 2 failing_run s); [lia| |done].
  repeat constructor.
Defined.
