(* ===== verification/Pipeline.v ===== *)
(** * redis/redisConn.go: pipelining

    Many callers share one connection: commands are sent without waiting for
    earlier replies, and replies are paired with commands by their order.  The
    file proves, for every interleaving on a connection that works, that each
    caller gets the server's reply to its own command, and that the calls made
    are completed however the goroutines are scheduled. *)

From S2P Require Import Prelude Chan Resp Respread Cmdpool Redisconn.

Section Pipeline.
Context {F V : Type} (AppendFloat : F -> list Z) (Fprint : V -> list Z).
Implicit Types (s : RedisCon F V) (rq : request F V) (g : ledger F V).

Abbreviation step := (step AppendFloat Fprint).
Abbreviation run := (run AppendFloat Fprint).
Abbreviation entries := (entries AppendFloat Fprint).
Abbreviation once := (once AppendFloat Fprint).

(** The actions on a working connection: no failure, no [Close], no reset by
    [processTimeOut], commands that can be written. *)
Definition healthy (a : action F V) : Prop :=
  match a with
  | Call _ rq => no_args rq = false /\ is_Some (request_parts AppendFloat Fprint rq)
  | Send wok fok => wok = true /\ fok = true
  | TimeOut late _ => late = false
  | RecvFails _ | DoClose => False
  | _ => True
  end.

(** The one connection of such a run. *)
Definition at0 (w : wire) : list (Z * list (list Z)) := match conns w with [c] => atserver c | _ => [] end.
Definition rep0 (w : wire) : list (Z * reply) := match conns w with [c] => replies c | _ => [] end.

(** The commands written whose reply has not been paired yet, in order. *)
Definition waiting s : list nat :=
  items (waitChan (con s)) ++ match spc s with SWait i | SSend i _ => [i] | _ => [] end.

Definition held s : list (Z * Result) :=
  match rpc s with RPair (Some id) res | RTake (Some id) res _ => [(id, res)] | _ => [] end.

Definition answer_of (a : Z * list (list Z) * reply) : Z * Result := (a.1.1, reply_result a.2).

(** [log] are the commands written so far, in order: their index, channel and
    parts. *)
Record paired s (log : list (Z * option nat * list (list Z))) : Prop := mkPaired {
  pr_done : (completed (book s)).*1 ++ (entries (book s) (waiting s)).*1 = log.*1;
  pr_wire : (fun e => (e.1.1, e.2)) <$> log = (answered (line s)).*1 ++ at0 (line s) ++ unflushed (line s);
  pr_answers : answer_of <$> answered (line s) =
    ((fun c => (c.1.1, c.2)) <$> completed (book s)) ++ held s ++ ((fun a => (a.1, reply_result a.2)) <$> rep0 (line s));
  pr_issued : Forall (fun e => (e.1, Some e.2) ∈ issued (book s)) log
}.

(** Where the loops are, and that no goroutine is inside a failure. *)
Definition send_pc_ok (pc : send_pc) (unflushed : list (Z * list (list Z))) : Prop :=
  match pc with
  | STop | SSelect | SWrite _ => unflushed = []
  | SWait _ | SFlush _ | SSend _ O => (length unflushed <= 1)%nat
  | _ => False
  end.

Definition recv_pc_ok (pc : recv_pc) : Prop :=
  match pc with RTop | RCall | RRead O | RPair (Some _) _ | RTake (Some _) _ O => True | _ => False end.

Definition net_ok (n : net) : Prop :=
  IsNetClose n = false /\ chclosed (cmdChan n) = false /\ chclosed (waitChan n) = false /\ olds n = [] /\
  (0 < cap (cmdChan n))%nat /\ (0 < cap (waitChan n))%nat /\
  items (signal n) = [] /\ chclosed (signal n) = false /\ closing n = O /\ signalling n = O /\ hung n = false.

Definition line_ok (w : wire) : Prop := conns w = [mkConn (at0 w) (rep0 w)] /\ br w = O /\ bw w = O.

Record works s : Prop := mkWorks {
  wk_net : net_ok (con s);
  wk_line : line_ok (line s);
  wk_send : send_pc_ok (spc s) (unflushed (line s));
  wk_recv : recv_pc_ok (rpc s);
  wk_exc : xpc s = XSignal;
  wk_time : match tpc s with TReset _ => False | _ => True end;
  wk_close : closers s = []
}.

(** What a caller that waits for slot [e.1] asks for can be written. *)
Definition waits_ok g (e : nat * request F V) : Prop :=
  is_Some (request_parts AppendFloat Fprint e.2) /\ Z.of_nat e.1 < size (cmdpool g).

Record piped s : Prop := mkPiped {
  pp_once : once s;
  pp_works : works s;
  pp_getting : Forall (waits_ok (book s)) (getting s);
  pp_parts : Forall (fun e => is_Some e.2) (issued (book s));
  pp_log : exists log, paired s log
}.

Lemma waiting_inflight s i : i ∈ waiting s -> i ∈ inflight s.
Proof.
  unfold waiting, inflight, hand, wait_items. rewrite !elem_of_app. destruct (spc s); rewrite ?elem_of_nil; tauto.
Qed.

Lemma hand_inflight s i : i ∈ hand (spc s) -> i ∈ inflight s.
Proof. unfold inflight. rewrite !elem_of_app. tauto. Qed.

(** Steps that touch neither the ledger, nor the wire, nor what waits. *)
Lemma paired_same s s' log : book s' = book s -> line s' = line s -> waiting s' = waiting s -> held s' = held s ->
  paired s log -> paired s' log.
Proof. intros Hb Hl Hw Hh [H1 H2 H3 H4]. split; by rewrite ?Hb, ?Hl, ?Hw, ?Hh. Qed.

Lemma piped_same s s' : piped s -> once s' -> works s' -> getting s' = getting s -> book s' = book s -> line s' = line s ->
  waiting s' = waiting s -> held s' = held s -> piped s'.
Proof.
  intros [Ho Hw Hg Hp [log Hlog]] Ho' Hw' Eg Eb El Ewt Eh. split; rewrite ?Eg, ?Eb; try done.
  exists log. by apply (paired_same s).
Qed.

Lemma piped_call s ck rq : piped s -> healthy (Call ck rq) -> piped (sendToCmdChan s ck rq).
Proof.
  intros [Ho Hw Hg Hp [log Hlog]] [Hn Hr]. pose proof (once_call _ _ s ck rq Ho Hn) as Ho'.
  unfold sendToCmdChan in *. destruct (ck && _); [by split; [..|exists log]|]. rewrite Hn in *. unfold Get_turn in *.
  destruct (bk_size _ _ _ _ (on_book _ _ _ Ho)) as [Hz Hlen].
  rewrite (proj2 (Z.eqb_neq _ _) Hz) in *.
  split; [done|by destruct Hw| |done|exists log; by destruct Hlog].
  simpl. apply Forall_app. split; [done|]. constructor; [|done]. split; [done|]. simpl.
  pose proof (Z.mod_pos_bound (u32 (getIndex (cmdpool (book s)) + 1)) (size (cmdpool (book s)))) as Hm.
  pose proof (zlen_nonneg (slots (book s))). lia.
Qed.

Lemma piped_got s k s' : piped s -> caller_get AppendFloat Fprint s k = Some s' -> piped s'.
Proof.
  intros [Ho Hw Hg Hp [log Hlog]] E. pose proof (once_get _ _ _ _ _ Ho E) as Ho'. unfold caller_get in E.
  destruct (getting s !! k) as [[i rq]|] eqn:Hk; [|done]. simpl in E.
  destruct (packageRedisCmd AppendFloat Fprint (book s) i rq) as [[g b]|] eqn:Ep; [|done]. injection E as <-.
  apply (book_accept _ _ _ _ _ _ _ _ (on_book _ _ _ Ho)) in Ep as (Hc & _ & _ & Hsz & Ep).
  destruct (proj1 (Forall_lookup _ _) Hg _ _ Hk) as [Hrq _]. simpl in Hrq.
  assert (forall l, (forall j, j ∈ l -> j ∈ inflight s) -> entries g l = entries (book s) l) as Hent.
  { intros l Hl. destruct b; destruct Ep as (Hni & _ & He & _); apply He; intros Hin; by apply Hni, Hl. }
  assert (exists new, issued g = issued (book s) ++ new /\ Forall (fun e => is_Some e.2) new) as (new & Hnew & Hsome).
  { destruct b; [destruct Ep as (_ & _ & _ & id & -> & _)|destruct Ep as (_ & _ & _ & ->)].
    - eexists. split; [done|]. by repeat constructor.
    - exists []. by rewrite app_nil_r. }
  split; [done|by destruct Hw| | |].
  - apply Forall_delete. eapply Forall_impl; [exact Hg|]. intros e [He1 He2]. split; [done|]. simpl. by rewrite Hsz.
  - simpl. rewrite Hnew. by apply Forall_app.
  - exists log. destruct Hlog as [H1 H2 H3 H4]. split; simpl; try done.
    + rewrite Hc. unfold waiting in *. simpl. rewrite Hent; [done|]. intros j. apply waiting_inflight.
    + by rewrite Hc.
    + rewrite Hnew. eapply Forall_impl; [exact H4|]. intros e He. apply elem_of_app. by left.
Qed.

(** Counting a command, and taking it off the counter, touch only the counter. *)
Lemma piped_book s g cnt ent : piped s -> once (caller s (con s) g (getting s) cnt ent) ->
  cmdpool g = cmdpool (book s) -> issued g = issued (book s) -> completed g = completed (book s) ->
  piped (caller s (con s) g (getting s) cnt ent).
Proof.
  intros [Ho Hw Hg Hp [log [H1 H2 H3 H4]]] Ho' Hcp Hi Hc. split; try done; simpl.
  - by destruct Hw.
  - eapply Forall_impl; [exact Hg|]. intros e [He1 He2]. split; [done|]. simpl. by rewrite Hcp.
  - by rewrite Hi.
  - exists log. assert (forall l, entries g l = entries (book s) l) as Hent.
    { induction l as [|i l IH]; [done|]. rewrite !entries_cons. unfold entry, slots. by rewrite Hcp, IH. }
    split; simpl; rewrite ?Hc, ?Hi; try done. unfold waiting. simpl. by rewrite Hent.
Qed.

Lemma piped_counted s k s' : piped s -> caller_count s k = Some s' -> piped s'.
Proof.
  intros Hpp E. pose proof (once_counted _ _ _ _ _ (pp_once _ Hpp) E) as Ho'. unfold caller_count in E.
  destruct (counting s !! k); [|done]. injection E as <-. by apply piped_book.
Qed.

Lemma piped_uncounted s g : piped s -> uncount_cmd (book s) = Some g ->
  piped (caller s (con s) g (getting s) (counting s) (entering s)).
Proof.
  intros Hpp E. pose proof (once_uncount _ _ _ _ (pp_once _ Hpp) E) as Ho'. unfold uncount_cmd in E.
  destruct (leaving (book s)); [done|]. injection E as <-. by apply piped_book.
Qed.

Ltac split_works H := destruct H as [(? & ? & ? & ? & ? & ? & ? & ? & ? & ? & ?) ? ? ? ? ? ?];
  split; simpl; try done; unfold net_ok; simpl; split_and?; try done.

Lemma piped_pushed s k s' : piped s -> caller_push s k = Some s' -> piped s'.
Proof.
  intros Hpp E. pose proof (once_push _ _ _ _ _ (pp_once _ Hpp) E) as Ho'. pose proof (pp_works _ Hpp) as Hw.
  unfold caller_push in E. destruct (entering s !! k) as [i|]; [|done]. simpl in E.
  unfold send in E. rewrite (proj1 (proj2 (wk_net _ Hw))) in E. destruct (full _); [done|]. injection E as <-.
  apply (piped_same s); try done. split_works Hw.
Qed.

Lemma entry_parts s i c : piped s -> i ∈ inflight s -> slots (book s) !! i = Some c ->
  exists parts, slot_parts AppendFloat Fprint c = Some parts /\
    (cmdIndex c, ResultChan c, Some parts) ∈ issued (book s).
Proof.
  intros [Ho _ _ Hp _] Hi Hl. pose proof (bk_issued _ _ _ _ (on_book _ _ _ Ho)) as Hiss.
  rewrite Forall_forall in Hiss, Hp. specialize (Hiss (cmdIndex c, ResultChan c, slot_parts AppendFloat Fprint c)).
  assert ((cmdIndex c, ResultChan c, slot_parts AppendFloat Fprint c) ∈ issued (book s)) as Hin.
  { apply Hiss. unfold Redisconn.entries. apply list_elem_of_omap. exists i. split; [done|].
    unfold entry. by rewrite Hl. }
  destruct (Hp _ Hin) as [parts Hparts]. simpl in Hparts. rewrite Hparts in *. by exists parts.
Qed.

Lemma entries_app g l1 l2 : entries g (l1 ++ l2) = entries g l1 ++ entries g l2.
Proof. unfold Redisconn.entries. apply omap_app. Qed.

(** The send loop writes the command of slot [i]. *)
Lemma write_ok s i : piped s -> spc s = SWrite i -> exists c parts, slots (book s) !! i = Some c /\
  slot_parts AppendFloat Fprint c = Some parts /\ (cmdIndex c, ResultChan c, Some parts) ∈ issued (book s).
Proof.
  intros Hpp Hpc. assert (i ∈ inflight s) as Hin by (apply hand_inflight; rewrite Hpc; left).
  pose proof (bk_range _ _ _ _ (on_book _ _ _ (pp_once _ Hpp))) as Hr. rewrite Forall_forall in Hr.
  destruct (lookup_lt_is_Some_2 _ _ (Hr _ Hin)) as [c Hl]. destruct (entry_parts s i c Hpp Hin Hl) as (parts & Hp & Hi).
  by exists c, parts.
Qed.

Lemma piped_write s i : piped s -> spc s = SWrite i -> forall s', processReceiveUser AppendFloat Fprint true true s = Some s' ->
  piped s'.
Proof.
  intros Hpp Hpc s' E. pose proof (once_send _ _ _ _ _ (pp_once _ Hpp) E) as Ho'. pose proof (pp_works _ Hpp) as Hw.
  destruct (write_ok s i Hpp Hpc) as (c & parts & Hl & Hparts & Hin). unfold processReceiveUser, write_step in E.
  rewrite Hpc, Hl in E. simpl in E. rewrite Hparts in E. injection E as <-.
  destruct Hpp as [_ _ Hg Hp [log [H1 H2 H3 H4]]]. split; try done.
  - pose proof (wk_send _ Hw) as Hs. rewrite Hpc in Hs. simpl in Hs. split_works Hw. rewrite Hs. simpl. lia.
  - exists (log ++ [(cmdIndex c, ResultChan c, parts)]). split; simpl.
    + rewrite fmap_app, <- H1. unfold waiting. simpl. rewrite Hpc, app_nil_r, entries_app, fmap_app, app_assoc. f_equal.
      rewrite entries_cons. unfold entry. by rewrite Hl.
    + rewrite fmap_app, H2, <- !app_assoc. done.
    + done.
    + apply Forall_app. split; [done|]. by constructor.
Qed.

(** Writing out the buffer moves its commands to the server. *)
Lemma written_out_works w : line_ok w -> line_ok (written_out w) /\ at0 (written_out w) = at0 w ++ unflushed w /\
  rep0 (written_out w) = rep0 w.
Proof.
  intros (Hc & Hb & Hw). unfold written_out, line_ok, at0, rep0. simpl. rewrite Hw. destruct (conns w) as [|c [|d l]]; [done| |done].
  simpl. done.
Qed.

Lemma piped_flushed s pc : piped s -> once (sender s (con s) (book s) (written_out (line s)) pc) ->
  send_pc_ok pc [] -> waiting (sender s (con s) (book s) (written_out (line s)) pc) = waiting s ->
  piped (sender s (con s) (book s) (written_out (line s)) pc).
Proof.
  intros [Ho Hw Hg Hp [log [H1 H2 H3 H4]]] Ho' Hpc Hwt. pose proof (written_out_works _ (wk_line _ Hw)) as (Hl & Ha & Hr).
  split; try done; [by destruct Hw|]. exists log. split; try done.
  - by rewrite Hwt.
  - simpl. by rewrite Ha, H2, app_nil_r.
  - simpl. by rewrite Hr.
Qed.

Lemma piped_send s s' : piped s -> processReceiveUser AppendFloat Fprint true true s = Some s' -> piped s'.
Proof.
  intros Hpp E. pose proof (once_send _ _ _ _ _ (pp_once _ Hpp) E) as Ho'. pose proof (pp_works _ Hpp) as Hw.
  pose proof (wk_send _ Hw) as Hs. destruct (wk_net _ Hw) as (Hn & Hcc & Hwc & Hol & _ & _ & _ & _ & _ & _ & Hh).
  destruct (spc s) as [| | | |i|i|i k|i|i| |i|] eqn:Hpc; try done; [| |by apply (piped_write _ _ Hpp Hpc)|..];
    unfold processReceiveUser, wait_step, Flush in E; rewrite Hpc in E.
  - rewrite Hn in E. injection E as <-. apply (piped_same s); try done; [split_works Hw|].
    unfold waiting. simpl. by rewrite Hpc.
  - destruct (recv (cmdChan (con s))) as [| |i ch] eqn:Er; [done| |]; injection E as <-.
    + exfalso. unfold recv in Er. rewrite Hcc in Er. by destruct (items _).
    + apply recv_value in Er as (_ & Hcap & Hcl). apply (piped_same s); try done.
      * split_works Hw; simpl; congruence.
      * unfold waiting. simpl. by rewrite Hpc.
  - injection E as <-. apply (piped_same s); try done.
    + split_works Hw. unfold gen. by rewrite Hol.
    + unfold waiting. simpl. by rewrite Hpc.
  - destruct k; [|done]. unfold wchan, set_wchan, gen in E. rewrite Hol in E. cbn [nth length Nat.ltb Nat.leb] in E.
    destruct (send (waitChan (con s)) i) as [[ch|]|] eqn:Es; [|done|]; injection E as <-.
    + apply send_value in Es as (Hit & Hcap & Hcl & _). apply (piped_same s); try done.
      * split_works Hw; simpl; congruence.
      * unfold waiting. simpl. by rewrite Hpc, Hit, app_nil_r.
    + exfalso. unfold send in Es. rewrite Hwc in Es. by destruct (full _).
  - destruct (unflushed (line s)) as [|u l] eqn:Hu; [|rewrite Hh in E]; injection E as <-.
    + apply (piped_same s); try done; [split_works Hw|]. unfold waiting. simpl. by rewrite Hpc.
    + apply piped_flushed; try done. unfold waiting. simpl. by rewrite Hpc.
Qed.

Lemma piped_spill s s' : piped s -> buffer_spills s = Some s' -> piped s'.
Proof.
  intros Hpp E. pose proof (pp_works _ Hpp) as Hw. pose proof (wk_send _ Hw) as Hs. unfold buffer_spills in E.
  destruct (unflushed (line s)); [done|]. destruct (hung _ && _); [done|]. injection E as <-.
  apply piped_flushed; try done; [by destruct (pp_once _ Hpp)|].
  destruct (spc s) as [| | | | | |? [|?]| | | | |]; simpl in *; first [done|lia].
Qed.

Lemma piped_serve s k r s' : piped s -> server_answers s k r = Some s' -> piped s'.
Proof.
  intros Hpp E. pose proof (pp_works _ Hpp) as Hw. destruct (wk_line _ Hw) as (Hc & Hb & Hbw). unfold server_answers in E.
  rewrite Hc in E. destruct k as [|k]; [|done]. simpl in E. destruct (at0 (line s)) as [|[id parts] l] eqn:Ha; [done|].
  injection E as <-. destruct Hpp as [[Ho Hcnt Hpc] _ Hg Hp [log [H1 H2 H3 H4]]].
  split; try done; [split_works Hw|]. exists log. split; simpl; try done.
  - by rewrite H2, Ha, fmap_app, <- !app_assoc.
  - trans (((fun c => (c.1.1, c.2)) <$> completed (book s)) ++ held s ++
           ((fun a => (a.1, reply_result a.2)) <$> rep0 (line s) ++ [(id, r)])); [|done].
    by rewrite !fmap_app, H3, <- !app_assoc.
Qed.

(** The reply in hand answers the command at the head of [waitChan]. *)
Lemma head_matches s log id res i c rest : paired s log -> held s = [(id, res)] ->
  items (waitChan (con s)) = i :: rest -> slots (book s) !! i = Some c -> cmdIndex c = id.
Proof.
  intros [H1 H2 H3 _] Hr Hit Hl. unfold waiting in H1. rewrite Hit in H1. cbn [app] in H1.
  rewrite entries_cons in H1. unfold entry in H1. rewrite Hl in H1. cbn [fmap list_fmap option_fmap option_map fst] in H1.
  rewrite Hr in H3. apply (f_equal (fmap fst)) in H1, H2, H3.
  rewrite fmap_app, fmap_cons in H1. rewrite <- list_fmap_compose in H2.
  rewrite fmap_app in H2. rewrite fmap_app in H3.
  assert (forall l : list (Z * option nat * list (list Z)), l.*1.*1 = (fst ∘ (fun e => (e.1.1, e.2))) <$> l) as Ea.
  { intros l. induction l as [|x l IH]; [done|]. rewrite !fmap_cons. by rewrite IH. }
  assert (forall l : list (Z * list (list Z) * reply), (answer_of <$> l).*1 = l.*1.*1) as Eb.
  { intros l. induction l as [|x l IH]; [done|]. rewrite !fmap_cons. by rewrite IH. }
  assert (forall l : list (Z * option nat * Result), ((fun x => (x.1.1, x.2)) <$> l).*1 = l.*1.*1) as Ec.
  { intros l. induction l as [|x l IH]; [done|]. rewrite !fmap_cons. by rewrite IH. }
  rewrite Ea, H2 in H1. rewrite Eb, Ec in H3. rewrite H3, <- !app_assoc in H1. apply app_inv_head in H1.
  simpl in H1. by injection H1.
Qed.

(** The receive loop completes the command at the head of [waitChan]. *)
Lemma piped_taken s log id res i ch g : piped s -> paired s log -> rpc s = RTake (Some id) res 0 ->
  items (waitChan (con s)) = i :: items ch -> cap ch = cap (waitChan (con s)) -> chclosed ch = chclosed (waitChan (con s)) ->
  sendResultToUser (book s) res i = Some g -> once (receiver s (set_waits (con s) ch (olds (con s))) g (line s) RTop) ->
  piped (receiver s (set_waits (con s) ch (olds (con s))) g (line s) RTop).
Proof.
  intros Hpp Hlog Hr Hit Hcap Hcl Es Ho'. destruct Hpp as [Ho Hw Hg Hp _].
  assert (exists fl, inflight s ≡ₚ i :: fl /\ forall j, j ∈ waiting (receiver s (set_waits (con s) ch (olds (con s))) g (line s) RTop) -> j ∈ fl)
    as (fl & Hperm & Hsub).
  { exists (counting s ++ entering s ++ items (cmdChan (con s)) ++ hand (spc s) ++ items ch ++ stranded (con s)).
    unfold inflight, wait_items, waiting. simpl. rewrite Hit.
    split; [solve_Permutation|]. intros j. rewrite !elem_of_app. destruct (spc s); simpl; rewrite ?elem_of_nil; tauto. }
  pose proof (book_perm _ _ _ _ _ Hperm (on_book _ _ _ Ho)) as Hb.
  destruct (book_complete _ _ _ _ _ res Hb) as (c & g1 & Hl & Hres & Hb' & Hc & Hi & Hent & _ & _ & Hsz).
  rewrite Es in Hres. injection Hres as <-. pose proof (bk_nodup _ _ _ _ Hb) as Hn. apply NoDup_cons in Hn as [Hni _].
  split; simpl; rewrite ?Hi; try done.
  - split_works Hw; simpl; congruence.
  - eapply Forall_impl; [exact Hg|]. intros e [He1 He2]. split; [done|]. simpl. by rewrite Hsz.
  - exists log. pose proof (head_matches _ _ id res _ _ _ Hlog ltac:(unfold held; by rewrite Hr) Hit Hl) as Hid.
    destruct Hlog as [H1 H2 H3 H4]. split; simpl; rewrite ?Hc, ?Hi; try done.
    + rewrite fmap_app, <- app_assoc, <- H1. f_equal. rewrite Hent by (intros Hin; by apply Hni, Hsub).
      unfold waiting. simpl. rewrite Hit. cbn [app]. rewrite entries_cons. unfold entry. by rewrite Hl.
    + rewrite H3, fmap_app, <- app_assoc. f_equal. unfold held. simpl. by rewrite Hr, Hid.
Qed.

Lemma piped_recv s s' : piped s -> processReceiveRedis s = Some s' -> piped s'.
Proof.
  intros Hpp E. pose proof (once_recv _ _ _ _ (pp_once _ Hpp) E) as Ho'. pose proof (pp_works _ Hpp) as Hw.
  pose proof (wk_recv _ Hw) as Hr. destruct (wk_net _ Hw) as (Hn & _ & Hwc & Hol & _). destruct (wk_line _ Hw) as (Hc & Hb & Hbw).
  unfold processReceiveRedis in E. destruct (rpc s) as [| | | |k|[id|] res|[id|] res k|] eqn:Hpc; try done.
  - rewrite Hn in E. injection E as <-. apply (piped_same s); try done; [split_works Hw|]. unfold held. simpl. by rewrite Hpc.
  - rewrite Hb in E. injection E as <-. apply (piped_same s); try done; [split_works Hw|]. unfold held. simpl. by rewrite Hpc.
  - destruct k; [|done]. rewrite Hc in E. simpl in E. destruct (rep0 (line s)) as [|[id r] l] eqn:Hre; [done|]. injection E as <-.
    destruct Hpp as [_ _ Hg Hp [log [H1 H2 H3 H4]]]. split; try done.
    + split_works Hw.
    + exists log. split; simpl; try done. rewrite H3, Hre. unfold held. by rewrite Hpc.
  - injection E as <-. apply (piped_same s); try done.
    + split_works Hw. unfold gen. by rewrite Hol.
    + unfold held. simpl. by rewrite Hpc.
  - destruct k; [|done]. unfold wchan, set_wchan, gen in E. rewrite Hol in E. cbn [nth length Nat.ltb Nat.leb] in E.
    destruct (recv (waitChan (con s))) as [| |i ch] eqn:Er; [done| |].
    { exfalso. unfold recv in Er. rewrite Hwc in Er. by destruct (items _). }
    apply recv_value in Er as (Hit & Hcap & Hcl). destruct (pp_log _ Hpp) as [log Hlog].
    destruct (sendResultToUser (book s) res i) as [g|] eqn:Es; [|done]. injection E as <-. rewrite <- Hol in *.
    by apply (piped_taken s log id res i ch g).
Qed.

Lemma piped_timeout s late ok : piped s -> late = false -> piped (processTimeOut late ok s).
Proof.
  intros Hpp ->. pose proof (once_timeout _ _ false ok _ (pp_once _ Hpp)) as Ho'. pose proof (pp_works _ Hpp) as Hw.
  pose proof (wk_time _ Hw) as Ht. unfold processTimeOut in *. destruct (tpc s) as [|r|p]; [..|done].
  all: apply (piped_same s); try done; split_works Hw.
Qed.

Lemma piped_step a s s' : healthy a -> piped s -> step a s = Some s' -> piped s'.
Proof.
  intros Hh Hpp. pose proof (pp_works _ Hpp) as Hw.
  destruct (wk_net _ Hw) as (_ & _ & _ & _ & _ & _ & Hsi & Hsc & Hcl & Hsg & _).
  destruct a as [ck rq|k|k|k| |w f| |k r| |e|r|ok|l ok| | | |k|]; simpl in *; try done.
  - intros [= <-]. by apply piped_call.
  - by apply piped_got.
  - by apply piped_counted.
  - by apply piped_pushed.
  - destruct (uncount_cmd (book s)) eqn:E; [|done]. intros [= <-]. by apply piped_uncounted.
  - destruct Hh as [-> ->]. by apply piped_send.
  - by apply piped_spill.
  - by apply piped_serve.
  - by apply piped_recv.
  - unfold receive_torn. pose proof (wk_recv _ Hw) as Hr. destruct (wk_line _ Hw) as (_ & Hb & _).
    destruct (rpc s) as [| | | |[|k]| | |]; try done. by rewrite Hb.
  - unfold exceptionProcess. rewrite (wk_exc _ Hw). unfold recv. by rewrite Hsi, Hsc.
  - intros [= <-]. by apply piped_timeout.
  - unfold hang_up. by rewrite Hcl.
  - unfold SendExceptionSignal. by rewrite Hsg.
  - unfold caller_closes. by rewrite (wk_close _ Hw).
  - intros [= <-]. apply (piped_same s); try done; [apply (once_con _ _ _ _ _ (pp_once _ Hpp)); done|split_works Hw].
Qed.

Lemma piped_run acts s s' : Forall healthy acts -> piped s -> run acts s = Some s' -> piped s'.
Proof.
  intros Hp. revert s. induction Hp as [|a acts Ha _ IH]; intros s Ho; simpl; [by intros [= <-]|].
  destruct (step a s) as [s1|] eqn:E; [|done]. simpl. apply IH. by eapply piped_step.
Qed.

Lemma piped_init c w : 0 < c -> 0 < w -> (w + c) * 10 < 2 ^ 32 -> piped (init c w).
Proof.
  intros Hc Hw Hz. split; try done; [apply once_init; lia| |].
  - split; try done. unfold net_ok. simpl. split_and!; try done; lia.
  - exists []. by split.
Qed.

(** Capacities that [NewRedisCon] takes as they are and whose pool fits. *)
Definition capacities (c w : Z) : Prop := 0 < c /\ 0 < w /\ (w + c) * 10 < 2 ^ 32.

Lemma piped_new c w : capacities c w -> piped (NewRedisCon c w).
Proof.
  intros (Hc & Hw & Hz). unfold NewRedisCon. rewrite (proj2 (Z.leb_gt c 0)), (proj2 (Z.leb_gt w 0)) by lia.
  by apply piped_init.
Qed.

(** C6: pipelining pairs every reply with its command.  On a working
    connection, in every interleaving of any number of callers, both loops, the
    server and early writes of the buffer: the k-th result handed out is the
    server's k-th answer, it answers the command with that index, it goes to
    the channel of the caller of that very command, and the server was sent
    exactly the parts that caller asked for. *)
Theorem pipeline_matches (c w : Z) (acts : list (action F V)) (s : RedisCon F V) (k : nat) (id : Z) (ch : option nat)
    (res : Result) (Hcap : capacities c w) (Hacts : Forall healthy acts)
    (Hrun : run acts (NewRedisCon c w) = Some s) (Hk : completed (book s) !! k = Some (id, ch, res)) :
  exists parts r, answered (line s) !! k = Some (id, parts, r) /\ res = reply_result r /\
    (id, ch, Some parts) ∈ issued (book s).
Proof.
  destruct (pp_log _ (piped_run _ _ _ Hacts (piped_new _ _ Hcap) Hrun)) as [log [H1 H2 H3 H4]].
  pose proof (lookup_lt_Some _ _ _ Hk) as Hlt.
  assert ((answer_of <$> answered (line s)) !! k = Some (id, res)) as Ha.
  { rewrite H3, lookup_app_l by (by rewrite length_fmap). rewrite list_lookup_fmap, Hk. done. }
  rewrite list_lookup_fmap in Ha. destruct (answered (line s) !! k) as [[[id' parts] r]|] eqn:Hans; [|done].
  injection Ha as -> <-. exists parts, r. split; [done|]. split; [done|].
  assert (log.*1 !! k = Some (id, ch)) as Hl1.
  { rewrite <- H1, lookup_app_l by (by rewrite length_fmap). rewrite list_lookup_fmap, Hk. done. }
  assert (((fun e => (e.1.1, e.2)) <$> log) !! k = Some (id, parts)) as Hl2.
  { rewrite H2, lookup_app_l by (rewrite length_fmap; by eapply lookup_lt_Some). by rewrite list_lookup_fmap, Hans. }
  rewrite list_lookup_fmap in Hl1. rewrite list_lookup_fmap in Hl2. destruct (log !! k) as [[[id2 ch2] parts2]|] eqn:Hl; [|done].
  simpl in *. simplify_eq. by apply (proj1 (Forall_lookup _ _) H4 _ _ Hl).
Qed.

(** ** Progress *)

(** What the program and the server do on their own, without a new call. *)
Definition internal (a : action F V) : bool :=
  match a with
  | Got _ | Counted _ | Pushed _ | Uncounted | Send true true | Spill | Serve _ _ | Recv => true
  | _ => false
  end.

Definition send_weight (pc : send_pc) : nat :=
  match pc with STop => 1 | SWrite _ => 13 | SWait _ => 8 | SSend _ _ => 7 | SFlush _ => 2 | _ => 0 end.
Definition recv_weight (pc : recv_pc) : nat := match pc with RTop => 2 | RCall | RPair _ _ => 1 | _ => 0 end.

(** A bound on the steps still to be made for the calls made. *)
Definition measure s : nat :=
  (17 * length (getting s) + 16 * length (counting s) + 15 * length (entering s) +
   14 * length (items (cmdChan (con s))) + send_weight (spc s) + 4 * length (unflushed (line s)) +
   3 * length (at0 (line s)) + 2 * length (rep0 (line s)) + 4 * length (items (waitChan (con s))) +
   recv_weight (rpc s) + leaving (book s))%nat.

Lemma internal_healthy a : internal a = true -> healthy a.
Proof. by destruct a as [| | | | |[] []| | | | | | | | | | | |]. Qed.

Lemma delete_shorter {A} (l : list A) k x : l !! k = Some x -> length l = S (length (delete k l)).
Proof. intros Hk. apply lookup_lt_Some in Hk as Hlt. rewrite length_delete by done. lia. Qed.

(** The steps of the callers. *)
Lemma callers_descend s a s' : piped s -> internal a = true -> step a s = Some s' ->
  match a with Got _ | Counted _ | Pushed _ | Uncounted => (measure s' < measure s)%nat | _ => True end.
Proof.
  intros Hpp Hi E. destruct a as [| k|k|k| | | | | | | | | | | | | |]; try done; simpl in E.
  - unfold caller_get in E. destruct (getting s !! k) as [[i rq]|] eqn:Hk; [|done]. simpl in E.
    destruct (packageRedisCmd _ _ _ _ _) as [[g b]|] eqn:Ep; [|done]. injection E as <-.
    apply (book_accept _ _ _ _ _ _ _ _ (on_book _ _ _ (pp_once _ Hpp))) in Ep as (_ & _ & Hl & _).
    apply delete_shorter in Hk. unfold measure. simpl. rewrite Hl. destruct b; rewrite ?length_app; simpl; lia.
  - unfold caller_count in E. destruct (counting s !! k) as [i|] eqn:Hk; [|done]. injection E as <-.
    apply delete_shorter in Hk. unfold measure. simpl. rewrite length_app. simpl. lia.
  - unfold caller_push in E. destruct (entering s !! k) as [i|] eqn:Hk; [|done]. simpl in E.
    destruct (wk_net _ (pp_works _ Hpp)) as (_ & Hcc & _). unfold send in E. rewrite Hcc in E. destruct (full _); [done|].
    injection E as <-. apply delete_shorter in Hk. unfold measure. simpl. rewrite length_app. simpl. lia.
  - unfold uncount_cmd in E. destruct (leaving (book s)) eqn:Hl; [done|]. injection E as <-. unfold measure. simpl. rewrite Hl. lia.
Qed.

Lemma written_out_lengths w : line_ok w ->
  (length (at0 (written_out w)) = length (at0 w) + length (unflushed w))%nat /\ rep0 (written_out w) = rep0 w.
Proof. intros H. destruct (written_out_works w H) as (_ & -> & ->). by rewrite length_app. Qed.

(** The steps of the send loop, and early writes of its buffer. *)
Lemma sender_descends s a s' : piped s -> internal a = true -> step a s = Some s' ->
  match a with Send _ _ | Spill => (measure s' < measure s)%nat | _ => True end.
Proof.
  intros Hpp Hi E. pose proof (pp_works _ Hpp) as Hw. pose proof (wk_send _ Hw) as Hs.
  destruct (wk_net _ Hw) as (Hn & Hcc & Hwc & Hol & _). destruct (written_out_lengths _ (wk_line _ Hw)) as [Hat Hre].
  destruct a as [| | | | |[] []| | | | | | | | | | | |]; try done; simpl in E.
  - unfold processReceiveUser in E. destruct (spc s) as [| | | |i|i|i k|i|i| |i|] eqn:Hpc; try done.
    + rewrite Hn in E. injection E as <-. unfold measure. simpl. rewrite Hpc. simpl. lia.
    + destruct (recv (cmdChan (con s))) as [| |i ch] eqn:Er; [done| |]; injection E as <-.
      * unfold recv in Er. rewrite Hcc in Er. by destruct (items _).
      * apply recv_value in Er as (Hit & _). unfold measure. simpl. rewrite Hpc, Hit. simpl. lia.
    + destruct (write_ok s i Hpp Hpc) as (c & parts & Hl & Hparts & _). unfold write_step in E. rewrite Hl in E. simpl in E.
      rewrite Hparts in E. injection E as <-. unfold measure, at0, rep0. simpl. rewrite Hpc, length_app. simpl. lia.
    + injection E as <-. unfold measure. simpl. rewrite Hpc. simpl. lia.
    + destruct k; [|done]. unfold wait_step, wchan, set_wchan, gen in E. rewrite Hol in E. cbn [nth length Nat.ltb Nat.leb] in E.
      destruct (send (waitChan (con s)) i) as [[ch|]|] eqn:Es; [|done|]; injection E as <-.
      * apply send_value in Es as (Hit & _). unfold measure. simpl. rewrite Hpc, Hit, length_app. simpl. lia.
      * unfold send in Es. rewrite Hwc in Es. by destruct (full _).
    + unfold Flush in E. destruct (unflushed (line s)) as [|u l] eqn:Hu; [|destruct (hung _ && _); [done|]]; injection E as <-;
        unfold measure; simpl; rewrite ?Hpc, ?Hat, ?Hre, ?Hu; simpl; lia.
  - unfold buffer_spills in E. destruct (unflushed (line s)) as [|u l] eqn:Hu; [done|]. destruct (hung _ && _); [done|].
    injection E as <-. unfold measure. simpl. rewrite Hat, Hre, ?Hu. simpl. lia.
Qed.

Lemma one_conn u c b1 b2 a : at0 (mkWire u [c] b1 b2 a) = atserver c /\ rep0 (mkWire u [c] b1 b2 a) = replies c.
Proof. done. Qed.

(** The steps of the server and of the receive loop. *)
Lemma receiver_descends s a s' : piped s -> internal a = true -> step a s = Some s' ->
  match a with Serve _ _ | Recv => (measure s' < measure s)%nat | _ => True end.
Proof.
  intros Hpp Hi E. pose proof (pp_works _ Hpp) as Hw. pose proof (wk_recv _ Hw) as Hr.
  destruct (wk_net _ Hw) as (Hn & _ & Hwc & Hol & _). destruct (wk_line _ Hw) as (Hc & Hb & _).
  destruct a as [| | | | | | |k r| | | | | | | | | |]; try done; simpl in E.
  - unfold server_answers in E. rewrite Hc in E. destruct k as [|k]; [|done]. simpl in E.
    destruct (at0 (line s)) as [|[id parts] l] eqn:Ha; [done|]. injection E as <-.
    unfold measure. cbn -[at0 rep0 Nat.mul]. rewrite !(proj1 (one_conn _ _ _ _ _)), !(proj2 (one_conn _ _ _ _ _)).
    cbn -[at0 rep0 Nat.mul]. rewrite Ha, length_app. cbn [length]. lia.
  - unfold processReceiveRedis in E. destruct (rpc s) as [| | | |k|id res|id res k|] eqn:Hpc; try done.
    + rewrite Hn in E. injection E as <-. unfold measure. simpl. rewrite Hpc. simpl. lia.
    + injection E as <-. unfold measure. simpl. rewrite Hpc. simpl. lia.
    + destruct k; [|done]. rewrite Hc in E. simpl in E. destruct (rep0 (line s)) as [|[id r] l] eqn:Hre; [done|]. injection E as <-.
      unfold measure. cbn -[at0 rep0 Nat.mul]. rewrite !(proj1 (one_conn _ _ _ _ _)), !(proj2 (one_conn _ _ _ _ _)).
      cbn -[at0 rep0 Nat.mul]. rewrite Hpc, Hre. cbn -[Nat.mul at0 rep0]. lia.
    + injection E as <-. unfold measure. simpl. rewrite Hpc. simpl. lia.
    + destruct id as [id|], k; try done. unfold wchan, set_wchan, gen in E. rewrite Hol in E. cbn [nth length Nat.ltb Nat.leb] in E.
      destruct (recv (waitChan (con s))) as [| |i ch] eqn:Er; [done| |].
      { unfold recv in Er. rewrite Hwc in Er. by destruct (items _). }
      apply recv_value in Er as (Hit & _). unfold sendResultToUser in E. destruct (slots (book s) !! i); [|done]. simpl in E.
      destruct (release _ _) as [[c' ri]|]; [|done]. injection E as <-. unfold measure. simpl. rewrite Hpc, Hit. simpl. lia.
Qed.

Lemma descends s a s' : piped s -> internal a = true -> step a s = Some s' -> (measure s' < measure s)%nat.
Proof.
  intros Hpp Hi E. pose proof (callers_descend s a s' Hpp Hi E). pose proof (sender_descends s a s' Hpp Hi E).
  pose proof (receiver_descends s a s' Hpp Hi E). by destruct a.
Qed.

Definition advances s : Prop := exists a s', internal a = true /\ step a s = Some s'.

Lemma advance s a s' : internal a = true -> step a s = Some s' -> advances s.
Proof. by exists a, s'. Qed.

Lemma not_full (ch : chan nat) : full ch = false \/ (cap ch <= length (items ch))%nat.
Proof. unfold full. destruct (cap ch <=? length (items ch))%nat eqn:E; [right; by apply Nat.leb_le|by left]. Qed.

(** The send loop moves unless it waits. *)
Lemma send_advances s : piped s ->
  match spc s with
  | SSelect => items (cmdChan (con s)) <> []
  | SSend _ _ => full (waitChan (con s)) = false
  | _ => True
  end -> advances s.
Proof.
  intros Hpp Hpc. pose proof (pp_works _ Hpp) as Hw. pose proof (wk_send _ Hw) as Hs.
  destruct (wk_net _ Hw) as (Hn & _ & Hcl & Hol & _ & _ & _ & _ & _ & _ & Hh).
  pose proof (advance s (Send true true)) as Hadv. cbn [Redisconn.step] in Hadv.
  unfold processReceiveUser, wait_step, Flush in Hadv. destruct (spc s) as [| | | |i|i|i k|i|i| |i|] eqn:E; try done.
  - by eapply Hadv.
  - unfold recv in Hadv. destruct (items (cmdChan (con s))) as [|x l]; [done|]. by eapply Hadv.
  - destruct (write_ok s i Hpp E) as (c & parts & Hl & Hparts & _). unfold write_step in Hadv. rewrite Hl in Hadv.
    simpl in Hadv. rewrite Hparts in Hadv. by eapply Hadv.
  - by eapply Hadv.
  - destruct k; [|done]. unfold wchan in Hadv. rewrite Hol in Hadv. unfold send in Hadv. simpl in Hadv. rewrite Hcl, Hpc in Hadv.
    by eapply Hadv.
  - destruct (unflushed (line s)) as [|u l]; [|rewrite Hh in Hadv]; by eapply Hadv.
Qed.

(** The receive loop moves when a reply is there or one is held. *)
Lemma recv_advances s : piped s -> items (waitChan (con s)) <> [] -> (rpc s = RRead 0 -> rep0 (line s) <> []) ->
  advances s.
Proof.
  intros Hpp Hne Hre. pose proof (pp_works _ Hpp) as Hw. pose proof (wk_recv _ Hw) as Hr.
  destruct (wk_net _ Hw) as (Hn & _ & _ & Hol & _). destruct (wk_line _ Hw) as (Hc & _).
  pose proof (advance s Recv) as Hadv. cbn [Redisconn.step] in Hadv.
  unfold processReceiveRedis in Hadv. destruct (rpc s) as [| | | |k|id res|id res k|] eqn:E; try done; try (by eapply Hadv).
  - destruct k; [|done]. rewrite Hc in Hadv. simpl in Hadv. destruct (rep0 (line s)) as [|[id r] l]; [by destruct (Hre eq_refl)|].
    by eapply Hadv.
  - destruct id as [id|], k; try done. unfold wchan, recv in Hadv. rewrite Hol in Hadv. simpl in Hadv.
    destruct (items (waitChan (con s))) as [|i l] eqn:Hi; [done|].
    assert (inflight s ≡ₚ i :: (counting s ++ entering s ++ items (cmdChan (con s)) ++ hand (spc s) ++ l ++ stranded (con s))) as Hperm.
    { unfold inflight, wait_items. rewrite Hi. solve_Permutation. }
    pose proof (book_perm _ _ _ _ _ Hperm (on_book _ _ _ (pp_once _ Hpp))) as Hb.
    destruct (book_complete _ _ _ _ _ res Hb) as (c & g & _ & Hg & _). rewrite Hg in Hadv. by eapply Hadv.
Qed.

(** Without replies on the way, what waits is at the server or unflushed. *)
Lemma waiting_length s : piped s -> rpc s = RRead 0 -> rep0 (line s) = [] ->
  length (waiting s) = (length (at0 (line s)) + length (unflushed (line s)))%nat.
Proof.
  intros [Ho _ _ _ [log [H1 H2 H3 _]]] Hr Hre. apply (f_equal length) in H1, H2, H3.
  rewrite ?length_app, ?length_fmap in *. rewrite ?length_app, ?length_fmap in H2. unfold held in H3. rewrite Hr, Hre in H3.
  assert (length (entries (book s) (waiting s)) = length (waiting s)) as He; [|simpl in H3; lia].
  pose proof (bk_range _ _ _ _ (on_book _ _ _ Ho)) as Hrg. rewrite Forall_forall in Hrg.
  assert (forall l, (forall j, j ∈ l -> j ∈ inflight s) -> length (entries (book s) l) = length l) as Hall;
    [|apply Hall, waiting_inflight].
  induction l as [|j l IH]; intros Hl; [done|]. rewrite entries_cons. unfold entry.
  destruct (lookup_lt_is_Some_2 (slots (book s)) j) as [c ->]; [apply Hrg, Hl; left|]. simpl. rewrite IH; [done|].
  intros k Hk. apply Hl. by right.
Qed.

Lemma reply_advances s : piped s -> items (waitChan (con s)) <> [] ->
  (length (unflushed (line s)) < length (waiting s))%nat -> advances s.
Proof.
  intros Hpp Hne Hu.
  assert (rpc s = RRead 0 /\ rep0 (line s) = [] \/ ~ (rpc s = RRead 0 /\ rep0 (line s) = [])) as [[Hr Hre]|Hno].
  { destruct (rpc s) as [| | | |[|k]| | |], (rep0 (line s)); first [by left|by right; intros [? ?]]. }
  - pose proof (waiting_length s Hpp Hr Hre). destruct (wk_line _ (pp_works _ Hpp)) as (Hc & _).
    destruct (at0 (line s)) as [|[id parts] l] eqn:Ha; [simpl in *; lia|].
    eapply (advance s (Serve 0 RNil)); [done|]. simpl. unfold server_answers. by rewrite Hc.
  - apply recv_advances; try done. intros Hr Hre. by apply Hno.
Qed.

(** A caller that waits for a slot gets it when nothing is in flight. *)
Lemma getting_advances s : piped s -> getting s <> [] -> inflight s = [] -> advances s.
Proof.
  intros Hpp Hg Hf. destruct (getting s) as [|[i rq] l] eqn:E; [done|]. pose proof (pp_getting _ Hpp) as Hw. rewrite E in Hw.
  apply Forall_cons in Hw as [[_ Hi] _]. pose proof (on_book _ _ _ (pp_once _ Hpp)) as Hb.
  destruct (bk_size _ _ _ _ Hb) as [_ Hlen]. simpl in Hi.
  destruct (lookup_lt_is_Some_2 (slots (book s)) i) as [c Hc]; [unfold zlen in Hlen; lia|].
  pose proof (bk_slot _ _ _ _ Hb i c Hc) as Hok. rewrite Hf, bool_decide_false in Hok by apply not_elem_of_nil.
  destruct (Get_take_spec c (sendIndex (book s)) false Hok) as (c1 & Ht & _ & Hok1).
  destruct (release_used c1 (recvIndex (book s)) Hok1) as (c2 & Hrel & _).
  pose proof (advance s (Got 0)) as Hadv. cbn [Redisconn.step] in Hadv. unfold caller_get, packageRedisCmd in Hadv.
  rewrite E in Hadv. simpl in Hadv. rewrite Hc in Hadv. simpl in Hadv. rewrite Ht in Hadv. simpl in Hadv.
  destruct (package c1 rq); [|rewrite Hrel in Hadv]; by eapply Hadv.
Qed.

(** Commands in flight move. *)
Lemma inflight_advances s : piped s -> inflight s <> [] -> advances s.
Proof.
  intros Hpp Hne. pose proof (pp_works _ Hpp) as Hw. pose proof (wk_send _ Hw) as Hs.
  destruct (wk_net _ Hw) as (Hn & Hcc & _ & Hol & Hcap & Hcapw & _).
  destruct (counting s) as [|i l] eqn:Hcnt.
  2: { eapply (advance s (Counted 0)); [done|]. simpl. unfold caller_count. by rewrite Hcnt. }
  destruct (spc s) as [| | | |i|i|i k|i|i| |i|] eqn:E; try (by apply send_advances; rewrite ?E); try done.
  - destruct (items (cmdChan (con s))) as [|x l] eqn:Hi; [|apply send_advances; [exact Hpp|by rewrite E, Hi]].
    destruct (entering s) as [|e l] eqn:Hent.
    + unfold inflight, wait_items, stranded, hand in Hne. rewrite Hcnt, Hent, Hi, E, Hol in Hne. simpl in Hne.
      rewrite app_nil_r in Hne. apply reply_advances; try done. rewrite Hs. unfold waiting. rewrite E.
      destruct (items (waitChan (con s))); [done|simpl; lia].
    + assert (full (cmdChan (con s)) = false) as Hf.
      { destruct (not_full (cmdChan (con s))); [done|]. rewrite Hi in *. simpl in *. lia. }
      eapply (advance s (Pushed 0)); [done|]. simpl. unfold caller_push. rewrite Hent. simpl. unfold send. by rewrite Hcc, Hf.
  - destruct (not_full (waitChan (con s))) as [Hf|Hf]; [apply send_advances; [exact Hpp|by rewrite E]|].
    destruct k; [|done]. apply reply_advances; try done.
    + intros H. rewrite H in Hf. simpl in Hf. lia.
    + unfold waiting. rewrite E, length_app. simpl in *. lia.
Qed.

(** Nothing is left of the calls made. *)
Definition drained s : Prop := getting s = [] /\ inflight s = [] /\ leaving (book s) = O.

Lemma progress s : piped s -> drained s \/ advances s.
Proof.
  intros Hpp. destruct (decide (inflight s = [])) as [Hf|Hf]; [|right; by apply inflight_advances].
  destruct (getting s) as [|e l] eqn:Hg; [|right; apply getting_advances; [done|by rewrite Hg|done]].
  destruct (leaving (book s)) as [|k] eqn:Hl; [by left|]. right. eapply (advance s Uncounted); [done|].
  simpl. unfold uncount_cmd. by rewrite Hl.
Qed.

(** Runs of internal steps are no longer than the measure. *)
Lemma internal_bounded acts s s' : piped s -> forallb internal acts = true -> run acts s = Some s' ->
  piped s' /\ (length acts + measure s' <= measure s)%nat.
Proof.
  revert s. induction acts as [|a acts IH]; intros s Hpp; simpl; [intros _ [= <-]; split; [done|lia]|].
  intros [Ha Hacts]%andb_true_iff. destruct (step a s) as [s1|] eqn:E; [|done]. simpl. intros Hrun.
  pose proof (descends s a s1 Hpp Ha E). apply (piped_step _ _ _ (internal_healthy _ Ha) Hpp) in E as Hpp1.
  destruct (IH s1 Hpp1 Hacts Hrun). split; [done|lia].
Qed.

(** C33: a working connection finishes every call.  From every state a working
    connection can reach, let the callers, the two loops and the server go on
    in any order, without new calls: whatever they do, they make at most
    [measure s] steps; while a call is unfinished, one of them can make a step;
    and when none can, every call has been completed, the commands completed
    are those accepted, and the counter is zero.  So every schedule that does
    not stop early ends with all calls completed: no deadlock and no
    livelock. *)
Theorem pipeline_drains (c w : Z) (acts : list (action F V)) (s : RedisCon F V) (acts' : list (action F V)) (s' : RedisCon F V)
    (Hcap : capacities c w) (Hacts : Forall healthy acts) (Hrun : run acts (NewRedisCon c w) = Some s)
    (Hint : forallb internal acts' = true) (Hrun' : run acts' s = Some s') :
  (length acts' <= measure s)%nat /\
  ((exists a s'', internal a = true /\ step a s' = Some s'') \/
   getting s' = [] /\ inflight s' = [] /\ (completed (book s')).*1 ≡ₚ (issued (book s')).*1 /\
   waitProcessCmdNum (book s') = 0).
Proof.
  pose proof (piped_run _ _ _ Hacts (piped_new _ _ Hcap) Hrun) as Hpp.
  destruct (internal_bounded _ _ _ Hpp Hint Hrun') as [Hpp' Hle]. split; [lia|].
  destruct (progress s' Hpp') as [(Hg & Hf & Hl)|Hadv]; [right|by left]. split; [done|]. split; [done|].
  destruct (pp_once _ Hpp') as [Hb Hcnt _]. split.
  - pose proof (bk_perm _ _ _ _ Hb) as Hp. rewrite Hf in Hp. simpl in Hp. by rewrite app_nil_r in Hp.
  - rewrite Hcnt, Hl, Hf. unfold inflight in Hf. apply app_nil in Hf as [-> _]. done.
Qed.

End Pipeline.

(** ** Witnesses *)

Definition pipelined_run : list (action unit unit) :=
  call_cmd 97 1 ++ call_cmd 98 2 ++ send_cmd ++ [Recv] ++ send_cmd ++
  [Serve 0 (RInt 5); Serve 0 (RInt 6); Recv; Recv; Recv; Recv].

Lemma pipelined_run_healthy : Forall (healthy (fun _ => []) (fun _ => [])) pipelined_run.
Proof. repeat constructor; by eexists. Qed.

Lemma pipeline_matches_witness :
  exists s, run0 pipelined_run (NewRedisCon 2 2) = Some s /\
    exists parts r, answered (line s) !! 0%nat = Some (1, parts, r) /\ mkResult (RInt 5) None = reply_result r /\
      (1, Some 1%nat, Some parts) ∈ issued (book s).
Proof.
  destruct (run0 pipelined_run (NewRedisCon 2 2)) as [s|] eqn:E; [|vm_compute in E; discriminate].
  exists s. split; [done|].
  apply (pipeline_matches (fun _ => []) (fun _ => []) 2 2 pipelined_run s 0 1 (Some 1%nat) (mkResult (RInt 5) None)).
  - unfold capacities. lia.
  - apply pipelined_run_healthy.
  - exact E.
  - vm_compute in E. injection E as <-. reflexivity.
Defined.

Definition draining : list (action unit unit) := [Uncounted; Recv].

Lemma pipeline_drains_witness :
  exists s s', run0 pipelined_run (NewRedisCon 2 2) = Some s /\ run0 draining s = Some s' /\ inflight s' <> [] /\
    (length draining <= measure s)%nat /\
    ((exists a s'', internal a = true /\ step (fun _ => []) (fun _ => []) a s' = Some s'') \/
     getting s' = [] /\ inflight s' = [] /\ (completed (book s')).*1 ≡ₚ (issued (book s')).*1 /\
     waitProcessCmdNum (book s') = 0).
Proof.
  destruct (run0 pipelined_run (NewRedisCon 2 2)) as [s|] eqn:E; [|vm_compute in E; discriminate].
  destruct (run0 draining s) as [s'|] eqn:E'.
  2: { vm_compute in E. injection E as <-. vm_compute in E'. discriminate. }
  exists s, s'. split; [done|]. split; [done|].
  split; [vm_compute in E; injection E as <-; vm_compute in E'; injection E' as <-; by vm_compute|].
  apply (pipeline_drains (fun _ => []) (fun _ => []) 2 2 pipelined_run s draining s');
    [unfold capacities; lia|apply pipelined_run_healthy|exact E|reflexivity|exact E'].
Defined.
