(* ===== verification/Redisfail.v ===== *)
(** * redis/redisConn.go: failures

    What the connection does when flushing fails, when [processTimeOut]
    replaces a silent connection, when it is closed friendly, and when callers
    pile up during a reconnect. *)

From S2P Require Import Prelude Chan Resp Respread Cmdpool Redisconn Pipeline.

Section Failures.
Context {F V : Type} (AppendFloat : F -> list Z) (Fprint : V -> list Z).
Implicit Types (s : RedisCon F V) (rq : request F V).

Abbreviation run := (run AppendFloat Fprint).
Abbreviation once := (once AppendFloat Fprint).

(** A failed [Flush] completes a command that is still queued.  The command
    is already in [waitChan] when [Flush] fails; its caller gets
    [ErrRedisConClose] and its slot goes back to the pool, but it stays in
    [waitChan], where it will be completed again, by then perhaps for another
    caller; the counter is one short of the commands in flight. *)
Theorem flush_failure_completes_early (s : RedisCon F V) (i : nat) (c : Command F V) (wok wok' fok : bool) (Ho : once s)
    (Hpc : spc s = SFlush i) (Hin : i ∈ items (waitChan (con s))) (Hc : slots (book s) !! i = Some c) :
  exists s' c', run [Send wok false; Send wok' fok] s = Some s' /\
    completed (book s') = completed (book s) ++ [(cmdIndex c, ResultChan c, closed_result)] /\
    i ∈ items (waitChan (con s')) /\ slots (book s') !! i = Some c' /\ slot_ok false c' /\
    waitProcessCmdNum (book s') = zlen (inflight s') - zlen (counting s') + Z.of_nat (leaving (book s')) - 1 /\
    (NetStatus (con s) = NetOpen -> IsNetClose (con s') = true).
Proof.
  destruct Ho as [Hb Hcnt _]. assert (i ∈ inflight s) as Hfl by (unfold inflight, wait_items; rewrite !elem_of_app; auto 6).
  apply elem_of_Permutation in Hfl as [fl Hperm]. pose proof (book_perm _ _ _ _ _ Hperm Hb) as Hb1.
  destruct (book_complete _ _ _ _ _ closed_result Hb1) as (c1 & g & Hl & Hg & Hb2 & Hcomp & _ & _ & Hwn & Hlv & _).
  rewrite Hc in Hl. injection Hl as <-. cbn [Redisconn.run Redisconn.step]. unfold processReceiveUser, Flush.
  rewrite Hpc. cbn. unfold send_failed, closeUserChan. cbn [book sender]. rewrite Hg. cbn.
  destruct (netClose_keeps (con s)) as (Hcc & Hwc & _).
  destruct (lookup_lt_is_Some_2 (slots g) i) as [c' Hc'].
  { unfold sendResultToUser in Hg. rewrite Hc in Hg. simpl in Hg. destruct (release c _) as [[c2 ri]|]; [|done].
    injection Hg as <-. unfold slots. simpl. rewrite length_insert. by eapply lookup_lt_Some. }
  eexists _, c'. split; [done|]. simpl. split; [done|]. split; [by rewrite Hwc|]. split; [done|]. split; [|split].
  - pose proof (bk_slot _ _ _ _ Hb2 i c' Hc') as Hok. rewrite bool_decide_false in Hok; [done|].
    intros Hi. pose proof (bk_nodup _ _ _ _ Hb1) as Hn. by apply NoDup_cons in Hn as [? _].
  - rewrite Hwn, Hlv, Hcnt. unfold inflight, zlen. simpl. rewrite Hpc, Hcc, netClose_items. simpl. lia.
  - intros Hopen. unfold netClose. by rewrite Hopen.
Qed.

(** [CloseFriendly] does nothing to a working connection.  It only sets the
    life cycle, and [exceptionProcess] waits for a signal that is not sent: on
    a working connection, with friendly closes anywhere in the run, the
    connection stays open, keeps taking commands, and [exceptionProcess] has
    not moved. *)
Theorem friendly_close_ignored (c w : Z) (acts : list (action F V)) (s : RedisCon F V) (Hcap : capacities c w)
    (Hacts : Forall (healthy AppendFloat Fprint) acts)
    (Hrun : run (acts ++ [DoCloseFriendly]) (NewRedisCon c w) = Some s) :
  cycleIsClosedFriendly (con s) = true /\ IsNetClose (con s) = false /\ chclosed (cmdChan (con s)) = false /\
  xpc s = XSignal /\ forall ok, exceptionProcess ok s = None.
Proof.
  assert (Forall (healthy AppendFloat Fprint) (acts ++ [DoCloseFriendly])) as Hall by (apply Forall_app; by repeat constructor).
  pose proof (piped_run _ _ _ _ _ Hall (piped_new _ _ _ _ Hcap) Hrun) as Hpp.
  destruct (pp_works _ _ _ Hpp) as [(Hn & Hcc & _ & _ & _ & _ & Hs & Hsc & _) _ _ _ Hx _ _].
  split; [|split; [done|split; [done|split; [done|]]]].
  - clear -Hrun. revert Hrun. generalize (NewRedisCon (F := F) (V := V) c w). induction acts as [|a acts IH]; intros s0; simpl.
    + by intros [= <-].
    + destruct (step AppendFloat Fprint a s0) as [s1|]; [|done]. simpl. apply IH.
  - intros ok. unfold exceptionProcess. rewrite Hx. unfold recv. by rewrite Hs, Hsc.
Qed.

(** ** Reconnecting *)

(** The rounds of the inner loop of [exceptionProcess], which waits for the
    commands outside [cmdChan]. *)
Definition waits_for_cmds (n : net) (pc : exc_pc) : Prop :=
  match pc with
  | XLoad | XClean _ | XCount => True
  | XCompare num => zlen (items (cmdChan n)) < num
  | _ => False
  end.

(** The connection is lost, [exceptionProcess] is in that loop, both loops
    sleep, nobody is inside [Close] or [resetNet], and a caller waits for room
    in the full [cmdChan]. *)
Record starved s : Prop := mkStarved {
  st_once : once s;
  st_net : IsNetClose (con s) = true;
  st_dead : cycleIsDead (con s) = false;
  st_exc : waits_for_cmds (con s) (xpc s);
  st_send : match spc s with STop | SDead => True | _ => False end;
  st_recv : match rpc s with RTop | RDead => True | _ => False end;
  st_open : chclosed (cmdChan (con s)) = false;
  st_full : full (cmdChan (con s)) = true;
  st_wait : wait_items (con s) = [];
  st_entering : entering s <> [];
  st_closers : closers s = [];
  st_time : match tpc s with TReset _ => False | _ => True end
}.

(** Everything but [Close], [CloseFriendly] and a reset by [processTimeOut]. *)
Definition from_inside (a : action F V) : bool :=
  plain a && match a with DoClose | DoCloseFriendly => false | TimeOut late _ => negb late | _ => true end.

Lemma wchan_empty n k : wait_items n = [] -> items (wchan n k) = [].
Proof.
  intros H. destruct (set_wchan_items n k (wchan n k)) as (rest & Hp & _). rewrite H in Hp.
  apply Permutation_nil_l in Hp. by apply eq_sym, app_nil in Hp as [-> _].
Qed.

(** The counter is above the length of [cmdChan]. *)
Lemma starved_count s : once s -> entering s <> [] -> zlen (items (cmdChan (con s))) < getProcessingCmdNum (book s).
Proof.
  intros Ho He. unfold getProcessingCmdNum. rewrite (on_count _ _ _ Ho). unfold inflight, zlen.
  rewrite !length_app. destruct (entering s); [done|]. cbn [length]. lia.
Qed.

Lemma starved_except ok s s' : starved s -> exceptionProcess ok s = Some s' -> starved s'.
Proof.
  intros [Ho Hn Hd Hx Hs Hr Hcl Hfull Hw He Hc Ht] E.
  pose proof (once_except _ _ _ _ _ Ho E) as Ho'. unfold exceptionProcess in E. destruct (xpc s) eqn:Hpc; try done.
  - by injection E as <-.
  - unfold clean_wait, cleanChan, pop, recv in E. rewrite (wchan_empty _ _ Hw) in E.
    destruct (chclosed (wchan (con s) k)); by injection E as <-.
  - injection E as <-. split; try done. by apply (starved_count s).
  - rewrite (proj2 (Z.leb_gt _ _) Hx) in E. by injection E as <-.
Qed.

Lemma starved_loops s : starved s ->
  (forall w f s', processReceiveUser AppendFloat Fprint w f s = Some s' -> once s' -> starved s') /\
  (forall s', processReceiveRedis s = Some s' -> once s' -> starved s').
Proof.
  intros [Ho Hn Hd Hx Hs Hr Hcl Hfull Hw He Hc Ht]. split.
  - intros w f s' E Ho'. unfold processReceiveUser in E. destruct (spc s); try done; rewrite ?Hn, ?Hd in E; by injection E as <-.
  - intros s' E Ho'. unfold processReceiveRedis in E. destruct (rpc s); try done; rewrite ?Hn, ?Hd in E; by injection E as <-.
Qed.

Lemma starved_callers a s s' : plain a = true -> starved s -> step AppendFloat Fprint a s = Some s' -> once s' ->
  match a with Call _ _ | Got _ | Counted _ | Pushed _ | Uncounted => starved s' | _ => True end.
Proof.
  intros Hp Hst E Ho'. pose proof Hst as [Ho Hn Hd Hx Hs Hr Hcl Hfull Hw He Hc Ht].
  destruct a as [ck rq|k|k|k| | | | | | | | | | | | | |]; try done; simpl in *.
  - injection E as <-. apply negb_true_iff in Hp. unfold sendToCmdChan in *. destruct (ck && _); [done|]. rewrite Hp in *.
    unfold Get_turn in *. by rewrite (proj2 (Z.eqb_neq _ _) (proj1 (bk_size _ _ _ _ (on_book _ _ _ Ho)))) in *.
  - unfold caller_get in E. destruct (getting s !! k) as [[i rq]|]; [|done]. simpl in E.
    destruct (packageRedisCmd _ _ _ _ _) as [[g b]|]; [|done]. by injection E as <-.
  - unfold caller_count in E. destruct (counting s !! k); [|done]. injection E as <-. split; try done. simpl. by destruct (entering s).
  - unfold caller_push, send in E. destruct (entering s !! k); [|done]. simpl in E. by rewrite Hcl, Hfull in E.
  - destruct (uncount_cmd _); [|done]. by injection E as <-.
Qed.

Lemma starved_step a s s' : from_inside a = true -> starved s -> step AppendFloat Fprint a s = Some s' -> starved s'.
Proof.
  intros Hf Hst E. apply andb_true_iff in Hf as [Hp Hf].
  pose proof (once_step _ _ _ _ _ Hp (st_once _ Hst) E) as Ho'. pose proof (starved_callers a s s' Hp Hst E Ho') as Hcall.
  destruct (starved_loops s Hst) as [Hsend Hrecv]. pose proof (st_recv _ Hst) as Hr.
  destruct a as [ck rq|k|k|k| |w f| |k r| |e|r|ok|l ok| | | |k|]; simpl in *; try done.
  - by eapply Hsend.
  - unfold buffer_spills in E. destruct (unflushed _); [done|]. destruct (_ && _); [done|]. injection E as <-. by destruct Hst.
  - unfold server_answers in E. destruct (conns _ !! k); [|done]. simpl in E. destruct (atserver _) as [|[id p] rest]; [done|].
    injection E as <-. by destruct Hst.
  - by apply Hrecv.
  - unfold receive_fails in E. by destruct (rpc s).
  - unfold receive_torn in E. by destruct (rpc s).
  - by eapply starved_except.
  - apply negb_true_iff in Hf as ->. injection E as <-. unfold processTimeOut in *. pose proof (st_time _ Hst) as Ht.
    destruct (tpc s) as [|x|p]; [..|done]; by destruct Hst.
  - unfold hang_up in E. destruct (closing _); [done|]. injection E as <-. by destruct Hst.
  - destruct (SendExceptionSignal _ _) as [n|] eqn:En; [|done]. injection E as <-. unfold SendExceptionSignal in En.
    destruct (signalling _); [done|]. destruct (try_send _ _) as [[ch b]|]; [|done]. injection En as <-. by destruct Hst.
  - unfold caller_closes in E. by rewrite (st_closers _ Hst) in E.
Qed.

(** A caller blocked on a full [cmdChan] stops the reconnect.
    [exceptionProcess] waits until the counter is at most the length of
    [cmdChan]; a caller that is counted but blocked on the full channel keeps
    it above, and the channel is only emptied by the send loop, which waits for
    the reconnect.  Whatever the callers, the loops, the server and
    [exceptionProcess] do, the connection stays closed, until somebody calls
    [Close] or [processTimeOut] resets it. *)
Theorem reconnect_starves (s : RedisCon F V) (acts : list (action F V)) (s' : RedisCon F V) (Hs : starved s)
    (Hacts : forallb from_inside acts = true) (Hrun : run acts s = Some s') :
  starved s' /\ IsNetClose (con s') = true.
Proof.
  enough (starved s') as H by (split; [done|apply H]). revert s Hs Hrun Hacts.
  induction acts as [|a acts IH]; intros s Hs; simpl; [by intros [= <-]|].
  destruct (step AppendFloat Fprint a s) as [s1|] eqn:E; [|done]. simpl. intros Hrun [Ha Hacts]%andb_true_iff.
  eapply (IH s1); [|done|done]. by eapply starved_step.
Qed.

End Failures.

(** ** Witnesses *)

Abbreviation nofmt := (fun _ : unit => @nil Z).

(** A run up to a command in [waitChan] whose flush is next. *)
Definition flushing_run : list (action unit unit) := call_cmd 97 1 ++ replicate 5 (Send true true).

Lemma flushing_once : exists s, run0 flushing_run (NewRedisCon 2 2) = Some s /\ once nofmt nofmt s.
Proof.
  destruct (run0 flushing_run (NewRedisCon 2 2)) as [s|] eqn:E; [|vm_compute in E; discriminate].
  exists s. split; [done|]. eapply (once_run nofmt nofmt); [|apply once_init|exact E]; [by repeat constructor|lia].
Qed.

Lemma flush_failure_completes_early_witness :
  exists s s' (c c' : Command unit unit), run0 flushing_run (NewRedisCon 2 2) = Some s /\
    run0 [Send true false; Send true true] s = Some s' /\
    completed (book s') = completed (book s) ++ [(cmdIndex c, ResultChan c, closed_result)] /\
    1%nat ∈ items (waitChan (con s')) /\ slots (book s') !! 1%nat = Some c' /\ slot_ok false c' /\
    waitProcessCmdNum (book s') = zlen (inflight s') - zlen (counting s') + Z.of_nat (leaving (book s')) - 1 /\
    (NetStatus (con s) = NetOpen -> IsNetClose (con s') = true).
Proof.
  destruct flushing_once as (s & E & Ho). exists s.
  assert (spc s = SFlush 1 /\ 1%nat ∈ items (waitChan (con s)) /\ is_Some (slots (book s) !! 1%nat)) as (Hpc & Hin & [c Hc]).
  { vm_compute in E. injection E as <-. split; [reflexivity|]. split; [left|by eexists]. }
  destruct (flush_failure_completes_early nofmt nofmt s 1 c true true true Ho Hpc Hin Hc) as (s' & c' & H).
  exists s', c, c'. by split.
Defined.

Lemma friendly_close_ignored_witness :
  exists s, run0 (pipelined_run ++ [DoCloseFriendly]) (NewRedisCon 2 2) = Some s /\
    cycleIsClosedFriendly (con s) = true /\ IsNetClose (con s) = false /\ chclosed (cmdChan (con s)) = false /\
    xpc s = XSignal /\ forall ok, exceptionProcess ok s = None.
Proof.
  destruct (run0 (pipelined_run ++ [DoCloseFriendly]) (NewRedisCon 2 2)) as [s|] eqn:E; [|vm_compute in E; discriminate].
  exists s. split; [done|].
  apply (friendly_close_ignored nofmt nofmt 2 2 pipelined_run s); [unfold capacities; lia|apply pipelined_run_healthy|exact E].
Defined.

(** The server goes away while nothing is sent, the first dial fails, and
    three callers send meanwhile: two fill [cmdChan], the third waits. *)
Definition outage : list (action unit unit) :=
  [Recv; Recv; RecvFails EShortLine; HangUp; Signal] ++ replicate 13 (Except true) ++ [Recv; Except true; Recv; Recv] ++
  replicate 7 (Except false) ++
  flat_map (fun k => [Call false (get_request 97 k); Got 0; Counted 0]) [1; 2; 3]%nat ++ [Pushed 0; Pushed 0].

Lemma outage_starved : exists s, run0 outage (NewRedisCon 2 2) = Some s /\ starved nofmt nofmt s.
Proof.
  destruct (run0 outage (NewRedisCon 2 2)) as [s|] eqn:E; [|vm_compute in E; discriminate].
  exists s. split; [done|]. split; [eapply (once_run nofmt nofmt); [|apply once_init|exact E]; [by repeat constructor|lia]|..].
  all: vm_compute in E; by injection E as <-.
Qed.

Lemma reconnect_starves_witness :
  exists s s', run0 outage (NewRedisCon 2 2) = Some s /\
    run0 [Except true; Send true true; Recv; Call false (get_request 97 4); Except true] s = Some s' /\
    (starved nofmt nofmt s' /\ IsNetClose (con s') = true).
Proof.
  destruct outage_starved as (s & E & Hs). exists s.
  destruct (run0 [Except true; Send true true; Recv; Call false (get_request 97 4); Except true] s) as [s'|] eqn:E';
    [|vm_compute in E; injection E as <-; vm_compute in E'; discriminate].
  exists s'. split; [done|]. split; [done|]. eapply (reconnect_starves nofmt nofmt s); [done| |exact E']. reflexivity.
Defined.

(** ** Replacing a silent connection *)

(** Callers 1 to 101 send [GET a] and the server is slow; [processTimeOut]
    resets the connection; caller 102 sends [GET b]; then the server answers
    [r] to the first command on the old connection. *)
Definition silent_run (a b : Z) (r : reply) : list (action unit unit) :=
  [Recv; Recv] ++ flat_map (fun k => call_cmd a k ++ send_cmd) (seq 1 101) ++
  replicate 9 (TimeOut true true) ++ call_cmd b 102 ++ send_cmd ++ [Serve 0 r; Recv; Recv; Recv].

(** [processTimeOut] misroutes replies.  [resetNet] replaces reader, writer
    and [waitChan] of a silent connection while the receive loop is still
    reading the old one: the late reply to the first caller's command is handed
    to the last caller, and the first 101 commands are left in a channel that
    no goroutine uses any more. *)
Theorem timeout_reset_misroutes (a b : Z) (r : reply) :
  exists s, run0 (silent_run a b r) (NewRedisCon 200 200) = Some s /\
    answered (line s) = [(1, [str "GET"; [a]], r)] /\ completed (book s) = [(102, Some 102%nat, reply_result r)] /\
    last (issued (book s)) = Some (102, Some 102%nat, Some [str "GET"; [b]]) /\
    length (stranded (con s)) = 101%nat /\ items (waitChan (con s)) = [] /\ items (cmdChan (con s)) = [] /\
    spc s = STop /\ rpc s = RTop /\ xpc s = XSignal.
Proof. vm_compute. eexists. split; [reflexivity|]. repeat split. Qed.

(** ** Closing [waitChan] too late *)

(** The first command is answered with a broken reply, which completes it and
    closes the connection, while the send loop waits for a command.
    [exceptionProcess] finds the next command, the only one counted, in
    [cmdChan] and goes on; the send loop takes it, and puts it into [waitChan]
    after [closeChan] has seen the channel empty and before it closes it. *)
Definition late_run : list (action unit unit) :=
  call_cmd 97 1 ++ send_cmd ++ [Send true true; Recv; Recv; RecvFails EShortLine; Recv; Recv; Uncounted; HangUp; Signal] ++
  replicate 9 (Except true) ++ [Call false (get_request 98 2); Got 0; Counted 0; Pushed 0] ++
  replicate 4 (Except true) ++ replicate 4 (Send true true) ++ replicate 9 (Except true) ++ [Send true true].

(** A command can be stranded by a reconnect.  The connection is open again,
    all goroutines are back at their top, and the second caller's command is in
    the replaced [waitChan]: it is neither completed nor will anybody take
    it. *)
Example reconnect_strands :
  exists s, run0 late_run (NewRedisCon 2 2) = Some s /\ forallb plain late_run = true /\
    IsNetClose (con s) = false /\ stranded (con s) = [2%nat] /\ items (waitChan (con s)) = [] /\ items (cmdChan (con s)) = [] /\
    issued (book s) = [(1, Some 1%nat, Some [str "GET"; [97]]); (2, Some 2%nat, Some [str "GET"; [98]])] /\
    (completed (book s)).*1 = [(1, Some 1%nat)] /\ spc s = STop /\ rpc s = RTop /\ xpc s = XSignal /\
    waitProcessCmdNum (book s) = 1.
Proof. vm_compute. eexists. split; [reflexivity|]. repeat split. Qed.
