(* ===== verification/Redisdb.v ===== *)
(** * Programs that talk to Redis, and what the server promises them

    The helpers of redis/helper.go and the web server only use a connection to
    send commands and to wait for replies.  [prog] is such a program: a command
    at a time, each continued with the result of the call, so that the
    interleavings of several callers are the interleavings of their commands.
    The server is not part of the repository's Go code; the class [Redis] says
    what the documentation of the commands in use promises about it, on a
    keyspace of strings, hashes, lists and sorted sets.  The keyspace itself is
    an instance.  That commands and replies go over the wire unchanged and in
    order is the subject of Resp.v, Respread.v and Pipeline.v. *)

From stdpp Require Import sorting.
From S2P Require Import Prelude Resp Respread Strconv Redisconn.

(** ** Programs *)

(** [Req wait parts k] sends the command [parts] and goes on with the reply
    and the error of the call; without [wait] (the [Send] calls) the reply is
    nil.  [Crash] is a panic. *)
Inductive prog (A : Type) : Type :=
| Done (a : A)
| Crash
| Req (wait : bool) (parts : list (list Z)) (k : reply * option result_err -> prog A).

Arguments Done {A}.
Arguments Crash {A}.
Arguments Req {A}.

Fixpoint pbind {A B : Type} (p : prog A) (f : A -> prog B) : prog B :=
  match p with
  | Done a => f a
  | Crash => Crash
  | Req w parts k => Req w parts (fun r => pbind (k r) f)
  end.

Definition lift {A : Type} (x : go A) : prog A := match x with Ret a => Done a | Panic => Crash end.

Notation "'let*' x ':=' c 'in' k" := (pbind c (fun x => k))
  (at level 10, x pattern, c at level 100, k at level 200) : go_scope.

(** ** The keyspace *)

Inductive rvalue : Type :=
| KString (s : list Z)
| KHash (h : gmap (list Z) (list Z))
| KList (l : list (list Z))
| KZset (z : gmap (list Z) Z).

Abbreviation keyspace := (gmap (list Z) rvalue).

Inductive cmdname : Type :=
| EXISTS | DEL | HMSET | HMGET | HGETALL | HSET | HGET | HDEL | HEXISTS | HLEN
| LLEN | LPOP | LPUSH | INCR | ZADD | ZREM | ZRANGE.

(** Command names are not case sensitive. *)
Definition upper (s : list Z) : list Z := (fun b => if (97 <=? b) && (b <=? 122) then b - 32 else b) <$> s.

Definition cmd_of (s : list Z) : option cmdname :=
  list_find (fun c => upper s = c.1)
    [(str "EXISTS", EXISTS); (str "DEL", DEL); (str "HMSET", HMSET); (str "HMGET", HMGET); (str "HGETALL", HGETALL);
     (str "HSET", HSET); (str "HGET", HGET); (str "HDEL", HDEL); (str "HEXISTS", HEXISTS); (str "HLEN", HLEN);
     (str "LLEN", LLEN); (str "LPOP", LPOP); (str "LPUSH", LPUSH); (str "INCR", INCR); (str "ZADD", ZADD);
     (str "ZREM", ZREM); (str "ZRANGE", ZRANGE)] ≫= fun c => Some c.2.2.

Definition WRONGTYPE : reply := RError (str "WRONGTYPE Operation against a key holding the wrong kind of value").
Definition ERR_args : reply := RError (str "ERR wrong number of arguments").
Definition ERR_integer : reply := RError (str "ERR value is not an integer or out of range").

(** The content of a key of each type; a missing key is empty. *)
Definition hash_at (k : keyspace) (key : list Z) : option (gmap (list Z) (list Z)) :=
  match k !! key with None => Some ∅ | Some (KHash h) => Some h | _ => None end.
Definition list_at (k : keyspace) (key : list Z) : option (list (list Z)) :=
  match k !! key with None => Some [] | Some (KList l) => Some l | _ => None end.
Definition zset_at (k : keyspace) (key : list Z) : option (gmap (list Z) Z) :=
  match k !! key with None => Some ∅ | Some (KZset z) => Some z | _ => None end.
Definition string_at (k : keyspace) (key : list Z) : option (option (list Z)) :=
  match k !! key with None => Some None | Some (KString s) => Some (Some s) | _ => None end.

(** Storing a collection; empty ones are removed. *)
Definition put_hash (k : keyspace) (key : list Z) (h : gmap (list Z) (list Z)) : keyspace :=
  if decide (h = ∅) then delete key k else <[key := KHash h]> k.
Definition put_list (k : keyspace) (key : list Z) (l : list (list Z)) : keyspace :=
  match l with [] => delete key k | _ => <[key := KList l]> k end.
Definition put_zset (k : keyspace) (key : list Z) (z : gmap (list Z) Z) : keyspace :=
  if decide (z = ∅) then delete key k else <[key := KZset z]> k.

Definition opt_bulk (o : option (list Z)) : reply := match o with Some s => RBulk s | None => RNil end.

(** Alternating names and values. *)
Fixpoint insert_pairs (h : gmap (list Z) (list Z)) (args : list (list Z)) : gmap (list Z) (list Z) :=
  match args with
  | f :: v :: args => insert_pairs (<[f := v]> h) args
  | _ => h
  end.

(** The order of a sorted set: by score, then by member. *)
Fixpoint lex_le (a b : list Z) : bool :=
  match a, b with
  | [], _ => true
  | _ :: _, [] => false
  | x :: a, y :: b => (x <? y) || (x =? y) && lex_le a b
  end.
Definition zle (a b : list Z * Z) : Prop := (a.2 < b.2 \/ a.2 = b.2 /\ lex_le a.1 b.1 = true).
#[export] Instance zle_dec : RelDecision zle := fun a b => ltac:(unfold zle; apply _).

Definition members (z : gmap (list Z) Z) : list (list Z) := (merge_sort zle (map_to_list z)).*1.

(** ** The commands in use *)

(** One command of the documentation on one key; [None] where this model says
    nothing. *)
Definition exec_cmd (c : cmdname) (k : keyspace) (key : list Z) (args : list (list Z)) : option (keyspace * reply) :=
  match c, args with
  | EXISTS, [] => Some (k, RInt (if decide (is_Some (k !! key)) then 1 else 0))
  | DEL, [] => Some (delete key k, RInt (if decide (is_Some (k !! key)) then 1 else 0))
  | HMSET, _ =>
      match hash_at k key with
      | None => Some (k, WRONGTYPE)
      | Some h =>
          if (zlen args =? 0) || negb (zlen args mod 2 =? 0) then Some (k, ERR_args)
          else Some (put_hash k key (insert_pairs h args), RStatus (str "OK"))
      end
  | HMGET, _ =>
      match hash_at k key with
      | None => Some (k, WRONGTYPE)
      | Some h => if zlen args =? 0 then Some (k, ERR_args) else Some (k, RArray ((fun f => opt_bulk (h !! f)) <$> args))
      end
  | HGETALL, [] =>
      match hash_at k key with
      | None => Some (k, WRONGTYPE)
      | Some h => Some (k, RArray (flat_map (fun kv => [RBulk kv.1; RBulk kv.2]) (map_to_list h)))
      end
  | HSET, [f; v] =>
      match hash_at k key with
      | None => Some (k, WRONGTYPE)
      | Some h => Some (put_hash k key (<[f := v]> h), RInt (if decide (is_Some (h !! f)) then 0 else 1))
      end
  | HGET, [f] =>
      match hash_at k key with
      | None => Some (k, WRONGTYPE)
      | Some h => Some (k, opt_bulk (h !! f))
      end
  | HDEL, [f] =>
      match hash_at k key with
      | None => Some (k, WRONGTYPE)
      | Some h => Some (put_hash k key (delete f h), RInt (if decide (is_Some (h !! f)) then 1 else 0))
      end
  | HEXISTS, [f] =>
      match hash_at k key with
      | None => Some (k, WRONGTYPE)
      | Some h => Some (k, RInt (if decide (is_Some (h !! f)) then 1 else 0))
      end
  | HLEN, [] =>
      match hash_at k key with
      | None => Some (k, WRONGTYPE)
      | Some h => Some (k, RInt (Z.of_nat (size h)))
      end
  | LLEN, [] =>
      match list_at k key with
      | None => Some (k, WRONGTYPE)
      | Some l => Some (k, RInt (zlen l))
      end
  | LPOP, [] =>
      match list_at k key with
      | None => Some (k, WRONGTYPE)
      | Some [] => Some (k, RNil)
      | Some (x :: l) => Some (put_list k key l, RBulk x)
      end
  | LPUSH, [v] =>
      match list_at k key with
      | None => Some (k, WRONGTYPE)
      | Some l => Some (put_list k key (v :: l), RInt (zlen l + 1))
      end
  | INCR, [] =>
      match string_at k key with
      | None => Some (k, WRONGTYPE)
      | Some o =>
          match ParseInt (default (str "0") o) 64 with
          | (n, None) =>
              if n <? 2 ^ 63 - 1 then Some (<[key := KString (itoa (n + 1))]> k, RInt (n + 1)) else Some (k, ERR_integer)
          | (_, Some _) => Some (k, ERR_integer)
          end
      end
  | ZADD, [score; x] =>
      match ParseInt score 64, zset_at k key with
      | (_, Some _), _ => None
      | _, None => Some (k, WRONGTYPE)
      | (n, None), Some z =>
          Some (put_zset k key (<[x := n]> z), RInt (if decide (is_Some (z !! x)) then 0 else 1))
      end
  | ZREM, [x] =>
      match zset_at k key with
      | None => Some (k, WRONGTYPE)
      | Some z => Some (put_zset k key (delete x z), RInt (if decide (is_Some (z !! x)) then 1 else 0))
      end
  | ZRANGE, [a; b] =>
      match zset_at k key with
      | None => Some (k, WRONGTYPE)
      | Some z => if decide (a = str "0" /\ b = str "-1") then Some (k, RArray (RBulk <$> members z)) else None
      end
  | _, _ => None
  end.

Definition command (k : keyspace) (parts : list (list Z)) : option (keyspace * reply) :=
  match parts with
  | n :: key :: args => cmd_of n ≫= fun c => exec_cmd c k key args
  | _ => None
  end.

(** ** The interface *)

(** A server [W]: it shows a keyspace, and on the commands above it does what
    the documentation says. *)
Class Redis (W : Type) := {
  view : W -> keyspace;
  exec : W -> list (list Z) -> W * reply;
  exec_command s parts k r : command (view s) parts = Some (k, r) -> view (exec s parts).1 = k /\ (exec s parts).2 = r;
}.

(** What can happen to a call: it is carried out; it fails before the server
    saw the command; or the server carries it out and the reply is lost. *)
Inductive fault : Type := Delivered | Refused | Lost.

Definition call `{Redis W} (f : fault) (s : W) (wait : bool) (parts : list (list Z))
    : W * (reply * option result_err) :=
  match f with
  | Refused => (s, (RNil, Some ErrRedisConClose))
  | Lost => ((exec s parts).1, (RNil, Some ErrRedisConClose))
  | Delivered =>
      let '(s, r) := exec s parts in
      (s, if wait then (Data (reply_result r), Err (reply_result r)) else (RNil, None))
  end.

(** Running a program alone; the faults are those of its calls, all calls are
    delivered after the list ends. *)
Fixpoint run_prog `{Redis W} {A : Type} (fs : list fault) (p : prog A) (s : W) : go (W * A) :=
  match p with
  | Done a => Ret (s, a)
  | Crash => Panic
  | Req w parts k =>
      let '(s, r) := call (default Delivered (head fs)) s w parts in run_prog (tail fs) (k r) s
  end.

Section Runs.
Context `{Redis W}.

Lemma run_bind {A B} (p : prog A) (f : A -> prog B) s :
  run_prog [] (pbind p f) s = let! (s, a) := run_prog [] p s in run_prog [] (f a) s.
Proof.
  revert s. induction p as [a| |w parts k IH]; intros s; [done..|]. cbn [pbind run_prog tail].
  destruct (call _ s w parts) as [s' r]. apply IH.
Qed.

(** A call of a documented command. *)
Lemma run_do {A} parts (k : reply * option result_err -> prog A) s k' r : command (view s) parts = Some (k', r) ->
  exists s', view s' = k' /\ run_prog [] (Req true parts k) s = run_prog [] (k (Data (reply_result r), Err (reply_result r))) s'.
Proof.
  intros Hc. destruct (exec_command s parts k' r Hc) as [Hv Hr]. exists (exec s parts).1. split; [done|].
  cbn. destruct (exec s parts) as [s' r']. cbn in *. by subst r'.
Qed.

Lemma run_send {A} parts (k : reply * option result_err -> prog A) s k' r : command (view s) parts = Some (k', r) ->
  exists s', view s' = k' /\ run_prog [] (Req false parts k) s = run_prog [] (k (RNil, None)) s'.
Proof.
  intros Hc. destruct (exec_command s parts k' r Hc) as [Hv Hr]. exists (exec s parts).1. split; [done|].
  cbn. by destruct (exec s parts) as [s' r'].
Qed.
End Runs.

(** One call of a program in the goal, by the documented behaviour [Hc] of its
    command; names the server afterwards and its keyspace. *)
Tactic Notation "run_call" constr(Hc) "as" simple_intropattern(s) simple_intropattern(Hv) :=
  match goal with
  | |- context [run_prog [] (Req true ?p ?k) ?s0] => destruct (run_do p k s0 _ _ Hc) as (s & Hv & ->)
  | |- context [run_prog [] (Req false ?p ?k) ?s0] => destruct (run_send p k s0 _ _ Hc) as (s & Hv & ->)
  end.

(** ** Calls on keys of the right type *)

Section Commands.
Context (k : keyspace) (key : list Z).

Lemma cmd_exists : command k [str "EXISTS"; key] = Some (k, RInt (if decide (is_Some (k !! key)) then 1 else 0)).
Proof. done. Qed.

Lemma cmd_del : command k [str "DEL"; key] = Some (delete key k, RInt (if decide (is_Some (k !! key)) then 1 else 0)).
Proof. done. Qed.

Lemma cmd_llen l : list_at k key = Some l -> command k [str "llen"; key] = Some (k, RInt (zlen l)).
Proof. intros H. unfold command. change (cmd_of (str "llen")) with (Some LLEN). cbn. by rewrite H. Qed.

Lemma cmd_lpop x l : list_at k key = Some (x :: l) -> command k [str "lpop"; key] = Some (put_list k key l, RBulk x).
Proof. intros H. unfold command. change (cmd_of (str "lpop")) with (Some LPOP). cbn. by rewrite H. Qed.

Lemma cmd_lpop_nil : list_at k key = Some [] -> command k [str "lpop"; key] = Some (k, RNil).
Proof. intros H. unfold command. change (cmd_of (str "lpop")) with (Some LPOP). cbn. by rewrite H. Qed.

Lemma cmd_lpush x l : list_at k key = Some l ->
  command k [str "lpush"; key; x] = Some (put_list k key (x :: l), RInt (zlen l + 1)).
Proof. intros H. unfold command. change (cmd_of (str "lpush")) with (Some LPUSH). cbn. by rewrite H. Qed.

Lemma cmd_incr o n : string_at k key = Some o -> ParseInt (default (str "0") o) 64 = (n, None) -> n < 2 ^ 63 - 1 ->
  command k [str "incr"; key] = Some (<[key := KString (itoa (n + 1))]> k, RInt (n + 1)).
Proof.
  intros H Hp Hn. unfold command. change (cmd_of (str "incr")) with (Some INCR). cbn [mbind option_bind exec_cmd].
  rewrite H, Hp. by rewrite (proj2 (Z.ltb_lt _ _)).
Qed.

Lemma cmd_zadd z n x : zset_at k key = Some z -> - 2 ^ 63 <= n < 2 ^ 63 ->
  command k [str "zadd"; key; itoa n; x] =
    Some (put_zset k key (<[x := n]> z), RInt (if decide (is_Some (z !! x)) then 0 else 1)).
Proof.
  intros H Hn. unfold command. change (cmd_of (str "zadd")) with (Some ZADD). cbn [mbind option_bind exec_cmd].
  rewrite H, ParseInt_itoa by lia. by rewrite (proj2 (Z.ltb_ge _ _)), (proj2 (Z.ltb_lt _ _)) by lia.
Qed.

Lemma cmd_zrem z x : zset_at k key = Some z ->
  command k [str "zrem"; key; x] =
    Some (put_zset k key (delete x z), RInt (if decide (is_Some (z !! x)) then 1 else 0)).
Proof. intros H. unfold command. change (cmd_of (str "zrem")) with (Some ZREM). cbn. by rewrite H. Qed.

Lemma cmd_zrange z : zset_at k key = Some z ->
  command k [str "zrange"; key; itoa 0; itoa (-1)] = Some (k, RArray (RBulk <$> members z)).
Proof.
  intros H. unfold command. change (cmd_of (str "zrange")) with (Some ZRANGE). cbn [mbind option_bind exec_cmd].
  rewrite H. by rewrite decide_True by done.
Qed.

(** What is stored is found, and nothing else changes. *)
Lemma list_at_put l : list_at (put_list k key l) key = Some l.
Proof. unfold list_at. destruct l; cbn; [by rewrite lookup_delete_eq|by rewrite lookup_insert_eq]. Qed.

Lemma zset_at_put z : zset_at (put_zset k key z) key = Some z.
Proof.
  unfold zset_at, put_zset. case_decide as E; [subst; by rewrite lookup_delete_eq|by rewrite lookup_insert_eq].
Qed.

Lemma put_list_ne l key' : key <> key' -> put_list k key l !! key' = k !! key'.
Proof. intros H. destruct l; [by apply lookup_delete_ne|by apply lookup_insert_ne]. Qed.

Lemma put_zset_ne z key' : key <> key' -> put_zset k key z !! key' = k !! key'.
Proof. intros H. unfold put_zset. case_decide; [by apply lookup_delete_ne|by apply lookup_insert_ne]. Qed.
End Commands.

(** ** Instances *)

(** The keyspace as a server. *)
#[export] Instance keyspace_redis : Redis keyspace.
Proof.
  refine {| view := id;
            exec k parts := default (k, RError (str "ERR unknown command")) (command k parts) |}.
  intros s parts k r Hc. unfold id in Hc. by rewrite Hc.
Defined.
