(* ===== verification/Helper.v ===== *)
(** * redis/helper.go: objects and keys in Redis

    The methods of [RedisOp] (on a connection) and [RedisObj] (on a pool) as
    programs that send commands.  The calls with a fixed number of arguments
    write the same commands as the general ones (see [interface_asks] in
    Redisconn.v), so both are [Do] and [Send] here.  A pool refuses a first
    argument that is a string longer than [MAX_KEY_LEN]. *)

From S2P Require Import Prelude Resp Respread Strconv Reply Redisconn Redisdb Gotype Scan.

(** redis/pool.go *)
Definition MAX_KEY_LEN : Z := 464.

Inductive pool_err : Type := ErrorKeyTooLong | PoolCall (e : result_err).

Inductive obj_err : Type :=
| ObjPool (e : pool_err)
| ObjConv (e : conv_err (E := result_err))
| ObjPoolConv (e : conv_err (E := pool_err))
| ObjScan (e : scan_err).

Section Helper.
Context {F : Type} (fzero : F).
Context (ParseFloat : list Z -> Z -> F * option num_err) (AppendFloat : F -> list Z).
Context (Fprint_rest : gtype * gval F -> list Z).
(** The order in which a range over the fields of a struct visits them. *)
Context (range : list (list Z) -> list (list Z)).
#[local] Abbreviation value := (option (gtype * gval F)).
#[local] Abbreviation dest := (@dest F).

Definition bytes_of (v : value) : list Z := arg_bytes AppendFloat (Fprint Fprint_rest) (arg_of v).

Definition vstr (s : list Z) : value := Some (TString, VString s).
Definition vint (n : Z) : value := Some (TInt 64, VInt n).
Definition vfloat (f : F) : value := Some (TFloat 64, VFloat f).

(** ** Calls on a connection *)

Definition Do (cmd : list Z) (args : list value) : prog (reply * option result_err) :=
  Req true (cmd :: (bytes_of <$> args)) Done.

Definition Send (cmd : list Z) (args : list value) : prog (option result_err) :=
  Req false (cmd :: (bytes_of <$> args)) (fun r => Done r.2).

(** The error checks of the methods with a boolean result. *)
Definition ok_bool {E : Type} (r : bool * option (conv_err (E := E))) : bool :=
  match r.2 with Some _ => false | None => r.1 end.

(** ** RedisOp *)

Definition SetKey (key : list Z) (val : value) : prog (option result_err) := Send (str "SET") [vstr key; val].
Definition SetEX (key : list Z) (seconds : Z) (val : value) : prog (option result_err) :=
  Send (str "SETEX") [vstr key; vint seconds; val].

Definition SetObject (key : list Z) (obj : value) : prog (option result_err) :=
  let* args := lift (AddFlat (Add [] [vstr key]) obj) in Send (str "HMSET") args.

Definition SetField (key fieldKey : list Z) (obj : value) : prog (option result_err) :=
  Send (str "HSET") [vstr key; vstr fieldKey; obj].

Definition Get (key : list Z) : prog (reply * option result_err) := Do (str "GET") [vstr key].

Definition GetObject1 (key : list Z) (obj : dest) : prog (dest * option obj_err) :=
  let* (r, err) := Do (str "HGETALL") [vstr key] in
  match Values r err with
  | (_, Some e) => Done (obj, Some (ObjConv e))
  | (v, None) => let* (obj, err) := lift (ScanStruct ParseFloat (default [] v) obj) in Done (obj, ObjScan <$> err)
  end.

Definition GetObject (key : list Z) (obj : dest) : prog (dest * option obj_err) :=
  let* (fields, err) := lift (GetStructFields range obj) in
  match err with
  | Some e => Done (obj, Some (ObjScan e))
  | None =>
      let* (r, err) := Do (str "HMGET") (Add [] [vstr key] ++ (vstr <$> fields)) in
      match Values r err with
      | (_, Some e) => Done (obj, Some (ObjConv e))
      | (v, None) =>
          let* (obj, err) := lift (ScanStructByValue ParseFloat (default [] v) (Some <$> fields) obj) in
          Done (obj, ObjScan <$> err)
      end
  end.

Definition Incrby (key : list Z) (val : value) : prog (option result_err) := Send (str "INCRBY") [vstr key; val].
Definition FieldIncrby (key : list Z) (fieldKey val : value) : prog (option result_err) :=
  Send (str "HINCRBY") [vstr key; fieldKey; val].
Definition GetField (objKey : list Z) (fieldKey : value) : prog (reply * option result_err) :=
  Do (str "HGET") [vstr objKey; fieldKey].

Definition Exist (key : list Z) : prog bool :=
  let* (r, err) := Do (str "EXISTS") [vstr key] in Done (ok_bool (Bool r err)).
Definition ExistField (objKey : list Z) (fieldKey : value) : prog bool :=
  let* (r, err) := Do (str "HEXISTS") [vstr objKey; fieldKey] in Done (ok_bool (Bool r err)).
Definition DelField (objKey fieldKey : value) : prog bool :=
  let* (r, err) := Do (str "HDEL") [objKey; fieldKey] in Done (ok_bool (Bool r err)).
Definition Del (key : list Z) : prog bool :=
  let* (r, err) := Do (str "DEL") [vstr key] in Done (ok_bool (Bool r err)).

Definition geo_args (key : list Z) (longi lati : F) (radius count : Z) : list value :=
  [vstr key; vfloat longi; vfloat lati; vint radius; vstr (str "m"); vstr (str "WITHCOORD"); vstr (str "COUNT");
   vint count; vstr (str "ASC")].

(** One element of a GEORADIUS reply: the first datum names the member, the
    others hold coordinates; errors of the coordinates are dropped. *)
Definition geo_data {A : Type} (member : reply -> A + conv_err (E := result_err)) (value : reply)
    : (list A * list F) + conv_err (E := result_err) :=
  match default [] (Values (E := result_err) value None).1 with
  | [] => inl ([], [])
  | d :: datas =>
      let poss := flat_map (fun data => default [] (Float64s (E := result_err) fzero (fun s => ParseFloat s 64) data None).1) datas in
      match member d with
      | inl id => inl ([id], poss)
      | inr e => inr e
      end
  end.

Fixpoint geo_loop {A : Type} (member : reply -> A + conv_err (E := result_err)) (values : list reply) (ids : list A)
    (poss : list F) : (list A * list F) + conv_err (E := result_err) :=
  match values with
  | [] => inl (ids, poss)
  | value :: values =>
      match geo_data member value with
      | inl (i, p) => geo_loop member values (ids ++ i) (poss ++ p)
      | inr e => inr e
      end
  end.

Definition GeoRadius {A : Type} (member : reply -> A + conv_err (E := result_err)) (key : list Z) (longi lati : F)
    (radius count : Z) : prog (list A * list F * option (conv_err (E := result_err))) :=
  let* (r, err) := Do (str "GEORADIUS") (geo_args key longi lati radius count) in
  match Values r err with
  | (_, Some e) => Done ([], [], Some e)
  | (v, None) =>
      match geo_loop member (default [] v) [] [] with
      | inl (ids, poss) => Done (ids, poss, None)
      | inr e => Done ([], [], Some e)
      end
  end.

Definition GeoRadiusUint := GeoRadius (fun d => match Uint64 d None with (_, Some e) => inr e | (id, None) => inl id end).
(** The error of a member's name is dropped too. *)
Definition GeoRadiusString := GeoRadius (fun d => inl (String (E := result_err) d None).1).

Definition SetExpire (key : list Z) (second : Z) : prog (option result_err) := Send (str "EXPIRE") [vstr key; vint second].
Definition SetExpireAt (key : list Z) (timestamp : Z) : prog (option result_err) :=
  Send (str "EXPIREAT") [vstr key; vint timestamp].

Definition GetFields (objKey : list Z) (args : list value) : prog (reply * option result_err) :=
  Do (str "HMGET") (Add [] [vstr objKey] ++ args).
Definition SetFields (objKey : list Z) (args : list value) : prog (reply * option result_err) :=
  Do (str "HMSET") (Add [] [vstr objKey] ++ args).

(** ** Calls on a pool *)

Definition key_too_long (args : list value) : bool :=
  match args with
  | Some (TString, VString s) :: _ => MAX_KEY_LEN <? zlen s
  | _ => false
  end.

(** A pool without a node answers nil to [Do], and panics on [Send]. *)
Definition pool_Do (node : bool) (cmd : list Z) (args : list value) : prog (reply * option pool_err) :=
  if key_too_long args then Done (RNil, Some ErrorKeyTooLong)
  else if negb node then Done (RNil, None)
  else let* (r, err) := Do cmd args in Done (r, PoolCall <$> err).

Definition pool_Send (node : bool) (cmd : list Z) (args : list value) : prog (option pool_err) :=
  if key_too_long args then Done (Some ErrorKeyTooLong)
  else if negb node then Crash
  else let* err := Send cmd args in Done (PoolCall <$> err).

(** ** RedisObj *)

Record RedisObj := mkRedisObj { Name : list Z; conn : bool }.

(** [conn] tells whether the pool has a node; a nil pool gives no object. *)
Definition NewRedisObj (name : list Z) (pool : option bool) : option RedisObj :=
  match pool with None => None | Some node => Some (mkRedisObj name node) end.

Definition Obj_SetExpire (this : RedisObj) (second : Z) : prog (option pool_err) :=
  pool_Send (conn this) (str "EXPIRE") [vstr (Name this); vint second].
Definition Obj_Set (this : RedisObj) (val : value) : prog (option pool_err) :=
  let* args := lift (AddFlat (Add [] [vstr (Name this)]) val) in pool_Send (conn this) (str "HMSET") args.
Definition Obj_SetField (this : RedisObj) (fieldKey val : value) : prog (option pool_err) :=
  pool_Send (conn this) (str "HSET") [vstr (Name this); fieldKey; val].

Definition Obj_Get (this : RedisObj) (val : dest) : prog (dest * option obj_err) :=
  let* (r, err) := pool_Do (conn this) (str "HGETALL") [vstr (Name this)] in
  match Values r err with
  | (_, Some e) => Done (val, Some (ObjPoolConv e))
  | (v, None) => let* (val, err) := lift (ScanStruct ParseFloat (default [] v) val) in Done (val, ObjScan <$> err)
  end.

Definition Obj_GetField (this : RedisObj) (fieldKey : list Z) : prog (reply * option pool_err) :=
  pool_Do (conn this) (str "HGET") [vstr (Name this); vstr fieldKey].
Definition Obj_Incrby (this : RedisObj) (fieldKey : list Z) : prog (option pool_err) :=
  pool_Send (conn this) (str "HINCRBY") [vstr (Name this); vstr fieldKey; vint 1].
Definition Obj_Size (this : RedisObj) : prog (Z * option (conv_err (E := pool_err))) :=
  let* (r, err) := pool_Do (conn this) (str "HLEN") [vstr (Name this)] in Done (Int r err).
Definition Obj_Remove (this : RedisObj) (fieldKey : list Z) : prog (option pool_err) :=
  pool_Send (conn this) (str "HDEL") [vstr (Name this); vstr fieldKey].
Definition Obj_HasField (this : RedisObj) (fieldKey : list Z) : prog bool :=
  let* (r, err) := pool_Do (conn this) (str "HEXISTS") [vstr (Name this); vstr fieldKey] in Done (ok_bool (Bool r err)).
Definition Obj_Exist (this : RedisObj) : prog bool :=
  let* (r, err) := pool_Do (conn this) (str "EXISTS") [vstr (Name this)] in Done (ok_bool (Bool r err)).
Definition Obj_Clear (this : RedisObj) : prog (option pool_err) := pool_Send (conn this) (str "DEL") [vstr (Name this)].

End Helper.
