(* ===== verification/Pool.v ===== *)
(** * redis/pool.go and redis/script.go: addresses, the registry of pools, scripts

    [ParseRedisKey] takes an address apart; the package keeps a map from keys
    to pools, each with one connection.  Dialing is a parameter that tells, for
    the n-th attempt, which connection an address gives.  The calls of a pool
    are [pool_Do] and [pool_Send] in Helper.v.  A script is run by its hash,
    and by its source when the server does not know it; the hash function and
    the server's scripting are parameters. *)

From S2P Require Import Prelude Gostrings Resp Respread Redisconn Redisdb.

(** ** Addresses *)

(** The server, the password and the database; a slice expression whose ends
    are in the wrong order panics. *)
Definition ParseRedisKey (address : list Z) : go (list Z * list Z * list Z) :=
  if (LastIndex address 40 =? -1) || (LastIndex address 41 =? -1) || (LastIndex address 64 =? -1)
     || (LastIndex address 47 =? -1) then Ret (address, [], str "0")
  else
    let! server := slice address (LastIndex address 40 + 1) (LastIndex address 41) in
    let! pwd := slice address 0 (LastIndex address 64) in
    let! dbKey := slice address (LastIndex address 47 + 1) (zlen address) in
    Ret (server, pwd, dbKey).

(** [pwd@tcp(server)/db] *)
Definition address_string (pwd server db : list Z) : list Z := pwd ++ str "@tcp(" ++ server ++ str ")/" ++ db.

(** Separators that do not occur in a concatenation: the literal parts by
    evaluation, the others by hypotheses on the members of a list. *)
Ltac literal := refine (bool_decide_unpack _ _); vm_compute; exact I.
Ltac sep_free :=
  rewrite ?not_elem_of_app, ?not_elem_of_cons; split_and?;
  match goal with
  | |- _ <> _ => discriminate
  | Hx : forall b, b ∈ _ -> b ∉ ?x |- _ ∉ ?x => apply Hx; literal
  | |- _ => literal
  end.

Lemma address_indexes pwd server db :
  (forall b, b ∈ [40; 41; 64] -> b ∉ server) -> (forall b, b ∈ [40; 41; 64; 47] -> b ∉ db) ->
  let s := address_string pwd server db in
  LastIndex s 40 = zlen (pwd ++ str "@tcp") /\ LastIndex s 41 = zlen (pwd ++ str "@tcp(") + zlen server /\
  LastIndex s 64 = zlen pwd /\ LastIndex s 47 = zlen (pwd ++ str "@tcp(" ++ server ++ [41]).
Proof.
  intros Hs Hd s. split_and!.
  - replace s with ((pwd ++ str "@tcp") ++ 40 :: server ++ str ")/" ++ db)
      by (unfold s, address_string; by rewrite <- !app_assoc). apply LastIndex_at. sep_free.
  - replace s with (((pwd ++ str "@tcp(") ++ server) ++ 41 :: 47 :: db)
      by (unfold s, address_string; by rewrite <- !app_assoc). rewrite LastIndex_at by sep_free. apply zlen_app.
  - apply (LastIndex_at pwd 64 (str "tcp(" ++ server ++ str ")/" ++ db)). sep_free.
  - replace s with ((pwd ++ str "@tcp(" ++ server ++ [41]) ++ 47 :: db)
      by (unfold s, address_string; by rewrite <- !app_assoc). apply LastIndex_at. sep_free.
Qed.

(** A slice expression, with the string cut at its ends. *)
Lemma slice_parts (s x y z : list Z) i j : s = x ++ y ++ z -> i = zlen x -> j = zlen x + zlen y -> slice s i j = Ret y.
Proof. intros -> -> ->. apply slice_app. Qed.

(** An address is taken apart as it was put together, whatever the
    password is: the server may not have parentheses or an at sign, the
    database none of the four separators.  A string that lacks one of the
    separators is a server without password, database 0. *)
Theorem address_parsed (pwd server db s : list Z) :
  (forall b, b ∈ [40; 41; 64] -> b ∉ server) -> (forall b, b ∈ [40; 41; 64; 47] -> b ∉ db) ->
  (exists b, b ∈ [40; 41; 64; 47] /\ b ∉ s) ->
  ParseRedisKey (address_string pwd server db) = Ret (server, pwd, db) /\ ParseRedisKey s = Ret (s, [], str "0").
Proof.
  intros Hs Hd (b & Hb & Hbs). split.
  - destruct (address_indexes pwd server db Hs Hd) as (H40 & H41 & H64 & H47). unfold ParseRedisKey. rewrite H40, H41, H64, H47.
    rewrite !(proj2 (Z.eqb_neq _ (-1))) by (unfold zlen; lia). cbn [orb].
    rewrite (slice_parts _ (pwd ++ str "@tcp(") server (str ")/" ++ db));
      [|unfold address_string; by rewrite <- !app_assoc|rewrite !zlen_app; unfold zlen; cbn; lia|done].
    cbn [go_bind]. rewrite (slice_parts _ [] pwd (str "@tcp(" ++ server ++ str ")/" ++ db)) by done. cbn [go_bind].
    rewrite (slice_parts _ (pwd ++ str "@tcp(" ++ server ++ str ")/") db []); [done|..];
      unfold address_string; rewrite ?app_nil_r, <- ?app_assoc; [done|..]; rewrite !zlen_app; unfold zlen; cbn; lia.
  - unfold ParseRedisKey. assert (LastIndex s b = -1) as E by (by apply last_index_none).
    repeat (apply elem_of_cons in Hb as [<-|Hb]; [rewrite E; cbn [Z.eqb Pos.eqb]; by rewrite ?orb_true_r|]).
    by apply elem_of_nil in Hb.
Qed.

Lemma address_parsed_witness :
  ParseRedisKey (address_string (str "p(@/w") (str "10.0.0.1:6379") (str "1")) = Ret (str "10.0.0.1:6379", str "p(@/w", str "1") /\
  ParseRedisKey (str "10.0.0.1:6379") = Ret (str "10.0.0.1:6379", [], str "0").
Proof.
  apply (address_parsed (str "p(@/w") (str "10.0.0.1:6379") (str "1") (str "10.0.0.1:6379")).
  - intros b Hb. repeat (apply elem_of_cons in Hb as [->|Hb]; [literal|]). by apply elem_of_nil in Hb.
  - intros b Hb. repeat (apply elem_of_cons in Hb as [->|Hb]; [literal|]). by apply elem_of_nil in Hb.
  - exists 40. split; literal.
Defined.

(** The separators in another order make the slice expression panic. *)
Example address_panics : ParseRedisKey (str "a)b(c@d/1") = Panic.
Proof. vm_compute. reflexivity. Qed.

(** ** The registry of pools *)

(** A pool has one connection ([node]); [nodes] is never filled. *)
Record RedisPool := mkPool {
  nodes : list nat;
  node : nat;
  address : list Z;
  has_addressFunc : bool;
}.

Section Registry.
(** The connection, if there is one, of the n-th attempt to dial. *)
Context (dial : nat -> list Z -> option nat).

Definition NewRedisPool (n : nat) (address : list Z) : option RedisPool :=
  match dial n address with
  | None => None
  | Some con => Some (mkPool [] con address false)
  end.

Definition NewRedisPoolByFunc (n : nat) (addressFunc : unit -> list Z) : option RedisPool :=
  match NewRedisPool n (addressFunc tt) with
  | None => None
  | Some pool => Some (mkPool (nodes pool) (node pool) (address pool) true)
  end.

(** The map [pools], and whether the registration succeeded. *)
Definition RegRedisKey (n : nat) (pools : gmap Z RedisPool) (key : Z) (address : list Z) : gmap Z RedisPool * bool :=
  match NewRedisPool n address with
  | None => (pools, false)
  | Some pool => (<[key := pool]> pools, true)
  end.
Definition RegRedisKeySize := RegRedisKey.

(** One pool for all keys. *)
Definition RegRedisKeyByFunc (n : nat) (pools : gmap Z RedisPool) (getAddress : unit -> list Z) (keys : list Z)
    : gmap Z RedisPool * bool :=
  match NewRedisPoolByFunc n getAddress with
  | None => (pools, false)
  | Some pool => (foldl (fun pools key => <[key := pool]> pools) pools keys, true)
  end.

(** One pool per key; the message about a failure dereferences the pool, which
    is nil then. *)
Fixpoint RegKeyByFunc (n : nat) (pools : gmap Z RedisPool) (getAddress : unit -> list Z) (keys : list Z)
    : go (gmap Z RedisPool) :=
  match keys with
  | [] => Ret pools
  | key :: keys =>
      match NewRedisPoolByFunc n getAddress with
      | None => Panic
      | Some pool => RegKeyByFunc (S n) (<[key := pool]> pools) getAddress keys
      end
  end.

Definition Get (pools : gmap Z RedisPool) (key : Z) : option nat := node <$> pools !! key.

(** The connections closed. *)
Definition Destory (pool : RedisPool) : list nat := nodes pool.
Definition CloseAll (pools : gmap Z RedisPool) : list nat := flat_map Destory (map_to_list pools).*2.

(** Registrations, in order. *)
Inductive registration : Type :=
| RegKey (key : Z) (address : list Z)
| RegByFunc (getAddress : unit -> list Z) (keys : list Z)
| RegEach (getAddress : unit -> list Z) (keys : list Z).

Definition register (n : nat) (pools : gmap Z RedisPool) (r : registration) : go (gmap Z RedisPool * bool) :=
  match r with
  | RegKey key a => Ret (RegRedisKey n pools key a)
  | RegByFunc g keys => Ret (RegRedisKeyByFunc n pools g keys)
  | RegEach g keys => let! pools := RegKeyByFunc n pools g keys in Ret (pools, true)
  end.

Definition empty_nodes (pools : gmap Z RedisPool) : Prop := map_Forall (fun _ p => nodes p = []) pools.

Lemma new_pool_nodes n g p : NewRedisPoolByFunc n g = Some p -> nodes p = [].
Proof. unfold NewRedisPoolByFunc, NewRedisPool. destruct (dial n (g tt)); intros [= <-]. done. Qed.

Lemma register_nodes n pools r pools' ok : register n pools r = Ret (pools', ok) -> empty_nodes pools -> empty_nodes pools'.
Proof.
  unfold register. destruct r as [key a|g keys|g keys].
  - unfold RegRedisKey, NewRedisPool. destruct (dial n a); intros [= <- <-] H; [by apply map_Forall_insert_2|done].
  - unfold RegRedisKeyByFunc. destruct (NewRedisPoolByFunc n g) as [p|] eqn:E; intros [= <- <-] H; [|done].
    apply new_pool_nodes in E. revert pools H. induction keys as [|key keys IH]; intros pools H; [done|]. cbn.
    by apply IH, map_Forall_insert_2.
  - revert n pools. induction keys as [|key keys IH]; intros n pools; cbn; [by intros [= <- <-]|].
    destruct (NewRedisPoolByFunc n g) as [p|] eqn:E; [|done]. apply new_pool_nodes in E. intros Hr H.
    by eapply IH; [exact Hr|apply map_Forall_insert_2].
Qed.

(** A key finds the connection it was registered with last; a failed
    registration changes nothing. *)
Lemma register_get n pools key a : 
  match dial n a with
  | Some con => Get (RegRedisKey n pools key a).1 key = Some con /\
      forall key', key' <> key -> Get (RegRedisKey n pools key a).1 key' = Get pools key'
  | None => RegRedisKey n pools key a = (pools, false)
  end.
Proof.
  unfold RegRedisKey, NewRedisPool, Get. destruct (dial n a) as [con|]; [|done]. cbn [fst]. split.
  - by rewrite lookup_insert_eq.
  - intros key' Hne. by rewrite lookup_insert_ne.
Qed.

(** Registrations one after the other, each with the number of its first
    attempt to dial. *)
Fixpoint register_all (pools : gmap Z RedisPool) (rs : list (nat * registration)) : go (gmap Z RedisPool) :=
  match rs with
  | [] => Ret pools
  | (n, r) :: rs => let! (pools, _) := register n pools r in register_all pools rs
  end.

(** [CloseAll] closes no connection.  Whatever was registered, the
    lists of nodes it goes through are empty: the connection of a pool is in
    another field.  So the connection a key finds is still open. *)
Theorem close_all_closes_nothing rs : forall pools,
  register_all ∅ rs = Ret pools -> CloseAll pools = [] /\ forall key con, Get pools key = Some con -> con ∉ CloseAll pools.
Proof.
  intros pools Hr. enough (CloseAll pools = []) as Hc by (rewrite Hc; split; [done|]; by intros ? ? _ ?%elem_of_nil).
  assert (empty_nodes ∅) as He by apply map_Forall_empty. revert Hr He. generalize (∅ : gmap Z RedisPool).
  induction rs as [|[n r] rs IH]; intros pools0 Hr He; cbn in Hr.
  - injection Hr as <-. unfold CloseAll, Destory. apply map_Forall_to_list in He.
    induction He as [|[k p] l Hp _ IHl]; [done|]. cbn in *. by rewrite Hp.
  - destruct (register n pools0 r) as [[pools1 ok]|] eqn:E; [|done]. eapply IH; [exact Hr|]. by eapply register_nodes.
Qed.
End Registry.

Lemma close_all_closes_nothing_witness :
  let dial := fun (n : nat) (_ : list Z) => Some (7 + n)%nat in
  let pools := {[1 := mkPool [] 7 (str "h:1") false]} in
  CloseAll pools = [] /\ forall key con, Get pools key = Some con -> con ∉ CloseAll pools.
Proof. intros dial pools. apply (close_all_closes_nothing dial [(0%nat, RegKey 1 (str "h:1"))] pools). reflexivity. Defined.

(** ** Channels for results *)

(** [chanPool]: the channels that are free, by number, and the next number
    that [make] gives. *)
Record chanPool := mkChanPool { chans : list nat; fresh : nat }.

Definition newChanPool (size : nat) : chanPool := mkChanPool (seq 0 size) size.

Definition chan_get (p : chanPool) : nat * chanPool :=
  match last (chans p) with
  | Some c => (c, mkChanPool (take (length (chans p) - 1) (chans p)) (fresh p))
  | None => (fresh p, mkChanPool (chans p) (S (fresh p)))
  end.

Definition chan_set (p : chanPool) (c : nat) : chanPool := mkChanPool (chans p ++ [c]) (fresh p).

(** [chans.get]: the pools in turn; without pools the remainder panics. *)
Definition chans_get {A : Type} (pools : list A) (size cur : Z) : go (A * Z) :=
  if size =? 0 then Panic
  else let! p := zget pools (Z.rem cur size) in Ret (p, if size <=? cur + 1 then 0 else cur + 1).

(** Channels of the pool and those that callers hold: none twice. *)
Definition exclusive (p : chanPool) (heldc : list nat) : Prop :=
  NoDup (chans p ++ heldc) /\ Forall (fun c => (c < fresh p)%nat) (chans p ++ heldc).

Lemma chan_get_exclusive p heldc c p' : exclusive p heldc -> chan_get p = (c, p') -> exclusive p' (c :: heldc) /\ c ∉ heldc.
Proof.
  intros [Hn Hf]. unfold chan_get. destruct (last (chans p)) as [x|] eqn:El; intros [= <- <-].
  - apply last_Some in El as [l' El]. rewrite El in *. rewrite length_app, Nat.add_sub, take_app_length.
    rewrite <- app_assoc in Hn, Hf. split; [by split|]. apply NoDup_app in Hn as (_ & _ & Hn). cbn in Hn.
    by apply NoDup_cons in Hn as [? _].
  - apply last_None in El. rewrite El in *. cbn in *. assert (fresh p ∉ heldc) as Hx.
    { intros Hin. rewrite Forall_forall in Hf. specialize (Hf _ Hin). cbn in Hf. lia. }
    split; [|done]. split; cbn; [by apply NoDup_cons|]. constructor; [lia|]. eapply Forall_impl; [exact Hf|]. cbn. lia.
Qed.

Lemma chan_set_exclusive p heldc c : exclusive p (c :: heldc) -> exclusive (chan_set p c) heldc.
Proof. unfold exclusive, chan_set. cbn. by rewrite <- !app_assoc. Qed.

(** ** script.go *)

Section Script.
(** Hashing, and the bytes of the key count. *)
Context (sha1hex : list Z -> list Z).

Record Script := mkScript { keyCount : Z; src : list Z; hash : list Z }.

Definition NewScript (keyCount : Z) (src : list Z) : Script := mkScript keyCount src (sha1hex src).

(** The arguments, as bytes. *)
Definition args (s : Script) (spec : list Z) (keysAndArgs : list (list Z)) : list (list Z) :=
  if keyCount s <? 0 then spec :: keysAndArgs else spec :: itoa (keyCount s) :: keysAndArgs.

Definition NOSCRIPT : list Z := str "NOSCRIPT ".

Definition is_noscript (err : option result_err) : bool :=
  match err with
  | Some (ErrCall (ErrServer e)) => bool_decide (take (length NOSCRIPT) e = NOSCRIPT)
  | _ => false
  end.

Definition Script_Do (s : Script) (keysAndArgs : list (list Z)) : prog (reply * option result_err) :=
  Req true (str "EVALSHA" :: args s (hash s) keysAndArgs) (fun r =>
    if is_noscript r.2 then Req true (str "EVAL" :: args s (src s) keysAndArgs) Done else Done r).

Definition SendHash (s : Script) (keysAndArgs : list (list Z)) : prog (option result_err) :=
  Req false (str "EVALSHA" :: args s (hash s) keysAndArgs) (fun r => Done r.2).

Definition Script_Load (s : Script) : prog (option result_err) :=
  Req true [str "SCRIPT"; str "LOAD"; src s] (fun r => Done r.2).

(** What the documentation says of scripting: the server has the hashes of
    the scripts it knows; EVALSHA of one it does not know changes nothing and is
    answered with NOSCRIPT; EVAL runs a script and keeps it. *)
Context `{Redis W} (loaded : W -> list Z -> bool) (effect : list Z -> list (list Z) -> W -> W * reply).
Context (evalsha_known : forall w h xs, loaded w h = true -> exec w (str "EVALSHA" :: h :: xs) = effect h xs w).
Context (evalsha_unknown : forall w h xs, loaded w h = false ->
  exists msg, exec w (str "EVALSHA" :: h :: xs) = (w, RError (NOSCRIPT ++ msg))).
Context (eval_runs : forall w text xs, exists w', exec w (str "EVAL" :: text :: xs) = (w', (effect (sha1hex text) xs w).2) /\
  loaded w' (sha1hex text) = true /\ view w' = view (effect (sha1hex text) xs w).1).
Context (effect_keeps : forall h xs w, loaded w h = true -> loaded (effect h xs w).1 h = true).
(** Scripts do not answer NOSCRIPT themselves. *)
Context (effect_reply : forall h xs w, is_noscript (Err (reply_result (effect h xs w).2)) = false).

(** A script is run once.  Whether the server knows the script or not,
    [Do] has it run exactly once on the data, with the arguments in order and
    the key count in front when there is one; it returns the script's reply,
    and the server knows the script afterwards. *)
Theorem script_runs_once (n : Z) (text : list Z) (xs : list (list Z)) (w : W) :
  let s := NewScript n text in
  let ran := effect (sha1hex text) (if n <? 0 then xs else itoa n :: xs) w in
  exists w', run_prog [] (Script_Do s xs) w = Ret (w', (Data (reply_result ran.2), Err (reply_result ran.2))) /\
    view w' = view ran.1 /\ loaded w' (sha1hex text) = true.
Proof.
  intros s ran. set (ys := if n <? 0 then xs else itoa n :: xs) in *.
  assert (forall spec, args s spec xs = spec :: ys) as Hargs by (intros spec; unfold args, ys; cbn; by destruct (n <? 0)).
  unfold Script_Do. rewrite !Hargs. cbn [run_prog head default call tail]. destruct (loaded w (sha1hex text)) eqn:El.
  - unfold s at 1. cbn [hash NewScript from_option id]. rewrite evalsha_known by done. fold ran.
    pose proof (effect_reply (sha1hex text) ys w) as Hr. pose proof (effect_keeps (sha1hex text) ys w El) as Hk. fold ran in Hr, Hk.
    destruct ran as [w' r]. cbn [snd fst] in *. rewrite Hr. by exists w'.
  - destruct (evalsha_unknown w (sha1hex text) ys El) as [msg Hm]. unfold s at 1. cbn [hash NewScript from_option id]. rewrite Hm.
    cbn [snd reply_result Data Err is_noscript]. rewrite take_app_length, bool_decide_true by done.
    destruct (eval_runs w text ys) as (w' & He & Hl & Hv). cbn [run_prog head default from_option id call tail src s NewScript]. rewrite He.
    by exists w'.
Qed.
End Script.

(** A server with scripting: the keyspace and the scripts it knows.  A script
    stores its hash, and answers with the number of its arguments. *)
Definition script_effect (h : list Z) (xs : list (list Z)) (w : keyspace * list (list Z))
    : (keyspace * list (list Z)) * reply :=
  ((<[str "ran" := KString h]> w.1, w.2), RInt (zlen xs)).

Definition script_exec (w : keyspace * list (list Z)) (parts : list (list Z)) : (keyspace * list (list Z)) * reply :=
  match command w.1 parts with
  | Some (k, r) => ((k, w.2), r)
  | None =>
      match parts with
      | n :: h :: xs =>
          if bool_decide (n = str "EVALSHA") then
            if bool_decide (h ∈ w.2) then script_effect h xs w else (w, RError (NOSCRIPT ++ str "No matching script."))
          else let '(w', r) := script_effect h xs w in ((w'.1, h :: w'.2), r)
      | _ => (w, RError (str "ERR unknown command"))
      end
  end.

Definition script_loaded (w : keyspace * list (list Z)) (h : list Z) : bool := bool_decide (h ∈ w.2).

#[export] Instance script_redis : Redis (keyspace * list (list Z)).
Proof.
  refine {| view := fst; exec := script_exec |}.
  intros w parts k r Hc. unfold script_exec. by rewrite Hc.
Defined.

Lemma script_runs_once_witness :
  let s := NewScript (fun x => x) 1 (str "return 1") in
  let w : keyspace * list (list Z) := (∅, []) in
  let ran := script_effect (str "return 1") (if 1 <? 0 then [str "k"] else [itoa 1; str "k"]) w in
  exists w', run_prog [] (Script_Do s [str "k"]) w = Ret (w', (Data (reply_result ran.2), Err (reply_result ran.2))) /\
    view w' = view ran.1 /\ script_loaded w' (str "return 1") = true.
Proof.
  apply (script_runs_once (fun x => x) script_loaded script_effect) with (n := 1) (text := str "return 1") (xs := [str "k"]) (w := (∅, [])).
  - intros w h xs Hl. cbn [exec script_redis]. unfold script_exec. change (command w.1 (str "EVALSHA" :: h :: xs)) with (@None (keyspace * reply)).
    cbn iota. rewrite bool_decide_true by done. unfold script_loaded in Hl. by rewrite Hl.
  - intros w h xs Hl. exists (str "No matching script."). cbn [exec script_redis]. unfold script_exec.
    change (command w.1 (str "EVALSHA" :: h :: xs)) with (@None (keyspace * reply)). cbn iota. rewrite bool_decide_true by done.
    unfold script_loaded in Hl. by rewrite Hl.
  - intros w text xs. eexists. split.
    + cbn [exec script_redis]. unfold script_exec. change (command w.1 (str "EVAL" :: text :: xs)) with (@None (keyspace * reply)).
      cbn iota. rewrite bool_decide_false by (vm_compute; discriminate). reflexivity.
    + cbn. unfold script_loaded. rewrite bool_decide_true; [done|]. by apply elem_of_cons; left.
  - done.
  - done.
Defined.
