(* ===== verification/Objects.v ===== *)
(** * redis/helper.go: an object written is the object read

    [SetObject] writes the fields of a struct as a hash, [GetObject] and
    [GetObject1] read them back.  The pieces are the description of the struct
    type (Scantype.v), the conversion of each field to bytes and back, the
    server's hash, and the frame lemmas for paths (Gotype.v). *)

From S2P Require Import Prelude Resp Respread Strconv Reply Redisconn Redisdb Gotype Scan Scantype Helper.

Section Objects.
Context {F : Type} (fzero : F).
Context (ParseFloat : list Z -> Z -> F * option num_err) (AppendFloat : F -> list Z).
Context (Fprint_rest : gtype * gval F -> list Z).
(** The shortest form that [AppendFloat] writes is parsed back exactly. *)
Context (Hfloat : forall f, ParseFloat (AppendFloat f) 64 = (f, None)).
#[local] Abbreviation gval := (gval F).
#[local] Abbreviation bytes_of := (bytes_of AppendFloat Fprint_rest).

(** A command on a key and names. *)
Lemma key_names_parts key names : bytes_of <$> Add [] [vstr key] ++ (vstr <$> names) = key :: names.
Proof. unfold Add. cbn [app fmap list_fmap]. f_equal. rewrite <- list_fmap_compose. apply list_fmap_id. Qed.

(** ** One field *)

(** The kinds of fields that are read back. *)
Definition supported (t : gtype) : Prop :=
  match t with
  | TInt _ | TUint _ | TBool | TString => True
  | TFloat w => w = 64
  | TSlice e => is_uint8 e = true
  | _ => False
  end.

#[export] Instance supported_dec t : Decision (supported t).
Proof. destruct t; cbn; apply _. Defined.

(** A value with the spare capacity of a slice dropped. *)
Definition canon (v : gval) : gval := match v with VSlice vs _ => VSlice vs [] | _ => v end.

Lemma bytes_of_int w n : bytes_of (Some (TInt w, VInt n)) = itoa n.
Proof. unfold bytes_of, arg_of. by destruct (w =? 64). Qed.

Lemma byte_slice (vs : list gval) : Forall (has_type (TUint 8)) vs ->
  VUint <$> ((fun x => match x with VUint b => b | _ => 0 end) <$> vs) = vs.
Proof.
  intros H. rewrite <- list_fmap_compose. induction H as [|v vs Hv _ IH]; [done|]. rewrite fmap_cons, IH.
  by destruct v.
Qed.

Lemma convert_bytes_of t x d : wf_type t -> supported t -> has_type t x ->
  convertAssignBytes ParseFloat t d (bytes_of (Some (t, x))) = (canon x, None).
Proof.
  intros Hwf Hs Hx. destruct t as [w|w|w| | | |e|e|k e|fs]; try done; destruct x; try done; cbn in Hwf, Hx.
  - rewrite bytes_of_int. cbn [convertAssignBytes]. rewrite ParseInt_itoa by lia.
    rewrite (proj2 (Z.ltb_ge _ (- _))), (proj2 (Z.ltb_lt _ _)) by lia. by rewrite swrap_small by lia.
  - cbn. rewrite ParseUint_dec by lia. rewrite (proj2 (Z.ltb_lt _ _)) by lia. by rewrite wrap_small by lia.
  - cbn in Hs. subst w. cbn. by rewrite Hfloat.
  - by destruct b.
  - cbn. unfold supported in Hs. rewrite Hs. destruct e as [|w| | | | | | | |]; try done. cbn in Hs. apply Z.eqb_eq in Hs as ->.
    cbn. by rewrite byte_slice by apply Hx.
Qed.

(** ** A list of fields *)

(** The loops of [ScanStruct] and [ScanStructByValue], on pairs. *)
Fixpoint assign_all (sp : structSpec) (t : gtype) (d : gval) (kvs : list (list Z * list Z))
    : go (gval * option scan_err) :=
  match kvs with
  | [] => Ret (d, None)
  | (nm, s) :: kvs =>
      let! (d, err) := assign_name ParseFloat sp t d nm (RBulk s) in
      match err with
      | Some err => Ret (d, Some err)
      | None => assign_all sp t d kvs
      end
  end.

Lemma scan_pairs_all sp t kvs : forall d,
  scan_pairs ParseFloat sp t d (flat_map (fun kv => [RBulk kv.1; RBulk kv.2]) kvs) = assign_all sp t d kvs.
Proof.
  induction kvs as [|[k s] kvs IH]; intros d; [done|]. cbn.
  destruct (assign_name _ _ _ _ _ _) as [[d' [err|]]|]; [done|apply IH|done].
Qed.

Lemma scan_names_all sp t kvs : forall d,
  scan_names ParseFloat sp t d (RBulk <$> kvs.*2) (Some <$> kvs.*1) = assign_all sp t d kvs.
Proof.
  induction kvs as [|[k s] kvs IH]; intros d; [done|]. cbn.
  destruct (assign_name _ _ _ _ _ _) as [[d' [err|]]|]; [done|apply IH|done].
Qed.

Section Fields.
Context (t : gtype) (sp : structSpec) (v : gval).
Context (Hwf : wf_type t) (Hsp : spec_ok t sp) (Hv : has_type t v).
Context (Hsup : forall nm fs ft, m sp !! nm = Some fs -> type_path t (index fs) = Some ft -> supported ft).

(** The bytes stored for a field. *)
Definition field_bytes (fs : fieldSpec) : list Z :=
  match type_path t (index fs), get_path v (index fs) with
  | Some ft, Some x => bytes_of (Some (ft, x))
  | _, _ => []
  end.

Lemma spec_field nm fs : m sp !! nm = Some fs ->
  name fs = nm /\ fs ∈ l sp /\ exists ft, leaf t (index fs) = Some (nm, ft).
Proof.
  rewrite (spec_map _ _ Hsp). intros [<- Hin]%last_named_in. destruct (spec_leaf _ _ Hsp fs Hin) as [ft Hft]. eauto.
Qed.

Lemma assign_field_bytes d nm fs : has_type t d -> m sp !! nm = Some fs ->
  exists x, get_path v (index fs) = Some x /\
    assign_name ParseFloat sp t d nm (RBulk (field_bytes fs)) = Ret (set_path d (index fs) (canon x), None) /\
    has_type t (set_path d (index fs) (canon x)) /\ is_Some (get_path d (index fs)).
Proof.
  intros Hd Hm. destruct (spec_field nm fs Hm) as (_ & _ & ft & Hl). pose proof (leaf_type _ _ _ _ Hl) as Hp.
  destruct (get_path_typed _ _ _ _ Hv Hp) as (x & Hx & Hxt). destruct (get_path_typed _ _ _ _ Hd Hp) as (y & Hy & Hyt).
  pose proof (leaf_wf _ _ _ _ Hwf Hl) as Hwft. exists x. split; [done|].
  unfold assign_name, assign_at, field_bytes. rewrite Hm, Hp, Hx, Hy. cbn [convertAssignValue].
  rewrite convert_bytes_of by eauto. split; [done|]. split; [|done]. eapply set_path_typed; [done..|].
  destruct x; try done. destruct ft; try done. by destruct Hxt.
Qed.

(** Writes to fields of different names do not touch each other. *)
Lemma other_field (d x : gval) nm fs nm' fs' : m sp !! nm = Some fs -> m sp !! nm' = Some fs' -> nm <> nm' ->
  get_path (set_path d (index fs) x) (index fs') = get_path d (index fs').
Proof.
  intros Hm Hm' Hne. destruct (spec_field _ _ Hm) as (_ & _ & ft & Hl), (spec_field _ _ Hm') as (_ & _ & ft' & Hl').
  apply get_set_other; intros Hpre; apply Hne.
  - pose proof (leaf_prefix _ _ _ _ _ Hl Hl' Hpre) as E. rewrite E in Hl. congruence.
  - pose proof (leaf_prefix _ _ _ _ _ Hl' Hl Hpre) as E. rewrite E in Hl'. congruence.
Qed.

(** Fields that the pairs name hold the object's value afterwards, the other
    fields are as before. *)
Lemma assign_all_exact kvs : forall d, has_type t d -> NoDup kvs.*1 ->
  (forall nm s fs, (nm, s) ∈ kvs -> m sp !! nm = Some fs -> s = field_bytes fs) ->
  exists d', assign_all sp t d kvs = Ret (d', None) /\ has_type t d' /\
    forall nm fs, m sp !! nm = Some fs ->
      get_path d' (index fs) = if decide (nm ∈ kvs.*1) then canon <$> get_path v (index fs) else get_path d (index fs).
Proof.
  induction kvs as [|[k s] kvs IH]; intros d Hd Hnd Hkvs; [by exists d|]. cbn [assign_all fmap list_fmap fst] in *.
  apply NoDup_cons in Hnd as [Hk Hnd]. assert (forall nm s fs, (nm, s) ∈ kvs -> m sp !! nm = Some fs -> s = field_bytes fs) as Hrest.
  { intros nm' s' fs' Hin. apply Hkvs. by apply elem_of_cons; right. }
  destruct (m sp !! k) as [fs|] eqn:Ek.
  - rewrite (Hkvs k s fs) by (done || by apply elem_of_cons; left).
    destruct (assign_field_bytes d k fs Hd Ek) as (x & Hx & -> & Hd1 & Hsome). cbn [go_bind].
    destruct (IH _ Hd1 Hnd Hrest) as (d' & -> & Hd' & Hall). exists d'. split; [done|]. split; [done|].
    intros nm fs' Hm. rewrite (Hall nm fs' Hm). destruct (decide (nm = k)) as [->|Hne].
    + rewrite decide_False by done. rewrite decide_True by (by apply elem_of_cons; left). simplify_eq.
      by rewrite get_set_same, Hx.
    + rewrite (other_field d _ k fs nm fs') by done.
      destruct (decide (nm ∈ kvs.*1)), (decide (nm ∈ k :: kvs.*1)) as [Hc|Hc]; try done.
      * destruct Hc. by apply elem_of_cons; right.
      * by apply elem_of_cons in Hc as [|].
  - unfold assign_name. rewrite Ek. cbn [go_bind]. destruct (IH d Hd Hnd Hrest) as (d' & -> & Hd' & Hall).
    exists d'. split; [done|]. split; [done|]. intros nm fs' Hm. rewrite (Hall nm fs' Hm).
    assert (nm <> k) by congruence.
    destruct (decide (nm ∈ kvs.*1)), (decide (nm ∈ k :: kvs.*1)) as [Hc|Hc]; try done.
    + destruct Hc. by apply elem_of_cons; right.
    + by apply elem_of_cons in Hc as [|].
Qed.

(** ** The hash of an object *)

Definition fields_parts (fss : list fieldSpec) : list (list Z) := flat_map (fun fs => [name fs; field_bytes fs]) fss.

Lemma flatten_fields_bytes fss : forall args, Forall (fun fs => fs ∈ l sp) fss ->
  exists args', flatten_fields t v fss args = Ret (args ++ args') /\ bytes_of <$> args' = fields_parts fss.
Proof.
  induction fss as [|fs fss IH]; intros args Hf; [exists []; by rewrite app_nil_r|].
  apply Forall_cons in Hf as [Hf Hfss]. destruct (spec_leaf _ _ Hsp fs Hf) as [ft Hl].
  pose proof (leaf_type _ _ _ _ Hl) as Hp. destruct (get_path_typed _ _ _ _ Hv Hp) as (x & Hx & _).
  cbn [flatten_fields]. rewrite Hp, Hx.
  destruct (IH (args ++ [Some (TString, VString (name fs)); Some (ft, x)]) Hfss) as (args' & -> & Hb).
  eexists. rewrite <- app_assoc. split; [done|]. rewrite fmap_app, Hb. cbn. unfold field_bytes. by rewrite Hp, Hx.
Qed.

Lemma insert_pairs_lookup nm fss : forall h,
  insert_pairs h (fields_parts fss) !! nm =
    match last_named fss nm with Some fs => Some (field_bytes fs) | None => h !! nm end.
Proof.
  induction fss as [|fs fss IH]; intros h; [done|]. cbn [fields_parts flat_map app insert_pairs].
  rewrite IH, last_named_cons. destruct (last_named fss nm); [done|].
  case_decide as E; [subst; apply lookup_insert_eq|by apply lookup_insert_ne].
Qed.

Lemma fields_parts_length fss : zlen (fields_parts fss) = 2 * zlen fss.
Proof. induction fss as [|fs fss IH]; [done|]. cbn [fields_parts flat_map app]. rewrite !zlen_cons. unfold fields_parts in IH. lia. Qed.

(** The hash after the fields of the object are stored into [h]. *)
Definition object_hash (h : gmap (list Z) (list Z)) : gmap (list Z) (list Z) := insert_pairs h (fields_parts (l sp)).

Lemma object_hash_lookup h nm :
  object_hash h !! nm = match m sp !! nm with Some fs => Some (field_bytes fs) | None => h !! nm end.
Proof. unfold object_hash. by rewrite insert_pairs_lookup, <- (spec_map _ _ Hsp). Qed.

Lemma spec_nonempty : l sp <> [] -> exists nm fs, m sp !! nm = Some fs.
Proof.
  intros Hne. destruct (l sp) as [|fs fss] eqn:E; [done|]. exists (name fs). rewrite (spec_map _ _ Hsp), E.
  rewrite last_named_cons. destruct (last_named fss (name fs)); [eauto|]. rewrite decide_True by done. eauto.
Qed.

Lemma names_keys : name <$> (map_to_list (m sp)).*2 = (map_to_list (m sp)).*1.
Proof.
  rewrite <- list_fmap_compose. apply list_fmap_ext. intros i [nm fs] Hi%list_elem_of_lookup_2%elem_of_map_to_list. cbn.
  by destruct (spec_field nm fs Hi).
Qed.
End Fields.

(** ** Writing and reading on a server *)

Section Server.
Context `{Redis W} (range : list (list Z) -> list (list Z)) (Hrange : forall names, range names ≡ₚ names).
Context (ffs : list (finfo * gtype)) (sp : structSpec).
Context (Hwf : wf_type (TStruct ffs)) (Hspec : structSpecForType (TStruct ffs) = Ret sp) (Hne : l sp <> []).
Context (Hsup : forall nm fs ft, m sp !! nm = Some fs -> type_path (TStruct ffs) (index fs) = Some ft -> supported ft).
#[local] Abbreviation t := (TStruct ffs).
#[local] Abbreviation object_hash := (object_hash t sp).
#[local] Abbreviation field_bytes := (field_bytes t).
#[local] Abbreviation SetObject := (SetObject AppendFloat Fprint_rest).
#[local] Abbreviation GetObject := (GetObject ParseFloat AppendFloat Fprint_rest range).
#[local] Abbreviation GetObject1 := (GetObject1 ParseFloat AppendFloat Fprint_rest).

(** The command [SetObject] sends, and what the server does with it. *)
Lemma SetObject_req key v : has_type t v ->
  SetObject key (Some (TPtr t, VPtr (Some v))) =
    Req false (str "HMSET" :: key :: fields_parts t v (l sp)) (fun r => Done r.2).
Proof.
  intros Hv. pose proof (structSpecForType_ok _ _ Hspec) as Hsp.
  destruct (flatten_fields_bytes t sp v Hsp Hv (l sp) [vstr key]) as (args & Ha & Hb); [by apply Forall_forall|].
  unfold SetObject, AddFlat, flattenStruct, Add. rewrite Hspec. cbn [go_bind app]. rewrite Ha. cbn [lift pbind].
  unfold Send. rewrite fmap_app, Hb. done.
Qed.

Lemma cmd_hmset_object k key v h : hash_at k key = Some h ->
  command k (str "HMSET" :: key :: fields_parts t v (l sp)) =
    Some (<[key := KHash (object_hash v h)]> k, RStatus (str "OK")).
Proof.
  intros Hh. pose proof (structSpecForType_ok _ _ Hspec) as Hsp.
  unfold command. change (cmd_of (str "HMSET")) with (Some HMSET). cbn [mbind option_bind exec_cmd]. rewrite Hh.
  rewrite fields_parts_length, (proj2 (Z.eqb_neq _ 0)), (Z.mul_comm 2), Z_mod_mult by (pose proof (zlen_pos (l sp) Hne); lia).
  cbn [orb negb Z.eqb]. unfold put_hash. rewrite decide_False; [done|]. intros He. change (object_hash v h = ∅) in He.
  destruct (spec_nonempty t sp Hsp Hne) as (nm & fs & Hm). pose proof (object_hash_lookup t sp v Hsp h nm) as Hl.
  by rewrite Hm, He, lookup_empty in Hl.
Qed.

Lemma run_SetObject s key v h : has_type t v -> hash_at (view s) key = Some h ->
  exists s', run_prog [] (SetObject key (Some (TPtr t, VPtr (Some v)))) s = Ret (s', None) /\
    view s' = <[key := KHash (object_hash v h)]> (view s).
Proof.
  intros Hv Hh. rewrite SetObject_req by done. run_call (cmd_hmset_object _ _ v _ Hh) as s' Hview. by exists s'.
Qed.

(** The hash at the key has the fields of [v]. *)
Definition holds (k : keyspace) (key : list Z) (v : gval) : Prop :=
  exists h, hash_at k key = Some h /\ forall nm fs, m sp !! nm = Some fs -> h !! nm = Some (field_bytes v fs).

(** The fields of [d] that the description names are those of [v]. *)
Definition same_fields (d v : gval) : Prop :=
  forall nm fs, m sp !! nm = Some fs -> get_path d (index fs) = canon <$> get_path v (index fs).

Lemma run_GetObject s key d v : has_type t v -> has_type t d -> holds (view s) key v ->
  exists s' d', run_prog [] (GetObject key (DPtr t d)) s = Ret (s', (DPtr t d', None)) /\
    view s' = view s /\ has_type t d' /\ same_fields d' v.
Proof.
  intros Hv Hd (h & Hh & Hfields). pose proof (structSpecForType_ok _ _ Hspec) as Hsp.
  set (names := range (map_to_list (m sp)).*1).
  assert (names ≡ₚ (map_to_list (m sp)).*1) as Hnames by apply Hrange.
  assert (forall nm, nm ∈ names <-> is_Some (m sp !! nm)) as Hin.
  { intros nm. rewrite Hnames, list_elem_of_fmap. split.
    - intros ([k fs] & -> & Hk%elem_of_map_to_list). eauto.
    - intros [fs Hk%elem_of_map_to_list]. by exists (nm, fs). }
  set (kvs := (fun nm => (nm, default [] (h !! nm))) <$> names).
  assert (kvs.*1 = names) as Hk1 by (unfold kvs; rewrite <- list_fmap_compose; apply list_fmap_id).
  assert (RBulk <$> kvs.*2 = (fun f => opt_bulk (h !! f)) <$> names) as Hk2.
  { unfold kvs. rewrite <- !list_fmap_compose. apply list_fmap_ext. intros i nm Hi%list_elem_of_lookup_2. cbn.
    apply Hin in Hi as [fs Hm]. by rewrite (Hfields nm fs Hm). }
  unfold GetObject, GetStructFields. rewrite Hspec. cbn [go_bind lift pbind]. rewrite (names_keys t sp Hsp). fold names.
  assert (command (view s) (str "HMGET" :: key :: names) = Some (view s, RArray (RBulk <$> kvs.*2))) as Hc.
  { unfold command. change (cmd_of (str "HMGET")) with (Some HMGET). cbn [mbind option_bind exec_cmd]. rewrite Hh.
    rewrite (proj2 (Z.eqb_neq _ 0)); [by rewrite Hk2|]. destruct (spec_nonempty t sp Hsp Hne) as (nm & fs & Hm).
    assert (nm ∈ names) as Hi by (apply Hin; eauto). destruct names; [by apply elem_of_nil in Hi|].
    rewrite zlen_cons. pose proof (zlen_nonneg names). lia. }
  unfold Do. rewrite key_names_parts. cbn [pbind].
  run_call Hc as s' Hview. cbn [reply_result Data Err Values default].
  unfold id. unfold ScanStructByValue.
  rewrite (proj2 (Z.eqb_eq _ _)) by (rewrite !zlen_fmap; unfold kvs; by rewrite zlen_fmap). cbn [negb]. rewrite Hspec. cbn [go_bind].
  rewrite <- Hk1. rewrite scan_names_all.
  destruct (assign_all_exact t sp v Hwf Hsp Hv Hsup kvs d Hd) as (d' & -> & Hd' & Hall).
  - rewrite Hk1, Hnames. apply NoDup_fst_map_to_list.
  - intros nm b fs (nm' & [= -> ->] & Hi)%list_elem_of_fmap Hm. by rewrite (Hfields nm' fs Hm).
  - cbn. exists s', d'. split; [done|]. split; [done|]. split; [done|]. intros nm fs Hm. rewrite (Hall nm fs Hm), Hk1.
    rewrite decide_True; [done|]. apply Hin. eauto.
Qed.

Lemma run_GetObject1 s key d v : has_type t v -> has_type t d -> holds (view s) key v ->
  exists s' d', run_prog [] (GetObject1 key (DPtr t d)) s = Ret (s', (DPtr t d', None)) /\
    view s' = view s /\ has_type t d' /\ same_fields d' v.
Proof.
  intros Hv Hd (h & Hh & Hfields). pose proof (structSpecForType_ok _ _ Hspec) as Hsp.
  assert (command (view s) [str "HGETALL"; key] =
    Some (view s, RArray (flat_map (fun kv => [RBulk kv.1; RBulk kv.2]) (map_to_list h)))) as Hc.
  { unfold command. change (cmd_of (str "HGETALL")) with (Some HGETALL). cbn [mbind option_bind exec_cmd]. by rewrite Hh. }
  unfold GetObject1, Do. cbn [pbind fmap list_fmap]. run_call Hc as s' Hview. cbn [reply_result Data Err Values default].
  unfold id, ScanStruct. rewrite Hspec. cbn [go_bind]. rewrite flat_even. cbn [negb Z.eqb]. rewrite scan_pairs_all.
  destruct (assign_all_exact t sp v Hwf Hsp Hv Hsup (map_to_list h) d Hd) as (d' & -> & Hd' & Hall).
  - apply NoDup_fst_map_to_list.
  - intros nm b fs Hin%elem_of_map_to_list Hm. rewrite (Hfields nm fs Hm) in Hin. by simplify_eq.
  - cbn. exists s', d'. split; [done|]. split; [done|]. split; [done|]. intros nm fs Hm. rewrite (Hall nm fs Hm).
    rewrite decide_True; [done|]. apply list_elem_of_fmap. exists (nm, field_bytes v fs). split; [done|].
    apply elem_of_map_to_list. auto.
Qed.

(** C16: an object written is the object read.  For a struct of integers,
    booleans, strings, byte slices and float64s, embedded structs and tags
    included, on a healthy connection: after [SetObject] of the object under a
    key that is free or holds a hash, [GetObject] and [GetObject1] into any
    variable of the type return without error, change nothing on the server,
    and every field the description names holds the object's value; for a
    field hidden by one less deep this is the less deep one.  Whatever order
    the fields are visited in. *)
Theorem object_roundtrip s key v d h :
  has_type t v -> has_type t d -> hash_at (view s) key = Some h ->
  exists s1 s2 s3 d2 d3,
    run_prog [] (SetObject key (Some (TPtr t, VPtr (Some v)))) s = Ret (s1, None) /\
    run_prog [] (GetObject key (DPtr t d)) s1 = Ret (s2, (DPtr t d2, None)) /\
    run_prog [] (GetObject1 key (DPtr t d)) s2 = Ret (s3, (DPtr t d3, None)) /\
    view s3 = view s1 /\ same_fields d2 v /\ same_fields d3 v.
Proof.
  intros Hv Hd Hh. destruct (run_SetObject s key v h Hv Hh) as (s1 & H1 & Hs1).
  assert (holds (view s1) key v) as Hholds.
  { exists (object_hash v h). unfold hash_at. rewrite Hs1, lookup_insert_eq. split; [done|]. intros nm fs Hm.
    by rewrite (object_hash_lookup t sp v (structSpecForType_ok _ _ Hspec)), Hm. }
  destruct (run_GetObject s1 key d v Hv Hd Hholds) as (s2 & d2 & H2 & Hs2 & _ & Hf2).
  rewrite <- Hs2 in Hholds. destruct (run_GetObject1 s2 key d v Hv Hd Hholds) as (s3 & d3 & H3 & Hs3 & _ & Hf3).
  exists s1, s2, s3, d2, d3. split_and!; (done || congruence).
Qed.
End Server.
End Objects.

(** A struct whose embedded [Id] is hidden by its own. *)
Definition account : list (finfo * gtype) :=
  [(mkField (str "Base") [] true true,
     TStruct [(mkField (str "Id") [] true false, TInt 32); (mkField (str "Owner") [] true false, TString)]);
   (mkField (str "Id") [] true false, TUint 64);
   (mkField (str "Payload") (str "p") true false, TSlice (TUint 8));
   (mkField (str "On") [] true false, TBool)].

Definition account_spec : structSpec :=
  match structSpecForType (TStruct account) with Ret sp => sp | Panic => mkStructSpec ∅ [] end.

Definition one_account : gval unit :=
  VStruct [VStruct [VInt (-7); VString (str "ann")]; VUint 12; VSlice [VUint 0; VUint 255] [VUint 9]; VBool true].

Lemma object_roundtrip_witness :
  let PF := fun (_ : list Z) (_ : Z) => (tt, @None num_err) in
  let AF := fun _ : unit => str "0" in
  let FR := fun _ : gtype * gval unit => [] in
  let t := TStruct account in
  let s : keyspace := {[str "k" := KHash {[str "other" := str "x"]}]} in
  let d : gval unit := zero tt t in
  exists (s1 s2 s3 : keyspace) d2 d3,
    run_prog [] (SetObject AF FR (str "k") (Some (TPtr t, VPtr (Some one_account)))) s = Ret (s1, None) /\
    run_prog [] (GetObject PF AF FR reverse (str "k") (DPtr t d)) s1 = Ret (s2, (DPtr t d2, None)) /\
    run_prog [] (GetObject1 PF AF FR (str "k") (DPtr t d)) s2 = Ret (s3, (DPtr t d3, None)) /\
    view s3 = view s1 /\ same_fields account_spec d2 one_account /\ same_fields account_spec d3 one_account.
Proof.
  intros PF AF FR t s d.
  apply (object_roundtrip PF AF FR (fun f => match f with tt => eq_refl end) reverse (fun names => reverse_Permutation names)
    account account_spec) with (h := {[str "other" := str "x"]}).
  - cbn. lia.
  - vm_compute. reflexivity.
  - vm_compute. discriminate.
  - assert (map_Forall (fun _ fs => forall ft, type_path t (index fs) = Some ft -> supported ft) (m account_spec)) as Hs.
    { apply map_Forall_to_list. vm_compute map_to_list. repeat constructor; intros ft [= <-]; (exact I || reflexivity). }
    intros nm fs ft Hm. exact (Hs nm fs Hm ft).
  - cbn. split_and!; (lia || done || (repeat constructor; lia)).
  - by apply zero_typed; cbn; lia.
  - vm_compute. reflexivity.
Defined.
