(* ===== verification/Admin.v ===== *)
(** * gredis_webserver: the registry of Redis instances

    The web server keeps, in an administration Redis, a list of free addresses
    ([redis_pools]), a counter of instance numbers ([redis_id_index]), a sorted
    set of the instances in use ([redis_list]) and a hash per instance
    ([redis_info:<id>]).  [AdminRedis] (db.go) and the handlers (createinstance,
    delinstance, clearinstance, redislist, getinstance, findinstance) are
    programs over Redisdb.v.  Decoding a request's JSON, running redis-cli and
    the clock are parameters.  The codes and texts are those of
    common/error.go. *)

From S2P Require Import Prelude Gostrings Resp Respread Strconv Reply Redisconn Redisdb Gotype Scan Scantype Helper Objects.

(** ** common/error.go *)

Definition ERR_OK : Z := 0.
Definition ERR_DB : Z := 1.
Definition ERR_REDIS_POOLS_EMPTY : Z := 2.
Definition ERR_URL_PARSE : Z := 3.
Definition ERR_INVALID_REDIS : Z := 4.

Record ErrInfo := mkErrInfo { Ret_ : Z; RetInfo : list Z }.

Definition errInfoList : list ErrInfo :=
  [mkErrInfo ERR_OK (str "okay"); mkErrInfo ERR_DB (str "db error");
   mkErrInfo ERR_REDIS_POOLS_EMPTY (str "can not create more redis"); mkErrInfo ERR_URL_PARSE (str "parse quest failed");
   mkErrInfo ERR_INVALID_REDIS (str "redis not exists")].

(** The map [init] fills. *)
Definition errMap : gmap Z (list Z) := foldl (fun m info => <[Ret_ info := RetInfo info]> m) ∅ errInfoList.

Definition ErrDesc (err : Z) : list Z := default [] (errMap !! err).
Definition GetErrInfo (ret : Z) : ErrInfo := mkErrInfo ret (default [] (errMap !! ret)).

(** ** dbstruct.go and resultstruct.go *)

Record DB_RedisInfo := mkInfo {
  Id : Z;
  Name : list Z;
  Addr : list Z;
  MemUsed : Z;
  DBSize : Z;
  CTime : Z;
}.

Record RedisInstance := mkInstance {
  i_Id : Z;
  i_Name : list Z;
  i_Addr : list Z;
  i_MemUsed : Z;
  i_DBSize : Z;
  i_CTime : Z;
}.

Definition no_instance : RedisInstance := mkInstance 0 [] [] 0 0 0.

Definition RedisInstance_Conv (info : DB_RedisInfo) : RedisInstance :=
  mkInstance (Id info) (Name info) (Addr info) (MemUsed info) (DBSize info) (CTime info).

Record RedisListRet := mkListRet {
  ListInfo : list RedisInstance;
  TotalCnt : Z;
  UsedCnt : Z;
  ListRet : ErrInfo;
}.

Record CreateInstanceRet := mkCreateRet { instance : RedisInstance; CreateRet : ErrInfo }.

(** [DB_RedisInfo] as package reflect sees it. *)
Definition field (s : list Z) : finfo := mkField s [] true false.

Definition info_fields : list (finfo * gtype) :=
  [(field (str "Id"), TUint 64); (field (str "Name"), TString); (field (str "Addr"), TString);
   (field (str "MemUsed"), TUint 64); (field (str "DBSize"), TUint 64); (field (str "CTime"), TInt 64)].

Section Admin.
Context {F : Type} (fzero : F).
Context (ParseFloat : list Z -> Z -> F * option num_err) (AppendFloat : F -> list Z).
Context (Fprint_rest : gtype * gval F -> list Z).
Context (range : list (list Z) -> list (list Z)).
(** json.Unmarshal of the two kinds of requests, and the run of redis-cli. *)
Context (unmarshal_name : list Z -> option (list Z)) (unmarshal_id : list Z -> option Z).
Context (redis_cli : list Z -> list Z -> bool).
#[local] Abbreviation Do := (Do AppendFloat Fprint_rest).
#[local] Abbreviation SetObject := (SetObject AppendFloat Fprint_rest).
#[local] Abbreviation GetObject := (GetObject ParseFloat AppendFloat Fprint_rest range).

Definition info_val (info : DB_RedisInfo) : gval F :=
  VStruct [VUint (Id info); VString (Name info); VString (Addr info); VUint (MemUsed info); VUint (DBSize info);
           VInt (CTime info)].

Definition val_info (v : gval F) : DB_RedisInfo :=
  match v with
  | VStruct [VUint i; VString n; VString a; VUint mem; VUint size; VInt c] => mkInfo i n a mem size c
  | _ => mkInfo 0 [] [] 0 0 0
  end.

(** A variable of type [DB_RedisInfo]. *)
Definition new_info : dest := DPtr (TStruct info_fields) (zero fzero (TStruct info_fields)).
Definition dest_info (d : dest (F := F)) : DB_RedisInfo :=
  match d with DPtr _ v => val_info v | _ => mkInfo 0 [] [] 0 0 0 end.

(** ** db.go *)

Definition Key_RedisIdIndex : list Z := str "redis_id_index".
Definition Key_RedisPools : list Z := str "redis_pools".
Definition Key_RedisList : list Z := str "redis_list".
Definition Key_RedisInfo : list Z := str "redis_info:".

Definition vuint (n : Z) : option (gtype * gval F) := Some (TUint 64, VUint n).

Definition InvalidRedis (id : Z) : prog bool :=
  let* (r, err) := Do (str "EXISTS") [vstr (Key_RedisInfo ++ dec id)] in
  match Int r err with
  | (_, Some _) => Done false
  | (cnt, None) => Done (0 <? cnt)
  end.

Definition GetRedisInfo (id : Z) : prog (Z * option DB_RedisInfo) :=
  let* (info, err) := GetObject (Key_RedisInfo ++ dec id) new_info in
  match err with
  | Some _ => Done (ERR_DB, None)
  | None => Done (ERR_OK, Some (dest_info info))
  end.

Fixpoint list_loop (ids : list (list Z)) (result : RedisListRet) : prog RedisListRet :=
  match ids with
  | [] => Done result
  | id :: ids =>
      let* (info, err) := GetObject (Key_RedisInfo ++ id) new_info in
      match err with
      | Some _ => Done result
      | None =>
          list_loop ids (mkListRet (ListInfo result ++ [RedisInstance_Conv (dest_info info)]) (TotalCnt result)
                           (UsedCnt result) (ListRet result))
      end
  end.

Definition GetRedisList : prog RedisListRet :=
  let result := mkListRet [] 0 0 (GetErrInfo ERR_OK) in
  let* (r, err) := Do (str "zrange") [vstr Key_RedisList; vint 0; vint (-1)] in
  match Strings r err with
  | (_, Some _) => Done (mkListRet [] 0 0 (GetErrInfo ERR_DB))
  | (ids, None) => list_loop (default [] ids) result
  end.

Definition CreateRedisCheck : prog bool :=
  let* (r, err) := Do (str "llen") [vstr Key_RedisPools] in
  match Int r err with
  | (_, Some _) => Done false
  | (num, None) => Done (negb (num <=? 0))
  end.

(** [CreateRedis] in the stretches between its calls, the last one first: the
    entry in the list, the instance's hash, the number, and the address.
    [now] is the clock. *)
Definition CreateRedis_list (info : DB_RedisInfo) : prog (Z * option DB_RedisInfo) :=
  let* (_, err) := Do (str "zadd") [vstr Key_RedisList; vint (CTime info); vuint (Id info)] in
  match err with
  | Some _ => Done (ERR_DB, None)
  | None => Done (ERR_OK, Some info)
  end.

Definition CreateRedis_store (info : DB_RedisInfo) : prog (Z * option DB_RedisInfo) :=
  let* err := SetObject (Key_RedisInfo ++ dec (Id info)) (Some (TPtr (TStruct info_fields), VPtr (Some (info_val info)))) in
  match err with
  | Some _ => Done (ERR_DB, None)
  | None => CreateRedis_list info
  end.

Definition CreateRedis_id (now : Z) (name addr : list Z) : prog (Z * option DB_RedisInfo) :=
  let* (r, err) := Do (str "incr") [vstr Key_RedisIdIndex] in
  match Uint64 r err with
  | (_, Some _) => Done (ERR_DB, None)
  | (id, None) => CreateRedis_store (mkInfo id name addr 0 0 now)
  end.

Definition CreateRedis (now : Z) (name : list Z) : prog (Z * option DB_RedisInfo) :=
  let* (r, err) := Do (str "lpop") [vstr Key_RedisPools] in
  match String r err with
  | (_, Some _) => Done (ERR_DB, None)
  | (addr, None) =>
      if bool_decide (addr = []) then Done (ERR_REDIS_POOLS_EMPTY, None) else CreateRedis_id now name addr
  end.

Definition RecycleRedis (info : DB_RedisInfo) : prog bool :=
  let* (_, err) := Do (str "zrem") [vstr Key_RedisList; vuint (Id info)] in
  match err with
  | Some _ => Done false
  | None =>
      let* (_, err) := Do (str "lpush") [vstr Key_RedisPools; vstr (Addr info)] in
      match err with
      | Some _ => Done false
      | None => let* _ := Del AppendFloat Fprint_rest (Key_RedisInfo ++ dec (Id info)) in Done true
      end
  end.

(** ** The handlers *)

(** One [Read] of the body into a buffer of 2048 bytes, which may return fewer
    bytes than there are: at most [n]. *)
Definition GetRequestPayload (body : list Z) (n : nat) : list Z := take (n `min` 2048) body.

(** What [createInstance] answers to the outcome of [CreateRedis]. *)
Definition create_answer (r : Z * option DB_RedisInfo) : prog CreateInstanceRet :=
  let '(errCode, redisInfo) := r in
  if negb (errCode =? ERR_OK) then Done (mkCreateRet no_instance (GetErrInfo errCode))
  else
    match redisInfo with
    | Some info => Done (mkCreateRet (RedisInstance_Conv info) (GetErrInfo ERR_OK))
    | None => Crash
    end.

Definition createInstance (now : Z) (data : list Z) : prog CreateInstanceRet :=
  match unmarshal_name data with
  | None => Done (mkCreateRet no_instance (GetErrInfo ERR_URL_PARSE))
  | Some name =>
      let* ok := CreateRedisCheck in
      if negb ok then Done (mkCreateRet no_instance (GetErrInfo ERR_REDIS_POOLS_EMPTY))
      else let* r := CreateRedis now name in create_answer r
  end.

Definition delInstance (data : list Z) : prog ErrInfo :=
  match unmarshal_id data with
  | None => Done (GetErrInfo ERR_URL_PARSE)
  | Some id =>
      let* ok := InvalidRedis id in
      if negb ok then Done (GetErrInfo ERR_INVALID_REDIS)
      else
        let* (errCode, redisInfo) := GetRedisInfo id in
        if negb (errCode =? ERR_OK) then Done (GetErrInfo ERR_INVALID_REDIS)
        else
          match redisInfo with
          | Some info =>
              let* ok := RecycleRedis info in
              if negb ok then Done (GetErrInfo ERR_DB) else Done (mkErrInfo 0 [])
          | None => Crash
          end
  end.

Definition clearInstance (data : list Z) : prog ErrInfo :=
  match unmarshal_id data with
  | None => Done (GetErrInfo ERR_URL_PARSE)
  | Some id =>
      let* (retCode, redisInfo) := GetRedisInfo id in
      if negb (retCode =? ERR_OK) then Done (GetErrInfo ERR_INVALID_REDIS)
      else
        match redisInfo with
        | Some info =>
            match Split 58 (Addr info) with
            | [host; port] => if redis_cli host port then Done (mkErrInfo 0 []) else Done (GetErrInfo ERR_INVALID_REDIS)
            | _ => Done (GetErrInfo ERR_INVALID_REDIS)
            end
        | None => Crash
        end
  end.

Definition redisList : prog RedisListRet := GetRedisList.

(** Both answer the same fixed instance, whatever the request. *)
Definition findInstance : RedisInstance := mkInstance 1 (str "name1") [] 1000 1000 1582686617.
Definition getInstance : RedisInstance := mkInstance 1 (str "name1") [] 1000 1000 1582686617.

(** ** router.go *)

(** The routes of the API.  A body comes with the number of bytes its first
    [Read] returns, a creation with the time it is served at. *)
Inductive http_request : Type :=
| GET_redislist
| GET_getinstance
| GET_findinstance
| DELETE_delinstance (body : list Z) (n : nat)
| POST_createinstance (now : Z) (body : list Z) (n : nat)
| POST_clearinstance (body : list Z) (n : nat).

Inductive http_response : Type :=
| ListResponse (r : RedisListRet)
| InstanceResponse (r : RedisInstance)
| ErrResponse (r : ErrInfo)
| CreateResponse (r : CreateInstanceRet).

Definition Router_Init (r : http_request) : prog http_response :=
  match r with
  | GET_redislist => let* r := redisList in Done (ListResponse r)
  | GET_getinstance => Done (InstanceResponse getInstance)
  | GET_findinstance => Done (InstanceResponse findInstance)
  | DELETE_delinstance body n => let* r := delInstance (GetRequestPayload body n) in Done (ErrResponse r)
  | POST_createinstance now body n => let* r := createInstance now (GetRequestPayload body n) in Done (CreateResponse r)
  | POST_clearinstance body n => let* r := clearInstance (GetRequestPayload body n) in Done (ErrResponse r)
  end.
End Admin.
