(* ===== verification/Adminspec.v ===== *)
(** * The web server implements a registry

    The abstract registry has the free addresses in order, the last instance
    number and the instances in use; its answers are those the comments of
    resultstruct.go and router.go describe.  The keyspace of the administration
    Redis represents a registry, and each request, served on a healthy
    connection, does what the registry's operation does and answers its result,
    but for what the code leaves out: the two counts of a list, and the lookup
    of one instance, which the registry leaves open. *)

From stdpp Require Import sorting.
From S2P Require Import Prelude Gostrings Resp Respread Strconv Reply Redisconn Redisdb Gotype Scan Scantype Helper Objects Admin.

(** ** The registry *)

Record registry := mkRegistry {
  free : list (list Z);
  next : Z;
  live : gmap Z DB_RedisInfo;
}.

Definition created (info : DB_RedisInfo) : CreateInstanceRet := mkCreateRet (RedisInstance_Conv info) (GetErrInfo ERR_OK).
Definition create_failed (code : Z) : CreateInstanceRet := mkCreateRet no_instance (GetErrInfo code).

(** An address that is the empty string is thrown away. *)
Definition reg_create (R : registry) (now : Z) (name : list Z) : registry * CreateInstanceRet :=
  match free R with
  | [] => (R, create_failed ERR_REDIS_POOLS_EMPTY)
  | addr :: fr =>
      if bool_decide (addr = []) then (mkRegistry fr (next R) (live R), create_failed ERR_REDIS_POOLS_EMPTY)
      else
        let info := mkInfo (next R + 1) name addr 0 0 now in
        (mkRegistry fr (next R + 1) (<[next R + 1 := info]> (live R)), created info)
  end.

Definition reg_delete (R : registry) (id : Z) : registry * ErrInfo :=
  match live R !! id with
  | None => (R, GetErrInfo ERR_INVALID_REDIS)
  | Some info => (mkRegistry (Addr info :: free R) (next R) (delete id (live R)), mkErrInfo 0 [])
  end.

(** The sorted set of the instances: the decimal forms of their numbers, by
    creation time. *)
Definition zset_of (live : gmap Z DB_RedisInfo) : gmap (list Z) Z :=
  list_to_map ((fun p => (dec p.1, CTime p.2)) <$> map_to_list live).

(** The instances in the order of their creation times, equal times in the
    order of the decimal forms of their numbers. *)
Definition by_time (live : gmap Z DB_RedisInfo) : list DB_RedisInfo :=
  (fun x => default (mkInfo 0 [] [] 0 0 0) (live !! (ParseUint x 64).1)) <$> members (zset_of live).

(** [TotalCnt] is the number of instances there can be, [UsedCnt] of those there
    are. *)
Definition reg_list (R : registry) : RedisListRet :=
  mkListRet (RedisInstance_Conv <$> by_time (live R)) (zlen (free R) + Z.of_nat (size (live R))) (Z.of_nat (size (live R)))
    (GetErrInfo ERR_OK).

(** Clearing does not change the registry. *)
Definition reg_clear (redis_cli : list Z -> list Z -> bool) (R : registry) (id : Z) : ErrInfo :=
  match live R !! id with
  | None => GetErrInfo ERR_INVALID_REDIS
  | Some info =>
      match Split 58 (Addr info) with
      | [host; port] => if redis_cli host port then mkErrInfo 0 [] else GetErrInfo ERR_INVALID_REDIS
      | _ => GetErrInfo ERR_INVALID_REDIS
      end
  end.

Lemma dec_inj a b : 0 <= a -> 0 <= b -> dec a = dec b -> a = b.
Proof.
  intros Ha Hb E. destruct (dec_spec a Ha) as [Va _], (dec_spec b Hb) as [Vb _]. rewrite <- Va, <- Vb. by rewrite E.
Qed.

Definition ids_ok (live : gmap Z DB_RedisInfo) : Prop := forall id info, live !! id = Some info -> 0 <= id.

Lemma zset_of_lookup live x c : ids_ok live ->
  zset_of live !! x = Some c <-> exists id info, live !! id = Some info /\ x = dec id /\ c = CTime info.
Proof.
  intros Hids. unfold zset_of. rewrite <- elem_of_list_to_map.
  - rewrite list_elem_of_fmap. split.
    + intros ([id info] & [= -> ->] & Hin%elem_of_map_to_list). eauto.
    + intros (id & info & Hl%elem_of_map_to_list & -> & ->). by exists (id, info).
  - rewrite <- list_fmap_compose. apply (NoDup_fmap_2_strong (fun p : Z * DB_RedisInfo => dec p.1)).
    + intros [a i] [b j] Ha%elem_of_map_to_list Hb%elem_of_map_to_list E. cbn in E.
      apply dec_inj in E; [|by eapply Hids..]. subst b. congruence.
    + apply NoDup_map_to_list.
Qed.

Lemma zset_of_insert live id info : ids_ok live -> 0 <= id ->
  zset_of (<[id := info]> live) = <[dec id := CTime info]> (zset_of live).
Proof.
  intros Hids Hid. assert (ids_ok (<[id := info]> live)) as Hids'.
  { intros i j. destruct (decide (id = i)) as [->|Hne]; [done|]. rewrite lookup_insert_ne by done. apply Hids. }
  apply map_eq. intros x. apply option_eq. intros c. rewrite zset_of_lookup by done.
  destruct (decide (dec id = x)) as [<-|Hx].
  - rewrite lookup_insert_eq. split.
    + intros (i & j & Hl & E & ->). apply dec_inj in E; [|done|by eapply Hids']. subst i.
      rewrite lookup_insert_eq in Hl. by simplify_eq.
    + intros [= <-]. exists id, info. by rewrite lookup_insert_eq.
  - rewrite lookup_insert_ne by done. rewrite zset_of_lookup by done. split.
    + intros (i & j & Hl & -> & ->). rewrite lookup_insert_ne in Hl by congruence. eauto.
    + intros (i & j & Hl & -> & ->). exists i, j. by rewrite lookup_insert_ne by congruence.
Qed.

Lemma zset_of_delete live id : ids_ok live -> 0 <= id -> zset_of (delete id live) = delete (dec id) (zset_of live).
Proof.
  intros Hids Hid. assert (ids_ok (delete id live)) as Hids' by (intros i j [_ ?]%lookup_delete_Some; by eapply Hids).
  apply map_eq. intros x. apply option_eq. intros c. rewrite lookup_delete_Some, !zset_of_lookup by done. split.
  - intros (i & j & [Hne Hl]%lookup_delete_Some & -> & ->). split; [|eauto]. intros E. apply Hne, dec_inj; eauto.
  - intros (Hne & i & j & Hl & -> & ->). exists i, j. rewrite lookup_delete_Some. split_and!; [congruence|done..].
Qed.

Section Spec.
Context {F : Type} (fzero : F).
Context (ParseFloat : list Z -> Z -> F * option num_err) (AppendFloat : F -> list Z).
Context (Fprint_rest : gtype * gval F -> list Z).
Context (Hfloat : forall f, ParseFloat (AppendFloat f) 64 = (f, None)).
Context (range : list (list Z) -> list (list Z)) (Hrange : forall names, range names ≡ₚ names).
Context (unmarshal_name : list Z -> option (list Z)) (unmarshal_id : list Z -> option Z).
Context (redis_cli : list Z -> list Z -> bool).
(** The number of a request is a uint64. *)
Context (Hid : forall data id, unmarshal_id data = Some id -> 0 <= id < 2 ^ 64).
Context `{Redis W}.
#[local] Abbreviation GetObject := (GetObject ParseFloat AppendFloat Fprint_rest range).
#[local] Abbreviation new_info := (new_info fzero).
#[local] Abbreviation info_type := (TStruct info_fields).

(** ** The struct of an instance *)

Definition info_spec : structSpec :=
  match structSpecForType info_type with Ret sp => sp | Panic => mkStructSpec ∅ [] end.
#[local] Abbreviation holds := (holds AppendFloat Fprint_rest info_fields info_spec).

Lemma info_spec_eq : structSpecForType info_type = Ret info_spec.
Proof. vm_compute. reflexivity. Qed.

Lemma info_spec_fields : l info_spec <> [].
Proof. vm_compute. discriminate. Qed.

Lemma info_supported nm fs ft : m info_spec !! nm = Some fs -> type_path info_type (index fs) = Some ft -> supported ft.
Proof.
  assert (map_Forall (fun _ fs => forall ft, type_path info_type (index fs) = Some ft -> supported ft) (m info_spec)) as Hs.
  { apply map_Forall_to_list. vm_compute map_to_list. repeat constructor; intros ? [= <-]; exact I. }
  intros Hm. exact (Hs nm fs Hm ft).
Qed.

Lemma info_wf : wf_type info_type.
Proof. cbn. lia. Qed.

Lemma info_back (d : gval F) info : has_type info_type d -> same_fields info_spec d (info_val info) -> val_info d = info.
Proof.
  intros Hd Hs. destruct (struct_value _ _ Hd) as [vs ->].
  assert (forall nm i, m info_spec !! nm = Some (mkFieldSpec nm [i]) ->
    vs !! i = canon <$> get_path (info_val info) [i]) as Hat.
  { intros nm i Hm. pose proof (Hs nm _ Hm) as E. cbn [index] in E. rewrite <- E. cbn. by destruct (vs !! i). }
  pose proof (Hat (str "Id") 0%nat eq_refl) as H0. pose proof (Hat (str "Name") 1%nat eq_refl) as H1.
  pose proof (Hat (str "Addr") 2%nat eq_refl) as H2. pose proof (Hat (str "MemUsed") 3%nat eq_refl) as H3.
  pose proof (Hat (str "DBSize") 4%nat eq_refl) as H4. pose proof (Hat (str "CTime") 5%nat eq_refl) as H5.
  do 6 (destruct vs as [|? vs]; [done|]). destruct vs; [|by repeat apply proj2 in Hd]. cbn in *. simplify_eq. by destruct info.
Qed.

(** The hash of an instance. *)
Definition info_hash (info : DB_RedisInfo) (h : gmap (list Z) (list Z)) : gmap (list Z) (list Z) :=
  object_hash AppendFloat Fprint_rest info_type info_spec (info_val info) h.

Lemma info_hash_fields info h nm fs : m info_spec !! nm = Some fs ->
  info_hash info h !! nm = Some (field_bytes AppendFloat Fprint_rest info_type (info_val info) fs).
Proof. intros Hm. unfold info_hash. by rewrite (object_hash_lookup _ _ _ _ _ (structSpecForType_ok _ _ info_spec_eq)), Hm. Qed.

(** ** Representation *)

Definition info_key (id : Z) : list Z := Key_RedisInfo ++ dec id.

Lemma info_key_inj a b : 0 <= a -> 0 <= b -> info_key a = info_key b -> a = b.
Proof. intros Ha Hb E. apply app_inv_head in E. by apply dec_inj. Qed.

Lemma info_key_other id : info_key id <> Key_RedisPools /\ info_key id <> Key_RedisIdIndex /\ info_key id <> Key_RedisList.
Proof. split_and!; discriminate. Qed.

Record info_ok (next id : Z) (info : DB_RedisInfo) : Prop := mkInfoOk {
  info_Id : Id info = id;
  info_range : 0 < id <= next;
  info_typed : has_type info_type (info_val (F := F) info);
}.

(** [listed] are the instances that have an entry in the sorted set. *)
Record rep (k : keyspace) (R : registry) (listed : gmap Z DB_RedisInfo) : Prop := mkRep {
  rep_free : list_at k Key_RedisPools = Some (free R);
  rep_next : exists o, string_at k Key_RedisIdIndex = Some o /\ ParseInt (default (str "0") o) 64 = (next R, None);
  rep_list : zset_at k Key_RedisList = Some (zset_of listed);
  rep_live : forall id info, live R !! id = Some info -> holds k (info_key id) (info_val info) /\ info_ok (next R) id info;
  rep_dead : forall id, 0 <= id -> live R !! id = None -> k !! info_key id = None;
}.

Definition represents (k : keyspace) (R : registry) : Prop := rep k R (live R).

Lemma rep_ids k R listed : rep k R listed -> ids_ok (live R).
Proof. intros HR id info Hl. destruct (rep_live _ _ _ HR id info Hl) as [_ [_ Hr _]]. lia. Qed.

Lemma holds_exists k key v : holds k key v -> is_Some (k !! key).
Proof.
  intros (h & Hh & Hf). unfold hash_at in Hh. destruct (k !! key); [eauto|]. injection Hh as <-.
  by specialize (Hf (str "Id") (mkFieldSpec (str "Id") [0%nat]) eq_refl).
Qed.

Lemma holds_ext k k' key v : k !! key = k' !! key -> holds k key v -> holds k' key v.
Proof. intros E (h & Hh & Hf). exists h. unfold hash_at in *. by rewrite <- E. Qed.

(** ** db.go, operation by operation *)

(** Reading an instance in use, and one that does not exist. *)
Lemma run_info_live s id info : holds (view s) (info_key id) (info_val info) -> has_type info_type (info_val (F := F) info) ->
  exists s' d, run_prog [] (GetObject (info_key id) new_info) s = Ret (s', (d, None)) /\ view s' = view s /\ dest_info d = info.
Proof.
  intros Hh Ht.
  destruct (run_GetObject ParseFloat AppendFloat Fprint_rest Hfloat range Hrange info_fields info_spec info_wf info_spec_eq
    info_spec_fields info_supported s (info_key id) (zero fzero info_type) (info_val info) Ht (zero_typed _ _ info_wf) Hh)
    as (s' & d & Hrun & Hv & Hd & Hs).
  exists s', (DPtr info_type d). split; [exact Hrun|]. split; [done|]. by apply info_back.
Qed.

Lemma scan_names_nil sp t (d : gval F) (names : list (list Z)) names' :
  scan_names ParseFloat sp t d ((fun _ => RNil) <$> names) names' = Ret (d, None).
Proof. revert names'. induction names as [|nm names IH]; intros [|? ?]; [done..|]. apply IH. Qed.

Lemma run_info_dead s id : view s !! info_key id = None ->
  exists s' d, run_prog [] (GetObject (info_key id) new_info) s = Ret (s', (d, None)) /\ view s' = view s /\
    dest_info d = mkInfo 0 [] [] 0 0 0.
Proof.
  intros Hk. unfold GetObject, GetStructFields, new_info. rewrite info_spec_eq. cbn [go_bind lift pbind].
  set (names := range _). assert (names <> []) as Hne.
  { intros E. pose proof (Hrange (name <$> (map_to_list (m info_spec)).*2)) as Hp. fold names in Hp. rewrite E in Hp.
    apply Permutation_nil in Hp. revert Hp. vm_compute. discriminate. }
  assert (command (view s) (str "HMGET" :: info_key id :: names) = Some (view s, RArray ((fun _ => RNil) <$> names))) as Hc.
  { unfold command. change (cmd_of (str "HMGET")) with (Some HMGET). cbn [mbind option_bind exec_cmd].
    unfold hash_at. rewrite Hk, (proj2 (Z.eqb_neq _ 0)) by (pose proof (zlen_pos names Hne); lia). reflexivity. }
  unfold Do. rewrite key_names_parts. cbn [pbind]. run_call Hc as s' Hv. cbn [reply_result Data Err Values default]. unfold Datatypes.id.
  unfold ScanStructByValue. rewrite (proj2 (Z.eqb_eq _ _)) by (by rewrite !zlen_fmap). cbn [negb].
  rewrite info_spec_eq. cbn [go_bind]. rewrite scan_names_nil. cbn. by eexists _, _.
Qed.

(** ** Updates of the keyspace *)

Ltac frame :=
  unfold list_at, string_at, zset_at in *;
  repeat first [rewrite put_list_ne by discriminate | rewrite put_zset_ne by discriminate
               |rewrite lookup_insert_ne by discriminate | rewrite lookup_delete_ne by discriminate].

Lemma rep_set_free k R listed fr : rep k R listed ->
  rep (put_list k Key_RedisPools fr) (mkRegistry fr (next R) (live R)) listed.
Proof.
  intros [Hf Hn Hl Hlive Hdead]. constructor; cbn [free next live].
  - apply list_at_put.
  - by frame.
  - by frame.
  - intros id info Hid'. destruct (Hlive id info Hid') as [Hh Hok]. split; [|done]. eapply holds_ext; [|exact Hh]. by frame.
  - intros id Hz Hd. frame. auto.
Qed.

Lemma rep_incr k R listed : rep k R listed -> 0 <= next R < 2 ^ 63 - 1 ->
  rep (<[Key_RedisIdIndex := KString (itoa (next R + 1))]> k) (mkRegistry (free R) (next R + 1) (live R)) listed.
Proof.
  intros [Hf Hn Hl Hlive Hdead] Hr. constructor; cbn [free next live].
  - by frame.
  - exists (Some (itoa (next R + 1))). unfold string_at. rewrite lookup_insert_eq. split; [done|]. cbn [default].
    unfold Datatypes.id. rewrite ParseInt_itoa by lia. by rewrite (proj2 (Z.ltb_ge _ (- _))), (proj2 (Z.ltb_lt _ _)) by lia.
  - by frame.
  - intros id info Hid'. destruct (Hlive id info Hid') as [Hh [? ? ?]]. split; [|constructor; [done|lia|done]].
    eapply holds_ext; [|exact Hh]. by frame.
  - intros id Hz Hd. frame. auto.
Qed.

Lemma rep_store k R listed id info h : rep k R listed -> info_ok (next R) id info ->
  (forall nm fs, m info_spec !! nm = Some fs -> h !! nm = Some (field_bytes AppendFloat Fprint_rest info_type (info_val info) fs)) ->
  rep (<[info_key id := KHash h]> k) (mkRegistry (free R) (next R) (<[id := info]> (live R))) listed.
Proof.
  intros [Hf Hn Hl Hlive Hdead] Hok Hh. pose proof (info_range _ _ _ Hok) as Hr. constructor; cbn [free next live].
  - by frame.
  - by frame.
  - by frame.
  - intros i j. destruct (decide (id = i)) as [<-|Hne].
    + rewrite lookup_insert_eq. intros [= <-]. split; [|done]. exists h. split; [|done]. unfold hash_at.
      by rewrite lookup_insert_eq.
    + rewrite lookup_insert_ne by done. intros Hi. destruct (Hlive i j Hi) as [Hhi Hoki]. split; [|done].
      eapply holds_ext; [|exact Hhi]. rewrite lookup_insert_ne; [done|]. intros E%info_key_inj; [done|lia|].
      destruct Hoki. lia.
  - intros i Hi Hd. apply lookup_insert_None in Hd as [Hd Hne]. rewrite lookup_insert_ne; [auto|].
    intros E%info_key_inj; [done|lia|lia].
Qed.

Lemma rep_enlist k R listed id info : rep k R listed -> ids_ok listed -> 0 <= id ->
  rep (put_zset k Key_RedisList (<[dec id := CTime info]> (zset_of listed))) R (<[id := info]> listed).
Proof.
  intros [Hf Hn Hl Hlive Hdead] Hids Hz. constructor.
  - by frame.
  - by frame.
  - by rewrite zset_at_put, zset_of_insert.
  - intros i j Hi. destruct (Hlive i j Hi) as [Hh Hok]. split; [|done]. eapply holds_ext; [|exact Hh]. by frame.
  - intros i Hi Hd. frame. auto.
Qed.

Lemma rep_remove k R id info : represents k R -> live R !! id = Some info ->
  represents (delete (info_key id)
      (put_list (put_zset k Key_RedisList (delete (dec id) (zset_of (live R)))) Key_RedisPools (Addr info :: free R)))
    (mkRegistry (Addr info :: free R) (next R) (delete id (live R))).
Proof.
  intros HR Hi. pose proof (rep_ids _ _ _ HR) as Hids. destruct HR as [Hf Hn Hl Hlive Hdead].
  pose proof (Hids _ _ Hi) as Hz. constructor; cbn [free next live].
  - unfold list_at. rewrite lookup_delete_ne by discriminate. apply list_at_put.
  - by frame.
  - unfold zset_at. rewrite lookup_delete_ne, put_list_ne by discriminate. rewrite zset_of_delete by done. apply zset_at_put.
  - intros i j [Hne Hij]%lookup_delete_Some. destruct (Hlive i j Hij) as [Hh Hok]. split; [|done].
    eapply holds_ext; [|exact Hh]. rewrite lookup_delete_ne; [by frame|]. intros E%info_key_inj; [done|done|by eapply Hids].
  - intros i Hz' Hd. destruct (decide (id = i)) as [<-|Hne]; [apply lookup_delete_eq|].
    rewrite lookup_delete_ne in Hd by done. apply lookup_delete_None. right. frame. auto.
Qed.

(** ** The handlers *)

#[local] Abbreviation createInstance := (createInstance AppendFloat Fprint_rest unmarshal_name).
#[local] Abbreviation delInstance := (delInstance fzero ParseFloat AppendFloat Fprint_rest range unmarshal_id).
#[local] Abbreviation clearInstance := (clearInstance fzero ParseFloat AppendFloat Fprint_rest range unmarshal_id redis_cli).
#[local] Abbreviation redisList := (redisList fzero ParseFloat AppendFloat Fprint_rest range).

(** [reg_create] takes the registry to [R'] and answers [res]. *)
Definition serves {A : Type} (p : prog A) (s : W) (R' : registry) (res : A) : Prop :=
  exists s', run_prog [] p s = Ret (s', res) /\ represents (view s') R'.

Lemma run_CreateRedis s R now name addr fr : represents (view s) R -> 0 <= next R < 2 ^ 63 - 1 -> - 2 ^ 63 <= now < 2 ^ 63 ->
  free R = addr :: fr -> addr <> [] ->
  let info := mkInfo (next R + 1) name addr 0 0 now in
  serves (CreateRedis AppendFloat Fprint_rest now name) s
    (mkRegistry fr (next R + 1) (<[next R + 1 := info]> (live R))) (ERR_OK, Some info).
Proof.
  intros HR Hn Hnow Hfree Hne info.
  assert (live R !! (next R + 1) = None) as Hnew.
  { destruct (live R !! (next R + 1)) as [j|] eqn:E; [|done]. destruct (rep_live _ _ _ HR _ _ E) as [_ [_ ? _]]. lia. }
  unfold serves, CreateRedis, Do. cbn [pbind].
  pose proof (rep_free _ _ _ HR) as Hf. rewrite Hfree in Hf. run_call (cmd_lpop _ _ _ _ Hf) as s1 Hs1.
  cbn [reply_result Data Err String pbind]. rewrite bool_decide_false by done. unfold CreateRedis_id, Do. cbn [pbind].
  apply (rep_set_free _ _ _ fr) in HR. rewrite <- Hs1 in HR. destruct (rep_next _ _ _ HR) as (o & Ho & Hp).
  run_call (cmd_incr _ _ _ _ Ho Hp (proj2 Hn)) as s2 Hs2. apply rep_incr in HR; [|done]. cbn [free next live] in HR, Hs2.
  rewrite <- Hs2 in HR. cbn [reply_result Data Err Uint64 next]. rewrite (proj2 (Z.ltb_ge (next R + 1) 0)) by lia.
  unfold CreateRedis_store. rewrite run_bind. cbn [Id]. change (Key_RedisInfo ++ dec (next R + 1)) with (info_key (next R + 1)).
  assert (info_ok (next R + 1) (next R + 1) info) as Hok.
  { constructor; [done|lia|]. cbn. split_and!; (lia || done). }
  pose proof (rep_dead _ _ _ HR (next R + 1) ltac:(lia) Hnew) as Hdead.
  destruct (run_SetObject AppendFloat Fprint_rest info_fields info_spec info_spec_eq info_spec_fields s2
    (info_key (next R + 1)) (info_val info) ∅ (info_typed _ _ _ Hok)) as (s3 & Hrun3 & Hs3).
  { unfold hash_at. by rewrite Hdead. }
  fold info. rewrite Hrun3. cbn [go_bind]. pose proof (rep_ids _ _ _ HR) as Hids.
  pose proof (rep_store _ _ _ _ _ _ HR Hok (info_hash_fields info ∅)) as HR3. unfold info_hash in HR3. rewrite <- Hs3 in HR3.
  unfold CreateRedis_list, Do. cbn [pbind]. run_call (cmd_zadd _ _ _ now (dec (next R + 1)) (rep_list _ _ _ HR3) Hnow) as s4 Hs4.
  cbn. exists s4. split; [done|]. rewrite Hs4.
  apply (rep_enlist _ _ _ (next R + 1) info HR3 Hids). lia.
Qed.

Lemma run_create s R now data name : represents (view s) R -> 0 <= next R < 2 ^ 63 - 1 -> - 2 ^ 63 <= now < 2 ^ 63 ->
  unmarshal_name data = Some name ->
  serves (createInstance now data) s (reg_create R now name).1 (reg_create R now name).2.
Proof.
  intros HR Hn Hnow Hu. unfold serves, createInstance, CreateRedisCheck, Do. rewrite Hu. cbn [pbind].
  pose proof (rep_free _ _ _ HR) as Hf. run_call (cmd_llen _ _ _ Hf) as s1 Hs1. rewrite <- Hs1 in HR.
  cbn [reply_result Data Err Int pbind]. unfold reg_create. destruct (free R) as [|addr fr] eqn:Efr.
  { cbn. by exists s1. }
  rewrite zlen_cons, (proj2 (Z.leb_gt _ 0)) by (pose proof (zlen_nonneg fr); lia). cbn [negb]. rewrite run_bind.
  case_bool_decide as Ha.
  - subst addr. pose proof (rep_free _ _ _ HR) as Hf1. rewrite Efr in Hf1. unfold CreateRedis, Do. cbn [pbind].
    run_call (cmd_lpop _ _ _ _ Hf1) as s2 Hs2. cbn. exists s2. split; [done|]. rewrite Hs2. by apply rep_set_free.
  - destruct (run_CreateRedis s1 R now name addr fr HR Hn Hnow Efr Ha) as (s2 & -> & HR2). by exists s2.
Qed.

Lemma run_GetRedisInfo s R id : represents (view s) R -> 0 <= id ->
  exists s', run_prog [] (GetRedisInfo fzero ParseFloat AppendFloat Fprint_rest range id) s =
      Ret (s', (ERR_OK, Some (default (mkInfo 0 [] [] 0 0 0) (live R !! id)))) /\ view s' = view s.
Proof.
  intros HR Hz. unfold GetRedisInfo. rewrite run_bind. change (Key_RedisInfo ++ dec id) with (info_key id).
  destruct (live R !! id) as [info|] eqn:E.
  - destruct (rep_live _ _ _ HR _ _ E) as [Hh [_ _ Ht]]. destruct (run_info_live s id info Hh Ht) as (s' & d & -> & Hv & Hd).
    cbn. rewrite Hd. by exists s'.
  - destruct (run_info_dead s id (rep_dead _ _ _ HR id Hz E)) as (s' & d & -> & Hv & Hd). cbn. rewrite Hd. by exists s'.
Qed.

Lemma run_RecycleRedis s R id info : represents (view s) R -> live R !! id = Some info ->
  serves (RecycleRedis AppendFloat Fprint_rest info) s (mkRegistry (Addr info :: free R) (next R) (delete id (live R))) true.
Proof.
  intros HR E. destruct (rep_live _ _ _ HR _ _ E) as [_ [<- _ _]]. unfold serves, RecycleRedis, Del, Do. cbn [pbind].
  run_call (cmd_zrem _ _ _ (dec (Id info)) (rep_list _ _ _ HR)) as s1 Hs1. cbn [reply_result Data Err pbind].
  assert (list_at (view s1) Key_RedisPools = Some (free R)) as Hf.
  { rewrite Hs1. pose proof (rep_free _ _ _ HR). by frame. }
  run_call (cmd_lpush _ _ (Addr info) _ Hf) as s2 Hs2. cbn [reply_result Data Err pbind].
  run_call (cmd_del (view s2) (info_key (Id info))) as s3 Hs3. cbn. exists s3. split; [done|].
  rewrite Hs3, Hs2, Hs1. by apply rep_remove.
Qed.

Lemma run_delete s R data id : represents (view s) R -> unmarshal_id data = Some id ->
  serves (delInstance data) s (reg_delete R id).1 (reg_delete R id).2.
Proof.
  intros HR Hu. pose proof (proj1 (Hid _ _ Hu)) as Hz. unfold delInstance, InvalidRedis, Do, reg_delete. rewrite Hu. cbn [pbind].
  unfold serves. run_call (cmd_exists (view s) (info_key id)) as s1 Hs1. rewrite <- Hs1 in HR.
  cbn [reply_result Data Err Int pbind]. destruct (live R !! id) as [info|] eqn:E.
  - destruct (rep_live _ _ _ HR _ _ E) as [Hh _]. apply holds_exists in Hh. rewrite Hs1 in Hh. rewrite decide_True by done.
    cbn [Z.ltb Z.compare negb]. rewrite run_bind. destruct (run_GetRedisInfo s1 R id HR Hz) as (s2 & -> & Hs2).
    rewrite E. cbn [go_bind default from_option]. unfold Datatypes.id. change (negb (ERR_OK =? ERR_OK)) with false.
    cbn iota. rewrite <- Hs2 in HR. rewrite run_bind.
    destruct (run_RecycleRedis s2 R id info HR E) as (s3 & -> & HR3). by exists s3.
  - pose proof (rep_dead _ _ _ HR id Hz E) as Hd. rewrite Hs1 in Hd. rewrite Hd. rewrite decide_False by (by intros []).
    cbn. by exists s1.
Qed.

Lemma run_clear s R data id : represents (view s) R -> unmarshal_id data = Some id ->
  serves (clearInstance data) s R (reg_clear redis_cli R id).
Proof.
  intros HR Hu. unfold serves, clearInstance, reg_clear. rewrite Hu. rewrite run_bind.
  destruct (run_GetRedisInfo s R id HR (proj1 (Hid _ _ Hu))) as (s1 & -> & Hs1). rewrite <- Hs1 in HR. exists s1.
  split; [|done]. cbn. destruct (live R !! id) as [info|]; [|done]. cbn. unfold Datatypes.id.
  destruct (Split 58 (Addr info)) as [|host [|port [|? ?]]]; try done. by destruct (redis_cli host port).
Qed.

Lemma ParseUint_id id : 0 <= id < 2 ^ 64 -> (ParseUint (dec id) 64).1 = id.
Proof. intros Hr. rewrite ParseUint_dec by lia. by rewrite (proj2 (Z.ltb_lt _ _)) by lia. Qed.

Lemma run_list_loop R xs : next R < 2 ^ 63 -> forall s acc total used ret, represents (view s) R ->
  (forall x, x ∈ xs -> exists id info, live R !! id = Some info /\ x = dec id) ->
  exists s', run_prog [] (list_loop fzero ParseFloat AppendFloat Fprint_rest range xs (mkListRet acc total used ret)) s =
    Ret (s', mkListRet (acc ++ (RedisInstance_Conv <$>
      ((fun x => default (mkInfo 0 [] [] 0 0 0) (live R !! (ParseUint x 64).1)) <$> xs))) total used ret) /\ view s' = view s.
Proof.
  intros Hnext. induction xs as [|x xs IH]; intros s acc total used ret HR Hxs.
  { exists s. cbn. by rewrite app_nil_r. }
  destruct (Hxs x) as (id & info & E & ->); [by apply elem_of_cons; left|].
  destruct (rep_live _ _ _ HR _ _ E) as [Hh [_ Hr Ht]]. cbn [list_loop]. rewrite run_bind.
  change (Key_RedisInfo ++ dec id) with (info_key id). destruct (run_info_live s id info Hh Ht) as (s1 & d & -> & Hs1 & Hd).
  cbn [go_bind]. rewrite Hd. cbn [ListInfo TotalCnt UsedCnt ListRet].
  destruct (IH s1 (acc ++ [RedisInstance_Conv info]) total used ret) as (s2 & -> & Hs2).
  - by rewrite Hs1.
  - intros x Hx. apply Hxs. by apply elem_of_cons; right.
  - exists s2. rewrite !fmap_cons, ParseUint_id, E by lia. cbn. rewrite <- app_assoc. split; [done|congruence].
Qed.

Lemma strings_bulks (xs : list (list Z)) : Strings (E := result_err) (RArray (RBulk <$> xs)) None = (Some xs, None).
Proof.
  unfold Strings, array. cbn. enough (each string_elem (RBulk <$> xs) = inl xs) as ->; [done|].
  induction xs as [|x xs IH]; [done|]. rewrite fmap_cons. cbn. by rewrite IH.
Qed.

Lemma run_list s R : represents (view s) R -> next R < 2 ^ 63 ->
  serves redisList s R (mkListRet (ListInfo (reg_list R)) 0 0 (ListRet (reg_list R))).
Proof.
  intros HR Hnext. unfold serves, redisList, GetRedisList, Do. cbn [pbind].
  run_call (cmd_zrange _ _ _ (rep_list _ _ _ HR)) as s1 Hs1. cbn [reply_result Data Err]. rewrite strings_bulks. cbn [default].
  unfold Datatypes.id. rewrite <- Hs1 in HR.
  destruct (run_list_loop R (members (zset_of (live R))) Hnext s1 [] 0 0 (GetErrInfo ERR_OK) HR) as (s2 & -> & Hs2).
  - intros x ([y c] & -> & Hx)%list_elem_of_fmap. rewrite merge_sort_Permutation, elem_of_map_to_list in Hx.
    apply zset_of_lookup in Hx as (id & info & E & -> & _); [eauto|by eapply rep_ids].
  - exists s2. split; [done|]. by rewrite Hs2.
Qed.

(** ** Sequences of requests *)

(** The registry serves a request; it leaves open which instance a lookup
    answers. *)
Definition reg_serve (R : registry) (r : http_request) : registry * option http_response :=
  match r with
  | GET_redislist => (R, Some (ListResponse (reg_list R)))
  | GET_getinstance | GET_findinstance => (R, None)
  | DELETE_delinstance body n =>
      match unmarshal_id (GetRequestPayload body n) with
      | None => (R, Some (ErrResponse (GetErrInfo ERR_URL_PARSE)))
      | Some id => ((reg_delete R id).1, Some (ErrResponse (reg_delete R id).2))
      end
  | POST_createinstance now body n =>
      match unmarshal_name (GetRequestPayload body n) with
      | None => (R, Some (CreateResponse (create_failed ERR_URL_PARSE)))
      | Some name => ((reg_create R now name).1, Some (CreateResponse (reg_create R now name).2))
      end
  | POST_clearinstance body n =>
      match unmarshal_id (GetRequestPayload body n) with
      | None => (R, Some (ErrResponse (GetErrInfo ERR_URL_PARSE)))
      | Some id => (R, Some (ErrResponse (reg_clear redis_cli R id)))
      end
  end.

Fixpoint reg_serve_all (R : registry) (rs : list http_request) : registry * list (option http_response) :=
  match rs with
  | [] => (R, [])
  | r :: rs => ((reg_serve_all (reg_serve R r).1 rs).1, (reg_serve R r).2 :: (reg_serve_all (reg_serve R r).1 rs).2)
  end.

#[local] Abbreviation Router := (Router_Init fzero ParseFloat AppendFloat Fprint_rest range unmarshal_name unmarshal_id redis_cli).

(** The requests one after the other. *)
Fixpoint serve_all (rs : list http_request) : prog (list http_response) :=
  match rs with
  | [] => Done []
  | r :: rs => let* x := Router r in let* xs := serve_all rs in Done (x :: xs)
  end.

(** The clock is an int64. *)
Definition request_ok (r : http_request) : Prop :=
  match r with POST_createinstance now _ _ => - 2 ^ 63 <= now < 2 ^ 63 | _ => True end.

Lemma serves_bind {A B : Type} (p : prog A) (f : A -> B) s R' res : serves p s R' res ->
  serves (let* x := p in Done (f x)) s R' (f res).
Proof. intros (s' & Hrun & HR). exists s'. by rewrite run_bind, Hrun. Qed.

(** The answer [x] is as the registry's answer [y]: the same, but for the counts
    of a list and the instance of a lookup. *)
Definition answered (x : http_response) (y : option http_response) : Prop :=
  match y with
  | None => exists i, x = InstanceResponse i
  | Some (ListResponse b) => exists a, x = ListResponse a /\ ListInfo a = ListInfo b /\ ListRet a = ListRet b
  | Some y => x = y
  end.

Lemma run_request s R r : represents (view s) R -> 0 <= next R < 2 ^ 63 - 1 -> request_ok r ->
  exists x, serves (Router r) s (reg_serve R r).1 x /\ answered x (reg_serve R r).2.
Proof.
  intros HR Hn Hr. destruct r as [| | |body n|now body n|body n]; cbn [Router_Init reg_serve fst snd].
  - eexists. split; [apply serves_bind, run_list; [done|lia]|]. by eexists.
  - eexists. split; [by exists s|]. by eexists.
  - eexists. split; [by exists s|]. by eexists.
  - destruct (unmarshal_id _) as [id|] eqn:E; (eexists; split; [|done]).
    + by apply (serves_bind _ ErrResponse), run_delete.
    + apply (serves_bind _ ErrResponse). unfold delInstance. rewrite E. by exists s.
  - destruct (unmarshal_name _) as [name|] eqn:E; (eexists; split; [|done]).
    + by apply (serves_bind _ CreateResponse), run_create.
    + apply (serves_bind _ CreateResponse). unfold createInstance. rewrite E. by exists s.
  - destruct (unmarshal_id _) as [id|] eqn:E; (eexists; split; [|done]).
    + by apply (serves_bind _ ErrResponse), run_clear.
    + apply (serves_bind _ ErrResponse). unfold clearInstance. rewrite E. by exists s.
Qed.

Lemma reg_serve_next R r : next R <= next (reg_serve R r).1 <= next R + 1.
Proof.
  destruct r as [| | |body n|now body n|body n]; cbn [reg_serve fst]; try lia.
  - destruct (unmarshal_id _) as [id|]; [|cbn; lia]. unfold reg_delete. destruct (live R !! id); cbn; lia.
  - destruct (unmarshal_name _) as [name|]; [|cbn; lia]. unfold reg_create. destruct (free R); [cbn; lia|].
    destruct (bool_decide _); cbn; lia.
  - destruct (unmarshal_id _) as [id|]; cbn; lia.
Qed.

Lemma run_requests rs : forall s R, represents (view s) R -> 0 <= next R -> next R + zlen rs < 2 ^ 63 -> Forall request_ok rs ->
  exists xs, serves (serve_all rs) s (reg_serve_all R rs).1 xs /\ Forall2 answered xs (reg_serve_all R rs).2.
Proof.
  induction rs as [|r rs IH]; intros s R HR Hn Hlen Hrs; [exists []; split; [by exists s|by constructor]|].
  apply Forall_cons in Hrs as [Hr Hrs]. rewrite zlen_cons in Hlen. pose proof (zlen_nonneg rs). cbn [serve_all reg_serve_all fst snd].
  destruct (run_request s R r HR ltac:(lia) Hr) as (x & (s1 & Hrun & HR1) & Hx). pose proof (reg_serve_next R r).
  destruct (IH s1 _ HR1 ltac:(lia) ltac:(lia) Hrs) as (xs & (s2 & Hrun2 & HR2) & Hxs).
  exists (x :: xs). split; [|by constructor]. exists s2. rewrite run_bind, Hrun. cbn [go_bind]. by rewrite run_bind, Hrun2.
Qed.

(** C17: the web server implements the registry.  From a database that
    represents a registry, on a healthy connection, any sequence of requests,
    with bodies that decode or not, leaves a database that represents the
    registry after those operations; creations, deletions and clearings are
    answered as the registry answers them, and a list has the instances in use
    by creation time.  Not claimed, since the code differs from its comments:
    [TotalCnt] and [UsedCnt] of a list, and which instance a lookup answers.
    Bound: numbers stay below 2^63. *)
Theorem admin_refines_registry rs s R :
  represents (view s) R -> 0 <= next R -> next R + zlen rs < 2 ^ 63 -> Forall request_ok rs ->
  exists s' xs, run_prog [] (serve_all rs) s = Ret (s', xs) /\ represents (view s') (reg_serve_all R rs).1 /\
    Forall2 answered xs (reg_serve_all R rs).2.
Proof.
  intros HR Hn Hlen Hrs. destruct (run_requests rs s R HR Hn Hlen Hrs) as (xs & (s' & Hrun & HR') & Hxs). by exists s', xs.
Qed.

(** The counts of a list are never filled: they are zero, whatever the registry
    has, and a lookup answers a fixed instance. *)
Theorem list_counts_unset s R : represents (view s) R -> next R < 2 ^ 63 ->
  exists s' a, run_prog [] redisList s = Ret (s', a) /\ ListInfo a = ListInfo (reg_list R) /\ TotalCnt a = 0 /\ UsedCnt a = 0 /\
    Router GET_getinstance = Done (InstanceResponse getInstance) /\ Router GET_findinstance = Done (InstanceResponse findInstance).
Proof. intros HR Hn. destruct (run_list s R HR Hn) as (s' & Hrun & _). by eexists s', _. Qed.

(** ** Addresses and numbers *)

Definition addresses (R : registry) : list (list Z) := free R ++ (Addr <$> (map_to_list (live R)).*2).

(** The numbers a sequence of answers hands out. *)
Definition created_ids (xs : list http_response) : list Z :=
  flat_map (fun x => match x with
                     | CreateResponse r => if Ret_ (CreateRet r) =? ERR_OK then [i_Id (instance r)] else []
                     | _ => []
                     end) xs.

Definition option_list {A : Type} (y : option A) : list A := match y with Some x => [x] | None => [] end.

Lemma created_ids_answered xs ys : Forall2 answered xs ys -> created_ids xs = created_ids (flat_map option_list ys).
Proof.
  induction 1 as [|x y xs ys Hx _ IH]; [done|]. unfold created_ids in *. cbn [flat_map]. rewrite flat_map_app, <- IH. f_equal.
  destruct y as [[b| | | ]|]; cbn in Hx; [destruct Hx as (a & -> & _)|subst x..|destruct Hx as [i ->]]; cbn; by rewrite ?app_nil_r.
Qed.

Lemma created_ids_app xs ys : created_ids (xs ++ ys) = created_ids xs ++ created_ids ys.
Proof. apply flat_map_app. Qed.

Lemma reg_serve_conserves R r : [] ∉ free R -> 0 <= next R -> (forall id info, live R !! id = Some info -> id <= next R /\ Addr info <> []) ->
  let R' := (reg_serve R r).1 in
  addresses R' ≡ₚ addresses R /\ [] ∉ free R' /\
  (forall id info, live R' !! id = Some info -> id <= next R' /\ Addr info <> []) /\
  created_ids (option_list (reg_serve R r).2) = seqZ (next R + 1) (next R' - next R).
Proof.
  intros Hfree Hn Hlive R'. assert (forall R0 : registry, seqZ (next R0 + 1) (next R0 - next R0) = []) as Hseq by (intros; by rewrite Z.sub_diag).
  subst R'. destruct r as [| | |body n|now body n|body n]; cbn [reg_serve fst snd]; try by rewrite Hseq.
  - destruct (unmarshal_id _) as [id|]; [|by rewrite Hseq]. unfold reg_delete.
    destruct (live R !! id) as [info|] eqn:E; cbn [fst snd free next live]; [|by rewrite Hseq]. rewrite Hseq.
    destruct (Hlive _ _ E) as [Hle Ha]. split_and!; [| | |done].
    + unfold addresses. cbn [free live]. rewrite <- (map_to_list_delete (live R) id info) by done. cbn [fmap list_fmap snd].
      apply Permutation_middle.
    + by intros [|]%elem_of_cons.
    + intros i j [_ Hi]%lookup_delete_Some. eauto.
  - destruct (unmarshal_name _) as [name|]; [|by rewrite Hseq]. unfold reg_create.
    destruct (free R) as [|addr fr] eqn:Ef; cbn [fst snd]; [by rewrite Hseq, Ef|].
    rewrite not_elem_of_cons in Hfree. destruct Hfree as [Hne Hfr]. rewrite bool_decide_false by done. cbn [fst snd free next live].
    assert (live R !! (next R + 1) = None) as Hnew.
    { destruct (live R !! (next R + 1)) as [j|] eqn:E; [|done]. destruct (Hlive _ _ E). lia. }
    split_and!; [|done| |].
    + unfold addresses. cbn [free live]. rewrite map_to_list_insert by done. rewrite Ef. cbn [fmap list_fmap snd Addr app].
      symmetry. apply Permutation_middle.
    + intros i j. destruct (decide (next R + 1 = i)) as [<-|Hne'].
      * rewrite lookup_insert_eq. intros [= <-]. split; [lia|done].
      * rewrite lookup_insert_ne by done. intros Hi. destruct (Hlive _ _ Hi). split; [lia|done].
    + replace (next R + 1 - next R) with 1 by lia. rewrite seqZ_cons by lia. done.
  - destruct (unmarshal_id _) as [id|]; by rewrite Hseq.
Qed.

Lemma reg_serve_all_conserves rs : forall R, [] ∉ free R -> 0 <= next R ->
  (forall id info, live R !! id = Some info -> id <= next R /\ Addr info <> []) ->
  let R' := (reg_serve_all R rs).1 in
  addresses R' ≡ₚ addresses R /\ next R <= next R' /\
  created_ids (flat_map option_list (reg_serve_all R rs).2) = seqZ (next R + 1) (next R' - next R).
Proof.
  induction rs as [|r rs IH]; intros R Hf Hn Hl R'; subst R'; cbn [reg_serve_all fst snd flat_map].
  { split; [done|]. split; [lia|]. by rewrite Z.sub_diag. }
  destruct (reg_serve_conserves R r Hf Hn Hl) as (Ha & Hf1 & Hl1 & Hc). pose proof (reg_serve_next R r) as Hnext.
  destruct (IH _ Hf1 ltac:(lia) Hl1) as (Ha2 & Hn2 & Hc2). split; [by rewrite Ha2|]. split; [lia|].
  rewrite created_ids_app, Hc, Hc2. set (R1 := (reg_serve R r).1) in *. set (R2 := (reg_serve_all R1 rs).1) in *.
  replace (next R2 - next R) with ((next R1 - next R) + (next R2 - next R1)) by lia. rewrite seqZ_app by lia.
  do 2 f_equal. lia.
Qed.

(** No address is lost or given twice.  When no request fails on the
    way to the server, the free addresses together with those of the instances
    in use are the same, as a multiset, after any sequence of requests, and
    the numbers handed out are the next ones in order, each once. *)
Theorem admin_conserves_addresses rs s R :
  represents (view s) R -> 0 <= next R -> next R + zlen rs < 2 ^ 63 -> Forall request_ok rs -> [] ∉ addresses R ->
  exists s' xs R', run_prog [] (serve_all rs) s = Ret (s', xs) /\ represents (view s') R' /\
    addresses R' ≡ₚ addresses R /\ created_ids xs = seqZ (next R + 1) (next R' - next R).
Proof.
  intros HR Hn Hlen Hrs Hne. destruct (run_requests rs s R HR Hn Hlen Hrs) as (xs & (s' & Hrun & HR') & Hxs).
  unfold addresses in Hne. rewrite not_elem_of_app in Hne. destruct Hne as [Hf Hl].
  destruct (reg_serve_all_conserves rs R Hf Hn) as (Ha & _ & Hc).
  - intros id info E. destruct (rep_live _ _ _ HR _ _ E) as [_ [_ Hr _]]. split; [lia|]. intros Ea. apply Hl. rewrite <- Ea.
    apply list_elem_of_fmap. exists info. split; [done|]. apply list_elem_of_fmap. exists (id, info). split; [done|].
    by apply elem_of_map_to_list.
  - eexists s', xs, _. by rewrite (created_ids_answered _ _ Hxs).
Qed.
End Spec.

(** ** A database with two free addresses *)

Definition ex_PF := fun (_ : list Z) (_ : Z) => (tt, @None num_err).
Definition ex_AF := fun _ : unit => str "0".
Definition ex_FR := fun _ : gtype * gval unit => @nil Z.
Definition ex_uname := fun data : list Z => if bool_decide (data = []) then None else Some data.
Definition ex_uid := fun data : list Z => if bool_decide (data = str "1") then Some 1 else None.
Definition ex_cli := fun _ _ : list Z => true.

Definition two_free : keyspace := {[Key_RedisPools := KList [str "10.0.0.1:80"; str "10.0.0.2:80"]]}.
Definition two_free_reg : registry := mkRegistry [str "10.0.0.1:80"; str "10.0.0.2:80"] 0 ∅.

(** Create twice, delete the first, list, create again. *)
Definition some_requests : list http_request :=
  [POST_createinstance 5 (str "x") 1; POST_createinstance 6 (str "y") 1; DELETE_delinstance (str "1") 1; GET_redislist;
   POST_clearinstance (str "1") 1; POST_createinstance 7 (str "z") 1; POST_createinstance 8 (str "w") 1].

Lemma two_free_represents : represents (F := unit) ex_AF ex_FR two_free two_free_reg.
Proof.
  constructor.
  - reflexivity.
  - exists None. vm_compute. done.
  - reflexivity.
  - intros id info. cbn. by rewrite lookup_empty.
  - intros id _ _. unfold two_free. apply lookup_singleton_ne. discriminate.
Qed.

Lemma some_requests_ok : Forall request_ok some_requests.
Proof. repeat constructor; cbn; lia. Qed.

Lemma ex_uid_range data id : ex_uid data = Some id -> 0 <= id < 2 ^ 64.
Proof. unfold ex_uid. case_bool_decide; [|done]. intros [= <-]. lia. Qed.

Lemma admin_refines_registry_witness :
  exists s' xs, run_prog [] (serve_all tt ex_PF ex_AF ex_FR reverse ex_uname ex_uid ex_cli some_requests) two_free = Ret (s', xs) /\
    represents (F := unit) ex_AF ex_FR (view s') (reg_serve_all ex_uname ex_uid ex_cli two_free_reg some_requests).1 /\
    Forall2 answered xs (reg_serve_all ex_uname ex_uid ex_cli two_free_reg some_requests).2.
Proof.
  apply (admin_refines_registry tt ex_PF ex_AF ex_FR (fun f => match f with tt => eq_refl end) reverse (fun l => reverse_Permutation l)
    ex_uname ex_uid ex_cli ex_uid_range).
  - exact two_free_represents.
  - cbn. lia.
  - vm_compute. reflexivity.
  - exact some_requests_ok.
Defined.

Lemma admin_conserves_addresses_witness :
  exists s' xs R', run_prog [] (serve_all tt ex_PF ex_AF ex_FR reverse ex_uname ex_uid ex_cli some_requests) two_free = Ret (s', xs) /\
    represents (F := unit) ex_AF ex_FR (view s') R' /\
    addresses R' ≡ₚ addresses two_free_reg /\ created_ids xs = seqZ (next two_free_reg + 1) (next R' - next two_free_reg).
Proof.
  apply (admin_conserves_addresses tt ex_PF ex_AF ex_FR (fun f => match f with tt => eq_refl end) reverse (fun l => reverse_Permutation l)
    ex_uname ex_uid ex_cli ex_uid_range).
  - exact two_free_represents.
  - cbn. lia.
  - vm_compute. reflexivity.
  - exact some_requests_ok.
  - unfold addresses. cbn. rewrite map_to_list_empty. refine (bool_decide_unpack _ _). vm_compute. exact I.
Defined.
