(* ===== verification/Adminconc.v ===== *)
(** * gredis_webserver: requests served at the same time

    The web server runs each request in its own goroutine; their commands reach
    the administration Redis in any order.  [conc_run] runs several programs
    command by command under a schedule.  For creations the interleaving does
    no harm: addresses are conserved, no address and no number is given twice,
    and every creation finishes after five commands.  Deletions are different;
    and with faults of the connection addresses are lost or doubled. *)

From S2P Require Import Prelude Resp Respread Strconv Reply Redisconn Redisdb Gotype Scan Scantype Helper Objects Admin Adminspec.

Section Interleaving.
Context `{Redis W} {A : Type}.

(** Thread [i] makes its next call. *)
Definition conc_step (c : W * list (prog A)) (i : nat) : W * list (prog A) :=
  match c.2 !! i with
  | Some (Req w parts k) => let '(s, r) := call Delivered c.1 w parts in (s, <[i := k r]> c.2)
  | _ => c
  end.

Definition conc_run (sched : list nat) (c : W * list (prog A)) : W * list (prog A) := foldl conc_step c sched.

(** What a call that is carried out returns. *)
Definition answer (w : bool) (r : reply) : reply * option result_err :=
  if w then (Data (reply_result r), Err (reply_result r)) else (RNil, None).

(** A step of a thread whose command is documented. *)
Lemma conc_call s ps i w parts k k' r : ps !! i = Some (Req w parts k) -> command (view s) parts = Some (k', r) ->
  exists s', conc_step (s, ps) i = (s', <[i := k (answer w r)]> ps) /\ view s' = k'.
Proof.
  intros Hp Hc. destruct (exec_command s parts k' r Hc) as [Hv Hr]. exists (exec s parts).1. split; [|done].
  unfold conc_step. cbn [fst snd]. rewrite Hp. cbn. destruct (exec s parts) as [s' r']. cbn in *. by subst r'.
Qed.
End Interleaving.

(** ** The stages of a creation *)

Inductive stage : Type :=
| SCheck (now : Z) (name : list Z)
| SPop (now : Z) (name : list Z)
| SNumber (now : Z) (name addr : list Z)
| SStore (info : DB_RedisInfo)
| SList (info : DB_RedisInfo)
| SCreated (info : DB_RedisInfo)
| SFailed (code : Z).

(** The registry with the instances listed so far, and the creations on their
    way. *)
Record astate := mkA { reg : registry; listed : gmap Z DB_RedisInfo; ths : list stage }.

(** What one command of a creation does: the new registry, the new list, the
    next stage. *)
Definition advance (R : registry) (ls : gmap Z DB_RedisInfo) (st : stage) : registry * gmap Z DB_RedisInfo * stage :=
  match st with
  | SCheck now name => (R, ls, match free R with [] => SFailed ERR_REDIS_POOLS_EMPTY | _ => SPop now name end)
  | SPop now name =>
      match free R with
      | [] => (R, ls, SFailed ERR_DB)
      | a :: fr =>
          (mkRegistry fr (next R) (live R), ls,
            if bool_decide (a = []) then SFailed ERR_REDIS_POOLS_EMPTY else SNumber now name a)
      end
  | SNumber now name a =>
      (mkRegistry (free R) (next R + 1) (live R), ls, SStore (mkInfo (next R + 1) name a 0 0 now))
  | SStore info => (mkRegistry (free R) (next R) (<[Id info := info]> (live R)), ls, SList info)
  | SList info => (R, <[Id info := info]> ls, SCreated info)
  | SCreated _ | SFailed _ => (R, ls, st)
  end.

Definition astep (a : astate) (i : nat) : astate :=
  match ths a !! i with
  | Some st => let '(R, ls, st) := advance (reg a) (listed a) st in mkA R ls (<[i := st]> (ths a))
  | None => a
  end.

(** Addresses taken and not yet stored, and the numbers given. *)
Definition held (st : stage) : list (list Z) :=
  match st with SNumber _ _ a => [a] | SStore info => [Addr info] | _ => [] end.
Definition number (st : stage) : list Z :=
  match st with SStore info | SList info | SCreated info => [Id info] | _ => [] end.
(** Numbers still to be asked for. *)
Definition asking (st : stage) : nat :=
  match st with SCheck _ _ | SPop _ _ | SNumber _ _ _ => 1%nat | _ => 0%nat end.
Section Stages.
Context {F : Type}.

(** A stage and the registry: numbers that are given are not above the
    counter; an instance is in the registry from [SList] on, and listed when
    the creation is finished. *)
Definition stage_ok (R : registry) (ls : gmap Z DB_RedisInfo) (st : stage) : Prop :=
  match st with
  | SCheck now _ | SPop now _ | SNumber now _ _ => - 2 ^ 63 <= now < 2 ^ 63
  | SStore info => info_ok (F := F) (next R) (Id info) info /\ live R !! Id info = None
  | SList info => info_ok (F := F) (next R) (Id info) info /\ live R !! Id info = Some info
  | SCreated info => info_ok (F := F) (next R) (Id info) info /\ live R !! Id info = Some info /\ ls !! Id info = Some info
  | SFailed code => code <> ERR_OK
  end.

(** What holds of the registry and the stages [sts], in any order. *)
Record good (total : list (list Z)) (R : registry) (ls : gmap Z DB_RedisInfo) (sts : list stage) : Prop := mkGood {
  g_total : addresses R ++ flat_map held sts ≡ₚ total;
  g_next : 0 <= next R /\ next R + Z.of_nat (sum_list_with asking sts) < 2 ^ 63;
  g_nodup : NoDup (flat_map number sts);
  g_stages : Forall (stage_ok R ls) sts;
  g_live : forall id info, live R !! id = Some info -> 0 < id <= next R;
  g_sub : ls ⊆ live R;
  g_cover : forall id info, live R !! id = Some info -> ls !! id = Some info \/ SList info ∈ sts /\ Id info = id;
}.

#[export] Instance good_perm total R ls : Proper ((≡ₚ) ==> iff) (good total R ls).
Proof.
  assert (forall x y, x ≡ₚ y -> good total R ls x -> good total R ls y) as Hp.
  { intros x y Hp [H1 H2 H3 H4 H5 H6 H7]. constructor; try (by rewrite <- Hp); try done. intros id info. rewrite <- Hp. apply H7. }
  intros x y Hxy. split; apply Hp; [done|by symmetry].
Qed.

(** A number that is given belongs to one stage. *)
Lemma number_ne info sts st info' : NoDup (Id info :: flat_map number sts) -> st ∈ sts ->
  st = SStore info' \/ st = SList info' \/ st = SCreated info' -> Id info <> Id info'.
Proof.
  intros [Hn _]%NoDup_cons Hin Hst E. apply Hn. apply list_elem_of_In, in_flat_map. exists st.
  split; [by apply list_elem_of_In|]. by destruct Hst as [-> | [-> | ->]]; left.
Qed.

Lemma stages_change R ls R' ls' sts : next R <= next R' ->
  (forall info', (exists st, st ∈ sts /\ (st = SStore info' \/ st = SList info' \/ st = SCreated info')) ->
    live R' !! Id info' = live R !! Id info' /\ ls' !! Id info' = ls !! Id info') ->
  Forall (stage_ok R ls) sts -> Forall (stage_ok R' ls') sts.
Proof.
  intros Hn Hsame. rewrite !Forall_forall. intros Hall st Hin. specialize (Hall st Hin).
  assert (forall n i info, info_ok (F := F) n i info -> n <= next R' -> info_ok (F := F) (next R') i info) as Hmono.
  { intros n i info [? ? ?] ?. constructor; [done|lia|done]. }
  destruct st as [| | |info|info|info|]; cbn in *; try done.
  - destruct (Hsame info) as [-> _]; [eauto 6|]. destruct Hall. eauto.
  - destruct (Hsame info) as [-> _]; [eauto 6|]. destruct Hall. eauto.
  - destruct (Hsame info) as [-> ->]; [eauto 6|]. destruct Hall as (? & ? & ?). eauto.
Qed.

Lemma cover_cons (live ls : gmap Z DB_RedisInfo) st st' rest : (forall info, st <> SList info) ->
  (forall id info, live !! id = Some info -> ls !! id = Some info \/ SList info ∈ st :: rest /\ Id info = id) ->
  forall id info, live !! id = Some info -> ls !! id = Some info \/ SList info ∈ st' :: rest /\ Id info = id.
Proof.
  intros Hst Hc id info Hl. destruct (Hc id info Hl) as [?|[[E|Hin]%elem_of_cons ?]]; [by left|by destruct (Hst info)|].
  right. split; [by apply elem_of_cons; right|done].
Qed.

Lemma good_keep total R ls st st' rest : held st' = held st -> number st' = number st -> (asking st' <= asking st)%nat ->
  stage_ok R ls st' -> (forall info, st <> SList info) -> good total R ls (st :: rest) -> good total R ls (st' :: rest).
Proof.
  intros Hh Hn Ha Hok Hst [H1 H2 H3 H4 H5 H6 H7]. apply Forall_cons in H4 as [_ H4].
  cbn [flat_map sum_list_with] in *. rewrite <- Hh in H1. rewrite <- Hn in H3.
  constructor; cbn [flat_map sum_list_with]; [done|lia|done|by constructor|done|done|by eapply cover_cons; [|exact H7]].
Qed.

Lemma good_pop total R ls now name a fr rest : free R = a :: fr -> good total R ls (SPop now name :: rest) ->
  good total (mkRegistry fr (next R) (live R)) ls (SNumber now name a :: rest).
Proof.
  intros Hf [H1 H2 H3 H4 H5 H6 H7]. apply Forall_cons in H4 as [Hok H4].
  constructor; cbn [flat_map sum_list_with free next live held number asking app] in *; auto.
  - rewrite <- H1. unfold addresses. rewrite Hf. cbn [free live app]. symmetry. apply Permutation_middle.
  - by eapply cover_cons; [|exact H7].
Qed.

Lemma good_number total R ls now name a rest : good total R ls (SNumber now name a :: rest) ->
  good total (mkRegistry (free R) (next R + 1) (live R)) ls (SStore (mkInfo (next R + 1) name a 0 0 now) :: rest).
Proof.
  intros [H1 H2 H3 H4 H5 H6 H7]. apply Forall_cons in H4 as [Hok H4]. cbn in Hok.
  assert (live R !! (next R + 1) = None) as Hnew.
  { destruct (live R !! (next R + 1)) as [j|] eqn:E; [|done]. specialize (H5 _ _ E). lia. }
  constructor; cbn [flat_map sum_list_with free next live held number asking app Id Addr] in *; auto.
  - lia.
  - apply NoDup_cons. split; [|done]. intros (st & Hst & Hin)%list_elem_of_In%in_flat_map. apply list_elem_of_In in Hst.
    rewrite Forall_forall in H4. specialize (H4 _ Hst).
    destruct st as [| | |i|i|i|]; cbn in Hin, H4; try done; destruct Hin as [E|[]]; destruct H4 as [[_ Hr _] _]; lia.
  - constructor.
    + cbn. split; [|done]. constructor; [done|cbn; lia|cbn; split_and!; (lia || done)].
    + eapply stages_change; [| |exact H4]; [cbn; lia|done].
  - intros id info Hl. specialize (H5 _ _ Hl). lia.
  - by eapply cover_cons; [|exact H7].
Qed.

Lemma good_store total R ls info rest : good total R ls (SStore info :: rest) ->
  good total (mkRegistry (free R) (next R) (<[Id info := info]> (live R))) ls (SList info :: rest).
Proof.
  intros [H1 H2 H3 H4 H5 H6 H7]. apply Forall_cons in H4 as [[Hok Hnew] H4].
  constructor; cbn [flat_map sum_list_with free next live held number asking app] in *; auto.
  - rewrite <- H1. unfold addresses. cbn [free live]. rewrite map_to_list_insert by done. cbn [fmap list_fmap snd].
    rewrite <- !app_assoc. apply Permutation_app_head. cbn. by rewrite <- Permutation_middle.
  - constructor; [split; [done|cbn [live]; by rewrite lookup_insert_eq]|]. eapply stages_change; [| |exact H4]; [cbn; lia|].
    intros info' (st & Hin & Hst). pose proof (number_ne _ _ _ _ H3 Hin Hst). cbn. by rewrite lookup_insert_ne.
  - intros id j. destruct (decide (Id info = id)) as [<-|Hne]; [intros _; apply Hok|]. rewrite lookup_insert_ne by done. apply H5.
  - apply insert_subseteq_r; [by eapply lookup_weaken_None|done].
  - intros id j. destruct (decide (Id info = id)) as [<-|Hne].
    + rewrite lookup_insert_eq. intros [= <-]. right. split; [by apply elem_of_cons; left|done].
    + rewrite lookup_insert_ne by done. intros Hl. destruct (H7 id j Hl) as [?|[[E|Hin]%elem_of_cons ?]]; [by left|done|].
      right. split; [by apply elem_of_cons; right|done].
Qed.

Lemma good_list total R ls info rest : good total R ls (SList info :: rest) ->
  good total R (<[Id info := info]> ls) (SCreated info :: rest).
Proof.
  intros [H1 H2 H3 H4 H5 H6 H7]. apply Forall_cons in H4 as [[Hok Hlive] H4].
  constructor; cbn [flat_map sum_list_with held number asking app] in *; auto.
  - constructor; [split; [done|split; [done|by rewrite lookup_insert_eq]]|]. eapply stages_change; [| |exact H4]; [lia|].
    intros info' (st & Hin & Hst). pose proof (number_ne _ _ _ _ H3 Hin Hst). by rewrite lookup_insert_ne.
  - by apply insert_subseteq_l.
  - intros id j Hl. destruct (decide (Id info = id)) as [<-|Hne]; [left; rewrite lookup_insert_eq; congruence|].
    rewrite lookup_insert_ne by done. destruct (H7 id j Hl) as [?|[[[= ->]|Hin]%elem_of_cons ?]]; [by left|done|].
    right. split; [by apply elem_of_cons; right|done].
Qed.

(** One command of one creation keeps the registry good. *)
Lemma advance_good total R ls st rest : [] ∉ total -> good total R ls (st :: rest) ->
  let '(R', ls', st') := advance R ls st in good total R' ls' (st' :: rest).
Proof.
  intros Htot HG. destruct st as [now name|now name|now name a|info|info|info|code]; cbn [advance].
  - pose proof (g_stages _ _ _ _ HG) as [Hok _]%Forall_cons.
    destruct (free R); (eapply good_keep; [..|exact HG]; (done || (cbn; lia))).
  - destruct (free R) as [|a fr] eqn:Ef; [eapply good_keep; [..|exact HG]; (done || (cbn; lia))|]. rewrite bool_decide_false; [by apply good_pop|].
    intros ->. apply Htot. rewrite <- (g_total _ _ _ _ HG). unfold addresses. rewrite Ef. by apply elem_of_cons; left.
  - by apply good_number.
  - by apply good_store.
  - by apply good_list.
  - done.
  - done.
Qed.

Lemma delete_insert_same {A} (xs : list A) : forall i x, delete i (<[i := x]> xs) = delete i xs.
Proof. induction xs as [|y xs IH]; intros [|i] x; [done..|]. cbn. f_equal. apply IH. Qed.

Lemma astep_good total a i : [] ∉ total -> good total (reg a) (listed a) (ths a) ->
  good total (reg (astep a i)) (listed (astep a i)) (ths (astep a i)).
Proof.
  intros Htot HG. unfold astep. destruct (ths a !! i) as [st|] eqn:E; [|done].
  rewrite (delete_Permutation _ _ _ E) in HG. pose proof (advance_good _ _ _ _ _ Htot HG) as HG'.
  destruct (advance (reg a) (listed a) st) as [[R ls] st']. cbn [reg listed ths].
  assert (<[i := st']> (ths a) !! i = Some st') as E' by (apply list_lookup_insert_eq; by eapply lookup_lt_Some).
  rewrite (delete_Permutation _ _ _ E'). by rewrite delete_insert_same.
Qed.
End Stages.

(** ** The programs of the stages *)

Section Creations.
Context {F : Type} (AppendFloat : F -> list Z) (Fprint_rest : gtype * gval F -> list Z).
Context (unmarshal_name : list Z -> option (list Z)).
Context `{Redis W}.
#[local] Abbreviation rep := (rep AppendFloat Fprint_rest).
#[local] Abbreviation represents := (represents AppendFloat Fprint_rest).
#[local] Abbreviation CreateRedis := (CreateRedis AppendFloat Fprint_rest).
#[local] Abbreviation createInstance := (createInstance AppendFloat Fprint_rest unmarshal_name).
#[local] Abbreviation good := (good (F := F)).

(** What is left of the request in each stage. *)
Definition stage_prog (st : stage) : prog CreateInstanceRet :=
  match st with
  | SCheck now name =>
      let* ok := CreateRedisCheck AppendFloat Fprint_rest in
      if negb ok then Done (create_failed ERR_REDIS_POOLS_EMPTY) else let* r := CreateRedis now name in create_answer r
  | SPop now name => let* r := CreateRedis now name in create_answer r
  | SNumber now name a => let* r := CreateRedis_id AppendFloat Fprint_rest now name a in create_answer r
  | SStore info => let* r := CreateRedis_store AppendFloat Fprint_rest info in create_answer r
  | SList info => let* r := CreateRedis_list AppendFloat Fprint_rest info in create_answer r
  | SCreated info => Done (created info)
  | SFailed code => Done (create_failed code)
  end.

Definition finished (st : stage) : bool := match st with SCreated _ | SFailed _ => true | _ => false end.

(** A stage that is not finished is a command, and its continuation is the
    program of the next stage. *)
Lemma stage_call k R ls st : rep k R ls -> stage_ok (F := F) R ls st -> ids_ok ls ->
  0 <= next R -> next R + Z.of_nat (asking st) < 2 ^ 63 -> finished st = false ->
  let '(R', ls', st') := advance R ls st in
  exists w parts cont k' r, stage_prog st = Req w parts cont /\ command k parts = Some (k', r) /\
    cont (answer w r) = stage_prog st' /\ rep k' R' ls'.
Proof.
  intros HR Hok Hids Hn Hlt Hfin. destruct st as [now name|now name|now name a|info|info|info|code]; try done; cbn [advance].
  - eexists _, _, _, _, _. split; [reflexivity|]. split; [apply (cmd_llen _ _ _ (rep_free _ _ _ _ _ HR))|]. split; [|done].
    destruct (free R) as [|a fr]; [done|]. cbn [answer reply_result Data Err pbind Int].
    rewrite zlen_cons, (proj2 (Z.leb_gt _ 0)) by (pose proof (zlen_nonneg fr); lia). done.
  - pose proof (rep_free _ _ _ _ _ HR) as Hf. destruct (free R) as [|a fr].
    + eexists _, _, _, _, _. split; [reflexivity|]. split; [apply (cmd_lpop_nil _ _ Hf)|]. done.
    + eexists _, _, _, _, _. split; [reflexivity|]. split; [apply (cmd_lpop _ _ _ _ Hf)|]. split; [|by apply rep_set_free].
      cbn [answer reply_result Data Err pbind String]. by case_bool_decide.
  - destruct (rep_next _ _ _ _ _ HR) as (o & Ho & Hp). cbn in Hlt.
    eexists _, _, _, _, _. split; [reflexivity|]. split; [apply (cmd_incr _ _ _ _ Ho Hp); lia|].
    split; [|apply rep_incr; [done|lia]]. cbn [answer reply_result Data Err pbind Uint64].
    by rewrite (proj2 (Z.ltb_ge (next R + 1) 0)) by lia.
  - destruct Hok as [Hok Hnew]. pose proof (rep_dead _ _ _ _ _ HR (Id info) ltac:(destruct Hok; lia) Hnew) as Hdead.
    eexists _, _, _, _, _. split.
    + cbn [stage_prog]. unfold CreateRedis_store.
      rewrite (SetObject_req AppendFloat Fprint_rest info_fields info_spec info_spec_eq _ _ (info_typed _ _ _ Hok)). reflexivity.
    + split; [apply (cmd_hmset_object AppendFloat Fprint_rest info_fields info_spec info_spec_eq info_spec_fields k _ (info_val info) ∅)|].
      { unfold hash_at. change (Key_RedisInfo ++ dec (Id info)) with (info_key (Id info)). by rewrite Hdead. }
      split; [done|]. apply rep_store; [done..|]. apply info_hash_fields.
  - destruct Hok as [[_ Hr Ht] _]. eexists _, _, _, _, _. split; [reflexivity|].
    split; [apply (cmd_zadd _ _ _ (CTime info) _ (rep_list _ _ _ _ _ HR)); cbn in Ht; lia|]. split; [done|].
    apply rep_enlist; [done..|lia].
Qed.

(** ** Running creations *)

(** A machine of creations and its abstraction. *)
Record inv (total : list (list Z)) (c : W * list (prog CreateInstanceRet)) (a : astate) : Prop := mkInv {
  inv_threads : c.2 = stage_prog <$> ths a;
  inv_rep : rep (view c.1) (reg a) (listed a);
  inv_good : good total (reg a) (listed a) (ths a);
}.

Lemma inv_stage total c a i st : inv total c a -> ths a !! i = Some st ->
  stage_ok (F := F) (reg a) (listed a) st /\ ids_ok (listed a) /\ 0 <= next (reg a) /\
  next (reg a) + Z.of_nat (asking st) < 2 ^ 63.
Proof.
  intros [_ _ [_ Hn _ Hst Hl Hsub _]] E. rewrite (delete_Permutation _ _ _ E) in Hn, Hst. cbn [sum_list_with] in Hn.
  apply Forall_cons in Hst as [Hst _]. split; [done|]. split; [|lia].
  intros id info Hi. pose proof (Hl _ _ (lookup_weaken _ _ _ _ Hi Hsub)). lia.
Qed.

Lemma machine_step total c a i : [] ∉ total -> inv total c a -> inv total (conc_step c i) (astep a i).
Proof.
  intros Htot Hinv. pose proof (astep_good total a i Htot (inv_good _ _ _ Hinv)) as HG. unfold astep in *.
  destruct (ths a !! i) as [st|] eqn:E.
  - destruct (inv_stage _ _ _ _ _ Hinv E) as (Hok & Hids & Hn & Hlt). destruct Hinv as [Ht HR _].
    assert (c.2 !! i = Some (stage_prog st)) as Ep by (by rewrite Ht, list_lookup_fmap, E).
    destruct (finished st) eqn:Hfin.
    + destruct st as [| | | | |info|code]; try done; cbn [advance] in *; rewrite list_insert_id in * by done;
        unfold conc_step; rewrite Ep; cbn [stage_prog]; by constructor.
    + pose proof (stage_call _ _ _ _ HR Hok Hids Hn Hlt Hfin) as Hcall.
      destruct (advance (reg a) (listed a) st) as [[R' ls'] st']. destruct Hcall as (w & parts & cont & k' & r & Hp & Hc & Hk & HR').
      rewrite Hp in Ep. destruct c as [s ps]. destruct (conc_call s ps i w parts cont k' r Ep Hc) as (s' & -> & Hv).
      constructor; [|cbn [fst reg listed]; by rewrite Hv|done]. cbn [snd ths]. cbn in Ht. by rewrite Ht, Hk, list_fmap_insert.
  - assert (c.2 !! i = None) as Ep by (by rewrite (inv_threads _ _ _ Hinv), list_lookup_fmap, E).
    unfold conc_step. by rewrite Ep.
Qed.

Lemma machine_run total sched : [] ∉ total -> forall c a, inv total c a -> inv total (conc_run sched c) (foldl astep a sched).
Proof. intros Htot. induction sched as [|i sched IH]; intros c a Hinv; [done|]. cbn. by apply IH, machine_step. Qed.

(** ** Every creation finishes *)

Definition rank (st : stage) : nat :=
  match st with SCheck _ _ => 5 | SPop _ _ => 4 | SNumber _ _ _ => 3 | SStore _ => 2 | SList _ => 1 | _ => 0 end.

Lemma advance_rank R ls st : (rank (advance R ls st).2 <= rank st - 1)%nat.
Proof.
  destruct st; cbn [advance snd]; try (cbn; lia).
  - destruct (free R); cbn; lia.
  - destruct (free R) as [|a fr]; [cbn; lia|]. cbn [snd]. destruct (bool_decide _); cbn; lia.
Qed.

Lemma astep_rank a i j st : ths a !! j = Some st ->
  exists st', ths (astep a i) !! j = Some st' /\ (rank st' <= rank st - if decide (i = j) then 1 else 0)%nat.
Proof.
  intros E. unfold astep. destruct (decide (i = j)) as [->|Hne].
  - rewrite E. pose proof (advance_rank (reg a) (listed a) st) as Hr. destruct (advance _ _ st) as [[R ls] st'].
    exists st'. cbn [ths]. split; [|done]. apply list_lookup_insert_eq. by eapply lookup_lt_Some.
  - exists st. split; [|lia]. destruct (ths a !! i) as [st0|]; [|done]. destruct (advance _ _ st0) as [[R ls] st'].
    cbn [ths]. by rewrite list_lookup_insert_ne.
Qed.

Lemma astep_length sched : forall a, length (ths (foldl astep a sched)) = length (ths a).
Proof.
  induction sched as [|i sched IH]; intros a; [done|]. cbn [foldl]. rewrite IH. unfold astep. destruct (ths a !! i) as [st|]; [|done].
  destruct (advance _ _ st) as [[R ls] st']. cbn [ths]. by rewrite length_insert.
Qed.

Lemma run_rank sched j : forall a st, ths a !! j = Some st ->
  exists st', ths (foldl astep a sched) !! j = Some st' /\ (rank st' <= rank st - length (filter (eq j) sched))%nat.
Proof.
  induction sched as [|i sched IH]; intros a st E; [exists st; cbn; split; [done|lia]|]. cbn [foldl].
  destruct (astep_rank a i j st E) as (st1 & E1 & Hr1). destruct (IH _ _ E1) as (st2 & E2 & Hr2). exists st2.
  split; [done|]. rewrite filter_cons. destruct (decide (i = j)) as [->|Hne]; [rewrite decide_True by done|rewrite decide_False by done];
    cbn [length]; lia.
Qed.

Lemma stage_done st : rank st = 0%nat -> finished st = true.
Proof. by destruct st. Qed.

(** A request to create: the time it is served at, and its body. *)
Definition job_stage (job : Z * list Z) : stage :=
  match unmarshal_name job.2 with Some name => SCheck job.1 name | None => SFailed ERR_URL_PARSE end.
Definition job_ok (job : Z * list Z) : Prop := - 2 ^ 63 <= job.1 < 2 ^ 63.

Lemma job_prog job : createInstance job.1 job.2 = stage_prog (job_stage job).
Proof. unfold createInstance, job_stage. by destruct (unmarshal_name job.2). Qed.

Lemma machine_init jobs s R : represents (view s) R -> 0 <= next R -> next R + zlen jobs < 2 ^ 63 -> Forall job_ok jobs ->
  inv (addresses R) (s, (fun job => createInstance job.1 job.2) <$> jobs) (mkA R (live R) (job_stage <$> jobs)).
Proof.
  intros HR Hn Hlt Hjobs.
  assert (forall job, held (job_stage job) = [] /\ number (job_stage job) = [] /\ (asking (job_stage job) <= 1)%nat) as Hnone.
  { intros job. unfold job_stage. by destruct (unmarshal_name job.2); repeat split; cbn; lia. }
  constructor; cbn [fst snd reg listed ths].
  - rewrite <- list_fmap_compose. apply list_fmap_ext. intros i job _. apply job_prog.
  - exact HR.
  - constructor.
    + enough (flat_map held (job_stage <$> jobs) = []) as -> by by rewrite app_nil_r.
      clear -Hnone. induction jobs as [|job jobs IH]; [done|]. rewrite fmap_cons. cbn [flat_map]. by rewrite (proj1 (Hnone job)).
    + split; [done|]. enough (sum_list_with asking (job_stage <$> jobs) <= length jobs)%nat by (unfold zlen in Hlt; lia).
      clear -Hnone. induction jobs as [|job jobs IH]; [done|]. rewrite fmap_cons. cbn [sum_list_with length].
      destruct (Hnone job) as (_ & _ & ?). lia.
    + enough (flat_map number (job_stage <$> jobs) = []) as -> by constructor.
      clear -Hnone. induction jobs as [|job jobs IH]; [done|]. rewrite fmap_cons. cbn [flat_map]. by destruct (Hnone job) as (_ & -> & _).
    + apply Forall_fmap. eapply Forall_impl; [exact Hjobs|]. intros job Hj. cbn. unfold job_stage. by destruct (unmarshal_name job.2).
    + intros id info E. by destruct (rep_live _ _ _ _ _ HR _ _ E) as [_ [_ ? _]].
    + done.
    + intros id info E. by left.
Qed.

Lemma flat_map_once {X Y : Type} (f : X -> list Y) xs : NoDup (flat_map f xs) -> forall i j x y n,
  xs !! i = Some x -> xs !! j = Some y -> i <> j -> n ∈ f x -> n ∉ f y.
Proof.
  induction xs as [|z xs IH]; intros Hnd i j x y n Hi Hj Hne Hx Hy; [done|]. cbn [flat_map] in Hnd.
  apply NoDup_app in Hnd as (_ & Hdis & Hnd).
  assert (forall k w, xs !! k = Some w -> n ∈ f w -> n ∈ flat_map f xs) as Hin.
  { intros k w Hk Hw. apply list_elem_of_In, in_flat_map. exists w. split; apply list_elem_of_In; [by eapply list_elem_of_lookup_2|done]. }
  destruct i as [|i], j as [|j]; cbn in Hi, Hj; simplify_eq; [by apply (Hdis n Hx); eauto|by apply (Hdis n Hy); eauto|].
  eapply (IH Hnd i j); eauto.
Qed.

(** A thread that has answered is in a finished stage. *)
Lemma answered total c a i r : inv total c a -> c.2 !! i = Some (Done r) ->
  exists st, ths a !! i = Some st /\ finished st = true /\ stage_prog st = Done r.
Proof.
  intros Hinv Hi. pose proof (inv_threads _ _ _ Hinv) as Ht. rewrite Ht, list_lookup_fmap in Hi.
  destruct (ths a !! i) as [st|] eqn:E; [|done]. injection Hi as Hi. exists st. split; [done|]. split; [|done].
  destruct (finished st) eqn:Hfin; [done|]. destruct (inv_stage _ _ _ _ _ Hinv E) as (Hok & Hids & Hn & Hlt).
  pose proof (stage_call _ _ _ _ (inv_rep _ _ _ Hinv) Hok Hids Hn Hlt Hfin) as Hcall.
  destruct (advance _ _ st) as [[R' ls'] st']. destruct Hcall as (? & ? & ? & ? & ? & Hp & _). congruence.
Qed.

(** A successful answer belongs to an instance in the registry. *)
Lemma answered_ok total c a i r : inv total c a -> c.2 !! i = Some (Done r) -> Ret_ (CreateRet r) = ERR_OK ->
  exists info, ths a !! i = Some (SCreated info) /\ instance r = RedisInstance_Conv info /\ live (reg a) !! Id info = Some info.
Proof.
  intros Hinv Hi Hr. destruct (answered _ _ _ _ _ Hinv Hi) as (st & E & Hfin & Hp).
  destruct (inv_stage _ _ _ _ _ Hinv E) as (Hok & _). destruct st as [| | | | |info|code]; try done; cbn in Hp, Hok; simplify_eq.
  exists info. by destruct Hok as (_ & ? & _).
Qed.

Lemma stage_no_crash total c a i st : inv total c a -> ths a !! i = Some st -> stage_prog st <> Crash.
Proof.
  intros Hinv E Hp. destruct (finished st) eqn:Hfin; [by destruct st|].
  destruct (inv_stage _ _ _ _ _ Hinv E) as (Hok & Hids & Hn & Hlt).
  pose proof (stage_call _ _ _ _ (inv_rep _ _ _ Hinv) Hok Hids Hn Hlt Hfin) as Hcall.
  destruct (advance _ _ st) as [[R' ls'] st']. destruct Hcall as (? & ? & ? & ? & ? & Hp' & _). congruence.
Qed.

Lemma turns_finish jobs R ls sched i st : ths (foldl astep (mkA R ls (job_stage <$> jobs)) sched) !! i = Some st ->
  (5 <= length (filter (eq i) sched))%nat -> finished st = true.
Proof.
  intros E Hcnt. assert (exists st0, (job_stage <$> jobs) !! i = Some st0) as [st0 E0].
  { apply lookup_lt_is_Some. apply lookup_lt_Some in E. rewrite astep_length in E. exact E. }
  destruct (run_rank sched i (mkA R ls (job_stage <$> jobs)) st0 E0) as (st' & E' & Hr). simplify_eq.
  apply stage_done. enough (rank st0 <= 5)%nat by lia. by destruct st0; cbn; lia.
Qed.

(** When all creations are finished, every instance is listed and no address
    is on its way. *)
Lemma finished_registry total c a : inv total c a -> (forall i st, ths a !! i = Some st -> finished st = true) ->
  represents (view c.1) (reg a) /\ addresses (reg a) ≡ₚ total.
Proof.
  intros [_ HR [H1 _ _ _ _ Hsub Hcov]] Hfin. assert (forall st, st ∈ ths a -> finished st = true) as Hall.
  { intros st [i E]%list_elem_of_lookup_1. eauto. }
  assert (listed a = live (reg a)) as Heq.
  { apply (anti_symm (⊆)); [done|]. apply map_subseteq_spec. intros id info Hl.
    destruct (Hcov _ _ Hl) as [?|[Hin%Hall _]]; done. }
  rewrite Heq in HR. split; [done|]. rewrite <- H1.
  enough (flat_map held (ths a) = []) as -> by by rewrite app_nil_r.
  clear -Hall. induction (ths a) as [|st sts IH]; [done|]. cbn [flat_map].
  rewrite IH by (intros st' ?; apply Hall; by apply elem_of_cons; right).
  specialize (Hall st ltac:(by apply elem_of_cons; left)). by destruct st.
Qed.

(** C23: creations served at the same time.  On a healthy connection, where
    every command reaches the server and is answered, and with no empty address
    registered, however the commands of any number of create requests are
    interleaved: no request crashes; a request
    that got five turns is answered; and once all are answered the database
    represents a registry with the same addresses, free and in use, as before,
    in which every successful answer is an instance, and no two successful
    answers have the same number. *)
Theorem concurrent_creations jobs sched s R :
  represents (view s) R -> 0 <= next R -> next R + zlen jobs < 2 ^ 63 -> Forall job_ok jobs -> [] ∉ addresses R ->
  let c := conc_run sched (s, (fun job => createInstance job.1 job.2) <$> jobs) in
  (forall i, c.2 !! i <> Some Crash) /\
  (forall i p, c.2 !! i = Some p -> (5 <= length (filter (eq i) sched))%nat -> exists r, p = Done r) /\
  ((forall i p, c.2 !! i = Some p -> exists r, p = Done r) ->
   exists R', represents (view c.1) R' /\ addresses R' ≡ₚ addresses R /\
     (forall i r, c.2 !! i = Some (Done r) -> Ret_ (CreateRet r) = ERR_OK ->
        exists info, live R' !! i_Id (instance r) = Some info /\ instance r = RedisInstance_Conv info) /\
     (forall i j r r', i <> j -> c.2 !! i = Some (Done r) -> c.2 !! j = Some (Done r') ->
        Ret_ (CreateRet r) = ERR_OK -> Ret_ (CreateRet r') = ERR_OK -> i_Id (instance r) <> i_Id (instance r'))).
Proof.
  intros HR Hn Hlt Hjobs Hne c. set (a0 := mkA R (live R) (job_stage <$> jobs)).
  pose proof (machine_run _ sched Hne _ _ (machine_init jobs s R HR Hn Hlt Hjobs)) as Hinv. fold a0 c in Hinv.
  set (a := foldl astep a0 sched) in *. pose proof (inv_threads _ _ _ Hinv) as Ht. split_and!.
  - intros i Hi. rewrite Ht, list_lookup_fmap in Hi. destruct (ths a !! i) as [st|] eqn:E; [|done]. injection Hi as Hi.
    by apply (stage_no_crash _ _ _ _ _ Hinv E).
  - intros i p Hi Hcnt. rewrite Ht, list_lookup_fmap in Hi. destruct (ths a !! i) as [st|] eqn:E; [|done]. injection Hi as <-.
    assert (finished st = true) as Hfin by (by eapply turns_finish).
    destruct st; try done; eexists; reflexivity.
  - intros Hall. assert (forall i st, ths a !! i = Some st -> finished st = true) as Hfin.
    { intros i st E. destruct (Hall i (stage_prog st)) as [r Hp]; [by rewrite Ht, list_lookup_fmap, E|].
      assert (c.2 !! i = Some (Done r)) as Hd by (by rewrite Ht, list_lookup_fmap, E, <- Hp).
      destruct (answered _ _ _ _ _ Hinv Hd) as (st' & E' & Hf & _). by simplify_eq. }
    exists (reg a). destruct (finished_registry _ _ _ Hinv Hfin) as [Hrep Haddr]. split_and!; [done|done| |].
    + intros i r Hi Hr. destruct (answered_ok _ _ _ _ _ Hinv Hi Hr) as (info & _ & -> & Hl). by exists info.
    + intros i j r r' Hij Hi Hj Hr Hr'. destruct (answered_ok _ _ _ _ _ Hinv Hi Hr) as (info & E & -> & _).
      destruct (answered_ok _ _ _ _ _ Hinv Hj Hr') as (info' & E' & -> & _). cbn. intros Eid.
      apply (flat_map_once number (ths a) (g_nodup _ _ _ _ (inv_good _ _ _ Hinv)) i j _ _ (Id info) E E' Hij); cbn.
      * by apply elem_of_cons; left.
      * rewrite Eid. by apply elem_of_cons; left.
Qed.
End Creations.

Lemma concurrent_creations_witness :
  let jobs := [(5, str "x"); (6, str "y"); (7, str "z")] in
  let sched := [0; 1; 2; 2; 1; 0; 0; 1; 2; 0; 1; 2; 0; 1; 2]%nat in
  let c := conc_run sched (two_free, (fun job => createInstance ex_AF ex_FR ex_uname job.1 job.2) <$> jobs) in
  (forall i, c.2 !! i <> Some Crash) /\
  (forall i p, c.2 !! i = Some p -> (5 <= length (filter (eq i) sched))%nat -> exists r, p = Done r) /\
  ((forall i p, c.2 !! i = Some p -> exists r, p = Done r) ->
   exists R', represents (F := unit) ex_AF ex_FR (view c.1) R' /\ addresses R' ≡ₚ addresses two_free_reg /\
     (forall i r, c.2 !! i = Some (Done r) -> Ret_ (CreateRet r) = ERR_OK ->
        exists info, live R' !! i_Id (instance r) = Some info /\ instance r = RedisInstance_Conv info) /\
     (forall i j r r', i <> j -> c.2 !! i = Some (Done r) -> c.2 !! j = Some (Done r') ->
        Ret_ (CreateRet r) = ERR_OK -> Ret_ (CreateRet r') = ERR_OK -> i_Id (instance r) <> i_Id (instance r'))).
Proof.
  intros jobs sched. apply (concurrent_creations ex_AF ex_FR ex_uname jobs sched two_free two_free_reg).
  - exact two_free_represents.
  - cbn. lia.
  - vm_compute. reflexivity.
  - repeat constructor; cbn; lia.
  - unfold addresses. cbn. rewrite map_to_list_empty. refine (bool_decide_unpack _ _). vm_compute. exact I.
Defined.

(** ** Where addresses are lost or doubled *)

#[local] Abbreviation Router := (Router_Init tt ex_PF ex_AF ex_FR reverse ex_uname ex_uid ex_cli).

(** One free address, and the database after its instance is created. *)
Definition one_free : keyspace := {[Key_RedisPools := KList [str "10.0.0.1:80"]]}.
Definition one_used : keyspace :=
  match run_prog [] (Router (POST_createinstance 5 (str "x") 1)) one_free with Ret (s, _) => s | Panic => ∅ end.

(** The free addresses, and the answer. *)
Definition outcome (r : go (keyspace * http_response)) : option (list (list Z)) * option http_response :=
  match r with Ret (k, x) => (list_at k Key_RedisPools, Some x) | Panic => (None, None) end.

(** What a failed call does to the addresses.  A creation whose INCR is
    refused has taken the address from the list and does not put it back; no
    instance has it.  A deletion whose LPUSH is carried out but whose reply is
    lost answers with an error and keeps the instance, and the client's second
    attempt puts the address into the list again: two instances can get it.
    Two deletions of one instance at the same time put it there twice without
    any failure, and both report success. *)
Theorem address_accidents :
  outcome (run_prog [Delivered; Delivered; Refused] (Router (POST_createinstance 5 (str "x") 1)) one_free) =
    (Some [], Some (CreateResponse (create_failed ERR_DB))) /\
  (exists k, run_prog [Delivered; Delivered; Delivered; Lost] (Router (DELETE_delinstance (str "1") 1)) one_used =
      Ret (k, ErrResponse (GetErrInfo ERR_DB)) /\
    outcome (run_prog [] (Router (DELETE_delinstance (str "1") 1)) k) =
      (Some [str "10.0.0.1:80"; str "10.0.0.1:80"], Some (ErrResponse (mkErrInfo 0 [])))) /\
  (let c := conc_run [0; 1; 0; 1; 0; 1; 0; 1; 0; 1]%nat
      (one_used, [Router (DELETE_delinstance (str "1") 1); Router (DELETE_delinstance (str "1") 1)]) in
   c.2 = [Done (ErrResponse (mkErrInfo 0 [])); Done (ErrResponse (mkErrInfo 0 []))] /\
   list_at c.1 Key_RedisPools = Some [str "10.0.0.1:80"; str "10.0.0.1:80"]).
Proof.
  split; [vm_compute; reflexivity|]. split.
  - eexists. split; [vm_compute; reflexivity|]. vm_compute. reflexivity.
  - vm_compute. done.
Qed.
