(* ===== verification/Service.v ===== *)
(** * lib/service/service.go: the life of a process

    [Main] creates the pid file, starts the goroutine that handles signals,
    initialises the service and loops until a signal asks it to stop; a
    deferred function finalises, recovers from a panic and removes the pid
    file.  The service's methods and the outcome of the pid file are
    parameters; the signals handled before each check of [isTerminate] are
    given as a list, so a run that outlives the list has no result yet.  What
    happens is recorded as events, in order. *)

From S2P Require Import Prelude.

Inductive signal : Type := SIGHUP | SIGPIPE | SIGINT | SIGQUIT | SIGABRT | SIGTERM.

Inductive event : Type := EPidCreate | EInit | ELoop | EReload | EFinal | EPidClear | EFlush.
#[export] Instance event_eq_dec : EqDecision event.
Proof. solve_decision. Defined.

(** The interface [IService]; [MainLoop] is given the number of the round. *)
Record IService := mkService {
  Init : go bool;
  MainLoop : nat -> go unit;
  Final : go bool;
}.

(** The goroutine: the flag [terminate] after some signals, and the reloads. *)
Definition handle (terminate : bool) (sig : signal) : bool * list event :=
  match sig with
  | SIGHUP => (terminate, [EReload])
  | SIGPIPE => (terminate, [])
  | _ => (true, [])
  end.

Fixpoint handle_all (terminate : bool) (sigs : list signal) : bool * list event :=
  match sigs with
  | [] => (terminate, [])
  | sig :: sigs =>
      let '(t, e) := handle terminate sig in let '(t, es) := handle_all t sigs in (t, e ++ es)
  end.

(** [for !this.isTerminate() { this.Derived.MainLoop() }] *)
Fixpoint main_loop (d : IService) (terminate : bool) (round : nat) (arrivals : list (list signal))
    : option (go bool * list event) :=
  match arrivals with
  | [] => None
  | sigs :: arrivals =>
      let '(t, es) := handle_all terminate sigs in
      if t then Some (Ret true, es)
      else
        match MainLoop d round with
        | Panic => Some (Panic, es ++ [ELoop])
        | Ret _ =>
            match main_loop d t (S round) arrivals with
            | None => None
            | Some (r, es') => Some (r, es ++ ELoop :: es')
            end
        end
  end.

(** The body of [Main] up to its return or panic; the result tells whether
    there is a pid file to remove. *)
Definition main_body (pidfilepath pid_ok : bool) (derived : option IService) (arrivals : list (list signal))
    : option (go bool * list event * bool) :=
  if pidfilepath && negb pid_ok then Some (Ret false, [EPidCreate], false)
  else
    let pid := if pidfilepath then [EPidCreate] else [] in
    match derived with
    | None => Some (Ret false, pid, pidfilepath)
    | Some d =>
        match Init d with
        | Panic => Some (Panic, pid ++ [EInit], pidfilepath)
        | Ret false => Some (Ret false, pid ++ [EInit], pidfilepath)
        | Ret true =>
            match main_loop d false 0 arrivals with
            | None => None
            | Some (r, es) => Some (r, pid ++ EInit :: es, pidfilepath)
            end
        end
    end.

(** The deferred function comes first to [Derived.Final]: on a nil interface,
    or when [Final] panics, nothing after it is done and the panic goes on. *)
Definition Main (pidfilepath pid_ok : bool) (derived : option IService) (arrivals : list (list signal))
    : option (go bool * list event) :=
  match main_body pidfilepath pid_ok derived arrivals with
  | None => None
  | Some (r, es, pid) =>
      match derived with
      | None => Some (Panic, es)
      | Some d =>
          match Final d with
          | Panic => Some (Panic, es ++ [EFinal])
          | Ret _ =>
              Some (match r with Ret b => Ret b | Panic => Ret false end,
                    es ++ EFinal :: (if pid then [EPidClear] else []) ++ [EFlush])
          end
      end
  end.

(** ** Properties *)

Definition stops (sigs : list signal) : bool := existsb (fun s => match s with SIGHUP | SIGPIPE => false | _ => true end) sigs.

Lemma handle_all_stops t sigs : (handle_all t sigs).1 = t || stops sigs.
Proof.
  revert t. induction sigs as [|s sigs IH]; intros t; [by rewrite orb_false_r|]. cbn [handle_all].
  destruct (handle t s) as [t' e] eqn:E. specialize (IH t'). destruct (handle_all t' sigs) as [t2 es]. cbn in *. rewrite IH.
  destruct s; cbn in E; simplify_eq; cbn; by rewrite ?orb_true_r.
Qed.

Lemma handle_all_events t sigs e : e ∈ (handle_all t sigs).2 -> e = EReload.
Proof.
  revert t. induction sigs as [|s sigs IH]; intros t; cbn [handle_all]; [by intros ?%elem_of_nil|].
  destruct (handle t s) as [t' e'] eqn:E. specialize (IH t'). destruct (handle_all t' sigs) as [t2 es]. cbn in *.
  intros [Hin|Hin]%elem_of_app; [|auto]. destruct s; cbn in E; simplify_eq; try by apply elem_of_nil in Hin.
  by apply list_elem_of_singleton in Hin.
Qed.

(** The loop has no other events than rounds and reloads. *)
Lemma main_loop_events d arrivals : forall t round r es, main_loop d t round arrivals = Some (r, es) ->
  Forall (fun e => e = ELoop \/ e = EReload) es.
Proof.
  induction arrivals as [|sigs arrivals IH]; intros t round r es; [done|]. cbn [main_loop].
  pose proof (handle_all_events t sigs) as He. destruct (handle_all t sigs) as [t' es0]. cbn in He.
  assert (Forall (fun e => e = ELoop \/ e = EReload) es0) as H0 by (apply Forall_forall; auto).
  destruct t'; [by intros [= <- <-]|]. destruct (MainLoop d round); [|intros [= <- <-]; apply Forall_app; auto].
  destruct (main_loop d false (S round) arrivals) as [[r' es']|] eqn:E; [|done]. intros [= <- <-].
  apply Forall_app. split; [done|]. constructor; [by left|eauto].
Qed.

(** Without panics the loop ends, with success, at the first signal that
    stops it, and not before. *)
Lemma main_loop_ends d : (forall n, MainLoop d n = Ret tt) -> forall arrivals round,
  match main_loop d false round arrivals with
  | Some (r, es) => r = Ret true /\ exists pre sigs post, arrivals = pre ++ sigs :: post /\ Forall (fun s => stops s = false) pre /\
      stops sigs = true /\ length (filter (eq ELoop) es) = length pre
  | None => Forall (fun s => stops s = false) arrivals
  end.
Proof.
  intros Hm. induction arrivals as [|sigs arrivals IH]; intros round; [constructor|]. cbn [main_loop].
  pose proof (handle_all_stops false sigs) as Hs. pose proof (handle_all_events false sigs) as He.
  destruct (handle_all false sigs) as [t es0]. cbn in Hs, He. subst t.
  assert (filter (eq ELoop) es0 = []) as Hno.
  { clear -He. induction es0 as [|e es0 IH]; [done|]. rewrite filter_cons_False.
    - apply IH. intros e' H. apply He. by apply elem_of_cons; right.
    - rewrite (He e) by (by apply elem_of_cons; left). done. }
  destruct (stops sigs) eqn:Es.
  - split; [done|]. exists [], sigs, arrivals. by rewrite Hno.
  - rewrite Hm. specialize (IH (S round)). destruct (main_loop d false (S round) arrivals) as [[r es]|]; [|by constructor].
    destruct IH as (-> & pre & s & post & -> & Hpre & Hst & Hlen). split; [done|]. exists (sigs :: pre), s, post.
    split_and!; [done|by constructor|done|]. rewrite filter_app, Hno, filter_cons_True by done. cbn. by rewrite Hlen.
Qed.

Lemma main_loop_signal d arrivals : forall round es, main_loop d false round arrivals = Some (Ret true, es) ->
  exists sigs, sigs ∈ arrivals /\ stops sigs = true.
Proof.
  induction arrivals as [|sigs arrivals IH]; intros round es; [done|]. cbn [main_loop].
  pose proof (handle_all_stops false sigs) as Hs. destruct (handle_all false sigs) as [t es0]. cbn in Hs. subst t.
  destruct (stops sigs) eqn:Es; [intros _; exists sigs; split; [by apply elem_of_cons; left|done]|].
  destruct (MainLoop d round); [|done]. destruct (main_loop d false (S round) arrivals) as [[r es']|] eqn:E; [|done].
  intros [= -> <-]. destruct (IH _ _ E) as (s & Hin & Hst). exists s. split; [by apply elem_of_cons; right|done].
Qed.

(** The life of a service.  With a service whose [Final] does not panic,
    every run of [Main] that ends returns, whatever fails or panics before;
    [Final] is the last thing asked of the service and happens once; then the
    pid file is removed, if one was created, and the log is flushed.  [Main]
    returns true only when the service was initialised and a signal stopped
    it. *)
Theorem service_lifecycle (path ok : bool) (d : IService) (arrivals : list (list signal)) (fin : bool) r es :
  Final d = Ret fin -> Main path ok (Some d) arrivals = Some (r, es) ->
  exists b before,
    r = Ret b /\ es = before ++ EFinal :: (if path && ok then [EPidClear] else []) ++ [EFlush] /\
    Forall (fun e => e = EPidCreate \/ e = EInit \/ e = ELoop \/ e = EReload) before /\
    (path && negb ok = true -> b = false /\ before = [EPidCreate]) /\
    (b = true -> Init d = Ret true /\ EInit ∈ before /\ exists sigs, sigs ∈ arrivals /\ stops sigs = true).
Proof.
  intros Hfin. unfold Main, main_body. rewrite Hfin.
  destruct (path && negb ok) eqn:Ep.
  { intros [= <- <-]. exists false, [EPidCreate]. apply andb_prop in Ep as [-> ->%negb_true_iff]. cbn.
    split_and!; try done. constructor; [by left|done]. }
  assert (path && ok = path) as Hpid by (by destruct path, ok).
  rewrite Hpid. set (pid := if path then [EPidCreate] else []).
  assert (Forall (fun e => e = EPidCreate \/ e = EInit \/ e = ELoop \/ e = EReload) pid) as Hp.
  { unfold pid. destruct path; [|done]. constructor; [by left|done]. }
  destruct (Init d) as [[|]|] eqn:Ei.
  - destruct (main_loop d false 0 arrivals) as [[r' es']|] eqn:El; [|done]. intros [= <- <-].
    exists (match r' with Ret b => b | Panic => false end), (pid ++ EInit :: es').
    assert (Forall (fun e => e = EPidCreate \/ e = EInit \/ e = ELoop \/ e = EReload) (pid ++ EInit :: es')) as Hall.
    { apply Forall_app. split; [done|]. constructor; [by right; left|]. apply main_loop_events in El.
      eapply Forall_impl; [exact El|]. cbn. tauto. }
    split_and!; [by destruct r'|done|done|done|]. intros Hb. split; [done|]. split; [by apply elem_of_app; right; apply elem_of_cons; left|].
    destruct r' as [[|]|]; [|done..]. by eapply main_loop_signal.
  - intros [= <- <-]. exists false, (pid ++ [EInit]). split_and!; try done. apply Forall_app. split; [done|].
    constructor; [by right; left|done].
  - intros [= <- <-]. exists false, (pid ++ [EInit]). split_and!; try done. apply Forall_app. split; [done|].
    constructor; [by right; left|done].
Qed.

(** A service that counts to nothing, stopped by SIGTERM after a reload. *)
Definition quiet : IService := mkService (Ret true) (fun _ => Ret tt) (Ret true).

Lemma service_lifecycle_witness :
  exists b before,
    Ret true = Ret b /\
    [EPidCreate; EInit; EReload; ELoop; ELoop; EFinal; EPidClear; EFlush] =
      before ++ EFinal :: (if true && true then [EPidClear] else []) ++ [EFlush] /\
    Forall (fun e => e = EPidCreate \/ e = EInit \/ e = ELoop \/ e = EReload) before /\
    (true && negb true = true -> b = false /\ before = [EPidCreate]) /\
    (b = true -> Init quiet = Ret true /\ EInit ∈ before /\
      exists sigs, sigs ∈ [[SIGHUP]; [SIGPIPE]; [SIGTERM]] /\ stops sigs = true).
Proof. apply (service_lifecycle true true quiet [[SIGHUP]; [SIGPIPE]; [SIGTERM]] true); reflexivity. Defined.

(** Without [Derived] the check in the body does not help: the deferred
    function calls the nil interface, and a pid file stays behind. *)
Example nil_service path arrivals :
  Main path true None arrivals = Some (Panic, if path then [EPidCreate] else []).
Proof. by destruct path. Qed.
