(* ===== verification/Logfile.v ===== *)
(** * glog/glog_file.go and rotateFile of glog/glog.go: the files of the log

    The names of log files, the directories they are created in, the header
    each one starts with, and the settings of [SetLogFile] and [SetLogLevel].
    Files are kept by directory and name: [filepath.Join] is a pair, so that
    two spellings of one directory count as two.  What the file system allows
    at each call is an argument; a [Write] of an [os.File] accepts everything
    or fails after a prefix. *)

From S2P Require Import Prelude Gostrings Resp Strconv.

(** ** Severities *)

Definition infoLog : Z := 0.
Definition warningLog : Z := 1.
Definition errorLog : Z := 2.
Definition fatalLog : Z := 3.
Definition debugLog : Z := 4.
Definition numSeverity : Z := 5.
Definition severityChar : list Z := str "IWEFD".
Definition severityName : list (list Z) := [str "INFO"; str "WARNING"; str "ERROR"; str "FATAL"; str "DEBUG"].

(** ** Time and formatting *)

Record time := mkTime {
  Year : Z; Month : Z; Day : Z; Hour : Z; Minute : Z; Second : Z; Nanosecond : Z; YearDay : Z
}.

(** [%0wd] of package fmt *)
Definition pad0 (w : nat) (n : Z) : list Z :=
  let ds := dec (Z.abs n) in
  if n <? 0 then 45 :: replicate (w - 1 - length ds) 48 ++ ds else replicate (w - length ds) 48 ++ ds.

(** ** Settings of the package and of the machine *)

Record globals := mkGlobals {
  logDirs : list (list Z);
  onceLogDirs : bool;  (** whether [onceLogDirs.Do] has run *)
  logDir : list Z;
  program : list Z;
  pid : Z;
  host : list Z;
  userName : list Z;
  VERSION : list Z;
  DATE : list Z;
  glogLevel : Z
}.

Record machine := mkMachine {
  TempDir : list Z;
  Compiler : list Z; Version : list Z; GOOS : list Z; GOARCH : list Z
}.

Definition createLogDirs (o : machine) (g : globals) : globals :=
  let dirs := if bool_decide (logDir g = []) then logDirs g else logDirs g ++ [logDir g] in
  {| logDirs := dirs ++ [TempDir o]; onceLogDirs := onceLogDirs g; logDir := logDir g; program := program g;
     pid := pid g; host := host g; userName := userName g; VERSION := VERSION g; DATE := DATE g;
     glogLevel := glogLevel g |}.

(** [onceLogDirs.Do(createLogDirs)] *)
Definition once_dirs (o : machine) (g : globals) : globals :=
  if onceLogDirs g then g
  else
    let g := createLogDirs o g in
    {| logDirs := logDirs g; onceLogDirs := true; logDir := logDir g; program := program g;
       pid := pid g; host := host g; userName := userName g; VERSION := VERSION g; DATE := DATE g;
       glogLevel := glogLevel g |}.

Fixpoint shortHostname (hostname : list Z) : list Z :=
  match hostname with
  | [] => []
  | b :: rest => if b =? 46 then [] else b :: shortHostname rest
  end.

(** The package's [init]: the answers of [os.Hostname] and [user.Current]. *)
Definition init_globals (g : globals) (h : option (list Z)) (current : option (list Z)) : globals :=
  {| logDirs := logDirs g; onceLogDirs := onceLogDirs g; logDir := logDir g; program := program g; pid := pid g;
     host := match h with Some h => shortHostname h | None => host g end;
     userName := (fun b => if b =? 92 then 95 else b) <$> default (userName g) current;
     VERSION := VERSION g; DATE := DATE g; glogLevel := glogLevel g |}.

Definition logName (g : globals) (tag : list Z) (t : time) : list Z * list Z :=
  (program g ++ [46] ++ tag ++ [46] ++ pad0 4 (Year t) ++ pad0 2 (Month t) ++ pad0 2 (Day t) ++ [45]
     ++ pad0 2 (Hour t) ++ pad0 2 (Minute t) ++ pad0 2 (Second t) ++ [46] ++ itoa (pid g),
   program g ++ [46] ++ tag).

Definition SetLogFile (g : globals) (logfile : list Z) : go globals :=
  if bool_decide (logfile = []) then Ret g
  else
    let i := LastIndex logfile 47 in
    if i =? -1 then
      Ret {| logDirs := logDirs g; onceLogDirs := onceLogDirs g; logDir := str "./"; program := program g;
             pid := pid g; host := host g; userName := userName g; VERSION := VERSION g; DATE := DATE g;
             glogLevel := glogLevel g |}
    else
      let! dir := slice logfile 0 (i + 1) in
      let! base := slice logfile (i + 1) (zlen logfile) in
      Ret {| logDirs := logDirs g; onceLogDirs := onceLogDirs g; logDir := dir; program := base;
             pid := pid g; host := host g; userName := userName g; VERSION := VERSION g; DATE := DATE g;
             glogLevel := glogLevel g |}.

Definition SetLogLevel (g : globals) (logLevel : list Z) : globals * option num_err :=
  match ParseInt logLevel 0 with
  | (_, Some err) => (g, Some err)
  | (level, None) =>
      ({| logDirs := logDirs g; onceLogDirs := onceLogDirs g; logDir := logDir g; program := program g;
          pid := pid g; host := host g; userName := userName g; VERSION := VERSION g; DATE := DATE g;
          glogLevel := i32 level |}, None)
  end.

(** ** The file system *)

Definition fname : Type := list Z * list Z.

Record fsys := mkFsys { data : gmap fname (list Z); links : gmap fname (list Z) }.

(** What one [Write] does: it takes all bytes, or some of them and fails. *)
Inductive writing : Type := WFull | WShort (n : nat).

(** What the file system allows during one call of [rotateFile]. *)
Record disk := mkDisk {
  can_create : fname -> bool;
  can_remove : fname -> bool;
  can_link : fname -> bool;
  header_write : writing
}.

Definition File_Write (fs : fsys) (f : option fname) (p : list Z) (w : writing) : fsys * Z * bool :=
  match f with
  | None => (fs, 0, true)
  | Some f =>
      let old := default [] (data fs !! f) in
      match w with
      | WFull => ({| data := <[f := old ++ p]> (data fs); links := links fs |}, zlen p, false)
      | WShort n => ({| data := <[f := old ++ take n p]> (data fs); links := links fs |}, zlen (take n p), true)
      end
  end.

Inductive log_err : Type := ErrNoLogDirs | ErrCannotCreate | ErrWrite.

(** [os.Remove(symlink)] and [os.Symlink(name, symlink)], whose errors are ignored. *)
Definition relink (link : fname) (name : list Z) (d : disk) (ls : gmap fname (list Z)) : gmap fname (list Z) :=
  let ls := if can_remove d link then delete link ls else ls in
  if can_link d link && bool_decide (ls !! link = None) then <[link := name]> ls else ls.

(** The loop over the directories: [os.Create] empties a file of that name. *)
Fixpoint create_in (dirs : list (list Z)) (name link : list Z) (d : disk) (fs : fsys) : option fname * fsys :=
  match dirs with
  | [] => (None, fs)
  | dir :: dirs =>
      if can_create d (dir, name) then
        (Some (dir, name),
         {| data := <[(dir, name) := []]> (data fs);
            links := relink (dir, link) name d (links fs) |})
      else create_in dirs name link d fs
  end.

Definition create (o : machine) (g : globals) (tag : list Z) (t : time) (d : disk) (fs : fsys)
    : globals * fsys * (fname + log_err) :=
  let g := once_dirs o g in
  match logDirs g with
  | [] => (g, fs, inr ErrNoLogDirs)
  | dirs =>
      let '(name, link) := logName g tag t in
      match create_in dirs name link d fs with
      | (Some f, fs) => (g, fs, inl f)
      | (None, fs) => (g, fs, inr ErrCannotCreate)
      end
  end.

(** ** Rotation *)

(** The fields of [syncBuffer] guarded by [filemu]. *)
Record logfile := mkLogfile { file : option fname; nbytes : Z; yearday : Z }.

Definition file_header (o : machine) (g : globals) (now : time) : list Z :=
  str "Log file created at: " ++ pad0 4 (Year now) ++ [47] ++ pad0 2 (Month now) ++ [47] ++ pad0 2 (Day now)
    ++ [32] ++ pad0 2 (Hour now) ++ [58] ++ pad0 2 (Minute now) ++ [58] ++ pad0 2 (Second now) ++ [10]
  ++ str "Running on machine: " ++ host g ++ [44] ++ userName g ++ [10]
  ++ str "Build info: " ++ DATE g ++ [44] ++ VERSION g ++ [10]
  ++ str "Binary: Built with " ++ Compiler o ++ [32] ++ Version o ++ str " for " ++ GOOS o ++ [47] ++ GOARCH o ++ [10]
  ++ str "Log line format: [IWEF]mmdd hh:mm:ss.uuuuuu threadid file:line] msg" ++ [10].

Definition rotateFile (o : machine) (g : globals) (sev : Z) (fs : fsys) (now : time) (d : disk)
    : go (globals * fsys * logfile * option log_err) :=
  let! tag := zget severityName sev in
  match create o g tag now d fs with
  | (g, fs, inr err) => Ret (g, fs, {| file := None; nbytes := 0; yearday := YearDay now |}, Some err)
  | (g, fs, inl f) =>
      match File_Write fs (Some f) (file_header o g now) (header_write d) with
      | (fs, n, err) =>
          Ret (g, fs, {| file := Some f; nbytes := u64 n; yearday := YearDay now |},
               if err : bool then Some ErrWrite else None)
      end
  end.

(** ** Facts the components share *)

Lemma create_in_spec dirs name link d fs f fs' : create_in dirs name link d fs = (Some f, fs') ->
  f.2 = name /\ f.1 ∈ dirs /\ data fs' = <[f := []]> (data fs).
Proof.
  induction dirs as [|dir dirs IH]; cbn; [done|]. case_match; intros Hc; simplify_eq/=; [set_solver|].
  destruct (IH Hc) as (? & ? & ?). set_solver.
Qed.

Definition valid_time (t : time) : Prop :=
  0 <= Year t <= 9999 /\ 1 <= Month t <= 12 /\ 1 <= Day t <= 31 /\ 0 <= Hour t <= 23 /\ 0 <= Minute t <= 59 /\
  0 <= Second t <= 59 /\ 0 <= Nanosecond t < 10 ^ 9.

Lemma pad0_length k n : 0 <= n < 10 ^ Z.of_nat (S k) -> length (pad0 (S k) n) = S k.
Proof.
  intros Hn. unfold pad0. rewrite (proj2 (Z.ltb_ge _ _)), Z.abs_eq by lia.
  rewrite length_app, length_replicate. pose proof (dec_length k n Hn). lia.
Qed.

(** The size of a file's header does not depend on the time. *)
Definition header_size (o : machine) (g : globals) : Z :=
  zlen (file_header o g {| Year := 0; Month := 0; Day := 0; Hour := 0; Minute := 0; Second := 0; Nanosecond := 0; YearDay := 0 |}).

Lemma zlen_pad0 k n : 0 <= n < 10 ^ Z.of_nat (S k) -> zlen (pad0 (S k) n) = Z.of_nat (S k).
Proof. intros Hn. unfold zlen. by rewrite pad0_length. Qed.

Lemma file_header_size o g now : valid_time now -> zlen (file_header o g now) = header_size o g.
Proof.
  intros (? & ? & ? & ? & ? & ? & _). unfold header_size, file_header. cbn [Year Month Day Hour Minute Second].
  rewrite !zlen_app. rewrite !(zlen_pad0 1), !(zlen_pad0 3) by lia. lia.
Qed.

(** A rotation never panics; when it succeeds there is a new current file with
    its header. *)
Lemma rotateFile_spec o g sev fs now d : onceLogDirs g = true -> 0 <= sev < numSeverity ->
  exists fs' lf' err, rotateFile o g sev fs now d = Ret (g, fs', lf', err) /\ yearday lf' = YearDay now /\
    (err = None -> exists f, file lf' = Some f /\ data fs' = <[f := file_header o g now]> (data fs) /\
       nbytes lf' = u64 (zlen (file_header o g now)) /\
       exists tag, severityName !! Z.to_nat sev = Some tag /\ f.2 = (logName g tag now).1).
Proof.
  intros Ho Hs. unfold rotateFile. destruct (lookup_lt_is_Some_2 severityName (Z.to_nat sev)) as [tag Htag].
  { unfold numSeverity in Hs. cbn. lia. }
  rewrite (zget_ok _ _ tag) by (done || lia). cbn [go_bind]. unfold create, once_dirs. rewrite Ho.
  destruct (logDirs g) as [|dir dirs] eqn:Hd; [by do 3 eexists|].
  destruct (logName g tag now) as [name link] eqn:Hn. destruct (create_in _ _ _ _ _) as [[f|] fs1] eqn:Hc; [|by do 3 eexists].
  apply create_in_spec in Hc as (Hf & _ & Hdata). unfold File_Write. rewrite Hdata, lookup_insert_eq. cbn [default app].
  destruct (header_write d); do 3 eexists; (split; [done|]); split; try done. intros _. exists f. cbn [file data nbytes].
  split_and!; [done|by rewrite insert_insert_eq|done|]. exists tag. by rewrite Hn.
Qed.

Lemma once_dirs_done o g : onceLogDirs (once_dirs o g) = true.
Proof. unfold once_dirs. by destruct (onceLogDirs g) eqn:E. Qed.

Lemma once_dirs_idem o g : once_dirs o (once_dirs o g) = once_dirs o g.
Proof. unfold once_dirs at 1. by rewrite once_dirs_done. Qed.

Lemma rotateFile_once o g sev fs now d : rotateFile o (once_dirs o g) sev fs now d = rotateFile o g sev fs now d.
Proof. unfold rotateFile, create. by rewrite once_dirs_idem. Qed.

(** A disk on which everything works. *)
Definition good_disk (d : disk) : Prop := (forall f, can_create d f = true) /\ header_write d = WFull.

Lemma rotateFile_good o g sev fs now d : onceLogDirs g = true -> logDirs g <> [] -> 0 <= sev < numSeverity -> good_disk d ->
  exists fs' lf' f x, rotateFile o g sev fs now d = Ret (g, fs', lf', None) /\ file lf' = Some f /\ data fs' !! f = Some x.
Proof.
  intros Ho Hd Hs [Hc Hw]. unfold rotateFile. destruct (lookup_lt_is_Some_2 severityName (Z.to_nat sev)) as [tag Htag].
  { unfold numSeverity in Hs. cbn. lia. }
  rewrite (zget_ok _ _ tag) by (done || lia). cbn [go_bind]. unfold create, once_dirs. rewrite Ho.
  destruct (logDirs g) as [|dir dirs]; [done|]. destruct (logName g tag now) as [name link]. cbn. rewrite Hc. cbn.
  rewrite Hw. do 4 eexists. split; [done|]. split; [done|]. cbn. by rewrite lookup_insert_eq.
Qed.

Lemma dec_value_pad k ds : dec_value (replicate k 48 ++ ds) = dec_value ds.
Proof. unfold dec_value. rewrite fold_left_app. f_equal. induction k as [|k IH]; cbn; done. Qed.

Lemma dec_value_pad0 k n : 0 <= n -> dec_value (pad0 k n) = n.
Proof.
  intros Hn. unfold pad0. rewrite (proj2 (Z.ltb_ge _ _)), Z.abs_eq by lia. rewrite dec_value_pad. apply dec_spec, Hn.
Qed.

Lemma pad0_app_inj k a b x y : 0 <= a < 10 ^ Z.of_nat (S k) -> 0 <= b < 10 ^ Z.of_nat (S k) ->
  pad0 (S k) a ++ x = pad0 (S k) b ++ y -> a = b /\ x = y.
Proof.
  intros Ha Hb E. apply app_inj_1 in E as [E ->]; [|by rewrite !pad0_length]. split; [|done].
  rewrite <- (dec_value_pad0 (S k) a), <- (dec_value_pad0 (S k) b) by lia. by rewrite E.
Qed.

(** Files created at different seconds have different names. *)
Lemma logName_second g tag t t' : valid_time t -> valid_time t' -> (logName g tag t).1 = (logName g tag t').1 ->
  Year t = Year t' /\ Month t = Month t' /\ Day t = Day t' /\ Hour t = Hour t' /\ Minute t = Minute t' /\ Second t = Second t'.
Proof.
  intros (? & ? & ? & ? & ? & ? & _) (? & ? & ? & ? & ? & ? & _). unfold logName. cbn [fst]. intros E.
  apply app_inv_head in E. cbn [app] in E. injection E as E. apply app_inv_head in E. injection E as E.
  apply (pad0_app_inj 3) in E as [-> E]; [|lia..]. apply (pad0_app_inj 1) in E as [-> E]; [|lia..].
  apply (pad0_app_inj 1) in E as [-> E]; [|lia..]. injection E as E. apply (pad0_app_inj 1) in E as [-> E]; [|lia..].
  apply (pad0_app_inj 1) in E as [-> E]; [|lia..]. apply (pad0_app_inj 1) in E as [-> E]; [|lia..]. done.
Qed.

(** [SetLogFile] takes directory and name from a path; of a bare name it keeps
    nothing. *)
Lemma SetLogFile_path g dir base : 47 ∉ base -> exists g', SetLogFile g (dir ++ 47 :: base) = Ret g' /\
  logDir g' = dir ++ [47] /\ program g' = base /\ logDirs g' = logDirs g.
Proof.
  intros Hb. unfold SetLogFile. rewrite bool_decide_false by (by destruct dir). rewrite LastIndex_at by done.
  rewrite (proj2 (Z.eqb_neq _ _)) by (pose proof (zlen_nonneg dir); lia).
  pose proof (slice_app [] (dir ++ [47]) base) as H1. pose proof (slice_app (dir ++ [47]) base []) as H2.
  rewrite app_nil_r in H2. cbn [app] in H1. rewrite zlen_nil, Z.add_0_l in H1. rewrite <- app_assoc in H1, H2. cbn [app] in H1, H2.
  rewrite zlen_app in H1. change (zlen [47]) with 1 in H1. rewrite H1. cbn [go_bind].
  replace (zlen (dir ++ 47 :: base)) with (zlen (dir ++ [47]) + zlen base) by (rewrite !zlen_app, !zlen_cons, zlen_nil; lia).
  replace (zlen dir + 1) with (zlen (dir ++ [47])) by (rewrite zlen_app; done). rewrite H2. cbn [go_bind]. by eexists.
Qed.

Example SetLogFile_bare g : SetLogFile g (str "web.log") =
  Ret {| logDirs := logDirs g; onceLogDirs := onceLogDirs g; logDir := str "./"; program := program g; pid := pid g; host := host g;
         userName := userName g; VERSION := VERSION g; DATE := DATE g; glogLevel := glogLevel g |}.
Proof. reflexivity. Qed.
