(* ===== verification/Logblock.v ===== *)
(** * glog/glog.go: the blocks of a log file's buffer

    A [syncBuffer] collects lines in blocks of one megabyte.  Blocks are linked
    by [next]: the full ones wait in [usedblock], the empty ones in
    [freeblock], and lines are copied to [curblock].  Here are the store of
    blocks, [Write], [changeblock] and the two critical sections of [Flush]
    that [mu] guards, with the invariant that the lists are disjoint and
    acyclic and what each operation does to the lines they hold.  A block's
    array is a function on indices. *)

From S2P Require Import Prelude.

Definition bufferSize : Z := 1024 * 1024.
Definition MsgLineSize : Z := 64 * 1024.
Definition maxFreeBlockSize : Z := 16.

Record blockbuf := mkBlock { next : option nat; b : Z -> Z; pos : Z }.

Definition new_block : blockbuf := {| next := None; b := fun _ => 0; pos := 0 |}.

(** The fields of [syncBuffer] guarded by [mu], with the store of blocks and
    the number of blocks allocated so far. *)
Record blocks := mkBlocks {
  store : gmap nat blockbuf;
  alloc : nat;
  curblock : nat;
  freeblock : option nat;
  usedblock : option nat;
  freeblockNum : Z
}.

(** [&syncBuffer{..., curblock: new(blockbuf)}] *)
Definition new_blocks : blocks :=
  {| store := {[ 0%nat := new_block ]}; alloc := 1; curblock := 0; freeblock := None; usedblock := None; freeblockNum := 0 |}.

Definition deref (h : gmap nat blockbuf) (p : nat) : go blockbuf :=
  match h !! p with Some blk => Ret blk | None => Panic end.

Definition set_next (blk : blockbuf) (n : option nat) : blockbuf := {| next := n; b := b blk; pos := pos blk |}.

(** [for p.next != nil { p = p.next }] *)
Fixpoint last_block (fuel : nat) (h : gmap nat blockbuf) (p : nat) : go nat :=
  let! blk := deref h p in
  match next blk, fuel with
  | None, _ => Ret p
  | Some q, S fuel => last_block fuel h q
  | Some _, O => Panic
  end.

(** [p := first; for p.next != nil { p = p.next }; p.next = q] *)
Definition append_block (h : gmap nat blockbuf) (fuel : nat) (first : nat) (q : option nat) : go (gmap nat blockbuf) :=
  let! p := last_block fuel h first in
  let! blk := deref h p in
  Ret (<[p := set_next blk q]> h).

Definition changeblock (sb : blocks) : go blocks :=
  let! hu :=
    match usedblock sb with
    | None => Ret (store sb, Some (curblock sb))
    | Some u => let! h := append_block (store sb) (alloc sb) u (Some (curblock sb)) in Ret (h, Some u)
    end in
  let '(h, used) := hu in
  match freeblock sb with
  | Some f =>
      let! blk := deref h f in
      Ret {| store := <[f := {| next := None; b := b blk; pos := 0 |}]> h; alloc := alloc sb; curblock := f;
             freeblock := next blk; usedblock := used; freeblockNum := freeblockNum sb - 1 |}
  | None =>
      Ret {| store := <[alloc sb := new_block]> h; alloc := S (alloc sb); curblock := alloc sb;
             freeblock := None; usedblock := used; freeblockNum := freeblockNum sb |}
  end.

(** [copy(b[pos:], p)] *)
Definition copy_at (a : Z -> Z) (i : Z) (p : list Z) : go (Z -> Z) :=
  if (0 <=? i) && (i <=? bufferSize) then
    Ret (fun k => if (i <=? k) && (k <? i + Z.min (zlen p) (bufferSize - i)) then default 0 (p !! Z.to_nat (k - i)) else a k)
  else Panic.

Inductive write_result : Type := Written (n : Z) | LineTooLong (n : Z).

(** [Write]; a line over the limit makes the caller log its length with
    [go Error(info)]. *)
Definition Write (sb : blocks) (p : list Z) : go (blocks * write_result) :=
  if MsgLineSize <? zlen p then Ret (sb, LineTooLong (zlen p))
  else
    let! cur := deref (store sb) (curblock sb) in
    let! sb := if bufferSize - pos cur <? zlen p then changeblock sb else Ret sb in
    let! cur := deref (store sb) (curblock sb) in
    let! a := copy_at (b cur) (pos cur) p in
    Ret ({| store := <[curblock sb := {| next := next cur; b := a; pos := pos cur + zlen p |}]> (store sb);
            alloc := alloc sb; curblock := curblock sb; freeblock := freeblock sb; usedblock := usedblock sb;
            freeblockNum := freeblockNum sb |}, Written (zlen p)).

(** The first critical section of [Flush]: the full blocks leave the buffer. *)
Definition flush_take (sb : blocks) : go (blocks * option nat) :=
  let! cur := deref (store sb) (curblock sb) in
  let! sb := if 0 <? pos cur then changeblock sb else Ret sb in
  Ret ({| store := store sb; alloc := alloc sb; curblock := curblock sb; freeblock := freeblock sb;
          usedblock := None; freeblockNum := freeblockNum sb |}, usedblock sb).

(** [for tmpblock != nil { p = tmpblock; tmpblock = tmpblock.next; p.next = nil }] *)
Fixpoint unlink (fuel : nat) (h : gmap nat blockbuf) (p : option nat) : go (gmap nat blockbuf) :=
  match p, fuel with
  | None, _ => Ret h
  | Some p, S fuel => let! blk := deref h p in unlink fuel (<[p := set_next blk None]> h) (next blk)
  | Some _, O => Panic
  end.

(** The last critical section of [Flush]: the [n] written blocks, a list
    starting at [tmp], are recycled. *)
Definition flush_recycle (sb : blocks) (tmp : nat) (n : Z) : go blocks :=
  match freeblock sb with
  | None =>
      Ret {| store := store sb; alloc := alloc sb; curblock := curblock sb; freeblock := Some tmp;
             usedblock := usedblock sb; freeblockNum := n |}
  | Some f =>
      if freeblockNum sb <? maxFreeBlockSize then
        let! h := append_block (store sb) (alloc sb) f (Some tmp) in
        Ret {| store := h; alloc := alloc sb; curblock := curblock sb; freeblock := Some f;
               usedblock := usedblock sb; freeblockNum := freeblockNum sb + n |}
      else
        let! h := unlink (alloc sb) (store sb) (Some tmp) in
        Ret {| store := h; alloc := alloc sb; curblock := curblock sb; freeblock := Some f;
               usedblock := usedblock sb; freeblockNum := freeblockNum sb |}
  end.

(** [p.b[i:j]] *)
Definition array_slice (a : Z -> Z) (i j : Z) : list Z := a <$> seqZ i (j - i).

(** The bytes of a block that have been filled. *)
Definition contents (blk : blockbuf) : list Z := array_slice (b blk) 0 (pos blk).

(** ** Linked lists in the store *)

Abbreviation heap := (gmap nat blockbuf) (only parsing).

(** [chain h p l]: following [next] from [p] visits the blocks [l]. *)
Fixpoint chain (h : heap) (p : option nat) (l : list nat) : Prop :=
  match l with
  | [] => p = None
  | a :: l => p = Some a /\ exists blk, h !! a = Some blk /\ chain h (next blk) l
  end.

(** A block holds the bytes of some lines. *)
Definition holds (h : heap) (a : nat) (ls : list (list Z)) : Prop :=
  exists blk, h !! a = Some blk /\ contents blk = concat ls /\ 0 <= pos blk <= bufferSize.

(** Only links may differ. *)
Definition same_data (h h' : heap) : Prop :=
  forall a blk, h !! a = Some blk -> exists blk', h' !! a = Some blk' /\ b blk' = b blk /\ pos blk' = pos blk.

Lemma chain_frame h h' l : forall p, (forall a, a ∈ l -> h' !! a = h !! a) -> chain h p l -> chain h' p l.
Proof.
  induction l as [|a l IH]; intros p Hf; [done|]. intros (-> & blk & Ha & Hc). split; [done|].
  exists blk. rewrite Hf by set_solver. split; [done|]. apply IH; [set_solver|done].
Qed.

Lemma chain_insert h p l a blk : a ∉ l -> chain h p l -> chain (<[a := blk]> h) p l.
Proof. intros Ha. apply chain_frame. intros a' Ha'. apply lookup_insert_ne. set_solver. Qed.

Lemma holds_same h h' a ls : same_data h h' -> holds h a ls -> holds h' a ls.
Proof.
  intros Hs (blk & Ha & Hc & Hp). destruct (Hs a blk Ha) as (blk' & Ha' & Hb & Hpos).
  exists blk'. split; [done|]. unfold contents in *. rewrite Hb, Hpos. done.
Qed.

Lemma full_same h h' l lss : same_data h h' -> Forall2 (holds h) l lss -> Forall2 (holds h') l lss.
Proof. intros Hs Hl. eapply Forall2_impl; [exact Hl|]. intros a ls. by apply holds_same. Qed.

Lemma full_frame h h' l lss : (forall a, a ∈ l -> h' !! a = h !! a) -> Forall2 (holds h) l lss -> Forall2 (holds h') l lss.
Proof.
  intros Hf Hl. induction Hl as [|a ls l lss Ha Hl IH]; constructor.
  - destruct Ha as (blk & Ha & ?). exists blk. rewrite Hf by set_solver. done.
  - apply IH. set_solver.
Qed.

Lemma same_data_refl h : same_data h h.
Proof. intros a blk Ha. by exists blk. Qed.

Lemma same_data_next h a blk q : h !! a = Some blk -> same_data h (<[a := set_next blk q]> h).
Proof.
  intros Ha a' blk' Ha'. destruct (decide (a = a')) as [->|Hne].
  - exists (set_next blk q). rewrite lookup_insert_eq. by simplify_eq.
  - exists blk'. by rewrite lookup_insert_ne.
Qed.

Lemma last_block_spec h l z : forall fuel p, chain h (Some p) (l ++ [z]) -> (length l <= fuel)%nat ->
  last_block fuel h p = Ret z.
Proof.
  induction l as [|a l IH]; intros fuel p (E & blk & Hp & Hc) Hf; simplify_eq.
  - cbn in Hc. destruct fuel; cbn; unfold deref; rewrite Hp; cbn; by rewrite Hc.
  - destruct fuel as [|fuel]; cbn in Hf; [lia|]. cbn. unfold deref. rewrite Hp. cbn.
    destruct (next blk) as [q|]; [|by destruct l, Hc]. apply IH; [done|lia].
Qed.

Lemma chain_tail h q m z blk l : forall p, h !! z = Some blk -> z ∉ l -> z ∉ m -> chain h q m ->
  chain h p (l ++ [z]) -> chain (<[z := set_next blk q]> h) p (l ++ [z] ++ m).
Proof.
  induction l as [|a l IH]; intros p Hz Hl Hm Hq; cbn.
  - intros (-> & ? & ? & ?). split; [done|]. eexists. rewrite lookup_insert_eq. split; [done|]. cbn.
    by apply chain_insert.
  - intros (-> & blk' & Ha & Hc). split; [done|]. exists blk'. rewrite lookup_insert_ne by set_solver.
    split; [done|]. apply IH; [done|set_solver..|done].
Qed.

Lemma NoDup_bound (l : list nat) n : NoDup l -> Forall (fun a => a < n)%nat l -> (length l <= n)%nat.
Proof.
  intros Hd Hl. rewrite <- (length_seq n 0). apply submseteq_length, NoDup_submseteq; [done|].
  intros a Ha. rewrite Forall_forall in Hl. apply elem_of_seq. specialize (Hl a Ha). lia.
Qed.

(** What [append_block] does to two disjoint lists. *)
Lemma append_block_spec h n f q l m : chain h (Some f) l -> chain h q m -> NoDup (l ++ m) -> Forall (fun a => a < n)%nat l ->
  exists h', append_block h n f q = Ret h' /\ chain h' (Some f) (l ++ m) /\ same_data h h' /\
    forall a, a ∉ l -> h' !! a = h !! a.
Proof.
  intros Hl Hm Hd Hn. destruct l as [|z l _] using rev_ind; [done|].
  apply NoDup_app in Hd as (Hd & Hdis & _). apply NoDup_app in Hd as (Hd & Hz & _).
  assert (exists blk, h !! z = Some blk) as [blk Hb].
  { clear -Hl. revert f Hl. induction l as [|a l IH]; intros f (E & blk & Ha & Hc); [simplify_eq; by eexists|].
    destruct (next blk); [by eapply IH|by destruct l, Hc]. }
  unfold append_block. rewrite (last_block_spec _ _ _ _ _ Hl).
  2: { apply Forall_app in Hn as [Hn _]. by apply NoDup_bound. }
  cbn. unfold deref. rewrite Hb. cbn. eexists; split; [done|]. rewrite <- app_assoc. split_and!.
  - apply chain_tail; [done|set_solver..|done|done].
  - by apply same_data_next.
  - intros a Ha. apply lookup_insert_ne. set_solver.
Qed.

(** ** The invariant of the buffer

    [U] and [F] are the blocks of the used and of the free list, [T] the
    blocks that flushes in progress own; [ul] are the lines of each used
    block and [cl] those of the current one. *)

Record wfb (sb : blocks) (U F T : list nat) (ul : list (list (list Z))) (cl : list (list Z)) : Prop := mkWfb {
  wf_used : chain (store sb) (usedblock sb) U;
  wf_full : Forall2 (holds (store sb)) U ul;
  wf_nonempty : Forall (fun ls => ls <> []) ul;
  wf_free : chain (store sb) (freeblock sb) F;
  wf_num : freeblockNum sb = zlen F;
  wf_cur : holds (store sb) (curblock sb) cl;
  wf_end : exists blk, store sb !! curblock sb = Some blk /\ next blk = None;
  wf_lines : Forall (fun p => p <> []) cl;
  wf_disjoint : NoDup (curblock sb :: U ++ F ++ T);
  wf_alloc : Forall (fun a => a < alloc sb)%nat (curblock sb :: U ++ F ++ T)
}.

(** Blocks in flight are not touched. *)
Definition keeps (T : list nat) (sb sb' : blocks) : Prop := forall a, a ∈ T -> store sb' !! a = store sb !! a.

Lemma array_slice_len a i j : i <= j -> zlen (array_slice a i j) = j - i.
Proof. intros H. unfold array_slice. rewrite zlen_fmap. unfold zlen. rewrite length_seqZ. lia. Qed.

Lemma contents_len blk : 0 <= pos blk -> zlen (contents blk) = pos blk.
Proof. intros H. unfold contents. rewrite array_slice_len by done. lia. Qed.

Lemma new_blocks_wfb : wfb new_blocks [] [] [] [] [].
Proof.
  split; cbn; try done; try by constructor.
  - exists new_block. unfold contents, bufferSize. cbn. rewrite lookup_singleton_eq. split_and!; try done; lia.
  - exists new_block. by rewrite lookup_singleton_eq.
  - apply NoDup_singleton.
  - repeat constructor.
Qed.

(** Copying a line that fits behind the filled part. *)
Lemma copy_at_spec a i p : 0 <= i -> i + zlen p <= bufferSize ->
  exists a', copy_at a i p = Ret a' /\ array_slice a' 0 (i + zlen p) = array_slice a 0 i ++ p.
Proof.
  intros Hi Hp. pose proof (zlen_nonneg p). unfold copy_at.
  rewrite (proj2 (Z.leb_le _ _)), (proj2 (Z.leb_le _ _)) by lia. cbn. eexists; split; [done|].
  rewrite Z.min_l by lia. unfold array_slice. rewrite !Z.sub_0_r, seqZ_app, fmap_app by lia. f_equal.
  - apply list_fmap_ext. intros k x Hk%lookup_seqZ. rewrite (proj2 (Z.leb_gt _ _)) by lia. done.
  - apply list_eq. intros k. rewrite list_lookup_fmap. destruct (decide (k < length p)%nat) as [Hk|Hk].
    + rewrite (lookup_seqZ_lt (0 + i) (zlen p) k) by (unfold zlen; lia).
      destruct (lookup_lt_is_Some_2 p k Hk) as [x Hx]. rewrite Hx. cbn [fmap option_fmap option_map].
      rewrite (proj2 (Z.leb_le _ _)), (proj2 (Z.ltb_lt _ _)) by (unfold zlen; lia). cbn [andb].
      replace (Z.to_nat (0 + i + Z.of_nat k - i)) with k by lia. by rewrite Hx.
    + rewrite (lookup_seqZ_ge (0 + i) (zlen p) k) by (unfold zlen; lia). cbn.
      symmetry. apply lookup_ge_None. lia.
Qed.

Lemma use_current sb U F T ul cl : wfb sb U F T ul cl ->
  exists h u, match usedblock sb with
    | None => Ret (store sb, Some (curblock sb))
    | Some u => let! h := append_block (store sb) (alloc sb) u (Some (curblock sb)) in Ret (h, Some u)
    end = Ret (h, Some u) /\ chain h (Some u) (U ++ [curblock sb]) /\ same_data (store sb) h /\
    forall a, a ∉ U -> h !! a = store sb !! a.
Proof.
  intros [Hu _ _ _ _ _ (blk & Hc & Hn) _ Hd Ha]. assert (chain (store sb) (Some (curblock sb)) [curblock sb]) as Hcur.
  { split; [done|]. exists blk. by rewrite Hc, Hn. }
  destruct (usedblock sb) as [u|].
  - destruct (append_block_spec (store sb) (alloc sb) u (Some (curblock sb)) U [curblock sb]) as (h & -> & ? & ? & ?).
    + done.
    + done.
    + apply NoDup_cons in Hd as [Hx Hd]. apply NoDup_app in Hd as (Hd & _ & _). apply NoDup_app.
      split_and!; [done|set_solver|apply NoDup_singleton].
    + apply Forall_cons in Ha as [_ Ha]. by apply Forall_app in Ha as [Ha _].
    + by exists h, u.
  - destruct U as [|? U]; [|by destruct Hu]. exists (store sb), (curblock sb). split_and!; try done. apply same_data_refl.
Qed.

Lemma empty_holds h a blk : h !! a = Some blk -> pos blk = 0 -> holds h a [].
Proof. intros Ha Hp. exists blk. unfold contents, bufferSize. rewrite Hp. cbn. split_and!; [done|done|lia|lia]. Qed.

(** A new current block, in a store whose used list is [U]. *)
Lemma install_current h u U F T ul al c blk f n : chain h (Some u) U -> Forall2 (holds h) U ul ->
  Forall (fun ls => ls <> []) ul -> chain h f F -> n = zlen F ->
  NoDup (c :: U ++ F ++ T) -> Forall (fun a => a < al)%nat (c :: U ++ F ++ T) -> pos blk = 0 -> next blk = None ->
  wfb {| store := <[c := blk]> h; alloc := al; curblock := c; freeblock := f; usedblock := Some u; freeblockNum := n |}
    U F T ul [].
Proof.
  intros Hu Hful Hne Hf Hn Hd Ha Hp Hx. pose proof Hd as [Hc _]%NoDup_cons. split; cbn; try done.
  - apply chain_insert; [set_solver|done].
  - eapply full_frame; [|exact Hful]. intros a Hin. apply lookup_insert_ne. set_solver.
  - apply chain_insert; [set_solver|done].
  - eapply empty_holds; [apply lookup_insert_eq|done].
  - exists blk. by rewrite lookup_insert_eq.
Qed.

(** [changeblock] moves the current block behind the used ones. *)
Lemma changeblock_spec sb U F T ul cl : wfb sb U F T ul cl -> cl <> [] ->
  exists sb' u, changeblock sb = Ret sb' /\ usedblock sb' = Some u /\
    wfb sb' (U ++ [curblock sb]) (tail F) T (ul ++ [cl]) [] /\ keeps T sb sb'.
Proof.
  intros Hw Hcl. destruct (use_current sb U F T ul cl Hw) as (h & u & Hm & Hcu & Hs & Hf). unfold changeblock. rewrite Hm.
  cbn [go_bind]. clear Hm. destruct Hw as [Hu Hfull Hne Hfree Hnum Hcur Hend Hlines Hd Ha].
  assert (Forall2 (holds h) (U ++ [curblock sb]) (ul ++ [cl])) as Hfull'.
  { apply (full_same (store sb)); [done|]. apply Forall2_app; [done|]. by repeat constructor. }
  assert (Forall (fun ls => ls <> []) (ul ++ [cl])) as Hne' by (apply Forall_app; by repeat constructor).
  assert (forall a, a ∈ F ++ T -> h !! a = store sb !! a) as Hft.
  { intros a Hin. apply Hf. apply NoDup_cons in Hd as [_ Hd]. apply NoDup_app in Hd as (_ & Hd & _). set_solver. }
  assert (alloc sb ∉ curblock sb :: U ++ F ++ T) as Hnew.
  { intros Hin. rewrite Forall_forall in Ha. specialize (Ha _ Hin). cbn in Ha. lia. }
  destruct F as [|f F].
  - cbn in Hfree. rewrite Hfree. do 2 eexists; split; [done|]. split; [done|].
    assert (curblock sb :: U ++ [] ++ T ≡ₚ (U ++ [curblock sb]) ++ tail [] ++ T) as Hp by (cbn; solve_Permutation). split.
    + apply install_current; try done.
      * constructor; [set_solver|]. by rewrite <- Hp.
      * constructor; [lia|]. rewrite <- Hp. eapply Forall_impl; [exact Ha|cbn; lia].
    + intros a Hin. cbn. rewrite lookup_insert_ne by set_solver. apply Hft. set_solver.
  - destruct Hfree as (-> & blk & Hb & Hfree). unfold deref. rewrite Hft, Hb by set_solver. cbn [go_bind].
    pose proof Hd as Hd'. assert (curblock sb :: U ++ (f :: F) ++ T ≡ₚ f :: (U ++ [curblock sb]) ++ F ++ T) as Hp by solve_Permutation.
    rewrite Hp in Hd', Ha. do 2 eexists; split; [done|]. split; [done|]. split.
    + apply install_current; try done; [|rewrite Hnum, zlen_cons; cbn; lia].
      eapply chain_frame; [|exact Hfree]. intros a Hin. apply Hft. set_solver.
    + intros a Hin. cbn. rewrite lookup_insert_ne; [apply Hft; set_solver|].
      apply NoDup_cons in Hd' as [Hd' _]. set_solver.
Qed.

(** The lines a [Write] adds: an empty one leaves no trace. *)
Definition line_of (p : list Z) : list (list Z) := if bool_decide (p = []) then [] else [p].

Lemma append_line sb U F T ul cl p cur : wfb sb U F T ul cl -> store sb !! curblock sb = Some cur ->
  pos cur + zlen p <= bufferSize ->
  exists a, copy_at (b cur) (pos cur) p = Ret a /\
    wfb {| store := <[curblock sb := {| next := next cur; b := a; pos := pos cur + zlen p |}]> (store sb);
           alloc := alloc sb; curblock := curblock sb; freeblock := freeblock sb; usedblock := usedblock sb;
           freeblockNum := freeblockNum sb |} U F T ul (cl ++ line_of p).
Proof.
  intros [Hu Hfull Hne Hfree Hnum (c & Hc & Hct & Hpos) (c' & Hc' & Hn) Hlines Hd Ha] Hcur Hfit.
  rewrite Hcur in Hc, Hc'. injection Hc as <-. injection Hc' as <-.
  destruct (copy_at_spec (b cur) (pos cur) p) as (a & -> & Hcopy); [lia..|]. exists a. split; [done|].
  pose proof Hd as [Hnot _]%NoDup_cons. pose proof (zlen_nonneg p). split; cbn; try done.
  - apply chain_insert; [set_solver|done].
  - eapply full_frame; [|exact Hfull]. intros x Hin. apply lookup_insert_ne. set_solver.
  - apply chain_insert; [set_solver|done].
  - eexists. rewrite lookup_insert_eq. split; [done|]. cbn. split; [|lia]. unfold contents in *. cbn.
    rewrite Hcopy, Hct, concat_app. unfold line_of. case_bool_decide; subst; cbn; by rewrite ?app_nil_r.
  - eexists. by rewrite lookup_insert_eq.
  - apply Forall_app. split; [done|]. unfold line_of. case_bool_decide; by repeat constructor.
Qed.

(** [Write] appends a line, whole, behind all others. *)
Lemma Write_spec sb U F T ul cl p : wfb sb U F T ul cl -> zlen p <= MsgLineSize ->
  exists sb' U' F' ul' cl', Write sb p = Ret (sb', Written (zlen p)) /\ wfb sb' U' F' T ul' cl' /\
    concat ul' ++ cl' = concat ul ++ cl ++ line_of p /\ keeps T sb sb'.
Proof.
  intros Hw Hp. unfold Write. rewrite (proj2 (Z.ltb_ge _ _)) by done. pose proof (wf_cur _ _ _ _ _ _ Hw) as (cur & Hc & Hct & Hpos).
  unfold deref at 1. rewrite Hc. cbn [go_bind]. destruct (Z.ltb_spec (bufferSize - pos cur) (zlen p)) as [Hfull|Hfit].
  - destruct (changeblock_spec sb U F T ul cl Hw) as (sb' & u & -> & _ & Hw' & Hk).
    { intros ->. assert (pos cur = 0) by (rewrite <- contents_len, Hct by lia; done). unfold MsgLineSize, bufferSize in *. lia. }
    cbn [go_bind]. pose proof (wf_cur _ _ _ _ _ _ Hw') as (cur' & Hc' & Hct' & Hpos'). unfold deref. rewrite Hc'. cbn [go_bind].
    assert (pos cur' = 0) as Hz by (rewrite <- contents_len, Hct' by lia; done).
    destruct (append_line sb' _ _ _ _ _ p cur' Hw' Hc') as (a & -> & Hw''); [rewrite Hz; unfold MsgLineSize, bufferSize in *; lia|].
    cbn [go_bind]. do 5 eexists. split; [done|]. split; [exact Hw''|]. split.
    + rewrite concat_app. cbn. by rewrite app_nil_r, <- app_assoc.
    + intros x Hx. cbn. rewrite lookup_insert_ne; [by apply Hk|].
      pose proof (wf_disjoint _ _ _ _ _ _ Hw') as [Hd _]%NoDup_cons. set_solver.
  - cbn [go_bind]. unfold deref. rewrite Hc. cbn [go_bind].
    destruct (append_line sb _ _ _ _ _ p cur Hw Hc) as (a & -> & Hw''); [lia|].
    cbn [go_bind]. do 5 eexists. split; [done|]. split; [exact Hw''|]. split; [done|].
    intros x Hx. cbn. rewrite lookup_insert_ne; [done|].
    pose proof (wf_disjoint _ _ _ _ _ _ Hw) as [Hd _]%NoDup_cons. set_solver.
Qed.

Lemma move_used sb U F T ul cl : wfb sb U F T ul cl ->
  wfb {| store := store sb; alloc := alloc sb; curblock := curblock sb; freeblock := freeblock sb;
         usedblock := None; freeblockNum := freeblockNum sb |} [] F (U ++ T) [] cl.
Proof.
  intros [Hu Hfull Hne Hfree Hnum Hcur Hend Hl Hd Ha].
  assert (curblock sb :: U ++ F ++ T ≡ₚ curblock sb :: [] ++ F ++ U ++ T) as Hp by solve_Permutation.
  split; cbn [store alloc curblock freeblock usedblock freeblockNum chain];
    first [done | by rewrite <- Hp | constructor].
Qed.

(** [Flush] takes every line out of the buffer. *)
Lemma flush_take_spec sb U F T ul cl : wfb sb U F T ul cl ->
  exists sb' p F' l lss, flush_take sb = Ret (sb', p) /\ chain (store sb') p l /\ Forall2 (holds (store sb')) l lss /\
    concat lss = concat ul ++ cl /\ wfb sb' [] F' (l ++ T) [] [] /\ keeps T sb sb' /\
    Forall (fun ls => ls <> []) lss.
Proof.
  intros Hw. pose proof (wf_cur _ _ _ _ _ _ Hw) as (cur & Hc & Hct & Hpos).
  unfold flush_take, deref. rewrite Hc. cbn [go_bind]. destruct (Z.ltb_spec 0 (pos cur)) as [Hp|Hp].
  - destruct (changeblock_spec sb U F T ul cl Hw) as (sb' & u & -> & Hu & Hw' & Hk).
    { intros ->. rewrite <- contents_len, Hct in Hp by lia. done. }
    cbn [go_bind]. do 5 eexists; split; [done|]. cbn [store]. split; [apply (wf_used _ _ _ _ _ _ Hw')|].
    split; [apply (wf_full _ _ _ _ _ _ Hw')|]. split; [rewrite concat_app; cbn; by rewrite app_nil_r|].
    split; [by apply move_used in Hw'|]. split; [done|apply (wf_nonempty _ _ _ _ _ _ Hw')].
  - assert (cl = []) as ->.
    { destruct cl as [|p cl]; [done|]. pose proof (wf_lines _ _ _ _ _ _ Hw) as [Hne _]%Forall_cons.
      rewrite <- contents_len, Hct in Hp by lia. cbn in Hp. rewrite zlen_app in Hp. pose proof (zlen_pos p Hne).
      pose proof (zlen_nonneg (concat cl)). lia. }
    cbn [go_bind]. do 5 eexists; split; [done|]. cbn [store]. split; [apply (wf_used _ _ _ _ _ _ Hw)|].
    split; [apply (wf_full _ _ _ _ _ _ Hw)|]. split; [by rewrite app_nil_r|].
    split; [by apply move_used in Hw|]. split; [done|apply (wf_nonempty _ _ _ _ _ _ Hw)].
Qed.

Lemma unlink_spec l : forall fuel h p, chain h p l -> NoDup l -> (length l <= fuel)%nat ->
  exists h', unlink fuel h p = Ret h' /\ forall a, a ∉ l -> h' !! a = h !! a.
Proof.
  induction l as [|a l IH]; intros fuel h p Hc Hd Hf.
  - cbn in Hc. subst. exists h. by destruct fuel.
  - destruct Hc as (-> & blk & Ha & Hc). apply NoDup_cons in Hd as [Hnot Hd].
    destruct fuel as [|fuel]; cbn in Hf; [lia|]. cbn. unfold deref. rewrite Ha. cbn.
    destruct (IH fuel (<[a := set_next blk None]> h) (next blk)) as (h' & -> & Hk); [by apply chain_insert|done|lia|].
    exists h'. split; [done|]. intros x Hx. rewrite Hk by set_solver. apply lookup_insert_ne. set_solver.
Qed.

(** The written blocks leave the flush for the free list, or for good. *)
Lemma flush_recycle_spec sb U F T ul cl tmp l : wfb sb U F (l ++ T) ul cl -> chain (store sb) (Some tmp) l ->
  exists sb' F', flush_recycle sb tmp (zlen l) = Ret sb' /\ wfb sb' U F' T ul cl /\ keeps T sb sb'.
Proof.
  intros [Hu Hfull Hne Hfree Hnum Hcur Hend Hlines Hd Ha] Hl. unfold flush_recycle.
  assert (curblock sb :: U ++ F ++ l ++ T ≡ₚ curblock sb :: U ++ (F ++ l) ++ T) as Hp by solve_Permutation.
  assert (forall a, a ∈ curblock sb :: U ++ T -> a ∉ F /\ a ∉ l) as Hout.
  { assert (NoDup ((F ++ l) ++ curblock sb :: U ++ T)) as Hd'.
    { eapply NoDup_Permutation_proper; [|exact Hd]. solve_Permutation. }
    apply NoDup_app in Hd' as (_ & Hx & _). intros a Hin. split; intros Hin'; by apply (Hx a); set_solver. }
  destruct F as [|f F].
  - cbn in Hfree. rewrite Hfree. exists {| store := store sb; alloc := alloc sb; curblock := curblock sb; freeblock := Some tmp;
      usedblock := usedblock sb; freeblockNum := zlen l |}, l. by split; [|split].
  - assert (freeblock sb = Some f) as Hff by apply Hfree. rewrite Hff in Hfree |- *. destruct (freeblockNum sb <? maxFreeBlockSize).
    + destruct (append_block_spec (store sb) (alloc sb) f (Some tmp) (f :: F) l) as (h & -> & Hc & Hs & Hk); [done|done|..].
      { rewrite Hp in Hd. apply NoDup_cons in Hd as [_ Hd]. apply NoDup_app in Hd as (_ & _ & Hd). by apply NoDup_app in Hd as (Hd & _). }
      { apply Forall_cons in Ha as [_ Ha]. rewrite !Forall_app in Ha. by destruct Ha as (_ & ? & _). }
      cbn [go_bind]. do 2 eexists; split; [done|]. split; [|intros a Hin; apply Hk; apply Hout; set_solver].
      split; cbn [store alloc curblock freeblock usedblock freeblockNum]; try done; try by rewrite <- Hp.
      * eapply chain_frame; [|exact Hu]. intros a Hin. apply Hk, Hout. set_solver.
      * by eapply full_same.
      * by rewrite Hnum, zlen_app.
      * by eapply holds_same.
      * rewrite Hk by (apply Hout; set_solver). done.
    + assert (NoDup l /\ Forall (fun a => a < alloc sb)%nat l) as [Hdl Hal].
      { apply Forall_cons in Ha as [_ Ha]. apply NoDup_cons in Hd as [_ Hd]. rewrite !Forall_app in Ha. rewrite !NoDup_app in Hd. tauto. }
      destruct (unlink_spec l (alloc sb) (store sb) (Some tmp)) as (h & -> & Hk); [done|done|by apply NoDup_bound|].
      cbn [go_bind]. do 2 eexists; split; [done|]. split; [|intros a Hin; apply Hk, Hout; set_solver].
      split; cbn [store alloc curblock freeblock usedblock freeblockNum]; try done.
      * eapply chain_frame; [|exact Hu]. intros a Hin. apply Hk, Hout. set_solver.
      * eapply full_frame; [|exact Hfull]. intros a Hin. apply Hk, Hout. set_solver.
      * eapply chain_frame; [|exact Hfree]. intros a Hin. apply Hk.
        apply NoDup_cons in Hd as [_ Hd]. rewrite !NoDup_app in Hd. set_solver.
      * destruct Hcur as (cur & Hc & ?). exists cur. by rewrite Hk by (apply Hout; set_solver).
      * rewrite Hk by (apply Hout; set_solver). done.
      * apply (sublist_NoDup _ (curblock sb :: U ++ (f :: F) ++ l ++ T)); [done|].
        apply sublist_skip, sublist_app; [done|]. apply sublist_app; [done|]. by apply sublist_inserts_l.
      * rewrite Forall_forall in *. intros a Hin. apply Ha. set_solver.
Qed.
