(* ===== verification/Logflush.v ===== *)
(** * glog/glog.go: flushing a log file's buffer

    Lines are written to the blocks of a [syncBuffer] under [mu] while any
    number of goroutines call [Flush]: the daemon every two seconds, [Flush]
    of the package, [timeoutFlush].  A [Flush] takes the full blocks under
    [mu], writes them to the file under [filemu], rotating the file by day and
    by size, and recycles the blocks under [mu].  Its critical sections and
    the rounds of its loop are the steps that interleave; what the file system
    does at each one is in the step's label.  An error of a file operation
    calls [logger.exit], which flushes this buffer again with [filemu] held
    ([logExitFunc] is nil unless a fatal message is being written). *)

From S2P Require Import Prelude Gostrings Resp Strconv Logfile Logblock.

Definition MaxSize : Z := 1024 * 1024 * 500.

(** Where a call of [Flush] is: before the first section; between [mu] and
    [filemu]; in the loop at [p] with [blockNum] blocks written; before the
    last section; waiting inside [logger.exit] for the [filemu] it holds. *)
Inductive flush_pc : Type :=
| FIdle
| FTaken (tmpblock : nat)
| FWriting (tmpblock : nat) (p : option nat) (blockNum : Z)
| FUnlocked (tmpblock : nat) (blockNum : Z)
| FHung.

(** One [syncBuffer] with its files; [filemu] is held by a flush, [created]
    lists the files in the order of their creation. *)
Record logbuf := mkLogbuf {
  bl : blocks;
  lf : logfile;
  fs : fsys;
  gl : globals;
  filemu : option nat;
  flushes : gmap nat flush_pc;
  exited : bool;
  created : list fname
}.

Definition pc_of (m : logbuf) (f : nat) : flush_pc := default FIdle (flushes m !! f).

Inductive label : Type :=
| LWrite (p : list Z)
| LTake (f : nat)
| LLock (f : nat) (now : time) (d : disk)
| LBlock (f : nat) (w : writing) (now : time) (d : disk)
| LUnlock (f : nat)
| LRecycle (f : nat).

(** [for nn < pos { n, err := sb.file.Write(p.b[nn:pos]); ...; nn += n }] *)
Fixpoint write_loop (fuel : nat) (fs : fsys) (f : option fname) (a : Z -> Z) (nn pos : Z) (w : writing) : go (fsys * bool) :=
  if nn <? pos then
    match fuel with
    | O => Panic
    | S fuel =>
        let '(fs, n, err) := File_Write fs f (array_slice a nn pos) w in
        if err : bool then Ret (fs, true) else write_loop fuel fs f a (nn + n) pos w
    end
  else Ret (fs, false).

Section machine.
Context (o : machine) (sev : Z).

(** [&syncBuffer{...}] and its first [rotateFile]. *)
Definition open_log (g : globals) (fs : fsys) (now : time) (d : disk) : go (logbuf + log_err) :=
  let! (g, fs, lf, err) := rotateFile o g sev fs now d in
  match err with
  | Some err => Ret (inr err)
  | None =>
      Ret (inl {| bl := new_blocks; lf := lf; fs := fs; gl := g; filemu := None; flushes := ∅; exited := false;
                  created := option_list (file lf) |})
  end.

(** [sb.logger.exit(err)] with [filemu] held: the nested [Flush] of this buffer
    returns at once if there is nothing to flush, and the process exits. *)
Definition log_exit (m : logbuf) (f : nat) : go logbuf :=
  let! (bl, tmp) := flush_take (bl m) in
  Ret {| bl := bl; lf := lf m; fs := fs m; gl := gl m; filemu := filemu m;
         flushes := match tmp with None => flushes m | Some _ => <[f := FHung]> (flushes m) end;
         exited := match tmp with None => true | Some _ => false end; created := created m |}.

(** [rotateFile] in [Flush]; the result tells whether it succeeded. *)
Definition rotate (m : logbuf) (now : time) (d : disk) : go (logbuf * bool) :=
  let! (g, fs, lf, err) := rotateFile o (gl m) sev (fs m) now d in
  Ret ({| bl := bl m; lf := lf; fs := fs; gl := g; filemu := filemu m; flushes := flushes m; exited := exited m;
          created := created m ++ option_list (file lf) |}, match err with None => true | Some _ => false end).

Definition set_pc (m : logbuf) (f : nat) (pc : flush_pc) : logbuf :=
  {| bl := bl m; lf := lf m; fs := fs m; gl := gl m; filemu := filemu m; flushes := <[f := pc]> (flushes m);
     exited := exited m; created := created m |}.

Definition set_filemu (m : logbuf) (h : option nat) : logbuf :=
  {| bl := bl m; lf := lf m; fs := fs m; gl := gl m; filemu := h; flushes := flushes m;
     exited := exited m; created := created m |}.

Definition set_bl (m : logbuf) (sb : blocks) : logbuf :=
  {| bl := sb; lf := lf m; fs := fs m; gl := gl m; filemu := filemu m; flushes := flushes m;
     exited := exited m; created := created m |}.

Definition set_fs (m : logbuf) (fs : fsys) (n : Z) : logbuf :=
  {| bl := bl m; lf := {| file := file (lf m); nbytes := n; yearday := yearday (lf m) |}; fs := fs; gl := gl m;
     filemu := filemu m; flushes := flushes m; exited := exited m; created := created m |}.

(** The date check, behind [sb.filemu.Lock()]. *)
Definition flush_lock (m : logbuf) (f tmp : nat) (now : time) (d : disk) : go logbuf :=
  let m := set_filemu m (Some f) in
  if YearDay now =? yearday (lf m) then Ret (set_pc m f (FWriting tmp (Some tmp) 0))
  else
    let! (m, ok) := rotate m now d in
    if ok : bool then Ret (set_pc m f (FWriting tmp (Some tmp) 0)) else log_exit m f.

(** One round of the loop: write the block, count its bytes, check the size. *)
Definition flush_block (m : logbuf) (f tmp p : nat) (n : Z) (w : writing) (now : time) (d : disk) : go logbuf :=
  let! blk := deref (store (bl m)) p in
  let pos := if pos blk <=? bufferSize then pos blk else bufferSize in
  let! (fs, err) := write_loop (Z.to_nat pos) (fs m) (file (lf m)) (b blk) 0 pos w in
  if err : bool then log_exit (set_fs m fs (nbytes (lf m))) f
  else
    let m := set_fs m fs (u64 (nbytes (lf m) + u64 pos)) in
    if MaxSize <? nbytes (lf m) then
      let! (m, ok) := rotate m now d in
      if ok : bool then Ret (set_pc m f (FWriting tmp (next blk) (n + 1))) else log_exit m f
    else Ret (set_pc m f (FWriting tmp (next blk) (n + 1))).

(** One action; [None] when it is not enabled. *)
Definition step (m : logbuf) (l : label) : go (option logbuf) :=
  if exited m then Ret None
  else
    match l with
    | LWrite p => let! (sb, _) := Write (bl m) p in Ret (Some (set_bl m sb))
    | LTake f =>
        match pc_of m f with
        | FIdle =>
            let! (sb, tmp) := flush_take (bl m) in
            Ret (Some (match tmp with Some tmp => set_pc (set_bl m sb) f (FTaken tmp) | None => set_bl m sb end))
        | _ => Ret None
        end
    | LLock f now d =>
        match pc_of m f, filemu m with
        | FTaken tmp, None => let! m := flush_lock m f tmp now d in Ret (Some m)
        | _, _ => Ret None
        end
    | LBlock f w now d =>
        match pc_of m f with
        | FWriting tmp (Some p) n => let! m := flush_block m f tmp p n w now d in Ret (Some m)
        | _ => Ret None
        end
    | LUnlock f =>
        match pc_of m f with
        | FWriting tmp None n => Ret (Some (set_pc (set_filemu m None) f (FUnlocked tmp n)))
        | _ => Ret None
        end
    | LRecycle f =>
        match pc_of m f with
        | FUnlocked tmp n => let! sb := flush_recycle (bl m) tmp n in Ret (Some (set_pc (set_bl m sb) f FIdle))
        | _ => Ret None
        end
    end.

Fixpoint run (m : logbuf) (ls : list label) : go (option logbuf) :=
  match ls with
  | [] => Ret (Some m)
  | l :: ls =>
      let! r := step m l in
      match r with Some m => run m ls | None => Ret None end
  end.

End machine.

(** The lines the buffer accepts during a run. *)
Definition accepted_line (l : label) : list (list Z) :=
  match l with LWrite p => if zlen p <=? MsgLineSize then line_of p else [] | _ => [] end.
Definition accepted (ls : list label) : list (list Z) := ls ≫= accepted_line.

(** ** What the buffer promises

    Lines wait, are taken by a flush, and are stored in the newest file, in
    the order in which the flush took them.  [A] says which flushes there are. *)

Record alog := mkAlog {
  pending : list (list Z);
  taken : gmap nat (list (list Z));
  stored : list (list (list Z))
}.

Inductive astep (A : nat -> Prop) : alog -> list (list Z) -> alog -> Prop :=
| a_write a ls :
    astep A a ls {| pending := pending a ++ ls; taken := taken a; stored := stored a |}
| a_take a f :
    A f -> taken a !! f = None ->
    astep A a [] {| pending := []; taken := <[f := pending a]> (taken a); stored := stored a |}
| a_store a f k rest st cur :
    taken a !! f = Some (k ++ rest) -> stored a = st ++ [cur] ->
    astep A a [] {| pending := pending a; taken := <[f := rest]> (taken a); stored := st ++ [cur ++ k] |}
| a_rotate a :
    astep A a [] {| pending := pending a; taken := taken a; stored := stored a ++ [[]] |}
| a_done a f :
    taken a !! f = Some [] ->
    astep A a [] {| pending := pending a; taken := delete f (taken a); stored := stored a |}.

Inductive asteps (A : nat -> Prop) : alog -> list (list Z) -> alog -> Prop :=
| as_refl a : asteps A a [] a
| as_step a1 l1 a2 l2 a3 : asteps A a1 l1 a2 -> astep A a2 l2 a3 -> asteps A a1 (l1 ++ l2) a3.

(** Everything the values of a map hold. *)
Definition values {A} (M : gmap nat (list A)) : list A := concat (map_to_list M).*2.

Lemma values_insert {A} (M : gmap nat (list A)) f x : M !! f = None -> values (<[f := x]> M) ≡ₚ x ++ values M.
Proof. intros Hf. unfold values. by rewrite map_to_list_insert. Qed.

Lemma values_delete {A} (M : gmap nat (list A)) f x : M !! f = Some x -> values M ≡ₚ x ++ values (delete f M).
Proof.
  intros Hf. rewrite <- (insert_delete_id M f x Hf) at 1. apply values_insert, lookup_delete_eq.
Qed.

Lemma values_update {A} (M : gmap nat (list A)) f x : values (<[f := x]> M) ≡ₚ x ++ values (delete f M).
Proof. rewrite <- (insert_delete_eq M). apply values_insert, lookup_delete_eq. Qed.

Lemma values_elem {A} (M : gmap nat (list A)) f x a : M !! f = Some x -> a ∈ x -> a ∈ values M.
Proof. intros Hf Ha. rewrite (values_delete M f x Hf). set_solver. Qed.

Definition all_lines (a : alog) : list (list Z) := concat (stored a) ++ values (taken a) ++ pending a.

(** No line is lost or written twice, whatever the flushes do. *)
Lemma astep_keeps A a ls a' : astep A a ls a' -> all_lines a' ≡ₚ all_lines a ++ ls.
Proof.
  intros Hs. unfold all_lines. destruct Hs as [a ls|a f _ Hf|a f k rest st cur Hf Hst|a|a f Hf]; cbn.
  - by rewrite !app_assoc.
  - rewrite values_insert by done. solve_Permutation.
  - rewrite values_update, (values_delete (taken a) f (k ++ rest)) by done. rewrite Hst, !concat_app. cbn. rewrite !app_nil_r.
    solve_Permutation.
  - rewrite concat_app. cbn. by rewrite !app_nil_r.
  - rewrite (values_delete (taken a) f []) by done. cbn. by rewrite app_nil_r.
Qed.

Lemma asteps_keep A a ls a' : asteps A a ls a' -> all_lines a' ≡ₚ all_lines a ++ ls.
Proof.
  induction 1 as [a|a1 l1 a2 l2 a3 Hs IH Hst]; [by rewrite app_nil_r|].
  rewrite (astep_keeps _ _ _ _ Hst), IH. by rewrite app_assoc.
Qed.

(** With one flush at a time, the lines stay in order. *)
Definition in_order (f0 : nat) (a : alog) (h : list (list Z)) : Prop :=
  (forall f, is_Some (taken a !! f) -> f = f0) /\ concat (stored a) ++ default [] (taken a !! f0) ++ pending a = h.

Lemma astep_in_order f0 a ls a' h : in_order f0 a h -> astep (fun f => f = f0) a ls a' -> in_order f0 a' (h ++ ls).
Proof.
  intros [Hdom <-] Hs. destruct Hs as [a ls|a f -> Hf|a f k rest st cur Hf Hst|a|a f Hf]; split; cbn; try done.
  - by rewrite <- !app_assoc.
  - intros f [x Hx]. destruct (decide (f = f0)); [done|]. rewrite lookup_insert_ne in Hx by done. by eauto.
  - rewrite Hf, lookup_insert_eq. cbn. by rewrite !app_nil_r.
  - intros f' [x Hx]. destruct (decide (f = f')) as [<-|]; [by eauto|]. rewrite lookup_insert_ne in Hx by done. by eauto.
  - assert (f = f0) as -> by eauto. rewrite lookup_insert_eq, Hf, Hst, !concat_app. cbn. by rewrite !app_nil_r, <- !app_assoc.
  - rewrite concat_app. cbn. by rewrite !app_nil_r.
  - intros f' [x Hx]. apply lookup_delete_Some in Hx as [_ Hx]. by eauto.
  - assert (f = f0) as -> by eauto. rewrite lookup_delete_eq, Hf. cbn. by rewrite app_nil_r.
Qed.

Lemma asteps_in_order f0 a ls a' h : asteps (fun f => f = f0) a ls a' -> in_order f0 a h -> in_order f0 a' (h ++ ls).
Proof.
  induction 1 as [a|a1 l1 a2 l2 a3 Hs IH Hst]; intros Hh; [by rewrite app_nil_r|].
  rewrite app_assoc. eapply astep_in_order; [by apply IH|done].
Qed.

(** ** The machine keeps the promise *)

Lemma block_write_spec fs f a pos w old : 0 <= pos -> data fs !! f = Some old ->
  exists fs' err, write_loop (Z.to_nat pos) fs (Some f) a 0 pos w = Ret (fs', err) /\ (w = WFull -> err = false) /\
    (err = false -> data fs' !! f = Some (old ++ array_slice a 0 pos) /\ forall f', f' <> f -> data fs' !! f' = data fs !! f').
Proof.
  intros Hp Hf. destruct (Z.to_nat pos) as [|n] eqn:Hn.
  - assert (pos = 0) as -> by lia. exists fs, false. cbn. split_and!; try done. intros _. by rewrite app_nil_r.
  - cbn. rewrite (proj2 (Z.ltb_lt 0 pos)) by lia. rewrite Hf. cbn [default]. destruct w as [|k]; [|by do 2 eexists].
    rewrite array_slice_len by lia. replace (0 + (pos - 0)) with pos by lia.
    do 2 eexists. split; [destruct n; cbn; by rewrite Z.ltb_irrefl|]. split; [done|]. intros _. cbn. rewrite lookup_insert_eq.
    split; [done|]. intros f' Hne. by rewrite lookup_insert_ne.
Qed.

(** Who owns which blocks, and what they hold, at each point of a flush. *)
Definition flush_rel (h : gmap nat blockbuf) (pc : flush_pc) (own : option (list nat)) (lines : option (list (list Z))) : Prop :=
  match pc with
  | FIdle => own = None /\ lines = None
  | FTaken tmp =>
      exists l lss, own = Some l /\ lines = Some (concat lss) /\ chain h (Some tmp) l /\ Forall2 (holds h) l lss
  | FWriting tmp p n =>
      exists dn l lss, own = Some (dn ++ l) /\ lines = Some (concat lss) /\ chain h (Some tmp) (dn ++ l) /\ chain h p l /\
        n = zlen dn /\ Forall2 (holds h) l lss
  | FUnlocked tmp n => exists l, own = Some l /\ lines = Some [] /\ chain h (Some tmp) l /\ n = zlen l
  | FHung => False
  end.

Section refinement.
Context (o : machine) (sev : Z) (g : globals).
Context (Hsev : 0 <= sev < numSeverity) (Honce : onceLogDirs g = true) (Hhdr : header_size o g <= MaxSize).

(** A file is a header and whole lines, and is not larger than the limit and a block. *)
Definition file_holds (fs : fsys) (f : fname) (lines : list (list Z)) : Prop :=
  exists now, data fs !! f = Some (file_header o g now ++ concat lines) /\
    zlen (file_header o g now ++ concat lines) <= MaxSize + bufferSize.

(** The last file is the current one, its size is known and below the limit. *)
Definition last_ok (m : logbuf) : Prop :=
  exists f x, last (created m) = Some f /\ file (lf m) = Some f /\ data (fs m) !! f = Some x /\
    nbytes (lf m) = zlen x /\ zlen x <= MaxSize.

Record rel (m : logbuf) (a : alog) (O : gmap nat (list nat)) (U F : list nat) (ul : list (list (list Z))) (cl : list (list Z)) : Prop := mkRel {
  r_blocks : wfb (bl m) U F (values O) ul cl;
  r_pending : pending a = concat ul ++ cl;
  r_flush : forall f, flush_rel (store (bl m)) (pc_of m f) (O !! f) (taken a !! f);
  r_lock : forall f tmp p n, pc_of m f = FWriting tmp p n -> filemu m = Some f;
  r_files : Forall2 (file_holds (fs m)) (created m) (stored a);
  r_last : last_ok m;
  r_alive : exited m = false;
  r_gl : gl m = g
}.

Definition refines (m : logbuf) (a : alog) : Prop := exists O U F ul cl, rel m a O U F ul cl.

(** A flush waits for the lock it holds, and no other one can have it. *)
Definition stuck (m : logbuf) (f : nat) : Prop :=
  pc_of m f = FHung /\ filemu m = Some f /\
  forall f', f' <> f -> match pc_of m f' with FWriting _ _ _ | FHung => False | _ => True end.

Definition broken (m : logbuf) : Prop := exited m = true \/ exists f, stuck m f.

Lemma flush_rel_frame h h' pc own lines : (forall l a, own = Some l -> a ∈ l -> h' !! a = h !! a) ->
  flush_rel h pc own lines -> flush_rel h' pc own lines.
Proof.
  intros Hf. destruct pc as [|tmp|tmp p n|tmp n|]; cbn; try done.
  - intros (l & lss & -> & Hl & Hc & Hh). exists l, lss. split_and!; try done.
    + eapply chain_frame; [|exact Hc]. by eauto.
    + eapply full_frame; [|exact Hh]. by eauto.
  - intros (dn & l & lss & -> & Hl & Hc & Hp & Hn & Hh). exists dn, l, lss.
    assert (forall a, a ∈ l -> h' !! a = h !! a) by (intros a Ha; apply (Hf (dn ++ l)); set_solver).
    split_and!; try done; [eapply chain_frame; [|exact Hc]; by eauto|by eapply chain_frame|by eapply full_frame].
  - intros (l & -> & Hl & Hc & Hn). exists l. split_and!; try done. eapply chain_frame; [|exact Hc]. by eauto.
Qed.

Lemma wfb_perm sb U F T T' ul cl : T ≡ₚ T' -> wfb sb U F T ul cl -> wfb sb U F T' ul cl.
Proof. intros Hp [? ? ? ? ? ? ? ? Hd Ha]. split; try done; by rewrite <- Hp. Qed.

(** Operations of the blocks that leave the blocks in flight alone. *)
Lemma flush_rel_keeps sb sb' O pc f lines : keeps (values O) sb sb' ->
  flush_rel (store sb) pc (O !! f) lines -> flush_rel (store sb') pc (O !! f) lines.
Proof. intros Hk. apply flush_rel_frame. intros l a Hl Ha. apply Hk. by eapply values_elem. Qed.

Lemma step_write m a p : refines m a -> exists m', step o sev m (LWrite p) = Ret (Some m') /\
  exists a', astep (fun _ => False) a (accepted_line (LWrite p)) a' /\ refines m' a'.
Proof.
  intros (O & U & F & ul & cl & [Hb Hp Hf Hl Hfi Hla Hal Hg]). unfold step. rewrite Hal. cbn [accepted_line].
  destruct (Z.leb_spec (zlen p) MsgLineSize) as [Hlen|Hlen].
  - destruct (Write_spec _ _ _ _ _ _ p Hb Hlen) as (sb & U' & F' & ul' & cl' & -> & Hw & Hc & Hk). cbn [go_bind].
    eexists; split; [done|]. eexists; split; [apply a_write|]. exists O, U', F', ul', cl'. split; try done; cbn.
    + by rewrite Hp, Hc, app_assoc.
    + intros f. apply (flush_rel_keeps (bl m) sb O); [done|apply Hf].
  - unfold Write. rewrite (proj2 (Z.ltb_lt _ _)) by lia. cbn [go_bind].
    eexists; split; [done|]. eexists; split; [apply a_write|]. exists O, U, F, ul, cl. split; try done; cbn. by rewrite app_nil_r.
Qed.

Lemma pc_set m f pc f' : pc_of (set_pc m f pc) f' = if decide (f' = f) then pc else pc_of m f'.
Proof. unfold pc_of. cbn. case_decide; subst; [by rewrite lookup_insert_eq|by rewrite lookup_insert_ne]. Qed.

Lemma step_take m a f : refines m a -> exists r, step o sev m (LTake f) = Ret r /\
  forall m', r = Some m' -> exists a', asteps (fun x => x = f) a [] a' /\ refines m' a'.
Proof.
  intros (O & U & F & ul & cl & [Hb Hp Hf Hl Hfi Hla Hal Hg]). unfold step. rewrite Hal.
  destruct (pc_of m f) eqn:Hpc; try (eexists; split; [done|by intros]).
  destruct (flush_take_spec _ _ _ _ _ _ Hb) as (sb & p & F' & l & lss & -> & Hc & Hh & Hlin & Hw & Hk & Hne). cbn [go_bind].
  eexists; split; [done|]. intros m' [= <-]. pose proof (Hf f) as Hff. rewrite Hpc in Hff. destruct Hff as [Ho Ht].
  destruct p as [tmp|].
  - exists {| pending := []; taken := <[f := pending a]> (taken a); stored := stored a |}.
    split; [apply (as_step _ _ [] _ [] _ (as_refl _ _)), a_take; done|].
    exists (<[f := l]> O), [], F', [], []. split; try done; cbn.
    + eapply wfb_perm; [|exact Hw]. by rewrite values_insert.
    + intros f'. rewrite pc_set. case_decide as Hd; subst.
      * rewrite !lookup_insert_eq. exists l, lss. by rewrite Hp, Hlin.
      * rewrite !lookup_insert_ne by done. apply (flush_rel_keeps (bl m) sb O); [done|apply Hf].
    + intros f' tmp' p' n'. rewrite pc_set. case_decide; [done|]. apply Hl.
  - destruct l; [|by destruct Hc]. apply Forall2_nil_inv_l in Hh as ->. exists a. split; [apply as_refl|].
    exists O, [], F', [], []. split; try done; cbn.
    + rewrite Hp. by rewrite <- Hlin.
    + intros f'. apply (flush_rel_keeps (bl m) sb O); [done|apply Hf].
Qed.

Lemma log_exit_spec m f U F T ul cl : wfb (bl m) U F T ul cl -> filemu m = Some f ->
  (forall f', f' <> f -> match pc_of m f' with FWriting _ _ _ | FHung => False | _ => True end) ->
  exists m', log_exit m f = Ret m' /\ broken m' /\ (concat ul ++ cl <> [] -> stuck m' f).
Proof.
  intros Hb Hfm Ho. destruct (flush_take_spec _ _ _ _ _ _ Hb) as (sb & p & F' & l & lss & Ht & Hc & Hh & Hl & _).
  unfold log_exit. rewrite Ht. cbn [go_bind]. eexists; split; [done|]. destruct p as [p|].
  - match goal with |- broken ?m /\ _ => assert (stuck m f) as Hs end; [|by split; [right; exists f|]].
    split; [|split; [done|]]; unfold pc_of; cbn; [by rewrite lookup_insert_eq|]. intros f' Hne. rewrite lookup_insert_ne by done. by apply Ho.
  - split; [by left|]. destruct l; [|by destruct Hc]. apply Forall2_nil_inv_l in Hh as ->. by rewrite <- Hl.
Qed.

(** The flush that holds the lock is the only one that writes. *)
Lemma others_idle m m' a f : refines m a -> (filemu m = None \/ filemu m = Some f) -> flushes m' = flushes m ->
  forall f', f' <> f -> match pc_of m' f' with FWriting _ _ _ | FHung => False | _ => True end.
Proof.
  intros (O & U & F & ul & cl & [_ _ Hf Hl _ _ _ _]) Hfm Ef f' Hne. unfold pc_of. rewrite Ef. fold (pc_of m f').
  specialize (Hf f'). destruct (pc_of m f') as [| |tmp p n| |] eqn:Hpc; try done. apply Hl in Hpc. destruct Hfm; congruence.
Qed.

Lemma files_frame fs fs' fl st : (forall f, f ∈ fl -> data fs' !! f = data fs !! f) ->
  Forall2 (file_holds fs) fl st -> Forall2 (file_holds fs') fl st.
Proof.
  intros Hf Hl. induction Hl as [|f x fl st Hx Hl IH]; constructor; [|apply IH; set_solver].
  destruct Hx as (now & Hx & ?). exists now. rewrite Hf; [done|]. apply elem_of_cons. by left.
Qed.

(** A rotation leaves the old files alone and starts an empty one. *)
Lemma rotate_spec m now d : gl m = g -> valid_time now ->
  exists m' ok, rotate o sev m now d = Ret (m', ok) /\ bl m' = bl m /\ flushes m' = flushes m /\ filemu m' = filemu m /\
    exited m' = exited m /\ gl m' = g /\ created m `prefix_of` created m' /\
    (ok = true -> NoDup (created m') -> last_ok m' /\ forall st, Forall2 (file_holds (fs m)) (created m) st ->
       Forall2 (file_holds (fs m')) (created m') (st ++ [[]])).
Proof.
  intros Hg Ht. unfold rotate. rewrite Hg. destruct (rotateFile_spec o g sev (fs m) now d Honce Hsev) as (fs' & lf' & err & -> & _ & Hok).
  cbn [go_bind]. do 2 eexists. split; [done|]. cbn. split_and!; try done; [by apply prefix_app_r|]. intros He Hd. destruct err; [done|].
  destruct (Hok eq_refl) as (f & Hlf & Hdata & Hnb & _). rewrite Hlf in *. cbn [option_list] in *.
  apply NoDup_app in Hd as (_ & Hd & _). pose proof (file_header_size o g now Ht) as Hsz.
  assert (0 <= header_size o g) by apply zlen_nonneg. split.
  - exists f, (file_header o g now). cbn [created lf fs]. change (option_list (Some f)) with [f]. rewrite last_snoc, Hdata, lookup_insert_eq. split_and!; try done; [|lia].
    rewrite Hnb, wrap_small; [done|]. unfold MaxSize in Hhdr. lia.
  - intros st Hf. apply Forall2_app.
    + eapply files_frame; [|exact Hf]. intros f' Hin. rewrite Hdata, lookup_insert_ne; [done|]. set_solver.
    + repeat constructor. exists now. rewrite Hdata, lookup_insert_eq. cbn [concat]. rewrite app_nil_r. split; [done|].
      unfold bufferSize. lia.
Qed.

(** The flush that has the lock goes on to another point; the blocks stay as
    they are. *)
Lemma flush_advance m m' a O U F ul cl f pc tk st : rel m a O U F ul cl -> (filemu m = None \/ filemu m = Some f) ->
  bl m' = bl m -> flushes m' = flushes m -> filemu m' = Some f -> exited m' = false -> gl m' = g ->
  Forall2 (file_holds (fs m')) (created m') st -> last_ok m' ->
  flush_rel (store (bl m)) pc (O !! f) (tk !! f) -> (forall f', f' <> f -> tk !! f' = taken a !! f') ->
  rel (set_pc m' f pc) {| pending := pending a; taken := tk; stored := st |} O U F ul cl.
Proof.
  intros [Hb Hp Hf Hl Hfi Hla Hal Hg] Hfm Eb Ef Em Ee Eg Hfiles Hlast Hpc Htk.
  assert (forall f', pc_of m' f' = pc_of m f') as Epc by (intros f'; unfold pc_of; by rewrite Ef).
  split; cbn; try done.
  - by rewrite Eb.
  - intros f'. rewrite pc_set, Eb, Epc. case_decide; subst; [done|]. rewrite Htk by done. apply Hf.
  - intros f' tmp' p' n'. rewrite pc_set, Epc. case_decide; subst; [done|]. intros Hpc'. specialize (Hl _ _ _ _ Hpc').
    destruct Hfm; congruence.
Qed.

Lemma start_writing h tmp own lines : flush_rel h (FTaken tmp) own lines -> flush_rel h (FWriting tmp (Some tmp) 0) own lines.
Proof. intros (l & lss & -> & -> & Hc & Hh). exists [], l, lss. by cbn. Qed.

Lemma step_lock m a f now d : refines m a -> valid_time now -> exists r, step o sev m (LLock f now d) = Ret r /\
  forall m', r = Some m' -> NoDup (created m') -> broken m' \/ exists a', asteps (fun x => x = f) a [] a' /\ refines m' a'.
Proof.
  intros (O & U & F & ul & cl & Hrel) Ht. pose proof Hrel as [Hb Hp Hf Hl Hfi Hla Hal Hg]. unfold step. rewrite Hal.
  destruct (pc_of m f) as [|tmp| | |] eqn:Hpc; try (eexists; split; [done|by intros]).
  pose proof (Hf f) as Hff. rewrite Hpc in Hff.
  destruct (filemu m) eqn:Hfm; [eexists; split; [done|by intros]|]. unfold flush_lock. cbn [lf set_filemu].
  destruct (YearDay now =? yearday (lf m)).
  - cbn [go_bind]. eexists; split; [done|]. intros m' [= <-] _. right. exists a. split; [apply as_refl|].
    exists O, U, F, ul, cl. replace a with {| pending := pending a; taken := taken a; stored := stored a |} by by destruct a.
    apply (flush_advance m _ a); try done; [by left|]. by apply start_writing.
  - destruct (rotate_spec (set_filemu m (Some f)) now d) as (m1 & ok & -> & Eb & Ef & Em & Ee & Eg & _ & Hok); [done..|].
    cbn [go_bind]. destruct ok.
    + cbn [go_bind]. eexists; split; [done|]. intros m' [= <-] Hd. right. destruct (Hok eq_refl Hd) as [Hlast Hfiles].
      exists {| pending := pending a; taken := taken a; stored := stored a ++ [[]] |}.
      split; [apply (as_step _ _ [] _ [] _ (as_refl _ _)), a_rotate|]. exists O, U, F, ul, cl.
      apply (flush_advance m _ a); try done; [by left|by rewrite Ee|by apply Hfiles|]. by apply start_writing.
    + destruct (log_exit_spec m1 f U F (values O) ul cl) as (m2 & -> & Hbr & _); [by rewrite Eb|done|..].
      { eapply others_idle; [exists O, U, F, ul, cl; exact Hrel|by left|done]. }
      cbn [go_bind]. eexists; split; [done|]. intros m' [= <-] _. by left.
Qed.

Lemma Forall2_last_inv {A B} (P : A -> B -> Prop) l k x : Forall2 P l k -> last l = Some x ->
  exists l' k' y, l = l' ++ [x] /\ k = k' ++ [y].
Proof.
  intros Hf (l' & ->)%last_Some. apply Forall2_app_inv_l in Hf as (k1 & k2 & _ & H2 & ->).
  inversion H2 as [|? y ? ? _ Hn]; subst. inversion Hn; subst. by eexists _, _, _.
Qed.

(** A block goes to the end of the current file. *)
Lemma store_block fs fs' cs f0 st cur ls x : Forall2 (file_holds fs) (cs ++ [f0]) (st ++ [cur]) -> NoDup (cs ++ [f0]) ->
  data fs !! f0 = Some x -> zlen x <= MaxSize -> zlen (concat ls) <= bufferSize ->
  data fs' !! f0 = Some (x ++ concat ls) -> (forall f, f <> f0 -> data fs' !! f = data fs !! f) ->
  Forall2 (file_holds fs') (cs ++ [f0]) (st ++ [cur ++ ls]).
Proof.
  intros Hf Hd Hx Hsz Hls Hx' Hk. apply NoDup_app in Hd as (_ & Hd & _).
  apply Forall2_app_inv_l in Hf as (st1 & st2 & Hf1 & Hf2 & E). inversion Hf2 as [|? cur' ? ? Hcur Hn]; subst.
  inversion Hn; subst. apply app_inj_tail in E as [-> ->]. apply Forall2_app.
  - eapply files_frame; [|exact Hf1]. intros f Hin. apply Hk. set_solver.
  - repeat constructor. destruct Hcur as (now & Hc & _). exists now.
    assert (x = file_header o g now ++ concat cur') as -> by congruence.
    rewrite Hx', concat_app, <- app_assoc. split; [done|]. rewrite app_assoc, zlen_app. lia.
Qed.

Lemma step_block m a f w now d : refines m a -> valid_time now -> exists r, step o sev m (LBlock f w now d) = Ret r /\
  forall m', r = Some m' -> NoDup (created m') -> broken m' \/ exists a', asteps (fun x => x = f) a [] a' /\ refines m' a'.
Proof.
  intros (O & U & F & ul & cl & Hrel) Ht. pose proof Hrel as [Hb Hp Hf Hl Hfi Hla Hal Hg]. unfold step. rewrite Hal.
  destruct (pc_of m f) as [| |tmp [p|] n| |] eqn:Hpc; try (eexists; split; [done|by intros]).
  assert (filemu m = Some f) as Hfm by by eapply Hl. assert (refines m a) as Href by (by exists O, U, F, ul, cl).
  pose proof (Hf f) as Hff. rewrite Hpc in Hff. destruct Hff as (dn & l & lss & HO & HT & Hc & Hcp & Hn & Hh).
  destruct l as [|p' l]; [by cbn in Hcp|]. destruct Hcp as ([= <-] & blk & Hblk & Hcp).
  apply Forall2_cons_inv_l in Hh as (ls & lss' & (blk' & Hblk' & Hct & Hpos) & Hh & ->). rewrite Hblk in Hblk'. injection Hblk' as <-.
  unfold flush_block. unfold deref at 1. rewrite Hblk. cbn [go_bind]. rewrite (proj2 (Z.leb_le _ _)) by lia.
  destruct Hla as (f0 & x & Hlast & Hlf & Hx & Hnb & Hsz). rewrite Hlf.
  destruct (block_write_spec (fs m) f0 (b blk) (pos blk) w x) as (fs' & err & -> & _ & Hw); [lia|done|]. cbn [go_bind].
  destruct err.
  { destruct (log_exit_spec (set_fs m fs' (nbytes (lf m))) f U F (values O) ul cl) as (m2 & -> & Hbr & _); [done..|by eapply others_idle; eauto|].
    cbn [go_bind]. eexists; split; [done|]. intros m' [= <-] _. by left. }
  destruct (Hw eq_refl) as [Hx' Hk]. fold (contents blk) in Hx'. rewrite Hct in Hx'.
  assert (zlen (concat ls) = pos blk) as Hlen by (rewrite <- Hct; apply contents_len; lia).
  assert (u64 (nbytes (lf m) + u64 (pos blk)) = zlen (x ++ concat ls)) as Hnb'.
  { pose proof (zlen_nonneg x). rewrite zlen_app, Hlen, Hnb. unfold bufferSize, MaxSize in *.
    rewrite (wrap_small 64 (pos blk)) by lia. apply wrap_small. lia. }
  cbn [lf set_fs nbytes]. rewrite Hnb'.
  assert (flush_rel (store (bl m)) (FWriting tmp (next blk) (n + 1)) (O !! f) (<[f := concat lss']> (taken a) !! f)) as Hnext.
  { rewrite lookup_insert_eq. exists (dn ++ [p]), l, lss'. rewrite <- app_assoc. split_and!; try done. rewrite zlen_app, Hn. done. }
  destruct (Forall2_last_inv _ _ _ _ Hfi Hlast) as (cs & st & cur & Hcs & Hst).
  assert (astep (fun y => y = f) a [] {| pending := pending a; taken := <[f := concat lss']> (taken a); stored := st ++ [cur ++ ls] |})
    as Hstore by (by apply a_store).
  assert (forall f', f' <> f -> <[f := concat lss']> (taken a) !! f' = taken a !! f') as Htk by (intros; by rewrite lookup_insert_ne).
  assert (NoDup (created m) -> Forall2 (file_holds fs') (created m) (st ++ [cur ++ ls])) as Hfiles.
  { rewrite Hcs, Hst in *. intros Hd. eapply store_block; [exact Hfi|done|exact Hx|done|lia|done|done]. }
  destruct (Z.ltb_spec MaxSize (zlen (x ++ concat ls))) as [Hmax|Hmax].
  - destruct (rotate_spec (set_fs m fs' (zlen (x ++ concat ls))) now d) as (m1 & ok & -> & Eb & Ef & Em & Ee & Eg & Hpre & Hok); [done..|].
    cbn [go_bind]. destruct ok.
    + cbn [go_bind]. eexists; split; [done|]. intros m' [= <-] Hd. right. destruct (Hok eq_refl Hd) as [Hlast' Hfiles'].
      eexists. split; [eapply (as_step _ _ [] _ [] _); [apply (as_step _ _ [] _ [] _ (as_refl _ _)), Hstore|apply a_rotate]|].
      exists O, U, F, ul, cl. apply (flush_advance m _ a); try done; [by right|by rewrite Em|by rewrite Ee|].
      apply Hfiles', Hfiles. destruct Hpre as [ys Hpre]. cbn in Hd. rewrite Hpre in Hd. by apply NoDup_app in Hd as [Hd _].
    + destruct (log_exit_spec m1 f U F (values O) ul cl) as (m2 & -> & Hbr & _); [by rewrite Eb|by rewrite Em|by eapply others_idle; eauto|].
      cbn [go_bind]. eexists; split; [done|]. intros m' [= <-] _. by left.
  - cbn [go_bind]. eexists; split; [done|]. intros m' [= <-] Hd. right.
    eexists. split; [apply (as_step _ _ [] _ [] _ (as_refl _ _)), Hstore|].
    exists O, U, F, ul, cl. apply (flush_advance m _ a); try done; [by right|by apply Hfiles|].
    exists f0, (x ++ concat ls). cbn [created set_fs]. by rewrite Hcs, last_snoc.
Qed.

Lemma step_unlock m a f : refines m a -> exists r, step o sev m (LUnlock f) = Ret r /\
  forall m', r = Some m' -> refines m' a.
Proof.
  intros (O & U & F & ul & cl & [Hb Hp Hf Hl Hfi Hla Hal Hg]). unfold step. rewrite Hal.
  destruct (pc_of m f) as [| |tmp [p|] n| |] eqn:Hpc; try (eexists; split; [done|by intros]).
  eexists; split; [done|]. intros m' [= <-]. exists O, U, F, ul, cl. split; try done; cbn.
  - intros f'. rewrite pc_set. case_decide; subst; [|apply Hf]. pose proof (Hf f) as Hff. rewrite Hpc in Hff.
    destruct Hff as (dn & l & lss & HO & HT & Hc & Hcp & Hn & Hh). destruct l; [|by destruct Hcp].
    apply Forall2_nil_inv_l in Hh as ->. rewrite app_nil_r in *. by exists dn.
  - intros f' tmp' p' n'. rewrite pc_set. case_decide; [done|]. intros Hpc'.
    specialize (Hl _ _ _ _ Hpc') as E1. specialize (Hl _ _ _ _ Hpc) as E2. congruence.
Qed.

Lemma step_recycle m a f : refines m a -> exists r, step o sev m (LRecycle f) = Ret r /\
  forall m', r = Some m' -> exists a', asteps (fun x => x = f) a [] a' /\ refines m' a'.
Proof.
  intros (O & U & F & ul & cl & [Hb Hp Hf Hl Hfi Hla Hal Hg]). unfold step. rewrite Hal.
  destruct (pc_of m f) as [| | |tmp n|] eqn:Hpc; try (eexists; split; [done|by intros]).
  pose proof (Hf f) as Hff. rewrite Hpc in Hff. destruct Hff as (l & HO & HT & Hc & ->).
  assert (wfb (bl m) U F (l ++ values (delete f O)) ul cl) as Hb' by (eapply wfb_perm; [by apply values_delete|done]).
  destruct (flush_recycle_spec _ _ _ _ _ _ tmp l Hb' Hc) as (sb & F' & -> & Hw & Hk). cbn [go_bind].
  eexists; split; [done|]. intros m' [= <-].
  exists {| pending := pending a; taken := delete f (taken a); stored := stored a |}.
  split; [by apply (as_step _ _ [] _ [] _ (as_refl _ _)), a_done|].
  exists (delete f O), U, F', ul, cl. split; try done; cbn.
  - intros f'. rewrite pc_set. case_decide; subst; [by rewrite !lookup_delete_eq|].
    apply (flush_rel_keeps (bl m) sb (delete f O)); [done|]. rewrite !lookup_delete_ne by done. apply Hf.
  - intros f' tmp' p' n'. rewrite pc_set. case_decide; [done|]. apply Hl.
Qed.

(** The flush a step belongs to, and the times it may see. *)
Definition acts (l : label) (f : nat) : Prop :=
  match l with
  | LWrite _ => False
  | LTake f' | LLock f' _ _ | LBlock f' _ _ _ | LUnlock f' | LRecycle f' => f = f'
  end.

Definition label_ok (l : label) : Prop :=
  match l with LLock _ now _ | LBlock _ _ now _ => valid_time now | _ => True end.

Lemma asteps_mono (A B : nat -> Prop) a ls a' : (forall f, A f -> B f) -> asteps A a ls a' -> asteps B a ls a'.
Proof.
  intros HAB. induction 1 as [a|a1 l1 a2 l2 a3 Hs IH Hst]; [apply as_refl|]. eapply as_step; [exact IH|].
  destruct Hst; econstructor; eauto.
Qed.

Lemma asteps_trans A a1 l1 a2 l2 a3 : asteps A a1 l1 a2 -> asteps A a2 l2 a3 -> asteps A a1 (l1 ++ l2) a3.
Proof.
  intros H1 H2. induction H2 as [a|a2 l2 a3 l3 a4 Hs IH Hst]; [by rewrite app_nil_r|].
  rewrite app_assoc. by eapply as_step; [apply IH|].
Qed.

(** One step of the machine is a few steps of the specification. *)
Lemma step_refines m a l : refines m a -> label_ok l -> exists r, step o sev m l = Ret r /\
  forall m', r = Some m' -> NoDup (created m') ->
    broken m' \/ exists a', asteps (acts l) a (accepted_line l) a' /\ refines m' a'.
Proof.
  intros Hr Hl. destruct l as [p|f|f now d|f w now d|f|f].
  - destruct (step_write m a p Hr) as (m1 & -> & a' & Ha & Hr'). eexists; split; [done|]. intros m' [= <-] _. right.
    exists a'. split; [|done]. rewrite <- (app_nil_l (accepted_line _)). eapply as_step; [apply as_refl|done].
  - destruct (step_take m a f Hr) as (r & -> & Ha). exists r. split; [done|]. intros m' Hm _. right. by apply Ha.
  - destruct (step_lock m a f now d Hr Hl) as (r & -> & Ha). by exists r.
  - destruct (step_block m a f w now d Hr Hl) as (r & -> & Ha). by exists r.
  - destruct (step_unlock m a f Hr) as (r & -> & Ha). exists r. split; [done|]. intros m' Hm _. right.
    exists a. split; [apply as_refl|by apply Ha].
  - destruct (step_recycle m a f Hr) as (r & -> & Ha). exists r. split; [done|]. intros m' Hm _. right. by apply Ha.
Qed.

(** ** After an error *)

Lemma step_stuck m l m' f : stuck m f -> step o sev m l = Ret (Some m') ->
  stuck m' f /\ fs m' = fs m /\ exited m' = exited m.
Proof.
  intros (Hpc & Hfm & Ho). unfold step. destruct (exited m) eqn:He; [done|]. destruct l as [p|f'|f' now d|f' w now d|f'|f'].
  - destruct (Write (bl m) p) as [[sb ?]|]; [|done]. by intros [= <-].
  - destruct (decide (f' = f)) as [->|Hne]; [by rewrite Hpc|]. destruct (pc_of m f') eqn:Hp; try done.
    destruct (flush_take (bl m)) as [[sb [tmp|]]|]; [|by intros [= <-]|done]. intros [= <-]. split; [|done].
    split; [by rewrite pc_set, decide_False by congruence|]. split; [done|]. intros f'' Hf''. rewrite pc_set. case_decide; [done|by apply Ho].
  - rewrite Hfm. by destruct (pc_of m f').
  - destruct (decide (f' = f)) as [->|Hne]; [by rewrite Hpc|]. specialize (Ho f' Hne). by destruct (pc_of m f').
  - destruct (decide (f' = f)) as [->|Hne]; [by rewrite Hpc|]. specialize (Ho f' Hne). by destruct (pc_of m f').
  - destruct (decide (f' = f)) as [->|Hne]; [by rewrite Hpc|]. destruct (pc_of m f') eqn:Hp; try done.
    destruct (flush_recycle (bl m) _ _) as [sb|]; [|done]. intros [= <-]. split; [|done].
    split; [by rewrite pc_set, decide_False by congruence|]. split; [done|]. intros f'' Hf''. rewrite pc_set. case_decide; [done|by apply Ho].
Qed.

Lemma run_stuck ls : forall m m' f, stuck m f -> run o sev m ls = Ret (Some m') ->
  stuck m' f /\ fs m' = fs m /\ exited m' = exited m.
Proof.
  induction ls as [|l ls IH]; intros m m' f Hs; cbn; [by intros [= <-]|].
  destruct (step o sev m l) as [[m1|]|] eqn:Hst; cbn; try done. intros Hr.
  destruct (step_stuck m l m1 f Hs Hst) as (Hs1 & E1 & E2). destruct (IH m1 m' f Hs1 Hr) as (? & -> & ->). done.
Qed.

(** ** Runs *)

Lemma rotate_created m now d m' ok : rotate o sev m now d = Ret (m', ok) -> created m `prefix_of` created m'.
Proof.
  unfold rotate. destruct (rotateFile _ _ _ _ _ _) as [[[[g' fs'] lf'] err]|]; cbn; [|done].
  intros [= <- _]. cbn. by apply prefix_app_r.
Qed.

Lemma log_exit_created m f m' : log_exit m f = Ret m' -> created m' = created m.
Proof. unfold log_exit. destruct (flush_take (bl m)) as [[sb tmp]|]; cbn; [|done]. by intros [= <-]. Qed.

(** Files are only added. *)
Lemma step_created m l m' : step o sev m l = Ret (Some m') -> created m `prefix_of` created m'.
Proof.
  unfold step. destruct (exited m); [done|]. destruct l as [p|f|f now d|f w now d|f|f].
  - destruct (Write (bl m) p) as [[sb ?]|]; [|done]. by intros [= <-].
  - destruct (pc_of m f); try done. destruct (flush_take (bl m)) as [[sb [tmp|]]|]; try done; by intros [= <-].
  - destruct (pc_of m f), (filemu m); try done. unfold flush_lock. case_match; [by intros [= <-]|].
    destruct (rotate _ _ _ _ _) as [[m1 ok]|] eqn:Hr; cbn; [|done]. apply rotate_created in Hr. destruct ok; cbn; [by intros [= <-]|].
    destruct (log_exit m1 f) as [m2|] eqn:He; cbn; [|done]. apply log_exit_created in He. intros [= <-]. by rewrite He.
  - destruct (pc_of m f) as [| |tmp [p|] n| |]; try done. unfold flush_block. destruct (deref _ _) as [blk|]; cbn [go_bind]; [|done].
    destruct (write_loop _ _ _ _ _ _ _) as [[fs' [|]]|]; cbn [go_bind]; [| |done].
    + destruct (log_exit _ f) as [m2|] eqn:He; cbn; [|done]. apply log_exit_created in He. intros [= <-]. by rewrite He.
    + case_match; [|by intros [= <-]]. destruct (rotate _ _ _ _ _) as [[m1 ok]|] eqn:Hr; cbn; [|done]. apply rotate_created in Hr.
      destruct ok; cbn; [by intros [= <-]|].
      destruct (log_exit m1 f) as [m2|] eqn:He; cbn; [|done]. apply log_exit_created in He. intros [= <-]. by rewrite He.
  - destruct (pc_of m f) as [| |tmp [p|] n| |]; try done. by intros [= <-].
  - destruct (pc_of m f); try done. destruct (flush_recycle _ _ _) as [sb|]; cbn; [|done]. by intros [= <-].
Qed.

Lemma run_created ls : forall m m', run o sev m ls = Ret (Some m') -> created m `prefix_of` created m'.
Proof.
  induction ls as [|l ls IH]; intros m m'; cbn; [by intros [= <-]|].
  destruct (step o sev m l) as [[m1|]|] eqn:Hs; cbn; try done. intros Hr. apply step_created in Hs. etrans; [exact Hs|by apply IH].
Qed.

Lemma NoDup_prefix {A} (l k : list A) : l `prefix_of` k -> NoDup k -> NoDup l.
Proof. intros [r ->] Hd. by apply NoDup_app in Hd as [Hd _]. Qed.

Lemma run_broken ls m m' : broken m -> run o sev m ls = Ret (Some m') -> broken m'.
Proof.
  intros [He|[f Hs]] Hr; [|right; exists f; by apply (run_stuck ls m)]. left. destruct ls as [|l ls]; cbn in Hr; [by simplify_eq|].
  unfold step in Hr. by rewrite He in Hr.
Qed.

Lemma run_refines ls : forall m a m', refines m a -> Forall label_ok ls -> run o sev m ls = Ret (Some m') -> NoDup (created m') ->
  broken m' \/ exists a', asteps (fun f => Exists (fun l => acts l f) ls) a (accepted ls) a' /\ refines m' a'.
Proof.
  induction ls as [|l ls IH]; intros m a m' Hr Hok; cbn; [intros [= <-] _; right; exists a; split; [apply as_refl|done]|].
  apply Forall_cons in Hok as [Hl Hok]. destruct (step_refines m a l Hr Hl) as (r & -> & Hs). cbn [go_bind].
  destruct r as [m1|]; [|done]. intros Hrun Hd. assert (NoDup (created m1)) as Hd1 by (eapply NoDup_prefix; [by eapply run_created|done]).
  destruct (Hs m1 eq_refl Hd1) as [Hb|(a1 & Ha1 & Hr1)]; [left; by eapply run_broken|].
  destruct (IH m1 a1 m' Hr1 Hok Hrun Hd) as [Hb|(a2 & Ha2 & Hr2)]; [by left|]. right. exists a2. split; [|done].
  eapply asteps_trans; eapply asteps_mono; [|exact Ha1| |exact Ha2]; intros f Hf; [by apply Exists_cons_hd|by apply Exists_cons_tl].
Qed.

Definition empty_log : alog := {| pending := []; taken := ∅; stored := [[]] |}.

Lemma open_log_refines g0 fs0 t0 d0 m : once_dirs o g0 = g -> valid_time t0 -> open_log o sev g0 fs0 t0 d0 = Ret (inl m) ->
  refines m empty_log.
Proof.
  intros Hg Ht. unfold open_log. rewrite <- rotateFile_once, Hg.
  destruct (rotateFile_spec o g sev fs0 t0 d0 Honce Hsev) as (fs' & lf' & err & -> & _ & Hok). cbn [go_bind].
  destruct err; [done|]. intros [= <-]. destruct (Hok eq_refl) as (f & Hlf & Hdata & Hnb & _).
  pose proof (file_header_size o g t0 Ht) as Hsz. assert (0 <= header_size o g) by apply zlen_nonneg.
  exists ∅, [], [], [], []. split; try done; cbn [bl lf fs gl created filemu].
  - apply new_blocks_wfb.
  - rewrite Hlf. repeat constructor. exists t0. rewrite Hdata, lookup_insert_eq. cbn [concat]. rewrite app_nil_r. split; [done|].
    unfold bufferSize. lia.
  - exists f, (file_header o g t0). cbn [created lf fs]. rewrite Hlf, Hdata, lookup_insert_eq, Hnb. split_and!; try done; [|lia].
    apply wrap_small. unfold MaxSize in Hhdr. lia.
Qed.

(** ** A flush on a good disk *)

Definition has_file (m : logbuf) : Prop := exists f x, file (lf m) = Some f /\ data (fs m) !! f = Some x.

(** What the steps of a flush leave alone. *)
Definition only_files (f : nat) (m m' : logbuf) : Prop :=
  bl m' = bl m /\ filemu m' = filemu m /\ exited m' = exited m /\ gl m' = gl m /\ has_file m' /\
  forall f', f' <> f -> pc_of m' f' = pc_of m f'.

Lemma rotate_good m now d : good_disk d -> logDirs g <> [] -> gl m = g ->
  exists m', rotate o sev m now d = Ret (m', true) /\ (forall f, only_files f m m') /\ flushes m' = flushes m.
Proof.
  intros Hd Hdirs Hg. unfold rotate. rewrite Hg.
  destruct (rotateFile_good o g sev (fs m) now d Honce Hdirs Hsev Hd) as (fs' & lf' & f & x & -> & Hlf & Hx). cbn [go_bind].
  eexists; split; [done|]. split; [|done]. intros f'. split_and!; try done. by exists f, x.
Qed.

Lemma only_files_pc f m m' pc : only_files f m m' -> only_files f m (set_pc m' f pc) /\ pc_of (set_pc m' f pc) f = pc.
Proof.
  intros (? & ? & ? & ? & ? & Hpc). rewrite pc_set, decide_True by done. split; [|done]. split_and!; try done.
  intros f' Hne. rewrite pc_set, decide_False by done. by apply Hpc.
Qed.

Lemma lock_good m f tmp now d : good_disk d -> logDirs g <> [] -> pc_of m f = FTaken tmp -> filemu m = None ->
  exited m = false -> gl m = g -> has_file m ->
  exists m', step o sev m (LLock f now d) = Ret (Some m') /\ pc_of m' f = FWriting tmp (Some tmp) 0 /\
    only_files f (set_filemu m (Some f)) m'.
Proof.
  intros Hd Hdirs Hpc Hfm He Hg Hfile. unfold step. rewrite He, Hpc, Hfm. unfold flush_lock. case_match.
  - cbn [go_bind]. eexists; split; [done|]. apply and_comm, only_files_pc. by split_and!.
  - destruct (rotate_good (set_filemu m (Some f)) now d Hd Hdirs Hg) as (m1 & -> & Hof & _). cbn [go_bind].
    eexists; split; [done|]. apply and_comm, only_files_pc, Hof.
Qed.

Lemma block_good m f tmp p n blk now d : good_disk d -> logDirs g <> [] -> pc_of m f = FWriting tmp (Some p) n ->
  exited m = false -> gl m = g -> has_file m -> store (bl m) !! p = Some blk -> 0 <= pos blk <= bufferSize ->
  exists m', step o sev m (LBlock f WFull now d) = Ret (Some m') /\ pc_of m' f = FWriting tmp (next blk) (n + 1) /\
    only_files f m m'.
Proof.
  intros Hd Hdirs Hpc He Hg (f0 & x & Hlf & Hx) Hb Hpos. unfold step. rewrite He, Hpc. unfold flush_block, deref. rewrite Hb.
  cbn [go_bind]. rewrite (proj2 (Z.leb_le _ _)) by lia. rewrite Hlf.
  destruct (block_write_spec (fs m) f0 (b blk) (pos blk) WFull x) as (fs' & err & -> & Herr & Hw); [lia|done|]. cbn [go_bind].
  rewrite (Herr eq_refl) in *. destruct (Hw eq_refl) as [Hx' _].
  set (m1 := set_fs m fs' (u64 (nbytes (lf m) + u64 (pos blk)))).
  assert (forall f, only_files f m m1) as Hm1 by (intros; split_and!; try done; by eexists _, _).
  case_match.
  - destruct (rotate_good m1 now d Hd Hdirs Hg) as (m2 & -> & Hof & _). cbn [go_bind]. eexists; split; [done|].
    apply and_comm, only_files_pc. apply (Hof f).
  - cbn [go_bind]. eexists; split; [done|]. apply and_comm, only_files_pc, Hm1.
Qed.

(** The loop: a round for each block left. *)
Lemma run_blocks f tmp d (nows : nat -> time) : good_disk d -> logDirs g <> [] -> forall l i m p n,
  pc_of m f = FWriting tmp p n -> exited m = false -> gl m = g -> has_file m -> chain (store (bl m)) p l ->
  (forall a, a ∈ l -> exists blk, store (bl m) !! a = Some blk /\ 0 <= pos blk <= bufferSize) ->
  exists m', run o sev m ((fun k => LBlock f WFull (nows k) d) <$> seq i (length l)) = Ret (Some m') /\
    pc_of m' f = FWriting tmp None (n + zlen l) /\ only_files f m m'.
Proof.
  intros Hd Hdirs. induction l as [|a l IH]; intros i m p n Hpc He Hg Hfile Hc Hb.
  - cbn in Hc. subst. exists m. cbn. rewrite Z.add_0_r. by split_and!.
  - destruct Hc as (-> & blk & Ha & Hc). destruct (Hb a ltac:(set_solver)) as (blk' & Ha' & Hpos). rewrite Ha in Ha'. injection Ha' as <-.
    destruct (block_good m f tmp a n blk (nows i) d) as (m1 & Hs & Hpc1 & (Eb & Em & Ee & Eg & Hf1 & Ho1)); try done.
    cbn [length seq fmap list_fmap run]. rewrite Hs. cbn [go_bind].
    destruct (IH (S i) m1 (next blk) (n + 1)) as (m2 & Hr & Hpc2 & (Eb2 & Em2 & Ee2 & Eg2 & Hf2 & Ho2)); try done.
    { by rewrite Ee. } { by rewrite Eg. } { by rewrite Eb. } { intros a' Ha'. rewrite Eb. apply Hb. set_solver. }
    exists m2. split; [exact Hr|]. split; [rewrite Hpc2, zlen_cons; f_equal; lia|].
    split_and!; try congruence. intros f' Hne. rewrite Ho2, Ho1; done.
Qed.

Lemma run_app l1 l2 : forall m, run o sev m (l1 ++ l2) =
  (let! r := run o sev m l1 in match r with Some m' => run o sev m' l2 | None => Ret None end).
Proof.
  induction l1 as [|l l1 IH]; intros m; cbn; [done|]. destruct (step o sev m l) as [[m1|]|]; cbn; try done.
Qed.

Definition empty_buffer (sb : blocks) : Prop :=
  usedblock sb = None /\ exists cur, store sb !! curblock sb = Some cur /\ pos cur = 0.

Lemma wfb_empty sb F T : wfb sb [] F T [] [] -> empty_buffer sb.
Proof.
  intros [Hu _ _ _ _ (cur & Hc & Hct & Hpos) _ _ _ _]. split; [done|]. exists cur. split; [done|].
  rewrite <- contents_len, Hct by lia. done.
Qed.

Lemma empty_wfb sb U F T ul cl : empty_buffer sb -> wfb sb U F T ul cl -> concat ul ++ cl = [].
Proof.
  intros (Eu & cur & Ec & Ep) [Hu Hfull _ _ _ (cur' & Hc & Hct & Hpos) _ Hlines _ _]. rewrite Eu in Hu.
  destruct U; [|by destruct Hu]. apply Forall2_nil_inv_l in Hfull as ->. rewrite Ec in Hc. injection Hc as <-.
  destruct cl as [|p cl]; [done|]. apply Forall_cons in Hlines as [Hp _]. rewrite <- contents_len, Hct in Ep by lia.
  cbn in Ep. rewrite zlen_app in Ep. pose proof (zlen_pos p Hp). pose proof (zlen_nonneg (concat cl)). lia.
Qed.

(** The steps of a flush of [n] blocks. *)
Definition flush_labels (f n : nat) (nows : nat -> time) (d : disk) : list label :=
  match n with
  | O => [LTake f]
  | S _ => LTake f :: LLock f (nows 0%nat) d :: ((fun k => LBlock f WFull (nows k) d) <$> seq 1 n) ++ [LUnlock f; LRecycle f]
  end.

(** [Flush] returns, with an empty buffer and no lock held. *)
Lemma flush_good m a f nows d : refines m a -> good_disk d -> logDirs g <> [] -> filemu m = None -> pc_of m f = FIdle ->
  exists n m', run o sev m (flush_labels f n nows d) = Ret (Some m') /\ pc_of m' f = FIdle /\ filemu m' = None /\
    exited m' = false /\ empty_buffer (bl m') /\ forall f', f' <> f -> pc_of m' f' = pc_of m f'.
Proof.
  intros (O & U & F & ul & cl & [Hb Hp Hf Hl Hfi (f0 & x & _ & Hlf & Hx & _) He Hg]) Hd Hdirs Hfm Hpc.
  destruct (flush_take_spec _ _ _ _ _ _ Hb) as (sb & p & F' & l & lss & Htake & Hc & Hh & _ & Hw & _).
  destruct p as [tmp|].
  2: { destruct l; [|by destruct Hc]. exists 0%nat, (set_bl m sb). cbn. unfold step. rewrite He, Hpc, Htake. cbn.
    split_and!; try done. by eapply wfb_empty. }
  destruct l as [|t l]; [by cbn in Hc|]. set (m1 := set_pc (set_bl m sb) f (FTaken tmp)).
  assert (pc_of m1 f = FTaken tmp) as Hpc1 by (unfold m1; by rewrite pc_set, decide_True).
  destruct (lock_good m1 f tmp (nows 0%nat) d) as (m2 & Hs2 & Hpc2 & (Eb2 & Em2 & Ee2 & Eg2 & Hf2 & Ho2)); try done.
  { by exists f0, x. }
  destruct (run_blocks f tmp d nows Hd Hdirs (t :: l) 1 m2 (Some tmp) 0) as (m3 & Hr3 & Hpc3 & (Eb3 & Em3 & Ee3 & Eg3 & Hf3 & Ho3)); try done.
  { by rewrite Ee2. } { by rewrite Eg2. } { by rewrite Eb2. }
  { intros a' Ha'. rewrite Eb2. apply list_elem_of_lookup in Ha' as [i Hi].
    destruct (Forall2_lookup_l _ _ _ _ _ Hh Hi) as (ls & _ & blk & ? & _ & ?). by exists blk. }
  rewrite Z.add_0_l in Hpc3. assert (bl m3 = sb) as E3 by (rewrite Eb3, Eb2; done).
  destruct (flush_recycle_spec sb _ _ _ _ _ tmp (t :: l) Hw Hc) as (sb' & F'' & Hrec & Hw' & _).
  exists (length (t :: l)), (set_pc (set_bl (set_pc (set_filemu m3 None) f (FUnlocked tmp (zlen (t :: l)))) sb') f FIdle).
  split.
  - unfold flush_labels. cbn [length]. change (S (length l)) with (length (t :: l)). cbn [run]. unfold step at 1. rewrite He, Hpc, Htake.
    cbn [go_bind]. fold m1. rewrite Hs2. cbn [go_bind]. rewrite run_app, Hr3. cbn [go_bind run]. unfold step at 1.
    rewrite Ee3, Ee2. cbn [exited m1 set_filemu set_pc set_bl]. rewrite He, Hpc3. cbn [go_bind]. unfold step.
    rewrite pc_set, decide_True by done. cbn [exited bl set_pc set_filemu]. rewrite Ee3, Ee2. cbn [exited m1 set_filemu set_pc set_bl].
    by rewrite He, E3, Hrec.
  - rewrite pc_set, decide_True by done. split_and!; try done; [cbn; by rewrite Ee3, Ee2|by eapply wfb_empty|].
    intros f' Hne. rewrite pc_set, decide_False by done. change (pc_of (set_pc (set_filemu m3 None) f (FUnlocked tmp (zlen (t :: l)))) f' = pc_of m f').
    rewrite pc_set, decide_False by done. change (pc_of m3 f' = pc_of m f'). rewrite Ho3, Ho2 by done. unfold m1.
    change (pc_of (set_pc (set_bl m sb) f (FTaken tmp)) f' = pc_of m f'). by rewrite pc_set, decide_False.
Qed.

End refinement.

(** ** The theorems *)

(** A buffer is opened and its steps [ls] lead to [m]. *)
Definition log_run (o : machine) (sev : Z) (g0 : globals) (fs0 : fsys) (t0 : time) (d0 : disk) (ls : list label) (m : logbuf) : Prop :=
  exists m0, open_log o sev g0 fs0 t0 d0 = Ret (inl m0) /\ run o sev m0 ls = Ret (Some m).

Lemma log_run_refines o sev g0 fs0 t0 d0 ls m : 0 <= sev < numSeverity -> header_size o (once_dirs o g0) <= MaxSize ->
  valid_time t0 -> Forall label_ok ls -> log_run o sev g0 fs0 t0 d0 ls m -> NoDup (created m) ->
  broken m \/ exists a, asteps (fun f => Exists (fun l => acts l f) ls) empty_log (accepted ls) a /\ refines o (once_dirs o g0) m a.
Proof.
  intros Hs Hh Ht Hok (m0 & Ho & Hr) Hd. eapply run_refines; try done; [apply once_dirs_done|]. by eapply open_log_refines; [..|exact Ho]; try done; apply once_dirs_done.
Qed.

Lemma values_one {A} (M : gmap nat (list A)) f0 : (forall f, is_Some (M !! f) -> f = f0) -> values M = default [] (M !! f0).
Proof.
  intros Hf. destruct (M !! f0) as [x|] eqn:Hx.
  - assert (M = {[f0 := x]}) as ->.
    { apply map_eq. intros f. destruct (decide (f = f0)) as [->|Hne]; [by rewrite lookup_singleton_eq|].
      rewrite lookup_singleton_ne by done. destruct (M !! f) eqn:E; [|done]. destruct Hne. apply Hf. by eexists. }
    unfold values. rewrite map_to_list_singleton. cbn. by rewrite app_nil_r.
  - assert (M = ∅) as ->; [|done]. apply map_empty. intros f. destruct (M !! f) eqn:E; [|done].
    assert (f = f0) as -> by (apply Hf; by eexists). congruence.
Qed.

Lemma idle_nothing_taken o g m a : refines o g m a -> (forall f, pc_of m f = FIdle) -> taken a = ∅.
Proof.
  intros (O & U & F & ul & cl & [_ _ Hf _ _ _ _ _]) Hidle. apply map_empty. intros f. specialize (Hf f). rewrite Hidle in Hf. by destruct Hf.
Qed.

(** Where the accepted lines are. *)
Lemma log_lines o sev g0 fs0 t0 d0 ls m : 0 <= sev < numSeverity -> header_size o (once_dirs o g0) <= MaxSize ->
  valid_time t0 -> Forall label_ok ls -> log_run o sev g0 fs0 t0 d0 ls m -> NoDup (created m) -> ~ broken m ->
  exists files flight buffered,
    Forall2 (file_holds o (once_dirs o g0) (fs m)) (created m) files /\
    concat files ++ flight ++ buffered ≡ₚ accepted ls /\
    (forall f0, (forall l f, l ∈ ls -> acts l f -> f = f0) -> concat files ++ flight ++ buffered = accepted ls) /\
    ((forall f, pc_of m f = FIdle) -> flight = []) /\
    (empty_buffer (bl m) -> buffered = []).
Proof.
  intros Hs Hh Ht Hok Hrun Hd Hnb. destruct (log_run_refines o sev g0 fs0 t0 d0 ls m) as [?|(a & Ha & Hr)]; try done.
  exists (stored a), (values (taken a)), (pending a). pose proof Hr as (O & U & F & ul & cl & [Hb Hp _ _ Hfi _ _ _]). split_and!.
  - done.
  - apply (asteps_keep _ _ _ _ Ha).
  - intros f0 Hone. destruct (asteps_in_order f0 empty_log (accepted ls) a []) as [Hdom Hin].
    + eapply asteps_mono; [|exact Ha]. intros f (l & Hl & Hact)%Exists_exists. by eapply Hone.
    + by split; [intros f [? ?]|].
    + rewrite (values_one _ f0) by done. exact Hin.
  - intros Hidle. by rewrite (idle_nothing_taken _ _ _ _ Hr Hidle).
  - intros He. rewrite Hp. by eapply empty_wfb.
Qed.

(** C9: The log keeps its lines: as long as no file operation has failed, and the
    files created have different names, the files created so far hold a header
    and whole lines, none larger than the limit and one block; with the lines
    that flushes have taken and those still buffered they are exactly the
    accepted lines, each once, and in the order of the writes if one goroutine
    does all the flushing.  No step panics. *)
Theorem log_keeps_lines o sev g0 fs0 t0 d0 ls m : 0 <= sev < numSeverity -> header_size o (once_dirs o g0) <= MaxSize ->
  valid_time t0 -> Forall label_ok ls -> log_run o sev g0 fs0 t0 d0 ls m -> NoDup (created m) -> ~ broken m ->
  (forall l, label_ok l -> step o sev m l <> Panic) /\
  exists files flight buffered,
    Forall2 (file_holds o (once_dirs o g0) (fs m)) (created m) files /\
    concat files ++ flight ++ buffered ≡ₚ accepted ls /\
    (forall f0, (forall l f, l ∈ ls -> acts l f -> f = f0) -> concat files ++ flight ++ buffered = accepted ls) /\
    ((forall f, pc_of m f = FIdle) -> flight = []) /\
    (empty_buffer (bl m) -> buffered = []).
Proof.
  intros Hs Hh Ht Hok Hrun Hd Hnb.
  split; [|by apply (log_lines o sev g0 fs0 t0 d0)].
  destruct (log_run_refines o sev g0 fs0 t0 d0 ls m) as [?|(a & Ha & Hr)]; try done.
  intros l Hl. destruct (step_refines o sev (once_dirs o g0) Hs (once_dirs_done o g0) Hh m a l Hr Hl) as (r & -> & _). done.
Qed.

Lemma open_log_dirs o sev g0 fs0 t0 d0 m : open_log o sev g0 fs0 t0 d0 = Ret (inl m) -> logDirs (once_dirs o g0) <> [].
Proof.
  unfold open_log, rotateFile. destruct (zget severityName sev) as [tag|]; cbn [go_bind]; [|done]. unfold create.
  destruct (logDirs (once_dirs o g0)); [|done]. done.
Qed.

Lemma flush_labels_acts f n nows d l f' : l ∈ flush_labels f n nows d -> acts l f' -> f' = f.
Proof.
  unfold flush_labels. destruct n as [|n]; [intros ->%list_elem_of_singleton; done|].
  intros [->|[->|[(k & -> & _)%list_elem_of_fmap|[->|[->|?%elem_of_nil]%elem_of_cons]%elem_of_cons]%elem_of_app]%elem_of_cons]%elem_of_cons; done.
Qed.

Lemma flush_labels_ok f n nows d : (forall k, valid_time (nows k)) -> Forall label_ok (flush_labels f n nows d).
Proof.
  intros Hv. unfold flush_labels. destruct n as [|n]; [by repeat constructor|]. constructor; [done|]. constructor; [by apply Hv|].
  apply Forall_app. split; [|by repeat constructor]. apply Forall_fmap, Forall_true. intros k. apply Hv.
Qed.

Lemma accepted_flush f n nows d : accepted (flush_labels f n nows d) = [].
Proof.
  unfold accepted, flush_labels. destruct n as [|n]; [done|]. cbn. rewrite bind_app. cbn. rewrite app_nil_r.
  generalize 2%nat. induction n as [|n IH]; intros k; cbn; [done|apply IH].
Qed.

(** C35: A flush finishes and leaves nothing behind: when no other flush is under
    way, the disk works and the files created have different names, [Flush]
    returns after finitely many steps with an empty buffer and no lock held, and
    then every line accepted so far is in the files (if this flush, too, made
    none twice), in order if the same goroutine did the earlier flushes. *)
Theorem flush_stores_all o sev g0 fs0 t0 d0 ls m f nows d : 0 <= sev < numSeverity ->
  header_size o (once_dirs o g0) <= MaxSize -> valid_time t0 -> Forall label_ok ls -> log_run o sev g0 fs0 t0 d0 ls m ->
  NoDup (created m) -> ~ broken m -> (forall f', pc_of m f' = FIdle) -> filemu m = None ->
  good_disk d -> (forall k, valid_time (nows k)) ->
  exists n m', run o sev m (flush_labels f n nows d) = Ret (Some m') /\ (forall f', pc_of m' f' = FIdle) /\ filemu m' = None /\
    empty_buffer (bl m') /\
    (NoDup (created m') -> exists files, Forall2 (file_holds o (once_dirs o g0) (fs m')) (created m') files /\
       concat files ≡ₚ accepted ls /\ ((forall l f', l ∈ ls -> acts l f' -> f' = f) -> concat files = accepted ls)).
Proof.
  intros Hs Hh Ht Hok Hrun Hd Hnb Hidle Hfm Hdisk Hv.
  destruct (log_run_refines o sev g0 fs0 t0 d0 ls m) as [?|(a & Ha & Hr)]; try done.
  pose proof Hrun as (m0 & Ho & Hr0). pose proof (open_log_dirs _ _ _ _ _ _ _ Ho) as Hdirs.
  destruct (flush_good o sev (once_dirs o g0) Hs (once_dirs_done o g0) Hh m a f nows d) as (n & m' & Hrun' & Hpc & Hfm' & He & Hemp & Hoth); try done.
  assert (forall f', pc_of m' f' = FIdle) as Hidle'.
  { intros f'. destruct (decide (f' = f)) as [->|Hne]; [done|]. by rewrite Hoth. }
  exists n, m'. split_and!; try done. intros Hd'.
  destruct (log_lines o sev g0 fs0 t0 d0 (ls ++ flush_labels f n nows d) m') as (files & flight & buffered & Hfi & Hperm & Hord & Hfl & Hbu); try done.
  - apply Forall_app. split; [done|by apply flush_labels_ok].
  - exists m0. split; [done|]. by rewrite run_app, Hr0.
  - intros [Hx|[f' (_ & Hx & _)]]; congruence.
  - rewrite (Hfl Hidle'), (Hbu Hemp), !app_nil_r in *. unfold accepted in *. rewrite bind_app in *. fold (accepted ls) in *.
    fold (accepted (flush_labels f n nows d)) in *. rewrite accepted_flush, app_nil_r in *.
    exists files. split_and!; [done|done|]. intros Hone. apply (Hord f). intros l f' [Hl|Hl]%elem_of_app; [by apply Hone|].
    by eapply flush_labels_acts.
Qed.

Lemma wfb_no_lines sb U F T ul cl : wfb sb U F T ul cl -> concat ul ++ cl = [] -> empty_buffer sb.
Proof.
  intros Hw Hn. apply app_eq_nil in Hn as [Hu ->]. destruct ul as [|ls ul].
  - pose proof (wf_full _ _ _ _ _ _ Hw) as ->%Forall2_nil_inv_r. by eapply wfb_empty.
  - pose proof (wf_nonempty _ _ _ _ _ _ Hw) as [Hne _]%Forall_cons. by apply app_eq_nil in Hu as [-> _].
Qed.

Lemma write_loop_short fs f a pos k x : 0 < pos -> data fs !! f = Some x ->
  exists fs', write_loop (Z.to_nat pos) fs (Some f) a 0 pos (WShort k) = Ret (fs', true).
Proof.
  intros Hp Hx. destruct (Z.to_nat pos) as [|n] eqn:Hn; [lia|]. cbn. rewrite (proj2 (Z.ltb_lt _ _)) by done. rewrite Hx. by eexists.
Qed.

(** A failed write can hang the log for good: if a write of a block fails while
    lines are waiting in the buffer, the flush blocks inside [logger.exit] on
    the lock it holds.  Whatever happens afterwards, it stays blocked, the
    lock is never released, no byte reaches the files, and this failure does
    not end the process. *)
Theorem flush_error_hangs o sev g0 fs0 t0 d0 ls m f tmp p n blk k now d : 0 <= sev < numSeverity ->
  header_size o (once_dirs o g0) <= MaxSize -> valid_time t0 -> Forall label_ok ls -> log_run o sev g0 fs0 t0 d0 ls m ->
  NoDup (created m) -> ~ broken m ->
  pc_of m f = FWriting tmp (Some p) n -> store (bl m) !! p = Some blk -> 0 < pos blk -> ~ empty_buffer (bl m) ->
  exists m', step o sev m (LBlock f (WShort k) now d) = Ret (Some m') /\
    forall ls' m'', run o sev m' ls' = Ret (Some m'') ->
      pc_of m'' f = FHung /\ filemu m'' = Some f /\ fs m'' = fs m' /\ exited m'' = false.
Proof.
  intros Hs Hh Ht Hok Hrun Hd Hnb Hpc Hblk Hpos Hbuf.
  destruct (log_run_refines o sev g0 fs0 t0 d0 ls m) as [?|(a & Ha & Hr)]; try done.
  pose proof Hr as (O & U & F & ul & cl & [Hb Hp Hf Hl Hfi (f0 & x & _ & Hlf & Hx & _) He Hg]).
  pose proof (Hl _ _ _ _ Hpc) as Hfm. unfold step. rewrite He, Hpc. unfold flush_block, deref. rewrite Hblk. cbn [go_bind].
  set (q := if pos blk <=? bufferSize then pos blk else bufferSize).
  assert (0 < q) as Hq by (unfold q, bufferSize; case_match; lia). rewrite Hlf.
  destruct (write_loop_short (fs m) f0 (b blk) q k x Hq Hx) as (fs' & ->). cbn [go_bind].
  destruct (log_exit_spec (set_fs m fs' (nbytes (lf m))) f U F (values O) ul cl) as (m1 & Hex & _ & Hst); [done|done|by eapply others_idle; eauto|].
  rewrite Hex. cbn [go_bind]. exists m1. split; [done|]. intros ls' m'' Hrun'.
  destruct (run_stuck o sev ls' m1 m'' f) as ((H1 & H2 & _) & H3 & H4); [apply Hst; intros Hn; by apply Hbuf; eapply wfb_no_lines|done|].
  split_and!; try done. rewrite H4. unfold log_exit in Hex. destruct (flush_take _) as [[sb [q'|]]|]; cbn in Hex; simplify_eq; [done|].
  destruct (Hst ltac:(intros Hn; by apply Hbuf; eapply wfb_no_lines)) as (Hx1 & _). cbn in Hx1. unfold pc_of in Hx1, Hpc. cbn in Hx1. congruence.
Qed.

(** ** Runs on a concrete machine *)

Definition ex_machine : machine :=
  {| TempDir := str "/tmp"; Compiler := str "gc"; Version := str "go1.9"; GOOS := str "linux"; GOARCH := str "amd64" |}.
Definition ex_globals : globals :=
  {| logDirs := []; onceLogDirs := false; logDir := str "/log/"; program := str "web"; pid := 77; host := str "h"; userName := str "u";
     VERSION := str "v1"; DATE := str "d1"; glogLevel := 0 |}.
Definition ex_disk : disk := {| can_create := fun _ => true; can_remove := fun _ => true; can_link := fun _ => true; header_write := WFull |}.
Definition ex_time (s : Z) : time :=
  {| Year := 2019; Month := 3; Day := 1; Hour := 12; Minute := 0; Second := s mod 60; Nanosecond := 0; YearDay := 60 |}.
Definition ex_fs : fsys := {| data := ∅; links := ∅ |}.

Definition ex_open : logbuf :=
  match open_log ex_machine infoLog ex_globals ex_fs (ex_time 0) ex_disk with
  | Ret (inl m) => m
  | _ => {| bl := new_blocks; lf := {| file := None; nbytes := 0; yearday := 0 |}; fs := ex_fs; gl := ex_globals; filemu := None;
            flushes := ∅; exited := true; created := [] |}
  end.
Definition ex_run (ls : list label) : logbuf :=
  match run ex_machine infoLog ex_open ls with Ret (Some m) => m | _ => ex_open end.

(** Two lines before a flush and one while it writes. *)
Definition ex_labels : list label :=
  [LWrite (str "one "); LWrite (str "two "); LTake 0; LLock 0 (ex_time 1) ex_disk; LWrite (str "three ")].

Lemma ex_time_valid s : valid_time (ex_time s).
Proof. unfold valid_time, ex_time. cbn. pose proof (Z.mod_pos_bound s 60). lia. Qed.

Lemma ex_labels_ok : Forall label_ok ex_labels.
Proof. repeat constructor; apply ex_time_valid. Qed.

(** The run is possible: what is evaluated is only whether there is a result. *)
Definition run_ok (ls : list label) : bool :=
  match open_log ex_machine infoLog ex_globals ex_fs (ex_time 0) ex_disk with Ret (inl _) => true | _ => false end &&
  match run ex_machine infoLog ex_open ls with Ret (Some _) => true | _ => false end.

Lemma ex_log_run ls : run_ok ls = true ->
  log_run ex_machine infoLog ex_globals ex_fs (ex_time 0) ex_disk ls (ex_run ls).
Proof.
  unfold run_ok. intros [Ho Hr]%andb_true_iff. exists ex_open. split.
  - unfold ex_open. by destruct (open_log _ _ _ _ _ _) as [[m|e]|].
  - unfold ex_run. by destruct (run _ _ _ _) as [[m|]|].
Qed.

Lemma ex_state : run_ok ex_labels = true /\
  created (ex_run ex_labels) = [(str "/log/", str "web.INFO.20190301-120000.77")] /\
  pc_of (ex_run ex_labels) 0 = FWriting 0 (Some 0%nat) 0 /\ filemu (ex_run ex_labels) = Some 0%nat /\
  exited (ex_run ex_labels) = false.
Proof. vm_compute. auto. Qed.

Lemma lock_not_broken m f tmp p n : pc_of m f = FWriting tmp p n -> filemu m = Some f -> exited m = false -> ~ broken m.
Proof. intros Hpc Hfm He [H|[f' (H & H2 & _)]]; congruence. Qed.

Lemma free_not_broken m : filemu m = None -> exited m = false -> ~ broken m.
Proof. intros Hfm He [H|[f' (H & H2 & _)]]; congruence. Qed.

Lemma ex_range : 0 <= infoLog < numSeverity /\ header_size ex_machine (once_dirs ex_machine ex_globals) <= MaxSize.
Proof. unfold infoLog, numSeverity. split; [lia|]. vm_compute. discriminate. Qed.

(** All steps of flushes belong to flush [f0]. *)
Definition only_flush (f0 : nat) (ls : list label) : bool :=
  forallb (fun l => match l with
    | LWrite _ => true
    | LTake f | LLock f _ _ | LBlock f _ _ _ | LUnlock f | LRecycle f => bool_decide (f = f0)
    end) ls.

Lemma only_flush_acts f0 ls l f : only_flush f0 ls = true -> l ∈ ls -> acts l f -> f = f0.
Proof.
  intros Ho Hl%list_elem_of_In Ha. unfold only_flush in Ho. rewrite forallb_forall in Ho. specialize (Ho l Hl).
  destruct l; cbn in Ha; [done|..]; apply bool_decide_eq_true in Ho; congruence.
Qed.

Lemma log_keeps_lines_witness :
  exists files flight buffered,
    Forall2 (file_holds ex_machine (once_dirs ex_machine ex_globals) (fs (ex_run ex_labels))) (created (ex_run ex_labels)) files /\
    concat files ++ flight ++ buffered = [str "one "; str "two "; str "three "].
Proof.
  destruct ex_state as (Hok & Hcr & Hpc & Hfm & He). destruct ex_range as [Hs Hh].
  destruct (log_keeps_lines ex_machine infoLog ex_globals ex_fs (ex_time 0) ex_disk ex_labels (ex_run ex_labels))
    as (_ & files & flight & buffered & Hf & _ & Ho & _ & _).
  - exact Hs.
  - exact Hh.
  - apply ex_time_valid.
  - apply ex_labels_ok.
  - apply ex_log_run, Hok.
  - rewrite Hcr. apply NoDup_singleton.
  - exact (lock_not_broken _ _ _ _ _ Hpc Hfm He).
  - exists files, flight, buffered. split; [exact Hf|]. apply (Ho 0%nat). intros l f.
    apply only_flush_acts. reflexivity.
Defined.

Definition ex_lines : list label := [LWrite (str "one "); LWrite (str "two ")].

Lemma ex_lines_state : run_ok ex_lines = true /\
  created (ex_run ex_lines) = [(str "/log/", str "web.INFO.20190301-120000.77")] /\
  map_to_list (flushes (ex_run ex_lines)) = [] /\ filemu (ex_run ex_lines) = None /\ exited (ex_run ex_lines) = false.
Proof. vm_compute. auto. Qed.

Lemma flush_stores_all_witness :
  exists n m', run ex_machine infoLog (ex_run ex_lines) (flush_labels 0 n (fun k => ex_time (Z.of_nat k)) ex_disk) = Ret (Some m') /\
    (NoDup (created m') -> exists files,
       Forall2 (file_holds ex_machine (once_dirs ex_machine ex_globals) (fs m')) (created m') files /\
       concat files = [str "one "; str "two "]).
Proof.
  destruct ex_lines_state as (Hok & Hcr & Hfl & Hfm & He). destruct ex_range as [Hs Hh].
  destruct (flush_stores_all ex_machine infoLog ex_globals ex_fs (ex_time 0) ex_disk ex_lines (ex_run ex_lines) 0
    (fun k => ex_time (Z.of_nat k)) ex_disk) as (n & m' & Hrun & _ & _ & _ & Hst).
  - exact Hs.
  - exact Hh.
  - apply ex_time_valid.
  - repeat constructor.
  - apply ex_log_run, Hok.
  - rewrite Hcr. apply NoDup_singleton.
  - exact (free_not_broken _ Hfm He).
  - intros f. unfold pc_of. rewrite (proj1 (map_to_list_empty_iff _) Hfl). reflexivity.
  - exact Hfm.
  - split; [intros f|]; reflexivity.
  - intros k. apply ex_time_valid.
  - exists n, m'. split; [exact Hrun|]. intros Hd. destruct (Hst Hd) as (files & Hf & _ & Ho). exists files. split; [exact Hf|].
    apply Ho. intros l f. apply only_flush_acts. reflexivity.
Defined.

Lemma ex_hang_state :
  match store (bl (ex_run ex_labels)) !! 0%nat with Some blk => 0 <? pos blk | None => false end = true /\
  match store (bl (ex_run ex_labels)) !! curblock (bl (ex_run ex_labels)) with Some cur => pos cur =? 0 | None => true end = false.
Proof. vm_compute. auto. Qed.

Lemma flush_error_hangs_witness :
  exists m', step ex_machine infoLog (ex_run ex_labels) (LBlock 0 (WShort 3) (ex_time 2) ex_disk) = Ret (Some m') /\
    forall ls' m'', run ex_machine infoLog m' ls' = Ret (Some m'') -> pc_of m'' 0 = FHung /\ exited m'' = false.
Proof.
  destruct ex_state as (Hok & Hcr & Hpc & Hfm & He). destruct ex_range as [Hs Hh]. destruct ex_hang_state as [Hb Hc].
  destruct (store (bl (ex_run ex_labels)) !! 0%nat) as [blk|] eqn:Hblk; [|discriminate]. apply Z.ltb_lt in Hb.
  destruct (flush_error_hangs ex_machine infoLog ex_globals ex_fs (ex_time 0) ex_disk ex_labels (ex_run ex_labels) 0 0 0 0 blk 3
    (ex_time 2) ex_disk) as (m' & Hst & Hall).
  - exact Hs.
  - exact Hh.
  - apply ex_time_valid.
  - apply ex_labels_ok.
  - apply ex_log_run, Hok.
  - rewrite Hcr. apply NoDup_singleton.
  - exact (lock_not_broken _ _ _ _ _ Hpc Hfm He).
  - exact Hpc.
  - exact Hblk.
  - exact Hb.
  - intros (_ & cur & Hcur & Hpos). rewrite Hcur, Hpos in Hc. discriminate.
  - exists m'. split; [exact Hst|]. intros ls' m'' Hr. destruct (Hall ls' m'' Hr) as (H1 & _ & _ & H2). exact (conj H1 H2).
Defined.

(** Two flushes at a time can exchange lines: flush 1 takes the second line
    after flush 0 took the first, and writes it before. *)
Definition ex_two_flushes : list label :=
  [LWrite (str "first"); LTake 0; LWrite (str "second"); LTake 1; LLock 1 (ex_time 1) ex_disk;
   LBlock 1 WFull (ex_time 1) ex_disk; LUnlock 1; LLock 0 (ex_time 2) ex_disk; LBlock 0 WFull (ex_time 2) ex_disk; LUnlock 0].

Example two_flushes_reorder : run_ok ex_two_flushes = true /\
  data (fs (ex_run ex_two_flushes)) !! (str "/log/", str "web.INFO.20190301-120000.77") =
    Some (file_header ex_machine (once_dirs ex_machine ex_globals) (ex_time 0) ++ str "second" ++ str "first").
Proof. vm_compute. auto. Qed.
