(* ===== verification/Loghead.v ===== *)
(** * glog/glog.go: buffers and the header of a log line

    [formatHeader] writes the header by hand into a 64 byte array that belongs
    to a recycled buffer, so that the array starts with the rests of earlier
    headers.  The theorem says that the result is the documented format, with
    nothing of the rests, and that the fields can be read back. *)

From S2P Require Import Prelude Gostrings Resp Strconv Logfile.

(** [bytes.Buffer] by its unread bytes, and the array. *)
Record buffer := mkBuffer { content : list Z; tmp : list Z }.

Definition new_buffer : buffer := {| content := []; tmp := zeros 64 |}.

(** The free list is a stack. *)
Definition getBuffer (freeList : list buffer) : buffer * list buffer :=
  match freeList with
  | [] => (new_buffer, [])
  | b :: rest => ({| content := []; tmp := tmp b |}, rest)
  end.

Definition putBuffer (freeList : list buffer) (b : buffer) : list buffer :=
  if 256 <=? zlen (content b) then freeList else b :: freeList.

(** ** Digits *)

Definition digits : list Z := str "0123456789".

Definition twoDigits (t : list Z) (i d : Z) : go (list Z) :=
  let! c := zget digits (Z.rem d 10) in
  let! t := zset t (i + 1) c in
  let! c := zget digits (Z.rem (Z.quot d 10) 10) in
  zset t i c.

(** [for ; j >= 0 && d > 0; j-- { ... }] with [k = j + 1]; the result says how
    many places are left. *)
Fixpoint digits_loop (k : nat) (t : list Z) (i d : Z) : go (list Z * nat) :=
  match k with
  | O => Ret (t, O)
  | S j =>
      if 0 <? d then
        let! c := zget digits (Z.rem d 10) in
        let! t := zset t (i + Z.of_nat j) c in
        digits_loop j t i (Z.quot d 10)
      else Ret (t, k)
  end.

Fixpoint pad_loop (k : nat) (t : list Z) (i pad : Z) : go (list Z) :=
  match k with
  | O => Ret t
  | S j => let! t := zset t (i + Z.of_nat j) pad in pad_loop j t i pad
  end.

Definition nDigits (t : list Z) (n : nat) (i d pad : Z) : go (list Z) :=
  let! (t, j) := digits_loop n t i d in
  pad_loop j t i pad.

(** The loop of [someDigits] from place [j] downwards. *)
Fixpoint some_loop (j : nat) (t : list Z) (d : Z) : go (list Z * nat) :=
  match j with
  | O => Panic
  | S j =>
      let! c := zget digits (Z.rem d 10) in
      let! t := zset t (Z.of_nat j) c in
      if Z.quot d 10 =? 0 then Ret (t, j) else some_loop j t (Z.quot d 10)
  end.

Definition someDigits (t : list Z) (i d : Z) : go (list Z * Z) :=
  let! (t, j) := some_loop (length t) t d in
  let! t' := copy_to t i (drop j t) in
  Ret (t', Z.min (zlen t - i) (zlen t - Z.of_nat j)).

(** ** The header *)

Definition formatHeader (pid : Z) (now : time) (b : buffer) (s : Z) (file : list Z) (line : Z) : go buffer :=
  let line := if line <? 0 then 0 else line in
  let s := if debugLog <? s then infoLog else s in
  let! c := zget severityChar s in
  let! t := zset (tmp b) 0 c in
  let! t := twoDigits t 1 (Month now) in
  let! t := twoDigits t 3 (Day now) in
  let! t := zset t 5 32 in
  let! t := twoDigits t 6 (Hour now) in
  let! t := zset t 8 58 in
  let! t := twoDigits t 9 (Minute now) in
  let! t := zset t 11 58 in
  let! t := twoDigits t 12 (Second now) in
  let! t := zset t 14 46 in
  let! t := nDigits t 6 15 (Z.quot (Nanosecond now) 1000) 48 in
  let! t := zset t 21 32 in
  let! t := nDigits t 7 22 pid 32 in
  let! t := zset t 29 32 in
  let! head := slice t 0 30 in
  let! t := zset t 0 58 in
  let! (t, n) := someDigits t 1 line in
  let! t := zset t (n + 1) 93 in
  let! t := zset t (n + 2) 32 in
  let! rest := slice t 0 (n + 3) in
  Ret {| content := content b ++ head ++ file ++ rest; tmp := t |}.

(** [header]: the caller's file without its directory, or [???]. *)
Definition caller_file (caller : option (list Z * Z)) : go (list Z * Z) :=
  match caller with
  | None => Ret (str "???", 1)
  | Some (file, line) => let! file := base_name file in Ret (file, line)
  end.

Definition header (pid : Z) (now : time) (freeList : list buffer) (s : Z) (caller : option (list Z * Z))
    : go (buffer * list buffer * list Z * Z) :=
  let! (file, line) := caller_file caller in
  let '(b, freeList) := getBuffer freeList in
  let! b := formatHeader pid now b s file line in
  Ret (b, freeList, file, line).

(** ** The format *)

(** A number right-aligned in [n] places; zero has no digits of its own. *)
Definition padl (n : nat) (d pad : Z) : list Z :=
  let ds := if d =? 0 then [] else dec d in replicate (n - length ds) pad ++ ds.

(** [Lmmdd hh:mm:ss.uuuuuu threadid file:line] *)
Definition header_text (pid : Z) (now : time) (c : Z) (file : list Z) (line : Z) : list Z :=
  [c] ++ pad0 2 (Month now) ++ pad0 2 (Day now) ++ [32] ++ pad0 2 (Hour now) ++ [58] ++ pad0 2 (Minute now) ++ [58]
  ++ pad0 2 (Second now) ++ [46] ++ pad0 6 (Nanosecond now / 1000) ++ [32] ++ padl 7 pid 32 ++ [32]
  ++ file ++ [58] ++ dec line ++ [93; 32].

(** ** Writing into the array *)

(** The array starts with [p]. *)
Definition filled (t p : list Z) : Prop := length t = 64%nat /\ take (length p) t = p.

Lemma digit_at d : 0 <= d -> zget digits (Z.rem d 10) = Ret (48 + d mod 10).
Proof.
  intros Hd. rewrite Z.rem_mod_nonneg by lia. pose proof (Z.mod_pos_bound d 10 ltac:(lia)) as Hm.
  generalize dependent (d mod 10). intros r Hr. apply zget_ok; [lia|].
  assert (r = 0 \/ r = 1 \/ r = 2 \/ r = 3 \/ r = 4 \/ r = 5 \/ r = 6 \/ r = 7 \/ r = 8 \/ r = 9) as H by lia.
  repeat destruct H as [->|H]; subst; done.
Qed.

Lemma filled_set t p x : filled t p -> (length p < 64)%nat ->
  exists t', zset t (zlen p) x = Ret t' /\ filled t' (p ++ [x]).
Proof.
  intros [Hl Hp] Hlt. rewrite zset_ok by (unfold zlen; lia). eexists; split; [done|]. split; [by rewrite length_insert|].
  unfold zlen. rewrite Nat2Z.id, length_app. cbn. rewrite Nat.add_1_r, (take_S_r _ _ x).
  - by rewrite take_insert_ge, Hp.
  - rewrite list_lookup_insert_eq by lia. done.
Qed.

(** Writing a place and then the places left of it. *)
Lemma overwrite_left (t l : list Z) i x : (i + length l < length t)%nat ->
  overwrite (<[(i + length l)%nat := x]> t) i l = overwrite t i (l ++ [x]).
Proof.
  intros Hl. unfold overwrite. rewrite length_insert, length_app. cbn [length]. rewrite !take_ge with (l := l), take_ge with (l := l ++ [x])
    by (rewrite ?length_app; cbn; lia). rewrite take_insert_ge by lia. rewrite <- app_assoc. do 2 f_equal.
  rewrite insert_take_drop by done. rewrite drop_app_ge by (rewrite length_take; lia). rewrite length_take, Nat.min_l by lia.
  rewrite Nat.sub_diag. cbn. do 2 f_equal. lia.
Qed.

Lemma filled_over t p l : filled t p -> (length p + length l <= 64)%nat -> filled (overwrite t (length p) l) (p ++ l).
Proof.
  intros [Hl Hp] Hlt. unfold overwrite. split; [rewrite !length_app, !length_take, length_drop; lia|].
  rewrite Hp, take_ge with (l := l) by lia. rewrite app_assoc, take_app_length. done.
Qed.

Lemma overwrite_nil (t : list Z) i : overwrite t i [] = t.
Proof. unfold overwrite. cbn [length]. rewrite take_nil, Nat.add_0_r. apply take_drop. Qed.

Lemma pad_loop_spec pad k : forall t i, (Z.to_nat i + k <= length t)%nat -> 0 <= i ->
  pad_loop k t i pad = Ret (overwrite t (Z.to_nat i) (replicate k pad)).
Proof.
  induction k as [|j IH]; intros t i Hl Hi; cbn [pad_loop]; [by rewrite overwrite_nil|].
  rewrite zset_ok by (unfold zlen; lia). cbn [go_bind]. rewrite IH by (rewrite ?length_insert; lia).
  rewrite replicate_S_end, <- overwrite_left by (rewrite length_replicate; lia). rewrite length_replicate. do 3 f_equal. lia.
Qed.

Lemma padl_zero n pad : padl n 0 pad = replicate n pad.
Proof. unfold padl. cbn. by rewrite Nat.sub_0_r, app_nil_r. Qed.

Lemma padl_step j d pad : 0 < d -> padl (S j) d pad = padl j (d / 10) pad ++ [48 + d mod 10].
Proof.
  intros Hd. unfold padl. rewrite (proj2 (Z.eqb_neq _ _)), dec_step by lia. rewrite length_app. cbn [length].
  rewrite Nat.add_1_r. cbn [Nat.sub]. by rewrite <- app_assoc.
Qed.

Lemma length_padl n d pad : 0 <= d < 10 ^ Z.of_nat n -> length (padl n d pad) = n.
Proof.
  intros Hd. unfold padl. rewrite length_app, length_replicate. destruct (Z.eqb_spec d 0); cbn [length]; [lia|].
  destruct n as [|n]; [cbn in Hd; lia|]. pose proof (dec_length n d Hd). lia.
Qed.

Lemma nDigits_spec pad n : forall t i d, (Z.to_nat i + n <= length t)%nat -> 0 <= i -> 0 <= d < 10 ^ Z.of_nat n ->
  nDigits t n i d pad = Ret (overwrite t (Z.to_nat i) (padl n d pad)).
Proof.
  unfold nDigits. induction n as [|j IH]; intros t i d Hl Hi Hd.
  - cbn in Hd. assert (d = 0) as -> by lia. cbn. by rewrite overwrite_nil.
  - cbn [digits_loop]. destruct (Z.ltb_spec 0 d) as [Hp|Hp].
    + rewrite digit_at by lia. cbn [go_bind]. rewrite zset_ok by (unfold zlen; lia). cbn [go_bind].
      rewrite Z.quot_div_nonneg by lia. assert (0 <= d / 10 < 10 ^ Z.of_nat j) as Hd'.
      { rewrite Nat2Z.inj_succ, Z.pow_succ_r in Hd by lia. split; [apply Z.div_pos; lia|apply Z.div_lt_upper_bound; lia]. }
      rewrite IH by (rewrite ?length_insert; lia). rewrite padl_step by done.
      rewrite <- overwrite_left by (rewrite length_padl by done; lia). rewrite length_padl by done. do 3 f_equal. lia.
    + assert (d = 0) as -> by lia. cbn [go_bind]. rewrite padl_zero. by apply pad_loop_spec.
Qed.

Lemma pad0_padl n d : (0 < n)%nat -> 0 <= d -> pad0 n d = padl n d 48.
Proof.
  intros Hn Hd. unfold pad0, padl. rewrite (proj2 (Z.ltb_ge _ _)), Z.abs_eq by lia. destruct (Z.eqb_spec d 0) as [->|]; [|done].
  destruct n as [|n]; [lia|]. change (dec 0) with [48]. cbn [length]. rewrite Nat.sub_0_r, app_nil_r.
  replace (S n - 1)%nat with n by lia. by rewrite <- replicate_S_end.
Qed.

Lemma padl_digits j d : 0 <= d -> padl (S j) d 48 = padl j (d / 10) 48 ++ [48 + d mod 10].
Proof.
  intros Hd. destruct (decide (d = 0)) as [->|]; [|apply padl_step; lia].
  rewrite Z.div_0_l, !padl_zero by lia. apply replicate_S_end.
Qed.

Lemma twoDigits_spec t i d : (Z.to_nat i + 2 <= length t)%nat -> 0 <= i -> 0 <= d <= 99 ->
  twoDigits t i d = Ret (overwrite t (Z.to_nat i) (pad0 2 d)).
Proof.
  intros Hl Hi Hd. unfold twoDigits. rewrite digit_at by lia. cbn [go_bind]. rewrite zset_ok by (unfold zlen; lia). cbn [go_bind].
  assert (0 <= d / 10) by (apply Z.div_pos; lia). assert (d / 10 / 10 = 0) as Hz by (rewrite Z.div_div by lia; apply Z.div_small; lia).
  rewrite Z.quot_div_nonneg by lia. rewrite digit_at by done. cbn [go_bind]. rewrite zset_ok by (unfold zlen; rewrite length_insert; lia).
  rewrite pad0_padl, !padl_digits, Hz, padl_zero by lia. cbn [replicate app].
  change [48 + (d / 10) mod 10; 48 + d mod 10] with ([48 + (d / 10) mod 10] ++ [48 + d mod 10]).
  rewrite <- overwrite_left by (cbn; lia). rewrite <- (app_nil_l [48 + (d / 10) mod 10]).
  rewrite <- overwrite_left by (cbn; rewrite length_insert; lia). rewrite overwrite_nil. cbn [length app].
  rewrite Nat.add_0_r. do 3 f_equal. lia.
Qed.

(** The array one step further. *)
Lemma filled_two t p d : filled t p -> (length p + 2 <= 64)%nat -> 0 <= d <= 99 ->
  exists t', twoDigits t (zlen p) d = Ret t' /\ filled t' (p ++ pad0 2 d).
Proof.
  intros Hf Hlt Hd. pose proof Hf as [Hl _]. assert (Z.to_nat (zlen p) = length p) as Hz by (unfold zlen; lia).
  rewrite twoDigits_spec by (unfold zlen in *; lia). eexists; split; [done|]. rewrite Hz.
  apply filled_over; [done|]. by rewrite (pad0_length 1) by lia.
Qed.

Lemma filled_n t p n d pad : filled t p -> (length p + n <= 64)%nat -> 0 <= d < 10 ^ Z.of_nat n ->
  exists t', nDigits t n (zlen p) d pad = Ret t' /\ filled t' (p ++ padl n d pad).
Proof.
  intros Hf Hlt Hd. pose proof Hf as [Hl _]. assert (Z.to_nat (zlen p) = length p) as Hz by (unfold zlen; lia).
  rewrite nDigits_spec by (unfold zlen in *; lia). eexists; split; [done|]. rewrite Hz.
  apply filled_over; [done|]. by rewrite length_padl.
Qed.

Lemma drop_insert_here (t : list Z) j x : (j < length t)%nat -> drop j (<[j := x]> t) = x :: drop (S j) t.
Proof.
  intros Hj. rewrite insert_take_drop by done. rewrite drop_app_ge by (rewrite length_take; lia).
  by rewrite length_take, Nat.min_l, Nat.sub_diag by lia.
Qed.

Lemma some_loop_spec j : forall t d, (j <= length t)%nat -> 0 <= d < 10 ^ Z.of_nat j -> (0 < j)%nat ->
  exists t' k, some_loop j t d = Ret (t', k) /\ length t' = length t /\ drop k t' = dec d ++ drop j t /\
    (k + length (dec d) = j)%nat /\ take k t' = take k t.
Proof.
  induction j as [|j IH]; intros t d Hj Hd Hp; [lia|]. cbn [some_loop]. rewrite digit_at by lia. cbn [go_bind].
  rewrite zset_ok by (unfold zlen; lia). cbn [go_bind]. rewrite Nat2Z.id, Z.quot_div_nonneg, dec_step by lia.
  destruct (Z.eqb_spec (d / 10) 0) as [Hz|Hnz].
  - do 2 eexists. split; [done|]. cbn [app length].
    split_and!; [by rewrite length_insert|by apply drop_insert_here|lia|by rewrite take_insert_ge].
  - assert (0 <= d / 10 < 10 ^ Z.of_nat j) as Hd'.
    { rewrite Nat2Z.inj_succ, Z.pow_succ_r in Hd by lia. split; [apply Z.div_pos; lia|apply Z.div_lt_upper_bound; lia]. }
    assert (0 < j)%nat by (destruct j; [cbn in Hd'; lia|lia]).
    destruct (IH (<[j := 48 + d mod 10]> t) (d / 10)) as (t' & k & -> & Hl & Hdr & Hk & Htk); [rewrite length_insert; lia|done|done|].
    rewrite length_insert in Hl. exists t', k. split; [done|]. split; [done|]. rewrite Hdr, drop_insert_here by lia.
    rewrite length_app. cbn [length]. split_and!; [by rewrite <- app_assoc|lia|]. rewrite Htk. apply take_insert_ge. lia.
Qed.

Lemma filled_some t p d : filled t p -> 0 <= d < 10 ^ 20 -> (length p <= 40)%nat ->
  exists t', someDigits t (zlen p) d = Ret (t', zlen (dec d)) /\ filled t' (p ++ dec d).
Proof.
  intros [Hl Hp] Hd Hlen. unfold someDigits. assert (length (dec d) <= 20)%nat as Hdl by (by apply (dec_length 19)).
  destruct (some_loop_spec (length t) t d) as (t1 & k & -> & Hl1 & Hdr & Hk & Htk); [lia| |lia|].
  { rewrite Hl. split; [lia|]. eapply Z.lt_le_trans; [apply Hd|]. apply Z.pow_le_mono_r; lia. }
  cbn [go_bind]. rewrite drop_all, app_nil_r in Hdr. rewrite Hdr. unfold copy_to. rewrite decide_True by (unfold zlen; lia).
  cbn [go_bind]. unfold zlen. rewrite Nat2Z.id. eexists. split; [do 2 f_equal; lia|].
  apply filled_over; [|lia]. split; [lia|].
  rewrite <- (Nat.min_l (length p) k) by lia. by rewrite <- take_take, Htk, take_take, Nat.min_l by lia.
Qed.

(** The lengths of the parts of a header. *)
Lemma two_length d : 0 <= d <= 99 -> length (pad0 2 d) = 2%nat.
Proof. intros. apply (pad0_length 1). lia. Qed.

(** A computation returns a value with a property. *)
Definition returns {A} (c : go A) (Q : A -> Prop) : Prop := exists x, c = Ret x /\ Q x.

Section assignments.
Context {B : Type} (Q : B -> Prop).

Lemma fill_set t p i x (k : list Z -> go B) : filled t p -> i = zlen p -> i < 64 ->
  (forall t', filled t' (p ++ [x]) -> returns (k t') Q) -> returns (let! t := zset t i x in k t) Q.
Proof.
  intros Hf -> Hi Hk. destruct (filled_set t p x Hf) as (t' & -> & Hf'); [unfold zlen in Hi; lia|]. by apply Hk.
Qed.

Lemma fill_two t p i d (k : list Z -> go B) : filled t p -> i = zlen p -> i < 62 -> 0 <= d <= 99 ->
  (forall t', filled t' (p ++ pad0 2 d) -> returns (k t') Q) -> returns (let! t := twoDigits t i d in k t) Q.
Proof.
  intros Hf -> Hi Hd Hk. destruct (filled_two t p d Hf) as (t' & -> & Hf'); [unfold zlen in Hi; lia|done|]. by apply Hk.
Qed.

Lemma fill_n t p n i d pad (k : list Z -> go B) : filled t p -> i = zlen p -> i + Z.of_nat n < 64 -> 0 <= d < 10 ^ Z.of_nat n ->
  (forall t', filled t' (p ++ padl n d pad) -> returns (k t') Q) -> returns (let! t := nDigits t n i d pad in k t) Q.
Proof.
  intros Hf -> Hi Hd Hk. destruct (filled_n t p n d pad Hf) as (t' & -> & Hf'); [unfold zlen in Hi; lia|done|]. by apply Hk.
Qed.

End assignments.

Lemma filled_slice t p n : filled t p -> n = zlen p -> (length p <= 64)%nat -> slice t 0 n = Ret p.
Proof.
  intros [Hl Hp] -> Hle. rewrite slice_ok by (unfold zlen; lia). unfold sub, zlen. rewrite Z.sub_0_r, Nat2Z.id, drop_0. by rewrite Hp.
Qed.

Ltac part_lengths := unfold zlen; rewrite ?length_app, ?two_length, ?length_padl by (cbn; lia); cbn; lia.

Ltac fill H :=
  first [eapply fill_set | eapply fill_two | eapply fill_n]; [exact H|part_lengths|cbn; lia..|];
  let t := fresh "t" in intros t; clear H; intros H.

Lemma formatHeader_spec pid now b s file line c : valid_time now -> 0 <= pid < 10 ^ 7 -> severityChar !! Z.to_nat s = Some c -> 0 <= s ->
  line < 10 ^ 20 -> length (tmp b) = 64%nat ->
  returns (formatHeader pid now b s file line) (fun b' =>
    content b' = content b ++ header_text pid now c file (Z.max 0 line) /\ length (tmp b') = 64%nat).
Proof.
  intros (Hy & Hmo & Hda & Hh & Hmi & Hse & Hns) Hpid Hc Hs Hline Hb. unfold formatHeader.
  assert (s < 5) as Hs5 by (apply lookup_lt_Some in Hc; cbn in Hc; lia).
  rewrite (proj2 (Z.ltb_ge debugLog s)) by (unfold debugLog; lia). rewrite (zget_ok _ _ c) by done. cbn [go_bind].
  assert (0 <= Nanosecond now / 1000 < 10 ^ Z.of_nat 6) as Hus by (split; [apply Z.div_pos; lia|apply Z.div_lt_upper_bound; cbn; lia]).
  rewrite Z.quot_div_nonneg by lia. assert (filled (tmp b) []) as H by done.
  do 14 (fill H). rewrite (filled_slice _ _ 30 H) by part_lengths. cbn [go_bind].
  match type of H with filled ?t ?p => set (head := p) in *; assert (filled t []) as Hu0 by by destruct H end.
  eapply fill_set; [exact Hu0|done|lia|]. intros u Hu1. cbn [app] in Hu1.
  assert ((if line <? 0 then 0 else line) = Z.max 0 line) as -> by (destruct (Z.ltb_spec line 0); lia).
  destruct (filled_some u [58] (Z.max 0 line) Hu1) as (u1 & Hsome & Hu2); [lia|cbn; lia|]. change (zlen [58]) with 1 in Hsome. rewrite Hsome. cbn [go_bind].
  assert (length (dec (Z.max 0 line)) <= 20)%nat by (apply (dec_length 19); lia).
  eapply fill_set; [exact Hu2|unfold zlen; rewrite length_app; cbn; lia|unfold zlen; lia|]. intros u2 Hu3.
  eapply fill_set; [exact Hu3|unfold zlen; rewrite !length_app; cbn; lia|unfold zlen; lia|]. intros u3 Hu4.
  rewrite (filled_slice _ _ _ Hu4) by (unfold zlen; rewrite !length_app; cbn; lia). cbn [go_bind].
  eexists; split; [done|]. cbn [content tmp]. split; [|apply Hu4]. f_equal. unfold header_text, head.
  rewrite (pad0_padl 6) by lia. by rewrite <- !app_assoc.
Qed.

(** ** Reading a line back *)

Record logline := mkLogline {
  l_char : Z; l_month : Z; l_day : Z; l_hour : Z; l_minute : Z; l_second : Z; l_micros : Z; l_pid : Z;
  l_file : list Z; l_line : Z; l_msg : list Z
}.

(** A number of [n] places, blanks skipped, and what follows it and the [k]
    bytes behind it. *)
Definition field (n k : nat) (l : list Z) : Z * list Z :=
  (dec_value (filter (fun b => b <> 32) (take n l)), drop (n + k) l).

(** The text before the first [sep] and what follows it. *)
Fixpoint cut (sep : Z) (l : list Z) : list Z * list Z :=
  match l with
  | [] => ([], [])
  | b :: l => if b =? sep then ([], l) else let '(x, y) := cut sep l in (b :: x, y)
  end.

Definition parse_line (l : list Z) : option logline :=
  match l with
  | [] => None
  | c :: l =>
      let '(mo, l) := field 2 0 l in
      let '(da, l) := field 2 1 l in
      let '(ho, l) := field 2 1 l in
      let '(mi, l) := field 2 1 l in
      let '(se, l) := field 2 1 l in
      let '(us, l) := field 6 1 l in
      let '(pi, l) := field 7 1 l in
      let '(file, l) := cut 58 l in
      let '(line, l) := cut 93 l in
      Some {| l_char := c; l_month := mo; l_day := da; l_hour := ho; l_minute := mi; l_second := se; l_micros := us; l_pid := pi;
              l_file := file; l_line := dec_value line; l_msg := drop 1 l |}
  end.

Lemma digits_not_blank ds : Forall (fun d => 48 <= d <= 57) ds -> filter (fun b => b <> 32) ds = ds.
Proof. induction 1 as [|d ds Hd Hds IH]; [done|]. rewrite filter_cons_True by lia. by rewrite IH. Qed.

Lemma padl_value n d pad : 0 <= d -> pad = 48 \/ pad = 32 -> dec_value (filter (fun b => b <> 32) (padl n d pad)) = d.
Proof.
  intros Hd Hpad. unfold padl. set (ds := if d =? 0 then [] else dec d).
  assert (dec_value ds = d /\ Forall (fun d => 48 <= d <= 57) ds) as [Hv Hf].
  { unfold ds. destruct (Z.eqb_spec d 0) as [->|]; [done|]. by destruct (dec_spec d Hd) as (? & ? & _). }
  rewrite filter_app, (digits_not_blank ds) by done. destruct Hpad as [->| ->].
  - rewrite digits_not_blank, dec_value_pad; [done|]. apply Forall_replicate. lia.
  - replace (filter (fun b => b <> 32) (replicate (n - length ds) 32)) with (@nil Z); [done|].
    induction (n - length ds)%nat as [|k IH]; [done|]. cbn [replicate]. by rewrite filter_cons_False by auto.
Qed.

Lemma field_padl n k d pad (sep rest : list Z) : 0 <= d < 10 ^ Z.of_nat n -> pad = 48 \/ pad = 32 -> length sep = k ->
  field n k (padl n d pad ++ sep ++ rest) = (d, rest).
Proof.
  intros Hd Hpad Hsep. unfold field. pose proof (length_padl n d pad Hd) as Hl.
  rewrite take_app_length' by done. rewrite padl_value by (done || lia). f_equal.
  rewrite app_assoc. apply drop_app_length'. rewrite length_app. lia.
Qed.

Lemma field_padl0 n d pad rest : 0 <= d < 10 ^ Z.of_nat n -> pad = 48 \/ pad = 32 -> field n 0 (padl n d pad ++ rest) = (d, rest).
Proof. intros Hd Hp. by apply (field_padl n 0 d pad [] rest). Qed.

Lemma field_padl1 n d pad x rest : 0 <= d < 10 ^ Z.of_nat n -> pad = 48 \/ pad = 32 -> field n 1 (padl n d pad ++ x :: rest) = (d, rest).
Proof. intros Hd Hp. by apply (field_padl n 1 d pad [x] rest). Qed.

Lemma cut_app sep l rest : sep ∉ l -> cut sep (l ++ sep :: rest) = (l, rest).
Proof.
  induction l as [|x l IH]; cbn; [by rewrite Z.eqb_refl|]. intros [Hx Hl]%not_elem_of_cons.
  rewrite (proj2 (Z.eqb_neq _ _)) by congruence. by rewrite IH.
Qed.

Lemma parse_header_text pid now c file line msg : valid_time now -> 0 <= pid < 10 ^ 7 -> 58 ∉ file -> 0 <= line ->
  parse_line (header_text pid now c file line ++ msg) =
  Some {| l_char := c; l_month := Month now; l_day := Day now; l_hour := Hour now; l_minute := Minute now; l_second := Second now;
          l_micros := Nanosecond now / 1000; l_pid := pid; l_file := file; l_line := line; l_msg := msg |}.
Proof.
  intros (Hy & Hmo & Hda & Hh & Hmi & Hse & Hns) Hpid Hfile Hline. unfold header_text.
  assert (0 <= Nanosecond now / 1000 < 10 ^ Z.of_nat 6) by (split; [apply Z.div_pos; lia|apply Z.div_lt_upper_bound; cbn; lia]).
  rewrite !(pad0_padl 2), (pad0_padl 6) by lia. rewrite <- !app_assoc. cbn [app]. unfold parse_line.
  rewrite field_padl0 by (auto; cbn; lia). rewrite !field_padl1 by (auto; cbn; lia).
  destruct (dec_spec line Hline) as (Hv & Hd & _). rewrite cut_app by done. rewrite cut_app.
  - cbn. by rewrite Hv.
  - intros Hin. rewrite Forall_forall in Hd. specialize (Hd 93 Hin). cbn in Hd. lia.
Qed.

(** The header of a log line has the documented format: whatever earlier
    headers left in the recycled buffer, [header] returns a buffer with the
    severity, the time, the process, the base name of the caller's file and
    the line in their places, and reading the line back gives the fields and
    the message. *)
Theorem header_reads_back pid now freeList s c dir base line msg :
  valid_time now -> 0 <= pid < 10 ^ 7 -> 0 <= s -> severityChar !! Z.to_nat s = Some c -> 0 <= line < 2 ^ 63 ->
  47 ∉ base -> 58 ∉ base -> Forall (fun b => length (tmp b) = 64%nat) freeList ->
  exists b rest, header pid now freeList s (Some (dir ++ 47 :: base, line)) = Ret (b, rest, base, line) /\
    content b = header_text pid now c base line /\ length (tmp b) = 64%nat /\
    parse_line (content b ++ msg) =
      Some {| l_char := c; l_month := Month now; l_day := Day now; l_hour := Hour now; l_minute := Minute now;
              l_second := Second now; l_micros := Nanosecond now / 1000; l_pid := pid; l_file := base; l_line := line; l_msg := msg |}.
Proof.
  intros Ht Hp Hs Hc Hl Hb1 Hb2 Hfree. unfold header, caller_file. rewrite base_name_path by done.
  cbn [go_bind]. destruct (getBuffer freeList) as [b0 rest] eqn:Hget.
  assert (length (tmp b0) = 64%nat /\ content b0 = []) as [Hlen Hcon].
  { destruct freeList as [|x fl]; cbn in Hget; simplify_eq; [done|]. by apply Forall_cons in Hfree as [? _]. }
  destruct (formatHeader_spec pid now b0 s base line c Ht Hp Hc Hs) as (b & -> & Hb & Hbt); [lia|done|]. cbn [go_bind].
  rewrite Z.max_r in Hb by lia. rewrite Hcon in Hb. cbn [app] in Hb.
  exists b, rest. split; [done|]. split; [done|]. split; [done|]. rewrite Hb. apply parse_header_text; done || lia.
Qed.

Lemma header_reads_back_witness :
  exists b rest,
    header 1234 {| Year := 2006; Month := 1; Day := 2; Hour := 15; Minute := 4; Second := 5; Nanosecond := 67890000; YearDay := 2 |}
      [{| content := str "old"; tmp := replicate 64 120 |}] infoLog (Some (str "/go/src/glog_test.go", 230)) = Ret (b, rest, str "glog_test.go", 230) /\
    content b = str "I0102 15:04:05.067890    1234 glog_test.go:230] ".
Proof.
  destruct (header_reads_back 1234 {| Year := 2006; Month := 1; Day := 2; Hour := 15; Minute := 4; Second := 5; Nanosecond := 67890000; YearDay := 2 |}
      [{| content := str "old"; tmp := replicate 64 120 |}] infoLog 73 (str "/go/src") (str "glog_test.go") 230 [])
    as (b & rest & Hh & Hb & _ & _).
  - unfold valid_time. cbn. lia.
  - lia.
  - done.
  - done.
  - lia.
  - apply (bool_decide_unpack _). vm_compute. exact I.
  - apply (bool_decide_unpack _). vm_compute. exact I.
  - by repeat constructor.
  - exists b, rest. split; [exact Hh|]. rewrite Hb. vm_compute. reflexivity.
Defined.
