(* ===== verification/Logflags.v ===== *)
(** * glog/glog.go: the flags and verbose logging

    The values of the flags -v, -vmodule, -stderrthreshold and
    -log_backtrace_at with their parsers and printers, and [V], which decides
    by the verbosity or by the first pattern that matches the caller's file,
    remembering the answer for each call site.  Package filepath's [Match] is
    given by its documented grammar on bytes; the base name of a file has no
    separator.  The file of a call site comes from the runtime, as a function. *)

From S2P Require Import Prelude Gostrings Resp Strconv Logfile.

(** ** Patterns: filepath.Match *)

Inductive glob : Type :=
| GStar
| GAny
| GChar (c : Z)
| GClass (negated : bool) (ranges : list (Z * Z)).

(** [getEsc]: one character of a class, possibly escaped; something must follow. *)
Definition get_esc (p : list Z) : option (Z * list Z) :=
  match p with
  | [] => None
  | c :: p' =>
      if (c =? 45) || (c =? 93) then None
      else
        match (if c =? 92 then p' else p) with
        | r :: x :: p => Some (r, x :: p)
        | _ => None
        end
  end.

(** What follows [c] at the start of a pattern. *)
Definition after (c : Z) (p : list Z) : option (list Z) :=
  match p with x :: p => if x =? c then Some p else None | [] => None end.

(** The ranges of a class up to its closing bracket. *)
Fixpoint class_ranges (fuel : nat) (p : list Z) (nrange : bool) : option (list (Z * Z) * list Z) :=
  match fuel with
  | O => None
  | S fuel =>
      match after 93 p with
      | Some p' => if nrange then Some ([], p') else None
      | None =>
          match get_esc p with
          | None => None
          | Some (lo, p) =>
              match (match after 45 p with Some p' => get_esc p' | None => Some (lo, p) end) with
              | None => None
              | Some (hi, p) =>
                  match class_ranges fuel p true with
                  | None => None
                  | Some (rs, p) => Some ((lo, hi) :: rs, p)
                  end
              end
          end
      end
  end.

(** The items of a pattern; [None] is [ErrBadPattern]. *)
Fixpoint parse_glob (fuel : nat) (p : list Z) : option (list glob) :=
  match fuel with
  | O => None
  | S fuel =>
      match p with
      | [] => Some []
      | c :: p =>
          if c =? 42 then option_map (cons GStar) (parse_glob fuel p)
          else if c =? 63 then option_map (cons GAny) (parse_glob fuel p)
          else if c =? 92 then
            match p with [] => None | c :: p => option_map (cons (GChar c)) (parse_glob fuel p) end
          else if c =? 91 then
            let '(neg, p) := match after 94 p with Some p => (true, p) | None => (false, p) end in
            match class_ranges (S (length p)) p false with
            | None => None
            | Some (rs, p) => option_map (cons (GClass neg rs)) (parse_glob fuel p)
            end
          else option_map (cons (GChar c)) (parse_glob fuel p)
      end
  end.

Definition in_class (c : Z) (rs : list (Z * Z)) : bool := existsb (fun r => (r.1 <=? c) && (c <=? r.2)) rs.

(** [*] matches any sequence of bytes other than the separator. *)
Fixpoint star_match (k : list Z -> bool) (name : list Z) : bool :=
  k name || match name with [] => false | c :: name => negb (c =? 47) && star_match k name end.

Fixpoint glob_match (gs : list glob) (name : list Z) : bool :=
  match gs with
  | [] => match name with [] => true | _ => false end
  | GStar :: gs => star_match (glob_match gs) name
  | g :: gs =>
      match name with
      | [] => false
      | c :: name =>
          match g with
          | GAny => negb (c =? 47)
          | GChar x => c =? x
          | GClass neg rs => negb (eqb (in_class c rs) neg)
          | GStar => false
          end && glob_match gs name
      end
  end.

(** [filepath.Match]; [None] is an error. *)
Definition Match (pattern name : list Z) : option bool :=
  match parse_glob (S (length pattern)) pattern with
  | None => None
  | Some gs => Some (glob_match gs name)
  end.

(** ** modulePat and moduleSpec *)

Record modulePat := mkModulePat { pattern : list Z; literal : bool; level : Z }.

Definition isLiteral (p : list Z) : bool := negb (ContainsAny p [92; 42; 63; 91; 93]).

Definition pat_match (m : modulePat) (file : list Z) : bool :=
  if literal m then bool_decide (file = pattern m) else default false (Match (pattern m) file).

Definition pat_string (m : modulePat) : list Z := pattern m ++ [61] ++ itoa (level m).

(** [moduleSpec.String] *)
Fixpoint spec_string (fs : list modulePat) : list Z :=
  match fs with
  | [] => []
  | [m] => pat_string m
  | m :: fs => pat_string m ++ [44] ++ spec_string fs
  end.

Inductive flag_err : Type := errVmoduleSyntax | errNegative | errTraceSyntax | errNotPositive | errAtoi (e : num_err).

(** [strconv.Atoi] *)
Definition atoi (s : list Z) : Z + num_err := match ParseInt s 0 with (v, None) => inl v | (_, Some e) => inr e end.

(** The loop of [moduleSpec.Set]. *)
Fixpoint parse_filter (pats : list (list Z)) (filter : list modulePat) : list modulePat + flag_err :=
  match pats with
  | [] => inl filter
  | pat :: pats =>
      if bool_decide (pat = []) then parse_filter pats filter
      else
        match Split 61 pat with
        | [p; l] =>
            if bool_decide (p = []) || bool_decide (l = []) then inr errVmoduleSyntax
            else
              match atoi l with
              | inr _ => inr errVmoduleSyntax
              | inl v =>
                  if v <? 0 then inr errNegative
                  else if v =? 0 then parse_filter pats filter
                  else parse_filter pats (filter ++ [{| pattern := p; literal := isLiteral p; level := i32 v |}])
              end
        | _ => inr errVmoduleSyntax
        end
  end.

(** ** The state of verbose logging *)

(** [vmap] is nil until a filter is set. *)
Record vstate := mkVstate {
  verbosity : Z;
  vfilter : list modulePat;
  filterLength : Z;
  vmap : option (gmap Z Z)
}.

Definition setVState (st : vstate) (verbosity : Z) (filter : list modulePat) (setFilter : bool) : vstate :=
  {| verbosity := verbosity;
     vfilter := if setFilter then filter else vfilter st;
     filterLength := i32 (zlen filter);
     vmap := if setFilter then Some ∅ else vmap st |}.

(** The zero value and the package's [init]. *)
Definition init_vstate : vstate :=
  setVState {| verbosity := 0; vfilter := []; filterLength := 0; vmap := None |} 0 [] false.

(** [Level.Set] *)
Definition Level_Set (st : vstate) (value : list Z) : vstate * option flag_err :=
  match atoi value with
  | inr e => (st, Some (errAtoi e))
  | inl v => (setVState st (i32 v) (vfilter st) false, None)
  end.

(** [moduleSpec.Set] *)
Definition module_Set (st : vstate) (value : list Z) : vstate * option flag_err :=
  match parse_filter (Split 44 value) [] with
  | inr e => (st, Some e)
  | inl filter => (setVState st (verbosity st) filter true, None)
  end.

(** The name patterns are matched with: the base name without [.go]. *)
Definition module_name (file : list Z) : go (list Z) :=
  let! file := if has_suffix (str ".go") file then slice file 0 (zlen file - 3) else Ret file in
  base_name file.

(** The level of the first filter that matches, 0 if none does. *)
Fixpoint first_level (fs : list modulePat) (file : list Z) : Z :=
  match fs with
  | [] => 0
  | m :: fs => if pat_match m file then level m else first_level fs file
  end.

Section call_sites.
(** The file of the function at a program counter, as the runtime knows it. *)
Context (file_of : Z -> list Z).

Definition setV (st : vstate) (pc : Z) : go (vstate * Z) :=
  let! file := module_name (file_of pc) in
  let l := first_level (vfilter st) file in
  match vmap st with
  | None => Panic
  | Some m =>
      Ret ({| verbosity := verbosity st; vfilter := vfilter st; filterLength := filterLength st; vmap := Some (<[pc := l]> m) |}, l)
  end.

(** [V] called at [pc]; [None] when the runtime does not know the caller. *)
Definition V (st : vstate) (level : Z) (pc : option Z) : go (vstate * bool) :=
  if level <=? verbosity st then Ret (st, true)
  else if 0 <? filterLength st then
    match pc with
    | None => Ret (st, false)
    | Some pc =>
        match (m ← vmap st; m !! pc) with
        | Some v => Ret (st, level <=? v)
        | None => let! (st, v) := setV st pc in Ret (st, level <=? v)
        end
    end
  else Ret (st, false).

End call_sites.

(** ** The other flags *)

(** [severityByName] *)
Fixpoint name_index (names : list (list Z)) (s : list Z) (i : Z) : option Z :=
  match names with
  | [] => None
  | name :: names => if bool_decide (name = s) then Some i else name_index names s (i + 1)
  end.
Definition severityByName (s : list Z) : option Z := name_index severityName (ToUpper s) 0.

(** [severity.Set] of -stderrthreshold; the result is the new threshold. *)
Definition severity_Set (threshold : Z) (value : list Z) : Z * option flag_err :=
  match severityByName value with
  | Some v => (v, None)
  | None => match atoi value with inl v => (i32 v, None) | inr e => (threshold, Some (errAtoi e)) end
  end.

Record traceLocation := mkTrace { trace_file : list Z; trace_line : Z }.

Definition isSet (t : traceLocation) : bool := 0 <? trace_line t.

Definition trace_match (t : traceLocation) (file : list Z) (line : Z) : go bool :=
  if negb (trace_line t =? line) then Ret false
  else
    let! file := base_name file in
    Ret (bool_decide (trace_file t = file)).

Definition trace_string (t : traceLocation) : list Z := trace_file t ++ [58] ++ itoa (trace_line t).

(** [traceLocation.Set]: the empty value unsets the location and is then
    refused all the same. *)
Definition trace_Set (t : traceLocation) (value : list Z) : traceLocation * option flag_err :=
  let t := if bool_decide (value = []) then {| trace_file := []; trace_line := 0 |} else t in
  match Split 58 value with
  | [file; line] =>
      if negb (ContainsAny file [46]) then (t, Some errTraceSyntax)
      else
        match atoi line with
        | inr _ => (t, Some errTraceSyntax)
        | inl v => if v <=? 0 then (t, Some errNotPositive) else ({| trace_file := file; trace_line := v |}, None)
        end
  | _ => (t, Some errTraceSyntax)
  end.

(** ** Patterns *)

Lemma get_esc_shorter p r q : get_esc p = Some (r, q) -> (length q < length p)%nat.
Proof.
  destruct p as [|c p]; cbn; [done|]. destruct ((c =? 45) || (c =? 93)); [done|].
  destruct (c =? 92); [destruct p as [|x [|y p]]|destruct p as [|x p]]; cbn; intros; simplify_eq/=; lia.
Qed.

Lemma after_shorter c p q : after c p = Some q -> (length q < length p)%nat.
Proof. destruct p as [|x p]; cbn; [done|]. destruct (x =? c); intros; simplify_eq/=. lia. Qed.

(** The upper end of a range, if there is one, is behind its lower end. *)
Lemma range_end_shorter lo p hi q : match after 45 p with Some p' => get_esc p' | None => Some (lo, p) end = Some (hi, q) ->
  (length q <= length p)%nat.
Proof.
  destruct (after 45 p) as [p'|] eqn:Ha; [|intros; by simplify_eq]. apply after_shorter in Ha. intros Hg%get_esc_shorter. lia.
Qed.

Lemma class_ranges_shorter f : forall p b rs q, class_ranges f p b = Some (rs, q) -> (length q < length p)%nat.
Proof.
  induction f as [|f IH]; intros p b rs q; cbn; [done|]. destruct (after 93 p) eqn:Ha.
  - apply after_shorter in Ha. destruct b; intros; by simplify_eq.
  - destruct (get_esc p) as [[lo p1]|] eqn:Hg; [|done]. apply get_esc_shorter in Hg.
    destruct (match after 45 p1 with Some p' => get_esc p' | None => Some (lo, p1) end) as [[hi p2]|] eqn:Hr; [|done].
    apply range_end_shorter in Hr. destruct (class_ranges f p2 true) as [[rs' q']|] eqn:Hc; [|done]. apply IH in Hc. intros; simplify_eq. lia.
Qed.

(** The fuel of the parsers, the length of the pattern and one, is enough. *)
Lemma class_ranges_fuel f : forall f' p b, (length p < f)%nat -> (length p < f')%nat -> class_ranges f p b = class_ranges f' p b.
Proof.
  induction f as [|f IH]; intros [|f'] p b Hf Hf'; try lia. cbn. destruct (after 93 p); [done|].
  destruct (get_esc p) as [[lo p1]|] eqn:Hg; [|done]. apply get_esc_shorter in Hg.
  destruct (match after 45 p1 with Some p' => get_esc p' | None => Some (lo, p1) end) as [[hi p2]|] eqn:Hr; [|done].
  apply range_end_shorter in Hr. by rewrite (IH f' p2 true) by lia.
Qed.

Lemma parse_glob_fuel f : forall f' p, (length p < f)%nat -> (length p < f')%nat -> parse_glob f p = parse_glob f' p.
Proof.
  induction f as [|f IH]; intros [|f'] p Hf Hf'; try lia. destruct p as [|c p]; cbn [parse_glob]; [done|].
  cbn in Hf, Hf'. rewrite (IH f' p) by lia. do 2 (case_match; [done|]). case_match.
  { destruct p as [|c' p]; [done|]. cbn in Hf, Hf'. by rewrite (IH f' p) by lia. }
  case_match; [|done]. destruct (match after 94 p with Some p => (true, p) | None => (false, p) end) as [neg q] eqn:Hq.
  assert (length q <= length p)%nat by (destruct (after 94 p) eqn:Ha; simplify_eq; [apply after_shorter in Ha; lia|done]).
  destruct (class_ranges _ q false) as [[rs q']|] eqn:Hc; [|done]. apply class_ranges_shorter in Hc. by rewrite (IH f' q') by lia.
Qed.

(** A pattern without metacharacters matches itself only. *)
Lemma Match_literal p file : isLiteral p = true -> Match p file = Some (bool_decide (file = p)).
Proof.
  intros Hl. assert (parse_glob (S (length p)) p = Some (GChar <$> p)) as Hp.
  { revert Hl. induction p as [|c p IH]; [done|]. unfold isLiteral. cbn [ContainsAny existsb]. rewrite negb_orb, andb_true_iff.
    intros [Hc Hp]. specialize (IH Hp). cbn [parse_glob]. cbn in Hc. rewrite !negb_orb, !andb_true_iff, !negb_true_iff in Hc.
    destruct Hc as (-> & -> & -> & -> & _).
    change (length (c :: p)) with (S (length p)). by rewrite IH. }
  unfold Match. rewrite Hp. f_equal. clear. revert file. induction p as [|c p IH]; intros [|x file]; cbn; try done.
  rewrite IH. destruct (Z.eqb_spec x c) as [->|Hne]; cbn.
  - apply bool_decide_ext. by split; [intros ->|intros [= ->]].
  - symmetry. apply bool_decide_eq_false. congruence.
Qed.

(** ** Verbose logging without a cache

    The reference keeps the verbosity and the filter only, and asks
    [filepath.Match] for every pattern. *)

Fixpoint ref_level (fs : list modulePat) (file : list Z) : Z :=
  match fs with
  | [] => 0
  | m :: fs => if default false (Match (pattern m) file) then level m else ref_level fs file
  end.

Inductive vop : Type := OLevel (value : list Z) | OModule (value : list Z) | OV (level : Z) (pc : option Z).
Inductive vout : Type := OutErr (e : option flag_err) | OutV (enabled : bool).

Section reference.
Context (file_of : Z -> list Z).

Definition ref_V (v : Z) (fs : list modulePat) (level : Z) (pc : option Z) : bool :=
  (level <=? v) ||
  match fs, pc with
  | _ :: _, Some pc => match module_name (file_of pc) with Ret file => level <=? ref_level fs file | Panic => false end
  | _, _ => false
  end.

Fixpoint ref_run (v : Z) (fs : list modulePat) (ops : list vop) : list vout :=
  match ops with
  | [] => []
  | OLevel value :: ops =>
      match atoi value with
      | inl v => OutErr None :: ref_run (i32 v) fs ops
      | inr e => OutErr (Some (errAtoi e)) :: ref_run v fs ops
      end
  | OModule value :: ops =>
      match parse_filter (Split 44 value) [] with
      | inl fs => OutErr None :: ref_run v fs ops
      | inr e => OutErr (Some e) :: ref_run v fs ops
      end
  | OV level pc :: ops => OutV (ref_V v fs level pc) :: ref_run v fs ops
  end.

(** The flags and calls of [V] in the order in which the mutex lets them. *)
Fixpoint verbose_run (st : vstate) (ops : list vop) : go (list vout) :=
  match ops with
  | [] => Ret []
  | OLevel value :: ops => let '(st, e) := Level_Set st value in let! outs := verbose_run st ops in Ret (OutErr e :: outs)
  | OModule value :: ops => let '(st, e) := module_Set st value in let! outs := verbose_run st ops in Ret (OutErr e :: outs)
  | OV level pc :: ops => let! (st, v) := V file_of st level pc in let! outs := verbose_run st ops in Ret (OutV v :: outs)
  end.

(** The cache holds what the filter says. *)
Record vok (st : vstate) : Prop := mkVok {
  vok_len : filterLength st = zlen (vfilter st);
  vok_short : zlen (vfilter st) < 2 ^ 31;
  vok_lit : Forall (fun m => literal m = isLiteral (pattern m)) (vfilter st);
  vok_map : vfilter st <> [] -> exists M, vmap st = Some M;
  vok_cache : forall M pc l, vmap st = Some M -> M !! pc = Some l ->
    exists file, module_name (file_of pc) = Ret file /\ l = first_level (vfilter st) file
}.

Lemma first_level_ref fs file : Forall (fun m => literal m = isLiteral (pattern m)) fs -> first_level fs file = ref_level fs file.
Proof.
  induction 1 as [|m fs Hm Hfs IH]; cbn; [done|]. rewrite IH. unfold pat_match. rewrite Hm.
  destruct (isLiteral (pattern m)) eqn:Hl; [|done]. by rewrite Match_literal.
Qed.

Lemma has_prefix_length p : forall s, has_prefix p s = true -> (length p <= length s)%nat.
Proof.
  induction p as [|x p IH]; intros s; cbn; [lia|]. destruct s as [|y s]; cbn; [done|].
  intros [_ H]%andb_true_iff. apply IH in H. lia.
Qed.

Lemma module_name_total file : exists r, module_name file = Ret r.
Proof.
  unfold module_name. destruct (has_suffix (str ".go") file) eqn:Hs; [|apply base_name_total].
  unfold has_suffix in Hs. apply has_prefix_length in Hs. rewrite !length_rev in Hs. cbn in Hs.
  unfold slice. rewrite decide_True by (unfold zlen; lia). apply base_name_total.
Qed.

(** One call of [V]: the reference's answer, and the cache stays right. *)
Lemma V_ref st level pc : vok st ->
  exists st', V file_of st level pc = Ret (st', ref_V (verbosity st) (vfilter st) level pc) /\ vok st' /\
    verbosity st' = verbosity st /\ vfilter st' = vfilter st.
Proof.
  intros Hst. pose proof Hst as [Hlen Hsh Hlit Hmap Hc]. unfold V, ref_V. destruct (level <=? verbosity st); [by exists st|]. cbn [orb]. rewrite Hlen.
  destruct (vfilter st) as [|m fs] eqn:Hf; [exists st; by rewrite Hf|]. rewrite zlen_cons, (proj2 (Z.ltb_lt _ _)) by (pose proof (zlen_nonneg fs); lia).
  destruct pc as [pc|]; [|exists st; by rewrite Hf]. destruct (Hmap ltac:(done)) as [M HM]. rewrite HM. cbn [mbind option_bind].
  destruct (module_name_total (file_of pc)) as [file Hfile]. rewrite Hfile, <- first_level_ref by done.
  destruct (M !! pc) as [l|] eqn:Hpc.
  - destruct (Hc M pc l HM Hpc) as (file' & Hfile' & ->). assert (file' = file) as -> by congruence. exists st.
    by rewrite Hf.
  - unfold setV. rewrite Hfile, Hf, HM. cbn [go_bind]. eexists; split; [done|]. split; [|done].
    split; cbn [filterLength vfilter vmap]; try done; [by eexists|].
    intros M' pc' l' [= <-]. destruct (decide (pc' = pc)) as [->|Hne]; [rewrite lookup_insert_eq|rewrite lookup_insert_ne by done; by eauto].
    intros [= <-]. by exists file.
Qed.

Lemma parse_filter_spec pats : forall acc fs, parse_filter pats acc = inl fs -> Forall (fun m => literal m = isLiteral (pattern m)) acc ->
  Forall (fun m => literal m = isLiteral (pattern m)) fs /\ (length fs <= length acc + length pats)%nat.
Proof.
  induction pats as [|pat pats IH]; intros acc fs; cbn; [intros [= <-] ?; split; [done|lia]|].
  case_bool_decide; [intros Hp Ha; destruct (IH _ _ Hp Ha); split; [done|lia]|].
  destruct (Split 61 pat) as [|p [|l [|? ?]]]; try done. case_match; [done|]. destruct (atoi l) as [v|]; [|done].
  destruct (v <? 0); [done|]. destruct (v =? 0); intros Hp Ha.
  - destruct (IH _ _ Hp Ha); split; [done|lia].
  - destruct (IH _ _ Hp) as [? Hl]; [apply Forall_app; by repeat constructor|]. rewrite length_app in Hl. cbn in Hl. split; [done|lia].
Qed.

Lemma Split_length sep s : (length (Split sep s) <= S (length s))%nat.
Proof. induction s as [|b s IH]; cbn; [lia|]. destruct (b =? sep); [cbn; lia|]. destruct (Split sep s); cbn in *; lia. Qed.

Definition op_ok (op : vop) : Prop := match op with OModule value => zlen value < 2 ^ 31 - 1 | _ => True end.

Lemma verbose_run_ref ops : forall st, vok st -> Forall op_ok ops ->
  verbose_run st ops = Ret (ref_run (verbosity st) (vfilter st) ops).
Proof.
  induction ops as [|op ops IH]; intros st Hst Hok; [done|]. apply Forall_cons in Hok as [Hop Hok]. destruct op as [value|value|level pc].
  - cbn [verbose_run ref_run]. unfold Level_Set. destruct (atoi value) as [v|e]; [|by rewrite IH].
    rewrite IH; [done| |done]. destruct Hst as [Hl Hsh ? ? ?]. split; try done. cbn. apply swrap_small; [lia|].
    pose proof (zlen_nonneg (vfilter st)). lia.
  - cbn [verbose_run ref_run]. unfold module_Set. destruct (parse_filter (Split 44 value) []) as [fs|e] eqn:Hp; [|by rewrite IH].
    apply parse_filter_spec in Hp as [Hlit Hlen]; [|constructor]. pose proof (Split_length 44 value). cbn in Hlen, Hop.
    assert (zlen fs < 2 ^ 31) as Hsh by (unfold zlen in *; lia). pose proof (zlen_nonneg fs).
    rewrite IH; [done| |done]. split; cbn [setVState vfilter filterLength vmap]; try done; [|by eexists|by intros M pc l [= <-]].
    apply swrap_small; lia.
  - cbn [verbose_run ref_run]. destruct (V_ref st level pc Hst) as (st' & -> & Hst' & <- & <-). cbn [go_bind]. by rewrite IH.
Qed.

End reference.

(** C39: Verbose logging is what it would be without its shortcuts: in every
    sequence of settings of -v and -vmodule and of calls of [V], each call
    answers as if every pattern were given to [filepath.Match] anew, although
    the code compares literal patterns directly and remembers the level of a
    call site; and no step panics. *)
Theorem verbose_is_uncached file_of ops : Forall op_ok ops ->
  verbose_run file_of init_vstate ops = Ret (ref_run file_of 0 [] ops).
Proof. intros Hok. apply (verbose_run_ref file_of ops init_vstate); [|done]. by split. Qed.

(** The test table of glog_test.go: patterns for the file glog_test and level 2. *)
Definition ex_glob (value : string) : list vop := [OModule (str value); OV 2 (Some 7)].

Lemma verbose_is_uncached_witness :
  (fun value => verbose_run (fun _ => str "/go/glog_test.go") init_vstate (ex_glob value)) <$>
    ["glog_test=1"; "glog_test=2"; "glog_test=3"; "*=2"; "?l*=2"; "????_*=2"; "??[mno]?_*t=2"; "*x=2"; "m*=2"; "??_*=2"; "?[abc]?_*t=2"]%string =
  (fun b => Ret [OutErr None; OutV b]) <$> [false; true; true; true; true; true; true; false; false; false; false].
Proof.
  cbn [fmap list_fmap]. rewrite !verbose_is_uncached by (repeat constructor; vm_compute; reflexivity). vm_compute. reflexivity.
Defined.

(** ** Printing and parsing *)

Definition pat_ok (m : modulePat) : Prop :=
  pattern m <> [] /\ 44 ∉ pattern m /\ 61 ∉ pattern m /\ 0 < level m < 2 ^ 31 /\ literal m = isLiteral (pattern m).

Lemma itoa_no_sep n sep : 0 <= n -> sep < 48 \/ 57 < sep -> sep ∉ itoa n.
Proof. intros Hn Hs. unfold itoa. rewrite (proj2 (Z.ltb_ge _ _)) by done. by apply dec_no_sep. Qed.

Lemma atoi_itoa n : 0 <= n < 2 ^ 63 -> atoi (itoa n) = inl n.
Proof.
  intros Hn. unfold atoi. change (ParseInt (itoa n) 0) with (ParseInt (itoa n) 64). rewrite ParseInt_itoa by lia.
  by rewrite (proj2 (Z.ltb_ge _ _)), (proj2 (Z.ltb_lt _ _)) by lia.
Qed.

Lemma itoa_nonempty n : 0 <= n -> itoa n <> [].
Proof. intros Hn. unfold itoa. rewrite (proj2 (Z.ltb_ge _ _)) by done. by destruct (dec_spec n Hn) as (_ & _ & ?). Qed.

Lemma pat_string_parses m pats acc : pat_ok m -> parse_filter (pat_string m :: pats) acc = parse_filter pats (acc ++ [m]).
Proof.
  intros (Hne & Hc & He & Hl & Hlit). unfold pat_string. cbn [parse_filter].
  rewrite bool_decide_eq_false_2 by (destruct (pattern m); done).
  change (pattern m ++ [61] ++ itoa (level m)) with (pattern m ++ 61 :: itoa (level m)).
  rewrite Split_app by done. rewrite Split_none by (apply itoa_no_sep; lia).
  rewrite !bool_decide_eq_false_2 by (done || (apply itoa_nonempty; lia)). cbn [orb].
  rewrite atoi_itoa by lia. rewrite (proj2 (Z.ltb_ge _ _)), (proj2 (Z.eqb_neq _ _)), swrap_small by lia.
  do 2 f_equal. rewrite <- Hlit. by destruct m.
Qed.

Lemma pat_string_no_comma m : pat_ok m -> 44 ∉ pat_string m.
Proof.
  intros (_ & Hc & _ & Hl & _). unfold pat_string. rewrite !not_elem_of_app. split_and!; [done|set_solver by lia|apply itoa_no_sep; lia].
Qed.

Lemma Split_spec_string fs : fs <> [] -> Forall pat_ok fs -> Split 44 (spec_string fs) = pat_string <$> fs.
Proof.
  intros Hne Hok. induction Hok as [|m fs Hm Hok IH]; [done|]. destruct fs as [|m' fs].
  - cbn. apply Split_none, pat_string_no_comma, Hm.
  - change (spec_string (m :: m' :: fs)) with (pat_string m ++ 44 :: spec_string (m' :: fs)).
    rewrite Split_app by (by apply pat_string_no_comma). by rewrite IH.
Qed.

Lemma pats_parse fs : forall acc, Forall pat_ok fs -> parse_filter (pat_string <$> fs) acc = inl (acc ++ fs).
Proof.
  induction fs as [|m fs IH]; intros acc Hok; [cbn; by rewrite app_nil_r|]. apply Forall_cons in Hok as [Hm Hok].
  cbn [fmap list_fmap]. rewrite pat_string_parses by done. by rewrite IH, <- app_assoc.
Qed.

(** The flag -vmodule survives printing and parsing: setting it to the string
    of a filter installs that filter, and empties the cache. *)
Theorem vmodule_roundtrip st fs : Forall pat_ok fs ->
  module_Set st (spec_string fs) = (setVState st (verbosity st) fs true, None).
Proof.
  intros Hok. unfold module_Set. destruct fs as [|m fs]; [done|]. rewrite Split_spec_string by done. by rewrite pats_parse.
Qed.

(** So does -log_backtrace_at. *)
Lemma trace_roundtrip t old : 58 ∉ trace_file t -> 46 ∈ trace_file t -> 0 < trace_line t < 2 ^ 63 ->
  trace_Set old (trace_string t) = (t, None).
Proof.
  intros Hc Hd Hl. unfold trace_Set, trace_string. change (trace_file t ++ [58] ++ itoa (trace_line t)) with (trace_file t ++ 58 :: itoa (trace_line t)).
  rewrite Split_app by done. rewrite Split_none by (apply itoa_no_sep; lia).
  assert (ContainsAny (trace_file t) [46] = true) as ->.
  { unfold ContainsAny. apply existsb_exists. exists 46. split; [by apply list_elem_of_In|done]. }
  cbn [negb]. rewrite atoi_itoa by lia. rewrite (proj2 (Z.leb_gt _ _)) by lia. by destruct t.
Qed.

(** The documented way to unset the location reports an error. *)
Example trace_unset t : trace_Set t [] = ({| trace_file := []; trace_line := 0 |}, Some errTraceSyntax).
Proof. reflexivity. Qed.

Lemma vmodule_roundtrip_witness :
  module_Set init_vstate (str "redis*=2,pool=1") =
    (setVState init_vstate 0 [{| pattern := str "redis*"; literal := false; level := 2 |}; {| pattern := str "pool"; literal := true; level := 1 |}] true, None).
Proof.
  apply (vmodule_roundtrip init_vstate [{| pattern := str "redis*"; literal := false; level := 2 |}; {| pattern := str "pool"; literal := true; level := 1 |}]).
  repeat constructor; cbn [pattern level literal]; try lia; try done; apply (bool_decide_unpack _); vm_compute; exact I.
Defined.
