(* ===== verification/Logger.v ===== *)
(** * glog/glog.go: writing messages

    [output] sends a finished line to standard error and to the buffers of its
    severity (Logflush.v), creating the files on first use.  The printing
    functions put the header (Loghead.v) before the text that package fmt
    makes of their arguments; [logBridge] does the same for lines of Go's
    standard logger.  The text, the caller, the clock, stack traces and what
    the file system does are arguments.  The settings of the package are those
    at the time of the first message. *)

From S2P Require Import Prelude Gostrings Resp Strconv Logfile Logblock Logflush Loghead Logflags.

(** [OutputStats] *)
Record OutputStats := mkStats { lines : Z; sbytes : Z }.

Record loggingT := mkLogging {
  toStderr : bool;
  alsoToStderr : bool;
  stderrThreshold : Z;
  freeList : list buffer;
  files : list (option logbuf);        (** [file], by severity *)
  traceLoc : traceLocation;
  fatalNoStacks : bool;
  severityStats : list OutputStats;    (** of the info, warning and error logs *)
  stderr : list Z;
  settings : globals
}.

(** Either the process goes on, or it exits with a code. *)
Inductive outcome : Type := Running (l : loggingT) | Exits (code : Z) (l : loggingT).

Definition set_files (l : loggingT) (fl : list (option logbuf)) (g : globals) : loggingT :=
  {| toStderr := toStderr l; alsoToStderr := alsoToStderr l; stderrThreshold := stderrThreshold l; freeList := freeList l;
     files := fl; traceLoc := traceLoc l; fatalNoStacks := fatalNoStacks l; severityStats := severityStats l;
     stderr := stderr l; settings := g |}.

Definition set_free (l : loggingT) (fl : list buffer) : loggingT :=
  {| toStderr := toStderr l; alsoToStderr := alsoToStderr l; stderrThreshold := stderrThreshold l; freeList := fl;
     files := files l; traceLoc := traceLoc l; fatalNoStacks := fatalNoStacks l; severityStats := severityStats l;
     stderr := stderr l; settings := settings l |}.

(** [os.Stderr.Write(data)] *)
Definition to_stderr (l : loggingT) (data : list Z) : loggingT :=
  {| toStderr := toStderr l; alsoToStderr := alsoToStderr l; stderrThreshold := stderrThreshold l; freeList := freeList l;
     files := files l; traceLoc := traceLoc l; fatalNoStacks := fatalNoStacks l; severityStats := severityStats l;
     stderr := stderr l ++ data; settings := settings l |}.

(** [if stats := severityStats[s]; stats != nil { ... }] *)
Definition count_line (l : loggingT) (s : Z) (data : list Z) : loggingT :=
  {| toStderr := toStderr l; alsoToStderr := alsoToStderr l; stderrThreshold := stderrThreshold l; freeList := freeList l;
     files := files l; traceLoc := traceLoc l; fatalNoStacks := fatalNoStacks l;
     severityStats := alter (fun st => {| lines := i64 (lines st + 1); sbytes := i64 (sbytes st + zlen data) |}) (Z.to_nat s) (severityStats l);
     stderr := stderr l; settings := settings l |}.

Section logger.
(** The machine, the directories as they are before the log starts, the stack
    traces and the texts of errors. *)
Context (o : machine) (before : nat -> fsys) (stacks : bool -> list Z) (err_text : log_err -> list Z).

(** The loop of [createFiles] with [k - 1] for its variable: from there down to
    the first severity that has a file. *)
Fixpoint create_files (now : time) (ds : nat -> disk) (l : loggingT) (k : nat) : go (loggingT * option log_err) :=
  match k with
  | O => Ret (l, None)
  | S s =>
      match files l !! s with
      | None => Panic
      | Some (Some _) => Ret (l, None)
      | Some None =>
          let! r := open_log o (Z.of_nat s) (settings l) (before s) now (ds s) in
          match r with
          | inr err => Ret (set_files l (files l) (once_dirs o (settings l)), Some err)
          | inl m => create_files now ds (set_files l (<[s := Some m]> (files l)) (once_dirs o (settings l))) s
          end
      end
  end.

Definition createFiles (now : time) (ds : nat -> disk) (l : loggingT) (sev : Z) : go (loggingT * option log_err) :=
  create_files now ds l (Z.to_nat (sev + 1)).

(** [l.file[s].Write(data)]; a line that is too long is dropped, and another
    goroutine reports its length. *)
Definition write_file (l : loggingT) (s : nat) (data : list Z) : go loggingT :=
  match files l !! s with
  | Some (Some m) => let! (sb, _) := Write (bl m) data in Ret (set_files l (<[s := Some (set_bl m sb)]> (files l)) (settings l))
  | _ => Panic
  end.

Fixpoint write_files (l : loggingT) (ss : list nat) (data : list Z) : go loggingT :=
  match ss with
  | [] => Ret l
  | s :: ss => let! l := write_file l s data in write_files l ss data
  end.

(** The [switch s] of [output]. *)
Definition route (s : Z) : list nat :=
  if s =? fatalLog then [3; 0]%nat
  else if s =? errorLog then [2; 0]%nat
  else if s =? warningLog then [1; 0]%nat
  else if s =? infoLog then [0]%nat
  else if s =? debugLog then [4]%nat
  else [].

(** [for log := debugLog; log >= infoLog; log-- { if f := l.file[log]; f != nil { f.Write(trace) } }] *)
Fixpoint write_trace (l : loggingT) (n : nat) (trace : list Z) : go loggingT :=
  match n with
  | O => Ret l
  | S s =>
      match files l !! s with
      | Some None => write_trace l s trace
      | _ => let! l := write_file l s trace in write_trace l s trace
      end
  end.

(** [output], up to the unlocking of [mu].  The flushes before [os.Exit] are
    runs of [Flush] on each buffer. *)
Definition output (l : loggingT) (s : Z) (b : buffer) (file : list Z) (line : Z) (also : bool) (now : time) (ds : nat -> disk)
    : go outcome :=
  let! tr := if isSet (traceLoc l) then trace_match (traceLoc l) file line else Ret false in
  let b := if tr : bool then {| content := content b ++ stacks false; tmp := tmp b |} else b in
  let data := content b in
  let! r :=
    if toStderr l then Ret (Running (to_stderr l data))
    else
      let l := if also || alsoToStderr l || (stderrThreshold l <=? s) then to_stderr l data else l in
      let! f := zget (files l) s in
      let! (l, err) := match f with Some _ => Ret (l, None) | None => createFiles now ds l s end in
      match err with
      | Some err => Ret (Exits 2 (to_stderr l (data ++ str "log: exiting because of error: " ++ err_text err ++ [10])))
      | None => let! l := write_files l (route s) data in Ret (Running l)
      end in
  match r with
  | Exits code l => Ret (Exits code l)
  | Running l =>
      if s =? fatalLog then
        if fatalNoStacks l then Ret (Exits 1 l)
        else
          let l := if toStderr l then l else to_stderr l (stacks false) in
          let! l := write_trace l 5 (stacks true) in
          Ret (Exits 255 l)
      else Ret (Running (count_line (set_free l (putBuffer (freeList l) b)) s data))
  end.

(** A line ends with a newline. *)
Definition end_line (b : buffer) : go buffer :=
  let! last := zget (content b) (zlen (content b) - 1) in
  Ret (if last =? 10 then b else {| content := content b ++ [10]; tmp := tmp b |}).

(** [print], [printDepth] and [printf]: [text] is what package fmt writes. *)
Definition print (l : loggingT) (s : Z) (caller : option (list Z * Z)) (text : list Z) (clock now : time) (ds : nat -> disk) : go outcome :=
  let! (b, fl, file, line) := header (pid (settings l)) clock (freeList l) s caller in
  let! b := end_line {| content := content b ++ text; tmp := tmp b |} in
  output (set_free l fl) s b file line false now ds.

(** [println]: [fmt.Fprintln] ends the line itself. *)
Definition println (l : loggingT) (s : Z) (caller : option (list Z * Z)) (text : list Z) (clock now : time) (ds : nat -> disk) : go outcome :=
  let! (b, fl, file, line) := header (pid (settings l)) clock (freeList l) s caller in
  output (set_free l fl) s {| content := content b ++ text ++ [10]; tmp := tmp b |} file line false now ds.

Definition printWithFileLine (l : loggingT) (s : Z) (file : list Z) (line : Z) (also : bool) (text : list Z) (clock now : time)
    (ds : nat -> disk) : go outcome :=
  let '(b, fl) := getBuffer (freeList l) in
  let! b := formatHeader (pid (settings l)) clock b s file line in
  let! b := end_line {| content := content b ++ text; tmp := tmp b |} in
  output (set_free l fl) s b file line also now ds.

(** [logBridge.Write]: the parts of [d.go:23: message]. *)
Definition bridge_parts (p : list Z) : go (list Z * Z * list Z) :=
  let bad := (str "???", 1, str "bad log format: " ++ p) in
  let '(file, rest) := cut 58 p in
  let '(num, text) := cut 58 rest in
  if (zlen p <=? zlen file) || (zlen rest <=? zlen num) || (zlen file <? 1) || (zlen text <? 1) then Ret bad
  else
    let! text := slice text 1 (zlen text) in
    match atoi num with
    | inl line => Ret (file, line, text)
    | inr _ => Ret (file, 1, str "bad line number: " ++ p)
    end.

Definition bridge_Write (l : loggingT) (sev : Z) (p : list Z) (clock now : time) (ds : nat -> disk) : go (outcome * Z) :=
  let! (file, line, text) := bridge_parts p in
  let! r := printWithFileLine l sev file line true text clock now ds in
  Ret (r, zlen p).

(** [CopyStandardLogTo]: the severity of the bridge, or a panic. *)
Definition CopyStandardLogTo (name : list Z) : go Z := match severityByName name with Some sev => Ret sev | None => Panic end.

(** The printing functions of the package. *)
Definition Info l := print l infoLog.
Definition Warning l := print l warningLog.
Definition Error l := print l errorLog.
Definition Debug (l : loggingT) (caller : option (list Z * Z)) (text : list Z) (clock now : time) (ds : nat -> disk) : go outcome :=
  if glogLevel (settings l) <? debugLog then Ret (Running l) else print l debugLog caller text clock now ds.
Definition Exit (l : loggingT) (caller : option (list Z * Z)) (text : list Z) (clock now : time) (ds : nat -> disk) : go outcome :=
  print {| toStderr := toStderr l; alsoToStderr := alsoToStderr l; stderrThreshold := stderrThreshold l; freeList := freeList l;
           files := files l; traceLoc := traceLoc l; fatalNoStacks := true; severityStats := severityStats l;
           stderr := stderr l; settings := settings l |} fatalLog caller text clock now ds.

(** [V(level).Info] *)
Definition Verbose_Info (v : bool) (l : loggingT) (caller : option (list Z * Z)) (text : list Z) (clock now : time) (ds : nat -> disk) : go outcome :=
  if v then print l infoLog caller text clock now ds else Ret (Running l).

(** ** Runs of the logger

    Messages are logged one after the other, since [output] holds [mu]; the
    steps of flushes interleave with them. *)

Inductive event : Type :=
| ELog (s : Z) (caller : option (list Z * Z)) (text : list Z) (clock now : time) (ds : nat -> disk)
| EStd (sev : Z) (p : list Z) (clock now : time) (ds : nat -> disk)
| EFlush (s : nat) (lab : label).

(** [None]: the step is not enabled, or the process exits. *)
Definition going (r : outcome) : option loggingT := match r with Running l => Some l | Exits _ _ => None end.

Definition logger_step (l : loggingT) (e : event) : go (option loggingT) :=
  match e with
  | ELog s caller text clock now ds => let! r := print l s caller text clock now ds in Ret (going r)
  | EStd sev p clock now ds => let! (r, _) := bridge_Write l sev p clock now ds in Ret (going r)
  | EFlush s lab =>
      match lab, files l !! s with
      | LWrite _, _ => Ret None
      | _, Some (Some m) =>
          let! r := step o (Z.of_nat s) m lab in
          Ret (m' ← r; if exited m' then None else Some (set_files l (<[s := Some m']> (files l)) (settings l)))
      | _, _ => Ret None
      end
  end.

Fixpoint logger_run (l : loggingT) (es : list event) : go (option loggingT) :=
  match es with
  | [] => Ret (Some l)
  | e :: es => let! r := logger_step l e in match r with Some l => logger_run l es | None => Ret None end
  end.

End logger.

(** ** What a message becomes *)






(** ** The buffers of the severities *)

Section routing.
Context (o : machine) (before : nat -> fsys) (stacks : bool -> list Z) (err_text : log_err -> list Z).
Context (g0 : globals) (Hpid : 0 <= pid g0 < 10 ^ 7).

















(** ** Writing a line *)











(** ** Messages *)



























End routing.




(** ** A run *)

Definition ex_logger (level : Z) : loggingT :=
  {| toStderr := false; alsoToStderr := false; stderrThreshold := errorLog; freeList := []; files := replicate 5 None;
     traceLoc := {| trace_file := []; trace_line := 0 |}; fatalNoStacks := false;
     severityStats := replicate 3 {| lines := 0; sbytes := 0 |}; stderr := [];
     settings := {| logDirs := []; onceLogDirs := false; logDir := str "/log/"; program := str "web"; pid := 77; host := str "h";
                    userName := str "u"; VERSION := str "v1"; DATE := str "d1"; glogLevel := level |} |}.

Definition ex_log (s : Z) (text : string) : event :=
  ELog s (Some (str "/go/db.go", 12)) (str text) (ex_time 3) (ex_time 3) (fun _ => ex_disk).

Definition ex_logged (es : list event) : option loggingT :=
  match logger_run ex_machine (fun _ => ex_fs) (fun _ => []) (fun _ => []) (ex_logger 4) es with Ret r => r | Panic => None end.

(** The bytes waiting in the current block of a severity. *)
Definition waiting (l : loggingT) (s : nat) : option (list Z) :=
  match files l !! s with Some (Some m) => contents <$> store (bl m) !! curblock (bl m) | _ => None end.

(** An error goes to the files ERROR and INFO, and not to WARNING; a debug
    message only to DEBUG, and, as the highest severity, to standard error. *)
Example error_and_debug :
  match ex_logged [ex_log errorLog "lost"; ex_log debugLog "trace"] with
  | Some l => ((fun s => waiting l s) <$> seq 0 5, stderr l)
  | None => ([], [])
  end =
  let e := str "E0301 12:00:03.000000      77 db.go:12] lost" ++ [10] in
  let d := str "D0301 12:00:03.000000      77 db.go:12] trace" ++ [10] in
  ([Some e; Some []; Some e; Some []; Some d], e ++ d).
Proof. vm_compute. reflexivity. Qed.






