(* ===== verification/Initenv.v ===== *)
(** * common/env.go: the environment of a process

    [InitEnv] loads the configuration (Utils.v) and sets the flags and the
    destination of the log (Logflags.v, Logfile.v).  The command line, the
    file and the decoder of JSON are arguments. *)

From S2P Require Import Prelude Gostrings Resp Strconv Utils Logfile Logflags Logger.

(** [boolValue.Set] of package flag: the variable is set also when parsing fails. *)
Definition bool_Set (value : list Z) : bool := (ParseBool value).1.

Definition set_flags (l : loggingT) (std : bool) (threshold : Z) (g : globals) : loggingT :=
  {| toStderr := std; alsoToStderr := alsoToStderr l; stderrThreshold := threshold; freeList := freeList l;
     files := files l; traceLoc := traceLoc l; fatalNoStacks := fatalNoStacks l; severityStats := severityStats l;
     stderr := stderr l; settings := g |}.

Definition InitEnv (unmarshal : list Z -> config -> config * bool) (read : list Z -> option (list Z)) (logfile conf : list Z)
    (svrName : list Z) (configData : config) (l : loggingT) : go (bool * config * loggingT) :=
  let '(configData, ok) := Load unmarshal configData (read conf) in
  if negb ok then Ret (false, configData, l)
  else
    let loglevel := Get configData (str "global") (str "loglevel") in
    let l :=
      if bool_decide (loglevel = []) then l
      else set_flags l (toStderr l) (severity_Set (stderrThreshold l) loglevel).1 (SetLogLevel (settings l) loglevel).1 in
    let logtostderr := Get configData (str "global") (str "logtostderr") in
    let l := if bool_decide (logtostderr = []) then l else set_flags l (bool_Set logtostderr) (stderrThreshold l) (settings l) in
    let! g := SetLogFile (settings l) (if bool_decide (logfile = []) then Get configData svrName (str "log") else logfile) in
    Ret (true, configData, set_flags l (toStderr l) (stderrThreshold l) g).

(** The name of a severity does not start with a digit. *)
Lemma severity_number n : 0 <= n -> severityByName (itoa n) = None.
Proof.
  intros Hn. unfold itoa. rewrite (proj2 (Z.ltb_ge _ _)) by done. destruct (dec_spec n Hn) as (_ & Hd & Hne).
  destruct (dec n) as [|d ds]; [done|]. apply Forall_cons in Hd as [Hd _]. unfold severityByName. cbn [ToUpper fmap list_fmap].
  unfold upper at 1. rewrite (proj2 (Z.leb_gt _ _)) by lia. cbn [andb]. unfold severityName.
  cbn [name_index]. rewrite !bool_decide_false by (intros [= ? ?]; lia). done.
Qed.

(** A numeric level and a path: messages from that level on go to standard
    error, debug messages are logged from level 4 on, and the log goes to the
    path. *)
Lemma InitEnv_numeric unmarshal read svrName configData cfg f l n dir base :
  read (str "config.json") = Some f -> unmarshal (strip_comments f) configData = (cfg, true) ->
  Get cfg (str "global") (str "loglevel") = itoa n -> 0 <= n < 2 ^ 31 ->
  Get cfg (str "global") (str "logtostderr") = [] -> Get cfg svrName (str "log") = dir ++ 47 :: base -> 47 ∉ base ->
  exists l', InitEnv unmarshal read [] (str "config.json") svrName configData l = Ret (true, cfg, l') /\
    stderrThreshold l' = n /\ glogLevel (settings l') = n /\ toStderr l' = toStderr l /\
    logDir (settings l') = dir ++ [47] /\ program (settings l') = base.
Proof.
  intros Hread Hun Hlev Hn Hstd Hlog Hb. unfold InitEnv, Load. rewrite Hread, Hun. cbn [negb].
  rewrite Hlev, Hstd, Hlog. rewrite (bool_decide_false (itoa n = [])) by (apply itoa_nonempty; lia). rewrite !bool_decide_true by done.
  cbn [settings set_flags stderrThreshold toStderr]. unfold severity_Set. rewrite severity_number, atoi_itoa by lia.
  unfold SetLogLevel. change (ParseInt (itoa n) 0) with (ParseInt (itoa n) 64). rewrite ParseInt_itoa by lia.
  rewrite (proj2 (Z.ltb_ge _ _)), (proj2 (Z.ltb_lt _ _)), swrap_small by lia. cbn [fst].
  match goal with |- context [SetLogFile ?g _] => destruct (SetLogFile_path g dir base Hb) as (g' & Hg & Hdir & Hprog & _);
    assert (glogLevel g' = n) as Hlv end.
  { revert Hg. unfold SetLogFile. case_match; [by intros [= <-]|]. case_match; [by intros [= <-]|].
    destruct (slice _ _ _); cbn [go_bind]; [|done]. destruct (slice _ _ _); cbn [go_bind]; [|done]. by intros [= <-]. }
  rewrite Hg. cbn [go_bind]. eexists. split; [done|]. by cbn.
Qed.

(** A level given by name only sets the threshold of standard error: the level
    of [Debug] stays what it was. *)
Example level_by_name :
  match InitEnv (fun _ c => (<[str "global" := {[str "loglevel" := str "DEBUG"]}]> c, true)) (fun _ => Some []) [] (str "config.json")
          (str "web") ∅ (ex_logger 0) with
  | Ret (_, _, l) => (stderrThreshold l, glogLevel (settings l))
  | Panic => (0, 0)
  end = (debugLog, 0).
Proof. vm_compute. reflexivity. Qed.
