(* ===== verification/Redismsg.v ===== *)
(** * proxy/redismsg.cpp: the message parser of the proxy

    The proxy reads bytes from clients and servers into buffers and has
    [GR_RedisMsg] find the messages in them.  The parser is a state machine: it
    is called again whenever bytes have arrived ([Expand]), and the buffer may
    move between two calls ([Reset]).  An array inside an array is parsed by
    another [GR_RedisMsg], the next layer.

    Pointers are addresses, null is 0, the memory is a function from addresses
    to bytes.  An [int] that overflows is undefined, which is [Panic]. *)

From S2P Require Import Prelude Gostrings Resp.

(** The states, [REDIS_MSG_TYPE]. *)
Inductive msg_state : Type :=
| GR_START
| GR_STAR | GR_NARG | GR_NARG_NAG_ONE | GR_NARG_NAG_ONE_CRLF | GR_NARG_ZERO | GR_NARG_CRLF
| GR_READING_LINE | GR_IN_NEXT_LAYER
| GR_PLUS | GR_PLUS_STR | GR_PLUS_CRLF | GR_SUB | GR_SUB_STR | GR_SUB_CRLF
| GR_COLON | GR_COLON_NUM | GR_COLEN_CRLF
| GR_USD | GR_USD_NUM | GR_USD_ZERO | GR_USD_NUM_CRLF | GR_USD_STR | GR_USD_EMPTY | GR_USD_EMPTY_ONE
| GR_STR | GR_STR_CRLF
| GR_END.
#[global] Instance msg_state_eq : EqDecision msg_state.
Proof. solve_decision. Defined.

(** The codes a call returns. *)
Inductive code : Type := GR_OK | GR_ERROR | GR_START_NULL.
#[global] Instance code_eq : EqDecision code.
Proof. solve_decision. Defined.

Record MsgInfo := mkInfo {
  iLen : Z;
  szKeyStart : Z;
  iKeyLen : Z;
  bKeyLine : bool;
  szCmd : Z;
  iCmdLen : Z;
  iArgLen : Z;
  iNowLine : Z;
  iKeyInLines : Z;
  iNeedArgNum : Z;
  nowState : msg_state;
  iErrFlag : Z;
  iMaxLen : Z
}.

(** [GR_RedisMsgMeta] *)
Record meta := mkMeta { meta_start : Z; meta_len : Z }.

Inductive RedisMsg : Type := mkMsg {
  m_Info : MsgInfo;
  szStart : Z;
  szEnd : Z;
  szNowPos : Z;
  line : meta;
  bReadingLine : bool;
  pNextLayer : option RedisMsg
}.

(** [memset(&this->m_Info, 0, sizeof(MsgInfo))] *)
Definition no_info : MsgInfo :=
  {| iLen := 0; szKeyStart := 0; iKeyLen := 0; bKeyLine := false; szCmd := 0; iCmdLen := 0; iArgLen := 0; iNowLine := 0;
     iKeyInLines := 0; iNeedArgNum := 0; nowState := GR_START; iErrFlag := 0; iMaxLen := 0 |}.

Definition Init (szNewStart : Z) : RedisMsg :=
  {| m_Info := no_info; szStart := szNewStart; szEnd := szNewStart; szNowPos := szNewStart;
     line := {| meta_start := 0; meta_len := 0 |}; bReadingLine := false; pNextLayer := None |}.

Definition set_info (s : RedisMsg) (i : MsgInfo) : RedisMsg :=
  {| m_Info := i; szStart := szStart s; szEnd := szEnd s; szNowPos := szNowPos s; line := line s;
     bReadingLine := bReadingLine s; pNextLayer := pNextLayer s |}.
Definition set_line (s : RedisMsg) (l : meta) : RedisMsg :=
  {| m_Info := m_Info s; szStart := szStart s; szEnd := szEnd s; szNowPos := szNowPos s; line := l;
     bReadingLine := bReadingLine s; pNextLayer := pNextLayer s |}.
Definition set_reading (s : RedisMsg) (b : bool) : RedisMsg :=
  {| m_Info := m_Info s; szStart := szStart s; szEnd := szEnd s; szNowPos := szNowPos s; line := line s;
     bReadingLine := b; pNextLayer := pNextLayer s |}.
Definition set_start (s : RedisMsg) (a : Z) : RedisMsg :=
  {| m_Info := m_Info s; szStart := a; szEnd := szEnd s; szNowPos := szNowPos s; line := line s;
     bReadingLine := bReadingLine s; pNextLayer := pNextLayer s |}.
Definition set_end (s : RedisMsg) (a : Z) : RedisMsg :=
  {| m_Info := m_Info s; szStart := szStart s; szEnd := a; szNowPos := szNowPos s; line := line s;
     bReadingLine := bReadingLine s; pNextLayer := pNextLayer s |}.
Definition set_now (s : RedisMsg) (a : Z) : RedisMsg :=
  {| m_Info := m_Info s; szStart := szStart s; szEnd := szEnd s; szNowPos := a; line := line s;
     bReadingLine := bReadingLine s; pNextLayer := pNextLayer s |}.
Definition set_layer (s : RedisMsg) (l : option RedisMsg) : RedisMsg :=
  {| m_Info := m_Info s; szStart := szStart s; szEnd := szEnd s; szNowPos := szNowPos s; line := line s;
     bReadingLine := bReadingLine s; pNextLayer := l |}.

(** Updates of fields of [MsgInfo]. *)
Definition set_len (i : MsgInfo) (n : Z) : MsgInfo :=
  {| iLen := n; szKeyStart := szKeyStart i; iKeyLen := iKeyLen i; bKeyLine := bKeyLine i; szCmd := szCmd i;
     iCmdLen := iCmdLen i; iArgLen := iArgLen i; iNowLine := iNowLine i; iKeyInLines := iKeyInLines i;
     iNeedArgNum := iNeedArgNum i; nowState := nowState i; iErrFlag := iErrFlag i; iMaxLen := iMaxLen i |}.
Definition set_key (i : MsgInfo) (a n : Z) : MsgInfo :=
  {| iLen := iLen i; szKeyStart := a; iKeyLen := n; bKeyLine := bKeyLine i; szCmd := szCmd i;
     iCmdLen := iCmdLen i; iArgLen := iArgLen i; iNowLine := iNowLine i; iKeyInLines := iKeyInLines i;
     iNeedArgNum := iNeedArgNum i; nowState := nowState i; iErrFlag := iErrFlag i; iMaxLen := iMaxLen i |}.
Definition set_cmd (i : MsgInfo) (a n : Z) : MsgInfo :=
  {| iLen := iLen i; szKeyStart := szKeyStart i; iKeyLen := iKeyLen i; bKeyLine := bKeyLine i; szCmd := a;
     iCmdLen := n; iArgLen := iArgLen i; iNowLine := iNowLine i; iKeyInLines := iKeyInLines i;
     iNeedArgNum := iNeedArgNum i; nowState := nowState i; iErrFlag := iErrFlag i; iMaxLen := iMaxLen i |}.
Definition set_arg (i : MsgInfo) (n : Z) : MsgInfo :=
  {| iLen := iLen i; szKeyStart := szKeyStart i; iKeyLen := iKeyLen i; bKeyLine := bKeyLine i; szCmd := szCmd i;
     iCmdLen := iCmdLen i; iArgLen := n; iNowLine := iNowLine i; iKeyInLines := iKeyInLines i;
     iNeedArgNum := iNeedArgNum i; nowState := nowState i; iErrFlag := iErrFlag i; iMaxLen := iMaxLen i |}.
Definition set_lines (i : MsgInfo) (n k : Z) (b : bool) : MsgInfo :=
  {| iLen := iLen i; szKeyStart := szKeyStart i; iKeyLen := iKeyLen i; bKeyLine := b; szCmd := szCmd i;
     iCmdLen := iCmdLen i; iArgLen := iArgLen i; iNowLine := n; iKeyInLines := k;
     iNeedArgNum := iNeedArgNum i; nowState := nowState i; iErrFlag := iErrFlag i; iMaxLen := iMaxLen i |}.
Definition set_need (i : MsgInfo) (n : Z) : MsgInfo :=
  {| iLen := iLen i; szKeyStart := szKeyStart i; iKeyLen := iKeyLen i; bKeyLine := bKeyLine i; szCmd := szCmd i;
     iCmdLen := iCmdLen i; iArgLen := iArgLen i; iNowLine := iNowLine i; iKeyInLines := iKeyInLines i;
     iNeedArgNum := n; nowState := nowState i; iErrFlag := iErrFlag i; iMaxLen := iMaxLen i |}.
Definition set_state (i : MsgInfo) (st : msg_state) : MsgInfo :=
  {| iLen := iLen i; szKeyStart := szKeyStart i; iKeyLen := iKeyLen i; bKeyLine := bKeyLine i; szCmd := szCmd i;
     iCmdLen := iCmdLen i; iArgLen := iArgLen i; iNowLine := iNowLine i; iKeyInLines := iKeyInLines i;
     iNeedArgNum := iNeedArgNum i; nowState := st; iErrFlag := iErrFlag i; iMaxLen := iMaxLen i |}.
Definition set_err (i : MsgInfo) : MsgInfo :=
  {| iLen := iLen i; szKeyStart := szKeyStart i; iKeyLen := iKeyLen i; bKeyLine := bKeyLine i; szCmd := szCmd i;
     iCmdLen := iCmdLen i; iArgLen := iArgLen i; iNowLine := iNowLine i; iKeyInLines := iKeyInLines i;
     iNeedArgNum := iNeedArgNum i; nowState := nowState i; iErrFlag := 1; iMaxLen := iMaxLen i |}.
Definition set_max (i : MsgInfo) (n : Z) : MsgInfo :=
  {| iLen := iLen i; szKeyStart := szKeyStart i; iKeyLen := iKeyLen i; bKeyLine := bKeyLine i; szCmd := szCmd i;
     iCmdLen := iCmdLen i; iArgLen := iArgLen i; iNowLine := iNowLine i; iKeyInLines := iKeyInLines i;
     iNeedArgNum := iNeedArgNum i; nowState := nowState i; iErrFlag := iErrFlag i; iMaxLen := n |}.

(** The value of an [int] expression. *)
Definition int (z : Z) : go Z := if (- 2 ^ 31 <=? z) && (z <? 2 ^ 31) then Ret z else Panic.

(** [isdigit] *)
Definition is_digit_char (ch : Z) : bool := (48 <=? ch) && (ch <=? 57).

Definition to_state (s : RedisMsg) (st : msg_state) : RedisMsg := set_info s (set_state (m_Info s) st).

(** [GR_MSG_STEP_FORWARD] *)
Definition forward (s : RedisMsg) (n : Z) : go RedisMsg :=
  let! l := int (iLen (m_Info s) + n) in
  Ret (set_now (set_info s (set_len (m_Info s) l)) (szNowPos s + n)).

(** [GR_MSG_KEY_START] *)
Definition key_start (bKey : bool) (s : RedisMsg) (p : Z) : RedisMsg :=
  if (szKeyStart (m_Info s) =? 0) && bKey then set_info s (set_key (m_Info s) p (iKeyLen (m_Info s))) else s.

(** [GR_MSG_CMD_INFO] *)
Definition cmd_info (s : RedisMsg) (p : Z) : RedisMsg :=
  if szCmd (m_Info s) =? 0 then set_info s (set_cmd (m_Info s) p (iArgLen (m_Info s))) else s.

(** [str4icmp] and the like. *)
Fixpoint icmp (mem : Z -> Z) (m : Z) (l : list Z) : bool :=
  match l with
  | [] => true
  | c :: l => ((mem m =? c) || (mem m =? Z.lxor c 32)) && icmp mem (m + 1) l
  end.

Definition KeyInLine (mem : Z -> Z) (i : MsgInfo) : Z :=
  if (iCmdLen i =? 4) && icmp mem (szCmd i) (str "eval") then 4
  else if (iCmdLen i =? 7) && icmp mem (szCmd i) (str "evalsha") then 4
  else 2.

(** What a round of the loop of [ReadLine] does: go on, or return. *)
Inductive line_res : Type := LMore (s : RedisMsg) (p : Z) | LTrue (s : RedisMsg) | LFalse (s : RedisMsg) (r : code).

(** A round of the loop of [ReadLine] outside the next layer.  With a key of
    more than 2048 bytes the source returns [GR_ERROR], which is [true]. *)
Definition line_char (mem : Z -> Z) (bKey : bool) (s : RedisMsg) (p : Z) : go line_res :=
  let ch := mem p in
  match nowState (m_Info s) with
  | GR_READING_LINE =>
      if (ch =? 43) || (ch =? 45) || (ch =? 58) then
        let! s := forward (to_state s GR_STR) 1 in
        let s := set_line s {| meta_start := meta_start (line s); meta_len := iLen (m_Info s) |} in
        Ret (LMore (key_start bKey s p) (p + 1))
      else if ch =? 36 then
        let s := to_state s GR_USD_NUM in
        let! s := forward (set_info s (set_arg (m_Info s) 0)) 1 in
        Ret (LMore s (p + 1))
      else Ret (LFalse s GR_ERROR)
  | GR_STR =>
      let! s := forward s 1 in
      Ret (LMore (if ch =? 13 then to_state s GR_STR_CRLF else s) (p + 1))
  | GR_STR_CRLF =>
      let l := iLen (m_Info s) - meta_len (line s) - 1 in
      let s := set_line s {| meta_start := szNowPos s - l - 1; meta_len := l |} in
      let! s := forward s 1 in
      if ch =? 10 then
        let s := set_reading s false in
        let i := m_Info s in
        Ret (LTrue (if negb (szKeyStart i =? 0) && (iKeyLen i =? 0)
                    then set_info s (set_key i (szKeyStart i) (p - 1 - szKeyStart i)) else s))
      else Ret (LFalse s GR_ERROR)
  | GR_USD_NUM =>
      let! s := forward s 1 in
      let i := m_Info s in
      if is_digit_char ch then
        let! n := int (iArgLen i * 10 + (ch - 48)) in
        Ret (LMore (set_info s (set_arg i n)) (p + 1))
      else if ch =? 13 then
        let i := if iMaxLen i <? iArgLen i then set_max i (iArgLen i) else i in
        Ret (LMore (to_state (set_info s i) GR_USD_NUM_CRLF) (p + 1))
      else if ch =? 45 then
        let s := to_state s GR_USD_EMPTY in
        Ret (if iArgLen i =? 0 then LMore s (p + 1) else LFalse s GR_ERROR)
      else Ret (LFalse s GR_ERROR)
  | GR_USD_NUM_CRLF =>
      let! s := forward s 1 in
      if ch =? 10 then
        let s := set_line s {| meta_start := meta_start (line s); meta_len := iLen (m_Info s) |} in
        let s := to_state s GR_USD_STR in
        let iTmpLen := szEnd s - p in
        if (iTmpLen =? 1) || (iArgLen (m_Info s) =? 0) then Ret (LMore s (p + 1))
        else
          let s := cmd_info (key_start bKey s (p + 1)) (p + 1) in
          let n := if iArgLen (m_Info s) <? iTmpLen then iArgLen (m_Info s) else iTmpLen - 1 in
          let! s := forward s n in
          let s := set_info s (set_arg (m_Info s) (iArgLen (m_Info s) - n)) in
          Ret (LMore s (szNowPos s))
      else Ret (LFalse s GR_OK)
  | GR_USD_STR =>
      let! s := forward (cmd_info (key_start bKey s p) p) 1 in
      if iArgLen (m_Info s) =? 0 then
        if ch =? 13 then Ret (LMore (to_state s GR_STR_CRLF) (p + 1)) else Ret (LFalse s GR_ERROR)
      else Ret (LMore (set_info s (set_arg (m_Info s) (iArgLen (m_Info s) - 1))) (p + 1))
  | GR_USD_ZERO =>
      let! s := forward s 1 in
      Ret (if ch =? 13 then LMore (to_state s GR_STR_CRLF) (p + 1) else LFalse s GR_ERROR)
  | GR_USD_EMPTY =>
      let! s := forward s 1 in
      if ch =? 49 then
        let s := set_line s {| meta_start := meta_start (line s); meta_len := iLen (m_Info s) |} in
        Ret (LMore (to_state s GR_USD_EMPTY_ONE) (p + 1))
      else Ret (LFalse s GR_ERROR)
  | GR_USD_EMPTY_ONE =>
      let! s := forward s 1 in
      Ret (if ch =? 13 then LMore (to_state s GR_STR_CRLF) (p + 1) else LFalse s GR_ERROR)
  | _ => Ret (LFalse s GR_ERROR)
  end.

(** A round of the loop of [ParseRsp] that is not in a line. *)
Definition parse_char (mem : Z -> Z) (s : RedisMsg) (p : Z) : go (RedisMsg * option code) :=
  let ch := mem p in
  let! s := forward s 1 in
  let i := m_Info s in
  match nowState i with
  | GR_START =>
      let s := set_reading (set_start (set_info s (set_need i 1)) p) false in
      let i := m_Info s in
      let reads i := Ret (set_reading (set_info s i) true, None) in
      if (ch =? 43) || (ch =? 58) || (ch =? 80) then reads (set_state i GR_STR)
      else if ch =? 45 then reads (set_err (set_state i GR_STR))
      else if ch =? 36 then reads (set_arg (set_state i GR_USD_NUM) 0)
      else if ch =? 42 then Ret (set_info s (set_need (set_state i GR_NARG) 0), None)
      else if ch =? 0 then Ret (set_info s (set_len i 0), Some GR_START_NULL)
      else Ret (s, Some GR_ERROR)
  | GR_NARG =>
      if is_digit_char ch then
        let! n := int (iNeedArgNum i * 10 + (ch - 48)) in
        let i := set_need i n in
        Ret (set_info s (if n =? 0 then set_state i GR_NARG_ZERO else i), None)
      else if ch =? 13 then Ret (to_state s GR_NARG_CRLF, None)
      else if ch =? 45 then Ret (to_state s GR_NARG_NAG_ONE, None)
      else Ret (s, Some GR_ERROR)
  | GR_NARG_ZERO => Ret (if ch =? 13 then (to_state s GR_NARG_CRLF, None) else (s, Some GR_ERROR))
  | GR_NARG_NAG_ONE => Ret (if ch =? 49 then (to_state s GR_NARG_ZERO, None) else (s, Some GR_ERROR))
  | GR_NARG_CRLF =>
      Ret (if ch =? 10 then
             if iNeedArgNum i =? 0 then (to_state s GR_END, Some GR_OK)
             else (set_reading (to_state s GR_READING_LINE) true, None)
           else (s, Some GR_ERROR))
  | _ => Ret (s, None)
  end.

(** [ParseRsp] after a line: whether the next one is the key's, ... *)
Definition next_key (mem : Z -> Z) (i : MsgInfo) : MsgInfo :=
  let n := iNowLine i + 1 in
  if negb (szCmd i =? 0) && (szKeyStart i =? 0) then
    let k := if iKeyInLines i =? 0 then KeyInLine mem i else iKeyInLines i in
    set_lines i n k ((k =? n + 1) || bKeyLine i)
  else set_lines i n (iKeyInLines i) (bKeyLine i).

(** ... and whether there is one. *)
Definition line_done (mem : Z -> Z) (s : RedisMsg) : RedisMsg * bool :=
  let i := next_key mem (m_Info s) in
  let i := set_need i (iNeedArgNum i - 1) in
  if iNeedArgNum i =? 0 then (set_info s (set_state i GR_END), true)
  else (set_reading (set_info s (set_state i GR_READING_LINE)) true, false).

(** [ReadLine] after the next layer has been parsed. *)
Definition layer_done (s l : RedisMsg) : go RedisMsg :=
  let! n := int (iLen (m_Info s) + iLen (m_Info l)) in
  let s := set_reading (set_layer s (Some l)) false in
  let s := set_line (set_info s (set_len (m_Info s) n)) {| meta_start := meta_start (line s); meta_len := iLen (m_Info l) |} in
  Ret (set_now s (szNowPos s + iLen (m_Info l))).

(** [ParseRsp] without results and [ReadLine]; [p] is the variable of their
    loops. *)
Fixpoint parse_loop (fuel : nat) (mem : Z -> Z) (s : RedisMsg) (p : Z) : go (RedisMsg * code) :=
  if szNowPos s <? szEnd s then
    match fuel with
    | O => Panic
    | S fuel =>
        if bReadingLine s then
          let! (s, done, r) := read_loop fuel mem (bKeyLine (m_Info s)) s (szNowPos s) in
          if done : bool then
            let '(s, last) := line_done mem s in
            if last : bool then Ret (s, GR_OK) else parse_loop fuel mem s (p + 1)
          else Ret (s, r)
        else
          let! (s, r) := parse_char mem s p in
          match r with
          | Some r => Ret (s, r)
          | None => parse_loop fuel mem s (p + 1)
          end
    end
  else Ret (s, GR_OK)
with read_loop (fuel : nat) (mem : Z -> Z) (bKey : bool) (s : RedisMsg) (p : Z) : go (RedisMsg * bool * code) :=
  if p <? szEnd s then
    match fuel with
    | O => Panic
    | S fuel =>
        if bool_decide (nowState (m_Info s) = GR_IN_NEXT_LAYER) then
          match pNextLayer s with
          | None => Panic
          | Some l =>
              let! (l, r) := parse_loop fuel mem l (szNowPos l) in
              if bool_decide (r = GR_OK) && bool_decide (nowState (m_Info l) = GR_END)
              then let! s := layer_done s l in Ret (s, true, GR_OK)
              else Ret (set_layer s (Some l), false, r)
          end
        else if bool_decide (nowState (m_Info s) = GR_READING_LINE) && (mem p =? 42) then
          let s := set_line s {| meta_start := szNowPos s; meta_len := meta_len (line s) |} in
          let s := to_state s GR_IN_NEXT_LAYER in
          let! (l, r) := parse_loop fuel mem (set_end (Init (szNowPos s)) (szEnd s)) (szNowPos s) in
          if bool_decide (r = GR_OK) then
            if bool_decide (nowState (m_Info l) = GR_END)
            then let! s := layer_done s l in Ret (s, true, GR_OK)
            else read_loop fuel mem bKey (set_layer s (Some l)) (p + 1)
          else Ret (set_layer s (Some l), false, r)
        else
          let! r := line_char mem bKey s p in
          match r with
          | LMore s p => read_loop fuel mem bKey s p
          | LTrue s => Ret (s, true, GR_OK)
          | LFalse s r => Ret (s, false, r)
          end
    end
  else Ret (s, false, GR_OK).

Definition parse_fuel (s : RedisMsg) : nat := Z.to_nat (3 * (szEnd s - szNowPos s) + 4).

Definition ParseRsp (mem : Z -> Z) (s : RedisMsg) : go (RedisMsg * code) :=
  parse_loop (parse_fuel s) mem s (szNowPos s).

(** [Expand], also [REDISMSG_EXPAND]: [n] more bytes have arrived. *)
Fixpoint Expand (s : RedisMsg) (n : Z) : RedisMsg :=
  match s with
  | mkMsg i a e q ln rd l => mkMsg i a (e + n) q ln rd (match l with None => None | Some l => Some (Expand l n) end)
  end.

(** A layer in a buffer that has moved by [d]; the command's address stays. *)
Fixpoint move_layer (s : RedisMsg) (d : Z) : RedisMsg :=
  match s with
  | mkMsg i a e q ln rd l =>
      mkMsg (if szKeyStart i =? 0 then i else set_key i (szKeyStart i + d) (iKeyLen i)) (a + d) (e + d) (q + d) ln rd
            (match l with None => None | Some l => Some (move_layer l d) end)
  end.

Definition Reset (s : RedisMsg) (szNewStart : Z) : RedisMsg := move_layer s (szNewStart - szStart s).

(** The message has been used; the next one follows. *)
Definition StartNext (s : RedisMsg) : RedisMsg :=
  let a := szStart s + iLen (m_Info s) in
  set_reading (set_info (set_now (set_start s a) a) no_info) false.
