(* ===== verification/Redisstream.v ===== *)
(** * proxy/redismsg.cpp: replies in a stream

    What the parser of Redismsg.v does with the bytes of a reply, in whatever
    pieces they arrive. *)

From S2P Require Import Prelude Gostrings Resp Strconv Redismsg.

(** The replies of a server. *)
Inductive rval : Type :=
| RLine (c : Z) (s : list Z)
| RBulk (s : list Z)
| RNull
| RNullArr
| RArr (vs : list rval).

Definition crlf : list Z := [13; 10].

Fixpoint wire (v : rval) : list Z :=
  match v with
  | RLine c s => c :: s ++ crlf
  | RBulk s => 36 :: dec (zlen s) ++ crlf ++ s ++ crlf
  | RNull => 36 :: 45 :: 49 :: crlf
  | RNullArr => 42 :: 45 :: 49 :: crlf
  | RArr vs => 42 :: dec (zlen vs) ++ crlf ++ concat (map wire vs)
  end.

Definition wires (vs : list rval) : list Z := concat (map wire vs).

(** A line starts with plus, minus or colon and does not contain CR. *)
Fixpoint valid (v : rval) : Prop :=
  match v with
  | RLine c s => (c = 43 \/ c = 45 \/ c = 58) /\ 13 ∉ s
  | RArr vs => (fix all l := match l with [] => True | v :: l => valid v /\ all l end) vs
  | _ => True
  end.

Definition all_valid (vs : list rval) : Prop := Forall valid vs.

Lemma valid_arr vs : valid (RArr vs) <-> all_valid vs.
Proof.
  cbn. unfold all_valid. induction vs as [|v vs IH]; [by split; constructor|].
  rewrite Forall_cons, IH. done.
Qed.

Lemma wires_cons v vs : wires (v :: vs) = wire v ++ wires vs.
Proof. done. Qed.

Lemma wire_pos v : 0 < zlen (wire v).
Proof. destruct v; cbn -[zlen dec crlf]; rewrite zlen_cons; apply Z.lt_le_trans with 1; try lia; rewrite <- (Z.add_0_r 1) at 1; apply Z.add_le_mono_l, zlen_nonneg. Qed.

Lemma wires_len vs : zlen vs <= zlen (wires vs).
Proof.
  induction vs as [|v vs IH]; [done|]. rewrite wires_cons, zlen_app, zlen_cons. pose proof (wire_pos v). lia.
Qed.

(** ** Bytes in memory *)

Definition at_mem (mem : Z -> Z) (a : Z) (l : list Z) : Prop := forall i x, l !! i = Some x -> mem (a + Z.of_nat i) = x.

Lemma at_mem_cons mem a x l : at_mem mem a (x :: l) <-> mem a = x /\ at_mem mem (a + 1) l.
Proof.
  split.
  - intros H. split; [rewrite <- (H 0%nat x) by done; f_equal; lia|].
    intros i y Hi. rewrite <- (H (S i) y) by done. f_equal. lia.
  - intros [Hx Hl] [|i] y Hi; cbn in Hi.
    + injection Hi as <-. rewrite <- Hx. f_equal. lia.
    + rewrite <- (Hl i y Hi). f_equal. lia.
Qed.

Lemma at_mem_app mem a l1 l2 : at_mem mem a (l1 ++ l2) <-> at_mem mem a l1 /\ at_mem mem (a + zlen l1) l2.
Proof.
  revert a. induction l1 as [|x l1 IH]; intros a.
  - rewrite Z.add_0_r. split; [|by intros []]. intros H. split; [intros i y Hi; done|done].
  - cbn [app]. rewrite !at_mem_cons, IH, zlen_cons. replace (a + 1 + zlen l1) with (a + (1 + zlen l1)) by lia. tauto.
Qed.

(** ** One of two lists is a prefix of the other *)

Definition compat (w r : list Z) : Prop := exists t, r = w ++ t \/ w = r ++ t.

Lemma compat_nil r : compat [] r.
Proof. exists r. by left. Qed.

Lemma compat_cons x w y r : compat (x :: w) (y :: r) <-> x = y /\ compat w r.
Proof.
  split.
  - intros (t & [E|E]); injection E as -> ->; (split; [done|]); exists t; auto.
  - intros [-> (t & [-> | ->])]; exists t; [left|right]; done.
Qed.

Lemma compat_app_l l w r : compat (l ++ w) (l ++ r) <-> compat w r.
Proof. induction l as [|x l IH]; [done|]. cbn [app]. rewrite compat_cons, IH. naive_solver. Qed.

(** As much of [w] as there is of [s]. *)
Lemma compat_split w s r : compat w (s ++ r) ->
  (exists s2, s = w ++ s2) \/ (exists w2, w = s ++ w2 /\ compat w2 r).
Proof.
  revert s. induction w as [|x w IH]; intros [|y s]; cbn [app]; intros H.
  - left. by exists [].
  - left. by exists (y :: s).
  - right. by exists (x :: w).
  - apply compat_cons in H as [-> H]. apply IH in H as [(s2 & ->)|(w2 & -> & Hc)]; [left; by exists s2|right; by exists w2].
Qed.

(** ** What is left of a message

    [line_rest st a r]: in state [st] with [iArgLen = a], the bytes [r] end the
    line; [head_rest st n r]: outside of lines, in state [st] with
    [iNeedArgNum = n], the bytes [r] end the message. *)

Definition line_rest (st : msg_state) (a : Z) (r : list Z) : Prop :=
  match st with
  | GR_READING_LINE => exists v, valid v /\ r = wire v
  | GR_STR => exists s, 13 ∉ s /\ r = s ++ crlf
  | GR_STR_CRLF => r = [10]
  | GR_USD_NUM =>
      (exists ds s, Forall is_digit ds /\ 0 <= a /\ fold_left shift ds a = zlen s /\ r = ds ++ crlf ++ s ++ crlf) \/
      (a = 0 /\ r = 45 :: 49 :: crlf)
  | GR_USD_NUM_CRLF => exists s, a = zlen s /\ r = 10 :: s ++ crlf
  | GR_USD_STR => exists s, a = zlen s /\ r = s ++ crlf
  | GR_USD_EMPTY => r = 49 :: crlf
  | GR_USD_EMPTY_ONE => r = crlf
  | _ => False
  end.

Definition head_rest (st : msg_state) (n : Z) (r : list Z) : Prop :=
  match st with
  | GR_START => exists v, valid v /\ r = wire v
  | GR_NARG =>
      (exists ds vs, Forall is_digit ds /\ all_valid vs /\ (0 < n \/ n = 0 /\ ds = dec (zlen vs)) /\
         fold_left shift ds n = zlen vs /\ r = ds ++ crlf ++ wires vs) \/
      (n = 0 /\ r = 45 :: 49 :: crlf)
  | GR_NARG_NAG_ONE => n = 0 /\ r = 49 :: crlf
  | GR_NARG_ZERO => n = 0 /\ r = crlf
  | GR_NARG_CRLF => exists vs, all_valid vs /\ n = zlen vs /\ r = 10 :: wires vs
  | _ => False
  end.

Lemma line_rest_ne st a r : line_rest st a r -> r <> [].
Proof.
  intros Hr ->. destruct st; cbn in Hr; try done.
  - destruct Hr as ([] & _ & E); done.
  - destruct Hr as [([] & ? & _ & _ & _ & E)|(_ & E)]; done.
  - by destruct Hr as (? & _ & E).
  - destruct Hr as ([] & _ & E); done.
  - destruct Hr as ([] & _ & E); done.
Qed.

Lemma head_rest_ne st n r : head_rest st n r -> r <> [].
Proof.
  intros Hr ->. destruct st; cbn in Hr; try done.
  - by destruct Hr as ([] & _ & E).
  - by destruct Hr as [([] & ? & _ & _ & _ & _ & E)|(_ & E)].
  - by destruct Hr.
  - by destruct Hr.
  - by destruct Hr as (? & _ & _ & E).
Qed.

Definition placed (s : RedisMsg) : Prop := szNowPos s = szStart s + iLen (m_Info s) /\ 0 <= iLen (m_Info s).

(** The length of the longest argument is at most that of the message, when the
    bytes [r] from the address [c] on end it. *)
Definition fits (s : RedisMsg) (c : Z) (r : list Z) : Prop := 0 <= iMaxLen (m_Info s) <= c - szStart s + zlen r.

(** [expects s c r]: the parser has read up to the address [c], and the bytes
    [r] complete the message.  [in_line s c r]: they complete the line. *)
Inductive expects : RedisMsg -> Z -> list Z -> Prop :=
| ex_head s r :
    bReadingLine s = false -> placed s -> iMaxLen (m_Info s) = 0 -> (nowState (m_Info s) = GR_START -> iLen (m_Info s) = 0) ->
    head_rest (nowState (m_Info s)) (iNeedArgNum (m_Info s)) r ->
    expects s (szNowPos s) r
| ex_line s c r vs :
    in_line s c r -> iNeedArgNum (m_Info s) = 1 + zlen vs -> all_valid vs -> expects s c (r ++ wires vs)
with in_line : RedisMsg -> Z -> list Z -> Prop :=
| il_flat s r :
    bReadingLine s = true -> placed s -> fits s (szNowPos s) r -> 1 <= iLen (m_Info s) ->
    line_rest (nowState (m_Info s)) (iArgLen (m_Info s)) r -> in_line s (szNowPos s) r
| il_next s l c r :
    bReadingLine s = true -> placed s -> fits s c r -> 1 <= iLen (m_Info s) -> nowState (m_Info s) = GR_IN_NEXT_LAYER ->
    pNextLayer s = Some l -> szStart l = szNowPos s -> szEnd l = szEnd s -> 1 <= iLen (m_Info l) ->
    expects l c r -> in_line s c r.

(** ** One round of the loops *)

(** [s1] has read [n] bytes more than [s]. *)
Definition advanced (s s1 : RedisMsg) (n : Z) : Prop :=
  szStart s1 = szStart s /\ szEnd s1 = szEnd s /\ szNowPos s1 = szNowPos s + n /\ iLen (m_Info s1) = iLen (m_Info s) + n /\
  iNeedArgNum (m_Info s1) = iNeedArgNum (m_Info s) /\ pNextLayer s1 = pNextLayer s.

Definition adv (s : RedisMsg) (n : Z) : RedisMsg :=
  set_now (set_info s (set_len (m_Info s) (iLen (m_Info s) + n))) (szNowPos s + n).

Lemma int_ok z : - 2 ^ 31 <= z < 2 ^ 31 -> int z = Ret z.
Proof. intros H. unfold int. rewrite (proj2 (Z.leb_le _ _)), (proj2 (Z.ltb_lt _ _)) by lia. done. Qed.

Lemma forward_ok s n : 0 <= iLen (m_Info s) + n < 2 ^ 31 -> forward s n = Ret (adv s n).
Proof. intros H. unfold forward. by rewrite int_ok by lia. Qed.

(** Where the key and the command are. *)
Record found := mkFound { f_key : Z; f_key_len : Z; f_cmd : Z; f_cmd_len : Z; f_key_line : bool; f_line : Z; f_in_line : Z }.

Definition found_of (s : RedisMsg) : found :=
  let i := m_Info s in mkFound (szKeyStart i) (iKeyLen i) (szCmd i) (iCmdLen i) (bKeyLine i) (iNowLine i) (iKeyInLines i).

(** A string of [n] bytes begins at [p]. *)
Definition touch (k : bool) (p n : Z) (f : found) : found :=
  let f := if (f_key f =? 0) && k
           then mkFound p (f_key_len f) (f_cmd f) (f_cmd_len f) (f_key_line f) (f_line f) (f_in_line f) else f in
  if f_cmd f =? 0 then mkFound (f_key f) (f_key_len f) p n (f_key_line f) (f_line f) (f_in_line f) else f.

(** A line ends at [p]. *)
Definition close (p : Z) (f : found) : found :=
  if negb (f_key f =? 0) && (f_key_len f =? 0)
  then mkFound (f_key f) (p - f_key f) (f_cmd f) (f_cmd_len f) (f_key_line f) (f_line f) (f_in_line f) else f.

(** What a round that reads the bytes [l] of a string finds. *)
Definition found_step (k : bool) (s : RedisMsg) (l : list Z) : found :=
  match nowState (m_Info s) with
  | GR_USD_NUM_CRLF => if zlen l =? 1 then found_of s else touch k (szNowPos s + 1) (iArgLen (m_Info s)) (found_of s)
  | GR_USD_STR => touch k (szNowPos s) (iArgLen (m_Info s)) (found_of s)
  | _ => found_of s
  end.

(** The state after a round that reads the bytes [l] of a string. *)
Definition next_ok (s s1 : RedisMsg) (l : list Z) : Prop :=
  let a := iArgLen (m_Info s) in
  let a1 := iArgLen (m_Info s1) in
  let st1 := nowState (m_Info s1) in
  match nowState (m_Info s) with
  | GR_READING_LINE => forall y, l = 36 :: y -> y = [] /\ st1 = GR_USD_NUM /\ a1 = 0
  | GR_USD_NUM => exists d, l = [d] /\ (is_digit d -> st1 = GR_USD_NUM /\ a1 = shift a d) /\ (d = 13 -> st1 = GR_USD_NUM_CRLF /\ a1 = a)
  | GR_USD_NUM_CRLF => st1 = GR_USD_STR /\ a1 = a - (zlen l - 1)
  | GR_USD_STR => zlen l = 1 /\ (a = 0 -> st1 = GR_STR_CRLF) /\ (a <> 0 -> st1 = GR_USD_STR /\ a1 = a - 1)
  | _ => True
  end.

(** The longest argument is now one of which at most [r] is left. *)
Definition raised (s s1 : RedisMsg) (r : list Z) : Prop :=
  iMaxLen (m_Info s) <= iMaxLen (m_Info s1) <= Z.max (iMaxLen (m_Info s)) (zlen r).

(** A round of [ReadLine] returns, or goes on with a shorter rest. *)
Definition line_step (mem : Z -> Z) (k : bool) (s : RedisMsg) (w r : list Z) : Prop :=
  (exists s1 x, line_char mem k s (szNowPos s) = Ret (LTrue s1) /\ r = [x] /\ advanced s s1 1 /\ bReadingLine s1 = false /\
     iMaxLen (m_Info s1) = iMaxLen (m_Info s) /\ found_of s1 = close (szNowPos s - 1) (found_of s)) \/
  (exists s1 l w1 r1, line_char mem k s (szNowPos s) = Ret (LMore s1 (szNowPos s1)) /\ w = l ++ w1 /\ r = l ++ r1 /\ l <> [] /\
     advanced s s1 (zlen l) /\ bReadingLine s1 = true /\ line_rest (nowState (m_Info s1)) (iArgLen (m_Info s1)) r1 /\
     raised s s1 r1 /\ next_ok s s1 l /\
     (nowState (m_Info s) <> GR_READING_LINE \/ head l = Some 36 -> found_of s1 = found_step k s l)).

(** Lengths. *)
Ltac zl := rewrite ?zlen_app, ?zlen_cons, ?zlen_app, ?zlen_cons, ?zlen_app, ?zlen_cons, ?zlen_nil in *.

(** Go on behind the byte [x]. *)
Ltac more1 :=
  right; eexists _, [_], _, _; split_and!;
  [cbn -[dec wire adv line_rest]; repeat f_equal; cbn; lia | reflexivity | reflexivity | done
  | repeat split; cbn; lia | done | cbn -[line_rest wire dec crlf zlen fold_left]
  | unfold raised; cbn -[zlen]; try lia
  | unfold next_ok; match goal with H : nowState (m_Info _) = _ |- _ => rewrite H end;
    first [done | intros ? Hnew; injection Hnew; intros; done || lia | eexists; split; [reflexivity|]; unfold is_digit, shift; split; intros; lia || done]
  | unfold found_step; intros Hnew; match goal with H : nowState (m_Info _) = _ |- _ => rewrite H in * end; 
    first [done | destruct Hnew as [Hnew|Hnew]; [done|injection Hnew; intros; lia]]].

Section line_round.
Context (mem : Z -> Z) (k : bool) (s : RedisMsg).
Hypothesis Hread : bReadingLine s = true.
Hypothesis Hlen : 1 <= iLen (m_Info s).

Lemma str_round x w r : nowState (m_Info s) = GR_STR -> line_rest GR_STR (iArgLen (m_Info s)) (x :: r) ->
  mem (szNowPos s) = x -> iLen (m_Info s) + zlen (x :: r) < 2 ^ 31 -> line_step mem k s (x :: w) (x :: r).
Proof.
  intros Hst (l & Hl & E) Hx Hb. rewrite zlen_cons in Hb. pose proof (zlen_nonneg r).
  unfold line_step, line_char. rewrite Hst, Hx, forward_ok by lia. destruct l as [|y l]; injection E as -> ->.
  - cbn [go_bind Z.eqb Pos.eqb]. more1. done.
  - rewrite not_elem_of_cons in Hl. destruct Hl as [Hy Hl]. cbn [go_bind]. rewrite (proj2 (Z.eqb_neq y 13)) by done.
    more1. rewrite Hst. exists l. done.
Qed.

Lemma crlf_round w : nowState (m_Info s) = GR_STR_CRLF -> mem (szNowPos s) = 10 -> iLen (m_Info s) + 1 < 2 ^ 31 ->
  line_step mem k s (10 :: w) [10].
Proof.
  intros Hst Hx Hb. left. unfold line_char. rewrite Hst, Hx, forward_ok by (cbn; lia). cbn [go_bind Z.eqb Pos.eqb].
  eexists _, _. split_and!; [reflexivity|reflexivity|case_match; done|case_match; done|case_match; done|].
  unfold found_of, close. cbn. case_match; done.
Qed.

(** The states in front of a fixed byte. *)
Lemma fixed_round w st2 x r :
  (nowState (m_Info s) = GR_USD_EMPTY /\ x = 49 /\ r = crlf /\ st2 = GR_USD_EMPTY_ONE) \/
  (nowState (m_Info s) = GR_USD_EMPTY_ONE /\ x = 13 /\ r = [10] /\ st2 = GR_STR_CRLF) ->
  mem (szNowPos s) = x -> iLen (m_Info s) + 2 < 2 ^ 31 -> line_step mem k s (x :: w) (x :: r).
Proof.
  intros [(Hst & -> & -> & ->)|(Hst & -> & -> & ->)] Hx Hb; unfold line_step, line_char; rewrite Hst, Hx, forward_ok by lia;
    cbn [go_bind Z.eqb Pos.eqb]; more1; done.
Qed.

Lemma num_round x w r : nowState (m_Info s) = GR_USD_NUM -> line_rest GR_USD_NUM (iArgLen (m_Info s)) (x :: r) ->
  mem (szNowPos s) = x -> iLen (m_Info s) + zlen (x :: r) < 2 ^ 31 -> line_step mem k s (x :: w) (x :: r).
Proof.
  intros Hst [(ds & l & Hds & Ha & Hv & E)|(Ha & E)] Hx Hb; rewrite zlen_cons in Hb; pose proof (zlen_nonneg r);
    unfold line_step, line_char; rewrite Hst, Hx, forward_ok by lia.
  - destruct ds as [|d ds]; injection E as -> ->; cbn [go_bind].
    + cbn [fold_left] in Hv. cbn [is_digit_char Z.leb Z.compare Pos.compare Pos.compare_cont andb Z.eqb Pos.eqb].
      destruct (_ <? _) eqn:Hlt; [apply Z.ltb_lt in Hlt; cbn in Hlt|]; more1; try (by exists l). rewrite Hv, zlen_cons, zlen_app. change (zlen crlf) with 2. lia.
    + apply Forall_cons in Hds as [Hd Hds]. cbn [fold_left] in Hv. unfold is_digit in Hd. unfold is_digit_char.
      rewrite (proj2 (Z.leb_le 48 d)), (proj2 (Z.leb_le d 57)) by lia. cbn [andb].
      pose proof (fold_grows ds (shift (iArgLen (m_Info s)) d) Hds ltac:(unfold shift; lia)) as Hg. rewrite Hv in Hg.
      unfold shift in Hg. pose proof (zlen_nonneg ds).
      cbn [m_Info adv set_now set_info iArgLen set_len]. rewrite int_ok by (unfold crlf in *; zl; lia). cbn [go_bind].
      more1. rewrite Hst. left. exists ds, l. split_and!; [done|lia|done|done].
  - injection E as -> ->. cbn [go_bind is_digit_char Z.leb Z.compare Pos.compare Pos.compare_cont andb Z.eqb Pos.eqb].
    cbn [m_Info adv set_now set_info iArgLen set_len]. rewrite Ha, Z.eqb_refl. more1. done.
Qed.

(** Noting where the key and the command are. *)
Lemma touch_spec t p : let t' := cmd_info (key_start k t p) p in
  advanced t t' 0 /\ bReadingLine t' = bReadingLine t /\ nowState (m_Info t') = nowState (m_Info t) /\
  iArgLen (m_Info t') = iArgLen (m_Info t) /\ iMaxLen (m_Info t') = iMaxLen (m_Info t) /\
  found_of t' = touch k p (iArgLen (m_Info t)) (found_of t).
Proof.
  cbn zeta. unfold cmd_info, key_start, touch, found_of, advanced. cbn.
  destruct ((szKeyStart (m_Info t) =? 0) && k); cbn; destruct (szCmd (m_Info t) =? 0); cbn; split_and!; lia || done.
Qed.

Lemma body_round x w r : nowState (m_Info s) = GR_USD_STR -> line_rest GR_USD_STR (iArgLen (m_Info s)) (x :: r) ->
  mem (szNowPos s) = x -> iLen (m_Info s) + zlen (x :: r) < 2 ^ 31 -> line_step mem k s (x :: w) (x :: r).
Proof.
  intros Hst (l & Ha & E) Hx Hb. rewrite zlen_cons in Hb. pose proof (zlen_nonneg r).
  unfold line_step, line_char. rewrite Hst, Hx. cbn zeta.
  pose proof (touch_spec s (szNowPos s)) as (Hadv & Hrd & Hs' & Harg & Hmax & Hf). set (s' := cmd_info _ _) in *.
  destruct Hadv as (H1 & H2 & H3 & H4 & H5 & H6).
  rewrite forward_ok by lia. cbn [go_bind]. cbn [m_Info adv set_now set_info iArgLen set_len]. rewrite Harg, Ha.
  destruct l as [|y l]; injection E as -> ->.
  - rewrite zlen_nil. cbn [Z.eqb Pos.eqb]. right. exists (to_state (adv s' 1) GR_STR_CRLF), [13], w, [10]. split_and!; try done.
    + do 2 f_equal. cbn. lia.
    + unfold advanced. rewrite zlen_cons, zlen_nil. cbn. split_and!; lia || done.
    + cbn. congruence.
    + unfold raised. cbn. rewrite Hmax. lia.
    + unfold next_ok. rewrite Hst, Ha, ?zlen_cons, ?zlen_nil. cbn -[zlen]. rewrite ?Hs'.
      split_and!; [lia|intros; try done; lia|intros; split; congruence || lia].
    + intros _. unfold found_step. rewrite Hst. exact Hf.
  - rewrite zlen_cons. pose proof (zlen_nonneg l). rewrite (proj2 (Z.eqb_neq _ 0)) by lia.
    right. exists (set_info (adv s' 1) (set_arg (m_Info (adv s' 1)) (zlen l))), [y], w, (l ++ crlf). split_and!; try done.
    + do 2 f_equal; [do 2 f_equal|]; cbn; lia.
    + unfold advanced. rewrite zlen_cons, zlen_nil. cbn. split_and!; lia || done.
    + cbn. congruence.
    + cbn -[line_rest]. rewrite Hs', Hst. by exists l.
    + unfold raised. cbn. rewrite Hmax. lia.
    + unfold next_ok. rewrite Hst, Ha, ?zlen_cons, ?zlen_nil. cbn -[zlen]. rewrite ?Hs'.
      split_and!; [lia|intros; try done; lia|intros; split; congruence || lia].
    + intros _. unfold found_step. rewrite Hst. exact Hf.
Qed.

Lemma jump_round w r : nowState (m_Info s) = GR_USD_NUM_CRLF -> line_rest GR_USD_NUM_CRLF (iArgLen (m_Info s)) (10 :: r) ->
  mem (szNowPos s) = 10 -> szEnd s = szNowPos s + zlen (10 :: w) -> compat w r -> iLen (m_Info s) + zlen (10 :: r) < 2 ^ 31 ->
  line_step mem k s (10 :: w) (10 :: r).
Proof.
  intros Hst (l & Ha & E) Hx He Hc Hb. injection E as ->. rewrite zlen_cons in *. pose proof (zlen_nonneg l). pose proof (zlen_nonneg w).
  rewrite zlen_app in Hb. change (zlen crlf) with 2 in Hb.
  unfold line_step, line_char. rewrite Hst, Hx, forward_ok by lia. cbn [go_bind Z.eqb Pos.eqb]. cbn zeta.
  set (s1 := to_state _ GR_USD_STR). cbn [szEnd s1 to_state set_info set_line adv set_now].
  replace (szEnd s - szNowPos s) with (1 + zlen w) by lia. change (iArgLen (m_Info s1)) with (iArgLen (m_Info s)). rewrite Ha.
  destruct ((1 + zlen w =? 1) || (zlen l =? 0)) eqn:Hz.
  { right. exists s1, [10], w, (l ++ crlf). split_and!; try done; [by exists l|unfold raised; cbn; lia|unfold next_ok; rewrite Hst; change (zlen [10]) with 1; cbn; split; [done|lia]|]. intros _. unfold found_step. by rewrite Hst. }
  pose proof (touch_spec s1 (szNowPos s + 1)) as (Hadv & Hrd & Hs' & Harg & Hmax & Hf). set (s' := cmd_info _ _) in *.
  destruct Hadv as (H1 & H2 & H3 & H4 & H5 & H6). cbn [szNowPos szStart szEnd m_Info iLen s1 to_state set_info set_line adv set_now set_state set_len] in H3, H4.
  rewrite Harg. change (iArgLen (m_Info s1)) with (iArgLen (m_Info s)). rewrite Ha.
  assert (exists l1 l2 w2, l = l1 ++ l2 /\ w = l1 ++ w2 /\ (if zlen l <? 1 + zlen w then zlen l else 1 + zlen w - 1) = zlen l1 /\ zlen l1 <> 0)
    as (l1 & l2 & w2 & -> & -> & -> & Hl1).
  { apply orb_false_iff in Hz as [Hz1 Hz2]. apply Z.eqb_neq in Hz1, Hz2. apply compat_split in Hc as [(l2 & ->)|(w2 & -> & _)].
    - exists w, l2, []. rewrite app_nil_r. split_and!; try done; rewrite zlen_app in *; pose proof (zlen_nonneg l2); [case_match; lia|lia].
    - exists l, [], w2. rewrite app_nil_r. split_and!; try done. rewrite zlen_app in *. pose proof (zlen_nonneg w2). case_match; lia. }
  rewrite zlen_app in *. pose proof (zlen_nonneg l1). pose proof (zlen_nonneg l2). rewrite forward_ok by lia. cbn [go_bind].
  right. eexists _, (10 :: l1), w2, (l2 ++ crlf). split_and!; try done.
  - by rewrite <- app_assoc.
  - unfold advanced. rewrite zlen_cons. cbn. split_and!; try done; lia.
  - cbn. rewrite Hrd. done.
  - cbn -[line_rest]. rewrite Hs'. cbn -[crlf zlen]. exists l2. split; [|done]. rewrite Harg. cbn -[zlen]. lia.
  - unfold raised. cbn. rewrite Hmax. cbn. lia.
  - unfold next_ok. rewrite Hst, zlen_cons. cbn -[zlen]. rewrite Hs', Harg. cbn -[zlen]. split; [done|lia].
  - intros _. unfold found_step. rewrite Hst, zlen_cons, (proj2 (Z.eqb_neq _ 1)) by lia. exact Hf.
Qed.

Lemma first_round x w r : nowState (m_Info s) = GR_READING_LINE -> line_rest GR_READING_LINE (iArgLen (m_Info s)) (x :: r) ->
  x <> 42 -> mem (szNowPos s) = x -> iLen (m_Info s) + zlen (x :: r) < 2 ^ 31 -> line_step mem k s (x :: w) (x :: r).
Proof.
  intros Hst (v & Hv & E) H42 Hx Hb. rewrite zlen_cons in Hb. pose proof (zlen_nonneg r).
  unfold line_step, line_char. rewrite Hst, Hx. cbn zeta. destruct v as [c l|l| | |vs]; injection E as -> ->; try done.
  - destruct Hv as [Hc Hl]. replace ((c =? 43) || (c =? 45) || (c =? 58)) with true by (destruct Hc as [-> |[-> | ->]]; done).
    rewrite forward_ok by (cbn; lia). cbn [go_bind]. unfold key_start. case_match; more1; by exists l.
  - cbn [Z.eqb Pos.eqb orb]. rewrite forward_ok by (cbn; lia). cbn [go_bind]. more1. left. exists (dec (zlen l)), l.
    destruct (dec_spec (zlen l) (zlen_nonneg l)) as (Hval & Hd & _). done.
  - cbn [Z.eqb Pos.eqb orb]. rewrite forward_ok by (cbn; lia). cbn [go_bind]. more1. by right.
Qed.

(** Every round. *)
Lemma line_round x w r : line_rest (nowState (m_Info s)) (iArgLen (m_Info s)) r ->
  (nowState (m_Info s) = GR_READING_LINE -> x <> 42) ->
  compat (x :: w) r -> at_mem mem (szNowPos s) (x :: w) -> szEnd s = szNowPos s + zlen (x :: w) ->
  iLen (m_Info s) + zlen r < 2 ^ 31 -> line_step mem k s (x :: w) r.
Proof.
  intros Hr H42 Hc Hm He Hb. apply at_mem_cons in Hm as [Hx _].
  assert (exists r', r = x :: r' /\ compat w r') as (r' & -> & Hc').
  { destruct r as [|y r']; [by apply line_rest_ne in Hr|apply compat_cons in Hc as [<- Hc]; by exists r']. }
  destruct (nowState (m_Info s)) eqn:Hst; try done.
  - apply first_round; try done. by apply H42.
  - by apply num_round.
  - destruct Hr as (l & Ha & E). injection E as -> ->. apply jump_round; try done. by exists l.
  - by apply body_round.
  - injection Hr as -> ->. apply (fixed_round w GR_USD_EMPTY_ONE); [left; done|done|unfold crlf in Hb; zl; lia].
  - injection Hr as -> ->. apply (fixed_round w GR_STR_CRLF); [right; done|done|unfold crlf in Hb; zl; lia].
  - by apply str_round.
  - injection Hr as -> ->. apply crlf_round; [done|done|zl; lia].
Qed.
End line_round.

(** The decimal form of a positive number does not start with zero. *)
Lemma dec_first n : 0 < n -> exists d ds, dec n = d :: ds /\ 48 < d.
Proof.
  induction n as [n IH] using (well_founded_induction (Z.lt_wf 0)). intros Hn. rewrite dec_step by lia.
  destruct (Z.eqb_spec (n / 10) 0) as [Hz|Hz].
  - exists (48 + n mod 10), []. split; [done|]. pose proof (Z.div_mod n 10). lia.
  - assert (0 < n / 10) by (pose proof (Z.div_pos n 10); lia).
    destruct (IH (n / 10)) as (d & ds & -> & Hd); [split; [lia|apply Z.div_lt; lia]|done|]. by exists d, (ds ++ [48 + n mod 10]).
Qed.

(** A line that has just begun. *)
Lemma expects_line s r vs :
  bReadingLine s = true -> placed s -> fits s (szNowPos s) r -> 1 <= iLen (m_Info s) -> line_rest (nowState (m_Info s)) (iArgLen (m_Info s)) r ->
  iNeedArgNum (m_Info s) = 1 + zlen vs -> all_valid vs -> expects s (szNowPos s) (r ++ wires vs).
Proof. intros. apply ex_line; [by apply il_flat|done|done]. Qed.

Lemma expects_last s r :
  bReadingLine s = true -> placed s -> fits s (szNowPos s) r -> 1 <= iLen (m_Info s) -> line_rest (nowState (m_Info s)) (iArgLen (m_Info s)) r ->
  iNeedArgNum (m_Info s) = 1 -> expects s (szNowPos s) r.
Proof.
  intros ????? Hn. rewrite <- (app_nil_r r). apply (expects_line s r []); try done. constructor.
Qed.

Lemma fits0 s c r : iMaxLen (m_Info s) = 0 -> szStart s <= c -> fits s c r.
Proof. intros H1 H2. unfold fits. pose proof (zlen_nonneg r). lia. Qed.

(** A round of [ParseRsp] outside of lines. *)
Definition head_step (mem : Z -> Z) (s : RedisMsg) (r : list Z) : Prop :=
  exists s1 x r1, r = x :: r1 /\
    ((parse_char mem s (szNowPos s) = Ret (s1, None) /\ expects s1 (szNowPos s1) r1) \/
     (parse_char mem s (szNowPos s) = Ret (s1, Some GR_OK) /\ r1 = [] /\ nowState (m_Info s1) = GR_END)) /\
    szStart s1 = szStart s /\ szEnd s1 = szEnd s /\ szNowPos s1 = szNowPos s + 1 /\ iLen (m_Info s1) = iLen (m_Info s) + 1.

Section head_round.
Context (mem : Z -> Z) (s : RedisMsg).
Hypothesis Hread : bReadingLine s = false.
Hypothesis Hplaced : placed s.
Hypothesis Hmax : iMaxLen (m_Info s) = 0.

Ltac head1 :=
  eexists _, _, _; split; [reflexivity|]; split; [left; split; [reflexivity|]|split_and!; cbn; lia].

Lemma start_round r : nowState (m_Info s) = GR_START -> iLen (m_Info s) = 0 -> head_rest GR_START (iNeedArgNum (m_Info s)) r ->
  mem (szNowPos s) = default 0 (head r) -> head_step mem s r.
Proof.
  intros Hst H0 (v & Hv & ->) Hx. destruct Hplaced as [Hp _]. unfold head_step, parse_char.
  rewrite Hx, forward_ok by (rewrite H0; lia). cbn [go_bind]. cbn [m_Info adv set_now set_info nowState set_len]. rewrite Hst.
  destruct v as [c l|l| | |vs]; cbn [wire head default from_option id].
  - destruct Hv as [Hc Hl]. assert (expects_str : forall i, iLen i = iLen (m_Info s) + 1 -> nowState i = GR_STR -> iMaxLen i = 0 -> iNeedArgNum i = 1 ->
      let s1 := mkMsg i (szNowPos s) (szEnd s) (szNowPos s + 1) (line s) true (pNextLayer s) in
      expects s1 (szNowPos s1) (l ++ crlf)).
    { intros i Hi Hs Hm Hn. cbn zeta. apply expects_last; cbn; try done; try lia.
      - split; cbn; lia.
      - apply fits0; cbn; lia.
      - rewrite Hs. by exists l. }
    destruct Hc as [-> |[-> | ->]]; cbn [Z.eqb Pos.eqb orb]; head1; by apply expects_str.
  - cbn [Z.eqb Pos.eqb orb]. head1. apply expects_last; try done; [split; cbn; lia|apply fits0; cbn; lia|cbn; lia|].
    cbn -[dec crlf zlen]. left. exists (dec (zlen l)), l. destruct (dec_spec (zlen l) (zlen_nonneg l)) as (Hval & Hd & _). done.
  - cbn [Z.eqb Pos.eqb orb]. head1. apply expects_last; try done; [split; cbn; lia|apply fits0; cbn; lia|cbn; lia|].
    cbn. by right.
  - cbn [Z.eqb Pos.eqb orb]. head1. apply ex_head; try done; [split; cbn; lia|]. cbn. by right.
  - cbn [Z.eqb Pos.eqb orb]. head1. apply ex_head; try done; [split; cbn; lia|]. cbn -[dec crlf zlen]. left. exists (dec (zlen vs)), vs.
    destruct (dec_spec (zlen vs) (zlen_nonneg vs)) as (Hval & Hd & _). apply valid_arr in Hv. split_and!; try done. by right.
Qed.

Lemma narg_round x r : nowState (m_Info s) = GR_NARG -> head_rest GR_NARG (iNeedArgNum (m_Info s)) (x :: r) ->
  mem (szNowPos s) = x -> iLen (m_Info s) + zlen (x :: r) < 2 ^ 31 -> head_step mem s (x :: r).
Proof.
  intros Hst Hr Hx Hb. destruct Hplaced as [Hp Hl0]. rewrite zlen_cons in Hb. pose proof (zlen_nonneg r).
  unfold head_step, parse_char. rewrite Hx, forward_ok by lia. cbn [go_bind]. cbn [m_Info adv set_now set_info nowState set_len]. rewrite Hst.
  destruct Hr as [(ds & vs & Hds & Hvs & Hn & Hv & E)|[Hn E]].
  - destruct ds as [|d ds]; injection E as -> ->.
    + cbn [is_digit_char Z.leb Z.compare Pos.compare Pos.compare_cont andb Z.eqb Pos.eqb]. head1.
      apply ex_head; try done; [split; cbn; lia|]. exists vs. done.
    + apply Forall_cons in Hds as [Hd Hds]. unfold is_digit in Hd. unfold is_digit_char.
      rewrite (proj2 (Z.leb_le 48 d)), (proj2 (Z.leb_le d 57)) by lia. cbn [andb fold_left] in *.
      set (n := iNeedArgNum (m_Info s)) in *.
      pose proof (fold_grows ds (shift n d) Hds ltac:(unfold shift; lia)) as Hg. rewrite Hv in Hg.
      pose proof (zlen_nonneg ds). pose proof (wires_len vs). unfold shift in Hg.
      cbn [iNeedArgNum set_len]. fold n. rewrite int_ok by (unfold crlf in *; zl; lia). cbn [go_bind].
      destruct (Z.eqb_spec (n * 10 + (d - 48)) 0) as [Hz|Hz].
      * assert (n = 0 /\ d = 48) as [-> ->] by lia. destruct Hn as [|[_ Hn]]; [lia|].
        destruct (decide (zlen vs = 0)) as [Hvs0|]; [|destruct (dec_first (zlen vs)) as (d & ds' & E & Hd'); [pose proof (zlen_nonneg vs); lia|];
          rewrite E in Hn; injection Hn as <- _; lia].
        rewrite Hvs0 in Hn. injection Hn as ->. assert (vs = []) as -> by (destruct vs; [done|rewrite zlen_cons in Hvs0; pose proof (zlen_nonneg vs); lia]).
        head1. apply ex_head; try done. split; cbn; lia.
      * head1. apply ex_head; cbn; try done; [split; cbn; lia|by rewrite Hst|]. rewrite Hst. left. exists ds, vs.
        split_and!; try done. left. destruct Hn as [|[-> _]]; lia.
  - injection E as -> ->. cbn [is_digit_char Z.leb Z.compare Pos.compare Pos.compare_cont andb Z.eqb Pos.eqb]. head1.
    apply ex_head; try done. split; cbn; lia.
Qed.

Lemma count_round x r : nowState (m_Info s) = GR_NARG_CRLF -> head_rest GR_NARG_CRLF (iNeedArgNum (m_Info s)) (x :: r) ->
  mem (szNowPos s) = x -> iLen (m_Info s) + zlen (x :: r) < 2 ^ 31 -> head_step mem s (x :: r).
Proof.
  intros Hst (vs & Hvs & Hn & E) Hx Hb. destruct Hplaced as [Hp Hl0]. rewrite zlen_cons in Hb. pose proof (zlen_nonneg r).
  unfold head_step, parse_char. rewrite Hx, forward_ok by lia. cbn [go_bind]. cbn [m_Info adv set_now set_info nowState set_len iNeedArgNum].
  rewrite Hst. injection E as -> ->. cbn [Z.eqb Pos.eqb]. rewrite Hn. destruct vs as [|v vs].
  - rewrite zlen_nil. cbn [Z.eqb]. eexists _, _, _. split; [reflexivity|]. split; [right; done|]. split_and!; cbn; lia.
  - apply Forall_cons in Hvs as [Hv Hvs]. rewrite zlen_cons. pose proof (zlen_nonneg vs). rewrite (proj2 (Z.eqb_neq _ 0)) by lia.
    head1. rewrite wires_cons. apply (expects_line _ _ vs); cbn; try done; [split; cbn; lia|apply fits0; cbn; lia|lia| |].
    + by exists v.
    + rewrite Hn, zlen_cons. done.
Qed.

(** Every round. *)
Lemma head_round x w r : head_rest (nowState (m_Info s)) (iNeedArgNum (m_Info s)) r ->
  (nowState (m_Info s) = GR_START -> iLen (m_Info s) = 0) ->
  compat (x :: w) r -> mem (szNowPos s) = x -> iLen (m_Info s) + zlen r < 2 ^ 31 -> head_step mem s r.
Proof.
  intros Hr H0 Hc Hx Hb. destruct Hplaced as [Hp Hl0].
  assert (exists r', r = x :: r') as (r' & ->).
  { destruct r as [|y r']; [by apply head_rest_ne in Hr|apply compat_cons in Hc as [<- Hc]; by exists r']. }
  destruct (nowState (m_Info s)) eqn:Hst; try done.
  - apply start_round; try done. by apply H0.
  - by apply narg_round.
  - destruct Hr as [Hn E]. injection E as -> ->. unfold head_step, parse_char. unfold crlf in Hb. zl.
    rewrite Hx, forward_ok by lia. cbn [go_bind]. cbn [m_Info adv set_now set_info nowState set_len]. rewrite Hst. cbn [Z.eqb Pos.eqb].
    head1. apply ex_head; try done. split; cbn; lia.
  - destruct Hr as [Hn E]. injection E as -> ->. unfold head_step, parse_char. unfold crlf in Hb. zl.
    rewrite Hx, forward_ok by lia. cbn [go_bind]. cbn [m_Info adv set_now set_info nowState set_len]. rewrite Hst. cbn [Z.eqb Pos.eqb].
    head1. apply ex_head; try done; [split; cbn; lia|]. exists []. split_and!; try done. constructor.
  - by apply count_round.
Qed.
End head_round.

(** ** The loops *)

Scheme expects_ind2 := Induction for expects Sort Prop
  with in_line_ind2 := Induction for in_line Sort Prop.
Combined Scheme expects_mut from expects_ind2, in_line_ind2.

Lemma expects_facts :
  (forall s c r, expects s c r -> szNowPos s <= c /\ r <> [] /\ nowState (m_Info s) <> GR_END /\ placed s /\
     (bReadingLine s = false -> c = szNowPos s) /\ fits s c r) /\
  (forall s c r, in_line s c r -> szNowPos s <= c /\ r <> [] /\ nowState (m_Info s) <> GR_END /\ placed s /\
     bReadingLine s = true /\ 1 <= iLen (m_Info s) /\ fits s c r).
Proof.
  apply (expects_mut (fun s c r _ => szNowPos s <= c /\ r <> [] /\ nowState (m_Info s) <> GR_END /\ placed s /\
     (bReadingLine s = false -> c = szNowPos s) /\ fits s c r)
    (fun s c r _ => szNowPos s <= c /\ r <> [] /\ nowState (m_Info s) <> GR_END /\ placed s /\
     bReadingLine s = true /\ 1 <= iLen (m_Info s) /\ fits s c r)).
  - intros s r Hrd Hp Hmax H0 Hr. split_and!; try done; [by eapply head_rest_ne|intros E; by rewrite E in Hr|destruct Hp; by apply fits0; [|lia]].
  - intros s c r vs _ (H1 & H2 & H3 & H4 & H5 & H6 & H7) _ _. split_and!; try done; [|by rewrite H5|].
    + intros E. by apply app_nil in E as [-> _].
    + unfold fits in *. rewrite zlen_app. pose proof (zlen_nonneg (wires vs)). lia.
  - intros s r Hrd Hp Hf Hl Hr. split_and!; try done; [by eapply line_rest_ne|intros E; by rewrite E in Hr].
  - intros s l c r Hrd Hp Hf Hl Hst Hn Hs He Hll _ (H1 & H2 & H3 & [H4 _] & H5). split_and!; try done; [lia|congruence].
Qed.

(** What [ParseRsp] and [ReadLine] return when the bytes [w] are there and [r]
    are expected. *)
Definition parse_post (s : RedisMsg) (c : Z) (w r : list Z) (s' : RedisMsg) : Prop :=
  szStart s' = szStart s /\ szEnd s' = szEnd s /\
  ((exists w', w' <> [] /\ r = w ++ w' /\ expects s' (c + zlen w) w' /\ (1 <= iLen (m_Info s) \/ w <> [] -> 1 <= iLen (m_Info s'))) \/
   (exists w', w = r ++ w' /\ nowState (m_Info s') = GR_END /\ szNowPos s' = c + zlen r /\ placed s')).

Definition read_post (s : RedisMsg) (c : Z) (w r : list Z) (s' : RedisMsg) (b : bool) : Prop :=
  szStart s' = szStart s /\ szEnd s' = szEnd s /\ iNeedArgNum (m_Info s') = iNeedArgNum (m_Info s) /\
  ((b = false /\ exists w', w' <> [] /\ r = w ++ w' /\ in_line s' (c + zlen w) w') \/
   (b = true /\ bReadingLine s' = false /\ exists w', w = r ++ w' /\ szNowPos s' = c + zlen r /\ placed s' /\
     0 <= iMaxLen (m_Info s') <= iLen (m_Info s'))).

Section loops.
Context (mem : Z -> Z).

Definition parse_need (s : RedisMsg) : Z :=
  3 * (szEnd s - szNowPos s) + (if bool_decide (nowState (m_Info s) = GR_START) then 2 else 4).

Definition parse_spec (n : nat) : Prop := forall s c w r p,
  expects s c r -> compat w r -> at_mem mem c w -> szEnd s = c + zlen w -> c - szStart s + zlen r < 2 ^ 31 ->
  (bReadingLine s = false -> p = szNowPos s) -> parse_need s <= Z.of_nat n ->
  exists s', parse_loop n mem s p = Ret (s', GR_OK) /\ parse_post s c w r s'.

Definition read_spec (n : nat) : Prop := forall k s c w r,
  in_line s c r -> compat w r -> at_mem mem c w -> szEnd s = c + zlen w -> c - szStart s + zlen r < 2 ^ 31 ->
  3 * (szEnd s - szNowPos s) + 3 <= Z.of_nat n ->
  exists s' b, read_loop n mem k s (szNowPos s) = Ret (s', b, GR_OK) /\ read_post s c w r s' b.

(** The next layer is done, or it needs more bytes. *)
Lemma layer_out s l c w r l' :
  bReadingLine s = true -> placed s -> fits s c r -> 1 <= iLen (m_Info s) -> nowState (m_Info s) = GR_IN_NEXT_LAYER ->
  szStart l = szNowPos s -> szEnd l = szEnd s -> c - szStart s + zlen r < 2 ^ 31 ->
  1 <= iLen (m_Info l) \/ w <> [] -> szEnd s = c + zlen w -> szStart l <= c -> parse_post l c w r l' ->
  if bool_decide (nowState (m_Info l') = GR_END)
  then exists s', layer_done s l' = Ret s' /\ read_post s c w r s' true
  else read_post s c w r (set_layer s (Some l')) false /\ 1 <= iLen (m_Info l') /\ expects l' (szEnd s) (drop (length w) r) /\
       szStart l' = szNowPos s /\ szEnd l' = szEnd s /\ w = take (length w) r.
Proof.
  intros Hrd [Hp Hp0] Hf Hl Hst Hs He Hb Hw Hend Hc (Hs' & He' & [(w' & Hw' & -> & Hex & Hlen)|(w' & -> & Hfin & Hnow & Hpl)]).
  - pose proof (proj1 expects_facts _ _ _ Hex) as (_ & _ & Hne & _ & _). rewrite bool_decide_eq_false_2 by done.
    rewrite drop_app_length, take_app_length.
    split; [|split; [by apply Hlen|split; [by rewrite Hend|split_and!; congruence]]].
    split_and!; try done. left. split; [done|]. exists w'. split_and!; try done.
    eapply il_next; try done; cbn; [unfold fits in *; cbn; rewrite zlen_app in *; lia|congruence|congruence|by apply Hlen].
  - rewrite bool_decide_eq_true_2 by done. unfold layer_done. destruct Hpl as [Hpl Hpl0].
    rewrite int_ok by (pose proof (zlen_nonneg r); lia). cbn [go_bind]. eexists. split; [reflexivity|].
    split_and!; try done. right. split_and!; try done. exists w'. unfold fits in *. split_and!; try done; [cbn; lia| |cbn; lia|cbn; lia]. split; cbn; lia.
Qed.

(** The next layer continues. *)
Lemma read_next n k s l c w r :
  parse_spec n -> bReadingLine s = true -> placed s -> fits s c r -> 1 <= iLen (m_Info s) -> nowState (m_Info s) = GR_IN_NEXT_LAYER ->
  pNextLayer s = Some l -> szStart l = szNowPos s -> szEnd l = szEnd s -> 1 <= iLen (m_Info l) -> expects l c r ->
  compat w r -> at_mem mem c w -> szEnd s = c + zlen w -> c - szStart s + zlen r < 2 ^ 31 ->
  3 * (szEnd s - szNowPos s) + 1 <= Z.of_nat n -> forall p, p < szEnd s ->
  exists s' b, read_loop (S n) mem k s p = Ret (s', b, GR_OK) /\ read_post s c w r s' b.
Proof.
  intros IH Hrd Hp Hf Hl Hst Hn Hs He Hll Hex Hc Hm Hend Hb Hfuel p Hpe. pose proof Hp as [Hp1 Hp2].
  pose proof (proj1 expects_facts _ _ _ Hex) as (Hle & Hne & Hnend & [Hpl Hpl0] & _).
  cbn [read_loop]. rewrite (proj2 (Z.ltb_lt _ _)) by done. rewrite bool_decide_eq_true_2, Hn by done.
  destruct (IH l c w r (szNowPos l)) as (l' & E & Hpost); try done; try lia.
  { unfold parse_need. case_bool_decide; lia. }
  rewrite E. cbn [go_bind]. rewrite bool_decide_eq_true_2 by done. cbn [andb].
  pose proof (layer_out s l c w r l' Hrd Hp Hf Hl Hst Hs He Hb (or_introl Hll) Hend ltac:(lia) Hpost) as Hout.
  case_bool_decide.
  - destruct Hout as (s' & -> & Hpo). cbn [go_bind]. by exists s', true.
  - destruct Hout as [Hpo _]. by exists (set_layer s (Some l')), false.
Qed.

(** An array in a line opens the next layer. *)
Lemma read_star n k s w v :
  (forall m, (m <= n)%nat -> parse_spec m) -> bReadingLine s = true -> placed s -> fits s (szNowPos s) (wire v) -> 1 <= iLen (m_Info s) ->
  nowState (m_Info s) = GR_READING_LINE -> valid v -> compat (42 :: w) (wire v) -> at_mem mem (szNowPos s) (42 :: w) ->
  szEnd s = szNowPos s + zlen (42 :: w) -> szNowPos s - szStart s + zlen (wire v) < 2 ^ 31 ->
  3 * (szEnd s - szNowPos s) + 3 <= Z.of_nat (S n) ->
  exists s' b, read_loop (S n) mem k s (szNowPos s) = Ret (s', b, GR_OK) /\ read_post s (szNowPos s) (42 :: w) (wire v) s' b.
Proof.
  intros IH Hrd Hp Hf Hl Hst Hv Hc Hm Hend Hb Hfuel. pose proof Hp as [Hp1 Hp2]. pose proof (zlen_nonneg w) as Hw. pose proof (zlen_cons 42 w) as Hw1.
  pose proof Hm as Hm'. apply at_mem_cons in Hm' as [Hx _].
  cbn [read_loop]. rewrite (proj2 (Z.ltb_lt _ _)) by lia. rewrite bool_decide_eq_false_2 by congruence. rewrite bool_decide_eq_true_2 by done.
  rewrite Hx. cbn [andb Z.eqb Pos.eqb]. cbn zeta. set (s1 := to_state _ GR_IN_NEXT_LAYER).
  change (szNowPos s1) with (szNowPos s). change (szEnd s1) with (szEnd s). set (l0 := set_end (Init (szNowPos s)) (szEnd s)).
  assert (expects l0 (szNowPos s) (wire v)) as Hex.
  { apply (ex_head l0); try done; [split; cbn; lia|]. by exists v. }
  destruct (IH n (Nat.le_refl n) l0 (szNowPos s) (42 :: w) (wire v) (szNowPos s)) as (l' & E & Hpost); try done.
  { cbn. pose proof (zlen_nonneg (wire v)). lia. }
  { unfold parse_need. rewrite bool_decide_eq_true_2 by done. cbn [l0 set_end szEnd szNowPos Init]. lia. }
  rewrite E. cbn [go_bind]. rewrite bool_decide_eq_true_2 by done.
  pose proof (layer_out s1 l0 (szNowPos s) (42 :: w) (wire v) l' Hrd Hp Hf Hl eq_refl eq_refl eq_refl Hb (or_intror (not_eq_sym (@nil_cons _ _ _))) Hend
    ltac:(cbn; lia) Hpost) as Hout.
  case_bool_decide.
  - destruct Hout as (s' & -> & Hpo). cbn [go_bind]. by exists s', true.
  - destruct Hout as (Hpo & Hll & Hex' & Hs' & He' & Hw').
    assert (zlen (42 :: w) <= zlen (wire v)) as Hwv by (rewrite Hw' at 1; rewrite zlen_take; lia).
    destruct n as [|n]; [lia|]. destruct (Z.ltb_spec (szNowPos s + 1) (szEnd s)) as [Hlt|Hlt].
    2: { exists (set_layer s1 (Some l')), false. split; [|done]. cbn [read_loop szEnd set_layer s1 to_state set_info set_line].
         by rewrite (proj2 (Z.ltb_ge _ _)). }
    destruct (read_next n k (set_layer s1 (Some l')) l' (szEnd s) [] (drop (length (42 :: w)) (wire v))) with (p := szNowPos s + 1)
      as (s' & b & Er & Hpo'); try done.
    { apply IH. lia. }
    { unfold fits in *. cbn [m_Info iMaxLen szStart set_layer s1 to_state set_info set_line set_state]. rewrite zlen_drop.
      unfold zlen in *. lia. }
    { apply compat_nil. }
    { rewrite zlen_nil. cbn. lia. }
    { cbn [szStart set_layer s1 to_state set_info set_line]. rewrite zlen_drop. unfold zlen in *. lia. }
    { cbn. lia. }
    exists s', b. split; [done|]. destruct Hpo' as (H1 & H2 & H3 & [(-> & w' & Hw2 & Hr' & Hil)|(_ & _ & w' & Hr' & _)]).
    2: { symmetry in Hr'. apply app_nil in Hr' as [Hr' _]. by apply (proj1 expects_facts) in Hex' as (_ & ? & _). }
    split_and!; try done. left. split; [done|]. exists w'. cbn [app] in Hr'. rewrite zlen_nil, Z.add_0_r in Hil. rewrite <- Hend.
    split_and!; try done. rewrite <- Hr'. by rewrite Hw' at 1; rewrite take_drop.
Qed.

(** With the bytes of a part [l] read, what is said of the rest holds of all. *)
Lemma read_post_app s s1 c l w r s' b :
  advanced s s1 (zlen l) -> read_post s1 (c + zlen l) w r s' b -> read_post s c (l ++ w) (l ++ r) s' b.
Proof.
  intros (H1 & H2 & H3 & H4 & H5 & H6) (P1 & P2 & P3 & [(-> & w' & Hw & -> & Hil)|(-> & Hrd & w' & -> & Hnow & Hp & Hpm)]);
    split_and!; try congruence; [left|right]; split_and!; try done; exists w'.
  - split_and!; [done|by rewrite app_assoc|]. by rewrite zlen_app, Z.add_assoc.
  - split_and!; [by rewrite app_assoc| |done|lia|lia]. rewrite zlen_app. lia.
Qed.

Lemma read_step n : (forall m, (m < n)%nat -> parse_spec m /\ read_spec m) -> read_spec n.
Proof.
  intros IH k s c w r Hil Hc Hm Hend Hb Hfuel. destruct Hil as [s r Hrd Hp Hf Hl Hr|s l c r Hrd Hp Hf Hl Hst Hn Hs He Hll Hex].
  - pose proof Hp as [Hp1 Hp2]. destruct w as [|x w].
    { exists s, false. split; [destruct n; cbn; rewrite zlen_nil in Hend; by rewrite (proj2 (Z.ltb_ge _ _)) by lia|].
      split_and!; try done. left. split; [done|]. exists r. rewrite zlen_nil, Z.add_0_r. split_and!; try done; [|by apply il_flat].
      by apply (proj2 expects_facts) with (s := s) (c := szNowPos s), il_flat. }
    pose proof (zlen_nonneg w). pose proof (zlen_cons x w). destruct n as [|n]; [lia|].
    assert (nowState (m_Info s) <> GR_IN_NEXT_LAYER) as Hnn by (intros E; by rewrite E in Hr).
    destruct (decide (nowState (m_Info s) = GR_READING_LINE /\ x = 42)) as [[Hst ->]|Hns].
    + rewrite Hst in Hr. destruct Hr as (v & Hv & ->). apply read_star; try done. intros m Hmn. apply IH. lia.
    + destruct (line_round mem k s Hrd Hl x w r Hr) as [(s1 & y & E & -> & Hadv & Hrd1)|(s1 & l & w1 & r1 & E & Ew & -> & Hl0 & Hadv & Hrd1 & Hr1 & Hmx & _)];
        try done; try lia; try (intros E' E''; by apply Hns);
        cbn [read_loop]; rewrite (proj2 (Z.ltb_lt _ _)), bool_decide_eq_false_2 by (done || lia);
        replace (bool_decide (nowState (m_Info s) = GR_READING_LINE) && (mem (szNowPos s) =? 42)) with false by
          (apply at_mem_cons in Hm as [-> _]; case_bool_decide; [|done]; cbn; symmetry; apply Z.eqb_neq; naive_solver);
        rewrite E; cbn [go_bind]; pose proof Hadv as (A1 & A2 & A3 & A4 & A5 & A6).
      * destruct Hrd1 as (Hrd1 & Hmx & _). exists s1, true. split; [done|]. split_and!; try done. right. split_and!; try done. unfold fits in Hf.
        destruct Hc as (t & [Hc|Hc]).
        -- injection Hc as <- Hc. symmetry in Hc. apply app_nil in Hc as [-> ->]. exists []. rewrite zlen_cons, zlen_nil in *. split_and!; [done|lia|split; lia|lia|lia].
        -- exists t. rewrite (zlen_cons y), zlen_nil in *. split_and!; [done|lia|split; lia|lia|lia].
      * rewrite Ew in *. apply compat_app_l in Hc. apply at_mem_app in Hm as [_ Hm]. rewrite !zlen_app in *. pose proof (zlen_pos l Hl0).
        destruct (IH n ltac:(lia)) as [_ IHr]. destruct (IHr k s1 (szNowPos s1) w1 r1) as (s' & b & -> & Hpost); try done; try lia.
        { apply il_flat; try done; [split; lia| |lia]. unfold fits, raised in *. pose proof (zlen_nonneg r1). rewrite zlen_app in Hf. lia. }
        { by rewrite A3. }
        exists s', b. split; [done|]. eapply read_post_app; [done|]. by rewrite <- A3.
  - destruct n as [|n]; [pose proof (zlen_nonneg w); pose proof (proj1 expects_facts _ _ _ Hex) as (? & _ & _ & [? ?] & _); lia|].
    pose proof (proj1 expects_facts _ _ _ Hex) as (Hle & _ & _ & [Hpl Hpl0] & _). pose proof (zlen_nonneg w).
    eapply read_next; try done; try lia. apply IH. lia.
Qed.

(** [ParseRsp] after a line. *)
Lemma line_done_spec s vs :
  placed s -> 0 <= iMaxLen (m_Info s) <= iLen (m_Info s) -> 1 <= iLen (m_Info s) -> iNeedArgNum (m_Info s) = 1 + zlen vs -> all_valid vs ->
  exists s', line_done mem s = (s', bool_decide (vs = [])) /\ szStart s' = szStart s /\ szEnd s' = szEnd s /\
    szNowPos s' = szNowPos s /\ iLen (m_Info s') = iLen (m_Info s) /\
    (vs = [] -> nowState (m_Info s') = GR_END) /\ (vs <> [] -> bReadingLine s' = true /\ expects s' (szNowPos s') (wires vs)).
Proof.
  intros Hp Hmx Hl Hn Hvs. unfold line_done. cbn zeta. set (i := next_key mem (m_Info s)).
  assert (iNeedArgNum i = 1 + zlen vs /\ iLen i = iLen (m_Info s) /\ iMaxLen i = iMaxLen (m_Info s)) as (Hi & Hil & Him) by (unfold i, next_key; cbn zeta; case_match; done).
  cbn [iNeedArgNum set_need]. rewrite Hi. destruct vs as [|v vs].
  - change (zlen (@nil rval)) with 0. cbn [Z.eqb Z.add Z.sub]. eexists. split; [reflexivity|]. split_and!; done.
  - apply Forall_cons in Hvs as [Hv Hvs]. rewrite zlen_cons. pose proof (zlen_nonneg vs). rewrite (proj2 (Z.eqb_neq _ 0)) by lia.
    eexists. split; [reflexivity|]. split_and!; try done. intros _. split; [done|]. rewrite wires_cons. destruct Hp as [Hp1 Hp2].
    apply expects_line; try done; [split; cbn; lia| |cbn; lia| |cbn; lia]; [|by exists v].
    unfold fits. pose proof (zlen_nonneg (wire v)). cbn. lia.
Qed.

(** As [read_post_app]. *)
Lemma parse_post_app s s1 c l w r s' :
  szStart s1 = szStart s -> szEnd s1 = szEnd s -> 1 <= iLen (m_Info s1) ->
  parse_post s1 (c + zlen l) w r s' -> parse_post s c (l ++ w) (l ++ r) s'.
Proof.
  intros H1 H2 H3 (P1 & P2 & [(w' & Hw & -> & Hex & Hlen)|(w' & -> & Hst & Hnow & Hp)]); split_and!; try congruence; [left|right]; exists w'.
  - split_and!; [done|by rewrite app_assoc|by rewrite zlen_app, Z.add_assoc|]. intros _. apply Hlen. by left.
  - split_and!; [by rewrite app_assoc|done| |done]. rewrite zlen_app. lia.
Qed.

Lemma parse_step n : (forall m, (m < n)%nat -> parse_spec m /\ read_spec m) -> parse_spec n.
Proof.
  intros IH s c w r p Hex Hc Hm Hend Hb Hp Hfuel. pose proof (proj1 expects_facts _ _ _ Hex) as (Hle & Hne & _ & Hpl & Hcn & _).
  pose proof (zlen_nonneg w). unfold parse_need in Hfuel.
  destruct (Z.ltb_spec (szNowPos s) (szEnd s)) as [Hlt|Hge].
  2: { assert (w = []) as -> by (apply length_zero_iff_nil; unfold zlen in *; lia).
       assert (c = szNowPos s) as -> by (rewrite zlen_nil in *; lia).
       exists s. split; [destruct n; cbn; by rewrite (proj2 (Z.ltb_ge _ _))|]. split_and!; try done. left. exists r.
       rewrite zlen_nil, Z.add_0_r. split_and!; try done. by intros [|]. }
  destruct n as [|n]; [case_bool_decide; lia|]. cbn [parse_loop]. rewrite (proj2 (Z.ltb_lt _ _)) by done.
  destruct Hex as [s r Hrd _ Hmax H0 Hr|s c r vs Hil Hn Hvs].
  - rewrite Hrd, (Hp Hrd). destruct w as [|x w]; [rewrite zlen_nil in *; lia|]. rewrite zlen_cons in *. apply at_mem_cons in Hm as [Hx Hm].
    destruct Hpl as [Hpl1 Hpl2].
    destruct (head_round mem s Hrd (conj Hpl1 Hpl2) Hmax x w r Hr H0 Hc Hx ltac:(lia)) as (s1 & y & r1 & -> & Hst & A1 & A2 & A3 & A4).
    apply compat_cons in Hc as [<- Hc]. rewrite zlen_cons in *. destruct Hst as [[E Hex]|(E & -> & Hst)]; rewrite E; cbn [go_bind].
    + destruct (IH n ltac:(lia)) as [IHp _]. destruct (IHp s1 (szNowPos s1) w r1 (szNowPos s + 1)) as (s' & -> & Hpost); try done; try lia.
      { rewrite A3. done. }
      { unfold parse_need. repeat case_bool_decide; lia. }
      exists s'. split; [done|]. rewrite A3 in Hpost. apply (parse_post_app s s1 _ [x]); try done; lia.
    + exists s1. split; [done|]. split_and!; try done. right. exists w. split_and!; try done. split; lia.
  - pose proof (proj2 expects_facts _ _ _ Hil) as (_ & Hrne & _ & _ & Hrd & Hl1 & _). rewrite Hrd. pose proof (zlen_pos r Hrne). rewrite zlen_app in *.
    pose proof (zlen_nonneg (wires vs)).
    assert (compat w r /\ (forall w', w = r ++ w' -> compat w' (wires vs))) as [Hc1 Hc2].
    { split; [|intros w' ->; by apply compat_app_l in Hc]. apply compat_split in Hc as [(s2 & ->)|(w2 & -> & _)]; [exists s2|exists w2]; auto. }
    destruct (IH n ltac:(lia)) as [_ IHr]. destruct (IHr (bKeyLine (m_Info s)) s c w r) as (s1 & b & E & P1 & P2 & P3 & Hpost); try done; try lia.
    { case_bool_decide as Hs; [|lia]. exfalso. destruct Hil as [s' r' _ _ _ _ Hr|]; [by rewrite Hs in Hr|congruence]. }
    rewrite E. cbn [go_bind]. destruct Hpost as [(-> & w' & Hw' & -> & Hil')|(-> & Hrd1 & w' & -> & Hnow & Hpl1 & Hmx1)].
    + exists s1. split; [done|]. split_and!; try done. left. exists (w' ++ wires vs). split_and!; [by intros [? _]%app_nil|by rewrite app_assoc| |].
      * apply ex_line; [done|congruence|done].
      * intros _. by apply (proj2 expects_facts) in Hil' as (_ & _ & _ & _ & _ & ? & _).
    + assert (1 <= iLen (m_Info s1)) as Hl2 by (destruct Hpl1, Hpl; lia).
      destruct (line_done_spec s1 vs Hpl1 Hmx1 Hl2 ltac:(congruence) Hvs) as (s2 & -> & L1 & L2 & L3 & L4 & Lend & Lmore).
      destruct (bool_decide_reflect (vs = [])) as [Hv|Hv].
      * subst vs. exists s2. split; [done|]. split_and!; try congruence. right. exists w'. cbn [wires concat map]. rewrite app_nil_r.
        split_and!; try done; [by apply Lend|congruence|]. destruct Hpl1. split; congruence.
      * destruct (Lmore Hv) as [Hrd2 Hex2]. destruct (IH n ltac:(lia)) as [IHp _]. rewrite zlen_app in *.
        destruct (IHp s2 (szNowPos s2) w' (wires vs) (p + 1)) as (s' & -> & Hpost); try done; try lia.
        { by apply Hc2. }
        { apply at_mem_app in Hm as [_ Hm]. by rewrite L3, Hnow. }
        { by rewrite Hrd2. }
        { unfold parse_need. repeat case_bool_decide; lia. }
        exists s'. split; [done|]. apply (parse_post_app s s2); congruence.
Qed.

Lemma loops_ok n : parse_spec n /\ read_spec n.
Proof.
  induction n as [n IH] using (well_founded_induction lt_wf). split; [by apply parse_step|by apply read_step].
Qed.

(** A call of [ParseRsp]. *)
Lemma ParseRsp_ok s c w r : expects s c r -> compat w r -> at_mem mem c w -> szEnd s = c + zlen w ->
  c - szStart s + zlen r < 2 ^ 31 -> exists s', ParseRsp mem s = Ret (s', GR_OK) /\ parse_post s c w r s'.
Proof.
  intros Hex Hc Hm Hend Hb. pose proof (proj1 expects_facts _ _ _ Hex) as (Hle & _). pose proof (zlen_nonneg w).
  apply (proj1 (loops_ok (parse_fuel s))); try done. unfold parse_need, parse_fuel. case_bool_decide; lia.
Qed.
End loops.

(** ** Buffers that grow and move *)

Lemma expects_Expand n :
  (forall s c r, expects s c r -> expects (Expand s n) c r) /\ (forall s c r, in_line s c r -> in_line (Expand s n) c r).
Proof.
  apply (expects_mut (fun s c r _ => expects (Expand s n) c r) (fun s c r _ => in_line (Expand s n) c r)).
  - intros [i a e q ln rd o] r Hrd Hp Hx H0 Hr. exact (ex_head (Expand (mkMsg i a e q ln rd o) n) r Hrd Hp Hx H0 Hr).
  - intros [i a e q ln rd o] c r vs _ IH Hn Hvs. by apply ex_line.
  - intros [i a e q ln rd o] r Hrd Hp Hf Hl Hr. exact (il_flat (Expand (mkMsg i a e q ln rd o) n) r Hrd Hp Hf Hl Hr).
  - intros [i a e q ln rd o] [i' a' e' q' ln' rd' o'] c r Hrd Hp Hf Hl Hst Ho Hs He Hll _ IH. cbn in *. subst o.
    eapply il_next; try done; cbn in *; congruence.
Qed.

Lemma expects_move d :
  (forall s c r, expects s c r -> expects (move_layer s d) (c + d) r) /\
  (forall s c r, in_line s c r -> in_line (move_layer s d) (c + d) r).
Proof.
  assert (same : forall i, let i' := if szKeyStart i =? 0 then i else set_key i (szKeyStart i + d) (iKeyLen i) in
    iLen i' = iLen i /\ nowState i' = nowState i /\ iNeedArgNum i' = iNeedArgNum i /\ iArgLen i' = iArgLen i /\ iMaxLen i' = iMaxLen i).
  { intros i. cbn zeta. case_match; done. }
  apply (expects_mut (fun s c r _ => expects (move_layer s d) (c + d) r) (fun s c r _ => in_line (move_layer s d) (c + d) r)).
  - intros [i a e q ln rd o] r Hrd [Hp1 Hp2] Hx H0 Hr. destruct (same i) as (E1 & E2 & E3 & E4 & E5). cbn in *.
    refine (ex_head (move_layer (mkMsg i a e q ln rd o) d) r _ _ _ _ _); cbn; rewrite ?E1, ?E2, ?E3, ?E5; try done. split; cbn; rewrite E1; lia.
  - intros [i a e q ln rd o] c r vs _ IH Hn Hvs. destruct (same i) as (E1 & E2 & E3 & E4 & E5). apply ex_line; cbn in *; try done. congruence.
  - intros [i a e q ln rd o] r Hrd [Hp1 Hp2] Hf Hl Hr. destruct (same i) as (E1 & E2 & E3 & E4 & E5). unfold fits in Hf. cbn in *.
    refine (il_flat (move_layer (mkMsg i a e q ln rd o) d) r _ _ _ _ _); cbn; rewrite ?E1, ?E2, ?E4; try done; [split; cbn; rewrite E1; lia|].
    unfold fits. cbn. rewrite E5. lia.
  - intros [i a e q ln rd o] [i' a' e' q' ln' rd' o'] c r Hrd [Hp1 Hp2] Hf Hl Hst Ho Hs He Hll _ IH. unfold fits in Hf.
    destruct (same i) as (E1 & E2 & E3 & E4 & E5). destruct (same i') as (F1 & F2 & F3 & F4 & F5). cbn in *. subst o.
    eapply il_next; cbn; rewrite ?E1, ?E2, ?F1; try done; cbn in *; try congruence; [split; cbn; rewrite E1; lia|].
    unfold fits. cbn. rewrite E5. lia.
Qed.

Lemma Expand_fields s n : szStart (Expand s n) = szStart s /\ szEnd (Expand s n) = szEnd s + n /\ szNowPos (Expand s n) = szNowPos s /\
  m_Info (Expand s n) = m_Info s.
Proof. by destruct s. Qed.

Lemma Reset_fields s a : szStart (Reset s a) = a /\ szEnd (Reset s a) = a + (szEnd s - szStart s) /\
  szNowPos (Reset s a) = a + (szNowPos s - szStart s) /\ iLen (m_Info (Reset s a)) = iLen (m_Info s) /\
  nowState (m_Info (Reset s a)) = nowState (m_Info s).
Proof. destruct s as [i st e q ln rd o]. cbn. split_and!; try lia; by case_match. Qed.
