(* ===== verification/Mempool.v ===== *)
(** * common/mempool.cpp: the memory pool of the proxy

    [GR_MemPool] hands out blocks of twelve sizes and keeps released blocks for
    the next request of their size; larger blocks come from the heap.  A block
    is known by the address of its [GR_MemPoolData], here a number; the heap
    gives fresh addresses.  A failed [ASSERT] aborts: [Panic]. *)

From S2P Require Import Prelude.

Definition POOL_DATA_TOTAL_TYPE : nat := 12.
Definition POOL_DATA_MIN_LEN : Z := 512.
Definition MAX_FREE_META_DATA : Z := 65535.

Record MemPoolData := mkData {
  m_cStaticFlag : Z;
  m_uszData : Z;
  m_uszEnd : Z;
  m_uiIndex : nat;
  m_sCapacity : Z;
  m_sUsedSize : Z
}.

(** [m_FreePoolList] and [m_pFreeMetaData] are stacks, the top first; [junk] is
    what the [m_iIndex] of each array of free blocks held when the pool was
    made; [heap] are the [GR_MemPoolData] there are, [fresh] the next one and
    [brk] the next free address. *)
Record MemPool := mkPool {
  m_aSize : list Z;
  junk : list Z;
  m_FreePoolList : list (list nat);
  m_pFreeMetaData : list nat;
  heap : gmap nat MemPoolData;
  fresh : nat;
  brk : Z
}.

(** [iSize = iSize << 1] *)
Fixpoint sizes (n : nat) (iSize : Z) : list Z :=
  match n with
  | O => []
  | S n => iSize :: sizes n (Z.shiftl iSize 1)
  end.

(** The constructor.  [Init] allocates the arrays of free blocks and does not
    set [m_iIndex]: its values [junk0] are those of the memory the pool object
    got, and below them the arrays hold no blocks. *)
Definition new_MemPool (junk0 : list Z) : MemPool :=
  {| m_aSize := sizes POOL_DATA_TOTAL_TYPE POOL_DATA_MIN_LEN; junk := junk0; m_FreePoolList := replicate POOL_DATA_TOTAL_TYPE [];
     m_pFreeMetaData := []; heap := ∅; fresh := 0; brk := 1 |}.

(** [Init(2048/(i+1))] of the array [i] of free blocks. *)
Definition m_iMaxTotal (i : nat) : Z := 2048 / Z.of_nat (S i).

(** [m_iIndex] of the array [i], on which the blocks [l] have been pushed. *)
Definition m_iIndex (p : MemPool) (i : nat) (l : list nat) : Z := default 0 (junk p !! i) + zlen l.

(** The first size that is enough, from the size [i] on; beyond the largest one
    the request is converted to [int]. *)
Fixpoint find_size (l : list Z) (i : nat) (sSize : Z) : nat * Z :=
  match l with
  | [] => (POOL_DATA_TOTAL_TYPE, i32 sSize)
  | a :: l => if sSize <=? a then (i, a) else find_size l (S i) sSize
  end.

Definition set_heap (p : MemPool) (h : gmap nat MemPoolData) : MemPool :=
  {| m_aSize := m_aSize p; junk := junk p; m_FreePoolList := m_FreePoolList p; m_pFreeMetaData := m_pFreeMetaData p; heap := h;
     fresh := fresh p; brk := brk p |}.

(** [pData]: a free [GR_MemPoolData], or a new one. *)
Definition get_meta (p : MemPool) : MemPool * nat :=
  match m_pFreeMetaData p with
  | d :: l =>
      ({| m_aSize := m_aSize p; junk := junk p; m_FreePoolList := m_FreePoolList p; m_pFreeMetaData := l; heap := heap p;
          fresh := fresh p; brk := brk p |}, d)
  | [] =>
      ({| m_aSize := m_aSize p; junk := junk p; m_FreePoolList := m_FreePoolList p; m_pFreeMetaData := [];
          heap := <[fresh p := {| m_cStaticFlag := 0; m_uszData := 0; m_uszEnd := 0; m_uiIndex := 0; m_sCapacity := 0;
                                  m_sUsedSize := 0 |}]> (heap p);
          fresh := S (fresh p); brk := brk p |}, fresh p)
  end.

(** A block of [iNewSize] bytes from the heap; [new] throws if it is negative. *)
Definition new_data (p : MemPool) (iIndex : nat) (iNewSize : Z) : go (MemPool * nat) :=
  if iNewSize <? 0 then Panic else
  let '(p, d) := get_meta p in
  match heap p !! d with
  | None => Panic
  | Some m =>
      Ret ({| m_aSize := m_aSize p; junk := junk p; m_FreePoolList := m_FreePoolList p; m_pFreeMetaData := m_pFreeMetaData p;
              heap := <[d := {| m_cStaticFlag := m_cStaticFlag m; m_uszData := brk p; m_uszEnd := brk p + iNewSize;
                                m_uiIndex := iIndex; m_sCapacity := iNewSize; m_sUsedSize := m_sUsedSize m |}]> (heap p);
              fresh := fresh p; brk := brk p + Z.max 1 iNewSize |}, d)
  end.

(** [GetData].  Where [m_iIndex] is not zero and nothing was pushed, the
    pointer popped is not that of a block. *)
Definition GetData (p : MemPool) (sSize : Z) : go (MemPool * nat) :=
  let '(iIndex, iNewSize) := find_size (m_aSize p) 0 sSize in
  match m_FreePoolList p !! iIndex with
  | Some l =>
      if m_iIndex p iIndex l =? 0 then new_data p iIndex iNewSize
      else
      match l with
      | d :: l =>
          match heap p !! d with
          | Some m =>
              if negb (m_uszData m =? 0) && (m_sCapacity m =? iNewSize) then
                Ret ({| m_aSize := m_aSize p; junk := junk p; m_FreePoolList := <[iIndex := l]> (m_FreePoolList p);
                        m_pFreeMetaData := m_pFreeMetaData p; heap := heap p; fresh := fresh p; brk := brk p |}, d)
              else Panic
          | None => Panic
          end
      | [] => Panic
      end
  | None => new_data p iIndex iNewSize
  end.

(** The bytes of a block go back to the heap, its [GR_MemPoolData] is kept. *)
Definition delete_data (p : MemPool) (d : nat) (m : MemPoolData) : go MemPool :=
  let m := {| m_cStaticFlag := m_cStaticFlag m; m_uszData := 0; m_uszEnd := 0; m_uiIndex := POOL_DATA_TOTAL_TYPE;
              m_sCapacity := 0; m_sUsedSize := m_sUsedSize m |} in
  if zlen (m_pFreeMetaData p) <? MAX_FREE_META_DATA then
    Ret {| m_aSize := m_aSize p; junk := junk p; m_FreePoolList := m_FreePoolList p; m_pFreeMetaData := d :: m_pFreeMetaData p;
           heap := <[d := m]> (heap p); fresh := fresh p; brk := brk p |}
  else Ret (set_heap p (delete d (heap p))).

(** [GR_MemPool::Release]; pushing beside the array is [Panic]. *)
Definition Release (p : MemPool) (d : nat) : go MemPool :=
  match heap p !! d with
  | None => Panic
  | Some m =>
      if (m_uiIndex m <=? POOL_DATA_TOTAL_TYPE)%nat && negb (m_uszData m =? 0) && (m_cStaticFlag m =? 0) then
        let m0 := {| m_cStaticFlag := m_cStaticFlag m; m_uszData := m_uszData m; m_uszEnd := m_uszEnd m;
                     m_uiIndex := m_uiIndex m; m_sCapacity := m_sCapacity m; m_sUsedSize := 0 |} in
        match m_FreePoolList p !! m_uiIndex m with
        | Some l =>
            let i := m_iIndex p (m_uiIndex m) l in
            if i =? m_iMaxTotal (m_uiIndex m) then delete_data p d m0
            else if (i <? 0) || (m_iMaxTotal (m_uiIndex m) <? i) then Panic
            else
              Ret {| m_aSize := m_aSize p; junk := junk p; m_FreePoolList := <[m_uiIndex m := d :: l]> (m_FreePoolList p);
                     m_pFreeMetaData := m_pFreeMetaData p; heap := <[d := m0]> (heap p); fresh := fresh p; brk := brk p |}
        | None => delete_data p d m0
        end
      else Panic
  end.

(** [GR_MemPoolData::Release], [GR_MEMDATA_RELEASE] *)
Definition data_Release (p : MemPool) (d : nat) : go MemPool :=
  match heap p !! d with
  | None => Panic
  | Some m => if m_cStaticFlag m =? 1 then Ret p else Release p d
  end.

(** ** The blocks in use

    [used] are the blocks that have been handed out and not released. *)

Definition block_ok (p : MemPool) (m : MemPoolData) : Prop :=
  0 < m_uszData m /\ 0 <= m_sCapacity m /\ m_uszEnd m = m_uszData m + m_sCapacity m /\
  m_uszData m + Z.max 1 (m_sCapacity m) <= brk p /\ (m_uiIndex m <= POOL_DATA_TOTAL_TYPE)%nat /\
  (forall a, m_aSize p !! m_uiIndex m = Some a -> m_sCapacity m = a).

Definition apart (m1 m2 : MemPoolData) : Prop :=
  m_uszData m1 + Z.max 1 (m_sCapacity m1) <= m_uszData m2 \/ m_uszData m2 + Z.max 1 (m_sCapacity m2) <= m_uszData m1.

Record pool_ok (p : MemPool) (used : gset nat) : Prop := {
  ok_sizes : m_aSize p = sizes POOL_DATA_TOTAL_TYPE POOL_DATA_MIN_LEN;
  ok_lists : length (m_FreePoolList p) = POOL_DATA_TOTAL_TYPE;
  ok_junk : junk p = replicate POOL_DATA_TOTAL_TYPE 0;
  ok_max : forall i l, m_FreePoolList p !! i = Some l -> zlen l <= m_iMaxTotal i;
  ok_brk : 0 < brk p;
  ok_nodup : NoDup (concat (m_FreePoolList p) ++ m_pFreeMetaData p ++ elements used);
  ok_heap : forall d m, heap p !! d = Some m -> (d < fresh p)%nat /\ m_cStaticFlag m = 0 /\ (m_uszData m = 0 \/ block_ok p m);
  ok_free : forall i l d, m_FreePoolList p !! i = Some l -> d ∈ l ->
    exists m, heap p !! d = Some m /\ m_uszData m <> 0 /\ m_uiIndex m = i;
  ok_used : forall d, d ∈ used -> exists m, heap p !! d = Some m /\ m_uszData m <> 0;
  ok_meta : forall d, d ∈ m_pFreeMetaData p -> is_Some (heap p !! d);
  ok_apart : forall d1 d2 m1 m2, d1 <> d2 -> heap p !! d1 = Some m1 -> heap p !! d2 = Some m2 ->
    m_uszData m1 <> 0 -> m_uszData m2 <> 0 -> apart m1 m2
}.

(** The memory of the pool object was zero. *)
Definition zeroed : list Z := replicate POOL_DATA_TOTAL_TYPE 0.

Lemma m_iIndex_zeroed p i l : junk p = zeroed -> m_iIndex p i l = zlen l.
Proof.
  intros E. unfold m_iIndex, zeroed in *. rewrite E. destruct (replicate POOL_DATA_TOTAL_TYPE 0 !! i) as [x|] eqn:Ex; [|done].
  apply lookup_replicate in Ex as [-> _]. done.
Qed.

Lemma new_pool_ok : pool_ok (new_MemPool zeroed) ∅.
Proof.
  split; try done; cbn; try (intros; set_solver).
  - intros i l Hi. apply (lookup_replicate 12) in Hi as [-> Hi]. unfold m_iMaxTotal. rewrite zlen_nil.
    apply Z.div_pos; lia.
  - rewrite elements_empty. constructor.
  - intros i l d Hi Hd. apply (list_elem_of_lookup_2 (replicate 12 [])) in Hi.
    apply elem_of_replicate in Hi as [-> _]. by apply not_elem_of_nil in Hd.
Qed.

(** One list of several is replaced. *)
Lemma concat_replace {A} (L : list (list A)) i l : L !! i = Some l ->
  exists R, concat L ≡ₚ l ++ R /\ forall l', concat (<[i := l']> L) ≡ₚ l' ++ R.
Proof.
  intros Hi. exists (concat (take i L) ++ concat (drop (S i) L)).
  assert (i < length L)%nat by (by eapply lookup_lt_Some). split.
  - rewrite <- (take_drop_middle L i l Hi) at 1. rewrite concat_app, concat_cons. solve_Permutation.
  - intros l'. rewrite insert_take_drop by done. rewrite concat_app, concat_cons. solve_Permutation.
Qed.

Lemma find_size_spec l s : 0 <= s < 2 ^ 31 -> forall i, let '(j, a) := find_size l i s in
  s <= a /\ ((i <= j)%nat /\ l !! (j - i)%nat = Some a \/ j = POOL_DATA_TOTAL_TYPE /\ a = s).
Proof.
  intros Hs. induction l as [|x l IH]; intros i; cbn; [rewrite swrap_small by lia; split; [lia|by right]|].
  destruct (Z.leb_spec s x).
  - split; [done|]. left. by rewrite Nat.sub_diag.
  - specialize (IH (S i)). destruct (find_size l (S i) s) as [j a]. destruct IH as [Hsa [[Hj Hl]|Hj]]; [|auto]. split; [done|]. left.
    split; [lia|]. by replace (j - i)%nat with (S (j - S i)) by lia.
Qed.

Lemma ids_in_heap p used d : pool_ok p used -> d ∈ concat (m_FreePoolList p) ++ m_pFreeMetaData p ++ elements used ->
  is_Some (heap p !! d).
Proof.
  intros Hok. rewrite !elem_of_app, elem_of_elements. intros [Hd|[Hd|Hd]].
  - apply list_elem_of_In, in_concat in Hd as (l & Hl & Hd). apply list_elem_of_In in Hl, Hd.
    apply list_elem_of_lookup_1 in Hl as [i Hi]. destruct (ok_free _ _ Hok i l d Hi Hd) as (m & -> & _). done.
  - by apply (ok_meta _ _ Hok).
  - destruct (ok_used _ _ Hok d Hd) as (m & -> & _). done.
Qed.

(** A block [d] that is nowhere gets its bytes from the heap. *)
Lemma fill_ok p used d m idx n :
  pool_ok p used -> d ∉ concat (m_FreePoolList p) ++ m_pFreeMetaData p ++ elements used -> heap p !! d = Some m ->
  0 <= n -> (idx <= POOL_DATA_TOTAL_TYPE)%nat -> (forall a, m_aSize p !! idx = Some a -> n = a) ->
  pool_ok {| m_aSize := m_aSize p; junk := junk p; m_FreePoolList := m_FreePoolList p; m_pFreeMetaData := m_pFreeMetaData p;
             heap := <[d := {| m_cStaticFlag := m_cStaticFlag m; m_uszData := brk p; m_uszEnd := brk p + n;
                               m_uiIndex := idx; m_sCapacity := n; m_sUsedSize := m_sUsedSize m |}]> (heap p);
             fresh := fresh p; brk := brk p + Z.max 1 n |} ({[d]} ∪ used).
Proof.
  intros Hok Hd Hm Hn Hi Ha. pose proof (ok_brk _ _ Hok) as Hb. rewrite !not_elem_of_app, elem_of_elements in Hd. destruct Hd as (Hd1 & Hd2 & Hd3).
  split; cbn; try apply Hok; try lia.
  - rewrite elements_disj_union by set_solver. rewrite elements_singleton. cbn. rewrite <- !Permutation_middle. constructor; [|apply Hok].
    rewrite !not_elem_of_app, elem_of_elements. done.
  - intros d' m' Hd'. destruct (decide (d' = d)) as [->|Hne].
    + rewrite lookup_insert_eq in Hd'. injection Hd' as <-. destruct (ok_heap _ _ Hok d m Hm) as (Hf & Hs & _). split_and!; [done|done|]. right.
      unfold block_ok. cbn. split_and!; try lia. done.
    + rewrite lookup_insert_ne in Hd' by done. destruct (ok_heap _ _ Hok d' m' Hd') as (Hf & Hs & [?|Hbl]); split_and!; auto. right.
      unfold block_ok in *. cbn. naive_solver lia.
  - intros i l d' Hl Hd'. rewrite lookup_insert_ne; [by apply (ok_free _ _ Hok i l)|]. intros <-. apply Hd1.
    apply list_elem_of_In, in_concat. exists l. rewrite <- !list_elem_of_In. split; [by eapply list_elem_of_lookup_2|done].
  - intros d' Hd'. destruct (decide (d' = d)) as [->|Hne]; [rewrite lookup_insert_eq; eexists; split; [done|cbn; lia]|].
    rewrite lookup_insert_ne by done. apply (ok_used _ _ Hok). set_solver.
  - intros d' Hd'. rewrite lookup_insert_is_Some. destruct (decide (d = d')); [by left|right]. split; [done|by apply (ok_meta _ _ Hok)].
  - assert (new : forall d' m', d' <> d -> heap p !! d' = Some m' -> m_uszData m' <> 0 -> m_uszData m' + Z.max 1 (m_sCapacity m') <= brk p).
    { intros d' m' _ Hd' Hz. destruct (ok_heap _ _ Hok d' m' Hd') as (_ & _ & [?|Hbl]); [done|]. unfold block_ok in Hbl. lia. }
    intros d1 d2 m1 m2 Hne H1 H2 Hz1 Hz2. apply lookup_insert_Some in H1 as [[<- <-]|[Hn1 H1]]; apply lookup_insert_Some in H2 as [[<- <-]|[Hn2 H2]]; try done.
    + right. cbn. by eapply new.
    + left. cbn. by eapply new.
    + by apply (ok_apart _ _ Hok d1 d2).
Qed.

Lemma get_meta_ok p used : pool_ok p used -> let '(p', d) := get_meta p in
  pool_ok p' used /\ d ∉ concat (m_FreePoolList p') ++ m_pFreeMetaData p' ++ elements used /\ is_Some (heap p' !! d) /\
  m_aSize p' = m_aSize p /\ (forall d', d' ∈ used -> heap p' !! d' = heap p !! d').
Proof.
  intros Hok. unfold get_meta. destruct (m_pFreeMetaData p) as [|d l] eqn:E.
  - assert (heap p !! fresh p = None) as Hf.
    { destruct (heap p !! fresh p) eqn:E'; [|done]. apply (ok_heap _ _ Hok) in E' as [? _]. lia. }
    split_and!; cbn; try done.
    + split; cbn; try apply Hok.
      * pose proof (ok_nodup _ _ Hok) as Hnd. by rewrite E in Hnd.
      * intros d m Hd. apply lookup_insert_Some in Hd as [[<- <-]|[_ Hd]]; [split_and!; [lia|done|by left]|].
        destruct (ok_heap _ _ Hok d m Hd) as (? & ? & ?). split_and!; [lia|done|done].
      * intros i l d Hl Hd. rewrite lookup_insert_ne; [by apply (ok_free _ _ Hok i l)|]. intros <-.
        destruct (ok_free _ _ Hok i l (fresh p) Hl Hd) as (m & Hm & _). congruence.
      * intros d Hd. rewrite lookup_insert_ne; [by apply (ok_used _ _ Hok)|]. intros <-. destruct (ok_used _ _ Hok _ Hd) as (m & Hm & _). congruence.
      * intros d Hd. by apply not_elem_of_nil in Hd.
      * intros d1 d2 m1 m2 Hne H1 H2 Hz1 Hz2. apply lookup_insert_Some in H1 as [[<- <-]|[_ H1]]; [done|].
        apply lookup_insert_Some in H2 as [[<- <-]|[_ H2]]; [done|]. by apply (ok_apart _ _ Hok d1 d2).
    + intros Hd. assert (is_Some (heap p !! fresh p)) as [? ?]; [|congruence]. apply (ids_in_heap p used); [done|]. by rewrite E.
    + by rewrite lookup_insert_eq.
    + intros d Hd. rewrite lookup_insert_ne; [done|]. intros <-. destruct (ok_used _ _ Hok _ Hd) as (m & Hm & _). congruence.
  - pose proof (ok_nodup _ _ Hok) as Hnd. rewrite E in Hnd. cbn in Hnd. rewrite <- Permutation_middle in Hnd. apply NoDup_cons in Hnd as [Hd Hnd].
    split_and!; cbn; try done.
    + split; cbn; try apply Hok; [done|]. intros d' Hd'. apply (ok_meta _ _ Hok). rewrite E. set_solver.
    + apply (ok_meta _ _ Hok). rewrite E. set_solver.
Qed.

(** The capacity of a block for [s] bytes. *)
Definition alloc_size (s : Z) : Z := snd (find_size (sizes POOL_DATA_TOTAL_TYPE POOL_DATA_MIN_LEN) 0 s).

Lemma sizes_val : sizes POOL_DATA_TOTAL_TYPE POOL_DATA_MIN_LEN = [512; 1024; 2048; 4096; 8192; 16384; 32768; 65536; 131072; 262144; 524288; 1048576].
Proof. reflexivity. Qed.

Lemma alloc_size_cases s : 0 <= s < 2 ^ 31 ->
  s <= 2 ^ 20 /\ s <= alloc_size s <= Z.max 512 (2 * s) /\ alloc_size s <= 2 ^ 20 \/ 2 ^ 20 < s /\ alloc_size s = s.
Proof.
  intros Hs. unfold alloc_size. rewrite sizes_val. cbn [find_size].
  repeat (match goal with |- context [s <=? ?a] => destruct (Z.leb_spec s a) end; [left; cbn [snd]; lia|]). right. cbn [snd].
  rewrite swrap_small by lia. lia.
Qed.

Lemma alloc_size_le s : 0 <= s < 2 ^ 31 -> s <= alloc_size s <= Z.max 512 (2 * s).
Proof. intros Hs. destruct (alloc_size_cases s Hs) as [?|?]; lia. Qed.

Lemma alloc_size_min s : 0 <= s < 2 ^ 31 -> 512 <= alloc_size s.
Proof.
  intros Hs. unfold alloc_size. rewrite sizes_val. cbn [find_size].
  repeat (match goal with |- context [s <=? ?a] => destruct (Z.leb_spec s a) end; [cbn [snd]; lia|]). cbn [snd].
  rewrite swrap_small by lia. lia.
Qed.

Lemma alloc_size_idem s : 0 <= s < 2 ^ 31 -> alloc_size (alloc_size s) = alloc_size s.
Proof.
  intros Hs. unfold alloc_size at 2 3. rewrite sizes_val. cbn [find_size].
  repeat (match goal with |- context [s <=? ?a] => destruct (Z.leb_spec s a) end; [reflexivity|]). cbn [snd].
  rewrite swrap_small by lia. destruct (alloc_size_cases s Hs) as [?|?]; lia.
Qed.

(** A block for [sSize] bytes. *)
Lemma GetData_ok p used sSize : pool_ok p used -> 0 <= sSize < 2 ^ 31 ->
  exists p' d m, GetData p sSize = Ret (p', d) /\ pool_ok p' ({[d]} ∪ used) /\ d ∉ used /\
    heap p' !! d = Some m /\ 0 < m_uszData m /\ m_sCapacity m = alloc_size sSize /\ (forall d', d' ∈ used -> heap p' !! d' = heap p !! d').
Proof.
  intros Hok Hs. unfold GetData. pose proof (find_size_spec (m_aSize p) sSize Hs 0) as Hf. destruct (find_size _ _ _) as [i a] eqn:Ef. destruct Hf as [Hsa Hi].
  assert ((i <= POOL_DATA_TOTAL_TYPE)%nat /\ forall a', m_aSize p !! i = Some a' -> a = a') as [Hi12 Hcap].
  { rewrite (ok_sizes _ _ Hok) in *. destruct Hi as [[_ Hl]|[-> ->]].
    - rewrite Nat.sub_0_r in Hl. split; [apply lookup_lt_Some in Hl; change (length _) with 12%nat in Hl; unfold POOL_DATA_TOTAL_TYPE; lia|congruence].
    - split; [done|]. intros a'. by rewrite lookup_ge_None_2 by (unfold POOL_DATA_TOTAL_TYPE; cbn; lia). }
  assert (a = alloc_size sSize) as Haz by (unfold alloc_size; rewrite <- (ok_sizes _ _ Hok), Ef; done).
  assert (new : exists p' d m, new_data p i a = Ret (p', d) /\ pool_ok p' ({[d]} ∪ used) /\ d ∉ used /\
    heap p' !! d = Some m /\ 0 < m_uszData m /\ m_sCapacity m = alloc_size sSize /\ (forall d', d' ∈ used -> heap p' !! d' = heap p !! d')).
  { unfold new_data. rewrite (proj2 (Z.ltb_ge _ _)) by lia. pose proof (get_meta_ok p used Hok) as Hg. destruct (get_meta p) as [p1 d]. destruct Hg as (Hok1 & Hd & [m Hm] & Hsz & Hsame).
    rewrite Hm. eexists _, d, _. split; [reflexivity|]. rewrite !not_elem_of_app, elem_of_elements in Hd.
    split; [apply fill_ok; try done; [rewrite !not_elem_of_app, elem_of_elements; done|lia|by rewrite Hsz]|]. cbn.
    split_and!; [naive_solver|by rewrite lookup_insert_eq|cbn; apply (ok_brk _ _ Hok1)|done|].
    intros d' Hd'. rewrite lookup_insert_ne by naive_solver. by apply Hsame. }
  destruct (m_FreePoolList p !! i) as [l0|] eqn:El; [|exact new].
  rewrite (m_iIndex_zeroed _ _ _ (ok_junk _ _ Hok)). destruct l0 as [|d l]; [exact new|].
  rewrite (proj2 (Z.eqb_neq _ 0)) by (rewrite zlen_cons; pose proof (zlen_nonneg l); lia).
  destruct (ok_free _ _ Hok i (d :: l) d El ltac:(set_solver)) as (m & Hm & Hz & Hmi). rewrite Hm.
  destruct (ok_heap _ _ Hok d m Hm) as (_ & _ & [?|Hbl]); [done|]. pose proof Hbl as (Hpos & _ & _ & _ & _ & Hc).
  assert (m_sCapacity m = a) as Hma.
  { destruct Hi as [[_ Hl]|[-> _]]; [apply Hc; by rewrite Hmi, <- (Nat.sub_0_r i)|].
    apply lookup_lt_Some in El. rewrite (ok_lists _ _ Hok) in El. lia. }
  rewrite (proj2 (Z.eqb_neq _ 0)), (proj2 (Z.eqb_eq _ a)) by (done || lia). cbn [negb andb].
  destruct (concat_replace _ _ _ El) as (R & HR & HR'). pose proof (ok_nodup _ _ Hok) as Hnd. rewrite HR in Hnd. cbn in Hnd.
  pose proof Hnd as Hnd'. apply NoDup_cons in Hnd' as [Hd _]. rewrite !not_elem_of_app, elem_of_elements in Hd.
  eexists _, d, m. split; [reflexivity|]. split_and!; cbn; try done; [|naive_solver|congruence].
  split; cbn; try apply Hok.
  - by rewrite length_insert, (ok_lists _ _ Hok).
  - intros j l' Hj. apply list_lookup_insert_Some in Hj as [(<- & <- & _)|[_ Hj]]; [|by apply (ok_max _ _ Hok)].
    pose proof (ok_max _ _ Hok _ _ El). rewrite zlen_cons in *. lia.
  - rewrite HR', elements_disj_union by set_solver. rewrite elements_singleton. cbn. by rewrite <- !Permutation_middle.
  - intros j l' d' Hj Hd'. apply list_lookup_insert_Some in Hj as [(<- & <- & _)|[_ Hj]]; [|by apply (ok_free _ _ Hok j l')].
    apply (ok_free _ _ Hok i (d :: l)); [done|set_solver].
  - intros d' Hd'. apply elem_of_union in Hd' as [->%elem_of_singleton|Hd']; [by exists m|by apply (ok_used _ _ Hok)].
Qed.

(** A block of the heap changes, but not where it is. *)
Lemma heap_ok p used d m m' : pool_ok p used -> heap p !! d = Some m ->
  m_cStaticFlag m' = m_cStaticFlag m -> m_uszData m' = m_uszData m -> m_uszEnd m' = m_uszEnd m -> m_uiIndex m' = m_uiIndex m ->
  m_sCapacity m' = m_sCapacity m -> pool_ok (set_heap p (<[d := m']> (heap p))) used.
Proof.
  intros Hok Hm E1 E2 E3 E4 E5. split; cbn; try apply Hok.
  - intros d' n Hd. apply lookup_insert_Some in Hd as [[<- <-]|[_ Hd]]; [|by apply (ok_heap _ _ Hok)].
    destruct (ok_heap _ _ Hok d m Hm) as (? & ? & ?). unfold block_ok in *. cbn. rewrite E1, E2, E3, E4, E5. done.
  - intros i l d' Hl Hd. destruct (ok_free _ _ Hok i l d' Hl Hd) as (n & Hn & ? & ?). destruct (decide (d' = d)) as [->|].
    + rewrite lookup_insert_eq. exists m'. rewrite E2, E4. naive_solver.
    + rewrite lookup_insert_ne by done. by exists n.
  - intros d' Hd. destruct (ok_used _ _ Hok d' Hd) as (n & Hn & ?). destruct (decide (d' = d)) as [->|].
    + rewrite lookup_insert_eq. exists m'. rewrite E2. naive_solver.
    + rewrite lookup_insert_ne by done. by exists n.
  - intros d' Hd. rewrite lookup_insert_is_Some. destruct (decide (d = d')); [by left|right]. split; [done|by apply (ok_meta _ _ Hok)].
  - intros d1 d2 m1 m2 Hne H1 H2. unfold apart.
    apply lookup_insert_Some in H1 as [[<- <-]|[_ H1]]; apply lookup_insert_Some in H2 as [[<- <-]|[_ H2]]; try done; rewrite ?E2, ?E5; intros;
      by eapply (ok_apart _ _ Hok).
Qed.

Lemma used_nodup p d used : pool_ok p ({[d]} ∪ used) -> d ∉ used ->
  NoDup (concat (m_FreePoolList p) ++ m_pFreeMetaData p ++ elements used) /\
  d ∉ concat (m_FreePoolList p) ++ m_pFreeMetaData p ++ elements used.
Proof.
  intros Hok Hd. pose proof (ok_nodup _ _ Hok) as Hnd. rewrite elements_disj_union in Hnd by set_solver. rewrite elements_singleton in Hnd. cbn in Hnd.
  rewrite <- !Permutation_middle in Hnd. by apply NoDup_cons in Hnd as [? ?].
Qed.

Lemma delete_data_ok p used d m m0 : pool_ok p ({[d]} ∪ used) -> d ∉ used -> heap p !! d = Some m -> m_cStaticFlag m0 = 0 ->
  exists p', delete_data p d m0 = Ret p' /\ pool_ok p' used /\ (forall d', d' ∈ used -> heap p' !! d' = heap p !! d').
Proof.
  intros Hok Hd Hm Hst. destruct (used_nodup p d used Hok Hd) as [Hnd Hin]. unfold delete_data. cbn zeta. rewrite !not_elem_of_app, elem_of_elements in Hin. destruct Hin as (Hi1 & Hi2 & _).
  assert (notfree : forall i l, m_FreePoolList p !! i = Some l -> d ∉ l).
  { intros i l Hl Hdl. apply Hi1, list_elem_of_In, in_concat. exists l. rewrite <- !list_elem_of_In. split; [by eapply list_elem_of_lookup_2|done]. }
  case_match; (eexists; split; [reflexivity|]); (split; [|intros d' Hd'; cbn; (rewrite lookup_insert_ne || rewrite lookup_delete_ne); [done|set_solver]]).
  - split; cbn; try apply Hok.
    + rewrite <- Permutation_middle. constructor; [|done]. rewrite !not_elem_of_app, elem_of_elements. done.
    + intros d' n Hn. apply lookup_insert_Some in Hn as [[<- <-]|[_ Hn]]; [|by apply (ok_heap _ _ Hok)]. cbn.
      destruct (ok_heap _ _ Hok d m Hm) as (? & _ & _). split_and!; [done|done|by left].
    + intros i l d' Hl Hd'. rewrite lookup_insert_ne; [by apply (ok_free _ _ Hok i l)|]. intros <-. by eapply notfree.
    + intros d' Hd'. rewrite lookup_insert_ne by set_solver. apply (ok_used _ _ Hok). set_solver.
    + intros d' Hd'. rewrite lookup_insert_is_Some. apply elem_of_cons in Hd' as [->|Hd']; [by left|]. destruct (decide (d = d')); [by left|right].
      split; [done|by apply (ok_meta _ _ Hok)].
    + intros d1 d2 m1 m2 Hne H1 H2 Hz1 Hz2. apply lookup_insert_Some in H1 as [[<- <-]|[_ H1]]; [done|].
      apply lookup_insert_Some in H2 as [[<- <-]|[_ H2]]; [done|]. by apply (ok_apart _ _ Hok d1 d2).
  - split; cbn; try apply Hok; try done.
    + intros d' n Hn. apply lookup_delete_Some in Hn as [_ Hn]. by apply (ok_heap _ _ Hok).
    + intros i l d' Hl Hd'. rewrite lookup_delete_ne; [by apply (ok_free _ _ Hok i l)|]. intros <-. by eapply notfree.
    + intros d' Hd'. rewrite lookup_delete_ne by set_solver. apply (ok_used _ _ Hok). set_solver.
    + intros d' Hd'. rewrite lookup_delete_ne; [by apply (ok_meta _ _ Hok)|]. by intros <-.
    + intros d1 d2 m1 m2 Hne H1 H2. apply lookup_delete_Some in H1 as [_ H1]. apply lookup_delete_Some in H2 as [_ H2]. by apply (ok_apart _ _ Hok d1 d2).
Qed.

Lemma Release_ok p used d : pool_ok p ({[d]} ∪ used) -> d ∉ used ->
  exists p', Release p d = Ret p' /\ pool_ok p' used /\ (forall d', d' ∈ used -> heap p' !! d' = heap p !! d').
Proof.
  intros Hok Hd. destruct (ok_used _ _ Hok d ltac:(set_solver)) as (m & Hm & Hz). destruct (ok_heap _ _ Hok d m Hm) as (Hf & Hst & [?|Hbl]); [done|].
  pose proof Hbl as (_ & _ & _ & _ & Hi & _). unfold Release. rewrite Hm, (proj2 (Nat.leb_le _ _)), (proj2 (Z.eqb_neq _ 0)), Hst by done. cbn [negb andb Z.eqb]. cbn zeta.
  set (m0 := mkData _ _ _ _ _ _).
  destruct (m_FreePoolList p !! m_uiIndex m) as [l|] eqn:El; [|by eapply delete_data_ok].
  rewrite (m_iIndex_zeroed _ _ _ (ok_junk _ _ Hok)). destruct (Z.eqb_spec (zlen l) (m_iMaxTotal (m_uiIndex m))) as [|Hmax]; [by eapply delete_data_ok|].
  pose proof (ok_max _ _ Hok _ _ El) as Hle. pose proof (zlen_nonneg l) as Hnn.
  rewrite (proj2 (Z.ltb_ge (zlen l) 0)), (proj2 (Z.ltb_ge (m_iMaxTotal _) _)) by lia. cbn [orb].
  destruct (used_nodup p d used Hok Hd) as [Hnd Hin]. destruct (concat_replace _ _ _ El) as (R & HR & HR').
  eexists. split; [reflexivity|]. split; [|intros d' Hd'; cbn; rewrite lookup_insert_ne; [done|set_solver]].
  assert (Hok' : pool_ok (set_heap p (<[d := m0]> (heap p))) ({[d]} ∪ used)) by (by eapply heap_ok).
  split; cbn; try apply Hok'.
  - by rewrite length_insert, (ok_lists _ _ Hok).
  - intros j l' Hj. apply list_lookup_insert_Some in Hj as [(<- & <- & _)|[_ Hj]]; [|by apply (ok_max _ _ Hok)].
    rewrite zlen_cons. lia.
  - rewrite HR'. cbn. rewrite <- HR. by constructor.
  - intros j l' d' Hj Hd'. apply list_lookup_insert_Some in Hj as [(<- & <- & _)|[_ Hj]]; [|by apply (ok_free _ _ Hok' j l')].
    apply elem_of_cons in Hd' as [->|Hd']; [rewrite lookup_insert_eq; by exists m0|by apply (ok_free _ _ Hok' (m_uiIndex m) l)].
  - intros d' Hd'. apply (ok_used _ _ Hok'). set_solver.
Qed.

(** ** Users of the pool

    [held] are the blocks its users hold, with the sizes they asked for; they
    release only what they hold. *)
Inductive pool_reach (junk0 : list Z) : MemPool -> gmap nat Z -> Prop :=
| pr_new : pool_reach junk0 (new_MemPool junk0) ∅
| pr_get p held s p' d : pool_reach junk0 p held -> 0 <= s < 2 ^ 31 -> GetData p s = Ret (p', d) ->
    pool_reach junk0 p' (<[d := s]> held)
| pr_release p held d p' : pool_reach junk0 p held -> is_Some (held !! d) -> Release p d = Ret p' ->
    pool_reach junk0 p' (delete d held).

Definition holds_ok (p : MemPool) (held : gmap nat Z) : Prop :=
  pool_ok p (dom held) /\ forall d s, held !! d = Some s -> exists m, heap p !! d = Some m /\ s <= m_sCapacity m.

Lemma pool_reach_ok p held : pool_reach zeroed p held -> holds_ok p held.
Proof.
  induction 1 as [|p held s p' d _ [Hok Hh] Hs E|p held d p' _ [Hok Hh] [s Hd] E].
  - split; [rewrite dom_empty_L; apply new_pool_ok|]. intros d s. by rewrite lookup_empty.
  - destruct (GetData_ok p _ s Hok Hs) as (p1 & d1 & m & E1 & Hok1 & Hd1 & Hm & _ & Hc & Hsame). rewrite E in E1. injection E1 as <- <-.
    split; [by rewrite dom_insert_L|]. intros d' s' Hd'. apply lookup_insert_Some in Hd' as [[<- <-]|[_ Hd']]; [exists m; pose proof (alloc_size_le s Hs); split; [done|lia]|].
    rewrite Hsame by (by apply elem_of_dom_2 in Hd'). by apply Hh.
  - assert (dom held = {[d]} ∪ dom (delete d held)) as Hdom.
    { rewrite dom_delete_L. rewrite <- union_difference_singleton_L; [done|]. by apply elem_of_dom_2 in Hd. }
    rewrite Hdom in Hok. destruct (Release_ok p (dom (delete d held)) d Hok) as (p1 & E1 & Hok1 & Hsame); [set_solver|].
    rewrite E in E1. injection E1 as <-. split; [done|]. intros d' s' Hd'. rewrite Hsame by (by apply elem_of_dom_2 in Hd').
    apply lookup_delete_Some in Hd' as [_ Hd']. by apply Hh.
Qed.

(** C19: As long as users release only blocks they hold, a pool whose object
    was made in zeroed memory serves every request with a block of at least the
    requested size that nobody holds and that is apart from all blocks somebody
    holds, and it takes every block back that is held; no assertion fails.  The
    constructor does not set [m_iIndex] itself; see [uninitialised_index]. *)
Theorem pool_serves junk0 p held : junk0 = zeroed -> pool_reach junk0 p held ->
  (forall s, 0 <= s < 2 ^ 31 -> exists p' d m, GetData p s = Ret (p', d) /\ held !! d = None /\ heap p' !! d = Some m /\ s <= m_sCapacity m /\
     forall d' s', held !! d' = Some s' -> exists m', heap p !! d' = Some m' /\ heap p' !! d' = Some m' /\ s' <= m_sCapacity m' /\ apart m m') /\
  (forall d, is_Some (held !! d) -> exists p', Release p d = Ret p').
Proof.
  intros -> Hr. apply pool_reach_ok in Hr as [Hok Hh]. split.
  - intros s Hs. destruct (GetData_ok p _ s Hok Hs) as (p' & d & m & E & Hok' & Hd & Hm & Hpos & Hc & Hsame). exists p', d, m.
    split_and!; try done; [by apply not_elem_of_dom|rewrite Hc; by apply alloc_size_le|]. intros d' s' Hd'. destruct (Hh d' s' Hd') as (m' & Hm' & Hc'). exists m'.
    assert (d' ∈ dom held) as Hin by (by apply elem_of_dom_2 in Hd'). rewrite Hsame by done. split_and!; try done.
    apply (ok_apart _ _ Hok' d d'); [set_solver|done|by rewrite Hsame|lia|].
    destruct (ok_used _ _ Hok d' Hin) as (m1 & Hm1 & ?). congruence.
  - intros d [s Hd]. assert (dom held = {[d]} ∪ dom (delete d held)) as Hdom.
    { rewrite dom_delete_L. rewrite <- union_difference_singleton_L; [done|]. by apply elem_of_dom_2 in Hd. }
    rewrite Hdom in Hok. destruct (Release_ok p (dom (delete d held)) d Hok) as (p1 & E1 & _); [set_solver|]. by exists p1.
Qed.

Lemma find_size_of i a : sizes POOL_DATA_TOTAL_TYPE POOL_DATA_MIN_LEN !! i = Some a ->
  find_size (sizes POOL_DATA_TOTAL_TYPE POOL_DATA_MIN_LEN) 0 a = (i, a).
Proof. do 12 (destruct i as [|i]; [intros H; vm_compute in H; injection H as <-; vm_compute; done|]). done. Qed.

(** A release into a free list that is not full. *)
Lemma Release_push p d m l : heap p !! d = Some m -> (m_uiIndex m <= POOL_DATA_TOTAL_TYPE)%nat -> m_uszData m <> 0 -> m_cStaticFlag m = 0 ->
  junk p = zeroed -> m_FreePoolList p !! m_uiIndex m = Some l -> zlen l < m_iMaxTotal (m_uiIndex m) ->
  exists p' m', Release p d = Ret p' /\ m_aSize p' = m_aSize p /\ junk p' = zeroed /\ m_FreePoolList p' = <[m_uiIndex m := d :: l]> (m_FreePoolList p) /\
    heap p' !! d = Some m' /\ m_uiIndex m' = m_uiIndex m /\ m_uszData m' = m_uszData m /\ m_cStaticFlag m' = 0 /\ m_sCapacity m' = m_sCapacity m.
Proof.
  intros Hm Hi Hz Hst Hj Hl Hmax. unfold Release. rewrite Hm, (proj2 (Nat.leb_le _ _)), (proj2 (Z.eqb_neq _ 0)), Hst, Hl by done.
  cbn [negb andb Z.eqb]. cbn zeta. rewrite (m_iIndex_zeroed _ _ _ Hj). pose proof (zlen_nonneg l).
  rewrite (proj2 (Z.eqb_neq _ _)), (proj2 (Z.ltb_ge (zlen l) 0)), (proj2 (Z.ltb_ge (m_iMaxTotal _) _)) by lia. eexists _, _. split; [reflexivity|]. cbn.
  by rewrite lookup_insert_eq.
Qed.

(** A request served from a free list. *)
Lemma GetData_pop p d m l : sizes POOL_DATA_TOTAL_TYPE POOL_DATA_MIN_LEN !! m_uiIndex m = Some (m_sCapacity m) ->
  m_aSize p = sizes POOL_DATA_TOTAL_TYPE POOL_DATA_MIN_LEN -> junk p = zeroed -> heap p !! d = Some m -> m_uszData m <> 0 ->
  m_FreePoolList p !! m_uiIndex m = Some (d :: l) ->
  exists p', GetData p (m_sCapacity m) = Ret (p', d) /\ m_aSize p' = m_aSize p /\ junk p' = zeroed /\ heap p' = heap p /\
    m_FreePoolList p' = <[m_uiIndex m := l]> (m_FreePoolList p).
Proof.
  intros Hc Hs Hj Hm Hz Hl. unfold GetData. rewrite Hs, (find_size_of _ _ Hc), Hl, (m_iIndex_zeroed _ _ _ Hj).
  rewrite (proj2 (Z.eqb_neq (zlen _) 0)) by (rewrite zlen_cons; pose proof (zlen_nonneg l); lia). rewrite Hm, (proj2 (Z.eqb_neq _ 0)), Z.eqb_refl by done. cbn. by eexists.
Qed.

(** A block that is released twice is handed out twice: of the next two users
    that ask for blocks of its size, both get it. *)
Theorem double_release_shares p held d s m l : pool_reach zeroed p held -> held !! d = Some s -> heap p !! d = Some m ->
  m_FreePoolList p !! m_uiIndex m = Some l -> zlen l + 2 <= m_iMaxTotal (m_uiIndex m) ->
  exists p1 p2 p3 p4, Release p d = Ret p1 /\ Release p1 d = Ret p2 /\
    GetData p2 (m_sCapacity m) = Ret (p3, d) /\ GetData p3 (m_sCapacity m) = Ret (p4, d).
Proof.
  intros Hr Hd Hm Hl Hmax. apply pool_reach_ok in Hr as [Hok _]. destruct (ok_used _ _ Hok d) as (m1 & Hm1 & Hz); [by apply elem_of_dom_2 in Hd|].
  rewrite Hm in Hm1. injection Hm1 as <-. destruct (ok_heap _ _ Hok d m Hm) as (_ & Hst & [?|Hbl]); [done|]. pose proof Hbl as (_ & _ & _ & _ & Hi & Hc).
  pose proof (lookup_lt_Some _ _ _ Hl) as Hlt.
  assert (sizes POOL_DATA_TOTAL_TYPE POOL_DATA_MIN_LEN !! m_uiIndex m = Some (m_sCapacity m)) as Hcap.
  { rewrite (ok_lists _ _ Hok) in Hlt. destruct (lookup_lt_is_Some_2 (sizes POOL_DATA_TOTAL_TYPE POOL_DATA_MIN_LEN) (m_uiIndex m) Hlt) as [a Ha].
    rewrite (ok_sizes _ _ Hok) in Hc. by rewrite Ha, (Hc a Ha). }
  destruct (Release_push p d m l Hm Hi Hz Hst (ok_junk _ _ Hok) Hl) as (p1 & m1 & E1 & S1 & J1 & L1 & M1 & I1 & Z1 & T1 & C1); [lia|].
  destruct (Release_push p1 d m1 (d :: l) M1) as (p2 & m2 & E2 & S2 & J2 & L2 & M2 & I2 & Z2 & T2 & C2); try congruence.
  { rewrite L1, I1. by apply list_lookup_insert_eq. }
  { rewrite I1, zlen_cons. lia. }
  assert (m_uiIndex m2 = m_uiIndex m /\ m_sCapacity m2 = m_sCapacity m) as [I C] by (split; congruence).
  rewrite I1, L1, list_insert_insert_eq in L2.
  destruct (GetData_pop p2 d m2 (d :: l)) as (p3 & E3 & S3 & J3 & H3 & L3); try congruence.
  { rewrite S2, S1. apply Hok. }
  { rewrite L2, I. by apply list_lookup_insert_eq. }
  destruct (GetData_pop p3 d m2 l) as (p4 & E4 & _); try congruence.
  { rewrite S3, S2, S1. apply Hok. }
  { rewrite L3, I. apply list_lookup_insert_eq. by rewrite L2, length_insert. }
  rewrite C in *. by exists p1, p2, p3, p4.
Qed.

(** The pool does not initialise the index of its arrays.  Where it is not zero
    by accident, the first request for a block of that size pops a pointer that
    is not that of a block. *)
Theorem uninitialised_index junk0 i a x : sizes POOL_DATA_TOTAL_TYPE POOL_DATA_MIN_LEN !! i = Some a -> junk0 !! i = Some x -> x <> 0 ->
  GetData (new_MemPool junk0) a = Panic.
Proof.
  intros Ha Hx Hn. unfold GetData. cbn [m_aSize new_MemPool]. rewrite (find_size_of _ _ Ha). cbn [m_FreePoolList].
  pose proof (lookup_lt_Some _ _ _ Ha) as Hlt. change (length _) with POOL_DATA_TOTAL_TYPE in Hlt.
  change (m_FreePoolList _ !! i) with (replicate POOL_DATA_TOTAL_TYPE (@nil nat) !! i).
  rewrite (lookup_replicate_2 _ _ _ Hlt). unfold m_iIndex. change (junk (new_MemPool junk0)) with junk0. rewrite Hx. cbn [default from_option id].
  change (zlen []) with 0. rewrite Z.add_0_r. by rewrite (proj2 (Z.eqb_neq x 0)) by done.
Qed.

(** ** Examples *)

(** A pool with one block in use. *)
Definition pool1 : MemPool := match GetData (new_MemPool zeroed) 100 with Ret (p, _) => p | Panic => new_MemPool zeroed end.

Lemma pool1_get : GetData (new_MemPool zeroed) 100 = Ret (pool1, 0%nat).
Proof. vm_compute. reflexivity. Qed.

Lemma pool1_reach : pool_reach zeroed pool1 {[0%nat := 100]}.
Proof. apply (pr_get _ _ _ _ _ _ (pr_new _)); [lia|exact pool1_get]. Qed.

Lemma pool1_block : (fun m => (m_uiIndex m, m_sCapacity m)) <$> heap pool1 !! 0%nat = Some (0%nat, 512) /\ m_FreePoolList pool1 !! 0%nat = Some [].
Proof. vm_compute. done. Qed.

Lemma pool_serves_witness :
  (exists p' d m, GetData pool1 600 = Ret (p', d) /\ ({[0%nat := 100]} : gmap nat Z) !! d = None /\ heap p' !! d = Some m /\ 600 <= m_sCapacity m /\
    forall d' s', ({[0%nat := 100]} : gmap nat Z) !! d' = Some s' -> exists m', heap pool1 !! d' = Some m' /\ heap p' !! d' = Some m' /\ s' <= m_sCapacity m' /\ apart m m') /\
  exists p', Release pool1 0 = Ret p'.
Proof.
  destruct (pool_serves zeroed pool1 {[0%nat := 100]} eq_refl pool1_reach) as [Hget Hrel]. split; [apply (Hget 600); lia|]. apply Hrel. by rewrite lookup_singleton_eq.
Defined.

Lemma double_release_shares_witness :
  exists p1 p2 p3 p4, Release pool1 0 = Ret p1 /\ Release p1 0 = Ret p2 /\ GetData p2 512 = Ret (p3, 0%nat) /\ GetData p3 512 = Ret (p4, 0%nat).
Proof.
  destruct pool1_block as [Hb Hl]. destruct (heap pool1 !! 0%nat) as [m|] eqn:Hm; [|discriminate]. cbn in Hb. injection Hb as Hi Hc.
  rewrite <- Hc. apply (double_release_shares pool1 {[0%nat := 100]} 0 100 m [] pool1_reach); [apply lookup_singleton_eq|exact Hm|rewrite Hi; exact Hl|].
  rewrite Hi. vm_compute. discriminate.
Defined.
