(* ===== verification/Msgbuffer.v ===== *)
(** * common/msgbuffer.cpp and the reading of replies

    [GR_MsgBufferMgr] is a block of the pool with the bytes that have been read
    and not used; it moves to other blocks when it grows and whenever a message
    is handed on, because the message keeps the old block.  Here are its
    operations and the reading half of [GR_RedisEvent] (proxy/redisevent.cpp):
    the messages a server sends are handed on one by one, whatever pieces they
    arrive in, and there is always room to read more. *)

From S2P Require Import Prelude Gostrings Resp Strconv Redismsg Redisstream Mempool.

(** The memory with some bytes written, [memcpy] and [memmove]. *)
Definition write_mem (mem : Z -> Z) (a : Z) (l : list Z) : Z -> Z :=
  fun x => if (a <=? x) && (x <? a + zlen l) then default 0 (l !! Z.to_nat (x - a)) else mem x.

Definition read_mem (mem : Z -> Z) (a n : Z) : list Z := mem <$> seqZ a n.

Lemma read_mem_at mem a l1 l2 : at_mem mem a (l1 ++ l2) -> read_mem mem a (zlen l1) = l1.
Proof.
  intros [H _]%at_mem_app. apply list_eq. intros i. unfold read_mem. rewrite list_lookup_fmap. destruct (l1 !! i) as [x|] eqn:E.
  - pose proof (lookup_lt_Some _ _ _ E). rewrite lookup_seqZ_lt by (unfold zlen; lia). cbn. f_equal. by apply H.
  - apply lookup_ge_None_1 in E. by rewrite lookup_seqZ_ge by (unfold zlen; lia).
Qed.

Lemma at_mem_write mem a l : at_mem (write_mem mem a l) a l.
Proof.
  intros i x Hi. pose proof (lookup_lt_Some _ _ _ Hi). unfold write_mem.
  rewrite (proj2 (Z.leb_le _ _)), (proj2 (Z.ltb_lt _ _)) by (unfold zlen; lia). cbn. by replace (Z.to_nat (a + Z.of_nat i - a)) with i by lia; rewrite Hi.
Qed.

Lemma at_mem_write_ne mem a l b l' : at_mem mem b l' -> b + zlen l' <= a \/ a + zlen l <= b -> at_mem (write_mem mem a l) b l'.
Proof.
  intros H Hd i x Hi. pose proof (lookup_lt_Some _ _ _ Hi). rewrite <- (H i x Hi). unfold write_mem.
  destruct (Z.leb_spec a (b + Z.of_nat i)), (Z.ltb_spec (b + Z.of_nat i) (a + zlen l)); try done. unfold zlen in *. lia.
Qed.

Lemma at_mem_append mem a w l : at_mem mem a w -> at_mem (write_mem mem (a + zlen w) l) a (w ++ l).
Proof. intros H. apply at_mem_app. split; [apply at_mem_write_ne; [done|lia]|apply at_mem_write]. Qed.

(** The buffer, with the pool and the memory it is in. *)
Record MsgBufferMgr := mkBuffer {
  m_pData : nat;
  m_szMsgStart : Z;
  m_szMsgEnd : Z;
  pool : MemPool;
  mem : Z -> Z
}.

(** The block of the buffer. *)
Definition data_of (b : MsgBufferMgr) : go MemPoolData :=
  match heap (pool b) !! m_pData b with Some m => Ret m | None => Panic end.

(** [MSGBUFFER_RESET]: the bytes go to the block [d]. *)
Definition reset_to (b : MsgBufferMgr) (d : nat) (bRelease : bool) : go MsgBufferMgr :=
  match heap (pool b) !! d with
  | None => Panic
  | Some m =>
      let l := read_mem (mem b) (m_szMsgStart b) (m_szMsgEnd b - m_szMsgStart b) in
      let! p := if bRelease then data_Release (pool b) (m_pData b) else Ret (pool b) in
      Ret {| m_pData := d; m_szMsgStart := m_uszData m; m_szMsgEnd := m_uszData m + (m_szMsgEnd b - m_szMsgStart b);
             pool := p; mem := write_mem (mem b) (m_uszData m) l |}
  end.

Definition with_pool (b : MsgBufferMgr) (p : MemPool) : MsgBufferMgr :=
  {| m_pData := m_pData b; m_szMsgStart := m_szMsgStart b; m_szMsgEnd := m_szMsgEnd b; pool := p; mem := mem b |}.

Definition buf_Init (p : MemPool) (m : Z -> Z) (iSize : Z) : go MsgBufferMgr :=
  let! (p, d) := GetData p iSize in
  match heap p !! d with
  | None => Panic
  | Some x => Ret {| m_pData := d; m_szMsgStart := m_uszData x; m_szMsgEnd := m_uszData x; pool := p; mem := m |}
  end.

Definition ResetMemPool (b : MsgBufferMgr) (iSize : Z) (bRelease : bool) : go MsgBufferMgr :=
  let! (p, d) := GetData (pool b) iSize in
  reset_to (with_pool b p) d bRelease.

Definition buf_Expand (b : MsgBufferMgr) (iAtLeast : Z) : go MsgBufferMgr :=
  let! m := data_of b in
  let iAtLeast := i32 (Z.max iAtLeast (Z.shiftl (m_sCapacity m) 2)) in
  let! (p, d) := GetData (pool b) (u64 iAtLeast) in
  reset_to (with_pool b p) d true.

Definition ResetBuffer (b : MsgBufferMgr) : go MsgBufferMgr :=
  let! m := data_of b in
  let l := read_mem (mem b) (m_szMsgStart b) (m_szMsgEnd b - m_szMsgStart b) in
  Ret {| m_pData := m_pData b; m_szMsgStart := m_uszData m; m_szMsgEnd := m_uszData m + (m_szMsgEnd b - m_szMsgStart b);
         pool := pool b; mem := write_mem (mem b) (m_uszData m) l |}.

Definition LeftCapcity (b : MsgBufferMgr) : go Z :=
  let! m := data_of b in Ret (m_sCapacity m - (m_szMsgEnd b - m_szMsgStart b)).

Definition LeftCapcityToEnd (b : MsgBufferMgr) : go Z :=
  let! m := data_of b in Ret (m_uszEnd m - m_szMsgEnd b).

(** [MSGBUFFER_READ] and [MSGBUFFER_WRITE] *)
Definition buf_Read (b : MsgBufferMgr) (n : Z) : MsgBufferMgr :=
  {| m_pData := m_pData b; m_szMsgStart := m_szMsgStart b + n; m_szMsgEnd := m_szMsgEnd b; pool := pool b; mem := mem b |}.
Definition buf_Write (b : MsgBufferMgr) (n : Z) : MsgBufferMgr :=
  {| m_pData := m_pData b; m_szMsgStart := m_szMsgStart b; m_szMsgEnd := m_szMsgEnd b + n; pool := pool b; mem := mem b |}.

(** ** Reading from a server

    [m_ReadCache] and [m_ReadMsg] of a connection; [got] are the messages that
    have been handed on, the block and the bytes of each. *)
Record reader := mkReader {
  m_ReadCache : MsgBufferMgr;
  m_ReadMsg : RedisMsg;
  got : list (nat * list Z)
}.

Definition REDIS_MSG_INIT_BUFFER : Z := 1024.

(** What [GR_RedisEvent::Init] sets up for reading. *)
Definition new_reader (p : MemPool) (m : Z -> Z) : go reader :=
  let! b := buf_Init p m REDIS_MSG_INIT_BUFFER in
  Ret {| m_ReadCache := b; m_ReadMsg := Init (m_szMsgStart b); got := [] |}.

(** The parser follows the buffer. *)
Definition follow (b : MsgBufferMgr) (s : RedisMsg) : go RedisMsg :=
  let! m := data_of b in Ret (Reset s (m_uszData m)).

(** [GR_RedisEvent::StartNext] *)
Definition rd_StartNext (r : reader) (bRelease : bool) : go reader :=
  let b := buf_Read (m_ReadCache r) (iLen (m_Info (m_ReadMsg r))) in
  let! m := data_of b in
  let! b := ResetMemPool b (m_sCapacity m) bRelease in
  let! s := follow b (StartNext (m_ReadMsg r)) in
  Ret {| m_ReadCache := b; m_ReadMsg := s; got := got r |}.

(** [m_sUsedSize] of a block is set. *)
Definition set_used (p : MemPool) (d : nat) (n : Z) : go MemPool :=
  match heap p !! d with
  | None => Panic
  | Some m =>
      Ret (set_heap p (<[d := {| m_cStaticFlag := m_cStaticFlag m; m_uszData := m_uszData m; m_uszEnd := m_uszEnd m;
                                 m_uiIndex := m_uiIndex m; m_sCapacity := m_sCapacity m; m_sUsedSize := n |}]> (heap p)))
  end.

(** The loop of [GR_RedisEvent::ProcessMsg]: a message is at the start of the
    block, and the block goes with it.  An error of the parser aborts. *)
Fixpoint process (fuel : nat) (r : reader) : go reader :=
  match fuel with
  | O => Panic
  | S fuel =>
      let b := m_ReadCache r in
      let! (s, c) := ParseRsp (mem b) (m_ReadMsg r) in
      if bool_decide (c <> GR_OK) then Panic
      else if bool_decide (nowState (m_Info s) <> GR_END) then Ret {| m_ReadCache := b; m_ReadMsg := s; got := got r |}
      else
        let! p := set_used (pool b) (m_pData b) (iLen (m_Info s)) in
        let b := with_pool b p in
        let! m := data_of b in
        let l := read_mem (mem b) (m_uszData m) (m_sUsedSize m) in
        let! r := rd_StartNext {| m_ReadCache := b; m_ReadMsg := s; got := got r ++ [(m_pData b, l)] |} false in
        process fuel r
  end.

(** The buffer after a read that has filled it. *)
Definition make_room (r : reader) : go reader :=
  let b := m_ReadCache r in
  let! m := data_of b in
  let! n := int (iMaxLen (m_Info (m_ReadMsg r)) + 256) in
  let! iLeft := LeftCapcity b in
  let! b :=
    if m_sCapacity m <? n then buf_Expand b n
    else if iLeft <? Z.shiftr (m_sCapacity m) 1 then buf_Expand b 0
    else ResetBuffer b in
  let! s := follow b (m_ReadMsg r) in
  Ret {| m_ReadCache := b; m_ReadMsg := s; got := got r |}.

(** A round of the loop of [GR_RedisEvent::Read] in which [read] gives the bytes
    [l]. *)
Definition read_round (r : reader) (l : list Z) : go reader :=
  let b := m_ReadCache r in
  let! iLeft := LeftCapcityToEnd b in
  let b := {| m_pData := m_pData b; m_szMsgStart := m_szMsgStart b; m_szMsgEnd := m_szMsgEnd b; pool := pool b;
              mem := write_mem (mem b) (m_szMsgEnd b) l |} in
  let r := {| m_ReadCache := buf_Write b (zlen l); m_ReadMsg := Expand (m_ReadMsg r) (zlen l); got := got r |} in
  let! r := process (S (Z.to_nat (m_szMsgEnd (m_ReadCache r) - m_szMsgStart (m_ReadCache r)))) r in
  if zlen l <? iLeft then Ret r else make_room r.
