(* ===== verification/Readstream.v ===== *)
(** * Reading replies, in whatever pieces they arrive

    The reading half of [GR_RedisEvent] (Msgbuffer.v) on a stream of replies:
    every reply is handed on, once, in order and unchanged, in a block of its
    own that nobody else writes, however the stream is cut into reads and
    whenever the users of earlier replies release their blocks; there is always
    room for another byte, and nothing aborts. *)

From S2P Require Import Prelude Gostrings Resp Strconv Redismsg Redisstream Mempool Msgbuffer.

(** ** The buffer

    [live] are the messages whose blocks have been handed on and not released;
    [a ++ w] are the bytes in the buffer's block, [w] those that are not used. *)

Definition blocks (live : list (nat * list Z)) : gset nat := list_to_set live.*1.

Definition intact (p : MemPool) (mem : Z -> Z) (d : nat) (l : list Z) : Prop :=
  exists m, heap p !! d = Some m /\ m_sUsedSize m = zlen l /\ zlen l <= m_sCapacity m /\ at_mem mem (m_uszData m) l.

Record buf_ok (C : Z) (b : MsgBufferMgr) (live : list (nat * list Z)) (m : MemPoolData) (a w : list Z) : Prop := {
  bo_pool : pool_ok (pool b) ({[m_pData b]} ∪ blocks live);
  bo_nodup : NoDup (m_pData b :: live.*1);
  bo_block : heap (pool b) !! m_pData b = Some m;
  bo_start : m_szMsgStart b = m_uszData m + zlen a;
  bo_end : m_szMsgEnd b = m_uszData m + zlen a + zlen w;
  bo_mem : at_mem (mem b) (m_uszData m) (a ++ w);
  bo_room : zlen a + zlen w <= m_sCapacity m;
  bo_size : alloc_size (m_sCapacity m) = m_sCapacity m;
  bo_cap : 512 <= m_sCapacity m <= C;
  bo_live : forall d l, (d, l) ∈ live -> intact (pool b) (mem b) d l
}.

Lemma in_blocks d l live : (d, l) ∈ live -> d ∈ blocks live.
Proof. intros H. apply elem_of_list_to_set, list_elem_of_fmap. by exists (d, l). Qed.

Lemma blocks_app live d l : blocks (live ++ [(d, l)]) = {[d]} ∪ blocks live.
Proof. unfold blocks. rewrite fmap_app, list_to_set_app_L. cbn. set_solver. Qed.

Lemma used_block p used d : pool_ok p used -> d ∈ used -> exists m, heap p !! d = Some m /\ 0 < m_uszData m /\ block_ok p m.
Proof.
  intros Hok Hd. destruct (ok_used _ _ Hok d Hd) as (m & Hm & Hz). exists m.
  destruct (ok_heap _ _ Hok d m Hm) as (_ & _ & [?|Hb]); [done|]. split_and!; try done. apply Hb.
Qed.

(** Bytes of one block are not changed by a write to another one. *)
Lemma write_apart p used d1 d2 m1 m2 mem l1 l2 : pool_ok p used -> d1 <> d2 -> d1 ∈ used -> d2 ∈ used ->
  heap p !! d1 = Some m1 -> heap p !! d2 = Some m2 -> zlen l1 <= m_sCapacity m1 -> zlen l2 <= m_sCapacity m2 ->
  at_mem mem (m_uszData m1) l1 -> at_mem (write_mem mem (m_uszData m2) l2) (m_uszData m1) l1.
Proof.
  intros Hok Hne Hd1 Hd2 H1 H2 Hc1 Hc2 Hm. apply at_mem_write_ne; [done|].
  destruct (used_block p used d1 Hok Hd1) as (m1' & E1 & P1 & _). destruct (used_block p used d2 Hok Hd2) as (m2' & E2 & P2 & _).
  assert (apart m1 m2) as Ha by (apply (ok_apart _ _ Hok d1 d2); try done; [replace m1 with m1' by congruence|replace m2 with m2' by congruence]; lia).
  unfold apart in Ha. lia.
Qed.

(** A write in the buffer's block leaves the messages alone. *)
Lemma live_write C b live m a w d l addr x : buf_ok C b live m a w -> (d, l) ∈ live ->
  m_uszData m <= addr -> addr + zlen x <= m_uszData m + m_sCapacity m -> intact (pool b) (write_mem (mem b) addr x) d l.
Proof.
  intros Hb Hl H1 H2. destruct (bo_live _ _ _ _ _ _ Hb d l Hl) as (md & Hmd & Hu & Hc & Hat). exists md. split_and!; try done.
  pose proof (in_blocks _ _ _ Hl) as Hin. pose proof (bo_nodup _ _ _ _ _ _ Hb) as Hnd. apply NoDup_cons in Hnd as [Hmine _].
  assert (d <> m_pData b) as Hdm by (intros ->; apply Hmine, list_elem_of_fmap; by exists (m_pData b, l)).
  pose proof (bo_pool _ _ _ _ _ _ Hb) as Hok. pose proof (bo_block _ _ _ _ _ _ Hb) as Hm.
  destruct (used_block _ _ d Hok) as (md' & Hmd' & Hpos & _); [set_solver|]. rewrite Hmd in Hmd'. injection Hmd' as <-.
  destruct (used_block _ _ (m_pData b) Hok) as (mm & Hmm & Hpos' & _); [set_solver|]. rewrite Hm in Hmm. injection Hmm as <-.
  assert (apart md m) as Ha by (apply (ok_apart _ _ Hok d (m_pData b)); try done; lia).
  apply at_mem_write_ne; [done|]. unfold apart in Ha. lia.
Qed.

(** ** A new block *)

Section switch.
Context (C : Z) (b : MsgBufferMgr) (live : list (nat * list Z)) (m : MemPoolData) (a w : list Z).
Hypothesis Hb : buf_ok C b live m a w.

(** The bytes go to the block [d] of the pool [p], and [live'] are held then. *)
Lemma reset_ok p d m' p' live' rel n :
  pool_ok p ({[d]} ∪ ({[m_pData b]} ∪ blocks live)) -> d ∉ {[m_pData b]} ∪ blocks live -> heap p !! d = Some m' ->
  m_sCapacity m' = alloc_size n -> 0 <= n < 2 ^ 31 -> zlen w <= n -> alloc_size n <= C ->
  (forall d', d' ∈ {[m_pData b]} ∪ blocks live -> heap p !! d' = heap (pool b) !! d') ->
  (if (rel : bool) then data_Release p (m_pData b) = Ret p' else p' = p) ->
  pool_ok p' ({[d]} ∪ blocks live') -> NoDup (d :: live'.*1) -> heap p' !! d = Some m' ->
  (forall d' l, (d', l) ∈ live' -> intact p (mem b) d' l /\ d' ∈ {[m_pData b]} ∪ blocks live /\ heap p' !! d' = heap p !! d') ->
  exists b', reset_to (with_pool b p) d rel = Ret b' /\ buf_ok C b' live' m' [] w.
Proof.
  intros Hp Hd Hm' Hc Hn Hw HC Hsame Hrel Hp' Hnd Hm'' Hlive. destruct (alloc_size_le n Hn) as [Hn1 Hn2].
  unfold reset_to. cbn [pool with_pool]. rewrite Hm'. cbn [m_szMsgEnd m_szMsgStart mem with_pool m_pData]. cbn zeta.
  rewrite (bo_end _ _ _ _ _ _ Hb), (bo_start _ _ _ _ _ _ Hb).
  replace (m_uszData m + zlen a + zlen w - (m_uszData m + zlen a)) with (zlen w) by lia.
  assert (read_mem (mem b) (m_uszData m + zlen a) (zlen w) = w) as ->.
  { apply (read_mem_at _ _ _ []). rewrite app_nil_r. by apply at_mem_app, (bo_mem _ _ _ _ _ _ Hb). }
  assert ((if rel then data_Release p (m_pData b) else Ret p) = Ret p') as -> by (destruct rel; congruence).
  cbn [go_bind]. eexists. split; [reflexivity|]. split; cbn; rewrite ?zlen_nil, ?Z.add_0_r; try done; try lia.
  - apply at_mem_write.
  - rewrite Hc. by apply alloc_size_idem.
  - rewrite Hc. split; [by apply alloc_size_min|done].
  - intros d' l Hl. destruct (Hlive d' l Hl) as ((md & Hmd & Hu & Hlc & Hat) & Hin & Hsm). exists md. split_and!; try done; [congruence|].
    apply (write_apart p ({[d]} ∪ ({[m_pData b]} ∪ blocks live)) d' d); try done; [set_solver|set_solver|set_solver|lia].
Qed.

Lemma same_intact p d l : (forall d', d' ∈ {[m_pData b]} ∪ blocks live -> heap p !! d' = heap (pool b) !! d') ->
  (d, l) ∈ live -> intact p (mem b) d l.
Proof.
  intros Hs Hl. destruct (bo_live _ _ _ _ _ _ Hb d l Hl) as (md & Hmd & ?). exists md. rewrite Hs; [done|]. apply in_blocks in Hl. set_solver.
Qed.

(** The block stays with the bytes [a], and the rest goes to another one. *)
Lemma hand_on_ok n : m_sUsedSize m = zlen a -> 0 <= n < 2 ^ 31 -> zlen w <= n -> alloc_size n <= C ->
  exists b' m', ResetMemPool b n false = Ret b' /\ buf_ok C b' (live ++ [(m_pData b, a)]) m' [] w /\ m_sCapacity m' = alloc_size n.
Proof.
  intros Hu Hn Hw HC. destruct (GetData_ok (pool b) _ n (bo_pool _ _ _ _ _ _ Hb) Hn) as (p & d & m' & E & Hp & Hd & Hm' & _ & Hc & Hsame).
  unfold ResetMemPool. rewrite E. cbn [go_bind]. pose proof (bo_nodup _ _ _ _ _ _ Hb) as Hnd.
  destruct (reset_ok p d m' p (live ++ [(m_pData b, a)]) false n) as (b' & -> & Hb'); try done.
  - rewrite blocks_app. done.
  - rewrite fmap_app. cbn. rewrite <- Permutation_cons_append. constructor; [|done]. rewrite elem_of_cons. intros [->|Hin]; [set_solver|].
    apply Hd. unfold blocks. set_solver.
  - intros d' l [Hl|Hl%list_elem_of_singleton]%elem_of_app.
    + split_and!; [by apply same_intact| |done]. apply in_blocks in Hl. set_solver.
    + injection Hl as -> ->. split_and!; [|set_solver|done]. exists m. rewrite Hsame by set_solver. pose proof (zlen_nonneg w).
      pose proof (bo_room _ _ _ _ _ _ Hb). split_and!; [apply Hb|done|lia|]. by apply at_mem_app with (l2 := w), (bo_mem _ _ _ _ _ _ Hb).
  - by exists b', m'.
Qed.

(** The bytes go to another block, and this one is released. *)
Lemma replace_ok n : a = [] -> 0 <= n < 2 ^ 31 -> zlen w <= n -> alloc_size n <= C ->
  exists p d b' m', GetData (pool b) n = Ret (p, d) /\ reset_to (with_pool b p) d true = Ret b' /\ buf_ok C b' live m' [] w /\
    m_sCapacity m' = alloc_size n.
Proof.
  intros Ha Hn Hw HC. destruct (GetData_ok (pool b) _ n (bo_pool _ _ _ _ _ _ Hb) Hn) as (p & d & m' & E & Hp & Hd & Hm' & _ & Hc & Hsame).
  pose proof (bo_nodup _ _ _ _ _ _ Hb) as Hnd. apply NoDup_cons in Hnd as [Hmine Hnd].
  assert (m_pData b ∉ {[d]} ∪ blocks live) as Hout by (unfold blocks in *; set_solver).
  destruct (Release_ok p ({[d]} ∪ blocks live) (m_pData b)) as (p' & Er & Hp' & Hsame'); [|done|].
  { replace ({[m_pData b]} ∪ ({[d]} ∪ blocks live)) with ({[d]} ∪ ({[m_pData b]} ∪ blocks live)) by set_solver. done. }
  destruct (reset_ok p d m' p' live true n) as (b' & Eb & Hb'); try done.
  - unfold data_Release. rewrite Hsame, (bo_block _ _ _ _ _ _ Hb) by set_solver.
    destruct (ok_heap _ _ (bo_pool _ _ _ _ _ _ Hb) _ _ (bo_block _ _ _ _ _ _ Hb)) as (_ & -> & _). done.
  - constructor; [|done]. intros Hin. apply Hd. unfold blocks. set_solver.
  - rewrite Hsame' by set_solver. done.
  - intros d' l Hl. pose proof (in_blocks _ _ _ Hl). split_and!; [by apply same_intact|set_solver|]. apply Hsame'. set_solver.
  - by exists p, d, b', m'.
Qed.
End switch.

Lemma buf_Read_ok C b live m x y : buf_ok C b live m [] (x ++ y) -> buf_ok C (buf_Read b (zlen x)) live m x y.
Proof.
  intros Hb. pose proof (bo_start _ _ _ _ _ _ Hb) as Hs. pose proof (bo_end _ _ _ _ _ _ Hb) as He. pose proof (bo_room _ _ _ _ _ _ Hb) as Hr.
  rewrite zlen_nil in *. rewrite zlen_app in He, Hr. split; cbn; try apply Hb; lia.
Qed.

Lemma set_used_ok C b live m a w n : buf_ok C b live m a w ->
  exists p m', set_used (pool b) (m_pData b) n = Ret p /\ buf_ok C (with_pool b p) live m' a w /\
    m_uszData m' = m_uszData m /\ m_sCapacity m' = m_sCapacity m /\ m_sUsedSize m' = n.
Proof.
  intros Hb. unfold set_used. rewrite (bo_block _ _ _ _ _ _ Hb). eexists _, (mkData (m_cStaticFlag m) (m_uszData m) (m_uszEnd m) (m_uiIndex m) (m_sCapacity m) n).
  split; [reflexivity|]. split; [|done]. pose proof (bo_nodup _ _ _ _ _ _ Hb) as Hnd. apply NoDup_cons in Hnd as [Hmine _].
  split; cbn; try apply Hb.
  - apply (heap_ok _ _ _ m); try done; [apply (bo_pool _ _ _ _ _ _ Hb)|apply (bo_block _ _ _ _ _ _ Hb)].
  - by rewrite lookup_insert_eq.
  - intros d l Hl. destruct (bo_live _ _ _ _ _ _ Hb d l Hl) as (md & Hmd & ?). exists md. split; [|done]. cbn. rewrite lookup_insert_ne; [done|].
    intros <-. apply Hmine, list_elem_of_fmap. by exists (m_pData b, l).
Qed.

(** ** Messages

    The bytes [a ++ w] are in the buffer, the parser has read [a] and expects
    [r]. *)
Record rd_ok (C : Z) (r : reader) (live : list (nat * list Z)) (m : MemPoolData) (a w rest : list Z) : Prop := {
  ro_buf : buf_ok C (m_ReadCache r) live m [] (a ++ w);
  ro_start : szStart (m_ReadMsg r) = m_uszData m;
  ro_end : szEnd (m_ReadMsg r) = m_uszData m + zlen (a ++ w);
  ro_msg : expects (m_ReadMsg r) (m_uszData m + zlen a) rest
}.

(** A message has been found: it goes on in its block, and the next one is
    expected in a new block. *)
Lemma message_ok C r live m v w s v' : C < 2 ^ 31 -> valid v' ->
  buf_ok C (m_ReadCache r) live m [] (wire v ++ w) -> szStart s = m_uszData m -> szEnd s = m_uszData m + zlen (wire v ++ w) ->
  iLen (m_Info s) = zlen (wire v) ->
  exists p r' m' m1, set_used (pool (m_ReadCache r)) (m_pData (m_ReadCache r)) (iLen (m_Info s)) = Ret p /\
    data_of (with_pool (m_ReadCache r) p) = Ret m1 /\ read_mem (mem (m_ReadCache r)) (m_uszData m1) (m_sUsedSize m1) = wire v /\
    (forall g, rd_StartNext {| m_ReadCache := with_pool (m_ReadCache r) p; m_ReadMsg := s; got := g |} false =
       Ret {| m_ReadCache := m_ReadCache r'; m_ReadMsg := m_ReadMsg r'; got := g |}) /\
    rd_ok C r' (live ++ [(m_pData (m_ReadCache r), wire v)]) m' [] w (wire v') /\ m_sCapacity m' = m_sCapacity m.
Proof.
  intros HC Hv Hb Hs He Hl. destruct (set_used_ok _ _ _ _ _ _ (iLen (m_Info s)) Hb) as (p & m1 & -> & Hb1 & Hd1 & Hc1 & Hu1).
  pose proof (buf_Read_ok _ _ _ _ _ _ Hb1) as Hb2. pose proof (bo_cap _ _ _ _ _ _ Hb2) as Hcap. pose proof (bo_room _ _ _ _ _ _ Hb2) as Hroom.
  pose proof (zlen_nonneg (wire v)). pose proof (zlen_nonneg w).
  destruct (hand_on_ok _ _ _ _ _ _ Hb2 (m_sCapacity m1)) as (b' & m' & Eb & Hb' & Hc'); [congruence|lia|lia|rewrite (bo_size _ _ _ _ _ _ Hb2); lia|].
  exists p, {| m_ReadCache := b'; m_ReadMsg := Reset (StartNext s) (m_uszData m'); got := [] |}, m', m1.
  assert (data_of (with_pool (m_ReadCache r) p) = Ret m1) as Hdata by (unfold data_of; by rewrite (bo_block _ _ _ _ _ _ Hb1)).
  split_and!; try done.
  - rewrite Hu1, Hl. apply (read_mem_at _ _ _ w). apply (bo_mem _ _ _ _ _ _ Hb1).
  - intros g. unfold rd_StartNext. cbn [m_ReadCache m_ReadMsg got]. rewrite Hl.
    change (data_of (buf_Read (with_pool (m_ReadCache r) p) (zlen (wire v)))) with (data_of (with_pool (m_ReadCache r) p)).
    rewrite Hdata. cbn [go_bind]. rewrite Eb. cbn [go_bind]. unfold follow, data_of. rewrite (bo_block _ _ _ _ _ _ Hb'). done.
  - pose proof (Reset_fields (StartNext s) (m_uszData m')) as (R1 & R2 & R3 & R4 & R5).
    split; cbn [m_ReadCache m_ReadMsg app]; [done|done| |].
    + rewrite R2. cbn. rewrite He, Hs, Hl, zlen_app. lia.
    + replace (m_uszData m' + zlen []) with (m_uszData m + zlen (wire v) + (m_uszData m' - (m_uszData m + zlen (wire v)))) by (rewrite zlen_nil; lia).
      unfold Reset. cbn [szStart StartNext set_reading set_info set_now set_start]. rewrite Hs, Hl.
      apply (proj1 (expects_move _)). rewrite <- Hs, <- Hl. apply (ex_head (StartNext s)); try done; [split; cbn; lia|]. by exists v'.
  - rewrite Hc', (bo_size _ _ _ _ _ _ Hb2). done.
Qed.

(** ** The loop over the messages *)

Section stream.
Context (M C : Z).
Hypothesis HM : 0 <= M < 2 ^ 26.
Hypothesis HC : C = 16 * M + 4096.

Definition good (v : rval) : Prop := valid v /\ zlen (wire v) <= M.

(** [process] hands on the messages [new] that are complete, and the message
    [v'] is not complete. *)
Lemma process_ok fuel : forall r live m a w v rest vs t,
  rd_ok C r live m a w rest -> wire v = a ++ rest -> Forall good (v :: vs) -> rest ++ wires vs = w ++ t -> t <> [] ->
  zlen (a ++ w) < Z.of_nat fuel ->
  exists r' new vs1 v' vs2 m' a' rest', process fuel r = Ret r' /\ got r' = got r ++ new /\ new.*2 = wire <$> vs1 /\
    v :: vs = vs1 ++ v' :: vs2 /\ rd_ok C r' (live ++ new) m' a' [] rest' /\ wire v' = a' ++ rest' /\ t = rest' ++ wires vs2 /\
    m_sCapacity m' = m_sCapacity m /\ (zlen a' < m_sCapacity m \/ zlen a' = zlen (a ++ w)).
Proof.
  induction fuel as [|fuel IH]; intros r live m a w v rest vs t Hr Hv Hg Ht Hne Hf; [pose proof (zlen_nonneg (a ++ w)); lia|].
  pose proof (Forall_inv Hg) as [Hv1 Hv2]. cbn [process]. cbn zeta. pose proof (ro_buf _ _ _ _ _ _ _ Hr) as Hb.
  assert (compat w rest) as Hc.
  { destruct (compat_split w rest (wires vs)) as [(x & ->)|(x & -> & _)]; [exists t; by left|exists x; by left|exists x; by right]. }
  pose proof (ro_start _ _ _ _ _ _ _ Hr) as Hs. pose proof (ro_end _ _ _ _ _ _ _ Hr) as He. rewrite zlen_app in He.
  destruct (ParseRsp_ok (mem (m_ReadCache r)) (m_ReadMsg r) (m_uszData m + zlen a) w rest) as (s & -> & Hp); try done.
  { apply Hr. }
  { by apply at_mem_app, (bo_mem _ _ _ _ _ _ Hb). }
  { lia. }
  { rewrite Hv, zlen_app in Hv2. lia. }
  cbn [go_bind]. rewrite bool_decide_eq_false_2 by (intros H; by apply H).
  destruct Hp as (Hps & Hpe & [(w' & Hw' & -> & Hex & _)|(w' & -> & Hst & Hnow & Hpl)]).
  - pose proof (proj1 expects_facts _ _ _ Hex) as (_ & _ & Hn & _). rewrite bool_decide_eq_true_2 by done.
    eexists _, [], [], v, vs, m, (a ++ w), w'. split; [reflexivity|]. rewrite <- (app_assoc w) in Ht. apply app_inv_head in Ht.
    rewrite !app_nil_r. split_and!; try done; [|by rewrite <- app_assoc|by right].
    split; cbn [m_ReadCache m_ReadMsg]; rewrite ?app_nil_r; [done|congruence|rewrite zlen_app; lia|]. rewrite zlen_app, Z.add_assoc. done.
  - rewrite bool_decide_eq_false_2 by (intros H; by apply H). rewrite <- app_assoc in Ht. apply app_inv_head in Ht.
    destruct vs as [|v' vs]; [cbn in Ht; symmetry in Ht; by apply app_nil in Ht as [_ ->]|]. pose proof (Forall_inv (Forall_inv_tail Hg)) as [Hv1' _].
    rewrite app_assoc, <- Hv in Hb. rewrite zlen_app in He. destruct Hpl as [Hpl _].
    assert (zlen (wire v) = zlen a + zlen rest) as Hzv by (by rewrite Hv, zlen_app).
    destruct (message_ok C r live m v w' s v') as (p & r1 & m1 & mu & -> & Hd & Hrd & Hnext & Hr1 & Hc1); try done; try congruence; [lia|rewrite zlen_app; lia|lia|].
    cbn [go_bind]. rewrite Hd. cbn [go_bind mem with_pool m_pData]. rewrite Hrd, Hnext. cbn [go_bind].
    set (r2 := mkReader _ _ _). assert (rd_ok C r2 (live ++ [(m_pData (m_ReadCache r), wire v)]) m1 [] w' (wire v')) as Hr2 by (destruct Hr1; by split).
    pose proof (wire_pos v). pose proof (bo_room _ _ _ _ _ _ Hb) as Hroom. rewrite zlen_nil, zlen_app in Hroom. rewrite !zlen_app in Hf.
    destruct (IH r2 _ m1 [] w' v' (wire v') vs t Hr2) as (r' & new & vs1 & v2 & vs2 & m' & a' & rest' & -> & Hgot & Hnew & Hvs & Hr' & Hw2 & Ht' & Hcap & Hroom'); try done;
      [by apply Forall_inv_tail in Hg|cbn; lia|].
    exists r', ((m_pData (m_ReadCache r), wire v) :: new), (v :: vs1), v2, vs2, m', a', rest'. split_and!; try done.
    + rewrite Hgot. cbn. by rewrite <- app_assoc.
    + cbn. by rewrite Hnew.
    + cbn. by rewrite Hvs.
    + by rewrite <- app_assoc in Hr'.
    + congruence.
    + left. rewrite Hc1 in Hroom'. cbn [app] in Hroom'. lia.
Qed.

(** The parser follows the buffer to the block [m']. *)
Lemma follow_ok r live m a rest b' m' : rd_ok C r live m a [] rest -> buf_ok C b' live m' [] a ->
  exists s', follow b' (m_ReadMsg r) = Ret s' /\ rd_ok C (mkReader b' s' (got r)) live m' a [] rest.
Proof.
  intros Hr Hb'. unfold follow, data_of. rewrite (bo_block _ _ _ _ _ _ Hb'). cbn [go_bind]. eexists. split; [reflexivity|].
  pose proof (Reset_fields (m_ReadMsg r) (m_uszData m')) as (R1 & R2 & _). pose proof (ro_start _ _ _ _ _ _ _ Hr) as Hs.
  pose proof (ro_end _ _ _ _ _ _ _ Hr) as He. rewrite app_nil_r in He.
  split; cbn [m_ReadCache m_ReadMsg]; rewrite ?app_nil_r; [done|done|rewrite R2; lia|].
  unfold Reset. replace (m_uszData m' + zlen a) with (m_uszData m + zlen a + (m_uszData m' - szStart (m_ReadMsg r))) by lia.
  apply (proj1 (expects_move _)), Hr.
Qed.

Lemma ResetBuffer_ok b live m w : buf_ok C b live m [] w -> exists b', ResetBuffer b = Ret b' /\ buf_ok C b' live m [] w.
Proof.
  intros Hb. unfold ResetBuffer, data_of. rewrite (bo_block _ _ _ _ _ _ Hb). cbn [go_bind]. cbn zeta. eexists. split; [reflexivity|].
  pose proof (bo_start _ _ _ _ _ _ Hb) as Hs. pose proof (bo_end _ _ _ _ _ _ Hb) as He. pose proof (bo_mem _ _ _ _ _ _ Hb) as Hm. cbn [app] in Hm.
  rewrite zlen_nil, ?Z.add_0_r in *. rewrite Hs, He. replace (m_uszData m + zlen w - m_uszData m) with (zlen w) by lia.
  rewrite (read_mem_at _ _ w []) by (by rewrite app_nil_r). split; cbn; rewrite ?zlen_nil, ?Z.add_0_r; try apply Hb; try done.
  - apply at_mem_write.
  - intros d l Hl. apply (live_write _ _ _ _ _ _ _ _ _ _ Hb); [done|lia|]. pose proof (bo_room _ _ _ _ _ _ Hb). rewrite zlen_nil in *. lia.
Qed.

(** [buf_Expand] to a block that is large enough. *)
Lemma Expand_ok b live m w n : buf_ok C b live m [] w -> 0 <= n -> 2 * Z.max n (4 * m_sCapacity m) <= C ->
  exists b' m', buf_Expand b n = Ret b' /\ buf_ok C b' live m' [] w /\ 4 * m_sCapacity m <= m_sCapacity m'.
Proof.
  intros Hb Hn Hle. unfold buf_Expand, data_of. rewrite (bo_block _ _ _ _ _ _ Hb). cbn [go_bind]. rewrite Z.shiftl_mul_pow2 by lia.
  pose proof (bo_cap _ _ _ _ _ _ Hb) as Hcap. pose proof (bo_room _ _ _ _ _ _ Hb) as Hroom. rewrite zlen_nil in Hroom.
  replace (m_sCapacity m * 2 ^ 2) with (4 * m_sCapacity m) by lia. set (k := Z.max n (4 * m_sCapacity m)) in *.
  rewrite swrap_small, wrap_small by lia. pose proof (alloc_size_le k) as Hk.
  destruct (replace_ok C b live m [] w Hb k) as (p & d & b' & m' & -> & E & Hb' & Hc); [done|lia|lia|lia|].
  cbn [go_bind]. exists b', m'. split_and!; [done|done|lia].
Qed.

(** After a read that has filled the buffer there is room again. *)
Lemma make_room_ok r live m a rest v : rd_ok C r live m a [] rest -> wire v = a ++ rest -> good v -> rest <> [] ->
  exists r' m', make_room r = Ret r' /\ rd_ok C r' live m' a [] rest /\ got r' = got r /\ zlen a < m_sCapacity m'.
Proof.
  intros Hr Hv [_ Hl] Hne. pose proof (ro_buf _ _ _ _ _ _ _ Hr) as Hb. rewrite app_nil_r in Hb.
  pose proof (proj1 expects_facts _ _ _ (ro_msg _ _ _ _ _ _ _ Hr)) as (_ & _ & _ & _ & _ & Hfit). unfold fits in Hfit.
  rewrite (ro_start _ _ _ _ _ _ _ Hr) in Hfit. rewrite Hv, zlen_app in Hl. pose proof (zlen_pos rest Hne).
  pose proof (bo_cap _ _ _ _ _ _ Hb) as Hcap. pose proof (bo_room _ _ _ _ _ _ Hb) as Hroom. rewrite zlen_nil in Hroom.
  unfold make_room, LeftCapcity, data_of. cbn zeta. rewrite (bo_block _ _ _ _ _ _ Hb). cbn [go_bind]. rewrite int_ok by lia. cbn [go_bind].
  rewrite (bo_start _ _ _ _ _ _ Hb), (bo_end _ _ _ _ _ _ Hb), zlen_nil, Z.shiftr_div_pow2 by lia. change (2 ^ 1) with 2.
  assert (step : exists b' m', (if m_sCapacity m <? iMaxLen (m_Info (m_ReadMsg r)) + 256 then buf_Expand (m_ReadCache r) (iMaxLen (m_Info (m_ReadMsg r)) + 256)
      else if m_sCapacity m - (m_uszData m + 0 + zlen a - (m_uszData m + 0)) <? m_sCapacity m / 2 then buf_Expand (m_ReadCache r) 0
      else ResetBuffer (m_ReadCache r)) = Ret b' /\ buf_ok C b' live m' [] a /\ zlen a < m_sCapacity m').
  { pose proof (zlen_nonneg a). pose proof (Z.div_mod (m_sCapacity m) 2 ltac:(lia)). pose proof (Z.mod_pos_bound (m_sCapacity m) 2 ltac:(lia)). destruct (Z.ltb_spec (m_sCapacity m) (iMaxLen (m_Info (m_ReadMsg r)) + 256)).
    - destruct (Expand_ok _ _ _ _ (iMaxLen (m_Info (m_ReadMsg r)) + 256) Hb) as (b' & m' & -> & Hb' & Hc); [lia|lia|]. exists b', m'. split_and!; [done|done|lia].
    - destruct (Z.ltb_spec (m_sCapacity m - (m_uszData m + 0 + zlen a - (m_uszData m + 0))) (m_sCapacity m / 2)).
      + destruct (Expand_ok _ _ _ _ 0 Hb) as (b' & m' & -> & Hb' & Hc); [lia|lia|]. exists b', m'. split_and!; [done|done|lia].
      + destruct (ResetBuffer_ok _ _ _ _ Hb) as (b' & -> & Hb'). exists b', m. split_and!; [done|done|lia]. }
  destruct step as (b' & m' & -> & Hb' & Hroom'). cbn [go_bind]. destruct (follow_ok _ _ _ _ _ _ _ Hr Hb') as (s' & -> & Hr'). cbn [go_bind].
  by exists (mkReader b' s' (got r)), m'.
Qed.

(** A round of [Read] with [l] new bytes. *)
Lemma read_round_ok r live m a v rest vs l t :
  rd_ok C r live m a [] rest -> wire v = a ++ rest -> Forall good (v :: vs) -> rest ++ wires vs = l ++ t -> t <> [] -> l <> [] ->
  zlen a + zlen l <= m_sCapacity m ->
  exists r' new vs1 v' vs2 m' a' rest', read_round r l = Ret r' /\ got r' = got r ++ new /\ new.*2 = wire <$> vs1 /\
    v :: vs = vs1 ++ v' :: vs2 /\ rd_ok C r' (live ++ new) m' a' [] rest' /\ wire v' = a' ++ rest' /\ t = rest' ++ wires vs2 /\
    zlen a' < m_sCapacity m'.
Proof.
  intros Hr Hv Hg Ht Hne Hl Hroom. pose proof (ro_buf _ _ _ _ _ _ _ Hr) as Hb. rewrite app_nil_r in Hb. pose proof (zlen_pos l Hl).
  pose proof (bo_start _ _ _ _ _ _ Hb) as Hs. pose proof (bo_end _ _ _ _ _ _ Hb) as He. rewrite zlen_nil, ?Z.add_0_r in *.
  destruct (used_block _ _ (m_pData (m_ReadCache r)) (bo_pool _ _ _ _ _ _ Hb)) as (m1 & Hm1 & _ & Hbl); [set_solver|].
  rewrite (bo_block _ _ _ _ _ _ Hb) in Hm1. injection Hm1 as <-. destruct Hbl as (_ & _ & Hend & _).
  unfold read_round, LeftCapcityToEnd, data_of. cbn zeta. rewrite (bo_block _ _ _ _ _ _ Hb). cbn [go_bind m_ReadCache buf_Write m_szMsgStart m_szMsgEnd].
  rewrite Hs, He, Hend. replace (m_uszData m + zlen a + zlen l - m_uszData m) with (zlen (a ++ l)) by (rewrite zlen_app; lia).
  set (r1 := mkReader _ _ _). assert (rd_ok C r1 live m a l rest) as Hr1.
  { pose proof (Expand_fields (m_ReadMsg r) (zlen l)) as (E1 & E2 & _). pose proof (ro_end _ _ _ _ _ _ _ Hr) as Hre. rewrite app_nil_r in Hre.
    split; cbn [m_ReadCache m_ReadMsg r1]; [|rewrite E1; apply Hr|rewrite E2, zlen_app; lia|apply (proj1 (expects_Expand _)), Hr].
    split; cbn -[zlen]; rewrite ?zlen_nil, ?Z.add_0_r, ?zlen_app; try apply Hb; try lia.
    - apply at_mem_append, (bo_mem _ _ _ _ _ _ Hb).
    - intros d x Hx. apply (live_write _ _ _ _ _ _ _ _ _ _ Hb); [done| |]; pose proof (zlen_nonneg a); lia. }
  destruct (process_ok (S (Z.to_nat (zlen (a ++ l)))) r1 live m a l v rest vs t) as (r' & new & vs1 & v' & vs2 & m' & a' & rest' & -> & Hgot & Hnew & Hvs & Hr' & Hw' & Ht' & Hcap & Hlt);
    try done; [pose proof (zlen_nonneg (a ++ l)); lia|].
  cbn [go_bind]. destruct (Z.ltb_spec (zlen l) (m_uszData m + m_sCapacity m - (m_uszData m + zlen a))) as [Hfull|Hfull].
  - exists r', new, vs1, v', vs2, m', a', rest'. split_and!; try done. rewrite zlen_app in Hlt. lia.
  - pose proof (ro_msg _ _ _ _ _ _ _ Hr') as Hex. apply (proj1 expects_facts) in Hex as (_ & Hrne & _).
    assert (good v') as Hg' by (rewrite Hvs in Hg; by apply Forall_app in Hg as [_ Hg]; apply Forall_inv in Hg).
    destruct (make_room_ok _ _ _ _ _ _ Hr' Hw' Hg' Hrne) as (r2 & m2 & E & Hr2 & Hgot2 & Hlt2). exists r2, new, vs1, v', vs2, m2, a', rest'.
    split_and!; try done. by rewrite Hgot2.
Qed.

(** ** Runs

    The messages are handed on ([rr_read]: a round with the bytes [l], which fit
    in the buffer), and their users release the blocks, in any order
    ([rr_release]).  [bs] are the bytes that have been read.  At the start the
    pool is one made in zeroed memory, and the memory of its blocks is
    arbitrary. *)
Inductive rd_run : reader -> list Z -> list (nat * list Z) -> Prop :=
| rr_new r mem0 : new_reader (new_MemPool zeroed) mem0 = Ret r -> rd_run r [] []
| rr_read r bs live l n r' new : rd_run r bs live -> LeftCapcityToEnd (m_ReadCache r) = Ret n -> l <> [] -> zlen l <= n ->
    read_round r l = Ret r' -> got r' = got r ++ new -> rd_run r' (bs ++ l) (live ++ new)
| rr_release r bs l1 d x l2 p : rd_run r bs (l1 ++ (d, x) :: l2) -> data_Release (pool (m_ReadCache r)) d = Ret p ->
    rd_run (mkReader (with_pool (m_ReadCache r) p) (m_ReadMsg r) (got r)) bs (l1 ++ l2).

End stream.

(** The user of a message releases it. *)
Lemma release_ok C b l1 d x l2 m a w : buf_ok C b (l1 ++ (d, x) :: l2) m a w ->
  exists p, data_Release (pool b) d = Ret p /\ buf_ok C (with_pool b p) (l1 ++ l2) m a w.
Proof.
  intros Hb. pose proof (bo_nodup _ _ _ _ _ _ Hb) as Hnd. rewrite fmap_app in Hnd. cbn in Hnd.
  assert (NoDup (d :: m_pData b :: (l1 ++ l2).*1)) as Hnd' by (rewrite fmap_app; by rewrite <- Permutation_middle, Permutation_swap in Hnd).
  apply NoDup_cons in Hnd' as [Hd Hnd'].
  assert (blocks (l1 ++ (d, x) :: l2) = {[d]} ∪ blocks (l1 ++ l2)) as Hbl by (unfold blocks; rewrite !fmap_app; cbn; set_solver).
  pose proof (bo_pool _ _ _ _ _ _ Hb) as Hok. rewrite Hbl in Hok.
  replace ({[m_pData b]} ∪ ({[d]} ∪ blocks (l1 ++ l2))) with ({[d]} ∪ ({[m_pData b]} ∪ blocks (l1 ++ l2))) in Hok by set_solver.
  destruct (Release_ok _ _ _ Hok) as (p & Er & Hp & Hsame); [unfold blocks; set_solver|]. exists p. split.
  - unfold data_Release. destruct (ok_used _ _ Hok d) as (md & Hmd & _); [set_solver|]. rewrite Hmd.
    destruct (ok_heap _ _ Hok d md Hmd) as (_ & -> & _). done.
  - split; cbn; try apply Hb; try done.
    + rewrite Hsame by set_solver. apply Hb.
    + intros d' l Hl. destruct (bo_live _ _ _ _ _ _ Hb d' l) as (md & Hmd & ?); [set_solver|]. exists md. split; [|done].
      rewrite Hsame; [done|]. apply in_blocks in Hl. set_solver.
Qed.


(** The reader at the start. *)
Lemma new_reader_ok mem0 C v : 1024 <= C -> valid v ->
  exists r m, new_reader (new_MemPool zeroed) mem0 = Ret r /\ got r = [] /\ rd_ok C r [] m [] [] (wire v) /\ 0 < m_sCapacity m.
Proof.
  intros HC Hv. destruct (GetData_ok (new_MemPool zeroed) ∅ 1024 new_pool_ok ltac:(lia)) as (p & d & m & E & Hp & _ & Hm & Hpos & Hc & _).
  unfold new_reader, buf_Init, REDIS_MSG_INIT_BUFFER. rewrite E. cbn [go_bind]. rewrite Hm. cbn [go_bind]. eexists _, m. split; [reflexivity|].
  change (alloc_size 1024) with 1024 in Hc. split; [done|]. split; [|lia].
  split; cbn [m_ReadCache m_ReadMsg m_szMsgStart app]; [|done|cbn; rewrite zlen_nil; lia|].
  - split; cbn; rewrite ?zlen_nil, ?Hc; try done; try lia.
    + apply NoDup_singleton.
    + intros d' l Hl. by apply not_elem_of_nil in Hl.
  - replace (m_uszData m + zlen []) with (szNowPos (Init (m_uszData m))) by (cbn; rewrite zlen_nil; lia).
    apply ex_head; try done; [split; cbn; lia|]. by exists v.
Qed.

Section runs.
Context (vs : list rval).

Definition small (v : rval) : Prop := valid v /\ zlen (wire v) < 2 ^ 26.

Hypothesis Hvs : Forall small vs.

Definition run_ok (r : reader) (bs : list Z) (live : list (nat * list Z)) : Prop :=
  exists vs1 v vs2 m a rest, vs ++ [RNull] = vs1 ++ v :: vs2 /\ (got r).*2 = wire <$> vs1 /\ bs = wires vs1 ++ a /\ wire v = a ++ rest /\
    rd_ok (2 ^ 30 + 4080) r live m a [] rest /\ zlen a < m_sCapacity m /\ live ⊆ got r.

Lemma good_all : Forall (good (2 ^ 26 - 1)) (vs ++ [RNull]).
Proof.
  apply Forall_app. split; [|repeat constructor; done]. eapply Forall_impl; [exact Hvs|]. intros v [? ?]. split; [done|lia].
Qed.

(** A round from a state of a run. *)
Lemma run_read r bs live n l : run_ok r bs live -> LeftCapcityToEnd (m_ReadCache r) = Ret n -> l <> [] -> zlen l <= n ->
  bs ++ l `prefix_of` wires vs ->
  exists r' new, read_round r l = Ret r' /\ got r' = got r ++ new /\ run_ok r' (bs ++ l) (live ++ new).
Proof.
  intros (vs1 & v & vs2 & m & a & rest & E & Hg & -> & Hv & Hr & Hroom & Hsub) Hn Hl Hle [t Ht].
  pose proof (ro_buf _ _ _ _ _ _ _ Hr) as Hb. rewrite app_nil_r in Hb. pose proof (bo_end _ _ _ _ _ _ Hb) as He. rewrite zlen_nil in He.
  destruct (used_block _ _ (m_pData (m_ReadCache r)) (bo_pool _ _ _ _ _ _ Hb)) as (m1 & Hm1 & _ & Hbl); [set_solver|].
  rewrite (bo_block _ _ _ _ _ _ Hb) in Hm1. injection Hm1 as <-. destruct Hbl as (_ & _ & Hend & _).
  unfold LeftCapcityToEnd, data_of in Hn. rewrite (bo_block _ _ _ _ _ _ Hb) in Hn. injection Hn as <-.
  assert (rest ++ wires vs2 = l ++ t ++ wire RNull) as Hrest.
  { assert (wires (vs ++ [RNull]) = wires (vs1 ++ v :: vs2)) as Hw by (by rewrite E). unfold wires in Hw. rewrite !map_app, !concat_app in Hw.
    cbn [map concat] in Hw. fold (wires vs) (wires vs1) (wires vs2) in Hw. rewrite Ht, Hv, app_nil_r, <- !app_assoc in Hw.
    by apply app_inv_head, app_inv_head in Hw. }
  pose proof good_all as Hgood. rewrite E in Hgood. apply Forall_app in Hgood as [_ Hgood].
  destruct (read_round_ok (2 ^ 26 - 1) (2 ^ 30 + 4080) ltac:(lia) ltac:(lia) r live m a v rest vs2 l (t ++ wire RNull))
    as (r' & new & vs1' & v' & vs2' & m' & a' & rest' & -> & Hgot & Hnew & Hvs' & Hr' & Hv' & Ht' & Hlt); try done; [by intros [_ ?]%app_nil|lia|].
  exists r', new. split_and!; [done|done|]. exists (vs1 ++ vs1'), v', vs2', m', a', rest'. split_and!; try done.
  - by rewrite E, Hvs', app_assoc.
  - by rewrite Hgot, !fmap_app, Hg, Hnew.
  - unfold wires. rewrite map_app, concat_app. fold (wires vs1) (wires vs1'). rewrite <- !app_assoc. f_equal.
    assert (a ++ rest ++ wires vs2 = wires vs1' ++ a' ++ rest' ++ wires vs2') as Hall.
    { assert (wires (v :: vs2) = wires (vs1' ++ v' :: vs2')) as Hw by (by rewrite Hvs'). unfold wires in Hw. rewrite map_app, concat_app in Hw.
      cbn [map concat] in Hw. fold (wires vs2) (wires vs1') (wires vs2') in Hw. by rewrite Hv, Hv', <- !app_assoc in Hw. }
    rewrite Hrest, Ht' in Hall. rewrite !app_assoc in Hall. by apply app_inv_tail, app_inv_tail in Hall.
  - rewrite Hgot. set_solver.
Qed.

Lemma run_inv r bs live : rd_run r bs live -> bs `prefix_of` wires vs -> run_ok r bs live.
Proof.
  induction 1 as [r mem0 Hr|r bs live l n r' new _ IH Hn Hl Hle Hrd Hgot|r bs l1 d x l2 p _ IH Hp]; intros Hpre.
  - assert (exists v vs2, vs ++ [RNull] = v :: vs2 /\ valid v) as (v & vs2 & E & Hv).
    { pose proof good_all as Hg. destruct (vs ++ [RNull]) as [|v vs2] eqn:E; [by apply app_nil in E as [_ ?]|]. exists v, vs2. split; [done|].
      apply Forall_inv in Hg. apply Hg. }
    destruct (new_reader_ok mem0 (2 ^ 30 + 4080) v ltac:(lia) Hv) as (r0 & m & E0 & Hg & Hr0 & Hc). rewrite Hr in E0. injection E0 as <-.
    exists [], v, vs2, m, [], (wire v). split_and!; try done; [by rewrite Hg|]. rewrite Hg. set_solver.
  - destruct (run_read r bs live n l) as (r1 & new1 & E1 & Hg1 & Hr1); try done; [apply IH; etrans; [|exact Hpre]; by exists l|].
    rewrite Hrd in E1. injection E1 as <-. rewrite Hgot in Hg1. apply app_inv_head in Hg1. by subst new1.
  - destruct IH as (vs1 & v & vs2 & m & a & rest & E & Hg & Hbs & Hv & Hr & Hroom & Hsub); [done|].
    destruct (release_ok (2 ^ 30 + 4080) _ _ _ _ _ _ _ _ (ro_buf _ _ _ _ _ _ _ Hr)) as (p' & Ep & Hb'). rewrite Hp in Ep. injection Ep as <-.
    exists vs1, v, vs2, m, a, rest. split_and!; try done; [destruct Hr; by split|set_solver].
Qed.
End runs.

Lemma prefix_before_last {A} (l l1 l2 : list A) x y : l ++ [x] = l1 ++ y :: l2 -> l1 `prefix_of` l.
Proof.
  intros E. destruct l2 as [|z l2 _] using rev_ind.
  - apply app_inj_tail in E as [-> _]. done.
  - rewrite app_comm_cons, app_assoc in E. apply app_inj_tail in E as [-> _]. by exists (y :: l2).
Qed.

(** C2: For replies of less than 64 MB, read in any pieces that fit in the buffer,
    with the blocks of earlier replies released in any order, each at most once,
    and a pool made in zeroed memory: the messages
    handed on are exactly the replies that are complete, in order and unchanged;
    the blocks that are not released are distinct and hold their messages; there
    is room for at least one more byte, every further piece of the stream is read
    and every block handed on can be released without an abort. *)
Theorem replies_handed_on vs r bs live : Forall small vs -> rd_run r bs live -> bs `prefix_of` wires vs ->
  (exists vs1 a, vs1 `prefix_of` vs /\ (got r).*2 = wire <$> vs1 /\ bs = wires vs1 ++ a /\
     forall v, vs1 ++ [v] `prefix_of` vs -> ~ wire v `prefix_of` a) /\
  NoDup live.*1 /\ (forall d l, (d, l) ∈ live -> (d, l) ∈ got r /\ intact (pool (m_ReadCache r)) (mem (m_ReadCache r)) d l) /\
  (exists n, LeftCapcityToEnd (m_ReadCache r) = Ret n /\ 0 < n /\
     forall l, l <> [] -> zlen l <= n -> bs ++ l `prefix_of` wires vs -> exists r', read_round r l = Ret r') /\
  (forall d l, (d, l) ∈ live -> exists p, data_Release (pool (m_ReadCache r)) d = Ret p).
Proof.
  intros Hvs Hrun Hpre. pose proof (run_inv vs Hvs r bs live Hrun Hpre) as Hinv.
  pose proof Hinv as (vs1 & v & vs2 & m & a & rest & E & Hg & Hbs & Hv & Hr & Hroom & Hsub).
  pose proof (ro_buf _ _ _ _ _ _ _ Hr) as Hb. pose proof (proj1 expects_facts _ _ _ (ro_msg _ _ _ _ _ _ _ Hr)) as (_ & Hne & _).
  split_and!.
  - exists vs1, a. split_and!; try done; [by eapply prefix_before_last|].
    intros v' [vs3 E'] [t Ht]. rewrite E', <- !app_assoc in E. apply app_inv_head in E. injection E as -> _. rewrite Hv in Ht.
    apply (f_equal zlen) in Ht. rewrite !zlen_app in Ht. pose proof (zlen_pos rest Hne). pose proof (zlen_nonneg t). lia.
  - pose proof (bo_nodup _ _ _ _ _ _ Hb) as Hnd. by apply NoDup_cons in Hnd as [_ ?].
  - intros d l Hl. split; [by apply Hsub|by apply (bo_live _ _ _ _ _ _ Hb)].
  - destruct (used_block _ _ (m_pData (m_ReadCache r)) (bo_pool _ _ _ _ _ _ Hb)) as (m1 & Hm1 & _ & Hbl); [set_solver|].
    rewrite (bo_block _ _ _ _ _ _ Hb) in Hm1. injection Hm1 as <-. destruct Hbl as (_ & _ & Hend & _).
    exists (m_uszEnd m - m_szMsgEnd (m_ReadCache r)).
    assert (LeftCapcityToEnd (m_ReadCache r) = Ret (m_uszEnd m - m_szMsgEnd (m_ReadCache r))) as HL
      by (unfold LeftCapcityToEnd, data_of; by rewrite (bo_block _ _ _ _ _ _ Hb)).
    split_and!; [done| |].
    + rewrite (bo_end _ _ _ _ _ _ Hb), Hend, app_nil_r. change (zlen (@nil Z)) with 0. lia.
    + intros l Hl Hle Hp. destruct (run_read vs Hvs r bs live _ l Hinv HL Hl Hle Hp) as (r' & new & Er & _). by exists r'.
  - intros d l Hl. apply list_elem_of_split in Hl as (l1 & l2 & ->). destruct (release_ok _ _ _ _ _ _ _ _ _ Hb) as (p & Ep & _). by exists p.
Qed.

(** Runs that can be evaluated. *)
Definition after (r : reader) (l : list Z) : reader := match read_round r l with Ret r' => r' | Panic => r end.

Definition can_read (r : reader) (l : list Z) : bool :=
  match LeftCapcityToEnd (m_ReadCache r), read_round r l with
  | Ret n, Ret r' => (0 <? zlen l) && (zlen l <=? n) && bool_decide (take (length (got r)) (got r') = got r)
  | _, _ => false
  end.

Lemma after_run r bs live l : rd_run r bs live -> can_read r l = true ->
  rd_run (after r l) (bs ++ l) (live ++ drop (length (got r)) (got (after r l))).
Proof.
  intros Hr Hc. unfold can_read, after in *. destruct (LeftCapcityToEnd _) as [n|] eqn:En; [|done]. destruct (read_round r l) as [r'|] eqn:Er; [|done].
  apply andb_true_iff in Hc as [[H1 H2]%andb_true_iff H3]. apply Z.ltb_lt in H1. apply Z.leb_le in H2. apply bool_decide_eq_true in H3.
  eapply rr_read; try done; [by intros ->|]. rewrite <- (take_drop (length (got r)) (got r')) at 1. by rewrite H3.
Qed.

Definition reader0 : reader :=
  match new_reader (new_MemPool zeroed) (fun _ => 0) with
  | Ret r => r
  | Panic => mkReader (mkBuffer 0 0 0 (new_MemPool zeroed) (fun _ => 0)) (Init 0) []
  end.

Lemma reader0_run : rd_run reader0 [] [].
Proof. apply (rr_new _ (fun _ => 0)). vm_compute. reflexivity. Qed.

Definition piece1 : list Z := str "+OK" ++ crlf ++ str ":4".
Definition piece2 : list Z := str "2" ++ crlf ++ str "$1".

Definition reader1 : reader := after reader0 piece1.
Definition reader2 : reader := after reader1 piece2.
Definition live2 : list (nat * list Z) := ([] ++ drop (length (got reader0)) (got reader1)) ++ drop (length (got reader1)) (got reader2).

Lemma can_read1 : can_read reader0 piece1 = true.
Proof. vm_compute. reflexivity. Qed.
Lemma can_read2 : can_read reader1 piece2 = true.
Proof. vm_compute. reflexivity. Qed.

Lemma pieces_run : rd_run reader2 (([] ++ piece1) ++ piece2) live2.
Proof. apply after_run; [apply after_run; [exact reader0_run|exact can_read1]|exact can_read2]. Qed.

Lemma pieces_small : Forall small [RLine 43 (str "OK"); RLine 58 (str "42"); RBulk (str "x")].
Proof. repeat constructor; vm_compute; try done; try (by left); try (by right; right); set_solver. Qed.

Lemma live2_length : length live2 = 2%nat.
Proof. vm_compute. reflexivity. Qed.

Lemma replies_handed_on_witness : rd_run reader2 (([] ++ piece1) ++ piece2) live2 /\ length live2 = 2%nat /\ NoDup live2.*1.
Proof.
  split; [exact pieces_run|]. split; [exact live2_length|].
  refine (proj1 (proj2 (replies_handed_on [RLine 43 (str "OK"); RLine 58 (str "42"); RBulk (str "x")] _ _ _ pieces_small pieces_run _))).
  exists (crlf ++ str "x" ++ crlf). vm_compute. reflexivity.
Defined.
