(* ===== verification/Reqkey.v ===== *)
(** * The key of a request

    The proxy routes a request by its key, which [GR_RedisMsg] finds while it
    parses: the second argument, or the fourth one of EVAL and EVALSHA.  Here are
    requests as clients send them, arrays of bulk strings, in pieces; the buffer
    does not move in between. *)

From S2P Require Import Prelude Gostrings Resp Strconv Redismsg Redisstream.

Definition request (args : list (list Z)) : list Z := wire (RArr (RBulk <$> args)).

Definition head_of (n : Z) : list Z := 42 :: dec n ++ crlf.
Definition prefix_of_arg (x : list Z) : list Z := 36 :: dec (zlen x) ++ crlf.
Definition arg_line (x : list Z) : list Z := prefix_of_arg x ++ x ++ crlf.
Definition arg_lines (xs : list (list Z)) : list Z := concat (arg_line <$> xs).

(** The address of argument [i], when the first line is at [p]. *)
Definition arg_at (p : Z) (args : list (list Z)) (i : nat) : Z :=
  p + zlen (arg_lines (take i args)) + zlen (prefix_of_arg (default [] (args !! i))).

(** The number of the line of the key, counted from 1. *)
Definition same_word (cmd : list Z) (l : list Z) : bool :=
  (zlen cmd =? zlen l) && forallb (fun '(x, c) => (x =? c) || (x =? Z.lxor c 32)) (zip cmd l).
Definition key_line (cmd : list Z) : Z := if same_word cmd (str "eval") || same_word cmd (str "evalsha") then 4 else 2.

(** What the end of a line does to what has been found. *)
Definition next_found (cmd : list Z) (f : found) : found :=
  let n := f_line f + 1 in
  if negb (f_cmd f =? 0) && (f_key f =? 0) then
    let k := if f_in_line f =? 0 then key_line cmd else f_in_line f in
    mkFound (f_key f) (f_key_len f) (f_cmd f) (f_cmd_len f) ((k =? n + 1) || f_key_line f) n k
  else mkFound (f_key f) (f_key_len f) (f_cmd f) (f_cmd_len f) (f_key_line f) n (f_in_line f).

(** The lines [xs] from the address [p] on. *)
Fixpoint lines_found (cmd : list Z) (p : Z) (xs : list (list Z)) (f : found) : found :=
  match xs with
  | [] => f
  | x :: xs =>
      let b := p + zlen (prefix_of_arg x) in
      lines_found cmd (b + zlen x + 2) xs (next_found cmd (close (b + zlen x) (touch (f_key_line f) b (zlen x) f)))
  end.

Definition nothing_found : found := mkFound 0 0 0 0 false 0 0.

(** ** A line *)

Definition bulk_rest (x : list Z) (st : msg_state) (a : Z) (r : list Z) : Prop :=
  match st with
  | GR_READING_LINE => r = arg_line x
  | GR_USD_NUM => exists ds, Forall is_digit ds /\ 0 <= a /\ fold_left shift ds a = zlen x /\ r = ds ++ crlf ++ x ++ crlf
  | GR_USD_NUM_CRLF => a = zlen x /\ r = 10 :: x ++ crlf
  | GR_USD_STR => exists x1 x2, x = x1 ++ x2 /\ a = zlen x2 /\ r = x2 ++ crlf
  | GR_STR_CRLF => r = [10]
  | _ => False
  end.

Lemma bulk_line_rest x st a r : bulk_rest x st a r -> line_rest st a r.
Proof.
  destruct st; cbn -[wire arg_line]; try done.
  - intros ->. exists (RBulk x). split; [done|]. unfold arg_line, prefix_of_arg. cbn [wire]. by rewrite <- app_comm_cons, <- !app_assoc.
  - intros (ds & ?). left. by exists ds, x.
  - intros (-> & ->). by exists x.
  - intros (x1 & x2 & _ & -> & ->). by exists x2.
Qed.

(** What has been found in the line, [f] at its start. *)
Definition bulk_found (s : RedisMsg) (b : Z) (x : list Z) (f : found) : Prop :=
  let t := touch (f_key_line f) b (zlen x) f in
  match nowState (m_Info s) with
  | GR_USD_STR => found_of s = (if iArgLen (m_Info s) =? zlen x then f else t)
  | GR_STR_CRLF => found_of s = t
  | _ => found_of s = f
  end.

Record in_bulk (s : RedisMsg) (b : Z) (x : list Z) (f : found) (r : list Z) : Prop := {
  ib_reading : bReadingLine s = true;
  ib_placed : placed s;
  ib_len : 1 <= iLen (m_Info s);
  ib_rest : bulk_rest x (nowState (m_Info s)) (iArgLen (m_Info s)) r;
  ib_at : szNowPos s + zlen r = b + zlen x + 2;
  ib_found : bulk_found s b x f
}.

Lemma touch_again k b n f p q : 0 < b -> touch k p q (touch k b n f) = touch k b n f.
Proof.
  intros Hb. unfold touch. destruct k; destruct (Z.eqb_spec (f_key f) 0) as [Hk|Hk]; destruct (Z.eqb_spec (f_cmd f) 0) as [Hc|Hc]; cbn;
    repeat (case_match; cbn in *; try lia; try done); try (by rewrite !(proj2 (Z.eqb_neq _ 0)) by lia).
Qed.

(** A round that goes on. *)
Lemma bulk_more s s1 b x f l r1 : in_bulk s b x f (l ++ r1) -> 0 < b -> l <> [] -> advanced s s1 (zlen l) -> bReadingLine s1 = true ->
  line_rest (nowState (m_Info s1)) (iArgLen (m_Info s1)) r1 -> next_ok s s1 l ->
  (nowState (m_Info s) <> GR_READING_LINE \/ head l = Some 36 -> found_of s1 = found_step (f_key_line f) s l) -> in_bulk s1 b x f r1.
Proof.
  intros [Hrd [Hp1 Hp2] Hlen Hr Hat Hf] Hb Hl0 (A1 & A2 & A3 & A4 & A5 & A6) Hrd1 Hlr1 Hnext Hfo. rewrite zlen_app in Hat. pose proof (zlen_pos l Hl0).
  assert (bulk_rest x (nowState (m_Info s1)) (iArgLen (m_Info s1)) r1 /\ bulk_found s1 b x f) as [Hr1 Hf1].
  2: { split; try done; [split; lia|lia|lia]. }
  destruct l as [|d l]; [done|]. unfold next_ok, found_step, bulk_found, bulk_rest in *. destruct (nowState (m_Info s)) eqn:Hst; try done.
  - injection Hr as -> Hr. destruct (Hnext l eq_refl) as (-> & -> & ->). rewrite Hfo by (by right). split; [|done].
    exists (dec (zlen x)). destruct (dec_spec (zlen x) (zlen_nonneg x)) as (Hv & Hd & _). split_and!; try done. cbn [app] in Hr. by rewrite Hr, <- app_assoc.
  - destruct Hr as (ds & Hds & Ha & Hv & Hr). destruct Hnext as (d' & [= -> ->] & Hdig & Hcr). rewrite Hfo by (by left). destruct ds as [|d ds].
    + injection Hr as -> Hr. destruct (Hcr eq_refl) as [-> ->]. done.
    + injection Hr as -> Hr. apply Forall_cons in Hds as [Hd Hds]. destruct (Hdig Hd) as [-> ->]. split; [|done]. exists ds. split_and!; try done.
      unfold is_digit, shift in *. lia.
  - destruct Hr as (Ha & Hr). injection Hr as -> Hr. destruct Hnext as [Hs1 Ha1]. rewrite Hs1 in *. destruct Hlr1 as (x2 & Hx2 & ->).
    rewrite app_assoc in Hr. apply app_inv_tail in Hr. subst x. rewrite zlen_cons in *. split; [by exists l, x2|].
    rewrite Hfo, Hx2, zlen_app, Hf, Ha, zlen_app by (by left). pose proof (zlen_nonneg l).
    destruct (Z.eqb_spec (1 + zlen l) 1), (Z.eqb_spec (zlen x2) (zlen l + zlen x2)); try lia; try done. do 2 f_equal.
    rewrite !zlen_app in Hat. change (zlen crlf) with 2 in Hat. lia.
  - destruct Hr as (x1 & x2 & -> & Ha & Hr). destruct Hnext as (Hl1 & H0 & Hn0). rewrite zlen_cons in *.
    assert (l = []) as -> by (destruct l; [done|rewrite zlen_cons in *; pose proof (zlen_nonneg l); lia]).
    assert (touched : touch (f_key_line f) (szNowPos s) (iArgLen (m_Info s)) (found_of s) = touch (f_key_line f) b (zlen (x1 ++ x2)) f).
    { rewrite Hf. rewrite zlen_app in *. rewrite Ha. destruct (Z.eqb_spec (zlen x2) (zlen x1 + zlen x2)) as [He|He]; [|by apply touch_again].
      f_equal; [|lia]. apply (f_equal zlen) in Hr. cbn [app] in Hr. rewrite zlen_cons, zlen_app in Hr. change (zlen crlf) with 2 in Hr.
      change (zlen (@nil Z)) with 0 in *. lia. }
    rewrite Hfo by (by left). destruct x2 as [|y x2].
    + injection Hr as -> Hr. rewrite (H0 Ha). split; [done|]. exact touched.
    + injection Hr as -> Hr. rewrite zlen_cons in Ha. pose proof (zlen_nonneg x2). destruct Hn0 as [-> Ha1]; [lia|].
      split; [exists (x1 ++ [y]), x2; split_and!; [by rewrite <- app_assoc|lia|done]|]. rewrite touched, Ha1, Ha, zlen_app, zlen_cons.
      rewrite (proj2 (Z.eqb_neq _ _)); [done|]. pose proof (zlen_nonneg x1). lia.
  - injection Hr as _ Hr. apply app_nil in Hr as [_ ->]. by apply line_rest_ne in Hlr1.
Qed.

(** A round in a line. *)
Lemma bulk_round mem s b x f w r : in_bulk s b x f r -> 0 < b -> w <> [] -> compat w r -> at_mem mem (szNowPos s) w ->
  szEnd s = szNowPos s + zlen w -> iLen (m_Info s) + zlen r < 2 ^ 31 ->
  (exists s1, line_char mem (f_key_line f) s (szNowPos s) = Ret (LTrue s1) /\ r = [10] /\ advanced s s1 1 /\ bReadingLine s1 = false /\
     found_of s1 = close (b + zlen x) (touch (f_key_line f) b (zlen x) f)) \/
  (exists s1 l w1 r1, line_char mem (f_key_line f) s (szNowPos s) = Ret (LMore s1 (szNowPos s1)) /\ w = l ++ w1 /\ r = l ++ r1 /\
     l <> [] /\ advanced s s1 (zlen l) /\ in_bulk s1 b x f r1).
Proof.
  intros Hi Hb Hw Hc Hm He Hl. destruct w as [|c w]; [done|]. destruct Hi as [Hrd Hp Hlen Hr Hat Hf].
  pose proof (bulk_line_rest _ _ _ _ Hr) as Hlr.
  assert (nowState (m_Info s) = GR_READING_LINE -> c <> 42) as H42.
  { intros E. rewrite E in Hr. cbn in Hr. subst r. unfold arg_line, prefix_of_arg in Hc. cbn in Hc. apply compat_cons in Hc as [-> _]. done. }
  destruct (line_round mem (f_key_line f) s Hrd Hlen c w r Hlr H42 Hc Hm He Hl)
    as [(s1 & y & E & -> & Hadv & Hrd1 & _ & Hfo)|(s1 & l & w1 & r1 & E & Hw1 & -> & Hl0 & Hadv & Hrd1 & Hlr1 & _ & Hnext & Hfo)].
  - left. exists s1. change (zlen [y]) with 1 in Hat.
    assert (nowState (m_Info s) = GR_STR_CRLF /\ y = 10) as [Hst ->].
    { unfold bulk_rest, arg_line, prefix_of_arg in Hr. destruct (nowState (m_Info s)); try done.
      - apply (f_equal zlen) in Hr. change (zlen [y]) with 1 in Hr. cbn [app] in Hr. rewrite zlen_cons, !zlen_app in Hr. change (zlen crlf) with 2 in Hr.
        pose proof (zlen_nonneg (dec (zlen x))). pose proof (zlen_nonneg x). lia.
      - destruct Hr as (ds & _ & _ & _ & Hr). apply (f_equal zlen) in Hr. rewrite !zlen_app in Hr. change (zlen crlf) with 2 in Hr. change (zlen [y]) with 1 in Hr.
        pose proof (zlen_nonneg ds). pose proof (zlen_nonneg x). lia.
      - destruct Hr as (_ & Hr). injection Hr as _ Hr. symmetry in Hr. by apply app_nil in Hr as [_ ?].
      - destruct Hr as (x1 & x2 & _ & _ & Hr). apply (f_equal zlen) in Hr. rewrite zlen_app in Hr. change (zlen crlf) with 2 in Hr. change (zlen [y]) with 1 in Hr.
        pose proof (zlen_nonneg x2). lia.
      - by injection Hr as ->. }
    unfold bulk_found in Hf. rewrite Hst in Hf. split_and!; try done. rewrite Hfo, Hf. f_equal. lia.
  - right. exists s1, l, w1, r1. split_and!; try done.
    by apply (bulk_more s s1 b x f l r1).
Qed.

(** [ReadLine] in a line of a request. *)
Lemma read_bulk mem n : forall s b x f w r, in_bulk s b x f r -> 0 < b -> compat w r -> at_mem mem (szNowPos s) w ->
  szEnd s = szNowPos s + zlen w -> iLen (m_Info s) + zlen r < 2 ^ 31 -> zlen w <= Z.of_nat n ->
  exists s' d, read_loop n mem (f_key_line f) s (szNowPos s) = Ret (s', d, GR_OK) /\ szStart s' = szStart s /\ szEnd s' = szEnd s /\
    iNeedArgNum (m_Info s') = iNeedArgNum (m_Info s) /\
    (d = false /\ (exists r', r = w ++ r' /\ in_bulk s' b x f r' /\ szNowPos s' = szEnd s) \/
     d = true /\ bReadingLine s' = false /\ placed s' /\
       (exists w', w = r ++ w' /\ szNowPos s' = szNowPos s + zlen r) /\ found_of s' = close (b + zlen x) (touch (f_key_line f) b (zlen x) f)).
Proof.
  induction n as [|n IH]; intros s b x f w r Hi Hb Hc Hm He Hl Hf; destruct (decide (w = [])) as [->|Hw].
  1, 3: exists s, false; change (zlen (@nil Z)) with 0 in *; cbn [read_loop]; rewrite (proj2 (Z.ltb_ge _ _)) by lia; split_and!; try done; left;
    split; [done|]; exists r; split_and!; [done|done|lia].
  { pose proof (zlen_pos w Hw). lia. }
  pose proof (zlen_pos w Hw). cbn [read_loop]. rewrite (proj2 (Z.ltb_lt _ _)) by lia.
  assert (nowState (m_Info s) <> GR_IN_NEXT_LAYER) as Hst by (intros E; pose proof (ib_rest _ _ _ _ _ Hi) as Hr; by rewrite E in Hr).
  rewrite bool_decide_eq_false_2 by done.
  assert (bool_decide (nowState (m_Info s) = GR_READING_LINE) && (mem (szNowPos s) =? 42) = false) as ->.
  { destruct (bool_decide_reflect (nowState (m_Info s) = GR_READING_LINE)) as [E|]; [|done]. pose proof (ib_rest _ _ _ _ _ Hi) as Hr. rewrite E in Hr. cbn in Hr. subst r.
    destruct w as [|c w]; [done|]. apply compat_cons in Hc as [-> _]. apply at_mem_cons in Hm as [-> _]. done. }
  destruct (bulk_round mem s b x f w r) as [(s1 & -> & -> & Hadv & Hrd1 & Hfo)|(s1 & l & w1 & r1 & -> & -> & -> & Hl0 & Hadv & Hi1)]; try done;
    cbn [go_bind]; pose proof Hadv as (A1 & A2 & A3 & A4 & A5 & A6).
  - exists s1, true. destruct (ib_placed _ _ _ _ _ Hi) as [P1 P2]. split_and!; try done. right. split_and!; try done; [split; lia|].
    destruct Hc as (t & [Hc|Hc]).
    + destruct w as [|c w]; [done|]. injection Hc as <- Hc. symmetry in Hc. apply app_nil in Hc as [-> ->]. exists []. done.
    + exists t. done.
  - apply compat_app_l in Hc. apply at_mem_app in Hm as [_ Hm]. rewrite !zlen_app in *. pose proof (zlen_pos l Hl0).
    destruct (IH s1 b x f w1 r1) as (s' & d & -> & S1 & S2 & S3 & Hpost); try done; try lia; [by rewrite A3|].
    exists s', d. split_and!; try congruence. destruct Hpost as [(-> & r' & -> & Hi' & Hn)|(-> & Hrd & Hp & (w' & -> & Hn) & Hfo)]; [left|right].
    + split; [done|]. exists r'. rewrite app_assoc. split_and!; [done|done|congruence].
    + split_and!; try done. exists w'. rewrite app_assoc. split; [done|lia].
Qed.

Lemma touch_key_line k p n f : f_key_line (touch k p n f) = f_key_line f.
Proof. unfold touch. cbn. by destruct ((f_key f =? 0) && k); cbn; case_match. Qed.

Lemma bulk_key_line s b x f : bulk_found s b x f -> bKeyLine (m_Info s) = f_key_line f.
Proof.
  unfold bulk_found. cbn zeta. intros H. change (f_key_line (found_of s) = f_key_line f).
  destruct (nowState (m_Info s)); rewrite H; try done; [destruct (_ =? _); [done|]|]; apply touch_key_line.
Qed.

(** ** The number of arguments *)

Definition head_at (n : Z) (s : RedisMsg) (r : list Z) : Prop :=
  bReadingLine s = false /\ placed s /\ found_of s = nothing_found /\
  match nowState (m_Info s) with
  | GR_START => iLen (m_Info s) = 0 /\ r = head_of n
  | GR_NARG => exists ds, Forall is_digit ds /\ (0 < iNeedArgNum (m_Info s) \/ iNeedArgNum (m_Info s) = 0 /\ ds = dec n) /\
      fold_left shift ds (iNeedArgNum (m_Info s)) = n /\ r = ds ++ crlf
  | GR_NARG_CRLF => iNeedArgNum (m_Info s) = n /\ r = [10]
  | _ => False
  end.

Lemma head_char mem n s c r : 0 < n < 2 ^ 31 -> head_at n s (c :: r) -> mem (szNowPos s) = c -> iLen (m_Info s) + zlen (c :: r) < 2 ^ 31 ->
  exists s1, parse_char mem s (szNowPos s) = Ret (s1, None) /\ szStart s1 = szStart s /\ szEnd s1 = szEnd s /\
    szNowPos s1 = szNowPos s + 1 /\ iLen (m_Info s1) = iLen (m_Info s) + 1 /\
    (head_at n s1 r \/ r = [] /\ bReadingLine s1 = true /\ nowState (m_Info s1) = GR_READING_LINE /\ iNeedArgNum (m_Info s1) = n /\
       placed s1 /\ found_of s1 = nothing_found).
Proof.
  intros Hn (Hrd & [Hp1 Hp2] & Hf & Hr) Hc Hb. rewrite zlen_cons in Hb. pose proof (zlen_nonneg r).
  unfold parse_char. rewrite Hc, forward_ok by lia. cbn [go_bind]. cbn [m_Info adv set_now set_info nowState set_len iNeedArgNum].
  destruct (nowState (m_Info s)) eqn:Hst; try done.
  - destruct Hr as [H0 Hr]. injection Hr as -> ->. cbn [Z.eqb Pos.eqb orb]. eexists. split; [reflexivity|]. cbn. split_and!; try lia. left.
    split; [done|]. split; [split; cbn; lia|]. split; [done|]. cbn. destruct (dec_spec n ltac:(lia)) as (Hv & Hd & _).
    exists (dec n). split_and!; try done. by right.
  - destruct Hr as (ds & Hds & Hpos & Hv & Hr). destruct ds as [|d ds]; injection Hr as -> ->.
    + cbn [is_digit_char Z.leb Z.compare Pos.compare Pos.compare_cont andb Z.eqb Pos.eqb]. eexists. split; [reflexivity|]. cbn. split_and!; try lia. left.
      split; [done|]. split; [split; cbn; lia|]. split; [done|]. done.
    + apply Forall_cons in Hds as [Hd Hds]. unfold is_digit in Hd. unfold is_digit_char.
      rewrite (proj2 (Z.leb_le 48 d)), (proj2 (Z.leb_le d 57)) by lia. cbn [andb fold_left] in *. set (k := iNeedArgNum (m_Info s)) in *.
      assert (0 < shift k d) as Hk.
      { unfold shift. destruct Hpos as [|[H0 Hdec]]; [lia|]. destruct (dec_first n) as (d' & ds' & E & Hd'); [lia|]. rewrite E in Hdec. injection Hdec as -> _. lia. }
      pose proof (fold_grows ds (shift k d) Hds ltac:(lia)) as Hg. rewrite Hv in Hg. unfold shift in Hk, Hg. rewrite int_ok by lia. cbn [go_bind].
      rewrite (proj2 (Z.eqb_neq _ 0)) by lia. eexists. split; [reflexivity|]. cbn. split_and!; try lia. left.
      split; [done|]. split; [split; cbn; lia|]. split; [done|]. cbn. rewrite Hst. exists ds. split_and!; try done. left. lia.
  - destruct Hr as [Hk Hr]. injection Hr as -> ->. cbn [Z.eqb Pos.eqb]. rewrite Hk, (proj2 (Z.eqb_neq _ 0)) by lia.
    eexists. split; [reflexivity|]. cbn. split_and!; try lia. right. split_and!; try done. split; cbn; lia.
Qed.

(** ** The command *)

Lemma icmp_at mem l : forall p cmd, zlen cmd = zlen l -> at_mem mem p cmd ->
  icmp mem p l = forallb (fun '(x, c) => (x =? c) || (x =? Z.lxor c 32)) (zip cmd l).
Proof.
  induction l as [|c l IH]; intros p [|x cmd] Hl Hm; try done.
  cbn. apply at_mem_cons in Hm as [-> Hm]. rewrite (IH (p + 1) cmd); [done|rewrite !zlen_cons in Hl; lia|done].
Qed.

Lemma same_word_at mem i cmd l : at_mem mem (szCmd i) cmd -> iCmdLen i = zlen cmd -> (iCmdLen i =? zlen l) && icmp mem (szCmd i) l = same_word cmd l.
Proof.
  intros Hm ->. unfold same_word. destruct (Z.eqb_spec (zlen cmd) (zlen l)) as [Hl|]; [|done]. cbn. by apply icmp_at.
Qed.

Lemma KeyInLine_at mem i cmd : at_mem mem (szCmd i) cmd -> iCmdLen i = zlen cmd -> KeyInLine mem i = key_line cmd.
Proof.
  intros Hm Hl. unfold KeyInLine, key_line. change 4 with (zlen (str "eval")) at 1. change 7 with (zlen (str "evalsha")).
  rewrite !(same_word_at mem i cmd) by done. by destruct (same_word cmd (str "eval")), (same_word cmd (str "evalsha")).
Qed.

Lemma next_key_found mem s cmd : (iKeyInLines (m_Info s) = 0 -> KeyInLine mem (m_Info s) = key_line cmd) ->
  found_of (set_info s (next_key mem (m_Info s))) = next_found cmd (found_of s).
Proof.
  intros Hk. unfold next_key, next_found, found_of. cbn. destruct (negb (szCmd (m_Info s) =? 0) && (szKeyStart (m_Info s) =? 0)); [|done].
  cbn. destruct (Z.eqb_spec (iKeyInLines (m_Info s)) 0) as [E|]; [|done]. by rewrite Hk.
Qed.

Lemma touch_in_line k p n f : f_in_line (touch k p n f) = f_in_line f.
Proof. unfold touch. cbn. by destruct ((f_key f =? 0) && k); cbn; case_match. Qed.
Lemma close_in_line p f : f_in_line (close p f) = f_in_line f.
Proof. unfold close. by case_match. Qed.
Lemma next_in_line cmd f : f_in_line f <> 0 -> f_in_line (next_found cmd f) = f_in_line f.
Proof. intros H. unfold next_found. cbn. case_match; [|done]. cbn. by rewrite (proj2 (Z.eqb_neq _ 0)). Qed.

Lemma key_line_ne cmd : key_line cmd <> 0.
Proof. unfold key_line. by case_match. Qed.

(** From the second line on, the key's line is known. *)
Lemma lines_in_line cmd xs : forall p f, f_in_line f = key_line cmd -> f_in_line (lines_found cmd p xs f) = key_line cmd.
Proof.
  induction xs as [|x xs IH]; intros p f Hf; [done|]. cbn. apply IH. rewrite next_in_line; rewrite close_in_line, touch_in_line, Hf; [done|]. apply key_line_ne.
Qed.

(** After the first line. *)
Lemma first_found cmd b n e : 0 < b ->
  next_found cmd (close e (touch false b n nothing_found)) = mkFound 0 0 b n (key_line cmd =? 2) 1 (key_line cmd).
Proof. intros Hb. unfold touch, close, next_found. cbn. rewrite (proj2 (Z.eqb_neq b 0)) by lia. cbn. by rewrite orb_false_r. Qed.

(** ** The parser on a request *)

Lemma arg_lines_app xs ys : arg_lines (xs ++ ys) = arg_lines xs ++ arg_lines ys.
Proof. unfold arg_lines. by rewrite fmap_app, concat_app. Qed.

Lemma request_eq args : request args = head_of (zlen args) ++ arg_lines args.
Proof.
  unfold request, head_of, arg_lines. cbn [wire]. rewrite (zlen_fmap _ args). cbn [app]. f_equal. rewrite <- app_assoc. do 2 f_equal. f_equal.
  rewrite <- list_fmap_compose. apply list_fmap_ext. intros i x _. unfold arg_line, prefix_of_arg. cbn. by rewrite <- app_assoc.
Qed.

Lemma lines_found_snoc cmd xs x : forall p f, lines_found cmd p (xs ++ [x]) f =
  let g := lines_found cmd p xs f in
  let b := p + zlen (arg_lines xs) + zlen (prefix_of_arg x) in
  next_found cmd (close (b + zlen x) (touch (f_key_line g) b (zlen x) g)).
Proof.
  induction xs as [|y xs IH]; intros p f; cbn [app lines_found].
  - unfold arg_lines. cbn. by rewrite Z.add_0_r.
  - rewrite IH. cbn zeta. unfold arg_lines. cbn [fmap list_fmap concat]. fold (arg_lines xs). rewrite zlen_app. unfold arg_line. rewrite !zlen_app.
    change (zlen crlf) with 2.
    replace (p + (zlen (prefix_of_arg y) + (zlen y + 2) + zlen (arg_lines xs))) with (p + zlen (prefix_of_arg y) + zlen y + 2 + zlen (arg_lines xs)) by lia.
    done.
Qed.

Section request.
Context (mem : Z -> Z) (a : Z) (cmd : list Z) (args : list (list Z)).
Hypothesis Ha : 0 < a.
Hypothesis Hcmd : head args = Some cmd.
Hypothesis Hsize : zlen (request args) < 2 ^ 31.

Notation n := (zlen args).
Notation base := (a + zlen (head_of n)).

Definition all_found : found := lines_found cmd base args nothing_found.

(** The bytes [r] are left of the request. *)
Definition req_at (s : RedisMsg) (r : list Z) : Prop :=
  szStart s = a /\ szNowPos s + zlen r = a + zlen (request args) /\
  ((exists r1, head_at n s r1 /\ r = r1 ++ arg_lines args) \/
   (exists xs x ys r1, args = xs ++ x :: ys /\
      in_bulk s (base + zlen (arg_lines xs) + zlen (prefix_of_arg x)) x (lines_found cmd base xs nothing_found) r1 /\
      iNeedArgNum (m_Info s) = 1 + zlen ys /\ r = r1 ++ arg_lines ys)).

Lemma args_pos : 0 < n < 2 ^ 31.
Proof.
  rewrite request_eq, zlen_app in Hsize. assert (n <= zlen (arg_lines args)).
  { clear. induction args as [|x xs IH]; [done|]. unfold arg_lines. cbn [fmap list_fmap concat]. rewrite zlen_app, zlen_cons. fold (arg_lines xs).
    unfold arg_line, prefix_of_arg. cbn [app]. rewrite zlen_cons. pose proof (zlen_nonneg ((dec (zlen x) ++ crlf) ++ x ++ crlf)). lia. }
  pose proof (zlen_nonneg (head_of n)). destruct args as [|x xs]; [done|]. rewrite zlen_cons in *. pose proof (zlen_nonneg xs). lia.
Qed.

(** The line of argument [x] has been read. *)
Lemma line_next s xs x ys e : args = xs ++ x :: ys -> szStart s = a -> szNowPos s = base + zlen (arg_lines (xs ++ [x])) -> placed s ->
  bReadingLine s = false -> iNeedArgNum (m_Info s) = 1 + zlen ys ->
  found_of s = close (base + zlen (arg_lines xs) + zlen (prefix_of_arg x) + zlen x)
    (touch (f_key_line (lines_found cmd base xs nothing_found)) (base + zlen (arg_lines xs) + zlen (prefix_of_arg x)) (zlen x)
       (lines_found cmd base xs nothing_found)) ->
  at_mem mem a e -> e `prefix_of` request args -> szNowPos s <= a + zlen e ->
  exists s', line_done mem s = (s', bool_decide (ys = [])) /\ szStart s' = a /\ szEnd s' = szEnd s /\ szNowPos s' = szNowPos s /\
    (ys = [] -> nowState (m_Info s') = GR_END /\ iLen (m_Info s') = zlen (request args) /\ found_of s' = all_found) /\
    (ys <> [] -> bReadingLine s' = true /\ req_at s' (arg_lines ys)).
Proof.
  intros Hargs Hs Hnow [Hp1 Hp2] Hrd Hn Hf Hm He Hin.
  pose proof (zlen_nonneg (arg_lines xs)) as N1. pose proof (zlen_nonneg (prefix_of_arg x)) as N2. assert (1 <= zlen (head_of n)) as N3
    by (unfold head_of; rewrite zlen_cons; pose proof (zlen_nonneg (dec n ++ crlf)); lia).
  pose proof (zlen_nonneg x) as N4.
  assert (Hk : iKeyInLines (m_Info s) = 0 -> KeyInLine mem (m_Info s) = key_line cmd).
  { intros H0. change (iKeyInLines (m_Info s)) with (f_in_line (found_of s)) in H0. rewrite Hf, close_in_line, touch_in_line in H0.
    destruct xs as [|y xs].
    - cbn in Hargs. rewrite Hargs in Hcmd. cbn in Hcmd. injection Hcmd as ->. change (zlen (arg_lines [])) with 0 in Hf. rewrite Z.add_0_r in Hf.
      change (arg_lines ([] ++ [cmd])) with (arg_line cmd ++ []) in Hnow.
      set (b := base + zlen (prefix_of_arg cmd)) in *. assert (szCmd (m_Info s) = b /\ iCmdLen (m_Info s) = zlen cmd) as [E1 E2].
      { change (szCmd (m_Info s)) with (f_cmd (found_of s)). change (iCmdLen (m_Info s)) with (f_cmd_len (found_of s)). rewrite Hf. done. }
      apply KeyInLine_at; [|done]. rewrite E1.
      assert (head_of n ++ prefix_of_arg cmd ++ cmd `prefix_of` e) as [t Ht].
      { assert (head_of n ++ prefix_of_arg cmd ++ cmd `prefix_of` request args) as Hpre.
        { rewrite request_eq, Hargs. exists (crlf ++ arg_lines ys). unfold arg_lines. cbn [fmap list_fmap concat]. unfold arg_line. by rewrite <- !app_assoc. }
        destruct (prefix_weak_total _ _ _ Hpre He) as [?|[t Ht]]; [done|]. apply (f_equal zlen) in Ht as Hz. rewrite !zlen_app in Hz.
        rewrite app_nil_r in Hnow. unfold arg_line in Hnow. rewrite !zlen_app in Hnow. change (zlen crlf) with 2 in Hnow. pose proof (zlen_nonneg t). lia. }
      rewrite Ht in Hm. rewrite <- !app_assoc in Hm. apply at_mem_app in Hm as [_ Hm]. apply at_mem_app in Hm as [_ Hm]. by apply at_mem_app in Hm as [Hm _].
    - exfalso. rewrite Hargs in Hcmd. cbn in Hcmd. injection Hcmd as ->. cbn [lines_found] in H0. rewrite lines_in_line in H0; [by apply key_line_ne in H0|].
      cbn [f_key_line nothing_found]. rewrite first_found by (pose proof (zlen_nonneg (prefix_of_arg cmd)); lia). done. }
  pose proof (next_key_found mem s cmd Hk) as Hnk. rewrite Hf in Hnk.
  assert (found_of (set_info s (next_key mem (m_Info s))) = lines_found cmd base (xs ++ [x]) nothing_found) as Hnk' by (by rewrite Hnk, lines_found_snoc).
  unfold line_done. cbn zeta. set (i := next_key mem (m_Info s)) in *.
  assert (iNeedArgNum i = 1 + zlen ys /\ iLen i = iLen (m_Info s)) as [Hi Hil] by (unfold i, next_key; cbn zeta; case_match; done).
  cbn [iNeedArgNum set_need]. rewrite Hi. rewrite arg_lines_app, zlen_app in Hnow. unfold arg_lines in Hnow at 2. cbn [fmap list_fmap concat] in Hnow. rewrite app_nil_r in Hnow.
  assert (szNowPos s + zlen (arg_lines ys) = a + zlen (request args)) as Hfin.
  { rewrite request_eq. rewrite Hargs at 2. rewrite zlen_app, arg_lines_app, zlen_app. unfold arg_lines at 3. cbn [fmap list_fmap concat]. fold (arg_lines ys). rewrite zlen_app. lia. }
  destruct ys as [|y ys].
  - change (zlen (@nil (list Z))) with 0. cbn [Z.eqb Z.add Z.sub]. eexists. split; [reflexivity|]. split_and!; try done. intros _.
    change (zlen (arg_lines [])) with 0 in Hfin. split_and!; [done|change (iLen i = zlen (request args)); lia|]. unfold all_found. rewrite Hargs at 2. exact Hnk'.
  - rewrite zlen_cons. pose proof (zlen_nonneg ys). rewrite (proj2 (Z.eqb_neq _ 0)) by lia. eexists. split; [reflexivity|]. split_and!; try done.
    intros _. split; [done|]. split; [done|]. split; [done|]. right. exists (xs ++ [x]), y, ys, (arg_line y). split_and!; [by rewrite Hargs, <- app_assoc| |cbn; lia|done].
    pose proof (zlen_nonneg (arg_line x)). split; try done; [split; cbn; lia|cbn; lia|].
    cbn [szNowPos set_reading set_info]. rewrite arg_lines_app, zlen_app. unfold arg_lines at 2. cbn [fmap list_fmap concat]. rewrite app_nil_r.
    unfold arg_line at 1. rewrite !zlen_app. change (zlen crlf) with 2. lia.
Qed.

(** What a call leaves when [r'] are the bytes that have not arrived. *)
Definition req_post (s s' : RedisMsg) (r' : list Z) : Prop :=
  szStart s' = a /\ szEnd s' = szEnd s /\
  (r' <> [] /\ req_at s' r' /\ szNowPos s' = szEnd s \/
   r' = [] /\ nowState (m_Info s') = GR_END /\ iLen (m_Info s') = zlen (request args) /\ found_of s' = all_found).

Lemma arg_lines_ne xs : xs <> [] -> arg_lines xs <> [].
Proof. by destruct xs. Qed.

Lemma req_ne s r : req_at s r -> r <> [].
Proof.
  intros (_ & _ & [(r1 & _ & ->)|(xs & x & ys & r1 & _ & Hi & _ & ->)]) E; apply app_nil in E as [E1 E2].
  - pose proof Hcmd as Hc. destruct args; [done|]. by apply (arg_lines_ne (l :: l0)) in E2.
  - pose proof (bulk_line_rest _ _ _ _ (ib_rest _ _ _ _ _ Hi)) as Hlr. by apply line_rest_ne in Hlr.
Qed.

Lemma parse_req k : forall s w r' e p, req_at s (w ++ r') -> at_mem mem a e -> e `prefix_of` request args ->
  szEnd s = szNowPos s + zlen w -> szEnd s = a + zlen e -> at_mem mem (szNowPos s) w ->
  (bReadingLine s = false -> p = szNowPos s) -> zlen w + 1 <= Z.of_nat k ->
  exists s', parse_loop k mem s p = Ret (s', GR_OK) /\ req_post s s' r'.
Proof.
  induction k as [|k IH]; intros s w r' e p Hr Hm He Hend Hend' Hmw Hp Hk; pose proof (zlen_nonneg w); [lia|].
  cbn [parse_loop]. destruct (decide (w = [])) as [->|Hw].
  { change (zlen (@nil Z)) with 0 in *. rewrite (proj2 (Z.ltb_ge _ _)) by lia. exists s. split; [done|]. pose proof Hr as (Hs & _). split_and!; try done.
    left. pose proof (req_ne _ _ Hr). split_and!; try done. lia. }
  pose proof (zlen_pos w Hw). rewrite (proj2 (Z.ltb_lt _ _)) by lia. pose proof args_pos as Hn.
  assert (again : forall s1 w1, szStart s1 = a -> szEnd s1 = szEnd s -> req_at s1 (w1 ++ r') -> szEnd s1 = szNowPos s1 + zlen w1 ->
    at_mem mem (szNowPos s1) w1 -> zlen w1 < zlen w -> forall q, (bReadingLine s1 = false -> q = szNowPos s1) ->
    exists s', parse_loop k mem s1 q = Ret (s', GR_OK) /\ req_post s s' r').
  { intros s1 w1 S1 S2 Hr1 Hend1 Hm1 Hlt q Hq. destruct (IH s1 w1 r' e q) as (s' & E & P1 & P2 & P3); try done; try congruence; [lia|].
    exists s'. split; [done|]. split_and!; congruence. }
  destruct Hr as (Hs & Hfin & [(r1 & Hh & Er)|(xs & x & ys & r1 & Hargs & Hi & Hneed & Er)]).
  - pose proof Hh as (Hrd & Hpl & _). rewrite Hrd, (Hp Hrd). destruct w as [|c w]; [done|].
    assert (exists r2, r1 = c :: r2 /\ w ++ r' = r2 ++ arg_lines args) as (r2 & -> & Er2).
    { destruct r1 as [|c' r2]; [|injection Er as -> Er2; by exists r2]. exfalso. destruct Hh as (_ & _ & _ & Hh). unfold head_of in Hh.
      destruct (nowState (m_Info s)); try done; try (by destruct Hh). by destruct Hh as ([] & _ & _ & _ & E). }
    apply at_mem_cons in Hmw as [Hc Hmw]. rewrite zlen_cons in *.
    destruct (head_char mem n s c r2) as (s1 & -> & S1 & S2 & S3 & S4 & Hnext); try done.
    { destruct Hpl as [P1 P2]. cbn [app] in Hfin. rewrite zlen_cons, Er2, zlen_app in Hfin. rewrite zlen_cons. pose proof (zlen_nonneg (arg_lines args)). lia. }
    cbn [go_bind]. rewrite <- S3.
    apply (again s1 w); [congruence|done| |lia|by rewrite S3|lia|done].
    cbn [app] in Hfin. rewrite zlen_cons in Hfin. split; [congruence|]. split; [lia|]. destruct Hnext as [Hh1|(-> & Hrd1 & Hst1 & Hn1 & [P1 P2] & Hf1)].
    + left. by exists r2.
    + right. cbn [app] in Er2. pose proof Hcmd as Hc0. destruct args as [|x ys] eqn:Ea; [done|]. rewrite <- Ea in *. exists [], x, ys, (arg_line x).
      split_and!; [done| |rewrite Hn1, Ea, zlen_cons; done|rewrite Er2, Ea; done].
      assert (szNowPos s1 = base) as Hb.
      { rewrite Er2, request_eq, zlen_app in Hfin. lia. }
      split; try done.
      * destruct Hpl; lia.
      * rewrite Hst1. done.
      * rewrite Hb. change (zlen (arg_lines [])) with 0. unfold arg_line. rewrite !zlen_app. change (zlen crlf) with 2. lia.
      * unfold bulk_found. rewrite Hst1. done.
  - pose proof (ib_reading _ _ _ _ _ Hi) as Hrd. rewrite Hrd. pose proof (ib_placed _ _ _ _ _ Hi) as [P1 P2].
    set (b := base + zlen (arg_lines xs) + zlen (prefix_of_arg x)) in *. set (f := lines_found cmd base xs nothing_found) in *.
    rewrite (bulk_key_line _ _ _ _ (ib_found _ _ _ _ _ Hi)). pose proof (zlen_nonneg (arg_lines xs)). pose proof (zlen_nonneg (prefix_of_arg x)).
    pose proof (zlen_nonneg (head_of n)). pose proof (zlen_nonneg (arg_lines ys)). rewrite Er, zlen_app in Hfin.
    destruct (read_bulk mem k s b x f w r1) as (s1 & d & -> & S1 & S2 & S3 & Hpost); try done; try lia.
    { destruct (compat_split w r1 (arg_lines ys)) as [(t & ->)|(t & -> & _)]; [by exists r'; left|by exists t; left|by exists t; right]. }
    cbn [go_bind]. destruct Hpost as [(-> & r1' & -> & Hi1 & Hnow)|(-> & Hrd1 & Hpl1 & (w' & -> & Hnow) & Hf1)].
    + rewrite <- app_assoc in Er. apply app_inv_head in Er. subst r'. exists s1. split; [done|]. split_and!; try congruence. left.
      assert (req_at s1 (r1' ++ arg_lines ys)) as Hr1.
      { split; [congruence|]. rewrite !zlen_app in *. split; [lia|]. right. exists xs, x, ys, r1'. split_and!; try done. congruence. }
      split_and!; try done. by eapply req_ne.
    + rewrite <- app_assoc in Er. apply app_inv_head in Er. rewrite zlen_app in *. pose proof (zlen_nonneg w').
      destruct (line_next s1 xs x ys e) as (s2 & -> & L1 & L2 & L3 & Lend & Lmore); try done; try congruence.
      { rewrite Hnow, arg_lines_app, zlen_app. unfold arg_lines at 2. cbn [fmap list_fmap concat]. rewrite app_nil_r. unfold arg_line. rewrite !zlen_app.
        change (zlen crlf) with 2. pose proof (ib_at _ _ _ _ _ Hi). lia. }
      { lia. }
      destruct (bool_decide_reflect (ys = [])) as [->|Hys].
      * change (arg_lines []) with (@nil Z) in Er. apply app_nil in Er as [-> ->]. exists s2. split; [done|]. destruct (Lend eq_refl) as (? & ? & ?).
        split_and!; try congruence. right. done.
      * destruct (Lmore Hys) as [Hrd2 Hr2]. rewrite <- Er in Hr2. apply at_mem_app in Hmw as [_ Hmw].
        assert (r1 <> []) as Hr1 by (by eapply line_rest_ne, bulk_line_rest, (ib_rest _ _ _ _ _ Hi)). pose proof (zlen_pos r1 Hr1).
        apply (again s2 w'); try done; [congruence|lia|by rewrite L3, Hnow|lia|by rewrite Hrd2].
Qed.
End request.

(** ** Where the key is *)

Definition has_key (f : found) (p n c m : Z) : Prop := f_key f = p /\ f_key_len f = n /\ f_cmd f = c /\ f_cmd_len f = m.

(** Once there is a key, it stays. *)
Lemma lines_keep cmd xs : forall q f p n c m, 0 < p -> 0 < n -> 0 < c -> has_key f p n c m -> has_key (lines_found cmd q xs f) p n c m.
Proof.
  induction xs as [|x xs IH]; intros q f p n c m Hp Hn Hc Hf; [done|]. cbn [lines_found]. apply IH; try done.
  destruct Hf as (E1 & E2 & E3 & E4). unfold touch. rewrite E1, (proj2 (Z.eqb_neq p 0)) by lia. cbn. rewrite E3, (proj2 (Z.eqb_neq c 0)) by lia.
  unfold close. rewrite E2, (proj2 (Z.eqb_neq n 0)), andb_false_r by lia. unfold next_found. rewrite E1, (proj2 (Z.eqb_neq p 0)), andb_false_r by lia. done.
Qed.

(** The line of the key. *)
Lemma key_found cmd b n c m k l : 0 < b -> 0 < n -> 0 < c ->
  has_key (next_found cmd (close (b + n) (touch true b n (mkFound 0 0 c m true k l)))) b n c m.
Proof.
  intros Hb Hn Hc. unfold touch. cbn. rewrite (proj2 (Z.eqb_neq c 0)) by lia. unfold close. cbn. rewrite (proj2 (Z.eqb_neq b 0)) by lia. cbn.
  unfold next_found. cbn. rewrite (proj2 (Z.eqb_neq b 0)), andb_false_r by lia. split_and!; cbn; lia || done.
Qed.

(** A line in front of it. *)
Lemma skip_found cmd b n e c m k : 0 < c ->
  next_found cmd (close e (touch false b n (mkFound 0 0 c m false k 4))) = mkFound 0 0 c m (4 =? k + 1 + 1) (k + 1) 4.
Proof.
  intros Hc. unfold touch. cbn. rewrite (proj2 (Z.eqb_neq c 0)) by lia. unfold close. cbn. unfold next_found. cbn.
  rewrite (proj2 (Z.eqb_neq c 0)) by lia. cbn. by rewrite orb_false_r.
Qed.

Definition key_index (cmd : list Z) : nat := Z.to_nat (key_line cmd - 1).

Lemma arg_at_cons p x xs i : arg_at p (x :: xs) (S i) = arg_at (p + zlen (prefix_of_arg x) + zlen x + 2) xs i.
Proof.
  unfold arg_at. change ((x :: xs) !! S i) with (xs !! i). change (take (S i) (x :: xs)) with (x :: take i xs).
  change (arg_lines (x :: take i xs)) with (arg_line x ++ arg_lines (take i xs)). unfold arg_line at 1. rewrite !zlen_app. change (zlen crlf) with 2. lia.
Qed.

Lemma arg_at_0 p x xs : arg_at p (x :: xs) 0 = p + zlen (prefix_of_arg x).
Proof.
  unfold arg_at. change (zlen (arg_lines (take 0 (x :: xs)))) with 0. change (default [] ((x :: xs) !! 0%nat)) with x. lia.
Qed.

Lemma prefix_pos x : 0 < zlen (prefix_of_arg x).
Proof. unfold prefix_of_arg. rewrite zlen_cons. pose proof (zlen_nonneg (dec (zlen x) ++ crlf)). lia. Qed.

Lemma lines_found_cons cmd p x xs f : lines_found cmd p (x :: xs) f =
  lines_found cmd (p + zlen (prefix_of_arg x) + zlen x + 2) xs
    (next_found cmd (close (p + zlen (prefix_of_arg x) + zlen x) (touch (f_key_line f) (p + zlen (prefix_of_arg x)) (zlen x) f))).
Proof. reflexivity. Qed.

(** The key's line follows the lines that have been read. *)
Lemma lines_at_key cmd p key xs c m k l : 0 < p -> 0 < c -> key <> [] ->
  has_key (lines_found cmd p (key :: xs) (mkFound 0 0 c m true k l)) (arg_at p (key :: xs) 0) (zlen key) c m.
Proof.
  intros Hp Hc Hne. pose proof (prefix_pos key). pose proof (zlen_pos key Hne). rewrite lines_found_cons, arg_at_0.
  apply lines_keep; try lia. apply key_found; lia.
Qed.

Lemma key_line_cases cmd : key_line cmd = 2 \/ key_line cmd = 4.
Proof. unfold key_line. case_match; auto. Qed.

Lemma lines_key p cmd xs key : 0 < p -> (cmd :: xs) !! key_index cmd = Some key -> key <> [] ->
  has_key (lines_found cmd p (cmd :: xs) nothing_found) (arg_at p (cmd :: xs) (key_index cmd)) (zlen key) (arg_at p (cmd :: xs) 0) (zlen cmd).
Proof.
  intros Hp Hk Hne. pose proof (prefix_pos cmd). pose proof (zlen_nonneg cmd). rewrite arg_at_0, lines_found_cons.
  set (b := p + zlen (prefix_of_arg cmd)) in *. change (f_key_line nothing_found) with false. rewrite first_found by lia.
  assert (key_index cmd = 1%nat /\ key_line cmd = 2 \/ key_index cmd = 3%nat /\ key_line cmd = 4) as [[E1 E2]|[E1 E2]]
    by (unfold key_index; destruct (key_line_cases cmd) as [-> | ->]; auto); rewrite E1 in *; rewrite E2.
  - destruct xs as [|x xs]; [discriminate Hk|]. injection Hk as ->. rewrite arg_at_cons. fold b. apply lines_at_key; lia || done.
  - destruct xs as [|x [|y [|z xs]]]; [discriminate Hk..|]. injection Hk as ->. rewrite !arg_at_cons. fold b.
    pose proof (prefix_pos x). pose proof (prefix_pos y). pose proof (zlen_nonneg x). pose proof (zlen_nonneg y).
    rewrite (lines_found_cons cmd _ x), (lines_found_cons cmd _ y).
    change (f_key_line (mkFound 0 0 b (zlen cmd) (4 =? 2) 1 4)) with false. rewrite skip_found by lia.
    change (f_key_line (mkFound 0 0 b (zlen cmd) (4 =? 1 + 1 + 1) (1 + 1) 4)) with false. rewrite skip_found by lia.
    apply lines_at_key; lia || done.
Qed.

(** ** Pieces

    Every piece is in memory, behind the earlier ones, when the parser is called
    for it. *)
Fixpoint feed (s : RedisMsg) (l : list ((Z -> Z) * list Z)) : go RedisMsg :=
  match l with
  | [] => Ret s
  | (mem, w) :: l =>
      let! (s, c) := ParseRsp mem (Expand s (zlen w)) in
      if bool_decide (c = GR_OK) then feed s l else Panic
  end.

Fixpoint arrives (a : Z) (e : list Z) (l : list ((Z -> Z) * list Z)) : Prop :=
  match l with
  | [] => True
  | (mem, w) :: l => w <> [] /\ at_mem mem a (e ++ w) /\ arrives a (e ++ w) l
  end.

Lemma head_Expand n s r k : head_at n s r -> head_at n (Expand s k) r.
Proof. by destruct s. Qed.
Lemma bulk_Expand s b x f r k : in_bulk s b x f r -> in_bulk (Expand s k) b x f r.
Proof. destruct s. intros [? ? ? ? ? ?]. by split. Qed.

Lemma req_Expand a cmd args s r k : req_at a cmd args s r -> req_at a cmd args (Expand s k) r.
Proof.
  intros (H1 & H2 & H3). pose proof (Expand_fields s k) as (E1 & E2 & E3 & E4). split; [congruence|]. split; [congruence|].
  destruct H3 as [(r1 & Hh & ->)|(xs & x & ys & r1 & ? & Hi & ? & ->)]; [left|right].
  - exists r1. split; [by apply head_Expand|done].
  - exists xs, x, ys, r1. split_and!; [done|by apply bulk_Expand|by rewrite E4|done].
Qed.

Lemma feed_ok a cmd args l : 0 < a -> head args = Some cmd -> zlen (request args) < 2 ^ 31 -> forall e s,
  arrives a e l -> e ++ concat l.*2 = request args -> req_at a cmd args s (concat l.*2) -> szEnd s = szNowPos s ->
  exists s', feed s l = Ret s' /\ nowState (m_Info s') = GR_END /\ iLen (m_Info s') = zlen (request args) /\ found_of s' = all_found a cmd args.
Proof.
  intros Ha Hc Hs. induction l as [|[mem w] l IH]; intros e s Harr He Hr Hend; [by apply req_ne in Hr|].
  destruct Harr as (Hw & Hm & Harr). cbn [fmap list_fmap concat snd] in *. cbn [feed].
  pose proof (Expand_fields s (zlen w)) as (E1 & E2 & E3 & E4). pose proof (zlen_pos w Hw).
  pose proof Hr as (Hst & Hfin & _). rewrite <- He, !zlen_app in Hfin.
  destruct (parse_req mem a cmd args Ha Hc Hs (parse_fuel (Expand s (zlen w))) (Expand s (zlen w)) w (concat l.*2) (e ++ w) (szNowPos (Expand s (zlen w))))
    as (s1 & E & P1 & P2 & Hpost); try done.
  { by apply req_Expand. }
  { exists (concat l.*2). by rewrite <- app_assoc. }
  { lia. }
  { rewrite zlen_app. lia. }
  { rewrite E3. apply at_mem_app in Hm as [_ Hm]. by replace (szNowPos s) with (a + zlen e) by lia. }
  { unfold parse_fuel. lia. }
  unfold ParseRsp. rewrite E. cbn [go_bind]. rewrite bool_decide_eq_true_2 by done.
  destruct Hpost as [(Hne & Hr1 & Hn1)|(Hnil & Hfinal)].
  - apply (IH (e ++ w)); try done; [by rewrite <- app_assoc|congruence].
  - destruct l as [|[mem' w'] l]; [by exists s1|]. destruct Harr as [Hw' _]. cbn in Hnil. by apply app_nil in Hnil as [-> _].
Qed.

Lemma feed_Init a cmd args l : 0 < a -> head args = Some cmd -> zlen (request args) < 2 ^ 31 -> arrives a [] l -> concat l.*2 = request args ->
  exists s, feed (Init a) l = Ret s /\ nowState (m_Info s) = GR_END /\ iLen (m_Info s) = zlen (request args) /\ found_of s = all_found a cmd args.
Proof.
  intros Ha Hc Hs Harr Hl. apply (feed_ok a cmd args l Ha Hc Hs [] (Init a) Harr Hl); [|done].
  rewrite Hl. split; [done|]. split; [done|]. left. exists (head_of (zlen args)). split; [|apply request_eq]. split; [done|]. split; [split; cbn; lia|]. done.
Qed.

(** C3: A request that arrives in any pieces, its buffer staying where it is, is
    parsed to its end; the command is its first argument, and the key, when it is
    not empty, is its second one, or its fourth one if the command is EVAL or
    EVALSHA in upper or lower case. *)
Theorem request_key a cmd args key l : 0 < a -> head args = Some cmd -> args !! key_index cmd = Some key -> key <> [] ->
  zlen (request args) < 2 ^ 31 -> arrives a [] l -> concat l.*2 = request args ->
  exists s, feed (Init a) l = Ret s /\ nowState (m_Info s) = GR_END /\ iLen (m_Info s) = zlen (request args) /\
    szCmd (m_Info s) = arg_at (a + zlen (head_of (zlen args))) args 0 /\ iCmdLen (m_Info s) = zlen cmd /\
    szKeyStart (m_Info s) = arg_at (a + zlen (head_of (zlen args))) args (key_index cmd) /\ iKeyLen (m_Info s) = zlen key.
Proof.
  intros Ha Hc Hk Hne Hs Harr Hl. destruct (feed_Init a cmd args l Ha Hc Hs Harr Hl) as (s & E & Hst & Hlen & Hf).
  exists s. destruct args as [|x xs]; [done|]. injection Hc as ->. pose proof (zlen_nonneg (head_of (zlen (cmd :: xs)))) as Hh.
  destruct (lines_key (a + zlen (head_of (zlen (cmd :: xs)))) cmd xs key ltac:(lia) Hk Hne) as (K1 & K2 & K3 & K4).
  unfold all_found in Hf. rewrite <- Hf in K1, K2, K3, K4. split_and!; done.
Qed.

(** A memory with the bytes [l] at [a]. *)
Definition mem_at (a : Z) (l : list Z) : Z -> Z := fun x => if (a <=? x) && (x <? a + zlen l) then default 0 (l !! Z.to_nat (x - a)) else 0.

Lemma mem_at_ok a l : at_mem (mem_at a l) a l.
Proof.
  intros i x Hi. pose proof (lookup_lt_Some _ _ _ Hi). unfold mem_at.
  rewrite (proj2 (Z.leb_le _ _)), (proj2 (Z.ltb_lt _ _)) by (unfold zlen; lia). cbn. by replace (Z.to_nat (a + Z.of_nat i - a)) with i by lia; rewrite Hi.
Qed.

Definition set_args : list (list Z) := [str "SET"; str "k1"; str "v"].
Definition set_pieces : list ((Z -> Z) * list Z) :=
  [(mem_at 1000 (take 14 (request set_args)), take 14 (request set_args)); (mem_at 1000 (request set_args), drop 14 (request set_args))].

Lemma set_arrives : arrives 1000 [] set_pieces.
Proof. cbn [arrives set_pieces]. split; [done|]. split; [apply mem_at_ok|]. split; [done|]. split; [|done]. cbn [app]. rewrite take_drop. apply mem_at_ok. Qed.

Lemma request_key_witness : arrives 1000 [] set_pieces /\ exists s, feed (Init 1000) set_pieces = Ret s /\ iKeyLen (m_Info s) = 2.
Proof.
  split; [exact set_arrives|].
  destruct (request_key 1000 (str "SET") set_args (str "k1") set_pieces) as (s & E & _ & _ & _ & _ & _ & Hk);
    [lia|reflexivity|reflexivity|discriminate|vm_compute; reflexivity|exact set_arrives|reflexivity|].
  exists s. split; [exact E|exact Hk].
Defined.

(** What the parser notes of a request that is there as a whole. *)
Definition noted (l : list Z) : option (msg_state * Z * Z * Z * Z) :=
  match ParseRsp (mem_at 1000 l) (set_end (Init 1000) (1000 + zlen l)) with
  | Ret (s, GR_OK) => Some (nowState (m_Info s), szCmd (m_Info s), iCmdLen (m_Info s), szKeyStart (m_Info s), iKeyLen (m_Info s))
  | _ => None
  end.

(** The key [k1] of SET is noted; an empty key becomes the seven bytes up to the
    end of the value. *)
Example empty_key :
  noted (request [str "SET"; str "k1"; str "v"]) = Some (GR_END, 1008, 3, 1017, 2) /\
  noted (request [str "SET"; []; str "v"]) = Some (GR_END, 1008, 3, 1017, 7) /\
  noted (request [str "GET"; []]) = Some (GR_END, 1008, 3, 1017, 0).
Proof. vm_compute. done. Qed.

(** The inline command that the parser takes for PING has no command. *)
Example inline_ping : noted (str "PING" ++ crlf) = Some (GR_END, 0, 0, 0, 0).
Proof. vm_compute. reflexivity. Qed.

(** A length that is not followed by CR LF is reported as no error, and the
    parser goes on after the byte in its way. *)
Example bad_length : exists s, ParseRsp (mem_at 1000 (str "$3" ++ [13; 88])) (set_end (Init 1000) 1004) = Ret (s, GR_OK) /\
  nowState (m_Info s) = GR_USD_NUM_CRLF /\ szNowPos s = 1004.
Proof. eexists. vm_compute. done. Qed.

(** When the buffer moves while the command EVAL is being read, the parser looks
    for the command in the old buffer: there are other bytes now, and the script
    is taken for the key. *)
Definition eval_args : list (list Z) := [str "EVAL"; str "return 1"; str "1"; str "k1"].

Example moved_command :
  let req := request eval_args in
  (match feed (Init 1000) [(mem_at 1000 (take 13 req), take 13 req); (mem_at 1000 req, drop 13 req)] with
   | Ret s => szKeyStart (m_Info s) = arg_at (1000 + zlen (head_of 4)) eval_args 3
   | Panic => False
   end) /\
  (match feed (Init 1000) [(mem_at 1000 (take 13 req), take 13 req)] with
   | Ret s =>
       match feed (Reset s 5000) [(mem_at 5000 req, drop 13 req)] with
       | Ret s => szKeyStart (m_Info s) = arg_at (5000 + zlen (head_of 4)) eval_args 1
       | Panic => False
       end
   | Panic => False
   end).
Proof. vm_compute. done. Qed.
