(* ===== verification/Ringbuffer.v ===== *)
(** * common/ringbuffer.cpp: queues of pointers

    [RingBuffer] is an array of pointers used in a circle; the proxy keeps the
    requests that wait for a reply in them.  A pointer is [Some], null is [None];
    [m_pStart] and [m_pEnd] are slots of [m_pWaitMsgPool]. *)

From S2P Require Import Prelude.

Record RingBuffer (A : Type) := mkRing {
  m_pWaitMsgPool : list (option A);
  m_pStart : nat;
  m_pEnd : nat;
  m_iDataNum : nat
}.
Arguments mkRing {A}.
Arguments m_pWaitMsgPool {A}.
Arguments m_pStart {A}.
Arguments m_pEnd {A}.
Arguments m_iDataNum {A}.

Section ring.
Context {A : Type}.
Implicit Types (rb : RingBuffer A).

Definition m_iPoolLen rb : nat := length (m_pWaitMsgPool rb).

(** [Init] and [ReInit] *)
Definition new_ring (iPoolLen : nat) : RingBuffer A := mkRing (replicate iPoolLen None) 0 0 0.
Definition ring_ReInit rb : RingBuffer A := new_ring (m_iPoolLen rb).

Definition PoolFull rb : bool := (m_iDataNum rb =? m_iPoolLen rb)%nat.

(** The slot after [p]. *)
Definition next_slot rb (p : nat) : nat := if (S p =? m_iPoolLen rb)%nat then 0%nat else S p.

Definition AddData rb (x : A) : option (RingBuffer A) :=
  if PoolFull rb then None
  else Some (mkRing (<[m_pEnd rb := Some x]> (m_pWaitMsgPool rb)) (m_pStart rb) (next_slot rb (m_pEnd rb)) (S (m_iDataNum rb))).

(** [ulIndex % m_iPoolLen] *)
Definition slot_of rb (ulIndex : Z) : nat := Z.to_nat (ulIndex mod Z.of_nat (m_iPoolLen rb)).

Definition AddData_at rb (x : A) (ulIndex : Z) : option (RingBuffer A) :=
  if PoolFull rb then None else if (m_pEnd rb =? slot_of rb ulIndex)%nat then AddData rb x else None.

Definition GetNum rb : nat := m_iDataNum rb.

(** What the slot [p] holds. *)
Definition slot rb (p : nat) : option A := m_pWaitMsgPool rb !! p ≫= id.

(** [PopFront], also [GR_RB_POPFRONT] *)
Definition PopFront rb : RingBuffer A * option A :=
  if (m_iDataNum rb =? 0)%nat then (rb, None)
  else (mkRing (<[m_pStart rb := None]> (m_pWaitMsgPool rb)) (if (m_iPoolLen rb <=? S (m_pStart rb))%nat then 0%nat else S (m_pStart rb)) (m_pEnd rb) (pred (m_iDataNum rb)),
        slot rb (m_pStart rb)).

Definition GetFront rb : option A := if (m_iDataNum rb =? 0)%nat then None else slot rb (m_pStart rb).

(** [GR_RB_GETFRONT] reads the slot of the front even if there is none. *)
Definition RB_GETFRONT rb : option A := slot rb (m_pStart rb).

Definition GetBack rb : option A :=
  if (m_iDataNum rb =? 0)%nat then None
  else if (m_pEnd rb =? 0)%nat || (m_pEnd rb =? m_iPoolLen rb)%nat then slot rb (pred (m_iPoolLen rb))
  else slot rb (pred (m_pEnd rb)).

(** By number; the numbers are [uint64]. *)
Definition GetData rb (ulIndex : Z) : option A := slot rb (slot_of rb ulIndex).
Definition GetPre rb (ulIndex : Z) : option A := slot rb (slot_of rb (u64 (ulIndex - 1))).
Definition GetNext rb (ulIndex : Z) : option A := slot rb (slot_of rb (u64 (ulIndex + 1))).

(** ** The queue in the ring

    [base] elements have been taken out before the ones in [q]. *)
Record rb_ok (N : nat) (rb : RingBuffer A) (base : nat) (q : list A) : Prop := {
  rb_pos : (0 < N)%nat;
  rb_len : m_iPoolLen rb = N;
  rb_start : m_pStart rb = (base mod N)%nat;
  rb_end : m_pEnd rb = ((base + length q) mod N)%nat;
  rb_num : m_iDataNum rb = length q;
  rb_max : (length q <= N)%nat;
  rb_slots : forall j, (j < N)%nat -> m_pWaitMsgPool rb !! ((base + j) mod N)%nat = Some (q !! j)
}.

Lemma slot_inj N base i j : (i < N)%nat -> (j < N)%nat -> ((base + i) mod N)%nat = ((base + j) mod N)%nat -> i = j.
Proof.
  intros Hi Hj E. pose proof (Nat.div_mod_eq (base + i) N). pose proof (Nat.div_mod_eq (base + j) N). rewrite E in *.
  assert ((base + i) / N = (base + j) / N)%nat by nia. nia.
Qed.

Lemma new_ring_ok N : (0 < N)%nat -> rb_ok N (new_ring N) 0 [].
Proof.
  intros HN. split; cbn; try done; try (by rewrite Nat.mod_0_l by lia); try lia.
  - unfold m_iPoolLen. cbn. apply length_replicate.
  - intros j Hj. rewrite Nat.mod_small by done. by apply lookup_replicate_2.
Qed.

Section ops.
Context (N : nat) (rb : RingBuffer A) (base : nat) (q : list A).
Hypothesis Hok : rb_ok N rb base q.

Lemma PoolFull_spec : PoolFull rb = (length q =? N)%nat.
Proof. unfold PoolFull. by rewrite (rb_len _ _ _ _ Hok), (rb_num _ _ _ _ Hok). Qed.

Lemma next_slot_ok k : next_slot rb (k mod N) = (S k mod N)%nat.
Proof.
  pose proof (rb_pos _ _ _ _ Hok) as HN. unfold next_slot. rewrite (rb_len _ _ _ _ Hok). pose proof (Nat.mod_upper_bound k N ltac:(lia)).
  destruct (Nat.eqb_spec (S (k mod N)) N) as [E|E].
  - apply (Nat.mod_unique (S k) N (S (k / N)) 0); [lia|]. pose proof (Nat.div_mod_eq k N). nia.
  - apply (Nat.mod_unique (S k) N (k / N) (S (k mod N))); [lia|]. pose proof (Nat.div_mod_eq k N). nia.
Qed.

Lemma AddData_ok x : (length q < N)%nat -> exists rb', AddData rb x = Some rb' /\ rb_ok N rb' base (q ++ [x]).
Proof.
  intros Hlt. pose proof (rb_pos _ _ _ _ Hok) as HN. unfold AddData. rewrite PoolFull_spec, (proj2 (Nat.eqb_neq _ _)) by lia. eexists. split; [reflexivity|].
  split; cbn [m_pWaitMsgPool m_pStart m_pEnd m_iDataNum]; rewrite ?length_app; cbn [length]; try lia.
  - unfold m_iPoolLen. cbn. rewrite length_insert. apply Hok.
  - apply Hok.
  - rewrite (rb_end _ _ _ _ Hok), next_slot_ok. f_equal. lia.
  - rewrite (rb_num _ _ _ _ Hok). lia.
  - intros j Hj. rewrite (rb_end _ _ _ _ Hok). destruct (decide (j = length q)) as [->|Hne].
    + rewrite list_lookup_insert_eq; [by rewrite lookup_app_r, Nat.sub_diag by lia|].
      change (length (m_pWaitMsgPool rb)) with (m_iPoolLen rb). rewrite (rb_len _ _ _ _ Hok). apply Nat.mod_upper_bound. lia.
    + rewrite list_lookup_insert_ne by (intros E; apply slot_inj in E; lia). rewrite (rb_slots _ _ _ _ Hok) by done. f_equal.
      destruct (decide (j < length q)%nat); [by rewrite lookup_app_l|]. by rewrite !lookup_ge_None_2 by (rewrite ?length_app; cbn; lia).
Qed.

Lemma AddData_full x : length q = N -> AddData rb x = None.
Proof. intros E. unfold AddData. by rewrite PoolFull_spec, E, Nat.eqb_refl. Qed.

Lemma slot_of_spec k : slot_of rb (Z.of_nat k) = (k mod N)%nat.
Proof. unfold slot_of. rewrite (rb_len _ _ _ _ Hok), <- Nat2Z.inj_mod. lia. Qed.

(** The element goes in if its number is the next one. *)
Lemma AddData_at_ok x : (length q < N)%nat ->
  exists rb', AddData_at rb x (Z.of_nat (base + length q)) = Some rb' /\ rb_ok N rb' base (q ++ [x]).
Proof.
  intros Hlt. unfold AddData_at. rewrite PoolFull_spec, (proj2 (Nat.eqb_neq _ _)), slot_of_spec, (rb_end _ _ _ _ Hok), Nat.eqb_refl by lia. by apply AddData_ok.
Qed.

Lemma slot_at j : (j < N)%nat -> slot rb ((base + j) mod N) = q !! j.
Proof. intros Hj. unfold slot. rewrite (rb_slots _ _ _ _ Hok) by done. done. Qed.

Lemma start_slot : slot rb (m_pStart rb) = head q.
Proof.
  rewrite (rb_start _ _ _ _ Hok). pose proof (slot_at 0 (rb_pos _ _ _ _ Hok)) as H. rewrite Nat.add_0_r in H. rewrite H. by destruct q.
Qed.

Lemma GETFRONT_spec : RB_GETFRONT rb = head q.
Proof. exact start_slot. Qed.

Lemma GetFront_spec : GetFront rb = head q.
Proof. unfold GetFront. rewrite (rb_num _ _ _ _ Hok), start_slot. by destruct q. Qed.

Lemma PopFront_nil : q = [] -> PopFront rb = (rb, None).
Proof. intros ->. unfold PopFront. by rewrite (rb_num _ _ _ _ Hok). Qed.

Lemma PopFront_cons x q' : q = x :: q' -> exists rb', PopFront rb = (rb', Some x) /\ rb_ok N rb' (S base) q'.
Proof.
  intros E. pose proof (rb_pos _ _ _ _ Hok) as HN. unfold PopFront. rewrite (rb_num _ _ _ _ Hok), E. cbn [length Nat.eqb]. eexists. split; [by rewrite start_slot, E|].
  pose proof (rb_max _ _ _ _ Hok) as Hmax. rewrite E in Hmax. cbn in Hmax.
  split; cbn [m_pWaitMsgPool m_pStart m_pEnd m_iDataNum pred]; try lia.
  - unfold m_iPoolLen. cbn. rewrite length_insert. apply Hok.
  - rewrite (rb_start _ _ _ _ Hok), <- next_slot_ok. unfold next_slot. rewrite (rb_len _ _ _ _ Hok).
    pose proof (Nat.mod_upper_bound base N ltac:(lia)). destruct (Nat.leb_spec N (S (base mod N))), (Nat.eqb_spec (S (base mod N)) N); lia.
  - rewrite (rb_end _ _ _ _ Hok), E. cbn [length]. f_equal. lia.
  - intros j Hj. rewrite (rb_start _ _ _ _ Hok). destruct (decide (S j = N)) as [Hl|Hne].
    + replace (S base + j)%nat with (base + N)%nat by lia. replace ((base + N) mod N)%nat with (base mod N)%nat.
      2: { rewrite <- (Nat.Div0.add_mod_idemp_r base N), Nat.Div0.mod_same, Nat.add_0_r. done. }
      rewrite list_lookup_insert_eq.
      * by rewrite lookup_ge_None_2 by lia.
      * change (length (m_pWaitMsgPool rb)) with (m_iPoolLen rb). rewrite (rb_len _ _ _ _ Hok). apply Nat.mod_upper_bound. lia.
    + replace (S base + j)%nat with (base + S j)%nat by lia. rewrite list_lookup_insert_ne.
      * rewrite (rb_slots _ _ _ _ Hok), E by lia. done.
      * rewrite <- (Nat.add_0_r base) at 1. intros E'. apply slot_inj in E'; lia.
Qed.

Lemma GetBack_spec : GetBack rb = last q.
Proof.
  pose proof (rb_pos _ _ _ _ Hok) as HN. unfold GetBack. rewrite (rb_num _ _ _ _ Hok), (rb_len _ _ _ _ Hok).
  assert (q = [] \/ exists q' x, q = q' ++ [x]) as [E|(q' & x & E)] by (clear; induction q using rev_ind; eauto); [by rewrite E|].
  rewrite E, last_snoc, length_app. cbn [length].
  rewrite (proj2 (Nat.eqb_neq _ 0)) by lia. pose proof (rb_end _ _ _ _ Hok) as He. rewrite E, length_app in He. cbn [length] in He.
  pose proof (rb_max _ _ _ _ Hok) as Hm. rewrite E, length_app in Hm. cbn [length] in Hm.
  assert (slot rb ((base + length q') mod N) = Some x) as Hx.
  { rewrite slot_at, E by lia. by rewrite lookup_app_r, Nat.sub_diag. }
  rewrite <- Hx. pose proof (next_slot_ok (base + length q')) as Hn. replace (S (base + length q')) with (base + (length q' + 1))%nat in Hn by lia. rewrite <- He in Hn.
  unfold next_slot in Hn. rewrite (rb_len _ _ _ _ Hok) in Hn. pose proof (Nat.mod_upper_bound (base + length q') N ltac:(lia)).
  destruct (Nat.eqb_spec (S ((base + length q') mod N)) N) as [E1|E1]; rewrite <- Hn.
  - cbn [orb Nat.eqb]. f_equal. lia.
  - rewrite (proj2 (Nat.eqb_neq _ 0)), (proj2 (Nat.eqb_neq _ N)) by done. done.
Qed.

(** An element is found under its number. *)
Lemma GetData_spec j : (j < N)%nat -> GetData rb (Z.of_nat (base + j)) = q !! j.
Proof. intros Hj. unfold GetData. rewrite slot_of_spec. by apply slot_at. Qed.

Lemma GetPre_spec j : (S j < N)%nat -> Z.of_nat (base + S j) < 2 ^ 64 -> GetPre rb (Z.of_nat (base + S j)) = q !! j.
Proof.
  intros Hj Hb. unfold GetPre. replace (Z.of_nat (base + S j) - 1) with (Z.of_nat (base + j)) by lia. rewrite wrap_small by lia.
  rewrite slot_of_spec. apply slot_at. lia.
Qed.
End ops.

(** ** The ring as a queue *)

Inductive ring_op := RAdd (x : A) | RAddAt (x : A) (ulIndex : Z) | RPop | RFront | RFrontSlot | RBack | RNum | RFull | RData (ulIndex : Z) | RPre (ulIndex : Z) | RNext (ulIndex : Z) | RReInit.
Inductive ring_res := ResBool (b : bool) | ResElem (o : option A) | ResNum (n : nat) | ResUnit.

Definition ring_do rb (o : ring_op) : RingBuffer A * ring_res :=
  match o with
  | RAdd x => match AddData rb x with Some rb => (rb, ResBool true) | None => (rb, ResBool false) end
  | RAddAt x i => match AddData_at rb x i with Some rb => (rb, ResBool true) | None => (rb, ResBool false) end
  | RPop => let (rb, r) := PopFront rb in (rb, ResElem r)
  | RFront => (rb, ResElem (GetFront rb))
  | RFrontSlot => (rb, ResElem (RB_GETFRONT rb))
  | RBack => (rb, ResElem (GetBack rb))
  | RNum => (rb, ResNum (GetNum rb))
  | RFull => (rb, ResBool (PoolFull rb))
  | RData i => (rb, ResElem (GetData rb i))
  | RPre i => (rb, ResElem (GetPre rb i))
  | RNext i => (rb, ResElem (GetNext rb i))
  | RReInit => (ring_ReInit rb, ResUnit)
  end.

(** A queue of at most [N] elements, after [base] have been taken out; numbers
    count modulo [N]. *)
Definition queue_at (N base : nat) (q : list A) (i : Z) : option A := q !! Z.to_nat ((i - Z.of_nat base) mod Z.of_nat N).

Definition queue_do (N : nat) (st : nat * list A) (o : ring_op) : (nat * list A) * ring_res :=
  let (base, q) := st in
  match o with
  | RAdd x => if (length q =? N)%nat then (st, ResBool false) else ((base, q ++ [x]), ResBool true)
  | RAddAt x i => if (length q =? N)%nat || negb ((i - Z.of_nat (base + length q)) mod Z.of_nat N =? 0) then (st, ResBool false) else ((base, q ++ [x]), ResBool true)
  | RPop => match q with [] => (st, ResElem None) | x :: q => ((S base, q), ResElem (Some x)) end
  | RFront | RFrontSlot => (st, ResElem (head q))
  | RBack => (st, ResElem (last q))
  | RNum => (st, ResNum (length q))
  | RFull => (st, ResBool (length q =? N)%nat)
  | RData i => (st, ResElem (queue_at N base q i))
  | RPre i => (st, ResElem (queue_at N base q (u64 (i - 1))))
  | RNext i => (st, ResElem (queue_at N base q (u64 (i + 1))))
  | RReInit => ((0%nat, []), ResUnit)
  end.

Fixpoint ring_run rb (ops : list ring_op) : list ring_res :=
  match ops with [] => [] | o :: ops => let (rb, r) := ring_do rb o in r :: ring_run rb ops end.

Fixpoint queue_run (N : nat) (st : nat * list A) (ops : list ring_op) : list ring_res :=
  match ops with [] => [] | o :: ops => let (st, r) := queue_do N st o in r :: queue_run N st ops end.

Lemma slot_number N rb base q i : rb_ok N rb base q -> slot rb (slot_of rb i) = queue_at N base q i.
Proof.
  intros Hok. pose proof (rb_pos _ _ _ _ Hok). unfold queue_at, slot_of. rewrite (rb_len _ _ _ _ Hok). pose proof (Z.mod_pos_bound (i - Z.of_nat base) (Z.of_nat N) ltac:(lia)).
  rewrite <- (slot_at _ _ _ _ Hok) by lia. f_equal. apply Nat2Z.inj. rewrite Nat2Z.inj_mod, Nat2Z.inj_add, !Z2Nat.id by (try apply Z.mod_pos_bound; lia).
  rewrite Zplus_mod_idemp_r. f_equal. lia.
Qed.

Lemma end_slot N rb base q i : rb_ok N rb base q -> (m_pEnd rb =? slot_of rb i)%nat = ((i - Z.of_nat (base + length q)) mod Z.of_nat N =? 0).
Proof.
  intros Hok. pose proof (rb_pos _ _ _ _ Hok). unfold slot_of. rewrite (rb_len _ _ _ _ Hok), (rb_end _ _ _ _ Hok). set (e := (base + length q)%nat).
  pose proof (Z.mod_pos_bound i (Z.of_nat N) ltac:(lia)). pose proof (Nat.mod_upper_bound e N ltac:(lia)).
  pose proof (Z.div_mod i (Z.of_nat N) ltac:(lia)) as Di. pose proof (Nat.div_mod_eq e N) as De. destruct (Z.eqb_spec ((i - Z.of_nat e) mod Z.of_nat N) 0) as [E|E].
  - apply Z.mod_divide in E as [k E]; [|lia]. apply Nat.eqb_eq. apply Nat2Z.inj. rewrite Z2Nat.id, Nat2Z.inj_mod by lia. replace i with (Z.of_nat e + k * Z.of_nat N) by lia. by rewrite Z_mod_plus_full.
  - apply Nat.eqb_neq. intros E'. apply E. apply Z.mod_divide; [lia|]. exists (i / Z.of_nat N - Z.of_nat (e / N)). nia.
Qed.

Lemma ring_do_ok N rb base q o : rb_ok N rb base q ->
  exists rb' st' r, ring_do rb o = (rb', r) /\ queue_do N (base, q) o = (st', r) /\ rb_ok N rb' st'.1 st'.2.
Proof.
  intros Hok. pose proof (rb_max _ _ _ _ Hok) as Hmax. destruct o; cbn [ring_do queue_do].
  - destruct (Nat.eqb_spec (length q) N) as [E|E]; [rewrite (AddData_full _ _ _ _ Hok) by done; eauto 10|].
    destruct (AddData_ok _ _ _ _ Hok x ltac:(lia)) as (rb' & -> & Hok'). eauto 10.
  - unfold AddData_at. rewrite (PoolFull_spec _ _ _ _ Hok), (end_slot _ _ _ _ _ Hok). destruct (Nat.eqb_spec (length q) N) as [E|E]; [eauto 10|]. cbn [orb].
    destruct (_ =? 0); cbn [negb]; [|eauto 10]. destruct (AddData_ok _ _ _ _ Hok x ltac:(lia)) as (rb' & -> & Hok'). eauto 10.
  - destruct q as [|x q]; [rewrite (PopFront_nil _ _ _ _ Hok eq_refl); eauto 10|]. destruct (PopFront_cons _ _ _ _ Hok x q eq_refl) as (rb' & -> & Hok'). eauto 10.
  - rewrite (GetFront_spec _ _ _ _ Hok). eauto 10.
  - rewrite (GETFRONT_spec _ _ _ _ Hok). eauto 10.
  - rewrite (GetBack_spec _ _ _ _ Hok). eauto 10.
  - unfold GetNum. rewrite (rb_num _ _ _ _ Hok). eauto 10.
  - rewrite (PoolFull_spec _ _ _ _ Hok). eauto 10.
  - unfold GetData. rewrite (slot_number _ _ _ _ _ Hok). eauto 10.
  - unfold GetPre. rewrite (slot_number _ _ _ _ _ Hok). eauto 10.
  - unfold GetNext. rewrite (slot_number _ _ _ _ _ Hok). eauto 10.
  - do 3 eexists. split_and!; [done..|]. cbn. unfold ring_ReInit. rewrite (rb_len _ _ _ _ Hok). apply new_ring_ok, Hok.
Qed.

(** C20: Any sequence of operations on a ring has the results of a queue of bounded
    length; elements are found under their numbers. *)
Theorem ring_is_queue (N : nat) (ops : list ring_op) : (0 < N)%nat -> ring_run (new_ring N) ops = queue_run N (0%nat, []) ops.
Proof.
  intros HN. pose proof (new_ring_ok N HN) as Hok. revert Hok. generalize (new_ring N) 0%nat (@nil A). induction ops as [|o ops IH]; intros rb base q Hok; cbn [ring_run queue_run]; [done|].
  destruct (ring_do_ok _ _ _ _ o Hok) as (rb' & [base' q'] & r & -> & -> & Hok'). f_equal. by apply IH.
Qed.
End ring.

Lemma ring_is_queue_witness :
  ring_run (new_ring 3) [RAdd 7; RAdd 8; RPop; RAddAt 9 2; RAddAt 9 2; RAdd 6; RFull; RPre 3; RBack; RPop; RFront]
  = [ResBool true; ResBool true; ResElem (Some 7); ResBool true; ResBool false; ResBool true; ResBool true; ResElem (Some 9); ResElem (Some 6); ResElem (Some 8); ResElem (Some 9)].
Proof. rewrite (ring_is_queue 3) by lia. reflexivity. Defined.
