(* ===== verification/Forward.v ===== *)
(** * From the clients to the servers and back

    [GR_AccessEvent] (proxy/accesslayer.cpp) is a client's connection,
    [GR_RedisEvent] (proxy/redisevent.cpp) the connection to a server, and a
    [GR_MsgIdenty] (proxy/redismsg.cpp) stands for a request: it waits in the ring
    of its client and, once forwarded, in the ring of the server as well, and is
    recycled when it has left both.  Here is what the two classes do with whole
    messages; the reading of the messages is in Readstream and Reqkey.

    Objects are numbers: clients, servers, identities.  A message is its bytes.
    The block of a reply belongs to the identity that has it in [pData] until the
    identity is recycled, and so does the block of a request in [pReqData], unless
    the client's [StartNext] gives it back while the identity still has it, which
    [bReqFreed] says.  A static message has no block to give back.  [NA] and [NR] are [MAX_WAIT_RING_LEN] (4095) and
    [MAX_REDIS_MSG_IDENTY_POOL] (65535).  [Panic] is a failed [ASSERT], the use
    of an object that has been deleted, or the second release of a block, which
    the pool then hands out twice (Mempool). *)

From S2P Require Import Prelude Ringbuffer.

Record MsgIdenty := mkIdenty {
  pAccessEvent : option nat;
  pRedisEvent : option nat;
  ulIndex : Z;
  iPreGood : bool;
  iWaitRsp : bool;
  iWaitDone : bool;
  iNeedWaitNum : Z;
  iGotNum : Z;
  pData : option bytes;
  pReqData : option bytes;
  bReqFreed : bool
}.

(** A new identity, and one set to zero. *)
Definition new_identy : MsgIdenty := mkIdenty None None 0 false false false 1 0 None None false.
Definition zero_identy : MsgIdenty := mkIdenty None None 0 false false false 0 0 None None false.

Definition set_access v x := mkIdenty v (pRedisEvent x) (ulIndex x) (iPreGood x) (iWaitRsp x) (iWaitDone x) (iNeedWaitNum x) (iGotNum x) (pData x) (pReqData x) (bReqFreed x).
Definition set_redis v x := mkIdenty (pAccessEvent x) v (ulIndex x) (iPreGood x) (iWaitRsp x) (iWaitDone x) (iNeedWaitNum x) (iGotNum x) (pData x) (pReqData x) (bReqFreed x).
Definition set_index v x := mkIdenty (pAccessEvent x) (pRedisEvent x) v (iPreGood x) (iWaitRsp x) (iWaitDone x) (iNeedWaitNum x) (iGotNum x) (pData x) (pReqData x) (bReqFreed x).
Definition set_good x := mkIdenty (pAccessEvent x) (pRedisEvent x) (ulIndex x) true (iWaitRsp x) (iWaitDone x) (iNeedWaitNum x) (iGotNum x) (pData x) (pReqData x) (bReqFreed x).
Definition set_wait x := mkIdenty (pAccessEvent x) (pRedisEvent x) (ulIndex x) (iPreGood x) true (iWaitDone x) (iNeedWaitNum x) (iGotNum x) (pData x) (pReqData x) (bReqFreed x).
Definition set_done x := mkIdenty (pAccessEvent x) (pRedisEvent x) (ulIndex x) (iPreGood x) (iWaitRsp x) true (iNeedWaitNum x) (iGotNum x) (pData x) (pReqData x) (bReqFreed x).
Definition set_need v x := mkIdenty (pAccessEvent x) (pRedisEvent x) (ulIndex x) (iPreGood x) (iWaitRsp x) (iWaitDone x) v (iGotNum x) (pData x) (pReqData x) (bReqFreed x).
Definition add_got x := mkIdenty (pAccessEvent x) (pRedisEvent x) (ulIndex x) (iPreGood x) (iWaitRsp x) (iWaitDone x) (iNeedWaitNum x) (u16 (iGotNum x + 1)) (pData x) (pReqData x) (bReqFreed x).
Definition set_data v x := mkIdenty (pAccessEvent x) (pRedisEvent x) (ulIndex x) (iPreGood x) (iWaitRsp x) (iWaitDone x) (iNeedWaitNum x) (iGotNum x) v (pReqData x) (bReqFreed x).
Definition set_req v x := mkIdenty (pAccessEvent x) (pRedisEvent x) (ulIndex x) (iPreGood x) (iWaitRsp x) (iWaitDone x) (iNeedWaitNum x) (iGotNum x) (pData x) v (bReqFreed x).
Definition set_freed x := mkIdenty (pAccessEvent x) (pRedisEvent x) (ulIndex x) (iPreGood x) (iWaitRsp x) (iWaitDone x) (iNeedWaitNum x) (iGotNum x) (pData x) (pReqData x) true.

(** A client's connection; [a_write] says that the write event is asked for and
    [a_sent] is what has gone out on it. *)
Record access := mkAccess {
  a_ring : RingBuffer nat;
  a_ciov : list bytes;
  m_ulMsgIdenty : Z;
  a_write : bool;
  a_sent : bytes
}.

Inductive connect_status := GR_CONNECT_INIT | GR_CONNECT_CONNECTING | GR_CONNECT_CONNECTED | GR_CONNECT_CLOSED.

(** The connection to a server; [r_open] is [m_iFD > 0]. *)
Record redis := mkRedis {
  r_ring : RingBuffer nat;
  r_ciov : list bytes;
  m_lCiovReadIdx : Z;
  m_lCiovWriteIdx : Z;
  m_Status : connect_status;
  r_open : bool;
  r_write : bool;
  r_sent : bytes
}.

Record proxy := mkProxy {
  clients : gmap nat access;
  servers : gmap nat redis;
  idents : gmap nat MsgIdenty;
  m_pIdentyBuffer : RingBuffer nat;
  next_ident : nat
}.

Definition put_client p c a := mkProxy (<[c := a]> (clients p)) (servers p) (idents p) (m_pIdentyBuffer p) (next_ident p).
Definition put_server p s r := mkProxy (clients p) (<[s := r]> (servers p)) (idents p) (m_pIdentyBuffer p) (next_ident p).
Definition put_ident p i x := mkProxy (clients p) (servers p) (<[i := x]> (idents p)) (m_pIdentyBuffer p) (next_ident p).

Definition look {A} (m : gmap nat A) (k : nat) : go A := match m !! k with Some x => Ret x | None => Panic end.

Definition upd_ident p i (f : MsgIdenty -> MsgIdenty) : go proxy :=
  let! x := look (idents p) i in Ret (put_ident p i (f x)).

Definition a_set_ring a v := mkAccess v (a_ciov a) (m_ulMsgIdenty a) (a_write a) (a_sent a).
Definition a_set_iov a i v := mkAccess (a_ring a) (<[i := v]> (a_ciov a)) (m_ulMsgIdenty a) (a_write a) (a_sent a).
Definition a_set_write a v := mkAccess (a_ring a) (a_ciov a) (m_ulMsgIdenty a) v (a_sent a).
Definition a_add_sent a v := mkAccess (a_ring a) (a_ciov a) (m_ulMsgIdenty a) (a_write a) (a_sent a ++ v).
Definition a_next a := mkAccess (a_ring a) (a_ciov a) (u64 (m_ulMsgIdenty a + 1)) (a_write a) (a_sent a).
Definition r_set_ring r v := mkRedis v (r_ciov r) (m_lCiovReadIdx r) (m_lCiovWriteIdx r) (m_Status r) (r_open r) (r_write r) (r_sent r).
Definition r_set_iov r i v := mkRedis (r_ring r) (<[i := v]> (r_ciov r)) (m_lCiovReadIdx r) (m_lCiovWriteIdx r) (m_Status r) (r_open r) (r_write r) (r_sent r).
Definition r_set_idx r i j := mkRedis (r_ring r) (r_ciov r) i j (m_Status r) (r_open r) (r_write r) (r_sent r).
Definition r_set_status r v := mkRedis (r_ring r) (r_ciov r) (m_lCiovReadIdx r) (m_lCiovWriteIdx r) v (r_open r) (r_write r) (r_sent r).
Definition r_set_write r v := mkRedis (r_ring r) (r_ciov r) (m_lCiovReadIdx r) (m_lCiovWriteIdx r) (m_Status r) (r_open r) v (r_sent r).
Definition r_add_sent r v := mkRedis (r_ring r) (r_ciov r) (m_lCiovReadIdx r) (m_lCiovWriteIdx r) (m_Status r) (r_open r) (r_write r) (r_sent r ++ v).

(** The replies of the proxy itself ([GetErrMsg]). *)
Inductive redis_err := REDIS_RSP_PONG | REDIS_RSP_COMM_ERR | REDIS_RSP_DISCONNECT | REDIS_RSP_UNSPPORT_CMD | REDIS_REQ_TO_LARGE.
Definition GetErrMsg (e : redis_err) : bytes :=
  match e with
  | REDIS_RSP_PONG => str "+PONG" ++ [13; 10]
  | REDIS_RSP_COMM_ERR => str "-inner error happend" ++ [13; 10]
  | REDIS_RSP_DISCONNECT => str "-redis disconnect" ++ [13; 10]
  | REDIS_RSP_UNSPPORT_CMD => str "-ERR unspport command" ++ [13; 10]
  | REDIS_REQ_TO_LARGE => str "-ERR request is too large" ++ [13; 10]
  end.

(** What a [writev] does: take at most [m + 1] bytes, find no room, or fail.  It
    takes at least a byte if there is one and it does not fail. *)
Inductive wres := WTake (m : nat) | WAgain | WFail.

(** [DoSendv]: the return value and the bytes that go out.  At most 512 pieces
    are given to a call. *)
Definition DoSendv (iov : list bytes) (w : wres) : Z * bytes :=
  match w with
  | WTake m => let b := take (S m) (concat (take 512 iov)) in (zlen b, b)
  | WAgain => (-2, [])
  | WFail => (-1, [])
  end.

Inductive send_res := SendOk | SendAgain | SendErr.

Section pipeline.
Context (NA NR : nat).
Implicit Types (p : proxy) (c s i : nat).

Definition iov_slot (N : nat) (k : Z) : nat := Z.to_nat (k mod Z.of_nat N).

(** ** Identities *)

Definition id_Get p : go (proxy * nat) :=
  let (rb, o) := PopFront (m_pIdentyBuffer p) in
  match o with
  | Some i =>
      let! x := look (idents p) i in
      if bool_decide (pData x = None /\ pReqData x = None) then Ret (mkProxy (clients p) (servers p) (idents p) rb (next_ident p), i) else Panic
  | None => Ret (mkProxy (clients p) (servers p) (<[next_ident p := new_identy]> (idents p)) rb (S (next_ident p)), next_ident p)
  end.

(** The blocks of the identity are released with it. *)
Definition pool_Release p i : go proxy :=
  let! x := look (idents p) i in
  if bool_decide (pReqData x <> None) && bReqFreed x then Panic
  else
    Ret (match AddData (m_pIdentyBuffer p) i with
         | None => mkProxy (clients p) (servers p) (delete i (idents p)) (m_pIdentyBuffer p) (next_ident p)
         | Some rb => mkProxy (clients p) (servers p) (<[i := zero_identy]> (idents p)) rb (next_ident p)
         end).

Inductive release := ACCESS_RELEASE | REDIS_RELEASE.

Definition id_Release p i (who : release) : go proxy :=
  let! x := look (idents p) i in
  if bool_decide (pAccessEvent x = None /\ pRedisEvent x = None) then Panic
  else
    let x := match who with ACCESS_RELEASE => set_access None x | REDIS_RELEASE => set_redis None x end in
    let p := put_ident p i x in
    if bool_decide (pAccessEvent x = None /\ pRedisEvent x = None) then pool_Release p i else Ret p.

(** ** Replies *)

Definition DoReply p c (data : bytes) i : go proxy :=
  let! p := upd_ident p i add_got in
  let! x := look (idents p) i in
  if (1 <? iNeedWaitNum x) && (iGotNum x <? iNeedWaitNum x) then Ret p
  else
    let p := put_ident p i (set_done x) in
    let! a := look (clients p) c in
    let a := a_set_iov a (iov_slot NA (ulIndex x)) data in
    let! b := match GetPre (a_ring a) (ulIndex x) with
              | None => Ret true
              | Some j => let! y := look (idents p) j in Ret (negb (iWaitRsp y) || iWaitDone y || iPreGood y)
              end in
    Ret (put_client p c (if b then a_set_write a true else a)).

(** The two [GetReply] of [GR_AccessEvent]. *)
Definition GetReply_err p c (e : redis_err) i : go proxy :=
  let! p := upd_ident p i (set_data None) in DoReply p c (GetErrMsg e) i.

Definition GetReply p c (data : bytes) i : go proxy :=
  let! p := upd_ident p i (set_data (Some data)) in DoReply p c data i.

(** [ReplyError] and [GetReply] of [GR_MsgIdenty]. *)
Definition id_ReplyError p i (e : redis_err) : go proxy :=
  let! x := look (idents p) i in
  match pAccessEvent x with None => Ret p | Some c => GetReply_err p c e i end.

Definition id_GetReply p i (data : bytes) : go proxy :=
  let! x := look (idents p) i in
  match pAccessEvent x with None => Ret p | Some c => GetReply p c data i end.

(** ** A server's connection *)

Definition ConnectOK (r : redis) : bool :=
  match m_Status r with GR_CONNECT_CONNECTING | GR_CONNECT_CONNECTED => true | _ => false end.

Definition SendMsg p s (data : bytes) i : go proxy :=
  let! p := upd_ident p i (set_req (Some data)) in
  let! r := look (servers p) s in
  if negb (ConnectOK r) then id_ReplyError p i REDIS_RSP_DISCONNECT
  else if u64 (m_lCiovWriteIdx r - m_lCiovReadIdx r) =? Z.of_nat NR then Panic
  else match AddData (r_ring r) i with
  | None => Panic
  | Some rb =>
      let! p := upd_ident p i (set_redis (Some s)) in
      let iIdx := iov_slot NR (m_lCiovWriteIdx r) in
      let w := u64 (m_lCiovWriteIdx r + 1) in
      if (m_lCiovReadIdx r <? w) && (w - m_lCiovReadIdx r <=? Z.of_nat NR) then
        let (rd, w) := if 0xFFFFFFF <? w then (m_lCiovReadIdx r mod Z.of_nat NR, m_lCiovReadIdx r mod Z.of_nat NR + (w - m_lCiovReadIdx r)) else (m_lCiovReadIdx r, w) in
        Ret (put_server p s (r_set_write (r_set_iov (r_set_idx (r_set_ring r rb) rd w) iIdx data) true))
      else Panic
  end.

(** [Close] without the reconnection: whoever waits gets an error. *)
Fixpoint fail_all (n : nat) p s : go proxy :=
  match n with
  | O => Ret p
  | S n =>
      let! r := look (servers p) s in
      let (rb, o) := PopFront (r_ring r) in
      match o with
      | None => Ret p
      | Some i =>
          let! p := id_ReplyError (put_server p s (r_set_ring r rb)) i REDIS_RSP_DISCONNECT in
          let! p := id_Release p i REDIS_RELEASE in
          fail_all n p s
      end
  end.

Definition redis_Close p s : go proxy :=
  let! r := look (servers p) s in
  if negb (r_open r) then Ret p
  else fail_all (S (GetNum (r_ring r))) (put_server p s (mkRedis (r_ring r) (r_ciov r) (m_lCiovReadIdx r) (m_lCiovWriteIdx r) GR_CONNECT_CLOSED false false (r_sent r))) s.

(** [ReInit], and a [ConnectToRedis] whose connection is on its way. *)
Definition redis_ReConnect p s : go proxy :=
  let! r := look (servers p) s in
  if r_open r then Ret p
  else Ret (put_server p s (mkRedis (ring_ReInit (r_ring r)) (r_ciov r) 0 0 GR_CONNECT_CONNECTING true true [])).

(** The pieces that have gone out are passed over; a piece that has gone out in
    part keeps the rest. *)
Fixpoint r_sent_off (k : nat) (r : redis) (at_ : nat) (n : Z) : redis * send_res :=
  match k with
  | O => (r_set_write r false, SendOk)
  | S k =>
      let d := default [] (r_ciov r !! at_) in
      if n - zlen d <? 0 then
        (if zlen d - n =? zlen d then r else r_set_iov r at_ (drop (Z.to_nat n) d), SendAgain)
      else r_sent_off k (r_set_idx r (u64 (m_lCiovReadIdx r + 1)) (m_lCiovWriteIdx r)) (S at_) (n - zlen d)
  end.

Definition redis_Sendv p s (iov nsend : nat) (w : wres) : go (proxy * send_res) :=
  if (nsend =? 0)%nat then Panic
  else
    let! r := look (servers p) s in
    let (iSendRet, out) := DoSendv (take nsend (drop iov (r_ciov r))) w in
    if iSendRet <? 0 then
      if iSendRet =? -2 then Ret (p, SendAgain) else let! p := redis_Close p s in Ret (p, SendErr)
    else if iSendRet =? 0 then Ret (p, SendOk)
    else let (r, res) := r_sent_off nsend (r_add_sent r out) iov iSendRet in Ret (put_server p s r, res).

Definition w_nth (ws : list wres) (k : nat) : wres := default WAgain (ws !! k).

(** [ws] is what the calls of [writev] do, [ok] whether the connection has come
    about, if that is not known yet. *)
Definition redis_Write p s (ok : bool) (ws : list wres) : go (proxy * send_res) :=
  let! r := look (servers p) s in
  let! (p, b) := match m_Status r with
                 | GR_CONNECT_CONNECTING =>
                     if ok then Ret (put_server p s (r_set_status r GR_CONNECT_CONNECTED), true)
                     else let! p := redis_Close p s in Ret (p, false)
                 | _ => Ret (p, true)
                 end in
  if negb b then Ret (p, SendErr)
  else
    let! r := look (servers p) s in
    let rd := m_lCiovReadIdx r in
    let wr := m_lCiovWriteIdx r in
    if negb ((rd <=? wr) && (wr - rd <=? Z.of_nat NR)) then Panic
    else if wr =? rd then Ret (put_server p s (r_set_write r false), SendOk)
    else
      let iWriteIdx := iov_slot NR wr in
      let iReadIdx := iov_slot NR rd in
      if (iReadIdx <? iWriteIdx)%nat then redis_Sendv p s iReadIdx (iWriteIdx - iReadIdx) (w_nth ws 0)
      else
        let! (p, res) := redis_Sendv p s iReadIdx (NR - iReadIdx) (w_nth ws 0) in
        match res with
        | SendOk => if (iWriteIdx =? 0)%nat then Ret (p, SendOk) else redis_Sendv p s 0 iWriteIdx (w_nth ws 1)
        | _ => Ret (p, res)
        end.

(** What [ProcessMsg] of [GR_RedisEvent] does with a whole reply, if there is no
    cluster. *)
Definition on_reply p s (data : bytes) : go proxy :=
  let! r := look (servers p) s in
  let (rb, o) := PopFront (r_ring r) in
  match o with
  | None => Panic
  | Some i =>
      let! p := id_GetReply (put_server p s (r_set_ring r rb)) i data in
      id_Release p i REDIS_RELEASE
  end.

(** ** A client's connection *)

Definition new_access : access := mkAccess (new_ring NA) (replicate NA []) 0 false [].

(** The identities of a connection that closes have no client. *)
Fixpoint leave_all (n : nat) p c : go proxy :=
  match n with
  | O => Ret p
  | S n =>
      let! a := look (clients p) c in
      let (rb, o) := PopFront (a_ring a) in
      match o with
      | None => Ret p
      | Some i =>
          let! p := id_Release (put_client p c (a_set_ring a rb)) i ACCESS_RELEASE in
          leave_all n p c
      end
  end.

(** [Close]; the manager deletes the event. *)
Definition access_Close p c : go proxy :=
  let! a := look (clients p) c in
  let! p := leave_all (S (GetNum (a_ring a))) p c in
  Ret (mkProxy (delete c (clients p)) (servers p) (idents p) (m_pIdentyBuffer p) (next_ident p)).

Fixpoint a_sent_off (k : nat) p c (iov : nat) (n : Z) : go (proxy * send_res) :=
  match k with
  | O => Ret (p, SendOk)
  | S k =>
      let! a := look (clients p) c in
      let d := default [] (a_ciov a !! iov) in
      if n - zlen d <? 0 then
        Ret (if zlen d - n =? zlen d then p else put_client p c (a_set_iov a iov (drop (Z.to_nat n) d)), SendAgain)
      else
        let (rb, o) := PopFront (a_ring a) in
        match o with
        | None => Panic
        | Some i =>
            let! p := id_Release (put_client p c (a_set_ring a rb)) i ACCESS_RELEASE in
            a_sent_off k p c (S iov) (n - zlen d)
        end
  end.

Definition access_Sendv p c (iov nsend : nat) (w : wres) : go (proxy * send_res) :=
  if (nsend =? 0)%nat then Ret (p, SendOk)
  else
    let! a := look (clients p) c in
    let (iSendRet, out) := DoSendv (take nsend (drop iov (a_ciov a))) w in
    if iSendRet <=? 0 then
      if iSendRet =? -2 then Ret (p, SendAgain) else let! p := access_Close p c in Ret (p, SendErr)
    else a_sent_off nsend (put_client p c (a_add_sent a out)) c iov iSendRet.

(** The end of [Write]: what is ready is sent. *)
Definition flush p c (iStart iSendNum : nat) (w : wres) : go (proxy * send_res) :=
  if (iSendNum =? 0)%nat then Ret (p, SendOk)
  else
    let! (p, res) := access_Sendv p c iStart iSendNum w in
    match res with
    | SendOk => let! a := look (clients p) c in Ret (put_client p c (a_set_write a false), SendOk)
    | _ => Ret (p, res)
    end.

(** The loop of [Write], from the identity [i] on. *)
Fixpoint write_loop (k : nat) p c i (iStart iSendNum : nat) (ws : list wres) : go (proxy * send_res) :=
  match k with
  | O => flush p c iStart iSendNum (w_nth ws 0)
  | S k =>
      let! x := look (idents p) i in
      if negb (bool_decide (pAccessEvent x = Some c)) then Panic
      else
        let p := put_ident p i (set_good x) in
        if negb (iWaitDone x) then flush p c iStart iSendNum (w_nth ws 0)
        else
          let next p iStart iSendNum ulNextIndex ws :=
            let! a := look (clients p) c in
            match GetData (a_ring a) ulNextIndex with
            | None => flush p c iStart iSendNum (w_nth ws 0)
            | Some j => write_loop k p c j iStart iSendNum ws
            end in
          if (iov_slot NA (u64 (ulIndex x + 1)) =? 0)%nat then
            let! (p, res) := access_Sendv p c iStart (S iSendNum) (w_nth ws 0) in
            match res with
            | SendOk => next p 0%nat 0%nat 0 (drop 1 ws)
            | _ => Ret (p, res)
            end
          else next p iStart (S iSendNum) (u64 (ulIndex x + 1)) ws
  end.

Definition access_Write p c (ws : list wres) : go (proxy * send_res) :=
  let! a := look (clients p) c in
  match RB_GETFRONT (a_ring a) with
  | None => Ret (put_client p c (a_set_write a false), SendOk)
  | Some i =>
      let! x := look (idents p) i in
      write_loop (GetNum (a_ring a)) p c i (iov_slot NA (ulIndex x)) 0 ws
  end.

(** ** Requests *)

(** What is to be done with a request: answer it, forward it to a server (or to
    none), send a command to all the servers. *)
Inductive action :=
| AReply (e : redis_err)
| AData (data : bytes)
| ARoute (s : option nat) (data : bytes)
| ABroadcast (srv : list (option nat)) (data : bytes).

(** [Broadcast]; the servers that cannot be reached count as replies. *)
Fixpoint send_each p (srv : list (option nat)) (data : bytes) i : go proxy :=
  match srv with
  | [] => Ret p
  | None :: srv => let! p := upd_ident p i add_got in send_each p srv data i
  | Some s :: srv =>
      let! r := look (servers p) s in
      let! p := if ConnectOK r then SendMsg p s data i else upd_ident p i add_got in
      send_each p srv data i
  end.

Definition Broadcast p c (srv : list (option nat)) (data : bytes) i : go proxy :=
  let! p := upd_ident p i (set_need (u16 (zlen srv))) in
  let! p := send_each p srv data i in
  let! x := look (idents p) i in
  if iGotNum x =? iNeedWaitNum x then let! p := upd_ident p i (set_data None) in DoReply p c (GetErrMsg REDIS_RSP_COMM_ERR) i
  else Ret p.

(** The identity of the next request of the client. *)
Definition enqueue p c : go (proxy * nat) :=
  let! (p, i) := id_Get p in
  let! x := look (idents p) i in
  if negb (bool_decide (pData x = None /\ pReqData x = None /\ pAccessEvent x = None /\ pRedisEvent x = None)) then Panic
  else
    let! a := look (clients p) c in
    let p := put_ident p i (set_wait (set_index (m_ulMsgIdenty a) (set_access (Some c) x))) in
    match AddData_at (a_ring a) i (m_ulMsgIdenty a) with
    | None => Panic
    | Some rb => Ret (put_client p c (a_next (a_set_ring a rb)), i)
    end.

(** There is no server for the request: an error, and [StartNext] gives back the
    block that [pReqData] of the identity is. *)
Definition failed_route p c i : go proxy :=
  let! p := GetReply_err p c REDIS_RSP_DISCONNECT i in
  upd_ident p i set_freed.

(** What [ProcessMsg] of [GR_AccessEvent] does with a whole request; [None] if the
    client has too many requests waiting.  The end of each branch is [StartNext]:
    it gives back the block of the request, which the identity does not have if
    the proxy answers itself, or leaves it to the identity if the request has been
    sent.  When there is no server it gives back the block although the identity
    has it. *)
Definition on_request p c (act : action) : go (option proxy) :=
  let! a := look (clients p) c in
  if PoolFull (a_ring a) then Ret None
  else
    let! (p, i) := enqueue p c in
    let! p := match act with
              | AReply e => GetReply_err p c e i
              | AData data => GetReply p c data i
              | ARoute None data => let! p := upd_ident p i (set_req (Some data)) in failed_route p c i
              | ARoute (Some s) data =>
                  let! p := upd_ident p i (set_req (Some data)) in
                  let! r := look (servers p) s in
                  if r_open r then SendMsg p s data i else failed_route p c i
              | ABroadcast srv data => let! p := upd_ident p i (set_req (Some data)) in Broadcast p c srv data i
              end in
    Ret (Some p).
End pipeline.
