(* ===== verification/Forwardspec.v ===== *)
(** * What the proxy promises to its clients

    The specification keeps, for every client, the list of the answers to its
    requests in the order in which it has sent them, and for every server the
    list of the requests whose replies are still to come.  The invariant ties the
    rings, slots and identities of Forward to it. *)

From S2P Require Import Prelude Ringbuffer Forward.

(** ** The specification *)

(** A request is named by its client and its number. *)
Record sserver := mkSserver {
  up : bool;
  waiting : list (option (nat * nat));
  asked : list bytes
}.

Record spec := mkSpec {
  sc : gmap nat (list (option bytes));
  ss : gmap nat sserver
}.

(** The answer to a request; nobody may be there to get it. *)
Definition answer (t : option (nat * nat)) (d : bytes) (a : spec) : spec :=
  match t with
  | None => a
  | Some (c, j) => mkSpec (alter (fun l => <[j := Some d]> l) c (sc a)) (ss a)
  end.

Definition set_server (s : nat) (v : sserver) (a : spec) : spec := mkSpec (sc a) (<[s := v]> (ss a)).

Definition spec_accept (c : nat) (a : spec) : spec := mkSpec (<[c := []]> (sc a)) (ss a).

(** A request of the client [c]. *)
Definition spec_request (c : nat) (act : action) (a : spec) : spec :=
  let t := Some (c, length (default [] (sc a !! c))) in
  let a := mkSpec (alter (fun l => l ++ [None]) c (sc a)) (ss a) in
  match act with
  | AReply e => answer t (GetErrMsg e) a
  | AData d => answer t d a
  | ARoute None _ | ABroadcast _ _ => answer t (GetErrMsg REDIS_RSP_DISCONNECT) a
  | ARoute (Some s) d =>
      match ss a !! s with
      | Some v => if up v then set_server s (mkSserver true (waiting v ++ [t]) (asked v ++ [d])) a else answer t (GetErrMsg REDIS_RSP_DISCONNECT) a
      | None => a
      end
  end.

(** A server's reply is the answer to the oldest request it has not answered. *)
Definition spec_reply (s : nat) (d : bytes) (a : spec) : spec :=
  match ss a !! s with
  | Some v => match waiting v with
              | [] => a
              | t :: w => answer t d (set_server s (mkSserver (up v) w (asked v)) a)
              end
  | None => a
  end.

(** A client that leaves is forgotten. *)
Definition forget (c : nat) (t : option (nat * nat)) : option (nat * nat) :=
  match t with Some (c', j) => if decide (c' = c) then None else t | None => None end.
Definition spec_leave (c : nat) (a : spec) : spec :=
  mkSpec (delete c (sc a)) ((fun v => mkSserver (up v) (forget c <$> waiting v) (asked v)) <$> ss a).

(** A server that is lost answers every request with an error. *)
Definition spec_lose (s : nat) (a : spec) : spec :=
  match ss a !! s with
  | Some v =>
      if up v then set_server s (mkSserver false [] (asked v)) (foldl (fun a t => answer t (GetErrMsg REDIS_RSP_DISCONNECT) a) a (waiting v))
      else a
  | None => a
  end.

Definition spec_reconnect (s : nat) (a : spec) : spec :=
  match ss a !! s with
  | Some v => if up v then a else set_server s (mkSserver true [] []) a
  | None => a
  end.

(** The answers up to the first that is missing. *)
Fixpoint ready (l : list (option bytes)) : bytes :=
  match l with Some d :: l => d ++ ready l | _ => [] end.

(** ** The invariant *)

(** The request an identity stands for. *)
Definition target (x : MsgIdenty) : option (nat * nat) := (fun c => (c, Z.to_nat (ulIndex x))) <$> pAccessEvent x.

(** What is in the rings: the number of requests that are over and those that
    wait; for a client also what is left to send. *)
Abbreviation clients_info := (gmap nat (nat * list nat * list (option bytes))) (only parsing).
Abbreviation servers_info := (gmap nat (nat * list nat)) (only parsing).

Section inv.
Context (NA NR : nat).
Hypothesis NA_pos : (0 < NA)%nat.
Hypothesis NR_pos : (0 < NR)%nat.
Hypothesis NR_max : Z.of_nat NR <= 2 ^ 20.

(** The ring of a client: [b] requests are over, [q] are waiting, and [v] holds
    what is left to send of their answers. *)
Record client_ok (m : gmap nat MsgIdenty) (c : nat) (a : access) (b : nat) (q : list nat) (v : list (option bytes)) : Prop := {
  co_ring : rb_ok NA (a_ring a) b q;
  co_ciov : length (a_ciov a) = NA;
  co_next : m_ulMsgIdenty a = Z.of_nat (b + length q);
  co_lt : m_ulMsgIdenty a < 2 ^ 64;
  co_nodup : NoDup q;
  co_len : length v = length q;
  co_entry : forall k i, q !! k = Some i ->
    exists x, m !! i = Some x /\ pAccessEvent x = Some c /\ ulIndex x = Z.of_nat (b + k) /\ iWaitRsp x = true /\
      v !! k = Some (if iWaitDone x then a_ciov a !! ((b + k) mod NA)%nat else None)
}.

(** The pieces of requests that have not been sent to a server. *)
Definition unsent (r : redis) : list bytes :=
  (fun k => default [] (r_ciov r !! iov_slot NR (m_lCiovReadIdx r + Z.of_nat k))) <$> seq 0 (Z.to_nat (m_lCiovWriteIdx r - m_lCiovReadIdx r)).

Record server_ok (m : gmap nat MsgIdenty) (s : nat) (r : redis) (b : nat) (q : list nat) : Prop := {
  so_ring : rb_ok NR (r_ring r) b q;
  so_ciov : length (r_ciov r) = NR;
  so_idx : 0 <= m_lCiovReadIdx r <= m_lCiovWriteIdx r;
  so_num : m_lCiovWriteIdx r - m_lCiovReadIdx r <= Z.of_nat NR;
  so_max : m_lCiovWriteIdx r <= 0xFFFFFFF;
  so_nodup : NoDup q;
  so_open : ConnectOK r = r_open r;
  so_entry : forall i, i ∈ q -> exists x, m !! i = Some x /\ pRedisEvent x = Some s
}.


(** It waits for one reply, and nobody else gives back its blocks. *)
Definition plain (x : MsgIdenty) : Prop := iNeedWaitNum x <= 1 /\ bReqFreed x = false.

(** An identity is in the rings of its owners and not in others. *)
Record ident_ok (gc : clients_info) (gs : servers_info) (i : nat) (x : MsgIdenty) : Prop := {
  io_plain : plain x;
  io_client : forall c, pAccessEvent x = Some c -> exists b q v, gc !! c = Some (b, q, v) /\ i ∈ q;
  io_server : forall s, pRedisEvent x = Some s -> iWaitDone x = false /\ exists b q, gs !! s = Some (b, q) /\ i ∈ q
}.

Definition free_ok (m : gmap nat MsgIdenty) (rb : RingBuffer nat) : Prop :=
  exists fb fq, rb_ok NR rb fb fq /\ NoDup fq /\ forall i, i ∈ fq -> m !! i = Some zero_identy.

Record SI (p : proxy) (gc : clients_info) (gs : servers_info) : Prop := {
  si_dom_c : dom (clients p) = dom gc;
  si_dom_s : dom (servers p) = dom gs;
  si_c : forall c a b q v, clients p !! c = Some a -> gc !! c = Some (b, q, v) -> client_ok (idents p) c a b q v;
  si_s : forall s r b q, servers p !! s = Some r -> gs !! s = Some (b, q) -> server_ok (idents p) s r b q;
  si_own : forall i x, idents p !! i = Some x -> ident_ok gc gs i x;
  si_free : free_ok (idents p) (m_pIdentyBuffer p);
  si_fresh : forall i, (next_ident p <= i)%nat -> idents p !! i = None
}.

(** What is left of the answers: [part] of the first has been sent. *)
Definition left_of (part : bytes) (v l : list (option bytes)) : Prop :=
  match v with
  | Some d :: v' => l = Some (part ++ d) :: v'
  | _ => part = [] /\ l = v
  end.

(** The bytes sent to a client are those of its answers, [debt] being the bytes
    that have been sent and not yet passed over. *)
Definition sent_ok (l : list (option bytes)) (b : nat) (v : list (option bytes)) (sent debt : bytes) : Prop :=
  exists over part rest, l = (Some <$> over) ++ rest /\ length over = b /\ sent = concat over ++ part ++ debt /\ left_of part v rest.

(** If all that waits is answered then the write event is asked for. *)
Definition armed (a : access) (v : list (option bytes)) : Prop := v <> [] -> None ∉ v -> a_write a = true.

Definition client_spec (a : access) (b : nat) (v l : list (option bytes)) : Prop := sent_ok l b v (a_sent a) [] /\ armed a v.

(** The same for a server; no request is empty. *)
Definition asked_ok (l u : list bytes) (sent debt : bytes) : Prop :=
  Forall (fun d => d <> []) u /\ exists n, sent_ok (Some <$> l) n (Some <$> u) sent debt.

Definition server_spec (m : gmap nat MsgIdenty) (r : redis) (q : list nat) (v : sserver) : Prop :=
  up v = r_open r /\ Some <$> waiting v = (fun i => target <$> m !! i) <$> q /\ asked_ok (asked v) (unsent r) (r_sent r) [].

Record spec_ok (p : proxy) (gc : clients_info) (gs : servers_info) (a : spec) : Prop := {
  sp_dom_c : dom (sc a) = dom gc;
  sp_dom_s : dom (ss a) = dom gs;
  sp_c : forall c x b q v l, clients p !! c = Some x -> gc !! c = Some (b, q, v) -> sc a !! c = Some l -> client_spec x b v l;
  sp_s : forall s r b q v, servers p !! s = Some r -> gs !! s = Some (b, q) -> ss a !! s = Some v -> server_spec (idents p) r q v
}.

(** Nobody waits for a server that is lost. *)
Definition quiet (p : proxy) (gs : servers_info) : Prop :=
  forall s r b q, servers p !! s = Some r -> gs !! s = Some (b, q) -> r_open r = false -> q = [].

Record refine (p : proxy) (gc : clients_info) (gs : servers_info) (a : spec) : Prop := {
  rf_si : SI p gc gs;
  rf_spec : spec_ok p gc gs a;
  rf_quiet : quiet p gs
}.

Definition refines (p : proxy) (a : spec) : Prop := exists gc gs, refine p gc gs a.
End inv.
