(* ===== verification/Forwardinv.v ===== *)
(** * The rings and the identities

    The steps of Forward keep the invariant of Forwardspec: an identity is in the
    ring of its client until its answer has been sent, in the ring of its server
    until the reply has come, and free when it is in neither. *)

From S2P Require Import Prelude Ringbuffer Forward Forwardspec.

(** ** Slots and owners *)

Lemma iov_slot_nat N k : iov_slot N (Z.of_nat k) = (k mod N)%nat.
Proof. unfold iov_slot. rewrite <- Nat2Z.inj_mod. lia. Qed.

(** What is in a slot of a ring is in the queue. *)
Lemma slot_in {A} N (rb : RingBuffer A) b q t y : rb_ok N rb b q -> slot rb t = Some y -> y ∈ q.
Proof.
  intros H Hs. pose proof (rb_pos _ _ _ _ H) as HN. assert (t < N)%nat as Ht.
  { unfold slot in Hs. destruct (m_pWaitMsgPool rb !! t) eqn:E; [|done]. apply lookup_lt_Some in E. by rewrite <- (rb_len _ _ _ _ H). }
  assert (exists j, (j < N)%nat /\ ((b + j) mod N = t)%nat) as (j & Hj & Ej).
  { exists ((t + (N - b mod N)) mod N)%nat. pose proof (Nat.mod_upper_bound b N ltac:(lia)). split; [apply Nat.mod_upper_bound; lia|].
    rewrite Nat.Div0.add_mod_idemp_r, <- Nat.Div0.add_mod_idemp_l. replace (b mod N + (t + (N - b mod N)))%nat with (t + 1 * N)%nat by lia.
    rewrite Nat.Div0.mod_add. by apply Nat.mod_small. }
  rewrite <- Ej, (slot_at _ _ _ _ H) in Hs by done. by eapply list_elem_of_lookup_2.
Qed.

Lemma iov_slot_inj N k j : 0 <= k -> k < j < k + Z.of_nat N -> iov_slot N j <> iov_slot N k.
Proof.
  intros Hk Hj E. unfold iov_slot in E. pose proof (Z.mod_pos_bound j (Z.of_nat N) ltac:(lia)). pose proof (Z.mod_pos_bound k (Z.of_nat N) ltac:(lia)).
  assert (j mod Z.of_nat N = k mod Z.of_nat N) as E' by lia. pose proof (Z.div_mod j (Z.of_nat N) ltac:(lia)). pose proof (Z.div_mod k (Z.of_nat N) ltac:(lia)).
  assert (j / Z.of_nat N = k / Z.of_nat N) by nia. nia.
Qed.

Lemma iov_slot_lt N k : (0 < N)%nat -> (iov_slot N k < N)%nat.
Proof. intros HN. unfold iov_slot. pose proof (Z.mod_pos_bound k (Z.of_nat N) ltac:(lia)). lia. Qed.

Lemma owned_nonzero (x : MsgIdenty) (c : nat) : pAccessEvent x = Some c -> x <> zero_identy.
Proof. intros E ->. done. Qed.

Lemma served_nonzero (x : MsgIdenty) (s : nat) : pRedisEvent x = Some s -> x <> zero_identy.
Proof. intros E ->. done. Qed.

Section steps.
Context (NA NR : nat).
Hypothesis NA_pos : (0 < NA)%nat.
Hypothesis NR_pos : (0 < NR)%nat.
Hypothesis NR_max : Z.of_nat NR <= 2 ^ 20.
Implicit Types (p : proxy) (c s i : nat) (gc : clients_info) (gs : servers_info) (m : gmap nat MsgIdenty) (x : MsgIdenty).
Abbreviation client_ok := (client_ok NA).
Abbreviation server_ok := (server_ok NR).
Abbreviation SI := (SI NA NR).

(** ** What the invariant of a ring depends on *)

Definition same_client x x' : Prop :=
  pAccessEvent x' = pAccessEvent x /\ ulIndex x' = ulIndex x /\ iWaitRsp x' = iWaitRsp x /\ iWaitDone x' = iWaitDone x.

Lemma client_frame m m' c a b q v : client_ok m c a b q v ->
  (forall i x, i ∈ q -> m !! i = Some x -> exists x', m' !! i = Some x' /\ same_client x x') -> client_ok m' c a b q v.
Proof.
  intros H Hf. split; try apply H. intros k i Hk. destruct (co_entry _ _ _ _ _ _ _ H _ _ Hk) as (x & Hx & H1 & H2 & H3 & H4).
  destruct (Hf i x) as (x' & Hx' & E1 & E2 & E3 & E4); [by eapply list_elem_of_lookup_2|done|].
  exists x'. by rewrite E1, E2, E3, E4.
Qed.

Lemma server_frame m m' s r b q : server_ok m s r b q ->
  (forall i x, i ∈ q -> m !! i = Some x -> exists x', m' !! i = Some x' /\ pRedisEvent x' = pRedisEvent x) -> server_ok m' s r b q.
Proof.
  intros H Hf. split; try apply H. intros i Hi. destruct (so_entry _ _ _ _ _ _ H _ Hi) as (x & Hx & H1).
  destruct (Hf i x) as (x' & Hx' & E); [done..|]. exists x'. by rewrite E.
Qed.

(** Changing the identity [i], which the ring does not hold. *)
Lemma client_skip m m' c a b q v i : client_ok m c a b q v -> i ∉ q -> (forall j, j <> i -> m' !! j = m !! j) -> client_ok m' c a b q v.
Proof. intros H Hi Hm. eapply client_frame; [done|]. intros j x Hj Hx. exists x. rewrite Hm by (intros ->; done). done. Qed.

Lemma server_skip m m' s r b q i : server_ok m s r b q -> i ∉ q -> (forall j, j <> i -> m' !! j = m !! j) -> server_ok m' s r b q.
Proof. intros H Hi Hm. eapply server_frame; [done|]. intros j x Hj Hx. exists x. rewrite Hm by (intros ->; done). done. Qed.

Section with_inv.
Context p gc gs (H : SI p gc gs).

Lemma si_client c b q v : gc !! c = Some (b, q, v) -> exists a, clients p !! c = Some a /\ client_ok (idents p) c a b q v.
Proof.
  intros E. assert (is_Some (clients p !! c)) as [a Ha].
  { apply elem_of_dom. rewrite (si_dom_c _ _ _ _ _ H). by apply elem_of_dom_2 in E. }
  exists a. split; [done|]. by eapply si_c.
Qed.

Lemma si_server s b q : gs !! s = Some (b, q) -> exists r, servers p !! s = Some r /\ server_ok (idents p) s r b q.
Proof.
  intros E. assert (is_Some (servers p !! s)) as [a Ha].
  { apply elem_of_dom. rewrite (si_dom_s _ _ _ _ _ H). by apply elem_of_dom_2 in E. }
  exists a. split; [done|]. by eapply si_s.
Qed.

Lemma si_info_c c a : clients p !! c = Some a -> exists b q v, gc !! c = Some (b, q, v) /\ client_ok (idents p) c a b q v.
Proof.
  intros E. assert (is_Some (gc !! c)) as [[[b q] v] Hg].
  { apply elem_of_dom. rewrite <- (si_dom_c _ _ _ _ _ H). by apply elem_of_dom_2 in E. }
  exists b, q, v. split; [done|]. by eapply si_c.
Qed.

Lemma si_info_s s r : servers p !! s = Some r -> exists b q, gs !! s = Some (b, q) /\ server_ok (idents p) s r b q.
Proof.
  intros E. assert (is_Some (gs !! s)) as [[b q] Hg].
  { apply elem_of_dom. rewrite <- (si_dom_s _ _ _ _ _ H). by apply elem_of_dom_2 in E. }
  exists b, q. split; [done|]. by eapply si_s.
Qed.

(** The rings an identity is in are those of its owners. *)
Lemma si_in_client c b q v i x : gc !! c = Some (b, q, v) -> i ∈ q -> idents p !! i = Some x -> pAccessEvent x = Some c.
Proof.
  intros E Hi Hx. destruct (si_client _ _ _ _ E) as (a & _ & Hok). apply list_elem_of_lookup in Hi as [k Hk].
  destruct (co_entry _ _ _ _ _ _ _ Hok _ _ Hk) as (x' & Hx' & ? & _). congruence.
Qed.

Lemma si_in_server s b q i x : gs !! s = Some (b, q) -> i ∈ q -> idents p !! i = Some x -> pRedisEvent x = Some s.
Proof.
  intros E Hi Hx. destruct (si_server _ _ _ E) as (r & _ & Hok). destruct (so_entry _ _ _ _ _ _ Hok _ Hi) as (x' & Hx' & ?). congruence.
Qed.

(** A change of an identity that its rings do not see. *)
Lemma si_upd i x x' : idents p !! i = Some x -> pAccessEvent x <> None -> same_client x x' -> pRedisEvent x' = pRedisEvent x ->
  plain x' -> SI (put_ident p i x') gc gs.
Proof.
  intros Hx Hown Hs Hr Hn. pose proof Hs as (E1 & E2 & E3 & E4). split; cbn; try apply H.
  - intros c a b q v Hc Hg. eapply client_frame; [by eapply si_c|]. intros j y Hj Hy. destruct (decide (j = i)) as [->|Hne].
    + rewrite lookup_insert_eq. eexists. split; [done|]. congruence.
    + rewrite lookup_insert_ne by done. exists y. done.
  - intros s r b q Hc Hg. eapply server_frame; [by eapply si_s|]. intros j y Hj Hy. destruct (decide (j = i)) as [->|Hne].
    + rewrite lookup_insert_eq. eexists. split; [done|]. congruence.
    + rewrite lookup_insert_ne by done. exists y. done.
  - intros j y. destruct (decide (j = i)) as [->|Hne]; [rewrite lookup_insert_eq|rewrite lookup_insert_ne by done; apply H].
    intros [= <-]. pose proof (si_own _ _ _ _ _ H _ _ Hx) as Ho. split; [done| |]; rewrite ?E1, ?Hr, ?E4; apply Ho.
  - destruct (si_free _ _ _ _ _ H) as (fb & fq & H1 & H2 & H3). exists fb, fq. split_and!; [done..|]. intros j Hj.
    rewrite lookup_insert_ne; [by apply H3|]. intros <-. apply H3 in Hj. rewrite Hx in Hj. by simplify_eq.
  - intros j Hj. pose proof (si_fresh _ _ _ _ _ H j Hj). rewrite lookup_insert_ne; [done|]. intros <-. congruence.
Qed.

(** The bookkeeping of a connection. *)
Lemma si_set_client c b q v v' a' : gc !! c = Some (b, q, v) -> client_ok (idents p) c a' b q v' -> SI (put_client p c a') (<[c := (b, q, v')]> gc) gs.
Proof.
  intros Hg Hok. split; cbn; try apply H.
  - by rewrite !dom_insert_L, (si_dom_c _ _ _ _ _ H).
  - intros c1 a b1 q1 v1. destruct (decide (c1 = c)) as [->|Hne]; [rewrite !lookup_insert_eq|rewrite !lookup_insert_ne by done; apply H].
    by intros [= <-] [= <- <- <-].
  - intros j y Hj. pose proof (si_own _ _ _ _ _ H _ _ Hj) as Ho. split; try apply Ho. intros c1 Hc1. destruct (io_client _ _ _ _ Ho _ Hc1) as (b1 & q1 & v1 & F & Hin).
    destruct (decide (c1 = c)) as [->|Hne]; [rewrite lookup_insert_eq; simplify_eq; eauto 10|rewrite lookup_insert_ne by done; eauto 10].
Qed.

Lemma si_put_client c b q v a' : gc !! c = Some (b, q, v) -> client_ok (idents p) c a' b q v -> SI (put_client p c a') gc gs.
Proof. intros Hg Hok. rewrite <- (insert_id gc c (b, q, v)) by done. by eapply si_set_client. Qed.

Lemma si_put_server s b q r' : gs !! s = Some (b, q) -> server_ok (idents p) s r' b q -> SI (put_server p s r') gc gs.
Proof.
  intros Hg Hok. split; cbn; try apply H.
  - rewrite dom_insert_L, (si_dom_s _ _ _ _ _ H). apply elem_of_dom_2 in Hg. set_solver.
  - intros c1 a b1 q1. destruct (decide (c1 = s)) as [->|Hne]; [rewrite lookup_insert_eq|rewrite lookup_insert_ne by done; apply H].
    intros [= <-] E. by simplify_eq.
Qed.

(** An identity with an owner is not free. *)
Lemma not_free i x (fq : list nat) : idents p !! i = Some x -> x <> zero_identy -> (forall j, j ∈ fq -> idents p !! j = Some zero_identy) -> i ∉ fq.
Proof. intros Hx Hne Hf Hi. apply Hf in Hi. congruence. Qed.

(** The identities after [i] has been freed; it may have been deleted. *)
Definition freed i p' : Prop :=
  (forall j, j <> i -> idents p' !! j = idents p !! j) /\ (idents p' !! i = None \/ idents p' !! i = Some zero_identy) /\
  free_ok NR (idents p') (m_pIdentyBuffer p') /\ (next_ident p' = next_ident p).

Lemma pool_Release_ok i x x1 p1 : idents p !! i = Some x -> x <> zero_identy -> idents p1 !! i = Some x1 -> plain x1 ->
  (forall j, j <> i -> idents p1 !! j = idents p !! j) -> m_pIdentyBuffer p1 = m_pIdentyBuffer p -> next_ident p1 = next_ident p ->
  exists p', pool_Release p1 i = Ret p' /\ freed i p' /\ clients p' = clients p1 /\ servers p' = servers p1.
Proof.
  intros Hx Hne Hx1 [_ Hfr] Hm Hb Hn. destruct (si_free _ _ _ _ _ H) as (fb & fq & Hrb & Hnd & Hf). pose proof (not_free _ _ _ Hx Hne Hf) as Hni.
  unfold pool_Release, look. rewrite Hx1. cbn [go_bind]. rewrite Hfr, andb_false_r, Hb. eexists. split; [done|]. unfold freed. destruct (decide (length fq < NR)%nat) as [Hlt|Hge].
  - destruct (AddData_ok _ _ _ _ Hrb i Hlt) as (rb' & -> & Hrb'). cbn. split_and!; try done.
    + intros j Hj. rewrite lookup_insert_ne by done. by apply Hm.
    + right. apply lookup_insert_eq.
    + exists fb, (fq ++ [i]). split_and!; [done|apply NoDup_app; split_and!; [done|set_solver|apply NoDup_singleton]|].
      intros j [Hj| ->%list_elem_of_singleton]%elem_of_app; [|apply lookup_insert_eq].
      rewrite lookup_insert_ne by (intros ->; done). rewrite Hm by (intros ->; done). by apply Hf.
  - pose proof (rb_max _ _ _ _ Hrb). rewrite (AddData_full _ _ _ _ Hrb) by lia. cbn. split_and!; try done.
    + intros j Hj. rewrite lookup_delete_ne by done. by apply Hm.
    + left. apply lookup_delete_eq.
    + exists fb, fq. split_and!; [done..|]. intros j Hj. rewrite lookup_delete_ne by (intros ->; done). rewrite Hm by (intros ->; done). by apply Hf.
Qed.

Lemma freed_fresh i x p' : idents p !! i = Some x -> freed i p' -> forall j, (next_ident p' <= j)%nat -> idents p' !! j = None.
Proof.
  intros Hx (Hm & _ & _ & Hn) j Hj. rewrite Hn in Hj. pose proof (si_fresh _ _ _ _ _ H j Hj) as E. rewrite Hm; [done|]. intros ->. congruence.
Qed.

(** The rings keep all but [i]. *)
Definition keep_c i gc' : Prop := forall c b q v, gc !! c = Some (b, q, v) -> exists b' q' v', gc' !! c = Some (b', q', v') /\ forall j, j <> i -> j ∈ q -> j ∈ q'.
Definition keep_s i gs' : Prop := forall s b q, gs !! s = Some (b, q) -> exists b' q', gs' !! s = Some (b', q') /\ forall j, j <> i -> j ∈ q -> j ∈ q'.

Lemma keep_c_refl i : keep_c i gc.
Proof. intros c b q v E. eauto 10. Qed.

Lemma keep_s_refl i : keep_s i gs.
Proof. intros c b q E. eauto 10. Qed.

Lemma keep_c_insert i c b q v b' q' v' : gc !! c = Some (b, q, v) -> (forall j, j <> i -> j ∈ q -> j ∈ q') -> keep_c i (<[c := (b', q', v')]> gc).
Proof.
  intros E Hq c1 b1 q1 v1 E1. destruct (decide (c1 = c)) as [->|Hne]; [rewrite lookup_insert_eq; simplify_eq; eauto 10|rewrite lookup_insert_ne by done; eauto 10].
Qed.

Lemma keep_s_insert i s b q b' q' : gs !! s = Some (b, q) -> (forall j, j <> i -> j ∈ q -> j ∈ q') -> keep_s i (<[s := (b', q')]> gs).
Proof.
  intros E Hq c1 b1 q1 E1. destruct (decide (c1 = s)) as [->|Hne]; [rewrite lookup_insert_eq; simplify_eq; eauto 10|rewrite lookup_insert_ne by done; eauto 10].
Qed.

(** A step that is about the identity [i], seen from everything else. *)
Lemma si_step i p' gc' gs' :
  (forall j, j <> i -> idents p' !! j = idents p !! j) -> dom (clients p') = dom gc' -> dom (servers p') = dom gs' ->
  (forall c a b q v, clients p' !! c = Some a -> gc' !! c = Some (b, q, v) ->
    (clients p !! c = Some a /\ gc !! c = Some (b, q, v) /\ i ∉ q) \/ client_ok (idents p') c a b q v) ->
  (forall s r b q, servers p' !! s = Some r -> gs' !! s = Some (b, q) ->
    (servers p !! s = Some r /\ gs !! s = Some (b, q) /\ i ∉ q) \/ server_ok (idents p') s r b q) ->
  keep_c i gc' -> keep_s i gs' -> (forall x', idents p' !! i = Some x' -> ident_ok gc' gs' i x') ->
  free_ok NR (idents p') (m_pIdentyBuffer p') -> (forall j, (next_ident p' <= j)%nat -> idents p' !! j = None) -> SI p' gc' gs'.
Proof.
  intros Hm Hdc Hds Hc Hs Kc Ks Hi Hf Hn. split; try done.
  - intros c a b q v Hca Hg. destruct (Hc _ _ _ _ _ Hca Hg) as [(E1 & E2 & Hni)|]; [|done]. eapply client_skip; [by eapply si_c|done..].
  - intros c a b q Hca Hg. destruct (Hs _ _ _ _ Hca Hg) as [(E1 & E2 & Hni)|]; [|done]. eapply server_skip; [by eapply si_s|done..].
  - intros j y Hy. destruct (decide (j = i)) as [->|Hne]; [by apply Hi|]. rewrite Hm in Hy by done. pose proof (si_own _ _ _ _ _ H _ _ Hy) as Ho. split.
    + apply Ho.
    + intros c Hc'. destruct (io_client _ _ _ _ Ho _ Hc') as (b & q & v & E & Hin). destruct (Kc _ _ _ _ E) as (b' & q' & v' & E' & Hq). exists b', q', v'. auto.
    + intros s Hs'. destruct (io_server _ _ _ _ Ho _ Hs') as (Hd & b & q & E & Hin). split; [done|]. destruct (Ks _ _ _ E) as (b' & q' & E' & Hq). exists b', q'. auto.
Qed.

Lemma free_upd i x x' : idents p !! i = Some x -> x <> zero_identy -> free_ok NR (<[i := x']> (idents p)) (m_pIdentyBuffer p).
Proof.
  intros Hx Hne. destruct (si_free _ _ _ _ _ H) as (fb & fq & H1 & H2 & H3). exists fb, fq. split_and!; [done..|]. intros j Hj.
  rewrite lookup_insert_ne; [by apply H3|]. intros <-. apply H3 in Hj. congruence.
Qed.

Lemma fresh_upd i x x' j : idents p !! i = Some x -> (next_ident p <= j)%nat -> <[i := x']> (idents p) !! j = None.
Proof. intros Hx Hj. pose proof (si_fresh _ _ _ _ _ H j Hj). rewrite lookup_insert_ne; [done|]. intros <-. congruence. Qed.

(** The first identity of a client leaves its ring. *)
Lemma client_pop m' c a rb b i q v0 v : client_ok (idents p) c a b (i :: q) (v0 :: v) -> rb_ok NA rb (S b) q ->
  (forall j, j <> i -> m' !! j = idents p !! j) -> client_ok m' c (a_set_ring a rb) (S b) q v.
Proof.
  intros Hok Hrb Hm. pose proof (co_nodup _ _ _ _ _ _ _ Hok) as [Hni Hnd]%NoDup_cons. pose proof (co_len _ _ _ _ _ _ _ Hok) as Hl. cbn in Hl.
  split; cbn; try done; try lia.
  - apply Hok.
  - rewrite (co_next _ _ _ _ _ _ _ Hok). cbn. lia.
  - apply Hok.
  - intros k j Hk. destruct (co_entry _ _ _ _ _ _ _ Hok (S k) j Hk) as (x & Hx & H1 & H2 & H3 & H4). exists x.
    rewrite Hm by (intros ->; apply Hni; by eapply list_elem_of_lookup_2). replace (S (b + k)) with (b + S k)%nat by lia. done.
Qed.

Lemma freed_ident_ok i p' gc' gs' x' : freed i p' -> idents p' !! i = Some x' -> ident_ok gc' gs' i x'.
Proof. intros (_ & [E|E] & _) E'; rewrite E in E'; simplify_eq. split; cbn; [by split|done..]. Qed.

(** ** The first request of a client is over *)
Lemma pop_client c a b i q v0 v : gc !! c = Some (b, i :: q, v0 :: v) -> clients p !! c = Some a ->
  exists rb x p', PopFront (a_ring a) = (rb, Some i) /\ idents p !! i = Some x /\ pAccessEvent x = Some c /\
    id_Release (put_client p c (a_set_ring a rb)) i ACCESS_RELEASE = Ret p' /\ SI p' (<[c := (S b, q, v)]> gc) gs /\
    clients p' = <[c := a_set_ring a rb]> (clients p) /\ servers p' = servers p /\ (forall j, j <> i -> idents p' !! j = idents p !! j) /\
    (pRedisEvent x <> None -> idents p' !! i = Some (set_access None x)).
Proof.
  intros Hg Ha. pose proof (si_c _ _ _ _ _ H _ _ _ _ _ Ha Hg) as Hok. destruct (PopFront_cons _ _ _ _ (co_ring _ _ _ _ _ _ _ Hok) i q eq_refl) as (rb & Hpop & Hrb).
  destruct (co_entry _ _ _ _ _ _ _ Hok 0%nat i eq_refl) as (x & Hx & Hacc & _). exists rb, x. pose proof (owned_nonzero _ _ Hacc) as Hnz.
  assert (forall m', (forall j, j <> i -> m' !! j = idents p !! j) -> forall c1 a1 b1 q1 v1, <[c := a_set_ring a rb]> (clients p) !! c1 = Some a1 ->
    <[c := (S b, q, v)]> gc !! c1 = Some (b1, q1, v1) -> (clients p !! c1 = Some a1 /\ gc !! c1 = Some (b1, q1, v1) /\ i ∉ q1) \/ client_ok m' c1 a1 b1 q1 v1) as Hcl.
  { intros m' Hm c1 a1 b1 q1 v1. destruct (decide (c1 = c)) as [->|Hne]; [rewrite !lookup_insert_eq|rewrite !lookup_insert_ne by done].
    - intros [= <-] [= <- <- <-]. right. by eapply client_pop.
    - intros E1 E2. left. split_and!; [done..|]. intros Hi. pose proof (si_in_client _ _ _ _ _ _ E2 Hi Hx). congruence. }
  assert (keep_c i (<[c := (S b, q, v)]> gc)) as Hk by (eapply keep_c_insert; [done|set_solver]).
  assert (dom (<[c := a_set_ring a rb]> (clients p)) = dom (<[c := (S b, q, v)]> gc)) as Hd by (rewrite !dom_insert_L, (si_dom_c _ _ _ _ _ H); done).
  pose proof (si_own _ _ _ _ _ H _ _ Hx) as Ho.
  unfold id_Release, look. cbn [idents put_client]. rewrite Hx. cbn [go_bind]. rewrite bool_decide_false by (rewrite Hacc; naive_solver).
  cbn [set_access pAccessEvent pRedisEvent]. destruct (pRedisEvent x) as [s|] eqn:Er.
  - rewrite bool_decide_false by naive_solver. eexists. split_and!; try done.
    + eapply (si_step i); cbn; try done; try apply H.
      * intros j Hj. by rewrite lookup_insert_ne.
      * apply Hcl. intros j Hj. by rewrite lookup_insert_ne.
      * intros s1 r b1 q1 E1 E2. right. eapply server_frame; [by eapply si_s|]. intros j y Hj Hy. destruct (decide (j = i)) as [->|Hne];
          [rewrite lookup_insert_eq|rewrite lookup_insert_ne by done]; eexists; (split; [done|]); cbn; congruence.
      * apply keep_s_refl.
      * rewrite lookup_insert_eq. intros x' [= <-]. split; cbn; [apply Ho|done|apply Ho].
      * by eapply free_upd.
      * intros j. by eapply fresh_upd.
    + cbn. intros j Hj. by rewrite lookup_insert_ne.
    + intros _. apply lookup_insert_eq.
  - rewrite bool_decide_true by done. destruct (pool_Release_ok i x (set_access None x) (put_ident (put_client p c (a_set_ring a rb)) i (set_access None x))) as (p' & -> & Hfr & E1 & E2);
      [done|done|apply lookup_insert_eq|apply Ho|cbn; intros j Hj; by rewrite lookup_insert_ne|done|done|].
    exists p'. split_and!; try done; [|apply Hfr]. eapply (si_step i); rewrite ?E1, ?E2; cbn; try done; try apply H; try apply Hfr.
    + apply Hcl, Hfr.
    + intros s1 r b1 q1 F1 F2. left. split_and!; [done..|]. intros Hi. pose proof (si_in_server _ _ _ _ _ F2 Hi Hx). congruence.
    + apply keep_s_refl.
    + intros x'. by apply freed_ident_ok.
    + by eapply freed_fresh.
Qed.

(** ** The first request of a server is answered *)

Lemma server_pop m' s r rb b i q : server_ok (idents p) s r b (i :: q) -> rb_ok NR rb (S b) q ->
  (forall j, j <> i -> m' !! j = idents p !! j) -> server_ok m' s (r_set_ring r rb) (S b) q.
Proof.
  intros Hok Hrb Hm. pose proof (so_nodup _ _ _ _ _ _ Hok) as [Hni Hnd]%NoDup_cons. split; cbn; try apply Hok; try done.
  - intros j Hj. rewrite Hm by (intros ->; done). apply (so_entry _ _ _ _ _ _ Hok). by apply list_elem_of_further.
Qed.

Lemma server_rest m' s r rb b i q s1 r1 b1 q1 x : gs !! s = Some (b, i :: q) -> servers p !! s = Some r -> rb_ok NR rb (S b) q -> idents p !! i = Some x ->
  (forall j, j <> i -> m' !! j = idents p !! j) -> <[s := r_set_ring r rb]> (servers p) !! s1 = Some r1 -> <[s := (S b, q)]> gs !! s1 = Some (b1, q1) ->
  (servers p !! s1 = Some r1 /\ gs !! s1 = Some (b1, q1) /\ i ∉ q1) \/ server_ok m' s1 r1 b1 q1.
Proof.
  intros Hg Hr Hrb Hx Hm. destruct (decide (s1 = s)) as [->|Hne]; [rewrite !lookup_insert_eq|rewrite !lookup_insert_ne by done].
  - intros [= <-] [= <- <-]. right. eapply server_pop; [by eapply si_s|done..].
  - intros E1 E2. left. split_and!; [done..|]. intros Hi. pose proof (si_in_server _ _ _ _ _ E2 Hi Hx).
    assert (pRedisEvent x = Some s) by (eapply si_in_server; [done| |done]; set_solver). congruence.
Qed.

(** The client is still there. *)
Lemma detach_ok s r rb b i q x c : gs !! s = Some (b, i :: q) -> servers p !! s = Some r -> rb_ok NR rb (S b) q -> idents p !! i = Some x ->
  pAccessEvent x = Some c -> SI (put_ident (put_server p s (r_set_ring r rb)) i (set_redis None x)) gc (<[s := (S b, q)]> gs).
Proof.
  intros Hg Hr Hrb Hx Hacc. pose proof (si_own _ _ _ _ _ H _ _ Hx) as Ho. eapply (si_step i); cbn; try apply H.
  - intros j Hj. by rewrite lookup_insert_ne.
  - by rewrite !dom_insert_L, (si_dom_s _ _ _ _ _ H).
  - intros c1 a1 b1 q1 v1 E1 E2. right. eapply client_frame; [by eapply si_c|]. intros j y Hj Hy. destruct (decide (j = i)) as [->|Hne];
      [rewrite lookup_insert_eq|rewrite lookup_insert_ne by done]; eexists; (split; [done|]); simplify_eq; done.
  - intros s1 r1 b1 q1. eapply server_rest; try done. intros j Hj. by rewrite lookup_insert_ne.
  - apply keep_c_refl.
  - eapply keep_s_insert; [done|set_solver].
  - rewrite lookup_insert_eq. intros x' [= <-]. split; cbn; [apply Ho|apply Ho|done].
  - eapply free_upd; [done|]. by eapply owned_nonzero.
  - intros j. by eapply fresh_upd.
Qed.

(** The client has gone. *)
Lemma drop_ok s r rb b i q x : gs !! s = Some (b, i :: q) -> servers p !! s = Some r -> rb_ok NR rb (S b) q -> idents p !! i = Some x ->
  pAccessEvent x = None -> exists p', id_Release (put_server p s (r_set_ring r rb)) i REDIS_RELEASE = Ret p' /\ SI p' gc (<[s := (S b, q)]> gs) /\
    clients p' = clients p /\ servers p' = <[s := r_set_ring r rb]> (servers p) /\ (forall j, j <> i -> idents p' !! j = idents p !! j).
Proof.
  intros Hg Hr Hrb Hx Hacc. assert (pRedisEvent x = Some s) as Hs by (eapply si_in_server; [done| |done]; set_solver).
  unfold id_Release, look. cbn [idents put_server]. rewrite Hx. cbn [go_bind]. rewrite bool_decide_false by (rewrite Hs; naive_solver).
  cbn [set_redis pAccessEvent pRedisEvent]. rewrite bool_decide_true by done.
  destruct (pool_Release_ok i x (set_redis None x) (put_ident (put_server p s (r_set_ring r rb)) i (set_redis None x))) as (p' & -> & Hfr & E1 & E2);
    [done|by eapply served_nonzero|apply lookup_insert_eq|apply (si_own _ _ _ _ _ H _ _ Hx)|cbn; intros j Hj; by rewrite lookup_insert_ne|done|done|].
  exists p'. split_and!; try done; [|apply Hfr]. eapply (si_step i); rewrite ?E1, ?E2; cbn; try apply H; try apply Hfr.
  - by rewrite !dom_insert_L, (si_dom_s _ _ _ _ _ H).
  - intros c1 a1 b1 q1 v1 F1 F2. left. split_and!; [done..|]. intros Hi. pose proof (si_in_client _ _ _ _ _ _ F2 Hi Hx). congruence.
  - intros s1 r1 b1 q1. eapply server_rest; try done. apply Hfr.
  - apply keep_c_refl.
  - eapply keep_s_insert; [done|set_solver].
  - intros x'. by apply freed_ident_ok.
  - by eapply freed_fresh.
Qed.
End with_inv.

(** ** An answer arrives *)

Lemma client_done m c a b q v k i x x' d w : client_ok m c a b q v -> q !! k = Some i -> m !! i = Some x ->
  pAccessEvent x' = Some c -> ulIndex x' = ulIndex x -> iWaitRsp x' = iWaitRsp x -> iWaitDone x' = true ->
  client_ok (<[i := x']> m) c (a_set_write (a_set_iov a ((b + k) mod NA)%nat d) w) b q (<[k := Some d]> v).
Proof.
  intros Hok Hk Hx E1 E2 E3 E4. pose proof (co_nodup _ _ _ _ _ _ _ Hok) as Hnd. pose proof (rb_max _ _ _ _ (co_ring _ _ _ _ _ _ _ Hok)) as Hmax.
  pose proof (lookup_lt_Some _ _ _ Hk) as Hlt. split; cbn; rewrite ?length_insert; try apply Hok. intros k1 i1 Hk1.
  destruct (co_entry _ _ _ _ _ _ _ Hok k1 i1 Hk1) as (y & Hy & F1 & F2 & F3 & F4). destruct (decide (k1 = k)) as [->|Hne].
  - assert (i1 = i) as -> by congruence. assert (y = x) as -> by congruence. exists x'. rewrite lookup_insert_eq, E4, E2, E3. split_and!; try done.
    rewrite !list_lookup_insert_eq; [done| |by rewrite (co_len _ _ _ _ _ _ _ Hok)]. rewrite (co_ciov _ _ _ _ _ _ _ Hok). apply Nat.mod_upper_bound. lia.
  - assert (i1 <> i) by (intros ->; apply Hne; by eapply NoDup_lookup). exists y. rewrite lookup_insert_ne by done. split_and!; try done.
    rewrite !list_lookup_insert_ne; try done. pose proof (lookup_lt_Some _ _ _ Hk1). intros E. apply slot_inj in E; lia.
Qed.

(** What [GetReply] and [ReplyError] do with the identity of a client: [o] is
    [pData], [d] what is sent. *)
Definition deliver p c i (o : option bytes) (d : bytes) : go proxy :=
  let! p := upd_ident p i (set_data o) in DoReply NA p c d i.

Definition answered o x : MsgIdenty := set_done (add_got (set_data o x)).

Lemma deliver_eq p c a b q v k i x o d : clients p !! c = Some a -> client_ok (idents p) c a b q v -> q !! k = Some i -> idents p !! i = Some x ->
  plain x ->
  exists w, deliver p c i o d = Ret (put_client (put_ident p i (answered o x)) c (a_set_write (a_set_iov a ((b + k) mod NA)%nat d) w)) /\
    (a_write a = true -> w = true) /\ (None ∉ <[k := Some d]> v -> w = true).
Proof.
  intros Ha Hok Hk Hx [Hn _]. unfold deliver, DoReply, upd_ident, look. rewrite Hx. cbn. rewrite lookup_insert_eq. cbn. rewrite lookup_insert_eq. cbn.
  rewrite (proj2 (Z.ltb_ge _ _)) by lia. cbn. rewrite Ha. cbn. destruct (co_entry _ _ _ _ _ _ _ Hok _ _ Hk) as (x1 & Hx1 & _ & Hi & _ & Hv).
  assert (x1 = x) as -> by congruence. rewrite Hi, iov_slot_nat. set (a' := a_set_iov a _ d). unfold put_ident. cbn. rewrite !insert_insert_eq.
  destruct (GetPre (a_ring a) (Z.of_nat (b + k))) as [j|] eqn:Epre; [|exists true; done].
  unfold GetPre in Epre. eapply slot_in in Epre; [|apply Hok]. apply list_elem_of_lookup in Epre as [k1 Hk1].
  destruct (co_entry _ _ _ _ _ _ _ Hok _ _ Hk1) as (y & Hy & _ & _ & _ & Hv1).
  destruct (decide (j = i)) as [->|Hne]; [rewrite lookup_insert_eq; cbn; exists true; rewrite orb_true_r; done|].
  rewrite lookup_insert_ne by done. rewrite Hy. cbn. destruct (_ || _) eqn:Eb; [exists true; done|]. exists (a_write a). split_and!; [by destruct a|done|].
  intros Hnone. apply orb_false_iff in Eb as [[_ Eb]%orb_false_iff _]. rewrite Eb in Hv1. exfalso. apply Hnone. eapply (list_elem_of_lookup_2 _ k1).
  rewrite list_lookup_insert_ne; [done|]. intros ->. congruence.
Qed.

Lemma done_ok p gc gs c a b q v k i x x' d w : SI p gc gs -> gc !! c = Some (b, q, v) -> clients p !! c = Some a -> q !! k = Some i -> idents p !! i = Some x ->
  pRedisEvent x' = None -> plain x' -> pAccessEvent x' = Some c -> ulIndex x' = ulIndex x -> iWaitRsp x' = iWaitRsp x -> iWaitDone x' = true ->
  pRedisEvent x = None ->
  SI (put_client (put_ident p i x') c (a_set_write (a_set_iov a ((b + k) mod NA)%nat d) w)) (<[c := (b, q, <[k := Some d]> v)]> gc) gs.
Proof.
  intros H Hg Ha Hk Hx E1 E2 E3 E4 E5 E6 E7. pose proof (si_c _ _ _ _ _ H _ _ _ _ _ Ha Hg) as Hok.
  pose proof (list_elem_of_lookup_2 _ _ _ Hk) as Hin. pose proof (si_in_client _ _ _ H _ _ _ _ _ _ Hg Hin Hx) as Hacc.
  eapply (si_step p gc gs H i); cbn; try apply H.
  - intros j Hj. by rewrite lookup_insert_ne.
  - by rewrite !dom_insert_L, (si_dom_c _ _ _ _ _ H).
  - intros c1 a1 b1 q1 v1. destruct (decide (c1 = c)) as [->|Hne]; [rewrite !lookup_insert_eq|rewrite !lookup_insert_ne by done].
    + intros [= <-] [= <- <- <-]. right. by eapply client_done.
    + intros F1 F2. left. split_and!; [done..|]. intros Hi. pose proof (si_in_client _ _ _ H _ _ _ _ _ _ F2 Hi Hx). congruence.
  - intros s1 r b1 q1 F1 F2. left. split_and!; [done..|]. intros Hi. pose proof (si_in_server _ _ _ H _ _ _ _ _ F2 Hi Hx). congruence.
  - eapply keep_c_insert; [done|set_solver].
  - apply keep_s_refl.
  - rewrite lookup_insert_eq. intros y [= <-]. split; [done| |by rewrite E1]. rewrite E3. intros c1 [= <-]. rewrite lookup_insert_eq. eauto.
  - eapply free_upd; [done..|]. by eapply owned_nonzero.
  - intros j. by eapply fresh_upd.
Qed.

(** An answer of the proxy itself. *)
Lemma reply_ok p gc gs c a b q v k i x o d : SI p gc gs -> gc !! c = Some (b, q, v) -> clients p !! c = Some a -> q !! k = Some i -> idents p !! i = Some x ->
  pRedisEvent x = None ->
  exists w, deliver p c i o d = Ret (put_client (put_ident p i (answered o x)) c (a_set_write (a_set_iov a ((b + k) mod NA)%nat d) w)) /\
    SI (put_client (put_ident p i (answered o x)) c (a_set_write (a_set_iov a ((b + k) mod NA)%nat d) w)) (<[c := (b, q, <[k := Some d]> v)]> gc) gs /\
    (a_write a = true -> w = true) /\ (None ∉ <[k := Some d]> v -> w = true).
Proof.
  intros H Hg Ha Hk Hx Hr. pose proof (si_own _ _ _ _ _ H _ _ Hx) as Ho. pose proof (si_c _ _ _ _ _ H _ _ _ _ _ Ha Hg) as Hok.
  destruct (deliver_eq p c a b q v k i x o d Ha Hok Hk Hx (io_plain _ _ _ _ Ho)) as (w & E & Hw1 & Hw2). exists w. split_and!; try done.
  eapply done_ok; try done; [apply Ho|]. refine (si_in_client _ _ _ H c b q v i x Hg _ Hx). by eapply list_elem_of_lookup_2.
Qed.

(** A server's answer; the client may have gone. *)
Definition served p s r rb i o d : go proxy :=
  let! x := look (idents p) i in
  let! p := match pAccessEvent x with None => Ret (put_server p s (r_set_ring r rb)) | Some c => deliver (put_server p s (r_set_ring r rb)) c i o d end in
  id_Release p i REDIS_RELEASE.

Lemma served_ok p gc gs s r b i q x : SI p gc gs -> gs !! s = Some (b, i :: q) -> servers p !! s = Some r -> idents p !! i = Some x ->
  exists rb, PopFront (r_ring r) = (rb, Some i) /\ forall o d, exists p', served p s r rb i o d = Ret p' /\
    servers p' = <[s := r_set_ring r rb]> (servers p) /\ (forall j, j <> i -> idents p' !! j = idents p !! j) /\
    match pAccessEvent x with
    | None => SI p' gc (<[s := (S b, q)]> gs) /\ clients p' = clients p
    | Some c => exists a bc qc vc k w, clients p !! c = Some a /\ gc !! c = Some (bc, qc, vc) /\ qc !! k = Some i /\ ulIndex x = Z.of_nat (bc + k) /\
        SI p' (<[c := (bc, qc, <[k := Some d]> vc)]> gc) (<[s := (S b, q)]> gs) /\
        clients p' = <[c := a_set_write (a_set_iov a ((bc + k) mod NA)%nat d) w]> (clients p) /\ vc !! k = Some None /\
        (a_write a = true -> w = true) /\ (None ∉ <[k := Some d]> vc -> w = true)
    end.
Proof.
  intros H Hg Hr Hx. pose proof (si_s _ _ _ _ _ H _ _ _ _ Hr Hg) as Hok. destruct (PopFront_cons _ _ _ _ (so_ring _ _ _ _ _ _ Hok) i q eq_refl) as (rb & Hpop & Hrb).
  exists rb. split; [done|]. intros o d. unfold served, look. rewrite Hx. cbn. pose proof (si_own _ _ _ _ _ H _ _ Hx) as Ho.
  assert (pRedisEvent x = Some s) as Hs by (eapply (si_in_server _ _ _ H); [done| |done]; set_solver).
  destruct (pAccessEvent x) as [c|] eqn:Hacc.
  - destruct (io_client _ _ _ _ Ho _ Hacc) as (bc & qc & vc & Hgc & [k Hk]%list_elem_of_lookup). destruct (si_client _ _ _ H _ _ _ _ Hgc) as (a & Ha & Hc).
    destruct (deliver_eq (put_server p s (r_set_ring r rb)) c a bc qc vc k i x o d Ha Hc Hk Hx (io_plain _ _ _ _ Ho)) as (w & -> & Hw1 & Hw2). cbn.
    unfold id_Release, look. cbn. rewrite lookup_insert_eq. cbn. rewrite Hacc, Hs. rewrite !bool_decide_false by naive_solver. eexists. split; [done|]. cbn.
    rewrite insert_insert_eq. split_and!; [done|intros j Hj; by rewrite lookup_insert_ne|].
    destruct (co_entry _ _ _ _ _ _ _ Hc _ _ Hk) as (x1 & Hx1 & _ & Hi & _ & Hv). assert (x1 = x) as -> by congruence. destruct (io_server _ _ _ _ Ho _ Hs) as [Hd _].
    exists a, bc, qc, vc, k, w. split_and!; try done; [|by rewrite Hd in Hv].
    pose proof (detach_ok _ _ _ H _ _ _ _ _ _ _ _ Hg Hr Hrb Hx Hacc) as H1.
    pose proof (done_ok _ _ _ c a bc qc vc k i (set_redis None x) (set_redis None (answered o x)) d w H1 Hgc Ha Hk) as H2.
    cbn in H2. rewrite lookup_insert_eq in H2. specialize (H2 eq_refl eq_refl (io_plain _ _ _ _ Ho) Hacc eq_refl eq_refl eq_refl eq_refl).
    unfold put_ident, put_client in *. cbn in *. by rewrite insert_insert_eq in H2 |- *.
  - cbn. destruct (drop_ok _ _ _ H _ _ _ _ _ _ _ Hg Hr Hrb Hx Hacc) as (p' & -> & H1 & H2 & H3 & H4). exists p'. done.
Qed.

(** ** A new request *)

Lemma id_Get_ok p gc gs : SI p gc gs ->
  exists p1 i x, id_Get p = Ret (p1, i) /\ idents p1 !! i = Some x /\ (x = new_identy \/ x = zero_identy) /\ clients p1 = clients p /\ servers p1 = servers p /\
    (forall j, j <> i -> idents p1 !! j = idents p !! j) /\ (forall y, idents p !! i = Some y -> y = zero_identy) /\
    (forall x', free_ok NR (<[i := x']> (idents p1)) (m_pIdentyBuffer p1)) /\ (forall x' j, (next_ident p1 <= j)%nat -> <[i := x']> (idents p1) !! j = None).
Proof.
  intros H. destruct (si_free _ _ _ _ _ H) as (fb & fq & Hrb & Hnd & Hf). unfold id_Get. destruct fq as [|i fq].
  - rewrite (PopFront_nil _ _ _ _ Hrb eq_refl). cbn. pose proof (si_fresh _ _ _ _ _ H (next_ident p) ltac:(lia)) as Hn. do 3 eexists. split; [done|]. cbn.
    rewrite lookup_insert_eq. split_and!; try done; [by left| | | |].
    + intros j Hj. by rewrite lookup_insert_ne.
    + intros y Hy. congruence.
    + intros x'. exists fb, []. split_and!; [done..|]. set_solver.
    + intros x' j Hj. rewrite !lookup_insert_ne by lia. apply H. lia.
  - destruct (PopFront_cons _ _ _ _ Hrb i fq eq_refl) as (rb & -> & Hrb'). cbn. unfold look. rewrite (Hf i) by set_solver. cbn. apply NoDup_cons in Hnd as [Hni Hnd].
    do 3 eexists. split; [done|]. cbn. rewrite (Hf i) by set_solver. split_and!; try done; [by right| | |].
    + intros y [= <-]. done.
    + intros x'. exists (S fb), fq. split_and!; [done..|]. intros j Hj. rewrite lookup_insert_ne by (intros ->; done). apply Hf. set_solver.
    + intros x' j Hj. pose proof (si_fresh _ _ _ _ _ H _ Hj) as E. rewrite lookup_insert_ne; [done|]. intros ->. rewrite (Hf j) in E by set_solver. done.
Qed.

Lemma client_push m c a b q v i x rb : client_ok m c a b q v -> rb_ok NA rb b (q ++ [i]) -> i ∉ q -> m_ulMsgIdenty a + 1 < 2 ^ 64 ->
  pAccessEvent x = Some c -> ulIndex x = m_ulMsgIdenty a -> iWaitRsp x = true -> iWaitDone x = false ->
  client_ok (<[i := x]> m) c (a_next (a_set_ring a rb)) b (q ++ [i]) (v ++ [None]).
Proof.
  intros Hok Hrb Hni Hmax E1 E2 E3 E4. pose proof (co_next _ _ _ _ _ _ _ Hok) as Hn. assert (u64 (m_ulMsgIdenty a + 1) = m_ulMsgIdenty a + 1) as Hu by (apply wrap_small; lia).
  split; cbn; rewrite ?length_app, ?Hu; cbn; try done; try lia.
  - apply Hok.
  - apply NoDup_app. split_and!; [apply Hok|set_solver|apply NoDup_singleton].
  - by rewrite (co_len _ _ _ _ _ _ _ Hok).
  - intros k j Hk. pose proof (co_len _ _ _ _ _ _ _ Hok) as Hl. destruct (decide (k < length q)%nat) as [Hlt|Hge].
    + rewrite lookup_app_l in Hk by done. destruct (co_entry _ _ _ _ _ _ _ Hok k j Hk) as (y & Hy & F). exists y. rewrite lookup_app_l by lia.
      rewrite lookup_insert_ne; [done|]. intros ->. apply Hni. by eapply list_elem_of_lookup_2.
    + rewrite lookup_app_r in Hk by lia. apply list_lookup_singleton_Some in Hk as [Hk <-]. exists x. rewrite lookup_insert_eq, E4, lookup_app_r, Hl, Hk by lia.
      split_and!; try done. rewrite E2, Hn. f_equal. lia.
Qed.

Lemma enqueue_ok p gc gs c a b q v : SI p gc gs -> gc !! c = Some (b, q, v) -> clients p !! c = Some a -> (length q < NA)%nat -> m_ulMsgIdenty a + 1 < 2 ^ 64 ->
  exists p' i x rb, enqueue p c = Ret (p', i) /\ SI p' (<[c := (b, q ++ [i], v ++ [None])]> gc) gs /\
    clients p' = <[c := a_next (a_set_ring a rb)]> (clients p) /\ servers p' = servers p /\ (forall j, j <> i -> idents p' !! j = idents p !! j) /\
    idents p' !! i = Some x /\ pAccessEvent x = Some c /\ pRedisEvent x = None /\ iWaitDone x = false /\ (forall s sb sq, gs !! s = Some (sb, sq) -> i ∉ sq).
Proof.
  intros H Hg Ha Hlt Hmax. pose proof (si_c _ _ _ _ _ H _ _ _ _ _ Ha Hg) as Hok. destruct (id_Get_ok _ _ _ H) as (p1 & i & x & E & Hx & Hxx & E1 & E2 & Hm & Hz & Hf & Hn).
  unfold enqueue. rewrite E. cbn [go_bind]. unfold look. rewrite Hx. cbn [go_bind]. rewrite bool_decide_true by (destruct Hxx as [-> | ->]; done). cbn [negb]. rewrite E1, Ha. cbn [go_bind].
  destruct (AddData_at_ok _ _ _ _ (co_ring _ _ _ _ _ _ _ Hok) i Hlt) as (rb & Hadd & Hrb). rewrite <- (co_next _ _ _ _ _ _ _ Hok) in Hadd. rewrite Hadd.
  assert (forall c1 b1 q1 v1, gc !! c1 = Some (b1, q1, v1) -> i ∉ q1) as Hnc.
  { intros c1 b1 q1 v1 F Hi. destruct (si_client _ _ _ H _ _ _ _ F) as (a1 & _ & Hc1). apply list_elem_of_lookup in Hi as [k Hk].
    destruct (co_entry _ _ _ _ _ _ _ Hc1 _ _ Hk) as (y & Hy & Hacc & _). apply Hz in Hy. by subst. }
  assert (forall s1 b1 q1, gs !! s1 = Some (b1, q1) -> i ∉ q1) as Hns.
  { intros s1 b1 q1 F Hi. destruct (si_server _ _ _ H _ _ _ F) as (r & _ & Hs1). destruct (so_entry _ _ _ _ _ _ Hs1 _ Hi) as (y & Hy & Hr). apply Hz in Hy. by subst. }
  set (x' := set_wait (set_index (m_ulMsgIdenty a) (set_access (Some c) x))). exists (put_client (put_ident p1 i x') c (a_next (a_set_ring a rb))), i, x', rb. cbn. rewrite E1, E2.
  split_and!; try done; [|intros j Hj; rewrite lookup_insert_ne by done; by apply Hm|apply lookup_insert_eq|destruct Hxx as [-> | ->]; done..].
  eapply (si_step _ _ _ H i); cbn; rewrite ?E1, ?E2; try done; try apply H.
  - intros j Hj. rewrite lookup_insert_ne by done. by apply Hm.
  - by rewrite !dom_insert_L, (si_dom_c _ _ _ _ _ H).
  - intros c1 a1 b1 q1 v1. destruct (decide (c1 = c)) as [->|Hne]; [rewrite !lookup_insert_eq|rewrite !lookup_insert_ne by done; eauto].
    intros [= <-] [= <- <- <-]. right. assert (client_ok (idents p1) c a b q v) as Hok1 by (eapply client_skip; [done|by eapply Hnc|done]).
    eapply client_push; try done; [by eapply Hnc|destruct Hxx as [-> | ->]; done].
  - eauto.
  - eapply keep_c_insert; [done|set_solver].
  - apply keep_s_refl.
  - rewrite lookup_insert_eq. intros y [= <-]. split; cbn.
    + destruct Hxx as [-> | ->]; by split.
    + intros c1 [= <-]. rewrite lookup_insert_eq. do 3 eexists. split; [done|]. set_solver.
    + destruct Hxx as [-> | ->]; done.
  - intros j Hj. by apply Hn.
Qed.

(** ** A request is forwarded *)

Lemma unsent_idx r r' : r_ciov r' = r_ciov r -> m_lCiovWriteIdx r' - m_lCiovReadIdx r' = m_lCiovWriteIdx r - m_lCiovReadIdx r ->
  m_lCiovReadIdx r' mod Z.of_nat NR = m_lCiovReadIdx r mod Z.of_nat NR -> unsent NR r' = unsent NR r.
Proof.
  intros E1 E2 E3. unfold unsent. rewrite E1, E2. apply list_fmap_ext. intros _ k _. unfold iov_slot.
  by rewrite <- (Zplus_mod_idemp_l (m_lCiovReadIdx r')), E3, Zplus_mod_idemp_l.
Qed.

Lemma unsent_push r d w : 0 <= m_lCiovReadIdx r <= m_lCiovWriteIdx r -> m_lCiovWriteIdx r - m_lCiovReadIdx r < Z.of_nat NR -> length (r_ciov r) = NR ->
  w = m_lCiovWriteIdx r + 1 -> unsent NR (r_set_iov (r_set_idx r (m_lCiovReadIdx r) w) (iov_slot NR (m_lCiovWriteIdx r)) d) = unsent NR r ++ [d].
Proof.
  intros H1 H2 Hl ->. unfold unsent. cbn. set (n := Z.to_nat (m_lCiovWriteIdx r - m_lCiovReadIdx r)).
  replace (Z.to_nat (m_lCiovWriteIdx r + 1 - m_lCiovReadIdx r)) with (n + 1)%nat by lia. rewrite seq_app, fmap_app. f_equal.
  - apply list_fmap_ext. intros j k [-> Hk]%lookup_seq. cbn. rewrite list_lookup_insert_ne; [done|]. apply iov_slot_inj; lia.
  - cbn. replace (m_lCiovReadIdx r + Z.of_nat n) with (m_lCiovWriteIdx r) by lia. rewrite list_lookup_insert_eq; [done|]. eapply Nat.lt_le_trans; [by apply (iov_slot_lt NR)|]. apply Nat.eq_le_incl. exact (eq_sym Hl).
Qed.

(** The record of the server after a request has been put in. *)
Definition pushed r rb rd w d : redis := r_set_write (r_set_iov (r_set_idx (r_set_ring r rb) rd w) (iov_slot NR (m_lCiovWriteIdx r)) d) true.

Lemma server_push m s r rb b q i x rd w d : server_ok m s r b q -> rb_ok NR rb b (q ++ [i]) -> i ∉ q -> r_open r = true -> pRedisEvent x = Some s ->
  0 <= rd -> w - rd = m_lCiovWriteIdx r + 1 - m_lCiovReadIdx r -> w - rd <= Z.of_nat NR -> w <= 0xFFFFFFF ->
  server_ok (<[i := x]> m) s (pushed r rb rd w d) b (q ++ [i]).
Proof.
  intros Hok Hrb Hni Ho Hx H1 H2 H3 H4. pose proof (so_idx _ _ _ _ _ _ Hok). split; cbn; rewrite ?length_insert; try done; try lia; try apply Hok.
  - apply NoDup_app. split_and!; [apply Hok|set_solver|apply NoDup_singleton].
  - intros j [Hj| ->%list_elem_of_singleton]%elem_of_app; [rewrite lookup_insert_ne by (intros ->; done); by apply (so_entry _ _ _ _ _ _ Hok)|].
    rewrite lookup_insert_eq. eauto.
Qed.

(** Keeping the numbers small does not change the slots. *)
Lemma renumber R W : 0 <= R <= W -> W - R < Z.of_nat NR -> W <= 0xFFFFFFF ->
  exists rd w, (if 0xFFFFFFF <? W + 1 then (R mod Z.of_nat NR, R mod Z.of_nat NR + (W + 1 - R)) else (R, W + 1)) = (rd, w) /\
    0 <= rd /\ w - rd = W + 1 - R /\ w <= 0xFFFFFFF /\ rd mod Z.of_nat NR = R mod Z.of_nat NR.
Proof.
  intros H1 H2 H3. pose proof (Z.mod_pos_bound R (Z.of_nat NR) ltac:(lia)). destruct (Z.ltb_spec 0xFFFFFFF (W + 1)); do 2 eexists; (split; [done|]); [|lia].
  split_and!; try lia. apply Z.mod_mod. lia.
Qed.

Lemma SendMsg_ok p gc gs s r sb sq c i x d : SI p gc gs -> gs !! s = Some (sb, sq) -> servers p !! s = Some r -> r_open r = true ->
  idents p !! i = Some x -> pAccessEvent x = Some c -> pRedisEvent x = None -> iWaitDone x = false ->
  (length sq < NR)%nat -> m_lCiovWriteIdx r - m_lCiovReadIdx r < Z.of_nat NR ->
  exists r', SendMsg NA NR p s d i = Ret (put_server (put_ident p i (set_redis (Some s) (set_req (Some d) x))) s r') /\
    SI (put_server (put_ident p i (set_redis (Some s) (set_req (Some d) x))) s r') gc (<[s := (sb, sq ++ [i])]> gs) /\
    r_sent r' = r_sent r /\ unsent NR r' = unsent NR r ++ [d] /\ r_open r' = true.
Proof.
  intros H Hg Hr Ho Hx Hacc Hred Hd Hlt Hroom. pose proof (si_s _ _ _ _ _ H _ _ _ _ Hr Hg) as Hok. pose proof (so_idx _ _ _ _ _ _ Hok) as Hidx. pose proof (so_max _ _ _ _ _ _ Hok) as Hmax.
  unfold SendMsg, upd_ident, look. rewrite Hx. cbn. rewrite Hr. cbn. rewrite (so_open _ _ _ _ _ _ Hok), Ho. cbn.
  rewrite (wrap_small 64 (_ - _)), (wrap_small 64 (_ + 1)) by lia. rewrite (proj2 (Z.eqb_neq _ _)) by lia.
  destruct (AddData_ok _ _ _ _ (so_ring _ _ _ _ _ _ Hok) i Hlt) as (rb & -> & Hrb). rewrite lookup_insert_eq. cbn.
  rewrite (proj2 (Z.ltb_lt _ _)), (proj2 (Z.leb_le _ _)) by lia. cbn. destruct (renumber _ _ Hidx Hroom Hmax) as (rd & w & -> & R1 & R2 & R3 & R4).
  exists (pushed r rb rd w d). split_and!; try done; [unfold put_ident; cbn; by rewrite insert_insert_eq| |].
  - assert (forall s1 b1 q1, gs !! s1 = Some (b1, q1) -> i ∉ q1) as Hns.
    { intros s1 b1 q1 F Hi. pose proof (si_in_server _ _ _ H _ _ _ _ _ F Hi Hx). congruence. }
    pose proof (si_own _ _ _ _ _ H _ _ Hx) as Hio. eapply (si_step _ _ _ H i); cbn; try apply H.
    + intros j Hj. by rewrite lookup_insert_ne.
    + by rewrite !dom_insert_L, (si_dom_s _ _ _ _ _ H).
    + intros c1 a1 b1 q1 v1 F1 F2. right. eapply client_frame; [by eapply si_c|]. intros j y Hj Hy. destruct (decide (j = i)) as [->|Hne];
        [rewrite lookup_insert_eq|rewrite lookup_insert_ne by done]; eexists; (split; [done|]); simplify_eq; done.
    + intros s1 r1 b1 q1. destruct (decide (s1 = s)) as [->|Hne]; [rewrite !lookup_insert_eq|rewrite !lookup_insert_ne by done; eauto].
      intros [= <-] [= <- <-]. right. eapply server_push; try done; [by eapply Hns|lia].
    + apply keep_c_refl.
    + eapply keep_s_insert; [done|set_solver].
    + rewrite lookup_insert_eq. intros y [= <-]. split; cbn; [apply Hio|apply Hio|]. intros s1 [= <-]. split; [done|]. rewrite lookup_insert_eq. do 2 eexists. split; [done|]. set_solver.
    + eapply free_upd; [done..|]. by eapply owned_nonzero.
    + intros j. by eapply fresh_upd.
  - change (unsent NR r) with (unsent NR (r_set_ring r rb)). rewrite <- (unsent_push (r_set_ring r rb) d _ Hidx Hroom (so_ciov _ _ _ _ _ _ Hok) eq_refl). by apply unsent_idx.
Qed.
End steps.
