(* ===== verification/Forwardsim.v ===== *)
(** * Requests, replies and closed connections refine the specification

    Every step of Forward that is not a write is a step of the specification of
    Forwardspec. *)

From S2P Require Import Prelude Ringbuffer Forward Forwardspec Forwardinv.

(** ** The bytes that have been sent *)

Section bytes.
Implicit Types (l v : list (option bytes)) (sent debt part d : bytes).

Lemma left_length part v l : left_of part v l -> length l = length v.
Proof. destruct v as [|[d|] v]; cbn; [intros [_ ->]; done|intros ->; done|intros [_ ->]; done]. Qed.

Lemma sent_length l b v sent debt : sent_ok l b v sent debt -> length l = (b + length v)%nat.
Proof. intros (over & part & rest & -> & <- & _ & Hl). by rewrite length_app, length_fmap, (left_length _ _ _ Hl). Qed.

Lemma sent_push l b v sent debt x : sent_ok l b v sent debt -> (v = [] -> x = None) -> sent_ok (l ++ [x]) b (v ++ [x]) sent debt.
Proof.
  intros (over & part & rest & -> & Hb & Hs & Hl) Hx. exists over, part, (rest ++ [x]). split_and!; [by rewrite app_assoc|done..|].
  destruct v as [|[d|] v]; cbn in *; [destruct Hl as [-> ->]; rewrite Hx by done|subst rest|destruct Hl as [-> ->]]; done.
Qed.

Lemma sent_answer l b v sent k d : sent_ok l b v sent [] -> v !! k = Some None -> sent_ok (<[(b + k)%nat := Some d]> l) b (<[k := Some d]> v) sent [].
Proof.
  intros (over & part & rest & -> & <- & Hs & Hl) Hk. exists over, part, (<[k := Some d]> rest). split_and!; try done.
  - rewrite <- (length_fmap Some over) at 1. by rewrite insert_app_r.
  - destruct v as [|[e|] v], k as [|k]; cbn in *; try done; [by subst|destruct Hl as [-> ->]; done..].
Qed.

(** The bytes that have gone out of the first answer. *)
Lemma sent_part l b v sent d z ds : sent_ok l b (Some d :: v) sent (take z (d ++ ds)) -> (z < length d)%nat -> sent_ok l b (Some (drop z d) :: v) sent [].
Proof.
  intros (over & part & rest & -> & Hb & -> & Hl) Hz. exists over, (part ++ take z d), rest. split_and!; try done.
  - rewrite take_app_le by lia. by rewrite app_nil_r.
  - cbn in *. by rewrite <- app_assoc, take_drop.
Qed.

Lemma sent_over l b v sent d z ds : sent_ok l b (Some d :: v) sent (take z (d ++ ds)) -> (length d <= z)%nat -> sent_ok l (S b) v sent (take (z - length d) ds).
Proof.
  intros (over & part & rest & -> & Hb & -> & Hl) Hz. cbn in Hl. subst rest. exists (over ++ [part ++ d]), [], v. split_and!.
  - by rewrite fmap_app, <- app_assoc.
  - rewrite length_app, Hb. cbn. lia.
  - rewrite concat_app, take_app_ge by lia. cbn. rewrite app_nil_r, <- !app_assoc. done.
  - destruct v as [|[e|] v]; done.
Qed.

Lemma ready_app (over : list bytes) l : ready ((Some <$> over) ++ l) = concat over ++ ready l.
Proof. induction over as [|d over IH]; cbn; [done|]. by rewrite IH, app_assoc. Qed.

(** The client has got a prefix of its answers, in order. *)
Lemma sent_prefix l b v sent : sent_ok l b v sent [] -> sent `prefix_of` ready l.
Proof.
  intros (over & part & rest & -> & _ & -> & Hl). rewrite ready_app, app_nil_r. apply prefix_app.
  destruct v as [|[d|] v]; cbn in Hl; [destruct Hl as [-> ->]; apply prefix_nil|subst; cbn; by apply prefix_app_r, prefix_app_r|destruct Hl as [-> ->]; apply prefix_nil].
Qed.
End bytes.

Section sim.
Context (NA NR : nat).
Hypothesis NA_pos : (0 < NA)%nat.
Hypothesis NR_pos : (0 < NR)%nat.
Hypothesis NR_max : Z.of_nat NR <= 2 ^ 20.
Implicit Types (p : proxy) (c s i : nat) (gc : clients_info) (gs : servers_info) (m : gmap nat MsgIdenty) (a : spec).
Abbreviation refine := (refine NA NR).
Abbreviation SI := (SI NA NR).
Abbreviation server_spec := (server_spec NR).
Abbreviation spec_ok := (spec_ok NR).
Abbreviation enqueue_ok := (enqueue_ok NA NR NA_pos NR_pos NR_max).
Abbreviation reply_ok := (reply_ok NA NR NA_pos NR_pos NR_max).
Abbreviation served_ok := (served_ok NA NR NA_pos NR_pos NR_max).
Abbreviation SendMsg_ok := (SendMsg_ok NA NR NA_pos NR_pos NR_max).
Abbreviation pop_client := (pop_client NA NR NA_pos NR_pos NR_max).

Lemma server_spec_frame m m' r q v : server_spec m r q v -> (forall j, j ∈ q -> target <$> m' !! j = target <$> m !! j) -> server_spec m' r q v.
Proof.
  intros (H1 & H2 & H3) Hm. split_and!; try done. rewrite H2. apply list_fmap_ext. intros k j Hj. symmetry. apply Hm. by eapply list_elem_of_lookup_2.
Qed.

(** A client, or a server, is what has changed. *)
Lemma spec_client p gc gs a p' c x b q v l : spec_ok p gc gs a -> clients p' = <[c := x]> (clients p) -> servers p' = servers p ->
  client_spec x b v l ->
  (forall s sb sq j, gs !! s = Some (sb, sq) -> j ∈ sq -> target <$> idents p' !! j = target <$> idents p !! j) ->
  spec_ok p' (<[c := (b, q, v)]> gc) gs (mkSpec (<[c := l]> (sc a)) (ss a)).
Proof.
  intros H E1 E2 Hc Hm. split; cbn; rewrite ?E1, ?E2; try apply H.
  - by rewrite !dom_insert_L, (sp_dom_c _ _ _ _ _ H).
  - intros c1 x1 b1 q1 v1 l1. destruct (decide (c1 = c)) as [->|Hne]; [rewrite !lookup_insert_eq; naive_solver|rewrite !lookup_insert_ne by done; apply H].
  - intros s r sb sq sv F1 F2 F3. eapply server_spec_frame; [by eapply sp_s|]. intros j. by eapply Hm.
Qed.

Lemma spec_server p gc gs a p' s r b q v : spec_ok p gc gs a -> clients p' = clients p -> servers p' = <[s := r]> (servers p) ->
  server_spec (idents p') r q v ->
  (forall s1 sb sq j, s1 <> s -> gs !! s1 = Some (sb, sq) -> j ∈ sq -> target <$> idents p' !! j = target <$> idents p !! j) ->
  spec_ok p' gc (<[s := (b, q)]> gs) (set_server s v a).
Proof.
  intros H E1 E2 Hc Hm. split; cbn; rewrite ?E1, ?E2; try apply H.
  - by rewrite !dom_insert_L, (sp_dom_s _ _ _ _ _ H).
  - intros s1 r1 b1 q1 v1. destruct (decide (s1 = s)) as [->|Hne]; [rewrite !lookup_insert_eq; naive_solver|rewrite !lookup_insert_ne by done].
    intros F1 F2 F3. eapply server_spec_frame; [by eapply sp_s|]. intros j. by eapply Hm.
Qed.

Lemma spec_client_at p gc gs a c x b q v : refine p gc gs a -> clients p !! c = Some x -> gc !! c = Some (b, q, v) -> exists l, sc a !! c = Some l /\ client_spec x b v l.
Proof.
  intros [_ H _] Hx Hg. assert (is_Some (sc a !! c)) as [l Hl].
  { apply elem_of_dom. rewrite (sp_dom_c _ _ _ _ _ H). by eapply elem_of_dom_2. }
  exists l. split; [done|]. by eapply sp_c.
Qed.

Lemma spec_server_at p gc gs a s r b q : refine p gc gs a -> servers p !! s = Some r -> gs !! s = Some (b, q) -> exists v, ss a !! s = Some v /\ server_spec (idents p) r q v.
Proof.
  intros [_ H _] Hx Hg. assert (is_Some (ss a !! s)) as [l Hl].
  { apply elem_of_dom. rewrite (sp_dom_s _ _ _ _ _ H). by eapply elem_of_dom_2. }
  exists l. split; [done|]. by eapply sp_s.
Qed.

(** ** A client is accepted *)
Lemma accept_ok p gc gs a c : refine p gc gs a -> clients p !! c = None ->
  refine (put_client p c (new_access NA)) (<[c := (0%nat, [], [])]> gc) gs (spec_accept c a).
Proof.
  intros H Hc. assert (gc !! c = None) as Hg.
  { apply not_elem_of_dom. rewrite <- (si_dom_c _ _ _ _ _ (rf_si _ _ _ _ _ _ H)). by apply not_elem_of_dom. }
  split; [|eapply spec_client; [apply H|done|done| |done]|apply H].
  - pose proof (rf_si _ _ _ _ _ _ H) as HS. split; cbn; try apply HS.
    + by rewrite !dom_insert_L, (si_dom_c _ _ _ _ _ HS).
    + intros c1 x1 b1 q1 v1. destruct (decide (c1 = c)) as [->|Hne]; [rewrite !lookup_insert_eq|rewrite !lookup_insert_ne by done; apply HS].
      intros [= <-] [= <- <- <-]. split; cbn; try done; [by apply new_ring_ok|apply length_replicate|by constructor].
    + intros i x Hi. pose proof (si_own _ _ _ _ _ HS _ _ Hi) as Ho. split; try apply Ho. intros c1 Hc1. destruct (io_client _ _ _ _ Ho _ Hc1) as (b & q & v & E & Hin).
      exists b, q, v. rewrite lookup_insert_ne; [done|]. intros ->. congruence.
  - split; [|intros Hn; by destruct Hn]. exists [], [], []. done.
Qed.

(** ** Requests *)

Lemma alter_at {A} (f : A -> A) (k : nat) (mp : gmap nat A) y : mp !! k = Some y -> alter f k mp = <[k := f y]> mp.
Proof.
  intros E. apply map_eq. intros j. destruct (decide (j = k)) as [->|Hne]; [by rewrite lookup_alter_eq, lookup_insert_eq, E|by rewrite lookup_alter_ne, lookup_insert_ne].
Qed.

Lemma answer_at c j d a l : sc a !! c = Some l -> answer (Some (c, j)) d a = mkSpec (<[c := <[j := Some d]> l]> (sc a)) (ss a).
Proof. intros E. cbn. by rewrite (alter_at _ _ _ _ E). Qed.

Lemma enqueue_refine p gc gs a c x b q v l : refine p gc gs a -> gc !! c = Some (b, q, v) -> clients p !! c = Some x -> sc a !! c = Some l ->
  (length q < NA)%nat -> m_ulMsgIdenty x + 1 < 2 ^ 64 ->
  exists p' i y x', enqueue p c = Ret (p', i) /\ refine p' (<[c := (b, q ++ [i], v ++ [None])]> gc) gs (mkSpec (<[c := l ++ [None]]> (sc a)) (ss a)) /\
    clients p' !! c = Some x' /\ servers p' = servers p /\ idents p' !! i = Some y /\ target y = Some (c, length l) /\
    pAccessEvent y = Some c /\ pRedisEvent y = None /\ iWaitDone y = false.
Proof.
  intros H Hg Hx Hl Hlt Hmax. pose proof (rf_si _ _ _ _ _ _ H) as HS.
  destruct (enqueue_ok _ _ _ _ _ _ _ _ HS Hg Hx Hlt Hmax) as (p' & i & y & rb & E & HS' & E1 & E2 & E3 & Hy & Ha & Hr & Hd & Hn).
  destruct (spec_client_at _ _ _ _ _ _ _ _ _ H Hx Hg) as (l' & Hl' & Hs & Har). assert (l' = l) as -> by congruence.
  exists p', i, y, (a_next (a_set_ring x rb)). rewrite E1, lookup_insert_eq. split_and!; try done.
  - split; [done| |by unfold quiet in *; rewrite E2; apply H]. eapply spec_client; [apply H|done..| |].
    + split; cbn; [by apply sent_push|]. intros _ Hno. exfalso. apply Hno. set_solver.
    + intros s sb sq j F Hj. rewrite E3; [done|]. intros ->. by eapply Hn.
  - destruct (si_client _ _ _ _ _ HS' c b (q ++ [i]) (v ++ [None])) as (x1 & Hx1 & Hok); [apply lookup_insert_eq|].
    destruct (co_entry _ _ _ _ _ _ _ Hok (length q) i) as (y1 & Hy1 & _ & Hi & _); [by rewrite lookup_app_r, Nat.sub_diag by lia|].
    assert (y1 = y) as -> by congruence. unfold target. rewrite Ha, Hi. cbn. rewrite Nat2Z.id, (sent_length _ _ _ _ _ Hs).
    destruct (si_client _ _ _ _ _ HS c b q v Hg) as (x2 & Hx2 & Hok2). by rewrite (co_len _ _ _ _ _ _ _ Hok2).
Qed.

Lemma target_upd m i x x' j : m !! i = Some x -> target x' = target x -> target <$> <[i := x']> m !! j = target <$> m !! j.
Proof. intros Hx E. destruct (decide (j = i)) as [->|Hne]; [rewrite lookup_insert_eq, Hx; cbn; by rewrite E|by rewrite lookup_insert_ne]. Qed.

Lemma armed_answer x (sl : nat) d w k v : armed x v -> (a_write x = true -> w = true) -> (None ∉ <[k := Some d]> v -> w = true) ->
  armed (a_set_write (a_set_iov x sl d) w) (<[k := Some d]> v).
Proof. intros _ _ H _ Hn. cbn. auto. Qed.

(** An answer of the proxy itself. *)
Lemma deliver_refine p gc gs a c i y o d : refine p gc gs a -> idents p !! i = Some y -> pAccessEvent y = Some c -> pRedisEvent y = None -> iWaitDone y = false ->
  exists p' gc', deliver NA p c i o d = Ret p' /\ refine p' gc' gs (answer (target y) d a).
Proof.
  intros H Hy Ha Hr Hd. pose proof (rf_si _ _ _ _ _ _ H) as HS. destruct (io_client _ _ _ _ (si_own _ _ _ _ _ HS _ _ Hy) _ Ha) as (b & q & v & Hg & [k Hk]%list_elem_of_lookup).
  destruct (si_client _ _ _ _ _ HS _ _ _ _ Hg) as (x & Hx & Hok). destruct (spec_client_at _ _ _ _ _ _ _ _ _ H Hx Hg) as (l & Hl & Hs & Har).
  destruct (reply_ok _ _ _ _ _ _ _ _ _ _ _ o d HS Hg Hx Hk Hy Hr) as (w & E & HS' & Hw1 & Hw2).
  destruct (co_entry _ _ _ _ _ _ _ Hok _ _ Hk) as (y1 & Hy1 & _ & Hi & _ & Hv). assert (y1 = y) as -> by congruence. rewrite Hd in Hv.
  eexists _, _. split; [done|]. split; [done| |apply H]. unfold target. rewrite Ha. cbn [fmap option_fmap option_map].
  rewrite (answer_at _ _ _ _ _ Hl), Hi, Nat2Z.id. eapply spec_client; [apply H|done..| |].
  - split; [by apply sent_answer|by apply armed_answer].
  - cbn. intros s sb sq j _ _. by eapply target_upd.
Qed.

(** A change of an identity that nobody sees. *)
Lemma refine_ident p gc gs a i y y' : refine p gc gs a -> idents p !! i = Some y -> pAccessEvent y <> None -> same_client y y' -> pRedisEvent y' = pRedisEvent y ->
  (plain y -> plain y') -> refine (put_ident p i y') gc gs a.
Proof.
  intros H Hy Ho Hs Hr Hn. pose proof (rf_si _ _ _ _ _ _ H) as HS. pose proof (rf_spec _ _ _ _ _ _ H) as Hsp. split; [|split; try apply Hsp|apply H].
  - eapply si_upd; try done. apply Hn, (si_own _ _ _ _ _ HS _ _ Hy).
  - cbn. intros s r b q v F1 F2 F3. eapply server_spec_frame; [by eapply sp_s|]. intros j _. eapply target_upd; [done|].
    unfold target. destruct Hs as (-> & -> & _). done.
Qed.

(** The server is connected and takes another request. *)
Definition has_room p s : Prop :=
  exists r, servers p !! s = Some r /\ r_open r = true /\ PoolFull (r_ring r) = false /\ m_lCiovWriteIdx r - m_lCiovReadIdx r < Z.of_nat NR.

Lemma asked_push l u sent d : asked_ok l u sent [] -> d <> [] -> asked_ok (l ++ [d]) (u ++ [d]) sent [].
Proof.
  intros (Hf & n & over & part & rest & E & Hn & Hs & Hl) Hd. split; [by apply Forall_app; split; [|constructor]|].
  exists n, over, part, (rest ++ [Some d]). split_and!; [|done..|].
  - by rewrite fmap_app, E, <- app_assoc.
  - rewrite fmap_app. cbn. destruct u as [|e u]; cbn in *; [destruct Hl as [-> ->]; done|by subst].
Qed.

Lemma forward_refine p gc gs a s r v c i y d : refine p gc gs a -> servers p !! s = Some r -> ss a !! s = Some v -> has_room p s -> d <> [] ->
  idents p !! i = Some y -> pAccessEvent y = Some c -> pRedisEvent y = None -> iWaitDone y = false ->
  exists p' gs', SendMsg NA NR p s d i = Ret p' /\ refine p' gc gs' (set_server s (mkSserver true (waiting v ++ [target y]) (asked v ++ [d])) a).
Proof.
  intros H Hr Hv (r1 & Hr1 & Ho & Hfull & Hlt) Hdn Hy Ha Hred Hd. assert (r1 = r) as -> by congruence. pose proof (rf_si _ _ _ _ _ _ H) as HS.
  destruct (si_info_s _ _ _ _ _ HS _ _ Hr) as (sb & sq & Hg & Hok). rewrite (PoolFull_spec _ _ _ _ (so_ring _ _ _ _ _ _ Hok)) in Hfull. apply Nat.eqb_neq in Hfull.
  pose proof (rb_max _ _ _ _ (so_ring _ _ _ _ _ _ Hok)). destruct (SendMsg_ok p gc gs s r sb sq c i y d HS Hg Hr Ho Hy Ha Hred Hd ltac:(lia) Hlt) as (r' & E & HS' & E1 & E2 & E3).
  eexists _, _. split; [done|]. assert (i ∉ sq) as Hni by (intros Hi; pose proof (si_in_server _ _ _ _ _ HS _ _ _ _ _ Hg Hi Hy); congruence).
  assert (forall j, target <$> <[i := set_redis (Some s) (set_req (Some d) y)]> (idents p) !! j = target <$> idents p !! j) as Ht by (intros j; by eapply target_upd).
  split; [done| |].
  - eapply spec_server; [apply H|done..| |done]. destruct (sp_s _ _ _ _ _ (rf_spec _ _ _ _ _ _ H) _ _ _ _ _ Hr Hg Hv) as (U & W & A). split_and!; cbn; [done| |].
    + rewrite !fmap_app, W. cbn. rewrite lookup_insert_eq. cbn. f_equal. apply list_fmap_ext. intros k j _. by rewrite Ht.
    + rewrite E1, E2. by apply asked_push.
  - intros s1 r1 b1 q1. cbn. destruct (decide (s1 = s)) as [->|Hne]; [rewrite !lookup_insert_eq|rewrite !lookup_insert_ne by done; apply H].
    intros [= <-] _. by rewrite E3.
Qed.

(** ** Requests of a client *)

(** What the specification covers: a request that the proxy answers itself, or
    that has a server with room; no broadcast. *)
Definition can_request p c (act : action) : Prop :=
  (exists x, clients p !! c = Some x /\ m_ulMsgIdenty x + 1 < 2 ^ 64) /\
  match act with ARoute (Some s) d => has_room p s /\ d <> [] | ARoute None _ | ABroadcast _ _ => False | _ => True end.

Lemma route_refine p gc gs a c s d i y : refine p gc gs a -> has_room p s -> d <> [] -> idents p !! i = Some y -> pAccessEvent y = Some c -> pRedisEvent y = None -> iWaitDone y = false ->
  exists p' v, (let! p := upd_ident p i (set_req (Some d)) in let! r := look (servers p) s in
     if r_open r then SendMsg NA NR p s d i else failed_route NA p c i) = Ret p' /\ ss a !! s = Some v /\ up v = true /\
    refines NA NR p' (set_server s (mkSserver true (waiting v ++ [target y]) (asked v ++ [d])) a).
Proof.
  intros H Hroom Hdn Hy Ha Hr Hd. pose proof Hroom as (r & Hs & Ho & _). unfold upd_ident, look. rewrite Hy. cbn [go_bind servers put_ident]. rewrite Hs. cbn [go_bind]. rewrite Ho.
  destruct (si_info_s _ _ _ _ _ (rf_si _ _ _ _ _ _ H) _ _ Hs) as (sb & sq & Hg & _). destruct (spec_server_at _ _ _ _ _ _ _ _ H Hs Hg) as (v & Hv & U & _).
  set (y' := set_req (Some d) y). assert (refine (put_ident p i y') gc gs a) as H' by (eapply refine_ident; try done; congruence).
  assert (idents (put_ident p i y') !! i = Some y') as Hy' by apply lookup_insert_eq.
  destruct (forward_refine (put_ident p i y') gc gs a s r v c i y' d) as (p' & gs' & E & HR); try done. exists p', v. rewrite U. split_and!; [done..|]. by exists gc, gs'.
Qed.

Lemma on_request_refine p a c act : refines NA NR p a -> can_request p c act ->
  exists o, on_request NA NR p c act = Ret o /\ match o with None => exists x, clients p !! c = Some x /\ PoolFull (a_ring x) = true | Some p' => refines NA NR p' (spec_request c act a) end.
Proof.
  intros (gc & gs & H) [(x & Hx & Hmax) Hact]. unfold on_request, look at 1. rewrite Hx. cbn [go_bind]. destruct (PoolFull (a_ring x)) eqn:Hfull; [exists None; eauto|].
  pose proof (rf_si _ _ _ _ _ _ H) as HS. destruct (si_info_c _ _ _ _ _ HS _ _ Hx) as (b & q & v & Hg & Hok). destruct (spec_client_at _ _ _ _ _ _ _ _ _ H Hx Hg) as (l & Hl & _).
  rewrite (PoolFull_spec _ _ _ _ (co_ring _ _ _ _ _ _ _ Hok)) in Hfull. apply Nat.eqb_neq in Hfull. pose proof (rb_max _ _ _ _ (co_ring _ _ _ _ _ _ _ Hok)).
  destruct (enqueue_refine _ _ _ _ _ _ _ _ _ _ H Hg Hx Hl ltac:(lia) Hmax) as (p1 & i & y & x' & -> & H1 & Hx' & Es & Hy & Ht & Ha & Hr & Hd). cbn [go_bind].
  unfold spec_request. rewrite Hl, (alter_at _ _ _ _ Hl). cbn [default from_option id]. rewrite <- Ht. set (a1 := mkSpec _ _) in *.
  assert (forall o d, exists p' gc', deliver NA p1 c i o d = Ret p' /\ refine p' gc' gs (answer (target y) d a1)) as Hdel by (intros o d; by eapply deliver_refine).
  destruct act as [e|d|[s|] d|srv d]; [| | |done|done].
  - destruct (Hdel None (GetErrMsg e)) as (p' & gc' & E & HR). unfold GetReply_err. unfold deliver in E. rewrite E. cbn. eexists. split; [done|]. by exists gc', gs.
  - destruct (Hdel (Some d) d) as (p' & gc' & E & HR). unfold GetReply. unfold deliver in E. rewrite E. cbn. eexists. split; [done|]. by exists gc', gs.
  - destruct Hact as [Hact Hdn]. assert (has_room p1 s) as Hroom by (unfold has_room; rewrite Es; done).
    destruct (route_refine _ _ _ _ _ _ d _ _ H1 Hroom Hdn Hy Ha Hr Hd) as (p' & sv & E & Hsv & Hup & HR). unfold bytes in *. rewrite E. cbn [go_bind]. eexists. split; [done|].
    change (ss a) with (ss a1). by rewrite Hsv, Hup.
Qed.

(** ** Replies of a server *)

Lemma served_refine p gc gs a s r b i q v : SI p gc gs -> spec_ok p gc gs a -> gs !! s = Some (b, i :: q) -> servers p !! s = Some r -> ss a !! s = Some v ->
  exists rb t w, PopFront (r_ring r) = (rb, Some i) /\ waiting v = t :: w /\ (exists x, idents p !! i = Some x) /\ forall o d, exists p' gc',
    served NA p s r rb i o d = Ret p' /\ SI p' gc' (<[s := (S b, q)]> gs) /\
    spec_ok p' gc' (<[s := (S b, q)]> gs) (answer t d (set_server s (mkSserver (up v) w (asked v)) a)) /\ servers p' = <[s := r_set_ring r rb]> (servers p).
Proof.
  intros HS Hsp Hg Hr Hv. destruct (si_server _ _ _ _ _ HS _ _ _ Hg) as (r1 & Hr1 & Hok). destruct (so_entry _ _ _ _ _ _ Hok i) as (x & Hx & Hred); [set_solver|].
  destruct (served_ok p gc gs s r b i q x HS Hg Hr Hx) as (rb & Hpop & Hserved). pose proof (so_nodup _ _ _ _ _ _ Hok) as [Hni _]%NoDup_cons.
  destruct (sp_s _ _ _ _ _ Hsp _ _ _ _ _ Hr Hg Hv) as (U & W & A). cbn in W. rewrite Hx in W. cbn in W.
  destruct (waiting v) as [|t w] eqn:Ew; [done|]. cbn in W. injection W as -> W.
  exists rb, (target x), w. split_and!; [done..|eauto|]. intros o d. destruct (Hserved o d) as (p' & E & E2 & E3 & Hcase).
  assert (spec_ok (mkProxy (clients p) (servers p') (idents p') (m_pIdentyBuffer p') (next_ident p')) gc (<[s := (S b, q)]> gs) (set_server s (mkSserver (up v) w (asked v)) a)) as Hsp1.
  { eapply spec_server; [done|done|done| |].
    - split_and!; cbn; [done| |done]. rewrite W. apply list_fmap_ext. intros k j Hj. rewrite E3; [done|]. intros ->. apply Hni. by eapply list_elem_of_lookup_2.
    - cbn. intros s1 sb sq j Hne F Hj. rewrite E3; [done|]. intros ->. pose proof (si_in_server _ _ _ _ _ HS _ _ _ _ _ F Hj Hx). congruence. }
  unfold target. destruct (pAccessEvent x) as [c|] eqn:Hacc.
  - destruct Hcase as (y & bc & qc & vc & k & w' & Hy & Hgc & Hk & Hi & HS' & Ec & Hnone & Hw1 & Hw2). eexists _, _. split; [done|]. split_and!; [done| |done].
    assert (exists l, sc a !! c = Some l) as [l Hl]. { apply elem_of_dom. rewrite (sp_dom_c _ _ _ _ _ Hsp). by eapply elem_of_dom_2. }
    destruct (sp_c _ _ _ _ _ Hsp _ _ _ _ _ _ Hy Hgc Hl) as [Hs Har].
    cbn [fmap option_fmap option_map]. rewrite (answer_at c _ d (set_server s _ a) l Hl), Hi, Nat2Z.id. eapply spec_client; [exact Hsp1|done|done| |done].
    split; [by apply sent_answer|by apply armed_answer].
  - destruct Hcase as [HS' Ec]. eexists _, _. split; [done|]. split_and!; [done| |done]. cbn. split; cbn; try apply Hsp1. rewrite Ec. apply Hsp1.
Qed.

Lemma on_reply_refine p a s v d : refines NA NR p a -> ss a !! s = Some v -> waiting v <> [] -> exists p', on_reply NA p s d = Ret p' /\ refines NA NR p' (spec_reply s d a).
Proof.
  intros (gc & gs & H) Hv Hne. pose proof (rf_si _ _ _ _ _ _ H) as HS. pose proof (rf_spec _ _ _ _ _ _ H) as Hsp.
  assert (exists b q, gs !! s = Some (b, q)) as (b & q & Hg).
  { assert (is_Some (gs !! s)) as [[b q] ?]; [|eauto]. apply elem_of_dom. rewrite <- (sp_dom_s _ _ _ _ _ Hsp). by eapply elem_of_dom_2. }
  destruct (si_server _ _ _ _ _ HS _ _ _ Hg) as (r & Hr & Hok). destruct q as [|i q].
  { destruct (sp_s _ _ _ _ _ Hsp _ _ _ _ _ Hr Hg Hv) as (_ & W & _). cbn in W. by destruct (waiting v). }
  destruct (served_refine _ _ _ _ _ _ _ _ _ _ HS Hsp Hg Hr Hv) as (rb & t & w & Hpop & Ew & (x & Hx) & Hall). destruct (Hall (Some d) d) as (p' & gc' & E & HS' & Hsp' & Es).
  exists p'. split.
  - unfold on_reply, look. rewrite Hr. cbn [go_bind]. rewrite Hpop. unfold served, look in E. rewrite Hx in E. cbn [go_bind] in E.
    unfold id_GetReply, look. cbn [idents put_server]. rewrite Hx. cbn [go_bind]. by destruct (pAccessEvent x).
  - unfold spec_reply. rewrite Hv, Ew. exists gc', (<[s := (S b, q)]> gs). split; [done..|]. intros s1 r1 b1 q1. rewrite Es.
    destruct (decide (s1 = s)) as [->|Hn]; [rewrite !lookup_insert_eq|rewrite !lookup_insert_ne by done; apply H].
    intros [= <-] [= <- <-] Ho. by pose proof (rf_quiet _ _ _ _ _ _ H _ _ _ _ Hr Hg Ho).
Qed.

(** ** A server is lost *)

Definition fail_each (a : spec) (w : list (option (nat * nat))) : spec := foldl (fun a t => answer t (GetErrMsg REDIS_RSP_DISCONNECT) a) a w.

Lemma answer_set_server t d s v a : answer t d (set_server s v a) = set_server s v (answer t d a).
Proof. by destruct t as [[c j]|]. Qed.

Lemma fail_each_set s v a w : fail_each (set_server s v a) w = set_server s v (fail_each a w).
Proof. unfold fail_each. revert a. induction w as [|t w IH]; intros a; cbn; [done|]. by rewrite answer_set_server, IH. Qed.

Lemma set_server_twice s v v' a : set_server s v (set_server s v' a) = set_server s v a.
Proof. unfold set_server. cbn. by rewrite insert_insert_eq. Qed.

Lemma set_server_same s v a : ss a !! s = Some v -> set_server s v a = a.
Proof. intros E. unfold set_server. rewrite insert_id by done. by destruct a. Qed.

Lemma fail_all_ok n s : forall p gc gs a b q r v, (length q < n)%nat -> SI p gc gs -> spec_ok p gc gs a -> gs !! s = Some (b, q) -> servers p !! s = Some r -> ss a !! s = Some v ->
  exists p' gc' b' rb, fail_all NA n p s = Ret p' /\ SI p' gc' (<[s := (b', [])]> gs) /\ servers p' = <[s := r_set_ring r rb]> (servers p) /\
    spec_ok p' gc' (<[s := (b', [])]> gs) (set_server s (mkSserver (up v) [] (asked v)) (fail_each a (waiting v))).
Proof.
  induction n as [|n IH]; intros p gc gs a b q r v Hn HS Hsp Hg Hr Hv; [lia|]. cbn [fail_all]. unfold look. rewrite Hr. cbn [go_bind].
  pose proof (si_s _ _ _ _ _ HS _ _ _ _ Hr Hg) as Hok. destruct q as [|i q].
  - rewrite (PopFront_nil _ _ _ _ (so_ring _ _ _ _ _ _ Hok) eq_refl). exists p, gc, b, (r_ring r). rewrite !insert_id by (rewrite ?Hr; destruct r; done). split_and!; try done.
    destruct (sp_s _ _ _ _ _ Hsp _ _ _ _ _ Hr Hg Hv) as (_ & W & _). cbn in W. destruct v as [u w l]; cbn in *. destruct w; [|done]. cbn. by rewrite set_server_same.
  - destruct (served_refine _ _ _ _ _ _ _ _ _ _ HS Hsp Hg Hr Hv) as (rb & t & w & -> & Ew & (x & Hx) & Hall).
    destruct (Hall None (GetErrMsg REDIS_RSP_DISCONNECT)) as (p1 & gc1 & E & HS1 & Hsp1 & Es). rewrite answer_set_server in Hsp1.
    destruct (IH p1 gc1 _ _ (S b) q (r_set_ring r rb) (mkSserver (up v) w (asked v)) ltac:(cbn in Hn; lia) HS1 Hsp1) as (p' & gc' & b' & rb' & E' & HS' & Es' & Hsp');
      [apply lookup_insert_eq|rewrite Es; apply lookup_insert_eq|apply lookup_insert_eq|].
    exists p', gc', b', rb'. split_and!.
    + unfold served, look in E. rewrite Hx in E. cbn [go_bind] in E. unfold id_ReplyError, look. cbn [idents put_server]. rewrite Hx. cbn [go_bind].
      assert (forall (X Y : go proxy), X = Y -> go_bind Y (fun p => id_Release p i REDIS_RELEASE) = Ret p1 ->
        go_bind X (fun p => go_bind (id_Release p i REDIS_RELEASE) (fun p => fail_all NA n p s)) = Ret p') as Hb.
      { intros X Y -> HY. destruct Y as [Y|]; cbn in *; [|done]. rewrite HY. done. }
      eapply Hb; [|exact E]. by destruct (pAccessEvent x).
    + by rewrite insert_insert_eq in HS'.
    + by rewrite Es', Es, insert_insert_eq.
    + rewrite insert_insert_eq in Hsp'. cbn [up waiting asked] in Hsp'. rewrite fail_each_set, set_server_twice in Hsp'. by rewrite Ew.
Qed.

Lemma redis_Close_refine p gc gs a s r : refine p gc gs a -> servers p !! s = Some r ->
  exists p', redis_Close NA p s = Ret p' /\ refines NA NR p' (spec_lose s a).
Proof.
  intros H Hr. pose proof (rf_si _ _ _ _ _ _ H) as HS. destruct (si_info_s _ _ _ _ _ HS _ _ Hr) as (b & q & Hg & Hok).
  destruct (spec_server_at _ _ _ _ _ _ _ _ H Hr Hg) as (v & Hv & U & W & A). unfold redis_Close, look. rewrite Hr. cbn [go_bind].
  unfold spec_lose. rewrite Hv, U. destruct (r_open r) eqn:Ho; cbn [negb]; [|exists p; split; [done|]; by exists gc, gs].
  set (r0 := mkRedis _ _ _ _ _ _ _ _). assert (server_ok NR (idents p) s r0 b q) as Hok0 by (split; cbn; try done; apply Hok).
  pose proof (si_put_server NA NR NA_pos NR_pos NR_max _ _ _ HS _ _ _ r0 Hg Hok0) as HS0.
  assert (spec_ok (put_server p s r0) gc gs (set_server s (mkSserver false (waiting v) (asked v)) a)) as Hsp0.
  { rewrite <- (insert_id gs s (b, q)) by done. eapply spec_server; [apply H|done..|by split_and!|done]. }
  assert (length q < S (GetNum (r_ring r)))%nat as Hlen by (unfold GetNum; rewrite (rb_num _ _ _ _ (so_ring _ _ _ _ _ _ Hok)); lia).
  destruct (fail_all_ok _ s _ _ _ _ b q r0 (mkSserver false (waiting v) (asked v)) Hlen HS0 Hsp0 Hg (lookup_insert_eq _ _ _) (lookup_insert_eq _ _ _))
    as (p' & gc' & b' & rb & E & HS' & Es & Hsp').
  - exists p'. split; [done|]. exists gc', (<[s := (b', [])]> gs). split; [done| |].
    + cbn [up waiting asked] in Hsp'. rewrite fail_each_set, set_server_twice in Hsp'. exact Hsp'.
    + intros s1 r1 b1 q1. rewrite Es. cbn. rewrite insert_insert_eq. destruct (decide (s1 = s)) as [->|Hn]; [rewrite !lookup_insert_eq|rewrite !lookup_insert_ne by done; apply H].
      by intros [= <-] [= <- <-].
Qed.

Lemma redis_ReConnect_refine p gc gs a s r : refine p gc gs a -> servers p !! s = Some r ->
  exists p', redis_ReConnect p s = Ret p' /\ refines NA NR p' (spec_reconnect s a).
Proof.
  intros H Hr. pose proof (rf_si _ _ _ _ _ _ H) as HS. destruct (si_info_s _ _ _ _ _ HS _ _ Hr) as (b & q & Hg & Hok).
  destruct (spec_server_at _ _ _ _ _ _ _ _ H Hr Hg) as (v & Hv & U & W & A). unfold redis_ReConnect, look. rewrite Hr. cbn [go_bind].
  unfold spec_reconnect. rewrite Hv, U. destruct (r_open r) eqn:Ho; [exists p; split; [done|]; by exists gc, gs|].
  pose proof (rf_quiet _ _ _ _ _ _ H _ _ _ _ Hr Hg Ho) as ->. eexists. split; [done|]. set (r0 := mkRedis _ _ _ _ _ _ _ _).
  exists gc, (<[s := (0%nat, [])]> gs). assert (forall m, server_ok NR m s r0 0 []) as Hok0.
  { intros m. split; cbn; try done; try lia; [|apply Hok|by constructor|intros i Hi; set_solver]. unfold ring_ReInit. rewrite (rb_len _ _ _ _ (so_ring _ _ _ _ _ _ Hok)). by apply new_ring_ok. }
  split.
  - split; cbn; try apply HS.
    + by rewrite !dom_insert_L, (si_dom_s _ _ _ _ _ HS).
    + intros s1 r1 b1 q1. destruct (decide (s1 = s)) as [->|Hn]; [rewrite !lookup_insert_eq; naive_solver|rewrite !lookup_insert_ne by done; apply HS].
    + intros i x Hi. pose proof (si_own _ _ _ _ _ HS _ _ Hi) as Hio. split; try apply Hio. intros s1 Hs1. destruct (io_server _ _ _ _ Hio _ Hs1) as (Hd & b1 & q1 & F & Hin).
      split; [done|]. exists b1, q1. rewrite lookup_insert_ne; [done|]. intros <-. rewrite Hg in F. simplify_eq. set_solver.
  - eapply spec_server; [apply H|done..| |done]. split_and!; cbn; [done|done|]. split; [by constructor|]. exists 0%nat, [], [], []. done.
  - intros s1 r1 b1 q1. cbn. destruct (decide (s1 = s)) as [->|Hn]; [rewrite !lookup_insert_eq; naive_solver|rewrite !lookup_insert_ne by done; apply H].
Qed.

(** ** A client leaves *)

(** What is left of the identities that wait for a server. *)
Definition left_idents c m m' : Prop := forall j y s, m !! j = Some y -> pRedisEvent y = Some s ->
  exists y', m' !! j = Some y' /\ pRedisEvent y' = Some s /\ ulIndex y' = ulIndex y /\
    (pAccessEvent y' = pAccessEvent y \/ (pAccessEvent y = Some c /\ pAccessEvent y' = None)).

Lemma leave_all_ok n c gs : forall p gc b q v x, (length q < n)%nat -> SI p gc gs -> gc !! c = Some (b, q, v) -> clients p !! c = Some x ->
  exists p' b' x', leave_all n p c = Ret p' /\ SI p' (<[c := (b', [], [])]> gc) gs /\ clients p' = <[c := x']> (clients p) /\ servers p' = servers p /\
    left_idents c (idents p) (idents p').
Proof.
  induction n as [|n IH]; intros p gc b q v x Hn HS Hg Hx; [lia|]. cbn [leave_all]. unfold look. rewrite Hx. cbn [go_bind].
  pose proof (si_c _ _ _ _ _ HS _ _ _ _ _ Hx Hg) as Hok. pose proof (co_len _ _ _ _ _ _ _ Hok) as Hl. destruct q as [|i q].
  - rewrite (PopFront_nil _ _ _ _ (co_ring _ _ _ _ _ _ _ Hok) eq_refl). destruct v; [|done]. exists p, b, x. rewrite !insert_id by done. split_and!; try done.
    intros j y s Hy Hr. exists y. auto.
  - destruct v as [|v0 v]; [done|]. destruct (pop_client _ _ _ HS _ _ _ _ _ _ _ Hg Hx) as (rb & y & p1 & -> & Hy & Ha & -> & HS1 & E1 & E2 & E3 & E4). cbn [go_bind].
    destruct (IH p1 _ (S b) q v (a_set_ring x rb) ltac:(cbn in Hn; lia) HS1) as (p' & b' & x' & E & HS' & F1 & F2 & F3); [apply lookup_insert_eq|rewrite E1; apply lookup_insert_eq|].
    exists p', b', x'. rewrite insert_insert_eq in HS'. rewrite E1, insert_insert_eq in F1. split_and!; [done..|congruence|].
    intros j z s Hz Hr. destruct (decide (j = i)) as [->|Hne].
    + assert (z = y) as -> by congruence. destruct (F3 i (set_access None y) s) as (y' & G1 & G2 & G3 & G4); [apply E4; congruence|done|].
      exists y'. split_and!; [done..|]. right. split; [done|]. by destruct G4 as [->|[? _]].
    + apply F3; [|done]. by rewrite E3.
Qed.

Lemma left_target c m m' gc gs j y s (b : nat) : left_idents c m m' -> m !! j = Some y -> pRedisEvent y = Some s ->
  (forall i x, m' !! i = Some x -> ident_ok (<[c := (b, [], [])]> gc) gs i x) -> target <$> m' !! j = forget c <$> (target <$> m !! j).
Proof.
  intros Hl Hy Hr Hown. destruct (Hl _ _ _ Hy Hr) as (y' & Hy' & _ & Hi & Hacc). rewrite Hy, Hy'. cbn. f_equal. unfold target. rewrite Hi.
  assert (pAccessEvent y' <> Some c) as Hnc.
  { intros E. destruct (io_client _ _ _ _ (Hown _ _ Hy') _ E) as (b1 & q1 & v1 & F & Hin). rewrite lookup_insert_eq in F. simplify_eq. set_solver. }
  destruct Hacc as [E|[E1 E2]].
  - rewrite E in *. destruct (pAccessEvent y) as [c'|]; [|done]. cbn. rewrite decide_False; [done|]. congruence.
  - rewrite E1, E2. cbn. by rewrite decide_True.
Qed.

Lemma access_Close_refine p gc gs a c x : refine p gc gs a -> clients p !! c = Some x ->
  exists p', access_Close p c = Ret p' /\ refine p' (delete c gc) gs (spec_leave c a).
Proof.
  intros H Hx. pose proof (rf_si _ _ _ _ _ _ H) as HS. pose proof (rf_spec _ _ _ _ _ _ H) as Hsp. destruct (si_info_c _ _ _ _ _ HS _ _ Hx) as (b & q & v & Hg & Hok).
  assert (length q < S (GetNum (a_ring x)))%nat as Hlen by (unfold GetNum; rewrite (rb_num _ _ _ _ (co_ring _ _ _ _ _ _ _ Hok)); lia).
  destruct (leave_all_ok _ c gs p gc b q v x Hlen HS Hg Hx) as (p' & b' & x' & E & HS' & E1 & E2 & Hleft). unfold access_Close, look. rewrite Hx. cbn [go_bind]. rewrite E. cbn [go_bind].
  eexists. split; [done|]. assert (delete c (<[c := (b', [], [])]> gc) = delete c gc) as Eg by apply delete_insert_eq.
  assert (delete c (clients p') = delete c (clients p)) as Ec by (rewrite E1; apply delete_insert_eq). split.
  - split; cbn; rewrite ?Ec; try apply HS'.
    + by rewrite !dom_delete_L, (si_dom_c _ _ _ _ _ HS).
    + intros c1 x1 b1 q1 v1. rewrite <- Ec, <- Eg. intros [_ F1]%lookup_delete_Some [_ F2]%lookup_delete_Some. by eapply si_c.
    + intros i y Hi. pose proof (si_own _ _ _ _ _ HS' _ _ Hi) as Hio. split; try apply Hio. intros c1 Hc1. destruct (io_client _ _ _ _ Hio _ Hc1) as (b1 & q1 & v1 & F & Hin).
      exists b1, q1, v1. destruct (decide (c1 = c)) as [->|Hn]; [rewrite lookup_insert_eq in F; simplify_eq; set_solver|]. rewrite lookup_insert_ne in F by done. by rewrite lookup_delete_ne.
  - split; cbn; rewrite ?Ec, ?E2; try apply Hsp.
    + by rewrite !dom_delete_L, (sp_dom_c _ _ _ _ _ Hsp).
    + rewrite dom_fmap_L. apply Hsp.
    + intros c1 x1 b1 q1 v1 l1 [_ F1]%lookup_delete_Some [_ F2]%lookup_delete_Some [_ F3]%lookup_delete_Some. by eapply (sp_c _ _ _ _ _ Hsp).
    + intros s r b1 q1 v1 F1 F2 F3. rewrite lookup_fmap in F3. destruct (ss a !! s) as [v0|] eqn:F4; [|done]. cbn in F3. injection F3 as <-.
      destruct (sp_s _ _ _ _ _ Hsp _ _ _ _ _ F1 F2 F4) as (U & W & A). split_and!; cbn; try done.
      transitivity (fmap (M := option) (forget c) <$> (Some <$> waiting v0)); [rewrite <- !list_fmap_compose; by apply list_fmap_ext|]. rewrite W, <- list_fmap_compose. apply list_fmap_ext. intros k j Hj.
      destruct (si_server _ _ _ _ _ HS _ _ _ F2) as (r1 & _ & Hs). destruct (so_entry _ _ _ _ _ _ Hs j) as (y & Hy & Hr); [by eapply list_elem_of_lookup_2|].
      symmetry. eapply left_target; [done..|apply HS'].
  - intros s r b1 q1 F1 F2. cbn in F1. rewrite E2 in F1. by eapply (rf_quiet _ _ _ _ _ _ H).
Qed.
End sim.
