(* ===== verification/Forwardwrite.v ===== *)
(** * Writing to clients and servers

    [Write] and [Sendv] of the two connections: whatever part of the ready
    messages the sockets take, the bytes go out in order, none twice and none
    left out, and an identity is freed when its answer has gone. *)

From S2P Require Import Prelude Ringbuffer Forward Forwardspec Forwardinv Forwardsim.

Section write.
Context (NA NR : nat).
Hypothesis NA_pos : (0 < NA)%nat.
Hypothesis NR_pos : (0 < NR)%nat.
Hypothesis NR_max : Z.of_nat NR <= 2 ^ 20.
Implicit Types (p : proxy) (c s i : nat) (gc : clients_info) (gs : servers_info) (m : gmap nat MsgIdenty) (a : spec).
Abbreviation refine := (refine NA NR).
Abbreviation SI := (SI NA NR).
Abbreviation client_ok := (client_ok NA).
Abbreviation server_ok := (server_ok NR).
Abbreviation spec_ok := (spec_ok NR).
Abbreviation pop_client := (pop_client NA NR NA_pos NR_pos NR_max).
Abbreviation access_Close_refine := (access_Close_refine NA NR NA_pos NR_pos NR_max).
Abbreviation redis_Close_refine := (redis_Close_refine NA NR NA_pos NR_pos NR_max).

(** ** A client *)

Lemma client_front m c x b i q d v : client_ok m c x b (i :: q) (Some d :: v) ->
  a_ciov x !! (b mod NA)%nat = Some d /\ exists y, m !! i = Some y /\ iWaitDone y = true.
Proof.
  intros Hok. destruct (co_entry _ _ _ _ _ _ _ Hok 0%nat i eq_refl) as (y & Hy & _ & _ & _ & Hv). cbn in Hv. rewrite Nat.add_0_r in Hv.
  destruct (iWaitDone y) eqn:E; [|done]. injection Hv as Hv. eauto.
Qed.

(** A part of the first answer has gone. *)
Lemma client_part m c x b q d v e : client_ok m c x b q (Some d :: v) -> client_ok m c (a_set_iov x (b mod NA)%nat e) b q (Some e :: v).
Proof.
  intros Hok. pose proof (rb_max _ _ _ _ (co_ring _ _ _ _ _ _ _ Hok)) as Hmax. split; cbn; rewrite ?length_insert; try apply Hok.
  intros k i Hk. destruct (co_entry _ _ _ _ _ _ _ Hok k i Hk) as (y & Hy & F1 & F2 & F3 & F4). exists y. split_and!; try done. pose proof (lookup_lt_Some _ _ _ Hk).
  destruct k as [|k].
  - cbn in *. rewrite Nat.add_0_r. destruct (iWaitDone y); [|done]. rewrite list_lookup_insert_eq; [done|]. rewrite (co_ciov _ _ _ _ _ _ _ Hok). apply Nat.mod_upper_bound. lia.
  - cbn in *. rewrite F4. destruct (iWaitDone y); [|done]. rewrite list_lookup_insert_ne; [done|]. rewrite <- (Nat.add_0_r b) at 1. intros E. apply slot_inj in E; lia.
Qed.

Lemma mod_succ b : (S (b mod NA) < NA)%nat -> (S b mod NA = S (b mod NA))%nat.
Proof. intros H. symmetry. apply (Nat.mod_unique _ _ (b / NA)); [done|]. pose proof (Nat.div_mod_eq b NA). lia. Qed.

(** The identities that wait for a server stay. *)
Definition keep_idents m m' : Prop := forall j y s, m !! j = Some y -> pRedisEvent y = Some s -> m' !! j = Some y.

Lemma a_sent_off_ok n c gs l : forall p gc b q v x ds z iov, SI p gc gs -> gc !! c = Some (b, q, v) -> clients p !! c = Some x ->
  take n v = Some <$> ds -> length ds = n -> ((0 < n)%nat -> iov = (b mod NA)%nat /\ (iov + n <= NA)%nat) -> sent_ok l b v (a_sent x) (take z (concat ds)) ->
  exists p' res k x' v', a_sent_off n p c iov (Z.of_nat z) = Ret (p', res) /\ SI p' (<[c := ((b + k)%nat, drop k q, v')]> gc) gs /\
    clients p' = <[c := x']> (clients p) /\ servers p' = servers p /\ keep_idents (idents p) (idents p') /\ a_write x' = a_write x /\
    sent_ok l (b + k) v' (a_sent x') [] /\ ((res = SendOk /\ k = n /\ v' = drop n v) \/ (res = SendAgain /\ (k < n)%nat /\ exists d, v' = Some d :: drop (S k) v)).
Proof.
  induction n as [|n IH]; intros p gc b q v x ds z iov HS Hg Hx Hv Hds Hiov Hs.
  - exists p, SendOk, 0%nat, x, v. rewrite Nat.add_0_r, !insert_id by done. destruct ds; [|done]. cbn in Hs. rewrite take_nil in Hs. split_and!; try done; [intros ?; done|by left].
  - destruct ds as [|d ds]; [done|]. destruct v as [|v0 v]; [done|]. cbn in Hv. injection Hv as -> Hv. injection Hds as Hds. destruct (Hiov ltac:(lia)) as [-> Hle].
    pose proof (si_c _ _ _ _ _ HS _ _ _ _ _ Hx Hg) as Hok. destruct q as [|i q]; [by pose proof (co_len _ _ _ _ _ _ _ Hok)|].
    destruct (client_front _ _ _ _ _ _ _ _ Hok) as (Hc & y & Hy & Hd). cbn [a_sent_off]. unfold look. rewrite Hx. cbn [go_bind]. unfold bytes in *. rewrite Hc. cbn [default from_option id].
    cbn [concat] in Hs. unfold zlen. destruct (Z.ltb_spec (Z.of_nat z - Z.of_nat (length d)) 0) as [Hlt|Hge].
    + rewrite Nat2Z.id. pose proof (sent_part _ _ _ _ _ _ _ Hs ltac:(lia)) as Hs'. destruct (Z.eqb_spec (Z.of_nat (length d) - Z.of_nat z) (Z.of_nat (length d))) as [E|E].
      * assert (z = 0%nat) as -> by lia. exists p, SendAgain, 0%nat, x, (Some d :: v). cbn [drop]. rewrite Nat.add_0_r, !insert_id by done. split_and!; try done; [intros ?; done|].
        right. split_and!; [done|lia|eauto].
      * eexists _, SendAgain, 0%nat, _, _. split; [done|]. cbn [drop]. rewrite Nat.add_0_r. split_and!; [|done|done|intros ?; done|done|done|right; split_and!; [done|lia|eauto]].
        eapply si_set_client; [done..|]. by eapply client_part.
    + destruct (pop_client _ _ _ HS _ _ _ _ _ _ _ Hg Hx) as (rb & y1 & p1 & -> & Hy1 & Ha & -> & HS1 & E1 & E2 & E3 & E4). cbn [go_bind]. assert (y1 = y) as -> by congruence.
      pose proof (sent_over _ _ _ _ _ _ _ Hs ltac:(lia)) as Hs1. replace (Z.of_nat z - Z.of_nat (length d)) with (Z.of_nat (z - length d)) by lia.
      destruct (IH p1 _ (S b) q v (a_set_ring x rb) ds (z - length d)%nat (S (b mod NA)) HS1) as (p' & res & k & x' & v' & E & HS' & F1 & F2 & F3 & F4 & F5 & F6);
        [apply lookup_insert_eq|rewrite E1; apply lookup_insert_eq|done|done|intros Hn; rewrite mod_succ by lia; lia|done|].
      exists p', res, (S k), x', v'. rewrite insert_insert_eq in HS'. rewrite E1, insert_insert_eq in F1. replace (b + S k)%nat with (S b + k)%nat by lia. cbn [drop].
      split_and!; try done; [congruence| |destruct F6 as [(-> & -> & ->)|(-> & Hk & d1 & ->)]; [by left|right; split_and!; [done|lia|eauto]]].
      intros j w s Hj Hr. apply F3 with s; [|done]. rewrite E3; [done|]. intros ->. assert (w = y) as -> by congruence.
      pose proof (io_server _ _ _ _ (si_own _ _ _ _ _ HS _ _ Hy) _ Hr) as [? _]. congruence.
Qed.

Lemma mod_plus b k : (b mod NA + k < NA)%nat -> ((b + k) mod NA = b mod NA + k)%nat.
Proof. intros H. symmetry. apply (Nat.mod_unique _ _ (b / NA)); [done|]. pose proof (Nat.div_mod_eq b NA). lia. Qed.

(** The pieces to send are the answers that are ready. *)
Lemma client_ready m c x b q v n ds : client_ok m c x b q v -> take n v = Some <$> ds -> length ds = n -> (b mod NA + n <= NA)%nat ->
  take n (drop (b mod NA) (a_ciov x)) = ds.
Proof.
  intros Hok Hv Hn Hle. apply list_eq. intros k. destruct (decide (k < n)%nat) as [Hk|Hk].
  - rewrite lookup_take_lt, lookup_drop by done. destruct (lookup_lt_is_Some_2 ds k) as [d Hd]; [lia|]. assert (v !! k = Some (Some d)) as Hvk.
    { rewrite <- (lookup_take_lt v n k), Hv, list_lookup_fmap, Hd by done. done. }
    destruct (lookup_lt_is_Some_2 q k) as [i Hi]; [rewrite <- (co_len _ _ _ _ _ _ _ Hok); by eapply lookup_lt_Some|].
    destruct (co_entry _ _ _ _ _ _ _ Hok k i Hi) as (y & _ & _ & _ & _ & F). rewrite Hvk in F. destruct (iWaitDone y); [|done]. injection F as F.
    rewrite mod_plus in F by lia. rewrite Hd. by symmetry.
  - rewrite !lookup_ge_None_2; [done|lia|]. rewrite length_take. lia.
Qed.

(** What [writev] takes is the beginning of what it is given. *)
Lemma DoSendv_ok ds w : exists ret out, DoSendv ds w = (ret, out) /\
  ((ret = -1 /\ out = []) \/ (ret = -2 /\ out = []) \/ (ret = zlen out /\ out = take (length out) (concat ds))).
Proof.
  destruct w as [k| |]; cbn [DoSendv]; [|eauto 10..]. do 2 eexists. split; [done|]. right. right. split; [done|].
  assert (take (S k) (concat (take 512 ds)) `prefix_of` concat ds) as [r ->].
  { etrans; [apply prefix_take|]. rewrite <- (take_drop 512 ds) at 2. rewrite concat_app. by apply prefix_app_r. }
  by rewrite take_app_length.
Qed.

Lemma spec_same_client p gc gs a p' c x b q v l : spec_ok p gc gs a -> clients p' = <[c := x]> (clients p) -> servers p' = servers p -> sc a !! c = Some l ->
  client_spec x b v l -> SI p gc gs -> keep_idents (idents p) (idents p') -> spec_ok p' (<[c := (b, q, v)]> gc) gs a.
Proof.
  intros H E1 E2 Hl Hc HS Hk. replace a with (mkSpec (<[c := l]> (sc a)) (ss a)) by (rewrite insert_id by done; by destruct a).
  eapply spec_client; [done..|]. intros s sb sq j Hg Hj. destruct (si_server _ _ _ _ _ HS _ _ _ Hg) as (r & _ & Hok).
  destruct (so_entry _ _ _ _ _ _ Hok _ Hj) as (y & Hy & Hr). by rewrite (Hk _ _ _ Hy Hr), Hy.
Qed.

Lemma access_Sendv_refine p gc gs a c b q v n ds w : refine p gc gs a -> gc !! c = Some (b, q, v) -> (0 < n)%nat -> take n v = Some <$> ds -> length ds = n -> (b mod NA + n <= NA)%nat ->
  exists p' res, access_Sendv p c (b mod NA) n w = Ret (p', res) /\
    match res with
    | SendOk => refine p' (<[c := ((b + n)%nat, drop n q, drop n v)]> gc) gs a
    | SendAgain => refines NA NR p' a
    | SendErr => refines NA NR p' (spec_leave c a)
    end.
Proof.
  intros H Hg Hn Hv Hds Hle. pose proof (rf_si _ _ _ _ _ _ H) as HS. destruct (si_client _ _ _ _ _ HS _ _ _ _ Hg) as (x & Hx & Hok).
  destruct (spec_client_at _ _ _ _ _ _ _ _ _ _ _ H Hx Hg) as (l & Hl & Hs & Har). unfold access_Sendv. rewrite (proj2 (Nat.eqb_neq _ _)) by lia. unfold look. rewrite Hx. cbn [go_bind].
  rewrite (client_ready _ _ _ _ _ _ _ _ Hok Hv Hds Hle). destruct (DoSendv_ok ds w) as (ret & out & -> & Hret).
  assert (exists p', access_Close p c = Ret p' /\ refines NA NR p' (spec_leave c a)) as (pc & Ec & Hc).
  { destruct (access_Close_refine _ _ _ _ _ _ H Hx) as (p' & E & HR). exists p'. split; [done|]. by eexists _, _. }
  destruct (Z.leb_spec ret 0) as [Hr0|Hr0].
  - destruct (Z.eqb_spec ret (-2)); [eexists _, _; split; [done|]; by exists gc, gs|]. rewrite Ec. cbn. eexists _, _. done.
  - destruct Hret as [[-> _]|[[-> _]|[-> Hout]]]; [lia..|]. pose proof (si_put_client NA NR p gc gs HS c b q v (a_add_sent x out) Hg) as HS0.
    assert (client_ok (idents p) c (a_add_sent x out) b q v) as Hok0 by (split; apply Hok). specialize (HS0 Hok0).
    assert (sent_ok l b v (a_sent (a_add_sent x out)) (take (length out) (concat ds))) as Hs0.
    { destruct Hs as (over & part & rest & F1 & F2 & F3 & F4). exists over, part, rest. split_and!; try done. cbn. rewrite F3, app_nil_r, <- app_assoc. by rewrite <- Hout. }
    destruct (a_sent_off_ok n c gs l _ _ _ _ _ (a_add_sent x out) ds (length out) (b mod NA)%nat HS0 Hg) as (p' & res & k & x' & v' & E & HS' & F1 & F2 & F3 & F4 & F5 & F6);
      [apply lookup_insert_eq|done..|].
    exists p', res. split; [exact E|]. cbn in F1. rewrite insert_insert_eq in F1.
    assert (armed x' v') as Har'.
    { intros Hne Hno. rewrite F4. cbn. apply Har; [intros ->; rewrite take_nil in Hv; destruct ds; cbn in *; [lia|done]|].
      rewrite <- (take_drop n v), Hv. intros [Hin|Hin]%elem_of_app; [apply list_elem_of_fmap in Hin; naive_solver|].
      apply Hno. destruct F6 as [(_ & _ & ->)|(_ & Hk & d & ->)]; [done|]. right. rewrite <- (firstn_skipn (n - S k) (drop (S k) v)), drop_drop. apply elem_of_app. right.
      by replace (S k + (n - S k))%nat with n by lia. }
    assert (refine p' (<[c := ((b + k)%nat, drop k q, v')]> gc) gs a) as HR.
    { split; [done| |by unfold quiet; rewrite F2; apply H]. eapply spec_same_client; [apply H|done|done|done|by split|done|done]. }
    destruct F6 as [(-> & -> & ->)|(-> & _)]; [done|]. by eexists _, _.
Qed.

(** The state after a write to the client [c]. *)
Definition written c a (o : go (proxy * send_res)) : Prop :=
  exists p' res, o = Ret (p', res) /\ refines NA NR p' (match res with SendErr => spec_leave c a | _ => a end).

Lemma set_write_refine p gc gs a c x b q v w : refine p gc gs a -> gc !! c = Some (b, q, v) -> clients p !! c = Some x -> armed (a_set_write x w) v ->
  refine (put_client p c (a_set_write x w)) gc gs a.
Proof.
  intros H Hg Hx Har. pose proof (rf_si _ _ _ _ _ _ H) as HS. pose proof (si_c _ _ _ _ _ HS _ _ _ _ _ Hx Hg) as Hok.
  destruct (spec_client_at _ _ _ _ _ _ _ _ _ _ _ H Hx Hg) as (l & Hl & Hs & _). rewrite <- (insert_id gc c (b, q, v)) by done. split.
  - eapply si_set_client; [done..|]. split; apply Hok.
  - eapply spec_same_client; [apply H|done..|by split|done|intros j y s; done].
  - apply H.
Qed.

Lemma flush_refine p gc gs a c b q v n ds w : refine p gc gs a -> gc !! c = Some (b, q, v) -> take n v = Some <$> ds -> length ds = n -> (b mod NA + n <= NA)%nat ->
  (drop n v = [] \/ None ∈ drop n v) -> written c a (flush p c (b mod NA) n w).
Proof.
  intros H Hg Hv Hds Hle Hend. unfold flush, written. destruct (Nat.eqb_spec n 0) as [->|Hn]; [eexists _, _; split; [done|]; by exists gc, gs|].
  assert (0 < n)%nat as Hn' by lia. destruct (access_Sendv_refine _ _ _ _ _ _ _ _ _ _ w H Hg Hn' Hv Hds Hle) as (p' & res & -> & HR). cbn [go_bind]. destruct res; [|by eexists _, _..].
  destruct (si_client _ _ _ _ _ (rf_si _ _ _ _ _ _ HR) c _ _ _ (lookup_insert_eq _ _ _)) as (x & Hx & _). unfold look. rewrite Hx. cbn [go_bind]. eexists _, _. split; [done|].
  eexists _, _. eapply set_write_refine; [done|apply lookup_insert_eq|done|]. intros Hne Hno. by destruct Hend.
Qed.

Lemma take_snoc {A} (l : list A) n d ds (f : bytes -> A) : take n l = f <$> ds -> l !! n = Some (f d) -> take (S n) l = f <$> (ds ++ [d]).
Proof. intros E Hn. by rewrite (take_S_r _ _ _ Hn), E, fmap_app. Qed.

Lemma write_loop_refine k c gs a : forall p gc b q v n ds i ws, refine p gc gs a -> gc !! c = Some (b, q, v) -> (n + k = length q)%nat -> ((0 < k)%nat -> q !! n = Some i) ->
  take n v = Some <$> ds -> length ds = n -> (b mod NA + n < NA)%nat -> written c a (write_loop NA k p c i (b mod NA) n ws).
Proof.
  induction k as [|k IH]; intros p gc b q v n ds i ws H Hg Hk Hi Hv Hds Hle; pose proof (rf_si _ _ _ _ _ _ H) as HS;
    destruct (si_client _ _ _ _ _ HS _ _ _ _ Hg) as (x & Hx & Hok); pose proof (co_len _ _ _ _ _ _ _ Hok) as Hl.
  - cbn [write_loop]. eapply flush_refine; [done..|lia|]. left. apply drop_ge. lia.
  - specialize (Hi ltac:(lia)). destruct (co_entry _ _ _ _ _ _ _ Hok _ _ Hi) as (y & Hy & Hacc & Hidx & _ & Hvn). cbn [write_loop]. unfold look at 1. rewrite Hy. cbn [go_bind].
    rewrite bool_decide_true by done. cbn [negb]. assert (refine (put_ident p i (set_good y)) gc gs a) as H1 by (eapply refine_ident; try done; congruence).
    destruct (iWaitDone y) eqn:Hd; cbn [negb]; [|eapply flush_refine; [done..|lia|right; eapply (list_elem_of_lookup_2 _ 0); by rewrite lookup_drop, Nat.add_0_r]].
    destruct (a_ciov x !! ((b + n) mod NA)%nat) as [d|] eqn:Ed.
    2: { apply lookup_ge_None_1 in Ed. rewrite (co_ciov _ _ _ _ _ _ _ Hok) in Ed. pose proof (Nat.mod_upper_bound (b + n) NA ltac:(lia)). lia. }
    pose proof (take_snoc _ _ _ _ Some Hv Hvn) as Hv'. assert (length (ds ++ [d]) = S n) as Hds' by (rewrite length_app, Hds; cbn; lia).
    pose proof (co_next _ _ _ _ _ _ _ Hok) as Hnext. pose proof (co_lt _ _ _ _ _ _ _ Hok) as Hlt. rewrite Hidx, wrap_small by lia.
    replace (Z.of_nat (b + n) + 1) with (Z.of_nat (b + S n)) by lia. rewrite iov_slot_nat.
    destruct (Nat.eqb_spec ((b + S n) mod NA) 0) as [E0|E0].
    + assert (b mod NA + S n = NA)%nat as Eend. { destruct (decide (b mod NA + S n < NA)%nat); [rewrite mod_plus in E0 by done; lia|lia]. }
      destruct (access_Sendv_refine _ _ _ _ _ _ _ _ (S n) (ds ++ [d]) (w_nth ws 0) H1 Hg ltac:(lia) Hv' Hds' ltac:(lia)) as (p' & res & -> & HR). cbn [go_bind]. destruct res; [|by eexists _, _..].
      destruct (si_client _ _ _ _ _ (rf_si _ _ _ _ _ _ HR) c _ _ _ (lookup_insert_eq _ _ _)) as (x' & Hx' & Hok'). unfold look. rewrite Hx'. cbn [go_bind].
      assert (GetData (a_ring x') 0 = drop (S n) q !! 0%nat) as EG.
      { unfold GetData. rewrite <- (slot_at _ _ _ _ (co_ring _ _ _ _ _ _ _ Hok') 0%nat NA_pos), Nat.add_0_r, E0. f_equal. }
      rewrite EG. destruct (drop (S n) q !! 0%nat) as [j|] eqn:Ej.
      * pose proof (IH p' _ (b + S n)%nat (drop (S n) q) (drop (S n) v) 0%nat [] j (drop 1 ws) HR (lookup_insert_eq _ _ _)) as HI. rewrite E0, length_drop in HI. apply HI; try done; lia.
      * unfold flush. eexists _, _. split; [done|]. by eexists _, _.
    + assert (b mod NA + S n < NA)%nat as Eend.
      { destruct (decide (b mod NA + S n < NA)%nat); [done|]. exfalso. apply E0. assert (b mod NA + S n = NA)%nat by lia. symmetry.
        apply (Nat.mod_unique _ _ (S (b / NA))); [lia|]. pose proof (Nat.div_mod_eq b NA). nia. }
      unfold look. cbn [clients put_ident]. rewrite Hx. cbn [go_bind]. rewrite (GetData_spec _ _ _ _ (co_ring _ _ _ _ _ _ _ Hok)) by lia. destruct (q !! S n) as [j|] eqn:Ej.
      * eapply (IH _ gc b q v (S n) (ds ++ [d])); [done..|lia|by intros _|done|done|done].
      * eapply flush_refine; [done..|lia|]. left. apply drop_ge. apply lookup_ge_None_1 in Ej. lia.
Qed.

Lemma access_Write_refine p a c x ws : refines NA NR p a -> clients p !! c = Some x -> written c a (access_Write NA p c ws).
Proof.
  intros (gc & gs & H) Hx. pose proof (rf_si _ _ _ _ _ _ H) as HS. destruct (si_info_c _ _ _ _ _ HS _ _ Hx) as (b & q & v & Hg & Hok).
  unfold access_Write, look at 1. rewrite Hx. cbn [go_bind]. rewrite (GETFRONT_spec _ _ _ _ (co_ring _ _ _ _ _ _ _ Hok)). pose proof (co_len _ _ _ _ _ _ _ Hok) as Hl.
  destruct q as [|i q]; cbn [head].
  - eexists _, _. split; [done|]. exists gc, gs. eapply set_write_refine; [done..|]. destruct v; [|done]. intros Hne. by destruct Hne.
  - destruct (co_entry _ _ _ _ _ _ _ Hok 0%nat i eq_refl) as (y & Hy & _ & Hidx & _). unfold look. rewrite Hy. cbn [go_bind]. rewrite Hidx, Nat.add_0_r, iov_slot_nat.
    unfold GetNum. rewrite (rb_num _ _ _ _ (co_ring _ _ _ _ _ _ _ Hok)). pose proof (Nat.mod_upper_bound b NA ltac:(lia)).
    eapply (write_loop_refine _ c gs a p gc b (i :: q) v 0 []); [done..|lia].
Qed.

(** ** A server *)

Definition slots_ok (r : redis) : Prop :=
  length (r_ciov r) = NR /\ 0 <= m_lCiovReadIdx r <= m_lCiovWriteIdx r /\ m_lCiovWriteIdx r - m_lCiovReadIdx r <= Z.of_nat NR /\ m_lCiovWriteIdx r <= 0xFFFFFFF.

Lemma unsent_length r : length (unsent NR r) = Z.to_nat (m_lCiovWriteIdx r - m_lCiovReadIdx r).
Proof. unfold unsent. by rewrite length_fmap, length_seq. Qed.

Lemma unsent_front r : m_lCiovReadIdx r < m_lCiovWriteIdx r ->
  unsent NR r = default [] (r_ciov r !! iov_slot NR (m_lCiovReadIdx r)) :: unsent NR (r_set_idx r (m_lCiovReadIdx r + 1) (m_lCiovWriteIdx r)).
Proof.
  intros H. unfold unsent. cbn. replace (Z.to_nat (m_lCiovWriteIdx r - m_lCiovReadIdx r)) with (S (Z.to_nat (m_lCiovWriteIdx r - (m_lCiovReadIdx r + 1)))) by lia.
  cbn [seq fmap list_fmap]. rewrite Z.add_0_r. f_equal. rewrite <- fmap_S_seq, <- list_fmap_compose. apply list_fmap_ext. intros _ k _. cbn.
  by replace (m_lCiovReadIdx r + Z.of_nat (S k)) with (m_lCiovReadIdx r + 1 + Z.of_nat k) by lia.
Qed.

Lemma unsent_part r e : slots_ok r -> m_lCiovReadIdx r < m_lCiovWriteIdx r ->
  unsent NR (r_set_iov r (iov_slot NR (m_lCiovReadIdx r)) e) = e :: unsent NR (r_set_idx r (m_lCiovReadIdx r + 1) (m_lCiovWriteIdx r)).
Proof.
  intros (Hl & H1 & H2 & _) H. rewrite unsent_front by done. cbn. f_equal.
  - rewrite list_lookup_insert_eq; [done|]. eapply Nat.lt_le_trans; [by apply (iov_slot_lt NR)|]. apply Nat.eq_le_incl. exact (eq_sym Hl).
  - unfold unsent. cbn. apply list_fmap_ext. intros j k [-> Hk]%lookup_seq. rewrite list_lookup_insert_ne; [done|]. apply not_eq_sym, iov_slot_inj; lia.
Qed.

Lemma iov_slot_succ k : 0 <= k -> (S (iov_slot NR k) < NR)%nat -> iov_slot NR (k + 1) = S (iov_slot NR k).
Proof.
  intros Hk H. unfold iov_slot in *. pose proof (Z.mod_pos_bound k (Z.of_nat NR) ltac:(lia)). pose proof (Z.div_mod k (Z.of_nat NR) ltac:(lia)).
  replace ((k + 1) mod Z.of_nat NR) with (k mod Z.of_nat NR + 1); [lia|]. apply Z.mod_unique with (k / Z.of_nat NR); lia.
Qed.

Lemma asked_tail l d u sent debt n : Forall (fun d => d <> []) (d :: u) -> sent_ok (Some <$> l) n (Some <$> u) sent debt -> asked_ok l u sent debt.
Proof. intros [_ Hf]%Forall_cons Hs. split; [done|eauto]. Qed.

Lemma r_sent_off_ok n l : forall r ds z iov, slots_ok r -> take n (unsent NR r) = ds -> length ds = n ->
  ((0 < n)%nat -> iov = iov_slot NR (m_lCiovReadIdx r) /\ (iov + n <= NR)%nat) -> asked_ok l (unsent NR r) (r_sent r) (take z (concat ds)) ->
  exists r' res, r_sent_off n r iov (Z.of_nat z) = (r', res) /\ slots_ok r' /\ asked_ok l (unsent NR r') (r_sent r') [] /\
    r_ring r' = r_ring r /\ m_Status r' = m_Status r /\ r_open r' = r_open r /\ m_lCiovWriteIdx r' = m_lCiovWriteIdx r /\
    ((res = SendOk /\ m_lCiovReadIdx r' = m_lCiovReadIdx r + Z.of_nat n) \/ res = SendAgain).
Proof.
  induction n as [|n IH]; intros r ds z iov Hok Hds Hn Hiov Ha.
  - exists (r_set_write r false), SendOk. destruct ds; [|done]. cbn in Ha. rewrite take_nil in Ha. split_and!; try done. left. split; [done|]. cbn. lia.
  - destruct (Hiov ltac:(lia)) as [-> Hle]. pose proof Hok as (Hl & H1 & H2 & H3).
    assert (m_lCiovReadIdx r < m_lCiovWriteIdx r) as Hlt by (rewrite <- Hds, length_take, unsent_length in Hn; lia).
    pose proof (unsent_front r Hlt) as Hu. cbn [r_sent_off]. set (d := default [] (r_ciov r !! iov_slot NR (m_lCiovReadIdx r))) in *. rewrite Hu in Hds, Ha. cbn [take] in Hds. subst ds.
    set (r1 := r_set_idx r (m_lCiovReadIdx r + 1) (m_lCiovWriteIdx r)) in *. cbn [concat] in Ha. destruct Ha as (Hf & k & Hs). cbn [fmap list_fmap] in Hs. unfold zlen.
    destruct (Z.ltb_spec (Z.of_nat z - Z.of_nat (length d)) 0) as [Hz|Hz].
    + rewrite Nat2Z.id. pose proof (sent_part _ _ _ _ _ _ _ Hs ltac:(lia)) as Hs'. destruct (Z.eqb_spec (Z.of_nat (length d) - Z.of_nat z) (Z.of_nat (length d))) as [E|E].
      * assert (z = 0%nat) as -> by lia. exists r, SendAgain. split_and!; try done; [|by right]. rewrite Hu. split; [done|]. exists k. exact Hs'.
      * eexists _, SendAgain. split; [done|]. cbn [r_sent r_set_iov]. rewrite unsent_part by done. split_and!; try done; [unfold slots_ok; cbn; by rewrite length_insert| |by right].
        split; [|by exists k]. apply Forall_cons in Hf as [_ Hf]. constructor; [|done]. intros Hd. apply (f_equal length) in Hd. rewrite length_drop in Hd. cbn in Hd. lia.
    + replace (Z.of_nat z - Z.of_nat (length d)) with (Z.of_nat (z - length d)) by lia. rewrite wrap_small by lia. fold r1.
      destruct (IH r1 (take n (unsent NR r1)) (z - length d)%nat (S (iov_slot NR (m_lCiovReadIdx r)))) as (r' & res & E & G1 & G2 & G3 & G4 & G5 & G6 & G7).
      * unfold slots_ok, r1. cbn. split_and!; [done|lia..].
      * done.
      * cbn in Hn. lia.
      * intros Hn0. cbn. rewrite iov_slot_succ by lia. lia.
      * eapply asked_tail; [done|]. eapply sent_over; [exact Hs|lia].
      * exists r', res. split_and!; try done. destruct G7 as [[-> G7]|G7]; [left|by right]. split; [done|]. rewrite G7. cbn. lia.
Qed.

Lemma iov_slot_plus k j : 0 <= k -> (iov_slot NR k + j < NR)%nat -> iov_slot NR (k + Z.of_nat j) = (iov_slot NR k + j)%nat.
Proof.
  intros Hk H. unfold iov_slot in *. pose proof (Z.mod_pos_bound k (Z.of_nat NR) ltac:(lia)). pose proof (Z.div_mod k (Z.of_nat NR) ltac:(lia)).
  replace ((k + Z.of_nat j) mod Z.of_nat NR) with (k mod Z.of_nat NR + Z.of_nat j); [lia|]. apply Z.mod_unique with (k / Z.of_nat NR); lia.
Qed.

Lemma server_ready r n : slots_ok r -> (n <= length (unsent NR r))%nat -> (iov_slot NR (m_lCiovReadIdx r) + n <= NR)%nat ->
  take n (drop (iov_slot NR (m_lCiovReadIdx r)) (r_ciov r)) = take n (unsent NR r).
Proof.
  intros (Hl & H1 & _) Hn Hle. rewrite unsent_length in Hn. apply list_eq. intros k. destruct (decide (k < n)%nat) as [Hk|Hk].
  - rewrite !lookup_take_lt, lookup_drop by done. unfold unsent. rewrite list_lookup_fmap, lookup_seq_lt by lia. cbn.
    rewrite iov_slot_plus by lia. destruct (r_ciov r !! _) eqn:E; [done|]. apply lookup_ge_None_1 in E. lia.
  - rewrite !lookup_ge_None_2; [done|rewrite length_take; lia..].
Qed.

Lemma refine_server p gc gs a s r r' b q v : refine p gc gs a -> servers p !! s = Some r -> gs !! s = Some (b, q) -> ss a !! s = Some v ->
  r_ring r' = r_ring r -> r_open r' = r_open r -> ConnectOK r' = r_open r' -> slots_ok r' -> asked_ok (asked v) (unsent NR r') (r_sent r') [] ->
  refine (put_server p s r') gc gs a.
Proof.
  intros H Hr Hg Hv E1 E2 E3 (S1 & S2 & S3 & S4) Ha. pose proof (rf_si _ _ _ _ _ _ H) as HS. pose proof (si_s _ _ _ _ _ HS _ _ _ _ Hr Hg) as Hok. split.
  - eapply si_put_server; [done..|]. split; rewrite ?E1; try done; apply Hok.
  - rewrite <- (insert_id gs s (b, q)) by done. rewrite <- (set_server_same s v a) by done. destruct (sp_s _ _ _ _ _ (rf_spec _ _ _ _ _ _ H) _ _ _ _ _ Hr Hg Hv) as (U & W & _).
    eapply spec_server; [apply H|done..| |done]. split_and!; [by rewrite E2|done|done].
  - intros s1 r1 b1 q1. cbn. destruct (decide (s1 = s)) as [->|Hn]; [rewrite lookup_insert_eq|rewrite lookup_insert_ne by done; apply H].
    intros [= <-] F. rewrite E2. by eapply (rf_quiet _ _ _ _ _ _ H).
Qed.

Lemma server_slots m s r b q : server_ok m s r b q -> slots_ok r.
Proof. intros Hok. split_and!; apply Hok. Qed.

(** A [writev] of requests takes a byte at least. *)
Lemma DoSendv_zero ds w out : Forall (fun d => d <> []) ds -> ds <> [] -> DoSendv ds w <> (0, out).
Proof.
  intros Hf Hne. destruct w as [k| |]; cbn [DoSendv]; [|done..]. destruct ds as [|d ds]; [done|]. apply Forall_cons in Hf as [Hd _]. destruct d as [|x d]; [done|].
  change (take 512 ((x :: d) :: ds)) with ((x :: d) :: take 511 ds). cbn [concat take app]. done.
Qed.

Lemma redis_Sendv_refine p gc gs a s r n w : refine p gc gs a -> servers p !! s = Some r -> (0 < n)%nat -> (n <= length (unsent NR r))%nat ->
  (iov_slot NR (m_lCiovReadIdx r) + n <= NR)%nat ->
  exists p' res, redis_Sendv NA p s (iov_slot NR (m_lCiovReadIdx r)) n w = Ret (p', res) /\
    match res with
    | SendOk => refine p' gc gs a /\ exists r', servers p' !! s = Some r' /\ m_lCiovReadIdx r' = m_lCiovReadIdx r + Z.of_nat n /\ m_lCiovWriteIdx r' = m_lCiovWriteIdx r
    | SendAgain => refines NA NR p' a
    | SendErr => refines NA NR p' (spec_lose s a)
    end.
Proof.
  intros H Hr Hn Hlen Hle. pose proof (rf_si _ _ _ _ _ _ H) as HS. destruct (si_info_s _ _ _ _ _ HS _ _ Hr) as (b & q & Hg & Hok). pose proof (server_slots _ _ _ _ _ Hok) as Hsl.
  destruct (spec_server_at _ _ _ _ _ _ _ _ _ _ H Hr Hg) as (v & Hv & U & W & A). unfold redis_Sendv. rewrite (proj2 (Nat.eqb_neq _ _)) by lia. unfold look. rewrite Hr. cbn [go_bind].
  rewrite server_ready by done. set (ds := take n (unsent NR r)). assert (length ds = n) as Hds by (unfold ds; rewrite length_take; lia).
  assert (Forall (fun d => d <> []) ds) as Hf by (apply Forall_take, A). destruct (DoSendv_ok ds w) as (ret & out & E & Hret). rewrite E.
  destruct (Z.ltb_spec ret 0) as [Hr0|Hr0].
  - destruct (Z.eqb_spec ret (-2)); [eexists _, _; split; [done|]; by exists gc, gs|].
    destruct (redis_Close_refine _ _ _ _ _ _ H Hr) as (p' & -> & HR). cbn. eexists _, _. done.
  - destruct (Z.eqb_spec ret 0) as [->|Hnz]; [by apply DoSendv_zero in E; [|done|destruct ds; [cbn in Hds; lia|done]]|].
    destruct Hret as [[-> _]|[[-> _]|[-> Hout]]]; [lia..|].
    assert (asked_ok (asked v) (unsent NR (r_add_sent r out)) (r_sent (r_add_sent r out)) (take (length out) (concat ds))) as A'.
    { destruct A as (A0 & k & over & part & rest & F1 & F2 & F3 & F4). split; [done|]. exists k, over, part, rest. split_and!; try done. cbn. rewrite F3, app_nil_r, <- app_assoc. by rewrite <- Hout. }
    destruct (r_sent_off_ok n (asked v) (r_add_sent r out) ds (length out) (iov_slot NR (m_lCiovReadIdx r))) as (r' & res & E' & G1 & G2 & G3 & G4 & G5 & G6 & G7); [done..|].
    unfold zlen. rewrite E'. exists (put_server p s r'), res. split; [done|]. assert (refine (put_server p s r') gc gs a) as HR.
    { eapply refine_server; try done. transitivity (ConnectOK r); [unfold ConnectOK; by rewrite G4|]. rewrite G5. apply Hok. }
    destruct G7 as [[-> G7]| ->]; [|by exists gc, gs]. split; [done|]. exists r'. cbn. by rewrite lookup_insert_eq.
Qed.

(** The state after a write to the server [s]. *)
Definition put_out s a (o : go (proxy * send_res)) : Prop :=
  exists p' res, o = Ret (p', res) /\ refines NA NR p' (match res with SendErr => spec_lose s a | _ => a end).

(** The unsent requests are in one piece, or in two. *)
Lemma one_piece R W : 0 <= R < W -> W - R <= Z.of_nat NR -> (iov_slot NR R < iov_slot NR W)%nat -> (iov_slot NR W - iov_slot NR R)%nat = Z.to_nat (W - R).
Proof.
  intros H1 H2 H3. unfold iov_slot in *. pose proof (Z.mod_pos_bound R (Z.of_nat NR) ltac:(lia)). pose proof (Z.mod_pos_bound W (Z.of_nat NR) ltac:(lia)).
  pose proof (Z.div_mod R (Z.of_nat NR) ltac:(lia)). pose proof (Z.div_mod W (Z.of_nat NR) ltac:(lia)).
  assert (W / Z.of_nat NR = R / Z.of_nat NR) by nia. nia.
Qed.

Lemma two_pieces R W : 0 <= R < W -> W - R <= Z.of_nat NR -> (iov_slot NR W <= iov_slot NR R)%nat ->
  (NR - iov_slot NR R + iov_slot NR W)%nat = Z.to_nat (W - R) /\ iov_slot NR (R + Z.of_nat (NR - iov_slot NR R)) = 0%nat.
Proof.
  intros H1 H2 H3. unfold iov_slot in *. pose proof (Z.mod_pos_bound R (Z.of_nat NR) ltac:(lia)). pose proof (Z.mod_pos_bound W (Z.of_nat NR) ltac:(lia)).
  pose proof (Z.div_mod R (Z.of_nat NR) ltac:(lia)). pose proof (Z.div_mod W (Z.of_nat NR) ltac:(lia)).
  assert (W / Z.of_nat NR = R / Z.of_nat NR + 1) by nia. split; [nia|].
  replace (R + Z.of_nat (NR - Z.to_nat (R mod Z.of_nat NR))) with ((R / Z.of_nat NR + 1) * Z.of_nat NR) by nia. by rewrite Z_mod_mult.
Qed.

Lemma redis_Write_refine p a s r ok ws : refines NA NR p a -> servers p !! s = Some r -> put_out s a (redis_Write NA NR p s ok ws).
Proof.
  intros (gc & gs & H) Hr. unfold redis_Write, look at 1. rewrite Hr. cbn [go_bind].
  assert (exists p1 b1, match m_Status r with
    | GR_CONNECT_CONNECTING => if ok then Ret (put_server p s (r_set_status r GR_CONNECT_CONNECTED), true) else let! p := redis_Close NA p s in Ret (p, false)
    | _ => Ret (p, true) end = Ret (p1, b1) /\
    if b1 : bool then refine p1 gc gs a /\ exists r1, servers p1 !! s = Some r1 else refines NA NR p1 (spec_lose s a)) as (p1 & b1 & -> & H1).
  { destruct (m_Status r) eqn:Est; try (eexists _, true; eauto; fail). destruct ok.
    - eexists _, true. split; [done|]. split; [|exists (r_set_status r GR_CONNECT_CONNECTED); cbn; by rewrite lookup_insert_eq].
      pose proof (rf_si _ _ _ _ _ _ H) as HS. destruct (si_info_s _ _ _ _ _ HS _ _ Hr) as (b & q & Hg & Hok). destruct (spec_server_at _ _ _ _ _ _ _ _ _ _ H Hr Hg) as (v & Hv & U & W & A).
      eapply refine_server; try done; [|exact (server_slots _ _ _ _ _ Hok)]. rewrite <- (so_open _ _ _ _ _ _ Hok : _ = r_open (r_set_status r GR_CONNECT_CONNECTED)). unfold ConnectOK. by rewrite Est.
    - destruct (redis_Close_refine _ _ _ _ _ _ H Hr) as (p' & -> & HR). eexists _, false. done. }
  cbn [go_bind]. destruct b1; cbn [negb]; [|by eexists _, _]. destruct H1 as [H1 [r1 Hr1]]. unfold look. rewrite Hr1. cbn [go_bind]. clear dependent p r. rename p1 into p, r1 into r, H1 into H, Hr1 into Hr.
  pose proof (rf_si _ _ _ _ _ _ H) as HS. destruct (si_info_s _ _ _ _ _ HS _ _ Hr) as (b & q & Hg & Hok). destruct (server_slots _ _ _ _ _ Hok) as (Hl & H1 & H2 & H3).
  rewrite (proj2 (Z.leb_le _ _)), (proj2 (Z.leb_le _ _)) by lia. cbn [andb negb]. destruct (spec_server_at _ _ _ _ _ _ _ _ _ _ H Hr Hg) as (v & Hv & U & W & A).
  destruct (Z.eqb_spec (m_lCiovWriteIdx r) (m_lCiovReadIdx r)) as [E|E].
  - eexists _, _. split; [done|]. exists gc, gs. eapply refine_server; try done; first [exact (server_slots _ _ _ _ _ Hok)|apply Hok].
  - pose proof (iov_slot_lt NR (m_lCiovReadIdx r) NR_pos). pose proof (unsent_length r) as Hlen. destruct (Nat.ltb_spec (iov_slot NR (m_lCiovReadIdx r)) (iov_slot NR (m_lCiovWriteIdx r))) as [Hlt|Hge].
    + pose proof (one_piece (m_lCiovReadIdx r) (m_lCiovWriteIdx r) ltac:(lia) H2 Hlt). pose proof (iov_slot_lt NR (m_lCiovWriteIdx r) NR_pos).
      destruct (redis_Sendv_refine p gc gs a s r (iov_slot NR (m_lCiovWriteIdx r) - iov_slot NR (m_lCiovReadIdx r)) (w_nth ws 0) H Hr) as (p' & res & -> & HR); [lia..|].
      eexists _, _. split; [done|]. destruct res; [|done..]. destruct HR as [HR _]. by exists gc, gs.
    + destruct (two_pieces (m_lCiovReadIdx r) (m_lCiovWriteIdx r) ltac:(lia) H2 Hge) as [Hsum Hwrap].
      destruct (redis_Sendv_refine p gc gs a s r (NR - iov_slot NR (m_lCiovReadIdx r)) (w_nth ws 0) H Hr) as (p' & res & -> & HR); [lia..|]. cbn [go_bind].
      destruct res; [|by eexists _, _..]. destruct HR as (HR & r' & Hr' & E1 & E2). destruct (Nat.eqb_spec (iov_slot NR (m_lCiovWriteIdx r)) 0) as [Ez|Ez].
      * eexists _, _. split; [done|]. by exists gc, gs.
      * rewrite <- E1 in Hwrap. assert (length (unsent NR r') = iov_slot NR (m_lCiovWriteIdx r)) as Hlen' by (rewrite unsent_length, E1, E2; lia).
        pose proof (iov_slot_lt NR (m_lCiovWriteIdx r) NR_pos).
        destruct (redis_Sendv_refine p' gc gs a s r' (iov_slot NR (m_lCiovWriteIdx r)) (w_nth ws 1) HR Hr') as (p'' & res & E3 & HR'); [lia..|]. exists p'', res. split; [by rewrite Hwrap in E3|].
        destruct res; [|done..]. destruct HR' as [HR' _]. by exists gc, gs.
Qed.
End write.
