(* ===== verification/Forwardrun.v ===== *)
(** * The proxy as a whole

    The events of the proxy in any order: clients come, send requests and leave,
    servers reply, are lost and come back, sockets take bytes.  As long as no
    command is broadcast and every request that is forwarded has a server that is
    connected and has room, nothing fails and every client gets the answers to
    its own requests in the order of the requests.  The examples at the end show
    what the proxy does otherwise: replies cross after a broadcast, a block is
    released twice when a request has no server, and the proxy aborts when a
    server has too many requests waiting. *)

From S2P Require Import Prelude Ringbuffer Forward Forwardspec Forwardinv Forwardsim Forwardwrite.

Inductive event :=
| EAccept (c : nat)
| ERequest (c : nat) (act : action)
| EReply (s : nat) (d : bytes)
| EClientWrite (c : nat) (ws : list wres)
| EServerWrite (s : nat) (ok : bool) (ws : list wres)
| EClientClose (c : nat)
| EServerClose (s : nat)
| EReconnect (s : nat).

Definition MAX_WAIT_RING_LEN : nat := 4095.
Definition MAX_REDIS_MSG_IDENTY_POOL : nat := 65535.

Section run.
Context (NA NR : nat).
Implicit Types (p : proxy) (a : spec).

Definition new_redis : redis := mkRedis (new_ring NR) (replicate NR []) 0 0 GR_CONNECT_INIT false false [].

(** The proxy with [n] servers, none of them connected, and no client. *)
Definition start (n : nat) : proxy :=
  mkProxy ∅ (gset_to_gmap new_redis (set_seq 0 n)) ∅ (new_ring NR) 0.

Definition step p (e : event) : go proxy :=
  match e with
  | EAccept c => Ret (put_client p c (new_access NA))
  | ERequest c act => let! o := on_request NA NR p c act in Ret (default p o)
  | EReply s d => on_reply NA p s d
  | EClientWrite c ws => let! (p, _) := access_Write NA p c ws in Ret p
  | EServerWrite s ok ws => let! (p, _) := redis_Write NA NR p s ok ws in Ret p
  | EClientClose c => access_Close p c
  | EServerClose s => redis_Close NA p s
  | EReconnect s => redis_ReConnect p s
  end.



Fixpoint exec p (es : list event) : go proxy :=
  match es with [] => Ret p | e :: es => let! p := step p e in exec p es end.


(** ** The same for the specification *)







Hypothesis NA_pos : (0 < NA)%nat.
Hypothesis NR_pos : (0 < NR)%nat.
Hypothesis NR_max : Z.of_nat NR <= 2 ^ 20.











End run.

(** ** Examples *)

(** Two clients and two servers; the second server is the first to reply, and the
    socket of the first client takes four bytes at a time. *)
Definition sample_events : list event :=
  [EReconnect 0; EReconnect 1; EServerWrite 0 true []; EServerWrite 1 true []; EAccept 5; EAccept 6;
   ERequest 5 (ARoute (Some 0%nat) (str "GET a")); ERequest 5 (ARoute (Some 1%nat) (str "GET b")); ERequest 5 (AReply REDIS_RSP_PONG);
   ERequest 6 (ARoute (Some 0%nat) (str "GET c")); EServerWrite 0 true [WTake 6]; EServerWrite 1 true [WTake 90]; EReply 1 (str "$1 b");
   EClientWrite 5 [WTake 3]; EReply 0 (str "$2 aa"); EClientWrite 5 [WTake 3]; EClientWrite 5 [WTake 3]; EServerWrite 0 true [WTake 90]; EReply 0 (str "$1 c");
   EClientWrite 6 [WTake 90]; EClientClose 6; EServerClose 0; EClientWrite 5 [WTake 90]].



Definition client_sent (c : nat) (o : go proxy) : option bytes := match o with Ret p => a_sent <$> clients p !! c | Panic => None end.

Example sample_sent : client_sent 5 (exec 4 4 (start 4 2) sample_events) = Some (str "$2 aa$1 b+PONG" ++ [13; 10]).
Proof. vm_compute. reflexivity. Qed.

(** A client sends a command that goes to both servers and leaves.  The first
    reply frees the identity, which the second server still has in its ring; it is
    given to the next request of another client, which gets the second reply of
    the command as its answer. *)
Example broadcast_crosses :
  client_sent 6 (exec 4 4 (start 4 2)
    [EReconnect 0; EReconnect 1; EAccept 5; ERequest 5 (ABroadcast [Some 0%nat; Some 1%nat] (str "FLUSHDB")); EServerWrite 0 true [WTake 90]; EServerWrite 1 true [WTake 90];
     EClientClose 5; EReply 0 (str "+OK"); EAccept 6; ERequest 6 (ARoute (Some 0%nat) (str "GET a")); EReply 1 (str "+OK"); EClientWrite 6 [WTake 90]])
  = Some (str "+OK").
Proof. vm_compute. reflexivity. Qed.

(** A request has no server that is connected: its client gets an error, and when
    the answer has gone out the identity releases the block of the request, which
    the client's connection has released before. *)
Definition unroutable : list event := [EAccept 5; ERequest 5 (ARoute (Some 0%nat) (str "GET a")); EClientWrite 5 [WTake 90]].

Example failed_route_frees_twice :
  (exists p, exec 4 4 (start 4 1) (take 2 unroutable) = Ret p) /\ exec 4 4 (start 4 1) unroutable = Panic.
Proof. split; [eexists|]; vm_compute; reflexivity. Qed.

(** A server with all its places taken aborts the proxy. *)
Example full_server_aborts :
  exec 4 2 (start 2 1) ([EReconnect 0; EAccept 5] ++ replicate 3 (ERequest 5 (ARoute (Some 0%nat) (str "GET a")))) = Panic.
Proof. vm_compute. reflexivity. Qed.

(** When the unsent requests are in two pieces and the first goes out, the write
    event is given up; if the socket then takes nothing of the second piece, the
    request waits until another one comes. *)
Example write_event_lost :
  match exec 4 2 (start 2 1)
    [EReconnect 0; EAccept 5; ERequest 5 (ARoute (Some 0%nat) (str "GET a")); EServerWrite 0 true [WTake 90]; EReply 0 (str "+a");
     ERequest 5 (ARoute (Some 0%nat) (str "GET b")); ERequest 5 (ARoute (Some 0%nat) (str "GET c")); EServerWrite 0 true [WTake 90; WAgain]]
  with Ret p => (fun r => (r_write r, unsent 2 r)) <$> servers p !! 0%nat | Panic => None end = Some (false, [str "GET c"]).
Proof. vm_compute. reflexivity. Qed.

(** The predecessor of request 0 is looked for in slot 15; if a request waits
    there the answer to request 0 does not ask for the write event. *)
Definition pipelined (n : nat) : list event := replicate n (ERequest 5 (ARoute (Some 0%nat) (str "GET a"))).

Example first_answer_waits :
  match exec MAX_WAIT_RING_LEN 20 (start 20 1) ([EReconnect 0; EAccept 5] ++ pipelined 16 ++ [EReply 0 (str "+a")])
  with Ret p => a_write <$> clients p !! 5%nat | Panic => None end = Some false.
Proof. vm_compute. reflexivity. Qed.
