(* ===== verification/Classify.v ===== *)
(** * What is done with a request

    [GR_AccessEvent::ProcessMsg] (proxy/accesslayer.cpp) decides by the command,
    the key and the length of a request whether the proxy answers it itself,
    forwards it to the server of its key, or sends another command to all the
    servers.  The words are compared in the bytes the parser has noted. *)

From S2P Require Import Prelude Gostrings Resp Strconv Redismsg Redisstream Reqkey Ringbuffer Forward.

Inductive handling := HReply (e : redis_err) | HSlots | HRoute | HBroadcast.

(** [info.iCmdLen == n && strNicmp(...)] for a word of [n] letters. *)
Definition is_cmd (mem : Z -> Z) (i : MsgInfo) (w : list Z) : bool := (iCmdLen i =? zlen w) && icmp mem (szCmd i) w.
Definition is_key (mem : Z -> Z) (i : MsgInfo) (w : list Z) : bool := (iKeyLen i =? zlen w) && icmp mem (szKeyStart i) w.

Definition IS_FLUSH (mem : Z -> Z) (i : MsgInfo) : bool := (5 <? iCmdLen i) && icmp mem (szCmd i) (str "flush").
Definition GR_NOT_SRPPORT_CMD (mem : Z -> Z) (i : MsgInfo) : bool := is_cmd mem i (str "select") || IS_FLUSH mem i.
Definition IS_RESET (mem : Z -> Z) (i : MsgInfo) : bool := is_cmd mem i (str "_reset_").
Definition IS_CLUSTER_SLOTS (mem : Z -> Z) (i : MsgInfo) : bool := is_key mem i (str "slots").
Definition IF_CLUSTER_SUPPORT_CMD (mem : Z -> Z) (i : MsgInfo) : bool :=
  IS_CLUSTER_SLOTS mem i || is_key mem i (str "info") || is_key mem i (str "keyslot") || is_key mem i (str "nodes").

(** From the switch on the mode on. *)
Definition handle_keyed (cluster : bool) (mem : Z -> Z) (i : MsgInfo) : handling :=
  let rest := if IS_RESET mem i then HBroadcast else HRoute in
  if cluster && is_cmd mem i (str "cluster") then
    if negb (IF_CLUSTER_SUPPORT_CMD mem i) then HReply REDIS_RSP_UNSPPORT_CMD
    else if IS_CLUSTER_SLOTS mem i then HSlots
    else rest
  else rest.

Definition handling_of (cluster : bool) (m_lLongestReq : Z) (mem : Z -> Z) (i : MsgInfo) : handling :=
  if GR_NOT_SRPPORT_CMD mem i then HReply REDIS_RSP_UNSPPORT_CMD
  else if (iKeyLen i =? 0) || (m_lLongestReq <? iLen i) then
    if m_lLongestReq <? iLen i then HReply REDIS_REQ_TO_LARGE
    else if is_cmd mem i (str "ping") then HReply REDIS_RSP_PONG
    else if IS_RESET mem i then handle_keyed cluster mem i
    else HReply REDIS_RSP_UNSPPORT_CMD
  else handle_keyed cluster mem i.

(** What happens to the request, with the reply to CLUSTER SLOTS (there may be
    none), the server of the key, all the servers, and the command sent to them. *)
Definition action_of (h : handling) (slots : option bytes) (route : option nat) (srv : list (option nat)) (flushdb req : bytes) : action :=
  match h with
  | HReply e => AReply e
  | HSlots => match slots with None => AReply REDIS_RSP_UNSPPORT_CMD | Some d => AData d end
  | HRoute => ARoute route req
  | HBroadcast => ABroadcast srv flushdb
  end.

(** ** The same for the arguments of the request *)

Definition starts_word (cmd w : list Z) : bool := (zlen w <? zlen cmd) && same_word (take (length w) cmd) w.

Definition keyed_args (cluster : bool) (cmd key : list Z) : handling :=
  let rest := if same_word cmd (str "_reset_") then HBroadcast else HRoute in
  if cluster && same_word cmd (str "cluster") then
    if same_word key (str "slots") then HSlots
    else if same_word key (str "info") || same_word key (str "keyslot") || same_word key (str "nodes") then rest
    else HReply REDIS_RSP_UNSPPORT_CMD
  else rest.

Definition handling_args (cluster : bool) (m_lLongestReq : Z) (cmd : list Z) (key : option (list Z)) (len : Z) : handling :=
  if same_word cmd (str "select") || starts_word cmd (str "flush") then HReply REDIS_RSP_UNSPPORT_CMD
  else if m_lLongestReq <? len then HReply REDIS_REQ_TO_LARGE
  else match key with
  | Some key => keyed_args cluster cmd key
  | None => if same_word cmd (str "ping") then HReply REDIS_RSP_PONG
            else if same_word cmd (str "_reset_") then HBroadcast else HReply REDIS_RSP_UNSPPORT_CMD
  end.

Lemma reset_not_cluster cmd : same_word cmd (str "_reset_") = true -> same_word cmd (str "cluster") = false.
Proof.
  destruct cmd as [|x l]; [done|]. unfold same_word. intros [_ H]%andb_true_iff. apply andb_false_iff. right. cbn in *. apply andb_true_iff in H as [H _]. apply andb_false_iff. left.
  by apply orb_true_iff in H as [->%Z.eqb_eq| ->%Z.eqb_eq].
Qed.

Section words.
Context (mem : Z -> Z) (i : MsgInfo) (cmd : list Z).
Hypothesis Hcmd : at_mem mem (szCmd i) cmd.
Hypothesis Hcmd_len : iCmdLen i = zlen cmd.

Lemma is_cmd_args w : is_cmd mem i w = same_word cmd w.
Proof. by apply same_word_at. Qed.

Lemma flush_args : IS_FLUSH mem i = starts_word cmd (str "flush").
Proof.
  unfold IS_FLUSH, starts_word. rewrite Hcmd_len. change (zlen (str "flush")) with 5. destruct (Z.ltb_spec 5 (zlen cmd)) as [H|H]; [|done]. cbn [andb].
  change (length (str "flush")) with 5%nat. assert (zlen (take 5 cmd) = zlen (str "flush")) as Hl by (rewrite zlen_take; change (zlen (str "flush")) with 5; lia).
  unfold same_word. rewrite Hl, Z.eqb_refl. cbn [andb]. apply icmp_at; [done|]. rewrite <- (take_drop 5 cmd) in Hcmd. by apply at_mem_app in Hcmd as [? _].
Qed.

Lemma keyed_ok cluster key : at_mem mem (szKeyStart i) key -> iKeyLen i = zlen key -> handle_keyed cluster mem i = keyed_args cluster cmd key.
Proof.
  intros Hk Hkl. unfold handle_keyed, keyed_args, IF_CLUSTER_SUPPORT_CMD, IS_CLUSTER_SLOTS, IS_RESET. rewrite !is_cmd_args.
  assert (forall w, is_key mem i w = same_word key w) as Hkey.
  { intros w. unfold is_key, same_word. rewrite Hkl. destruct (Z.eqb_spec (zlen key) (zlen w)) as [E|]; [|done]. cbn. by apply icmp_at. }
  rewrite !Hkey. destruct (cluster && _); [|done]. by destruct (same_word key (str "slots")), (same_word key (str "info")), (same_word key (str "keyslot")), (same_word key (str "nodes")).
Qed.

Lemma handling_keyed cluster longest key : at_mem mem (szKeyStart i) key -> iKeyLen i = zlen key -> key <> [] ->
  handling_of cluster longest mem i = handling_args cluster longest cmd (Some key) (iLen i).
Proof.
  intros Hk Hkl Hne. unfold handling_of, handling_args, GR_NOT_SRPPORT_CMD. rewrite !is_cmd_args, flush_args. pose proof (zlen_pos _ Hne).
  rewrite Hkl, (proj2 (Z.eqb_neq _ _)) by lia. cbn [orb]. destruct (_ || _); [done|]. destruct (longest <? iLen i); [done|]. by apply keyed_ok.
Qed.

Lemma handling_keyless cluster longest : iKeyLen i = 0 -> handling_of cluster longest mem i = handling_args cluster longest cmd None (iLen i).
Proof.
  intros Hkl. unfold handling_of, handling_args, GR_NOT_SRPPORT_CMD, handle_keyed, IS_RESET. rewrite !is_cmd_args, flush_args, Hkl. cbn [Z.eqb orb].
  destruct (_ || _); [done|]. destruct (longest <? iLen i); [done|]. destruct (same_word cmd (str "ping")); [done|].
  destruct (same_word cmd (str "_reset_")) eqn:E; [|done]. by rewrite (reset_not_cluster _ E), andb_false_r.
Qed.
End words.

(** ** Requests that arrive in pieces *)

Lemma arrives_last a l mem w : forall e, arrives a e l -> last l = Some (mem, w) -> at_mem mem a (e ++ concat l.*2).
Proof.
  induction l as [|[m1 w1] l IH]; intros e Ha Hl; [done|]. destruct Ha as (_ & Hm & Ha). cbn [fmap list_fmap concat snd]. destruct l as [|y l].
  - injection Hl as <- <-. by rewrite app_nil_r.
  - rewrite app_assoc. by apply IH.
Qed.

Lemma arg_in_mem mem a args i x : at_mem mem a (request args) -> args !! i = Some x -> at_mem mem (arg_at (a + zlen (head_of (zlen args))) args i) x.
Proof.
  intros Hm Hi. rewrite request_eq in Hm. apply at_mem_app in Hm as [_ Hm]. unfold arg_at. rewrite Hi. cbn [default from_option id].
  rewrite <- (take_drop_middle args i x Hi) in Hm at 2. change (x :: drop (S i) args) with ([x] ++ drop (S i) args) in Hm. rewrite !arg_lines_app in Hm.
  apply at_mem_app in Hm as [_ Hm]. apply at_mem_app in Hm as [Hm _]. unfold arg_lines in Hm at 2. cbn [fmap list_fmap concat] in Hm. rewrite app_nil_r in Hm.
  unfold arg_line in Hm. apply at_mem_app in Hm as [_ Hm]. by apply at_mem_app in Hm as [Hm _].
Qed.

(** A request that is too short to have a key. *)
Lemma lines_no_key p cmd xs : 0 < p -> (cmd :: xs) !! key_index cmd = None ->
  has_key (lines_found cmd p (cmd :: xs) nothing_found) 0 0 (arg_at p (cmd :: xs) 0) (zlen cmd).
Proof.
  intros Hp Hk. pose proof (prefix_pos cmd). pose proof (zlen_nonneg cmd). rewrite arg_at_0, lines_found_cons.
  set (b := p + zlen (prefix_of_arg cmd)) in *. change (f_key_line nothing_found) with false. rewrite first_found by lia.
  assert (key_index cmd = 1%nat /\ key_line cmd = 2 \/ key_index cmd = 3%nat /\ key_line cmd = 4) as [[E1 E2]|[E1 E2]]
    by (unfold key_index; destruct (key_line_cases cmd) as [-> | ->]; auto); rewrite E1 in *; rewrite E2.
  - destruct xs as [|x xs]; [done|discriminate Hk].
  - destruct xs as [|x [|y [|z xs]]]; [done| | |discriminate Hk].
    + rewrite lines_found_cons. change (f_key_line (mkFound 0 0 b (zlen cmd) (4 =? 2) 1 4)) with false. rewrite skip_found by lia. done.
    + rewrite (lines_found_cons cmd _ x), (lines_found_cons cmd _ y). change (f_key_line (mkFound 0 0 b (zlen cmd) (4 =? 2) 1 4)) with false. rewrite skip_found by lia.
      change (f_key_line (mkFound 0 0 b (zlen cmd) (4 =? 1 + 1 + 1) (1 + 1) 4)) with false. rewrite skip_found by lia. done.
Qed.

(** C12: The proxy does with a request that has no empty key, in whatever pieces it
    has come into a buffer that stayed where it is, what is to be done by its
    arguments: SELECT and FLUSH commands and requests that are too long
    are refused, PING without a key is answered, [_RESET_] goes to all servers,
    other requests without a key are refused, CLUSTER is restricted in cluster
    mode, and what remains is forwarded; letters count in either case. *)
Theorem request_handled a cmd args l mem w (cluster : bool) (longest : Z) :
  0 < a -> head args = Some cmd -> args !! key_index cmd <> Some [] -> zlen (request args) < 2 ^ 31 ->
  arrives a [] l -> concat l.*2 = request args -> last l = Some (mem, w) ->
  exists s, feed (Init a) l = Ret s /\ nowState (m_Info s) = GR_END /\
    handling_of cluster longest mem (m_Info s) = handling_args cluster longest cmd (args !! key_index cmd) (zlen (request args)).
Proof.
  intros Ha Hc Hk Hs Harr Hl Hlast. destruct (feed_Init a cmd args l Ha Hc Hs Harr Hl) as (s & E & Hst & Hlen & Hf). exists s. split_and!; try done.
  pose proof (arrives_last _ _ _ _ _ Harr Hlast) as Hm. cbn [app] in Hm. rewrite Hl in Hm. rewrite <- Hlen. destruct args as [|x xs]; [done|]. injection Hc as ->.
  pose proof (zlen_nonneg (head_of (zlen (cmd :: xs)))) as Hh. pose proof (arg_in_mem mem a (cmd :: xs) 0 cmd Hm eq_refl) as Hcm.
  destruct ((cmd :: xs) !! key_index cmd) as [key|] eqn:Ek.
  - assert (key <> []) as Hne by (intros ->; done). destruct (lines_key (a + zlen (head_of (zlen (cmd :: xs)))) cmd xs key ltac:(lia) Ek Hne) as (K1 & K2 & K3 & K4).
    unfold all_found in Hf. rewrite <- Hf in K1, K2, K3, K4. pose proof (arg_in_mem mem a (cmd :: xs) _ key Hm Ek) as Hkm. rewrite <- K1 in Hkm. rewrite <- K3 in Hcm. by apply handling_keyed.
  - destruct (lines_no_key (a + zlen (head_of (zlen (cmd :: xs)))) cmd xs ltac:(lia) Ek) as (K1 & K2 & K3 & K4).
    unfold all_found in Hf. rewrite <- Hf in K1, K2, K3, K4. rewrite <- K3 in Hcm. by apply handling_keyless.
Qed.

Lemma request_handled_witness : exists s, feed (Init 1000) set_pieces = Ret s /\ handling_of true 100 (mem_at 1000 (request set_args)) (m_Info s) = HRoute.
Proof.
  destruct (request_handled 1000 (str "SET") set_args set_pieces (mem_at 1000 (request set_args)) (drop 14 (request set_args)) true 100) as (s & E & _ & H);
    [lia|reflexivity|discriminate|vm_compute; reflexivity|exact set_arrives|reflexivity|reflexivity|].
  exists s. split; [exact E|]. rewrite H. vm_compute. reflexivity.
Defined.
