(* ===== verification/Hashes.v ===== *)
(** * common/hash.cpp: the hash functions of keys

    The functions that [hash] of the configuration names, but for MD5, which is in
    Md5.  A key is a list of bytes; [char] is signed, so a byte from 128 on is
    negative where the source does not convert it. *)

From S2P Require Import Prelude Crc16.

Definition crc16tab_c : list Z :=
  [0x0000; 0x1021; 0x2042; 0x3063; 0x4084; 0x50a5; 0x60c6; 0x70e7;
   0x8108; 0x9129; 0xa14a; 0xb16b; 0xc18c; 0xd1ad; 0xe1ce; 0xf1ef;
   0x1231; 0x0210; 0x3273; 0x2252; 0x52b5; 0x4294; 0x72f7; 0x62d6;
   0x9339; 0x8318; 0xb37b; 0xa35a; 0xd3bd; 0xc39c; 0xf3ff; 0xe3de;
   0x2462; 0x3443; 0x0420; 0x1401; 0x64e6; 0x74c7; 0x44a4; 0x5485;
   0xa56a; 0xb54b; 0x8528; 0x9509; 0xe5ee; 0xf5cf; 0xc5ac; 0xd58d;
   0x3653; 0x2672; 0x1611; 0x0630; 0x76d7; 0x66f6; 0x5695; 0x46b4;
   0xb75b; 0xa77a; 0x9719; 0x8738; 0xf7df; 0xe7fe; 0xd79d; 0xc7bc;
   0x48c4; 0x58e5; 0x6886; 0x78a7; 0x0840; 0x1861; 0x2802; 0x3823;
   0xc9cc; 0xd9ed; 0xe98e; 0xf9af; 0x8948; 0x9969; 0xa90a; 0xb92b;
   0x5af5; 0x4ad4; 0x7ab7; 0x6a96; 0x1a71; 0x0a50; 0x3a33; 0x2a12;
   0xdbfd; 0xcbdc; 0xfbbf; 0xeb9e; 0x9b79; 0x8b58; 0xbb3b; 0xab1a;
   0x6ca6; 0x7c87; 0x4ce4; 0x5cc5; 0x2c22; 0x3c03; 0x0c60; 0x1c41;
   0xedae; 0xfd8f; 0xcdec; 0xddcd; 0xad2a; 0xbd0b; 0x8d68; 0x9d49;
   0x7e97; 0x6eb6; 0x5ed5; 0x4ef4; 0x3e13; 0x2e32; 0x1e51; 0x0e70;
   0xff9f; 0xefbe; 0xdfdd; 0xcffc; 0xbf1b; 0xaf3a; 0x9f59; 0x8f78;
   0x9188; 0x81a9; 0xb1ca; 0xa1eb; 0xd10c; 0xc12d; 0xf14e; 0xe16f;
   0x1080; 0x00a1; 0x30c2; 0x20e3; 0x5004; 0x4025; 0x7046; 0x6067;
   0x83b9; 0x9398; 0xa3fb; 0xb3da; 0xc33d; 0xd31c; 0xe37f; 0xf35e;
   0x02b1; 0x1290; 0x22f3; 0x32d2; 0x4235; 0x5214; 0x6277; 0x7256;
   0xb5ea; 0xa5cb; 0x95a8; 0x8589; 0xf56e; 0xe54f; 0xd52c; 0xc50d;
   0x34e2; 0x24c3; 0x14a0; 0x0481; 0x7466; 0x6447; 0x5424; 0x4405;
   0xa7db; 0xb7fa; 0x8799; 0x97b8; 0xe75f; 0xf77e; 0xc71d; 0xd73c;
   0x26d3; 0x36f2; 0x0691; 0x16b0; 0x6657; 0x7676; 0x4615; 0x5634;
   0xd94c; 0xc96d; 0xf90e; 0xe92f; 0x99c8; 0x89e9; 0xb98a; 0xa9ab;
   0x5844; 0x4865; 0x7806; 0x6827; 0x18c0; 0x08e1; 0x3882; 0x28a3;
   0xcb7d; 0xdb5c; 0xeb3f; 0xfb1e; 0x8bf9; 0x9bd8; 0xabbb; 0xbb9a;
   0x4a75; 0x5a54; 0x6a37; 0x7a16; 0x0af1; 0x1ad0; 0x2ab3; 0x3a92;
   0xfd2e; 0xed0f; 0xdd6c; 0xcd4d; 0xbdaa; 0xad8b; 0x9de8; 0x8dc9;
   0x7c26; 0x6c07; 0x5c64; 0x4c45; 0x3ca2; 0x2c83; 0x1ce0; 0x0cc1;
   0xef1f; 0xff3e; 0xcf5d; 0xdf7c; 0xaf9b; 0xbfba; 0x8fd9; 0x9ff8;
   0x6e17; 0x7e36; 0x4e55; 0x5e74; 0x2e93; 0x3eb2; 0x0ed1; 0x1ef0].

Definition crc32tab : list Z :=
  [0x00000000; 0x77073096; 0xee0e612c; 0x990951ba; 0x076dc419; 0x706af48f; 0xe963a535; 0x9e6495a3;
   0x0edb8832; 0x79dcb8a4; 0xe0d5e91e; 0x97d2d988; 0x09b64c2b; 0x7eb17cbd; 0xe7b82d07; 0x90bf1d91;
   0x1db71064; 0x6ab020f2; 0xf3b97148; 0x84be41de; 0x1adad47d; 0x6ddde4eb; 0xf4d4b551; 0x83d385c7;
   0x136c9856; 0x646ba8c0; 0xfd62f97a; 0x8a65c9ec; 0x14015c4f; 0x63066cd9; 0xfa0f3d63; 0x8d080df5;
   0x3b6e20c8; 0x4c69105e; 0xd56041e4; 0xa2677172; 0x3c03e4d1; 0x4b04d447; 0xd20d85fd; 0xa50ab56b;
   0x35b5a8fa; 0x42b2986c; 0xdbbbc9d6; 0xacbcf940; 0x32d86ce3; 0x45df5c75; 0xdcd60dcf; 0xabd13d59;
   0x26d930ac; 0x51de003a; 0xc8d75180; 0xbfd06116; 0x21b4f4b5; 0x56b3c423; 0xcfba9599; 0xb8bda50f;
   0x2802b89e; 0x5f058808; 0xc60cd9b2; 0xb10be924; 0x2f6f7c87; 0x58684c11; 0xc1611dab; 0xb6662d3d;
   0x76dc4190; 0x01db7106; 0x98d220bc; 0xefd5102a; 0x71b18589; 0x06b6b51f; 0x9fbfe4a5; 0xe8b8d433;
   0x7807c9a2; 0x0f00f934; 0x9609a88e; 0xe10e9818; 0x7f6a0dbb; 0x086d3d2d; 0x91646c97; 0xe6635c01;
   0x6b6b51f4; 0x1c6c6162; 0x856530d8; 0xf262004e; 0x6c0695ed; 0x1b01a57b; 0x8208f4c1; 0xf50fc457;
   0x65b0d9c6; 0x12b7e950; 0x8bbeb8ea; 0xfcb9887c; 0x62dd1ddf; 0x15da2d49; 0x8cd37cf3; 0xfbd44c65;
   0x4db26158; 0x3ab551ce; 0xa3bc0074; 0xd4bb30e2; 0x4adfa541; 0x3dd895d7; 0xa4d1c46d; 0xd3d6f4fb;
   0x4369e96a; 0x346ed9fc; 0xad678846; 0xda60b8d0; 0x44042d73; 0x33031de5; 0xaa0a4c5f; 0xdd0d7cc9;
   0x5005713c; 0x270241aa; 0xbe0b1010; 0xc90c2086; 0x5768b525; 0x206f85b3; 0xb966d409; 0xce61e49f;
   0x5edef90e; 0x29d9c998; 0xb0d09822; 0xc7d7a8b4; 0x59b33d17; 0x2eb40d81; 0xb7bd5c3b; 0xc0ba6cad;
   0xedb88320; 0x9abfb3b6; 0x03b6e20c; 0x74b1d29a; 0xead54739; 0x9dd277af; 0x04db2615; 0x73dc1683;
   0xe3630b12; 0x94643b84; 0x0d6d6a3e; 0x7a6a5aa8; 0xe40ecf0b; 0x9309ff9d; 0x0a00ae27; 0x7d079eb1;
   0xf00f9344; 0x8708a3d2; 0x1e01f268; 0x6906c2fe; 0xf762575d; 0x806567cb; 0x196c3671; 0x6e6b06e7;
   0xfed41b76; 0x89d32be0; 0x10da7a5a; 0x67dd4acc; 0xf9b9df6f; 0x8ebeeff9; 0x17b7be43; 0x60b08ed5;
   0xd6d6a3e8; 0xa1d1937e; 0x38d8c2c4; 0x4fdff252; 0xd1bb67f1; 0xa6bc5767; 0x3fb506dd; 0x48b2364b;
   0xd80d2bda; 0xaf0a1b4c; 0x36034af6; 0x41047a60; 0xdf60efc3; 0xa867df55; 0x316e8eef; 0x4669be79;
   0xcb61b38c; 0xbc66831a; 0x256fd2a0; 0x5268e236; 0xcc0c7795; 0xbb0b4703; 0x220216b9; 0x5505262f;
   0xc5ba3bbe; 0xb2bd0b28; 0x2bb45a92; 0x5cb36a04; 0xc2d7ffa7; 0xb5d0cf31; 0x2cd99e8b; 0x5bdeae1d;
   0x9b64c2b0; 0xec63f226; 0x756aa39c; 0x026d930a; 0x9c0906a9; 0xeb0e363f; 0x72076785; 0x05005713;
   0x95bf4a82; 0xe2b87a14; 0x7bb12bae; 0x0cb61b38; 0x92d28e9b; 0xe5d5be0d; 0x7cdcefb7; 0x0bdbdf21;
   0x86d3d2d4; 0xf1d4e242; 0x68ddb3f8; 0x1fda836e; 0x81be16cd; 0xf6b9265b; 0x6fb077e1; 0x18b74777;
   0x88085ae6; 0xff0f6a70; 0x66063bca; 0x11010b5c; 0x8f659eff; 0xf862ae69; 0x616bffd3; 0x166ccf45;
   0xa00ae278; 0xd70dd2ee; 0x4e048354; 0x3903b3c2; 0xa7672661; 0xd06016f7; 0x4969474d; 0x3e6e77db;
   0xaed16a4a; 0xd9d65adc; 0x40df0b66; 0x37d83bf0; 0xa9bcae53; 0xdebb9ec5; 0x47b2cf7f; 0x30b5ffe9;
   0xbdbdf21c; 0xcabac28a; 0x53b39330; 0x24b4a3a6; 0xbad03605; 0xcdd70693; 0x54de5729; 0x23d967bf;
   0xb3667a2e; 0xc4614ab8; 0x5d681b02; 0x2a6f2b94; 0xb40bbe37; 0xc30c8ea1; 0x5a05df1b; 0x2d02ef8d].

(** A byte read as a [char]. *)
Definition schar (b : Z) : Z := swrap 8 b.

Definition Crc16_step (crc b : Z) : Z :=
  Z.lxor (u32 (Z.shiftl crc 8)) (nth (Z.to_nat (Z.land (Z.lxor (Z.shiftr crc 8) (u32 (schar b))) 0xff)) crc16tab_c 0).
Definition Crc16 (key : list Z) : Z := fold_left Crc16_step key 0.

Definition crc32_step (crc b : Z) : Z :=
  Z.lxor (Z.shiftr crc 8) (nth (Z.to_nat (Z.land (Z.lxor crc (u64 (schar b))) 0xff)) crc32tab 0).
Definition Crc32 (key : list Z) : Z := Z.land (Z.shiftr (u32 (Z.lnot (fold_left crc32_step key 0xffffffff))) 16) 0x7fff.
Definition crc32a_step (crc b : Z) : Z :=
  Z.lxor (nth (Z.to_nat (Z.land (Z.lxor crc (u32 (schar b))) 0xff)) crc32tab 0) (Z.shiftr crc 8).
Definition Crc32a (key : list Z) : Z := Z.lxor (fold_left crc32a_step key 0xffffffff) 0xffffffff.

Definition FNV_64_INIT : Z := 0xcbf29ce484222325.
Definition FNV_64_PRIME : Z := 0x100000001b3.
Definition FNV_32_INIT : Z := 2166136261.
Definition FNV_32_PRIME : Z := 16777619.

Definition Fnv164 (key : list Z) : Z :=
  u32 (fold_left (fun hash b => Z.lxor (u64 (hash * FNV_64_PRIME)) (u64 (schar b))) key FNV_64_INIT).
Definition Fnv1a64 (key : list Z) : Z :=
  fold_left (fun hash b => u32 (Z.lxor hash (u32 (schar b)) * u32 FNV_64_PRIME)) key (u32 FNV_64_INIT).
Definition Fnv132 (key : list Z) : Z :=
  fold_left (fun hash b => Z.lxor (u32 (hash * FNV_32_PRIME)) (u32 (schar b))) key FNV_32_INIT.
Definition Fnv1a32 (key : list Z) : Z :=
  fold_left (fun hash b => u32 (Z.lxor hash (u32 (schar b)) * FNV_32_PRIME)) key FNV_32_INIT.

(** A little-endian word of the key. *)
Definition word32 (b0 b1 b2 b3 : Z) : Z := b0 + Z.shiftl b1 8 + Z.shiftl b2 16 + Z.shiftl b3 24.

Definition murmur_m : Z := 0x5bd1e995.

(** Four bytes at a time; the rest of the key is left. *)
Fixpoint murmur_loop (data : list Z) (h : Z) : list Z * Z :=
  match data with
  | b0 :: b1 :: b2 :: b3 :: data =>
      let k := u32 (word32 b0 b1 b2 b3 * murmur_m) in
      let k := Z.lxor k (Z.shiftr k 24) in
      let k := u32 (k * murmur_m) in
      murmur_loop data (Z.lxor (u32 (h * murmur_m)) k)
  | _ => (data, h)
  end.

Definition murmur_tail (data : list Z) (h : Z) : Z :=
  match data with
  | [d0; d1; d2] => u32 (Z.lxor (Z.lxor (Z.lxor h (Z.shiftl d2 16)) (Z.shiftl d1 8)) d0 * murmur_m)
  | [d0; d1] => u32 (Z.lxor (Z.lxor h (Z.shiftl d1 8)) d0 * murmur_m)
  | [d0] => u32 (Z.lxor h d0 * murmur_m)
  | _ => h
  end.

Definition Murmur (key : list Z) : Z :=
  let len := u32 (zlen key) in
  let (rest, h) := murmur_loop key (Z.lxor (u32 (0xdeadbeef * len)) len) in
  let h := murmur_tail rest h in
  let h := Z.lxor h (Z.shiftr h 13) in
  let h := u32 (h * murmur_m) in
  Z.lxor h (Z.shiftr h 15).

Definition get16bits (b0 b1 : Z) : Z := Z.shiftl b1 8 + b0.

Fixpoint hsieh_loop (key : list Z) (hash : Z) : list Z * Z :=
  match key with
  | b0 :: b1 :: b2 :: b3 :: key =>
      let hash := u32 (hash + get16bits b0 b1) in
      let tmp := Z.lxor (u32 (Z.shiftl (get16bits b2 b3) 11)) hash in
      let hash := Z.lxor (u32 (Z.shiftl hash 16)) tmp in
      hsieh_loop key (u32 (hash + Z.shiftr hash 11))
  | _ => (key, hash)
  end.

Definition xor_shl (hash k : Z) : Z := Z.lxor hash (u32 (Z.shiftl hash k)).
Definition add_shr (hash k : Z) : Z := u32 (hash + Z.shiftr hash k).

Definition hsieh_tail (rest : list Z) (hash : Z) : Z :=
  match rest with
  | [b0; b1; b2] => add_shr (Z.lxor (xor_shl (u32 (hash + get16bits b0 b1)) 16) (u32 (Z.shiftl (u32 (schar b2)) 18))) 11
  | [b0; b1] => add_shr (xor_shl (u32 (hash + get16bits b0 b1)) 11) 17
  | [b0] => add_shr (xor_shl (u32 (hash + b0)) 10) 1
  | _ => hash
  end.

Definition Hsieh (key : list Z) : Z :=
  match key with
  | [] => 0
  | _ =>
      let (rest, hash) := hsieh_loop key 0 in
      let hash := hsieh_tail rest hash in
      add_shr (xor_shl (add_shr (xor_shl (add_shr (xor_shl hash 3) 5) 4) 17) 25) 6
  end.

(** Jenkins' hash reads the key through a pointer of the widest type its address
    is aligned for, and may read past the end of the key within the last aligned
    word.  The memory is a function from addresses to bytes. *)
Definition rot (x k : Z) : Z := Z.lor (u32 (Z.shiftl x k)) (Z.shiftr x (32 - k)).

Record abc := mkABC { ja : Z; jb : Z; jc : Z }.

Definition mix (s : abc) : abc :=
  let '(mkABC a b c) := s in
  let a := u32 (a - c) in let a := Z.lxor a (rot c 4) in let c := u32 (c + b) in
  let b := u32 (b - a) in let b := Z.lxor b (rot a 6) in let a := u32 (a + c) in
  let c := u32 (c - b) in let c := Z.lxor c (rot b 8) in let b := u32 (b + a) in
  let a := u32 (a - c) in let a := Z.lxor a (rot c 16) in let c := u32 (c + b) in
  let b := u32 (b - a) in let b := Z.lxor b (rot a 19) in let a := u32 (a + c) in
  let c := u32 (c - b) in let c := Z.lxor c (rot b 4) in let b := u32 (b + a) in
  mkABC a b c.

Definition final (s : abc) : abc :=
  let '(mkABC a b c) := s in
  let c := Z.lxor c b in let c := u32 (c - rot b 14) in
  let a := Z.lxor a c in let a := u32 (a - rot c 11) in
  let b := Z.lxor b a in let b := u32 (b - rot a 25) in
  let c := Z.lxor c b in let c := u32 (c - rot b 16) in
  let a := Z.lxor a c in let a := u32 (a - rot c 4) in
  let b := Z.lxor b a in let b := u32 (b - rot a 14) in
  let c := Z.lxor c b in let c := u32 (c - rot b 24) in
  mkABC a b c.

Section jenkins.
Context (mem : Z -> Z).

(** [k[i]] of a pointer to 32-bit, 16-bit and 8-bit units at [p]. *)
Definition k32 (p i : Z) : Z := let q := p + 4 * i in word32 (mem q) (mem (q + 1)) (mem (q + 2)) (mem (q + 3)).
Definition k16 (p i : Z) : Z := let q := p + 2 * i in mem q + Z.shiftl (mem (q + 1)) 8.
Definition k8 (p i : Z) : Z := mem (p + i).
Definition k16w (p i : Z) : Z := u32 (k16 p i + Z.shiftl (k16 p (i + 1)) 16).

(** What [switch] adds to the three words, or the return without [final]. *)
Definition add3 (s : abc) (da db dc : Z) : option abc :=
  Some (mkABC (u32 (ja s + da)) (u32 (jb s + db)) (u32 (jc s + dc))).

Definition block32 (p : Z) (s : abc) : abc :=
  mix (mkABC (u32 (ja s + k32 p 0)) (u32 (jb s + k32 p 1)) (u32 (jc s + k32 p 2))).

Definition last32 (p n : Z) (s : abc) : option abc :=
  if n =? 12 then add3 s (k32 p 0) (k32 p 1) (k32 p 2)
  else if n =? 11 then add3 s (k32 p 0) (k32 p 1) (Z.land (k32 p 2) 0xffffff)
  else if n =? 10 then add3 s (k32 p 0) (k32 p 1) (Z.land (k32 p 2) 0xffff)
  else if n =? 9 then add3 s (k32 p 0) (k32 p 1) (Z.land (k32 p 2) 0xff)
  else if n =? 8 then add3 s (k32 p 0) (k32 p 1) 0
  else if n =? 7 then add3 s (k32 p 0) (Z.land (k32 p 1) 0xffffff) 0
  else if n =? 6 then add3 s (k32 p 0) (Z.land (k32 p 1) 0xffff) 0
  else if n =? 5 then add3 s (k32 p 0) (Z.land (k32 p 1) 0xff) 0
  else if n =? 4 then add3 s (k32 p 0) 0 0
  else if n =? 3 then add3 s (Z.land (k32 p 0) 0xffffff) 0 0
  else if n =? 2 then add3 s (Z.land (k32 p 0) 0xffff) 0 0
  else if n =? 1 then add3 s (Z.land (k32 p 0) 0xff) 0 0
  else None.

Definition block16 (p : Z) (s : abc) : abc :=
  mix (mkABC (u32 (ja s + k16w p 0)) (u32 (jb s + k16w p 2)) (u32 (jc s + k16w p 4))).

Definition last16 (p n : Z) (s : abc) : option abc :=
  if n =? 12 then add3 s (k16w p 0) (k16w p 2) (k16w p 4)
  else if n =? 11 then
    add3 (mkABC (ja s) (jb s) (u32 (jc s + Z.shiftl (k8 p 10) 16))) (k16w p 0) (k16w p 2) (k16 p 4)
  else if n =? 10 then add3 s (k16w p 0) (k16w p 2) (k16 p 4)
  else if n =? 9 then add3 s (k16w p 0) (k16w p 2) (k8 p 8)
  else if n =? 8 then add3 s (k16w p 0) (k16w p 2) 0
  else if n =? 7 then
    add3 (mkABC (ja s) (u32 (jb s + Z.shiftl (k8 p 6) 16)) (jc s)) (k16w p 0) (k16 p 2) 0
  else if n =? 6 then add3 s (k16w p 0) (k16 p 2) 0
  else if n =? 5 then add3 s (k16w p 0) (k8 p 4) 0
  else if n =? 4 then add3 s (k16w p 0) 0 0
  else if n =? 3 then
    add3 (mkABC (u32 (ja s + Z.shiftl (k8 p 2) 16)) (jb s) (jc s)) (k16 p 0) 0 0
  else if n =? 2 then add3 s (k16 p 0) 0 0
  else if n =? 1 then add3 s (k8 p 0) 0 0
  else None.

(** Four additions of single bytes, the [i]-th shifted by [8 * i]; the first
    [m] of them when the cases fall through from the [m]-th. *)
Definition add_up (x p : Z) : Z :=
  let x := u32 (x + k8 p 0) in
  let x := u32 (x + Z.shiftl (k8 p 1) 8) in
  let x := u32 (x + Z.shiftl (k8 p 2) 16) in
  u32 (x + Z.shiftl (k8 p 3) 24).

Definition add_down (x p m : Z) : Z :=
  let x := if 4 <=? m then u32 (x + Z.shiftl (k8 p 3) 24) else x in
  let x := if 3 <=? m then u32 (x + Z.shiftl (k8 p 2) 16) else x in
  let x := if 2 <=? m then u32 (x + Z.shiftl (k8 p 1) 8) else x in
  if 1 <=? m then u32 (x + k8 p 0) else x.

Definition block8 (p : Z) (s : abc) : abc :=
  mix (mkABC (add_up (ja s) p) (add_up (jb s) (p + 4)) (add_up (jc s) (p + 8))).

Definition last8 (p n : Z) (s : abc) : option abc :=
  if (1 <=? n) && (n <=? 12) then
    Some (mkABC (add_down (ja s) p n) (add_down (jb s) (p + 4) (n - 4)) (add_down (jc s) (p + 8) (n - 8)))
  else None.

(** [while (iKeyLen > 12)] and the [switch]; a block of the key takes twelve
    bytes, so [fuel = iKeyLen] rounds are enough. *)
Fixpoint jenkins_loop (block : Z -> abc -> abc) (last : Z -> Z -> abc -> option abc) (fuel : nat)
    (p n : Z) (s : abc) : Z :=
  match fuel with
  | S fuel =>
      if 12 <? n then jenkins_loop block last fuel (p + 12) (n - 12) (block p s)
      else match last p n s with Some s => jc (final s) | None => jc s end
  | O => match last p n s with Some s => jc (final s) | None => jc s end
  end.

Definition Jenkins (p n : Z) : Z :=
  let x := u32 (u32 (0xdeadbeef + u32 n) + 13) in
  let s := mkABC x x x in
  if Z.land p 3 =? 0 then jenkins_loop block32 last32 (Z.to_nat n) p n s
  else if Z.land p 1 =? 0 then jenkins_loop block16 last16 (Z.to_nat n) p n s
  else jenkins_loop block8 last8 (Z.to_nat n) p n s.

End jenkins.

(** ** References *)

(** CRC-32 of IEEE 802.3, bit by bit with the reflected polynomial. *)
Definition crc32_bit (crc : Z) : Z := Z.lxor (Z.shiftr crc 1) (if Z.testbit crc 0 then 0xEDB88320 else 0).
Definition crc32_byte (crc b : Z) : Z := Nat.iter 8 crc32_bit (Z.lxor crc b).
Definition crc32_ieee (l : list Z) : Z := Z.lxor (fold_left crc32_byte l 0xffffffff) 0xffffffff.

(** Jenkins' hash of a list of bytes: twelve at a time, each four a
    little-endian number, and [final] for the rest when there is one. *)
Definition jenkins_add (key : list Z) (s : abc) : abc :=
  mkABC (u32 (ja s + le_value (take 4 key))) (u32 (jb s + le_value (take 4 (drop 4 key))))
    (u32 (jc s + le_value (take 4 (drop 8 key)))).

Fixpoint jenkins_blocks (fuel : nat) (key : list Z) (s : abc) : Z :=
  match fuel with
  | S fuel =>
      if 12 <? zlen key then jenkins_blocks fuel (drop 12 key) (mix (jenkins_add key s))
      else match key with [] => jc s | _ => jc (final (jenkins_add key s)) end
  | O => jc s
  end.

Definition jenkins_ref (key : list Z) : Z :=
  let x := u32 (0xdeadbeef + zlen key + 13) in jenkins_blocks (length key) key (mkABC x x x).

Definition read (mem : Z -> Z) (p n : Z) : list Z := (fun i => mem (p + Z.of_nat i)) <$> seq 0 (Z.to_nat n).

(** ** CRC-16 *)

Lemma wrap_lxor w a b : 0 <= w -> wrap w (Z.lxor a b) = Z.lxor (wrap w a) (wrap w b).
Proof.
  intros Hw. unfold wrap. rewrite <- !Z.land_ones by lia. apply Z.bits_inj'. intros n Hn.
  rewrite Z.land_spec, !Z.lxor_spec, !Z.land_spec.
  by destruct (Z.testbit a n), (Z.testbit b n), (Z.testbit (Z.ones w) n).
Qed.

Lemma schar_mod b : is_byte b -> schar b mod 2 ^ 8 = b.
Proof. intros Hb. unfold schar. rewrite swrap_mod by lia. by apply Z.mod_small. Qed.

(** The low byte of an exclusive or with a [char], however it was extended. *)
Lemma low_byte w x b : 8 <= w -> is_byte b ->
  Z.land (Z.lxor x (wrap w (schar b))) 0xff = Z.lxor (x mod 2 ^ 8) b.
Proof.
  intros Hw Hb. rewrite (land_mask 8) by lia.
  change (wrap 8 (Z.lxor x (wrap w (schar b))) = Z.lxor (wrap 8 x) b).
  rewrite wrap_lxor by lia. f_equal. unfold wrap at 1. rewrite wrap_mod_pow2 by lia. by apply schar_mod.
Qed.

Lemma crc16tab_same : crc16tab_c = crc16tab.
Proof. reflexivity. Qed.

(** The upper half of [crc] is never looked at. *)
Lemma Crc16_step_low crc b : is_byte b -> u16 (Crc16_step crc b) = crc_byte (u16 crc) b.
Proof.
  intros Hb. pose proof (wrap_range 16 crc ltac:(lia)) as Hr.
  rewrite <- crc16_step_byte by done. unfold Crc16_step, crc16_step.
  rewrite crc16tab_same, low_byte by (done || lia). rewrite wrap_lxor by lia.
  assert (Z.land (Z.lxor (Z.shiftr (u16 crc) 8) b) 255 = Z.lxor (Z.shiftr crc 8 mod 2 ^ 8) b) as ->.
  { rewrite (land_mask 8) by lia. change (wrap 8 (Z.lxor (Z.shiftr (u16 crc) 8) b) = Z.lxor (wrap 8 (Z.shiftr crc 8)) b).
    rewrite wrap_lxor, (wrap_small 8 b) by (done || lia). f_equal. rewrite !Z.shiftr_div_pow2 by lia.
    unfold wrap. apply Z.bits_inj'. intros n Hn. rewrite <- !Z.land_ones, !Z.land_spec by lia.
    rewrite <- !Z.shiftr_div_pow2, !Z.shiftr_spec by lia. rewrite Z.land_spec, !Z.testbit_ones by lia.
    destruct (Z.leb_spec 0 n), (Z.ltb_spec n 8), (Z.leb_spec 0 (n + 8)), (Z.ltb_spec (n + 8) 16); try lia; cbn [andb];
      by rewrite ?andb_true_r, ?andb_false_r. }
  f_equal.
  - rewrite (u16_shiftl8 (u16 crc)). unfold wrap at 1. rewrite wrap_mod_pow2 by lia.
    change (u16 (Z.shiftl crc 8) = Z.shiftl (u16 crc mod 256) 8). rewrite u16_shiftl8. f_equal.
    symmetry. apply (wrap_mod_pow2 16 8). lia.
  - assert (0 <= Z.lxor (Z.shiftr crc 8 mod 2 ^ 8) b < 2 ^ 8) as Hx by (apply lxor_range; [lia| apply Z.mod_pos_bound; lia|done]).
    rewrite table_entry by done. apply wrap_small. cbn [Nat.iter nat_rect]. apply crc_bit_range.
Qed.

Lemma Crc16_low l : forall crc, Forall is_byte l -> u16 (fold_left Crc16_step l crc) = fold_left crc_byte l (u16 crc).
Proof.
  induction l as [|b l IH]; intros crc Hl; [done|]. inversion_clear Hl.
  rewrite !fold_left_cons, IH by done. by rewrite Crc16_step_low.
Qed.

(** ** CRC-32 *)

Lemma crc32tab_all :
  map (fun x => nth x crc32tab 0) (seq 0 256) = map (fun x => Nat.iter 8 crc32_bit (Z.of_nat x)) (seq 0 256).
Proof. vm_compute. reflexivity. Qed.

Lemma crc32_entry x : 0 <= x < 256 -> nth (Z.to_nat x) crc32tab 0 = Nat.iter 8 crc32_bit x.
Proof. intros Hx. rewrite <- (Z2Nat.id x) at 2 by lia. exact (seq_256 _ _ x crc32tab_all Hx). Qed.

Lemma crc32_bit_lxor a b : crc32_bit (Z.lxor a b) = Z.lxor (crc32_bit a) (crc32_bit b).
Proof.
  unfold crc32_bit. rewrite Z.lxor_spec, Z.shiftr_lxor.
  assert (forall x y : bool, (if xorb x y then 0xEDB88320 else 0) =
    Z.lxor (if x then 0xEDB88320 else 0) (if y then 0xEDB88320 else 0)) as -> by (by intros [] []).
  apply lxor_swap.
Qed.

Lemma crc32_bits_lxor n a b :
  Nat.iter n crc32_bit (Z.lxor a b) = Z.lxor (Nat.iter n crc32_bit a) (Nat.iter n crc32_bit b).
Proof. induction n; simpl; [done|]. by rewrite IHn, crc32_bit_lxor. Qed.

(** Zeros at the low end are shifted out. *)
Lemma crc32_bits_shift n h : Nat.iter n crc32_bit (Z.shiftl h (Z.of_nat n)) = h.
Proof.
  revert h. induction n as [|n IH]; intros h; [apply Z.shiftl_0_r|].
  change (S n) with (1 + n)%nat at 1. rewrite Nat.iter_succ.
  replace (Z.shiftl h (Z.of_nat (S n))) with (Z.shiftl (Z.shiftl h 1) (Z.of_nat n))
    by (rewrite Z.shiftl_shiftl by lia; f_equal; lia).
  rewrite IH. unfold crc32_bit. rewrite Z.shiftl_spec_low by lia. rewrite Z.lxor_0_r.
  rewrite Z.shiftr_shiftl_l by lia. apply Z.shiftl_0_r.
Qed.

Lemma low_split x b : is_byte b ->
  Z.lxor x b = Z.lxor (Z.shiftl (Z.shiftr x 8) 8) (Z.lxor (x mod 2 ^ 8) b).
Proof.
  intros Hb. rewrite <- Z.lxor_assoc. f_equal. rewrite <- Z.land_ones by lia.
  apply Z.bits_inj'. intros n Hn. rewrite Z.lxor_spec, Z.land_spec, Z.testbit_ones by lia.
  destruct (Z.ltb_spec n 8), (Z.leb_spec 0 n); try lia; cbn [andb].
  - by rewrite Z.shiftl_spec_low, andb_true_r by lia.
  - rewrite Z.shiftl_spec_high, Z.shiftr_spec by lia. rewrite andb_false_r, xorb_false_r. f_equal. lia.
Qed.

Lemma crc32_table_step crc b : is_byte b ->
  Z.lxor (Z.shiftr crc 8) (nth (Z.to_nat (Z.lxor (crc mod 2 ^ 8) b)) crc32tab 0) = crc32_byte crc b.
Proof.
  intros Hb. unfold crc32_byte. rewrite (low_split crc b), crc32_bits_lxor by done.
  rewrite (crc32_bits_shift 8), crc32_entry; [done|].
  apply (lxor_range 8); [lia| apply Z.mod_pos_bound; lia|done].
Qed.

Lemma crc32_steps l : forall crc, Forall is_byte l ->
  fold_left crc32_step l crc = fold_left crc32_byte l crc /\ fold_left crc32a_step l crc = fold_left crc32_byte l crc.
Proof.
  induction l as [|b l IH]; intros crc Hl; [done|]. inversion_clear Hl.
  rewrite !fold_left_cons. unfold crc32_step at 2, crc32a_step at 2. rewrite !low_byte by (done || lia).
  rewrite (Z.lxor_comm (nth _ _ _)), crc32_table_step by done. by apply IH.
Qed.

Lemma crc32_byte_range crc b : 0 <= crc < 2 ^ 32 -> is_byte b -> 0 <= crc32_byte crc b < 2 ^ 32.
Proof.
  intros Hc Hb. assert (0 <= Z.lxor crc b < 2 ^ 32) as Hx by (apply lxor_range; [lia|lia|unfold is_byte in Hb; lia]).
  unfold crc32_byte. revert Hx. generalize (Z.lxor crc b), 8%nat. intros x n Hx. induction n as [|n IH]; [done|].
  rewrite Nat.iter_succ. unfold crc32_bit at 1. apply lxor_range; [lia| |destruct (Z.testbit _ 0); lia].
  rewrite Z.shiftr_div_pow2 by lia. split; [apply Z.div_pos; lia|]. apply Z.div_lt_upper_bound; lia.
Qed.

Lemma crc32_fold_range l : forall crc, Forall is_byte l -> 0 <= crc < 2 ^ 32 ->
  0 <= fold_left crc32_byte l crc < 2 ^ 32.
Proof.
  induction l as [|b l IH]; intros crc Hl Hc; [done|]. inversion_clear Hl. rewrite fold_left_cons.
  apply IH; [done|]. by apply crc32_byte_range.
Qed.

(** [~crc] of a 32-bit number is the exclusive or with all ones. *)
Lemma u32_lnot x : 0 <= x < 2 ^ 32 -> u32 (Z.lnot x) = Z.lxor x 0xffffffff.
Proof.
  intros Hx. rewrite <- (Z.mod_small x (2 ^ 32)) at 2 by done. unfold wrap. rewrite <- !Z.land_ones by lia.
  change 0xffffffff with (Z.ones 32).
  apply Z.bits_inj'. intros n Hn. rewrite Z.lxor_spec, !Z.land_spec, Z.lnot_spec by lia.
  by destruct (Z.testbit x n), (Z.testbit (Z.ones 32) n).
Qed.

(** The functions [crc16], [crc32] and [crc32a] of the configuration: the low
    half of [Crc16] is CRC-16/XMODEM, [Crc32a] is the CRC-32 of IEEE 802.3 and
    [Crc32] bits 16 to 30 of it, for every key, whatever the sign of its
    bytes. *)
Theorem crc_hashes (key : list Z) (Hkey : Forall is_byte key) :
  u16 (Crc16 key) = crc_xmodem key /\
  Crc32a key = crc32_ieee key /\
  Crc32 key = Z.land (Z.shiftr (crc32_ieee key) 16) 0x7fff.
Proof.
  destruct (crc32_steps key 0xffffffff Hkey) as [E1 E2].
  split; [by apply (Crc16_low key 0)|]. unfold Crc32a, Crc32, crc32_ieee. rewrite E1, E2. split; [done|].
  rewrite u32_lnot; [done|]. by apply crc32_fold_range.
Qed.

Lemma crc_hashes_witness :
  u16 (Crc16 (str "123456789")) = crc_xmodem (str "123456789") /\
  Crc32a (str "123456789") = crc32_ieee (str "123456789") /\
  Crc32 (str "123456789") = Z.land (Z.shiftr (crc32_ieee (str "123456789")) 16) 0x7fff.
Proof. apply (crc_hashes (str "123456789")). repeat constructor; vm_compute; congruence. Defined.

(** The check values of the two codes, and a byte that is negative as a
    [char]. *)
Example crc_check_values :
  u16 (Crc16 (str "123456789")) = 0x31C3 /\ Crc32a (str "123456789") = 0xCBF43926 /\
  Crc32a [255; 255; 255; 255] = 0xFFFFFFFF.
Proof. vm_compute. done. Qed.

(** ** FNV *)

Lemma u32_u64 x : u32 (u64 x) = u32 x.
Proof. apply (wrap_mod_pow2 64 32). lia. Qed.

Lemma u32_u32 x : u32 (u32 x) = u32 x.
Proof. apply (wrap_mod_pow2 32 32). lia. Qed.

Lemma wrap_mul w a b : wrap w (a * b) = wrap w (wrap w a * wrap w b).
Proof. unfold wrap. by rewrite Zmult_mod. Qed.

(** [fnv1a_64] works in 32 bits and gets the low half of the 64-bit FNV-1a. *)
Lemma Fnv1a64_low (key : list Z) :
  Fnv1a64 key = u32 (fold_left (fun hash b => u64 (Z.lxor hash (u64 (schar b)) * FNV_64_PRIME)) key FNV_64_INIT).
Proof.
  unfold Fnv1a64. generalize FNV_64_INIT. induction key as [|b key IH]; intros h; [done|].
  rewrite !fold_left_cons, <- IH. f_equal. rewrite u32_u64, (wrap_mul _ (Z.lxor (u32 h) _)), (wrap_mul _ (Z.lxor h _)).
  rewrite !wrap_lxor, u32_u64, !u32_u32 by lia. done.
Qed.

(** ** Jenkins *)

(** A number below a shifted one adds without carries. *)
Lemma lor_shiftl x y k : 0 <= k -> 0 <= y < 2 ^ k -> Z.lor (Z.shiftl x k) y = x * 2 ^ k + y.
Proof.
  intros Hk Hy. assert (Z.land (Z.shiftl x k) y = 0) as E.
  { apply Z.bits_inj'. intros n Hn. rewrite Z.land_spec, Z.bits_0.
    destruct (Z.ltb_spec n k); [by rewrite Z.shiftl_spec_low|].
    destruct (decide (y = 0)) as [->|]; [by rewrite Z.bits_0, andb_false_r|].
    rewrite (Z.bits_above_log2 y n), andb_false_r; [done|lia|].
    apply Z.log2_lt_pow2; [lia|]. apply Z.lt_le_trans with (2 ^ k); [lia|]. apply Z.pow_le_mono_r; lia. }
  pose proof (Z.add_lor_land (Z.shiftl x k) y) as Hs. rewrite E in Hs.
  rewrite Z.shiftl_mul_pow2 in Hs |- * by lia. lia.
Qed.

Lemma le_value_cons b l : is_byte b -> le_value (b :: l) = b + 256 * le_value l.
Proof. intros Hb. cbn [le_value]. rewrite Z.lor_comm, lor_shiftl by (done || lia). lia. Qed.

Lemma le_value_take k l : Forall is_byte l -> le_value (take k l) = le_value l mod 2 ^ (8 * Z.of_nat k).
Proof.
  revert l. induction k as [|k IH]; intros l Hl; [by rewrite Z.mod_1_r|].
  destruct l as [|b l]; [by rewrite Z.mod_0_l by lia|]. inversion_clear Hl as [|?? Hb Hl'].
  cbn [take]. rewrite !le_value_cons, IH by done.
  replace (8 * Z.of_nat (S k)) with (8 + 8 * Z.of_nat k) by lia. rewrite Z.pow_add_r by lia.
  unfold is_byte in Hb. set (M := 2 ^ (8 * Z.of_nat k)). assert (0 < M) by (apply Z.pow_pos_nonneg; lia).
  pose proof (Z.mod_pos_bound (le_value l) M ltac:(lia)).
  apply Z.mod_unique with (le_value l / M); [left; nia|].
  pose proof (Z.div_mod (le_value l) M ltac:(lia)). change (2 ^ 8) with 256. lia.
Qed.

Lemma le_value_app l1 l2 : Forall is_byte l1 -> le_value (l1 ++ l2) = le_value l1 + Z.shiftl (le_value l2) (8 * zlen l1).
Proof.
  induction 1 as [|b l1 Hb _ IH]; [by rewrite Z.shiftl_0_r|].
  cbn [app]. rewrite !le_value_cons, IH, zlen_cons by done. pose proof (zlen_nonneg l1).
  rewrite !Z.shiftl_mul_pow2 by lia. replace (8 * (1 + zlen l1)) with (8 + 8 * zlen l1) by lia.
  rewrite Z.pow_add_r by lia. lia.
Qed.

Lemma u32_add_r x y : u32 (x + u32 y) = u32 (x + y).
Proof. apply Zplus_mod_idemp_r. Qed.

Lemma u32_add_l x y : u32 (u32 x + y) = u32 (x + y).
Proof. apply Zplus_mod_idemp_l. Qed.

Lemma rot_range x k : 0 <= x < 2 ^ 32 -> 0 <= k <= 32 -> 0 <= rot x k < 2 ^ 32.
Proof.
  intros Hx Hk. unfold rot. apply (lor_range 32); [lia|apply wrap_range; lia|].
  rewrite Z.shiftr_div_pow2 by lia. pose proof (Z.pow_pos_nonneg 2 (32 - k)).
  split; [apply Z.div_pos; lia|]. apply Z.div_lt_upper_bound; nia.
Qed.

Definition abc_ok (s : abc) : Prop := 0 <= ja s < 2 ^ 32 /\ 0 <= jb s < 2 ^ 32 /\ 0 <= jc s < 2 ^ 32.

Lemma mix_ok s : abc_ok s -> abc_ok (mix s).
Proof.
  destruct s as [a b c]. intros (Ha & Hb & Hc). unfold mix. cbv zeta. cbn [ja jb jc] in *.
  repeat split; cbn [ja jb jc]; try (apply wrap_range; lia).
  all: repeat first [assumption | apply wrap_range; lia | apply rot_range; [|lia] | apply (lxor_range 32); [lia| |] ].
Qed.

Section jenkins_proof.
Context (mem : Z -> Z) (mem_bytes : forall x, is_byte (mem x)).

Lemma read_length p n : length (read mem p n) = Z.to_nat n.
Proof. unfold read. by rewrite length_fmap, length_seq. Qed.

Lemma read_zlen p n : 0 <= n -> zlen (read mem p n) = n.
Proof. intros. unfold zlen. rewrite read_length. lia. Qed.

Lemma read_bytes p n : Forall is_byte (read mem p n).
Proof. apply Forall_fmap, Forall_forall. intros. apply mem_bytes. Qed.

Lemma read_app p n k : 0 <= n -> 0 <= k -> read mem p (n + k) = read mem p n ++ read mem (p + n) k.
Proof.
  intros Hn Hk. unfold read. rewrite Z2Nat.inj_add by lia. rewrite seq_app, fmap_app. f_equal.
  rewrite Nat.add_0_l. rewrite <- (Nat.add_0_r (Z.to_nat n)), <- fmap_add_seq, <- list_fmap_compose.
  apply list_fmap_ext. intros i x _. unfold compose. f_equal. lia.
Qed.

Lemma le4 a b c d : is_byte a -> is_byte b -> is_byte c -> is_byte d -> le_value [a; b; c; d] = word32 a b c d.
Proof. intros. rewrite !le_value_cons by done. unfold word32. rewrite !Z.shiftl_mul_pow2 by lia. simpl. lia. Qed.

Lemma k32_read p i : k32 mem p i = le_value (read mem (p + 4 * i) 4).
Proof.
  change (read mem (p + 4 * i) 4) with [mem (p + 4 * i + 0); mem (p + 4 * i + 1); mem (p + 4 * i + 2); mem (p + 4 * i + 3)].
  rewrite le4 by apply mem_bytes. unfold k32. by rewrite Z.add_0_r.
Qed.

Lemma k16_read p i : k16 mem p i = le_value (read mem (p + 2 * i) 2).
Proof.
  change (read mem (p + 2 * i) 2) with [mem (p + 2 * i + 0); mem (p + 2 * i + 1)].
  rewrite !le_value_cons by apply mem_bytes. unfold k16. rewrite Z.shiftl_mul_pow2 by lia.
  rewrite Z.add_0_r. simpl. lia.
Qed.

Lemma k8_read p i : k8 mem p i = le_value (read mem (p + i) 1).
Proof.
  change (read mem (p + i) 1) with [mem (p + i + 0)]. rewrite le_value_cons by apply mem_bytes.
  unfold k8. rewrite (Z.add_0_r (p + i)). change (le_value []) with 0. lia.
Qed.

(** [V p n] is the number in [n] bytes at [p]. *)
Abbreviation V p n := (le_value (read mem p n)).

Lemma V_add p n k : 0 <= n -> 0 <= k -> V p (n + k) = V p n + Z.shiftl (V (p + n) k) (8 * n).
Proof. intros. rewrite read_app, le_value_app, read_zlen by (done || apply read_bytes). done. Qed.

Lemma V_mask p n k : 0 <= k <= n -> Z.land (V p n) (2 ^ (8 * k) - 1) = V p k.
Proof.
  intros Hk. rewrite land_mask by lia. replace n with (k + (n - k)) by lia. rewrite read_app by lia.
  pose proof (le_value_take (Z.to_nat k) (read mem p k ++ read mem (p + k) (n - k))) as E.
  rewrite Z2Nat.id in E by lia. rewrite <- E by (apply Forall_app; split; apply read_bytes).
  rewrite take_app_length'; [done|]. by rewrite read_length.
Qed.

Definition clip (n : Z) : Z := Z.max 0 (Z.min 4 n).

Lemma read_window p n k : 0 <= k -> 0 <= n -> take 4 (drop (Z.to_nat k) (read mem p n)) = read mem (p + k) (clip (n - k)).
Proof.
  intros Hk Hn. unfold clip. destruct (decide (n <= k)) as [|Hlt].
  - rewrite drop_ge by (rewrite read_length; lia). replace (Z.max 0 (Z.min 4 (n - k))) with 0 by lia. done.
  - replace n with (k + (n - k)) at 1 by lia. rewrite read_app by lia.
    rewrite drop_app_length' by (by rewrite read_length). destruct (decide (n - k <= 4)).
    + rewrite take_ge by (rewrite read_length; lia). f_equal. lia.
    + replace (n - k) with (4 + (n - k - 4)) at 1 by lia. rewrite read_app by lia.
      rewrite take_app_length' by (rewrite read_length; lia). f_equal. lia.
Qed.

Lemma add_read p n s : 0 <= n ->
  jenkins_add (read mem p n) s =
  mkABC (u32 (ja s + V p (clip n))) (u32 (jb s + V (p + 4) (clip (n - 4)))) (u32 (jc s + V (p + 8) (clip (n - 8)))).
Proof.
  intros Hn. unfold jenkins_add. pose proof (read_window p n 0 ltac:(lia) Hn) as E0.
  pose proof (read_window p n 4 ltac:(lia) Hn) as E4. pose proof (read_window p n 8 ltac:(lia) Hn) as E8.
  change (Z.to_nat 4) with 4%nat in E4. change (Z.to_nat 8) with 8%nat in E8. change (drop (Z.to_nat 0) (read mem p n)) with (read mem p n) in E0.
  rewrite E0, E4, E8. by rewrite Z.add_0_r, Z.sub_0_r.
Qed.

(** The three ways to read the last block agree with the reference. *)
Definition last_ref (p n : Z) (s : abc) : option abc :=
  if (1 <=? n) && (n <=? 12) then Some (jenkins_add (read mem p n) s) else None.

Lemma V_0 p : V p 0 = 0.
Proof. done. Qed.

Lemma V_4 p : V p 4 = V p 2 + Z.shiftl (V (p + 2) 2) 16.
Proof. apply (V_add p 2 2); lia. Qed.

Lemma V_3 p : V p 3 = V p 2 + Z.shiftl (V (p + 2) 1) 16.
Proof. apply (V_add p 2 1); lia. Qed.

Lemma k16w_read p i : k16w mem p i = u32 (V (p + 2 * i) 4).
Proof.
  unfold k16w. rewrite !k16_read. rewrite V_4. do 5 f_equal. lia.
Qed.

Lemma small_cases n (P : Z -> Prop) :
  P 1 -> P 2 -> P 3 -> P 4 -> P 5 -> P 6 -> P 7 -> P 8 -> P 9 -> P 10 -> P 11 -> P 12 -> 1 <= n <= 12 -> P n.
Proof.
  intros. assert (n = 1 \/ n = 2 \/ n = 3 \/ n = 4 \/ n = 5 \/ n = 6 \/ n = 7 \/ n = 8 \/ n = 9 \/ n = 10 \/
    n = 11 \/ n = 12) as Hn by lia. by repeat destruct Hn as [->|Hn]; subst.
Qed.

Ltac clips :=
  repeat match goal with |- context [clip ?e] => let v := eval vm_compute in (clip e) in change (clip e) with v end;
  rewrite ?V_0.

Lemma last32_ref p n s : last32 mem p n s = last_ref p n s.
Proof.
  unfold last_ref. destruct ((1 <=? n) && (n <=? 12)) eqn:E.
  - rewrite add_read by lia. pattern n. apply small_cases; [..|lia].
    all: cbv [last32 add3 Z.eqb Pos.eqb]; rewrite !k32_read; clips.
    all: change 0xffffff with (2 ^ (8 * 3) - 1); change 0xffff with (2 ^ (8 * 2) - 1); change 0xff with (2 ^ (8 * 1) - 1).
    all: rewrite ?V_mask by lia; change (4 * 0) with 0; rewrite ?(Z.add_0_r p); done.
  - unfold last32. repeat case_match; (done || lia).
Qed.

Lemma last16_ref p n s : last16 mem p n s = last_ref p n s.
Proof.
  unfold last_ref. destruct ((1 <=? n) && (n <=? 12)) eqn:E.
  - rewrite add_read by lia. pattern n. apply small_cases; [..|lia].
    all: cbv [last16 add3 Z.eqb Pos.eqb]; cbn [ja jb jc]; rewrite ?k16w_read, ?k16_read, ?k8_read, ?u32_add_r, ?u32_add_l; clips.
    all: change (2 * 0) with 0; change (2 * 2) with 4; change (2 * 4) with 8; rewrite ?(Z.add_0_r p).
    all: try done.
    all: rewrite V_3, <- ?(Z.add_assoc p); do 3 f_equal;
      change (4 + 2) with 6; change (8 + 2) with 10; lia.
  - unfold last16. repeat case_match; (done || lia).
Qed.

(** Only the outermost wrap of a sum counts. *)
Ltac u32_sums := repeat progress (rewrite ?u32_add_l, <- ?Z.add_assoc).

(** Bytes added one by one, from either end. *)
Lemma V_bytes p : V p 1 = k8 mem p 0 /\ V p 2 = k8 mem p 0 + Z.shiftl (k8 mem p 1) 8 /\
  V p 3 = k8 mem p 0 + Z.shiftl (k8 mem p 1) 8 + Z.shiftl (k8 mem p 2) 16 /\
  V p 4 = k8 mem p 0 + Z.shiftl (k8 mem p 1) 8 + Z.shiftl (k8 mem p 2) 16 + Z.shiftl (k8 mem p 3) 24.
Proof.
  pose proof (V_add p 1 1) as E2. pose proof (V_add p 2 1) as E3. pose proof (V_add p 3 1) as E4.
  rewrite !k8_read, Z.add_0_r. change (1 + 1) with 2 in E2. change (2 + 1) with 3 in E3. change (3 + 1) with 4 in E4.
  rewrite E4, E3, E2 by lia. done.
Qed.

Lemma add_up_read x p : add_up mem x p = u32 (x + V p 4).
Proof.
  destruct (V_bytes p) as (_ & _ & _ & ->). unfold add_up. cbv zeta. u32_sums. f_equal; lia.
Qed.

Lemma add_down_read x p m : 0 <= x < 2 ^ 32 -> m <= 4 -> add_down mem x p m = u32 (x + V p (clip m)).
Proof.
  intros Hx Hm. destruct (V_bytes p) as (E1 & E2 & E3 & E4). unfold add_down.
  destruct (decide (m <= 0)).
  { unfold clip. replace (Z.max 0 (Z.min 4 m)) with 0 by lia.
    cbv zeta. destruct (Z.leb_spec 4 m), (Z.leb_spec 3 m), (Z.leb_spec 2 m), (Z.leb_spec 1 m); try lia.
    by rewrite V_0, Z.add_0_r, wrap_small. }
  assert (m = 1 \/ m = 2 \/ m = 3 \/ m = 4) as [->|[->|[->| ->]]] by lia; cbv zeta; clips.
  all: rewrite ?E1, ?E2, ?E3, ?E4; cbn [Z.leb Z.compare Pos.compare Pos.compare_cont].
  all: u32_sums; f_equal; lia.
Qed.

Lemma add_down_clip x p m : add_down mem x p (Z.min 4 m) = add_down mem x p m.
Proof.
  unfold add_down. cbv zeta. replace (4 <=? Z.min 4 m) with (4 <=? m) by lia.
  replace (3 <=? Z.min 4 m) with (3 <=? m) by lia. replace (2 <=? Z.min 4 m) with (2 <=? m) by lia.
  by replace (1 <=? Z.min 4 m) with (1 <=? m) by lia.
Qed.

Lemma last8_ref p n s : abc_ok s -> last8 mem p n s = last_ref p n s.
Proof.
  intros (Ha & Hb & Hc). unfold last8, last_ref. destruct ((1 <=? n) && (n <=? 12)) eqn:E; [|done].
  assert (forall m, clip (Z.min 4 m) = clip m) as Hclip by (intros; unfold clip; lia).
  rewrite add_read by lia. rewrite <- !(add_down_clip _ _ n), <- !(add_down_clip _ _ (n - _)).
  by rewrite !add_down_read, !Hclip by (done || lia).
Qed.

Lemma blocks_ref p n s : 12 < n ->
  block32 mem p s = mix (jenkins_add (read mem p n) s) /\ block16 mem p s = mix (jenkins_add (read mem p n) s) /\
  block8 mem p s = mix (jenkins_add (read mem p n) s).
Proof.
  intros Hn. rewrite add_read by lia. unfold clip. rewrite !(Z.min_l 4), !Z.max_r by lia.
  unfold block32, block16, block8. rewrite !k32_read, !k16w_read, !u32_add_r, !add_up_read.
  change (4 * 0) with 0. change (2 * 0) with 0. by rewrite !(Z.add_0_r p).
Qed.

(** A loop whose two parts agree with the reference computes it. *)
Lemma loop_ref block last :
  (forall p n s, 12 < n -> block p s = mix (jenkins_add (read mem p n) s)) ->
  (forall p n s, abc_ok s -> last p n s = last_ref p n s) ->
  forall fuel p n s, abc_ok s -> 0 <= n <= Z.of_nat fuel ->
  jenkins_loop block last fuel p n s = jenkins_blocks fuel (read mem p n) s.
Proof.
  intros Hblock Hlast fuel. induction fuel as [|fuel IH]; intros p n s Hs Hn; cbn [jenkins_loop jenkins_blocks].
  - rewrite Hlast by done. unfold last_ref. by replace n with 0 by lia.
  - rewrite read_zlen by lia. destruct (Z.ltb_spec 12 n) as [Hlt|Hge].
    + rewrite (Hblock _ n) by done. rewrite IH; [|apply mix_ok; repeat split; apply wrap_range; lia|lia].
      f_equal. replace n with (12 + (n - 12)) at 2 by lia. rewrite read_app by lia.
      symmetry. apply drop_app_length'. by rewrite read_length.
    + rewrite Hlast by done. unfold last_ref. pose proof (read_length p n) as Hl.
      destruct (read mem p n) as [|b l] eqn:E; cbn [length] in Hl.
      * by replace n with 0 by lia.
      * by replace ((1 <=? n) && (n <=? 12)) with true by lia.
Qed.
End jenkins_proof.

(** C29: [Jenkins] does not depend on where the key lies: whichever of the three
    loops its address selects, and whatever follows the key in memory, the
    result is the hash of the key's bytes. *)
Theorem jenkins_any_address (mem : Z -> Z) (p n : Z) (Hmem : forall x, is_byte (mem x)) (Hn : 0 <= n < 2 ^ 32) :
  Jenkins mem p n = jenkins_ref (read mem p n).
Proof.
  unfold Jenkins, jenkins_ref. rewrite read_zlen, read_length by lia.
  rewrite (wrap_small 32 n) by done. rewrite u32_add_l.
  set (x := u32 (_ + 13)). assert (abc_ok (mkABC x x x)) as Hx by (repeat split; apply wrap_range; lia).
  repeat case_match; apply loop_ref; try done; try lia; intros.
  all: try (by apply blocks_ref). all: by first [apply last32_ref | apply last16_ref | apply last8_ref].
Qed.

(** A key of fifteen bytes at an odd, an even and an aligned address. *)
Lemma jenkins_any_address_witness :
  let mem p := if (100 <=? p) && (p <? 200) then p else 255 in
  Jenkins mem 101 15 = jenkins_ref (read mem 101 15).
Proof.
  intros mem. apply (jenkins_any_address mem 101 15).
  - intros x. unfold mem, is_byte. destruct ((100 <=? x) && (x <? 200)) eqn:E; lia.
  - lia.
Defined.
