(* ===== verification/Md5.v ===== *)
(** * common/hash.cpp: MD5

    [GR_Hash::Md5] and [Md5Signature]: the key's MD5 digest, which [hash = md5]
    and the points of the ketama ring use.  The block function is unrolled
    in the source and its state is kept between calls; the reference is RFC
    1321. *)

From S2P Require Import Prelude Hashes.

Module Rounds.

(** The four functions; [~z] of an [unsigned int] stays in 32 bits. *)
Definition F (x y z : Z) : Z := Z.lxor z (Z.land x (Z.lxor y z)).
Definition G (x y z : Z) : Z := Z.lxor y (Z.land z (Z.lxor x y)).
Definition H (x y z : Z) : Z := Z.lxor (Z.lxor x y) z.
Definition I (x y z : Z) : Z := Z.lxor y (Z.lor x (u32 (Z.lnot z))).

Definition STEP (f : Z -> Z -> Z -> Z) (a b c d x t s : Z) : Z :=
  let a := u32 (a + u32 (u32 (f b c d + x) + t)) in
  let a := Z.lor (u32 (Z.shiftl a s)) (Z.shiftr (Z.land a 0xffffffff) (32 - s)) in
  u32 (a + b).

Record regs := mkRegs { ra : Z; rb : Z; rc : Z; rd : Z }.

Definition round1 (X : nat -> Z) (s : regs) : regs :=
  let '(mkRegs a b c d) := s in
  let a := STEP F a b c d (X 0%nat) 0xd76aa478 7 in
  let d := STEP F d a b c (X 1%nat) 0xe8c7b756 12 in
  let c := STEP F c d a b (X 2%nat) 0x242070db 17 in
  let b := STEP F b c d a (X 3%nat) 0xc1bdceee 22 in
  let a := STEP F a b c d (X 4%nat) 0xf57c0faf 7 in
  let d := STEP F d a b c (X 5%nat) 0x4787c62a 12 in
  let c := STEP F c d a b (X 6%nat) 0xa8304613 17 in
  let b := STEP F b c d a (X 7%nat) 0xfd469501 22 in
  let a := STEP F a b c d (X 8%nat) 0x698098d8 7 in
  let d := STEP F d a b c (X 9%nat) 0x8b44f7af 12 in
  let c := STEP F c d a b (X 10%nat) 0xffff5bb1 17 in
  let b := STEP F b c d a (X 11%nat) 0x895cd7be 22 in
  let a := STEP F a b c d (X 12%nat) 0x6b901122 7 in
  let d := STEP F d a b c (X 13%nat) 0xfd987193 12 in
  let c := STEP F c d a b (X 14%nat) 0xa679438e 17 in
  let b := STEP F b c d a (X 15%nat) 0x49b40821 22 in
  mkRegs a b c d.

Definition round2 (X : nat -> Z) (s : regs) : regs :=
  let '(mkRegs a b c d) := s in
  let a := STEP G a b c d (X 1%nat) 0xf61e2562 5 in
  let d := STEP G d a b c (X 6%nat) 0xc040b340 9 in
  let c := STEP G c d a b (X 11%nat) 0x265e5a51 14 in
  let b := STEP G b c d a (X 0%nat) 0xe9b6c7aa 20 in
  let a := STEP G a b c d (X 5%nat) 0xd62f105d 5 in
  let d := STEP G d a b c (X 10%nat) 0x02441453 9 in
  let c := STEP G c d a b (X 15%nat) 0xd8a1e681 14 in
  let b := STEP G b c d a (X 4%nat) 0xe7d3fbc8 20 in
  let a := STEP G a b c d (X 9%nat) 0x21e1cde6 5 in
  let d := STEP G d a b c (X 14%nat) 0xc33707d6 9 in
  let c := STEP G c d a b (X 3%nat) 0xf4d50d87 14 in
  let b := STEP G b c d a (X 8%nat) 0x455a14ed 20 in
  let a := STEP G a b c d (X 13%nat) 0xa9e3e905 5 in
  let d := STEP G d a b c (X 2%nat) 0xfcefa3f8 9 in
  let c := STEP G c d a b (X 7%nat) 0x676f02d9 14 in
  let b := STEP G b c d a (X 12%nat) 0x8d2a4c8a 20 in
  mkRegs a b c d.

Definition round3 (X : nat -> Z) (s : regs) : regs :=
  let '(mkRegs a b c d) := s in
  let a := STEP H a b c d (X 5%nat) 0xfffa3942 4 in
  let d := STEP H d a b c (X 8%nat) 0x8771f681 11 in
  let c := STEP H c d a b (X 11%nat) 0x6d9d6122 16 in
  let b := STEP H b c d a (X 14%nat) 0xfde5380c 23 in
  let a := STEP H a b c d (X 1%nat) 0xa4beea44 4 in
  let d := STEP H d a b c (X 4%nat) 0x4bdecfa9 11 in
  let c := STEP H c d a b (X 7%nat) 0xf6bb4b60 16 in
  let b := STEP H b c d a (X 10%nat) 0xbebfbc70 23 in
  let a := STEP H a b c d (X 13%nat) 0x289b7ec6 4 in
  let d := STEP H d a b c (X 0%nat) 0xeaa127fa 11 in
  let c := STEP H c d a b (X 3%nat) 0xd4ef3085 16 in
  let b := STEP H b c d a (X 6%nat) 0x04881d05 23 in
  let a := STEP H a b c d (X 9%nat) 0xd9d4d039 4 in
  let d := STEP H d a b c (X 12%nat) 0xe6db99e5 11 in
  let c := STEP H c d a b (X 15%nat) 0x1fa27cf8 16 in
  let b := STEP H b c d a (X 2%nat) 0xc4ac5665 23 in
  mkRegs a b c d.

Definition round4 (X : nat -> Z) (s : regs) : regs :=
  let '(mkRegs a b c d) := s in
  let a := STEP I a b c d (X 0%nat) 0xf4292244 6 in
  let d := STEP I d a b c (X 7%nat) 0x432aff97 10 in
  let c := STEP I c d a b (X 14%nat) 0xab9423a7 15 in
  let b := STEP I b c d a (X 5%nat) 0xfc93a039 21 in
  let a := STEP I a b c d (X 12%nat) 0x655b59c3 6 in
  let d := STEP I d a b c (X 3%nat) 0x8f0ccc92 10 in
  let c := STEP I c d a b (X 10%nat) 0xffeff47d 15 in
  let b := STEP I b c d a (X 1%nat) 0x85845dd1 21 in
  let a := STEP I a b c d (X 8%nat) 0x6fa87e4f 6 in
  let d := STEP I d a b c (X 15%nat) 0xfe2ce6e0 10 in
  let c := STEP I c d a b (X 6%nat) 0xa3014314 15 in
  let b := STEP I b c d a (X 13%nat) 0x4e0811a1 21 in
  let a := STEP I a b c d (X 4%nat) 0xf7537e82 6 in
  let d := STEP I d a b c (X 11%nat) 0xbd3af235 10 in
  let c := STEP I c d a b (X 2%nat) 0x2ad7d2bb 15 in
  let b := STEP I b c d a (X 9%nat) 0xeb86d391 21 in
  mkRegs a b c d.

End Rounds.
Import Rounds.

(** [SET]/[GET]: the [n]-th little-endian word at the pointer. *)
Definition SET (ptr : list Z) (n : nat) : Z := le_value (take 4 (drop (4 * n) ptr)).

Definition add_regs (s t : regs) : regs :=
  mkRegs (u32 (ra s + ra t)) (u32 (rb s + rb t)) (u32 (rc s + rc t)) (u32 (rd s + rd t)).

(** One turn of the loop of [body]. *)
Definition body_block (ptr : list Z) (s : regs) : regs :=
  let X := SET ptr in add_regs (round4 X (round3 X (round2 X (round1 X s)))) s.

(** [body] over [blocks] blocks of 64 bytes, with the pointer behind them. *)
Fixpoint body (blocks : nat) (s : regs) (ptr : list Z) : regs * list Z :=
  match blocks with
  | O => (s, ptr)
  | S blocks => body blocks (body_block ptr s) (drop 64 ptr)
  end.

Record MD5_CTX := mkMD5 { lo : Z; hi : Z; abcd : regs; buffer : list Z }.

Definition MD5_Init : MD5_CTX :=
  mkMD5 0 0 (mkRegs 0x67452301 0xefcdab89 0x98badcfe 0x10325476) (replicate 64 0).

Definition MD5_Update (ctx : MD5_CTX) (data : list Z) : MD5_CTX :=
  let size := zlen data in
  let saved_lo := lo ctx in
  let lo' := Z.land (u64 (saved_lo + size)) 0x1fffffff in
  let hi' := if lo' <? saved_lo then u32 (hi ctx + 1) else hi ctx in
  let hi' := u32 (hi' + Z.shiftr size 29) in
  let used := Z.land saved_lo 0x3f in
  let rest (s : regs) (buf data : list Z) :=
    let '(s, data) := if 64 <=? zlen data then body (Z.to_nat (zlen data / 64)) s data else (s, data) in
    mkMD5 lo' hi' s (overwrite buf 0 data) in
  if used =? 0 then rest (abcd ctx) (buffer ctx) data
  else
    let free := 64 - used in
    if size <? free then mkMD5 lo' hi' (abcd ctx) (overwrite (buffer ctx) (Z.to_nat used) data)
    else
      let buf := overwrite (buffer ctx) (Z.to_nat used) (take (Z.to_nat free) data) in
      rest (fst (body 1 (abcd ctx) buf)) buf (drop (Z.to_nat free) data).

(** The four bytes of a register. *)
Definition put32 (v : Z) : list Z :=
  [wrap 8 v; wrap 8 (Z.shiftr v 8); wrap 8 (Z.shiftr v 16); wrap 8 (Z.shiftr v 24)].

Definition MD5_Final (ctx : MD5_CTX) : list Z :=
  let used := Z.land (lo ctx) 0x3f in
  let buf := <[Z.to_nat used := 0x80]> (buffer ctx) in
  let used := used + 1 in
  let free := 64 - used in
  let '(s, buf, used, free) :=
    if free <? 8 then
      let buf := overwrite buf (Z.to_nat used) (zeros free) in
      (fst (body 1 (abcd ctx) buf), buf, 0, 64)
    else (abcd ctx, buf, used, free) in
  let buf := overwrite buf (Z.to_nat used) (zeros (free - 8)) in
  let lo' := u32 (Z.shiftl (lo ctx) 3) in
  let buf := overwrite (overwrite buf 56 (put32 lo')) 60 (put32 (hi ctx)) in
  let s := fst (body 1 s buf) in
  put32 (ra s) ++ put32 (rb s) ++ put32 (rc s) ++ put32 (rd s).

Definition Md5Signature (key : list Z) : list Z := MD5_Final (MD5_Update MD5_Init key).

Definition Md5 (key : list Z) : Z :=
  match Md5Signature key with
  | r0 :: r1 :: r2 :: r3 :: _ =>
      Z.lor (Z.lor (Z.lor (Z.shiftl (Z.land r3 0xFF) 24) (Z.shiftl (Z.land r2 0xFF) 16)) (Z.shiftl (Z.land r1 0xFF) 8)) (Z.land r0 0xFF)
  | _ => 0
  end.

(** ** RFC 1321 *)

(** The functions as the RFC defines them, bit by bit. *)
Definition rfc_not (x : Z) : Z := Z.lxor x 0xffffffff.
Definition rfc_f (r : nat) (x y z : Z) : Z :=
  match r with
  | 0%nat => Z.lor (Z.land x y) (Z.land (rfc_not x) z)
  | 1%nat => Z.lor (Z.land x z) (Z.land y (rfc_not z))
  | 2%nat => Z.lxor (Z.lxor x y) z
  | _ => Z.lxor y (Z.lor x (rfc_not z))
  end.

(** The word of step [i], the amounts of the rotations and the table [T]. *)
Definition rfc_word (i : nat) : nat :=
  match (i / 16)%nat with
  | 0%nat => i
  | 1%nat => (5 * i + 1) mod 16
  | 2%nat => (3 * i + 5) mod 16
  | _ => (7 * i) mod 16
  end.
Definition rfc_s (i : nat) : Z :=
  nth (i mod 4) (nth (i / 16) [[7; 12; 17; 22]; [5; 9; 14; 20]; [4; 11; 16; 23]; [6; 10; 15; 21]] []) 0.
Definition rfc_T : list Z :=
  [0xd76aa478; 0xe8c7b756; 0x242070db; 0xc1bdceee; 0xf57c0faf; 0x4787c62a; 0xa8304613; 0xfd469501;
   0x698098d8; 0x8b44f7af; 0xffff5bb1; 0x895cd7be; 0x6b901122; 0xfd987193; 0xa679438e; 0x49b40821;
   0xf61e2562; 0xc040b340; 0x265e5a51; 0xe9b6c7aa; 0xd62f105d; 0x02441453; 0xd8a1e681; 0xe7d3fbc8;
   0x21e1cde6; 0xc33707d6; 0xf4d50d87; 0x455a14ed; 0xa9e3e905; 0xfcefa3f8; 0x676f02d9; 0x8d2a4c8a;
   0xfffa3942; 0x8771f681; 0x6d9d6122; 0xfde5380c; 0xa4beea44; 0x4bdecfa9; 0xf6bb4b60; 0xbebfbc70;
   0x289b7ec6; 0xeaa127fa; 0xd4ef3085; 0x04881d05; 0xd9d4d039; 0xe6db99e5; 0x1fa27cf8; 0xc4ac5665;
   0xf4292244; 0x432aff97; 0xab9423a7; 0xfc93a039; 0x655b59c3; 0x8f0ccc92; 0xffeff47d; 0x85845dd1;
   0x6fa87e4f; 0xfe2ce6e0; 0xa3014314; 0x4e0811a1; 0xf7537e82; 0xbd3af235; 0x2ad7d2bb; 0xeb86d391].

Definition rotl (x s : Z) : Z := u32 (x * 2 ^ s) + x / 2 ^ (32 - s).

(** Step [i]: the registers move one place. *)
Definition rfc_step (X : nat -> Z) (s : regs) (i : nat) : regs :=
  let '(mkRegs a b c d) := s in
  mkRegs d (u32 (b + rotl (u32 (a + rfc_f (i / 16) b c d + X (rfc_word i) + nth i rfc_T 0)) (rfc_s i))) b c.

Definition rfc_block (ptr : list Z) (s : regs) : regs :=
  add_regs (fold_left (rfc_step (SET ptr)) (seq 0 64) s) s.

(** A one bit and zeros to 56 bytes modulo 64, then the length in bits. *)
Definition rfc_padding (n : Z) : list Z := 128 :: zeros ((55 - n) mod 64) ++ le_bytes 8 (8 * n).

Fixpoint rfc_blocks (blocks : nat) (msg : list Z) (s : regs) : regs :=
  match blocks with
  | O => s
  | S blocks => rfc_blocks blocks (drop 64 msg) (rfc_block msg s)
  end.

Definition md5_rfc (msg : list Z) : list Z :=
  let padded := msg ++ rfc_padding (zlen msg) in
  let s := rfc_blocks (length padded / 64) padded (mkRegs 0x67452301 0xefcdab89 0x98badcfe 0x10325476) in
  le_bytes 4 (ra s) ++ le_bytes 4 (rb s) ++ le_bytes 4 (rc s) ++ le_bytes 4 (rd s).

(** Test vectors of the RFC. *)
Example md5_vectors :
  Md5Signature (str "abc") = [0x90; 0x01; 0x50; 0x98; 0x3c; 0xd2; 0x4f; 0xb0; 0xd6; 0x96; 0x3f; 0x7d; 0x28; 0xe1; 0x7f; 0x72] /\
  Md5Signature [] = [0xd4; 0x1d; 0x8c; 0xd9; 0x8f; 0x00; 0xb2; 0x04; 0xe9; 0x80; 0x09; 0x98; 0xec; 0xf8; 0x42; 0x7e] /\
  Md5Signature (str "12345678901234567890123456789012345678901234567890123456789012345678901234567890") =
    [0x57; 0xed; 0xf4; 0xa2; 0x2b; 0xe3; 0xc9; 0x55; 0xac; 0x49; 0xda; 0x2e; 0x21; 0x07; 0xb6; 0x7a].
Proof. vm_compute. done. Qed.

(** ** The unrolled rounds are the steps of the RFC *)

Definition regs_ok (s : regs) : Prop :=
  0 <= ra s < 2 ^ 32 /\ 0 <= rb s < 2 ^ 32 /\ 0 <= rc s < 2 ^ 32 /\ 0 <= rd s < 2 ^ 32.

(** [f] is the function of round [r] of the RFC. *)
Definition agrees (f : Z -> Z -> Z -> Z) (r : nat) : Prop :=
  forall x y z, 0 <= x < 2 ^ 32 -> 0 <= y < 2 ^ 32 -> 0 <= z < 2 ^ 32 -> f x y z = rfc_f r x y z.

Lemma bit_above x n : 0 <= x < 2 ^ 32 -> 32 <= n -> Z.testbit x n = false.
Proof.
  intros Hx Hn. rewrite <- (Z.mod_small x (2 ^ 32)) by done. apply Z.mod_pow2_bits_high. lia.
Qed.

Lemma ones_bit n : 0 <= n < 32 -> Z.testbit 0xffffffff n = true.
Proof. intros. apply (Z.ones_spec_low 32). lia. Qed.

Lemma F_agrees : agrees F 0.
Proof.
  intros x y z Hx Hy Hz. unfold F, rfc_f, rfc_not. apply Z.bits_inj'. intros n Hn.
  rewrite Z.lor_spec, Z.lxor_spec, !Z.land_spec, !Z.lxor_spec. destruct (Z.ltb_spec n 32).
  - rewrite ones_bit by lia. by destruct (Z.testbit x n), (Z.testbit y n), (Z.testbit z n).
  - by rewrite !(bit_above _ n) by (done || lia).
Qed.

Lemma G_agrees : agrees G 1.
Proof.
  intros x y z Hx Hy Hz. unfold G, rfc_f, rfc_not. apply Z.bits_inj'. intros n Hn.
  rewrite Z.lor_spec, Z.lxor_spec, !Z.land_spec, !Z.lxor_spec. destruct (Z.ltb_spec n 32).
  - rewrite ones_bit by lia. by destruct (Z.testbit x n), (Z.testbit y n), (Z.testbit z n).
  - by rewrite !(bit_above _ n) by (done || lia).
Qed.

Lemma H_agrees : agrees H 2.
Proof. done. Qed.

Lemma I_agrees : agrees I 3.
Proof. intros x y z Hx Hy Hz. unfold I, rfc_f, rfc_not. by rewrite u32_lnot. Qed.

Lemma STEP_rotl f a b c d x t s : 0 < s < 32 ->
  STEP f a b c d x t s = u32 (b + rotl (u32 (a + f b c d + x + t)) s).
Proof.
  intros Hs. unfold STEP. cbv zeta. rewrite u32_add_l, u32_add_r.
  replace (a + (f b c d + x + t)) with (a + f b c d + x + t) by lia. set (v := u32 (a + f b c d + x + t)).
  pose proof (wrap_range 32 (a + f b c d + x + t) ltac:(lia)) as Hv. fold v in Hv.
  rewrite (land_mask 32), (Z.mod_small v), Z.shiftr_div_pow2 by lia.
  rewrite Z.add_comm. do 2 f_equal. unfold rotl.
  assert (2 ^ 32 = 2 ^ (32 - s) * 2 ^ s) as Ep by (rewrite <- Z.pow_add_r by lia; f_equal; lia).
  pose proof (Z.pow_pos_nonneg 2 s). pose proof (Z.pow_pos_nonneg 2 (32 - s)).
  assert (u32 (v * 2 ^ s) = (v mod 2 ^ (32 - s)) * 2 ^ s) as E.
  { unfold wrap. rewrite Ep. apply Z.mul_mod_distr_r; lia. }
  rewrite Z.shiftl_mul_pow2, E by lia. rewrite <- Z.shiftl_mul_pow2 at 1 by lia. apply lor_shiftl; [lia|].
  split; [apply Z.div_pos; lia|]. apply Z.div_lt_upper_bound; lia.
Qed.

(** One step of the RFC with its parameters spelled out. *)
Definition gstep (r : nat) (x t sh : Z) (s : regs) : regs :=
  let '(mkRegs a b c d) := s in mkRegs d (u32 (b + rotl (u32 (a + rfc_f r b c d + x + t)) sh)) b c.

Lemma gstep_ok r x t sh s : regs_ok s -> regs_ok (gstep r x t sh s).
Proof. destruct s. intros (?&?&?&?). repeat split; try apply wrap_range; cbn in *; lia. Qed.

(** Four lines of the source, each with its word, constant and rotation. *)
Definition quad (f : Z -> Z -> Z -> Z) (x0 t0 s0 x1 t1 s1 x2 t2 s2 x3 t3 s3 : Z) (s : regs) : regs :=
  let '(mkRegs a b c d) := s in
  let a := STEP f a b c d x0 t0 s0 in
  let d := STEP f d a b c x1 t1 s1 in
  let c := STEP f c d a b x2 t2 s2 in
  let b := STEP f b c d a x3 t3 s3 in
  mkRegs a b c d.

Lemma quad_gstep f r x0 t0 s0 x1 t1 s1 x2 t2 s2 x3 t3 s3 s : agrees f r -> regs_ok s ->
  0 < s0 < 32 -> 0 < s1 < 32 -> 0 < s2 < 32 -> 0 < s3 < 32 ->
  quad f x0 t0 s0 x1 t1 s1 x2 t2 s2 x3 t3 s3 s =
  gstep r x3 t3 s3 (gstep r x2 t2 s2 (gstep r x1 t1 s1 (gstep r x0 t0 s0 s))).
Proof.
  destruct s as [a b c d]. intros Hf (Ha & Hb & Hc & Hd) H0 H1 H2 H3. cbn [ra rb rc rd] in *.
  unfold quad. cbn [gstep]. rewrite !STEP_rotl by done.
  rewrite (Hf b c d) by done.
  set (a' := u32 (b + _)). assert (0 <= a' < 2 ^ 32) as Ha' by (apply wrap_range; lia). rewrite (Hf a' b c) by done.
  set (d' := u32 (a' + _)). assert (0 <= d' < 2 ^ 32) as Hd' by (apply wrap_range; lia). rewrite (Hf d' a' b) by done.
  set (c' := u32 (d' + _)). assert (0 <= c' < 2 ^ 32) as Hc' by (apply wrap_range; lia). by rewrite (Hf c' d' a').
Qed.

(** Four lines with the parameters of steps [i] to [i + 3]. *)
Definition quad_at (f : Z -> Z -> Z -> Z) (X : nat -> Z) (i : nat) (s : regs) : regs :=
  quad f (X (rfc_word i)) (nth i rfc_T 0) (rfc_s i) (X (rfc_word (1 + i))) (nth (1 + i) rfc_T 0) (rfc_s (1 + i))
    (X (rfc_word (2 + i))) (nth (2 + i) rfc_T 0) (rfc_s (2 + i)) (X (rfc_word (3 + i))) (nth (3 + i) rfc_T 0) (rfc_s (3 + i)) s.

(** The sixteen quads: their round, and rotations that rotate. *)
Definition quad_start (i : nat) : bool :=
  forallb (fun j => ((i + j) / 16 =? i / 16)%nat && (0 <? rfc_s (i + j)) && (rfc_s (i + j) <? 32)) (seq 0 4).

Lemma rfc_step_gstep X s i :
  rfc_step X s i = gstep (i / 16) (X (rfc_word i)) (nth i rfc_T 0) (rfc_s i) s.
Proof. by destruct s. Qed.

Lemma rfc_steps_ok X l : forall s, regs_ok s -> regs_ok (fold_left (rfc_step X) l s).
Proof.
  induction l as [|i l IH]; intros s Hs; [done|]. rewrite fold_left_cons, rfc_step_gstep. by apply IH, gstep_ok.
Qed.

Lemma quad_at_rfc f X i s : agrees f (i / 16) -> regs_ok s -> quad_start i = true ->
  quad_at f X i s = fold_left (rfc_step X) (seq i 4) s.
Proof.
  intros Hf Hs Hi. unfold quad_start in Hi. cbn [seq forallb] in Hi. rewrite Nat.add_0_r in Hi.
  rewrite (Nat.add_comm i 1), (Nat.add_comm i 2), (Nat.add_comm i 3) in Hi.
  rewrite !andb_true_iff, !Nat.eqb_eq, !Z.ltb_lt in Hi. destruct Hi as ([[_ ?] ?] & [[E1 ?] ?] & [[E2 ?] ?] & [[E3 ?] ?] & _).
  unfold quad_at. rewrite (quad_gstep f (i / 16)) by (done || split; done).
  cbn [seq fold_left]. rewrite !rfc_step_gstep. change (S i) with (1 + i)%nat. change (S (1 + i)) with (2 + i)%nat.
  change (S (2 + i)) with (3 + i)%nat. by rewrite E1, E2, E3.
Qed.

(** A round of the source, as four quads, is sixteen steps of the RFC. *)
Lemma round_rfc f r X s : agrees f r -> regs_ok s ->
  (forall k, (k < 4)%nat -> quad_start (16 * r + 4 * k) = true) ->
  quad_at f X (16 * r + 12) (quad_at f X (16 * r + 8) (quad_at f X (16 * r + 4) (quad_at f X (16 * r) s))) =
  fold_left (rfc_step X) (seq (16 * r) 16) s.
Proof.
  intros Hf Hs Hq.
  assert (forall k s, (k < 4)%nat -> regs_ok s ->
    quad_at f X (16 * r + 4 * k) s = fold_left (rfc_step X) (seq (16 * r + 4 * k) 4) s) as Hk.
  { intros k s' Hk Hs'. apply quad_at_rfc; [|done|by apply Hq].
    rewrite (Nat.mul_comm 16), Nat.div_add_l, (Nat.div_small (4 * k)), Nat.add_0_r by lia. done. }
  change (seq (16 * r) 16) with (seq (16 * r) (4 + (4 + (4 + 4)))). rewrite !seq_app, !fold_left_app, <- !Nat.add_assoc.
  pose proof (Hk 0%nat s) as H0. rewrite Nat.add_0_r in H0. rewrite H0 by (done || lia).
  rewrite (Hk 1%nat), (Hk 2%nat), (Hk 3%nat) by (lia || by repeat apply rfc_steps_ok). done.
Qed.

Lemma quad_starts k : (k < 16)%nat -> quad_start (4 * k) = true.
Proof. intros Hk. do 16 (destruct k as [|k]; [reflexivity|]). lia. Qed.

Lemma rounds_rfc X s : regs_ok s -> round4 X (round3 X (round2 X (round1 X s))) = fold_left (rfc_step X) (seq 0 64) s.
Proof.
  intros Hs. change 64%nat with (16 + (16 + (16 + 16)))%nat. rewrite !seq_app, !fold_left_app.
  assert (forall r k, (r < 4)%nat -> (k < 4)%nat -> quad_start (16 * r + 4 * k) = true) as Hq.
  { intros r k Hr Hk. replace (16 * r + 4 * k)%nat with (4 * (4 * r + k))%nat by lia. apply quad_starts. lia. }
  assert (forall s, regs_ok s -> round1 X s = fold_left (rfc_step X) (seq 0 16) s) as E1.
  { intros s' Hs'. rewrite <- (round_rfc F 0) by (apply F_agrees || done || (intros; apply Hq; lia)). by destruct s'. }
  assert (forall s, regs_ok s -> round2 X s = fold_left (rfc_step X) (seq 16 16) s) as E2.
  { intros s' Hs'. rewrite <- (round_rfc G 1) by (apply G_agrees || done || (intros; apply Hq; lia)). by destruct s'. }
  assert (forall s, regs_ok s -> round3 X s = fold_left (rfc_step X) (seq 32 16) s) as E3.
  { intros s' Hs'. rewrite <- (round_rfc H 2) by (apply H_agrees || done || (intros; apply Hq; lia)). by destruct s'. }
  assert (forall s, regs_ok s -> round4 X s = fold_left (rfc_step X) (seq 48 16) s) as E4.
  { intros s' Hs'. rewrite <- (round_rfc I 3) by (apply I_agrees || done || (intros; apply Hq; lia)). by destruct s'. }
  rewrite E1, E2, E3, E4 by (by repeat apply rfc_steps_ok). done.
Qed.

Lemma add_regs_ok s t : regs_ok (add_regs s t).
Proof. repeat split; apply wrap_range; lia. Qed.

Lemma body_block_rfc ptr s : regs_ok s -> body_block ptr s = rfc_block ptr s.
Proof. intros Hs. unfold body_block, rfc_block. by rewrite rounds_rfc. Qed.

Lemma body_rfc n : forall ptr s, regs_ok s -> body n s ptr = (rfc_blocks n ptr s, drop (64 * n) ptr).
Proof.
  induction n as [|n IH]; intros ptr s Hs; cbn [body rfc_blocks]; [done|].
  rewrite body_block_rfc by done. rewrite IH by apply add_regs_ok. rewrite drop_drop. do 2 f_equal. lia.
Qed.

Lemma rfc_blocks_ok n : forall ptr s, regs_ok s -> regs_ok (rfc_blocks n ptr s).
Proof. induction n as [|n IH]; intros ptr s Hs; [done|]. apply IH, add_regs_ok. Qed.

(** ** A block sees its sixteen words only *)

Lemma rfc_word_bound i : (i < 64)%nat -> (rfc_word i < 16)%nat.
Proof.
  intros Hi. unfold rfc_word. destruct (i / 16)%nat as [|[|[|k]]] eqn:E; try (apply Nat.mod_upper_bound; lia).
  apply Nat.div_small_iff in E; lia.
Qed.

Lemma steps_ext X Y l : (forall n, (n < 16)%nat -> X n = Y n) -> Forall (fun i => (i < 64)%nat) l ->
  forall s, fold_left (rfc_step X) l s = fold_left (rfc_step Y) l s.
Proof.
  intros HX Hl. induction Hl as [|i l Hi _ IH]; intros s; [done|]. rewrite !fold_left_cons, !rfc_step_gstep.
  rewrite HX by (by apply rfc_word_bound). apply IH.
Qed.

Lemma rfc_block_app a b s : (64 <= length a)%nat -> rfc_block (a ++ b) s = rfc_block a s.
Proof.
  intros Ha. unfold rfc_block. f_equal. apply steps_ext.
  - intros n Hn. unfold SET. rewrite drop_app_le, take_app_le by (rewrite ?length_drop; lia). done.
  - apply Forall_forall. intros i Hi. apply elem_of_seq in Hi. lia.
Qed.

Lemma rfc_blocks_app j k b : forall a s, (64 * j <= length a)%nat ->
  rfc_blocks (j + k) (a ++ b) s = rfc_blocks k (drop (64 * j) a ++ b) (rfc_blocks j a s).
Proof.
  induction j as [|j IH]; intros a s Ha; [done|]. cbn [Nat.add rfc_blocks].
  rewrite rfc_block_app by lia. rewrite drop_app_le by lia. rewrite IH by (rewrite length_drop; lia).
  rewrite drop_drop. do 3 f_equal. lia.
Qed.

(** ** The padding *)

Lemma le_bytes_S k v : le_bytes (S k) v = u8 v :: le_bytes k (Z.shiftr v 8).
Proof. done. Qed.

Lemma put32_le v : put32 v = le_bytes 4 v.
Proof.
  change (le_bytes 4 v) with [u8 v; u8 (Z.shiftr v 8); u8 (Z.shiftr (Z.shiftr v 8) 8);
    u8 (Z.shiftr (Z.shiftr (Z.shiftr v 8) 8) 8)].
  by rewrite !Z.shiftr_shiftr by lia.
Qed.

Lemma le_bytes_app j k v : le_bytes (j + k) v = le_bytes j v ++ le_bytes k (Z.shiftr v (8 * Z.of_nat j)).
Proof.
  revert v. induction j as [|j IH]; intros v; [by rewrite Z.shiftr_0_r|].
  cbn [Nat.add]. rewrite !le_bytes_S, IH, Z.shiftr_shiftr by lia. cbn [app]. do 4 f_equal. lia.
Qed.

Lemma le_bytes_wrap k v w : 8 * Z.of_nat k <= w -> le_bytes k (wrap w v) = le_bytes k v.
Proof.
  revert v w. induction k as [|k IH]; intros v w Hw; [done|]. rewrite !le_bytes_S. f_equal.
  - apply wrap_mod_pow2. lia.
  - rewrite <- (IH (Z.shiftr v 8) (w - 8)) by lia. f_equal. unfold wrap. rewrite !Z.shiftr_div_pow2 by lia.
    replace w with (8 + (w - 8)) at 1 by lia. rewrite Z.pow_add_r by lia.
    rewrite Z.rem_mul_r by lia. rewrite (Z.mul_comm (2 ^ 8)), Z.div_add by lia.
    rewrite (Z.div_small (v mod 2 ^ 8)) by (apply Z.mod_pos_bound; lia). done.
Qed.

(** [lo] and [hi] together are the number of bits. *)
Lemma length_bytes n : 0 <= n < 2 ^ 61 ->
  put32 (u32 (Z.shiftl (Z.land (u64 n) 0x1fffffff) 3)) ++ put32 (u32 (Z.shiftr n 29)) = le_bytes 8 (8 * n).
Proof.
  intros Hn. rewrite !put32_le, !le_bytes_wrap by lia. rewrite (le_bytes_app 4 4). f_equal.
  - rewrite wrap_small by lia. rewrite (land_mask 29), Z.shiftl_mul_pow2 by lia.
    rewrite <- (le_bytes_wrap 4 (8 * n) 32) by lia. f_equal. unfold wrap.
    change (2 ^ 32) with (2 ^ 3 * 2 ^ 29). change 8 with (2 ^ 3). rewrite Z.mul_mod_distr_l by lia. lia.
  - f_equal. rewrite !Z.shiftr_div_pow2 by lia. change (2 ^ (8 * Z.of_nat 4)) with (8 * 2 ^ 29).
    rewrite Z.div_mul_cancel_l by lia. apply wrap_small.
    split; [apply Z.div_pos; lia|]. apply Z.div_lt_upper_bound; lia.
Qed.

(** What [MD5_Final] hashes: what is left of the key, with the padding in one
    block or two. *)
Lemma buffer_tail (buf tail : list Z) : length buf = 64%nat -> (length tail < 64)%nat ->
  exists pad, overwrite buf 0 tail = tail ++ pad /\ (length tail + length pad = 64)%nat.
Proof.
  intros Hb Ht. exists (drop (length tail) buf). unfold overwrite. rewrite take_0, Nat.sub_0_r, Nat.add_0_l, app_nil_l.
  rewrite take_ge by lia. split; [done|]. rewrite length_drop. lia.
Qed.

Lemma insert_tail (tail pad : list Z) x : pad <> [] -> exists pad', <[length tail := x]> (tail ++ pad) = (tail ++ [x]) ++ pad' /\
  S (length pad') = length pad.
Proof.
  intros Hp. destruct pad as [|y pad]; [done|]. exists pad. split; [|done].
  replace (length tail) with (length tail + 0)%nat by lia. rewrite insert_app_r, <- app_assoc. done.
Qed.

Lemma length_put32 v : length (put32 v) = 4%nat.
Proof. done. Qed.

Lemma length_block (a pad : list Z) lo hi : (length a = 56)%nat -> (length pad = 8)%nat ->
  overwrite (overwrite (a ++ pad) 56 (put32 lo)) 60 (put32 hi) = a ++ put32 lo ++ put32 hi.
Proof.
  intros Ha Hp. rewrite <- Ha at 1. rewrite overwrite_rest by (rewrite length_put32; lia). rewrite length_put32.
  rewrite app_assoc. replace 60%nat with (length (a ++ put32 lo)) by (rewrite length_app, Ha; done).
  rewrite overwrite_rest by (rewrite length_put32, length_drop; lia). rewrite length_put32, drop_drop.
  rewrite (drop_ge pad) by lia. by rewrite app_nil_r, <- app_assoc.
Qed.

Definition digest (s : regs) : list Z := put32 (ra s) ++ put32 (rb s) ++ put32 (rc s) ++ put32 (rd s).

(** Room for the length in this block. *)
Lemma final_one (tail pad : list Z) lo hi s : regs_ok s -> (length tail + length pad = 64)%nat -> (length tail < 56)%nat ->
  Z.land lo 0x3f = zlen tail ->
  MD5_Final (mkMD5 lo hi s (tail ++ pad)) =
  digest (rfc_block (tail ++ 128 :: zeros (55 - zlen tail) ++ put32 (u32 (Z.shiftl lo 3)) ++ put32 hi) s).
Proof.
  intros Hs Hl Ht Hlo. unfold MD5_Final. cbn [Md5.lo Md5.hi abcd buffer]. rewrite Hlo. assert (zlen tail = Z.of_nat (length tail)) as Hzt by done.
  replace (Z.to_nat (zlen tail)) with (length tail) by lia. destruct (insert_tail tail pad 0x80) as (pad' & -> & Hp'); [intros ->; cbn [length] in Hl; lia|].
  replace (64 - (zlen tail + 1) <? 8) with false by lia. cbv beta iota zeta.
  replace (Z.to_nat (zlen tail + 1)) with (length (tail ++ [0x80])) by (rewrite length_app; cbn; lia).
  set (z := zeros _). assert (length z = 55 - length tail)%nat as Hz by (unfold z, zeros; rewrite length_replicate; lia).
  rewrite overwrite_rest by lia. rewrite (app_assoc (tail ++ [0x80]) z), length_block.
  - cbn [body fst]. rewrite body_block_rfc by done. unfold digest. rewrite <- !app_assoc. cbn [app].
    replace z with (zeros (55 - zlen tail)) by (unfold z, zeros, zlen; f_equal; lia). done.
  - rewrite !length_app, Hz. cbn. lia.
  - rewrite length_drop, Hz. lia.
Qed.

(** No room: zeros to the end of this block and a block with the length. *)
Lemma final_two (tail pad : list Z) lo hi s : regs_ok s -> (length tail + length pad = 64)%nat -> (56 <= length tail < 64)%nat ->
  Z.land lo 0x3f = zlen tail ->
  MD5_Final (mkMD5 lo hi s (tail ++ pad)) =
  digest (rfc_block (zeros 56 ++ put32 (u32 (Z.shiftl lo 3)) ++ put32 hi) (rfc_block (tail ++ 128 :: zeros (63 - zlen tail)) s)).
Proof.
  intros Hs Hl Ht Hlo. unfold MD5_Final. cbn [Md5.lo Md5.hi abcd buffer]. rewrite Hlo. assert (zlen tail = Z.of_nat (length tail)) as Hzt by done.
  replace (Z.to_nat (zlen tail)) with (length tail) by lia. destruct (insert_tail tail pad 0x80) as (pad' & -> & Hp'); [intros ->; cbn [length] in Hl; lia|].
  replace (64 - (zlen tail + 1) <? 8) with true by lia. cbv beta iota zeta.
  replace (Z.to_nat (zlen tail + 1)) with (length (tail ++ [0x80])) by (rewrite length_app; cbn; lia).
  set (z := zeros (64 - _)). assert (length z = 63 - length tail)%nat as Hz by (unfold z, zeros; rewrite length_replicate; lia).
  rewrite overwrite_rest, (drop_ge pad'), app_nil_r by lia.
  set (blk := (tail ++ [0x80]) ++ z). assert (length blk = 64)%nat as Hblk by (unfold blk; rewrite !length_app, Hz; cbn; lia).
  pose proof (overwrite_rest [] blk (zeros (64 - 8))) as E. change (length []) with (Z.to_nat 0) in E. cbn [app] in E. rewrite E by (rewrite Hblk; by apply Nat.leb_le). clear E.
  rewrite length_block; [|done|rewrite length_drop, Hblk; done].
  cbn [body fst]. rewrite !body_block_rfc by (done || apply add_regs_ok). unfold digest, blk.
  replace z with (zeros (63 - zlen tail)) by (unfold z, zeros, zlen; f_equal; lia). by rewrite <- !app_assoc.
Qed.

Lemma zlen_padding n : 0 <= n -> zlen (rfc_padding n) = 9 + (55 - n) mod 64.
Proof.
  intros Hn. unfold rfc_padding. rewrite zlen_cons, zlen_app, zlen_le_bytes, zlen_zeros; [lia|].
  apply Z.mod_pos_bound. lia.
Qed.

(** [MD5_Update] on a fresh context. *)
Lemma update_init key : zlen key < 2 ^ 61 -> exists pad,
  let j := (length key / 64)%nat in let tail := drop (64 * j) key in
  MD5_Update MD5_Init key =
    mkMD5 (Z.land (u64 (zlen key)) 0x1fffffff) (u32 (Z.shiftr (zlen key) 29)) (rfc_blocks j key (abcd MD5_Init)) (tail ++ pad) /\
  (length tail + length pad = 64)%nat /\ (length tail < 64)%nat /\ zlen tail = zlen key mod 64.
Proof.
  intros Hk. set (j := (length key / 64)%nat). pose proof (Nat.div_mod_eq (length key) 64) as Hd. fold j in Hd.
  pose proof (Nat.mod_upper_bound (length key) 64 ltac:(lia)) as Hm.
  destruct (buffer_tail (replicate 64 0) (drop (64 * j) key)) as (pad & Hov & Hlen);
    [done|rewrite length_drop; lia|].
  exists pad. cbv zeta. split; [|split; [done|split]].
  - unfold MD5_Update. change (lo MD5_Init) with 0. change (hi MD5_Init) with 0.
    change (buffer MD5_Init) with (replicate 64 0). change (Z.land 0 63 =? 0) with true. cbv iota.
    rewrite Z.add_0_l. pose proof (Z.land_nonneg (u64 (zlen key)) 0x1fffffff) as Hnn.
    replace (Z.land (u64 (zlen key)) 0x1fffffff <? 0) with false by lia. rewrite Z.add_0_l.
    replace (Z.to_nat (zlen key / 64)) with j by (unfold zlen, j; rewrite <- (Nat2Z.inj_div _ 64), Nat2Z.id; done).
    assert (regs_ok (abcd MD5_Init)) as Hok by (repeat split; done).
    destruct (Z.leb_spec 64 (zlen key)) as [H64|H64].
    + rewrite (body_rfc j key _ Hok). cbv beta iota. by rewrite Hov.
    + assert (j = 0%nat) as Ej by (apply Nat.div_small; unfold zlen in *; lia). rewrite Ej in *.
      change (drop (64 * 0) key) with key in *. by rewrite Hov.
  - rewrite length_drop. lia.
  - unfold zlen. rewrite length_drop. rewrite <- (Nat2Z.inj_mod _ 64). f_equal. lia.
Qed.

(** The blocks of the padded key: those of the key and [k] more. *)
Lemma padded_blocks key k s : let n := length key in
  (n mod 64 + 9 + Z.to_nat ((55 - zlen key) mod 64) = 64 * k)%nat ->
  rfc_blocks (length (key ++ rfc_padding (zlen key)) / 64) (key ++ rfc_padding (zlen key)) s =
  rfc_blocks k (drop (64 * (n / 64)) key ++ rfc_padding (zlen key)) (rfc_blocks (n / 64) key s).
Proof.
  intros n Hk. pose proof (zlen_padding (zlen key) (zlen_nonneg key)) as Hp. unfold zlen at 1 in Hp.
  pose proof (Nat.div_mod_eq n 64) as Hd. pose proof (Z.mod_pos_bound (55 - zlen key) 64 ltac:(lia)).
  assert (length (key ++ rfc_padding (zlen key)) = 64 * (n / 64 + k))%nat as -> by (rewrite length_app; fold n; lia).
  rewrite (Nat.mul_comm 64), Nat.div_mul by lia. apply rfc_blocks_app. fold n. lia.
Qed.

Lemma md5_of_tail key tail pad lo hi s : regs_ok s -> zlen key < 2 ^ 61 ->
  tail = drop (64 * (length key / 64)) key -> zlen tail = zlen key mod 64 -> (length tail + length pad = 64)%nat ->
  lo = Z.land (u64 (zlen key)) 0x1fffffff -> hi = u32 (Z.shiftr (zlen key) 29) ->
  let k := if (length tail <? 56)%nat then 1%nat else 2%nat in
  MD5_Final (mkMD5 lo hi s (tail ++ pad)) = digest (rfc_blocks k (tail ++ rfc_padding (zlen key)) s).
Proof.
  intros Hs Hk Et Hz Hlen -> -> k. pose proof (zlen_nonneg key) as Hpos.
  pose proof (Z.mod_pos_bound (zlen key) 64 ltac:(lia)) as Hm. assert (zlen tail = Z.of_nat (length tail)) as Hzt by done.
  assert (Z.land (Z.land (u64 (zlen key)) 0x1fffffff) 0x3f = zlen tail) as Hlo.
  { rewrite (land_mask 6), (land_mask 29), Hz by lia. rewrite wrap_small by lia. apply (wrap_mod_pow2 29 6). lia. }
  assert ((55 - zlen key) mod 64 = (55 - zlen tail) mod 64) as Hmod by (by rewrite Hz, Zminus_mod_idemp_r).
  unfold rfc_padding. rewrite Hmod, <- length_bytes by lia. unfold k. destruct (Nat.ltb_spec (length tail) 56).
  - rewrite final_one by done. cbn [rfc_blocks]. rewrite (Z.mod_small (55 - _)) by lia. done.
  - rewrite final_two by (done || lia). cbn [rfc_blocks].
    replace ((55 - zlen tail) mod 64) with (63 - zlen tail + 56) by (rewrite <- (Z.mod_add _ 1), Z.mod_small; lia).
    assert (zeros (63 - zlen tail + 56) = zeros (63 - zlen tail) ++ zeros 56) as ->.
    { unfold zeros. rewrite Z2Nat.inj_add by lia. apply replicate_add. }
    set (blk := tail ++ 128 :: zeros (63 - zlen tail)).
    assert (length blk = 64)%nat as Hblk.
    { unfold blk. rewrite length_app. cbn [length]. unfold zeros. rewrite length_replicate. lia. }
    replace (tail ++ _ :: (_ ++ _) ++ _) with (blk ++ zeros 56 ++ put32 (u32 (Z.shiftl (Z.land (u64 (zlen key)) 0x1fffffff) 3)) ++
      put32 (u32 (Z.shiftr (zlen key) 29))) by (unfold blk; by rewrite <- !app_assoc).
    rewrite (rfc_block_app blk) by lia. by rewrite (drop_app_length' blk) by lia.
Qed.

(** C13: [Md5Signature] computes the MD5 digest of RFC 1321: the optimised
    functions, the unrolled rounds, the buffering and the padding give the
    digest of the key padded to whole blocks, for keys of any length whose
    bits 64 bits can count. *)
Theorem md5_is_rfc1321 (key : list Z) (Hkey : zlen key < 2 ^ 61) :
  Md5Signature key = md5_rfc key.
Proof.
  destruct (update_init key Hkey) as (pad & Hup & Hlen & Hlt & Hz). cbv zeta in Hup, Hlen, Hlt, Hz.
  unfold Md5Signature. rewrite Hup.
  assert (regs_ok (abcd MD5_Init)) as Hok by (repeat split; done).
  rewrite (md5_of_tail key) by (done || by apply rfc_blocks_ok).
  set (k := if (_ <? 56)%nat then 1%nat else 2%nat). unfold md5_rfc. change (mkRegs _ _ _ _) with (abcd MD5_Init).
  rewrite (padded_blocks key k).
  - unfold digest. by rewrite !put32_le.
  - pose proof (Nat.mod_upper_bound (length key) 64 ltac:(lia)) as Hm. unfold k. rewrite length_drop.
    pose proof (Nat.div_mod_eq (length key) 64) as Hd. rewrite <- Zminus_mod_idemp_r.
    unfold zlen. rewrite <- (Nat2Z.inj_mod _ 64). destruct (Nat.ltb_spec (length key - 64 * (length key / 64)) 56).
    + rewrite Z.mod_small by lia. lia.
    + rewrite <- (Z.mod_add _ 1), Z.mod_small by lia. lia.
Qed.

Lemma md5_is_rfc1321_witness :
  Md5Signature (str "message digest") = md5_rfc (str "message digest") /\
  Md5Signature (replicate 60 97) = md5_rfc (replicate 60 97).
Proof. split; [apply (md5_is_rfc1321 (str "message digest")) | apply (md5_is_rfc1321 (replicate 60 97))]; done. Defined.
