(* ===== verification/Dispatch.v ===== *)
(** * twem/dispatch.cpp and twemroute.cpp: which server a key goes to

    The distributions of the twemproxy-like route: [ketama], a ring of points
    from MD5 digests, and [modula], a table with each server as often as its
    weight; and [GR_TwemRoute::Route], with its hash tags.  The C library's
    [qsort] is a parameter; arithmetic on [float] and [double] is that of
    the IEEE formats, by the Standard Library's [SpecFloat]. *)

From Stdlib Require Import SpecFloat Sorted.
From stdpp Require Import sorting.
From S2P Require Import Prelude Resp Hashes Md5.

Record GR_RedisServer := mkServer { strName : list Z; iWeight : Z; pEvent : Z }.
Record continuum := mkCont { index : Z; value : Z }.

Definition KETAMA_CONTINUUM_ADDITION : Z := 10.
Definition KETAMA_POINTS_PER_SERVER : Z := 160.
Definition KETAMA_MAX_HOSTLEN : Z := 86.
Definition MODULA_CONTINUUM_ADDITION : Z := 10.

(** [float] and [double]. *)
Definition f32_of_Z (z : Z) : spec_float := binary_normalize 24 128 z 0 false.
Definition sf_round (prec emax : Z) (x : spec_float) : spec_float :=
  match x with
  | S754_finite s m e => binary_normalize prec emax (if s then Zneg m else Zpos m) e s
  | _ => x
  end.
Definition sf_floor (x : spec_float) : option Z :=
  match x with
  | S754_zero _ => Some 0
  | S754_finite s m e => Some (Z.shiftl (if s then Zneg m else Zpos m) e)
  | _ => None
  end.

(** The [double] nearest to 0.0000000001. *)
Definition ketama_eps : spec_float := S754_finite false 0x1b7cdfd9d7bdbb (-86).

(** [(uint32) (floorf((float) (pct * 160 / 4 * (float)nlive + 0.0000000001)) * 4)];
    the multiplication by four is exact, and a value that no [uint32] holds
    makes the conversion undefined. *)
Definition pointer_per_server (weight total nlive : Z) : option Z :=
  let pct := SFdiv 24 128 (f32_of_Z weight) (f32_of_Z total) in
  let x := SFmul 24 128 pct (f32_of_Z KETAMA_POINTS_PER_SERVER) in
  let x := SFdiv 24 128 x (f32_of_Z 4) in
  let x := SFmul 24 128 x (f32_of_Z nlive) in
  let x := SFadd 53 1024 (sf_round 53 1024 x) ketama_eps in
  match sf_floor (sf_round 24 128 x) with
  | Some k => if (0 <=? k) && (4 * k <? 2 ^ 32) then Some (4 * k) else None
  | None => None
  end.

Definition ketama_hash (key : list Z) (alignment : nat) : Z :=
  let results := Md5Signature key in
  let r k := Z.land (nth (k + alignment * 4) results 0) 0xFF in
  Z.lor (Z.lor (Z.lor (Z.shiftl (r 3%nat) 24) (Z.shiftl (r 2%nat) 16)) (Z.shiftl (r 1%nat) 8)) (r 0%nat).

(** [%.*s] of a [std::string]: up to its first NUL. *)
Fixpoint c_string (s : list Z) : list Z :=
  match s with
  | [] => []
  | b :: s => if b =? 0 then [] else b :: c_string s
  end.

(** The host string of point [j]; one that [snprintf] had to cut would be read
    past the end of its buffer. *)
Definition host_name (name : list Z) (j : Z) : go (list Z) :=
  let host := c_string name ++ [45] ++ dec j in
  if zlen host <? KETAMA_MAX_HOSTLEN then Ret host else Panic.

(** [new continuum[ncontinuum]]: [ncontinuum] is an [int], and a negative size
    throws. *)
Definition new_continuum (n : Z) : go Z := let ncontinuum := i32 n in if ncontinuum <? 0 then Panic else Ret ncontinuum.

(** [vServers[continuum_index++] = p] in an array of [cap] elements. *)
Definition push (cap : Z) (acc : list continuum) (p : continuum) : go (list continuum) :=
  if zlen acc <? cap then Ret (acc ++ [p]) else Panic.

Fixpoint push_all (cap : Z) (acc ps : list continuum) : go (list continuum) :=
  match ps with
  | [] => Ret acc
  | p :: ps => let! acc := push cap acc p in push_all cap acc ps
  end.

Definition host_points (server_index : Z) (host : list Z) : list continuum :=
  map (fun x => mkCont server_index (ketama_hash host x)) (seq 0 4).

(** The loop over [pointer_index]. *)
Fixpoint ketama_hosts (cap server_index : Z) (name : list Z) (js : list nat) (acc : list continuum) : go (list continuum) :=
  match js with
  | [] => Ret acc
  | j :: js =>
      let! host := host_name name (Z.of_nat j) in
      let! acc := push_all cap acc (host_points server_index host) in
      ketama_hosts cap server_index name js acc
  end.

(** The loop over the servers, with [pointer_counter]. *)
Fixpoint ketama_servers (cap total nlive : Z) (servers : list GR_RedisServer) (server_index : Z)
    (acc : list continuum) (counter : Z) : go (list continuum * Z) :=
  match servers with
  | [] => Ret (acc, counter)
  | s :: servers =>
      match pointer_per_server (iWeight s) total nlive with
      | None => Panic
      | Some pps =>
          let! acc := ketama_hosts cap server_index (strName s) (seq 0 (Z.to_nat (pps / 4))) acc in
          ketama_servers cap total nlive servers (server_index + 1) acc (u32 (counter + pps))
      end
  end.

Definition total_weight (servers : list GR_RedisServer) : Z :=
  fold_left (fun t s => u32 (t + iWeight s)) servers 0.

Definition ketama_item_cmp (ct1 ct2 : continuum) : Z :=
  if value ct1 =? value ct2 then 0 else if value ct2 <? value ct1 then 1 else -1.

Definition in_order (ct1 ct2 : continuum) : Prop := ketama_item_cmp ct1 ct2 <= 0.
#[export] Instance in_order_dec ct1 ct2 : Decision (in_order ct1 ct2) := decide (ketama_item_cmp ct1 ct2 <= 0).

(** What C promises of [qsort] with that comparison. *)
Definition qsort_sorts (qsort : list continuum -> list continuum) : Prop :=
  forall l, qsort l ≡ₚ l /\ StronglySorted in_order (qsort l).

Section qsort.
Context (qsort : list continuum -> list continuum).

Definition KetamaUpdate (vRedisServers : list GR_RedisServer) : go (list continuum) :=
  let nserver := zlen vRedisServers in
  let! cap := new_continuum (u32 (u32 (nserver + KETAMA_CONTINUUM_ADDITION) * KETAMA_POINTS_PER_SERVER)) in
  let! (vServers, pointer_counter) := ketama_servers cap (total_weight vRedisServers) nserver vRedisServers 0 [] 0 in
  Ret (qsort (take (Z.to_nat pointer_counter) vServers)).

End qsort.

(** The binary search; [lo] and [hi] are [left] and [right]; their distance halves, so its initial value is enough
    fuel. *)
Fixpoint ketama_search (fuel : nat) (vServers : list continuum) (lo hi uiKey : Z) : go Z :=
  if lo <? hi then
    match fuel with
    | O => Panic
    | S fuel =>
        let middle := lo + (hi - lo) / 2 in
        let! m := zget vServers middle in
        if value m <? uiKey then ketama_search fuel vServers (middle + 1) hi uiKey
        else ketama_search fuel vServers lo middle uiKey
    end
  else Ret hi.

Definition Ketama (vRedisServers : list GR_RedisServer) (vServers : list continuum) (iLen uiKey : Z) : go Z :=
  let! found := ketama_search (Z.to_nat iLen) vServers 0 iLen uiKey in
  let found := if found =? iLen then 0 else found in
  let! c := zget vServers found in
  let! s := zget vRedisServers (index c) in
  Ret (pEvent s).

(** [weight_index < server->iWeight] compares as [uint32]. *)
Fixpoint modula_servers (cap : Z) (servers : list GR_RedisServer) (server_index : Z) (acc : list continuum) : go (list continuum) :=
  match servers with
  | [] => Ret acc
  | s :: servers =>
      let! acc := push_all cap acc (replicate (Z.to_nat (u32 (iWeight s))) (mkCont server_index 0)) in
      modula_servers cap servers (server_index + 1) acc
  end.

Definition ModulaUpdate (vRedisServers : list GR_RedisServer) : go (list continuum) :=
  let! cap := new_continuum (u32 (total_weight vRedisServers + MODULA_CONTINUUM_ADDITION)) in
  modula_servers cap vRedisServers 0 [].

Definition Modula (vRedisServers : list GR_RedisServer) (vServers : list continuum) (iLen uiKey : Z) : go Z :=
  if iLen =? 0 then Panic
  else
    let! c := zget vServers (uiKey mod iLen) in
    let! s := zget vRedisServers (index c) in
    Ret (pEvent s).

(** [gr_strchr]: the bytes before the first [c] and those behind it. *)
Fixpoint gr_strchr (l : list Z) (c : Z) : option (list Z * list Z) :=
  match l with
  | [] => None
  | b :: l =>
      if b =? c then Some ([], l)
      else match gr_strchr l c with Some (before, after) => Some (b :: before, after) | None => None end
  end.

(** What is hashed, with the two characters of [hash_tag]. *)
Definition twem_hash_key (tags : option (Z * Z)) (key : list Z) : list Z :=
  match tags with
  | None => key
  | Some (left_tag, right_tag) =>
      match gr_strchr key left_tag with
      | None => key
      | Some (_, after) =>
          match gr_strchr after right_tag with
          | Some (tag, _) => if 1 <? zlen tag + 1 then tag else key
          | None => key
          end
      end
  end.

Definition Route (tags : option (Z * Z)) (m_FuncHash : list Z -> Z) (m_FuncDispatch : Z -> go Z) (szKey : list Z) : go Z :=
  m_FuncDispatch (m_FuncHash (twem_hash_key tags szKey)).

(** ** The ring *)

(** The points of a server and of all servers. *)
Definition host_of (name : list Z) (j : nat) : list Z := c_string name ++ [45] ++ dec (Z.of_nat j).
Definition server_points (i : Z) (name : list Z) (k : nat) : list continuum :=
  flat_map (fun j => host_points i (host_of name j)) (seq 0 k).
Definition points_count (total nlive : Z) (s : GR_RedisServer) : Z :=
  default 0 (pointer_per_server (iWeight s) total nlive).
Fixpoint points_from (total nlive : Z) (servers : list GR_RedisServer) (i : Z) : list continuum :=
  match servers with
  | [] => []
  | s :: servers =>
      server_points i (strName s) (Z.to_nat (points_count total nlive s / 4)) ++ points_from total nlive servers (i + 1)
  end.
Definition ring_points (servers : list GR_RedisServer) : list continuum :=
  points_from (total_weight servers) (zlen servers) servers 0.

(** What the configuration must satisfy: every server's number of points is a
    number and its host strings fit their buffer; all points fit the array,
    and there is one. *)
Definition server_fits (total nlive : Z) (s : GR_RedisServer) : bool :=
  match pointer_per_server (iWeight s) total nlive with
  | Some pps => forallb (fun j => zlen (host_of (strName s) j) <? KETAMA_MAX_HOSTLEN) (seq 0 (Z.to_nat (pps / 4)))
  | None => false
  end.
Definition points_total (servers : list GR_RedisServer) : Z :=
  foldr (fun s t => points_count (total_weight servers) (zlen servers) s + t) 0 servers.
Definition ring_fits (servers : list GR_RedisServer) : bool :=
  forallb (server_fits (total_weight servers) (zlen servers)) servers &&
  (0 <? points_total servers) &&
  (points_total servers <=? (zlen servers + KETAMA_CONTINUUM_ADDITION) * KETAMA_POINTS_PER_SERVER) &&
  (zlen servers <? 2 ^ 20).

(** The point a key belongs to: the first one clockwise, from the key's hash
    on, or the first of all behind the last one. *)
Definition clockwise (pts : list continuum) (uiKey : Z) (c : continuum) : Prop :=
  c ∈ pts /\
  ((uiKey <= value c /\ forall p, p ∈ pts -> uiKey <= value p -> value c <= value p) \/
   (forall p, p ∈ pts -> value p < uiKey /\ value c <= value p)).

(** With one server of equal weight more, 25 instead of 24, every server has
    four points less: 0.04 is rounded down, and 0.0000000001 is less than half
    the distance between two [float]s near 40. *)
Example points_of_equal_servers :
  pointer_per_server 1 1 1 = Some 160 /\ pointer_per_server 1 24 24 = Some 160 /\
  pointer_per_server 1 25 25 = Some 156 /\ pointer_per_server 3 4 2 = Some 240 /\ pointer_per_server 0 0 1 = None.
Proof. vm_compute. done. Qed.

(** ** Filling the array *)

Lemma new_continuum_ok n : 0 <= n < 2 ^ 31 -> new_continuum n = Ret n.
Proof. intros Hn. unfold new_continuum. rewrite swrap_small by lia. cbv zeta. by rewrite (proj2 (Z.ltb_ge _ _)) by lia. Qed.

Lemma push_all_ok cap ps : forall acc, zlen acc + zlen ps <= cap -> push_all cap acc ps = Ret (acc ++ ps).
Proof.
  induction ps as [|p ps IH]; intros acc Hc; cbn [push_all]; [by rewrite app_nil_r|].
  rewrite zlen_cons in Hc. pose proof (zlen_nonneg ps). unfold push.
  replace (zlen acc <? cap) with true by lia. cbn [go_bind]. rewrite IH, <- app_assoc; [done|].
  rewrite zlen_app. change (zlen [p]) with 1. lia.
Qed.

Lemma zlen_host_points i host : zlen (host_points i host) = 4.
Proof. done. Qed.

Lemma hosts_ok cap i name js : forall acc,
  forallb (fun j => zlen (host_of name j) <? KETAMA_MAX_HOSTLEN) js = true -> zlen acc + 4 * zlen js <= cap ->
  ketama_hosts cap i name js acc = Ret (acc ++ flat_map (fun j => host_points i (host_of name j)) js).
Proof.
  induction js as [|j js IH]; intros acc Hj Hc; cbn [ketama_hosts flat_map]; [by rewrite app_nil_r|].
  cbn [forallb] in Hj. apply andb_true_iff in Hj as [Hj Hjs]. rewrite zlen_cons in Hc. pose proof (zlen_nonneg js).
  unfold host_name. fold (host_of name j). rewrite Hj. cbn [go_bind].
  rewrite push_all_ok by (rewrite zlen_host_points; lia). cbn [go_bind].
  rewrite IH, app_assoc; [done|done|]. rewrite zlen_app, zlen_host_points. lia.
Qed.

Lemma zlen_server_points i name k : zlen (server_points i name k) = 4 * Z.of_nat k.
Proof.
  unfold server_points. generalize 0%nat. induction k as [|k IH]; intros j; [done|].
  cbn [seq flat_map]. rewrite zlen_app, zlen_host_points, IH. lia.
Qed.

Lemma points_count_quads total nlive s : server_fits total nlive s = true ->
  exists k, pointer_per_server (iWeight s) total nlive = Some (4 * Z.of_nat k) /\ points_count total nlive s = 4 * Z.of_nat k /\
    forallb (fun j => zlen (host_of (strName s) j) <? KETAMA_MAX_HOSTLEN) (seq 0 k) = true.
Proof.
  unfold server_fits, points_count. destruct (pointer_per_server (iWeight s) total nlive) as [pps|] eqn:E; [|done]. intros Hf.
  unfold pointer_per_server in E. destruct (sf_floor _) as [k|]; [|done].
  destruct ((0 <=? k) && (4 * k <? 2 ^ 32)) eqn:Ek; [|done]. injection E as <-. exists (Z.to_nat k).
  rewrite Z2Nat.id by lia. split; [done|]. split; [done|]. rewrite (Z.mul_comm 4), Z.div_mul in Hf by lia. done.
Qed.

(** The total of the points of [servers]. *)
Definition points_sum (total nlive : Z) (servers : list GR_RedisServer) : Z :=
  foldr (fun s t => points_count total nlive s + t) 0 servers.

Lemma zlen_points_from total nlive servers : forall i, forallb (server_fits total nlive) servers = true ->
  zlen (points_from total nlive servers i) = points_sum total nlive servers.
Proof.
  induction servers as [|s servers IH]; intros i Hf; [done|]. cbn [forallb] in Hf. apply andb_true_iff in Hf as [Hs Hf].
  cbn [points_from points_sum foldr]. rewrite zlen_app, zlen_server_points, IH by done.
  destruct (points_count_quads _ _ _ Hs) as (k & _ & -> & _). unfold points_sum.
  rewrite (Z.mul_comm 4 (Z.of_nat k)), Z.div_mul by lia. lia.
Qed.

Lemma servers_ok cap total nlive servers : forall i acc counter, forallb (server_fits total nlive) servers = true ->
  zlen acc + points_sum total nlive servers <= cap -> 0 <= counter -> counter + points_sum total nlive servers < 2 ^ 32 ->
  ketama_servers cap total nlive servers i acc counter =
  Ret (acc ++ points_from total nlive servers i, counter + points_sum total nlive servers).
Proof.
  induction servers as [|s servers IH]; intros i acc counter Hf Hc H0 Hcnt; cbn [ketama_servers points_from].
  { rewrite app_nil_r. cbn. by rewrite Z.add_0_r. }
  cbn [forallb] in Hf. apply andb_true_iff in Hf as [Hs Hf].
  pose proof (zlen_points_from total nlive servers 0 Hf) as Hl. pose proof (zlen_nonneg (points_from total nlive servers 0)) as Hl0.
  cbn [points_sum foldr] in *. fold (points_sum total nlive servers) in *.
  destruct (points_count_quads _ _ _ Hs) as (k & -> & Ek & Hh). rewrite Ek in *.
  rewrite (Z.mul_comm 4 (Z.of_nat k)), Z.div_mul, Nat2Z.id by lia. rewrite hosts_ok; [|done|unfold zlen in *; rewrite length_seq; lia].
  fold (server_points i (strName s) k). cbn [go_bind]. rewrite wrap_small by lia.
  rewrite IH by (try rewrite zlen_app, zlen_server_points; done || lia). rewrite app_assoc. do 2 f_equal. lia.
Qed.

(** ** The search *)

Lemma cmp_le a b : in_order a b <-> value a <= value b.
Proof.
  unfold in_order, ketama_item_cmp. destruct (Z.eqb_spec (value a) (value b)), (Z.ltb_spec (value b) (value a)); lia.
Qed.

Lemma sorted_lookup (vs : list continuum) i j a b : StronglySorted in_order vs ->
  vs !! i = Some a -> vs !! j = Some b -> (i <= j)%nat -> value a <= value b.
Proof.
  intros Hs. revert i j. induction Hs as [|c vs _ IH Hc]; intros i j Hi Hj Hij; [done|].
  destruct i as [|i], j as [|j]; cbn in Hi, Hj; simplify_eq; try lia.
  - rewrite Forall_forall in Hc. apply cmp_le, Hc, list_elem_of_lookup. by exists j.
  - apply (IH i j); [done..|lia].
Qed.

(** The search ends at the border between smaller values and the others. *)
Lemma search_ok vs key fuel : forall lo hi, StronglySorted in_order vs ->
  0 <= lo <= hi -> hi <= zlen vs -> hi - lo <= Z.of_nat fuel ->
  (forall i c, vs !! i = Some c -> Z.of_nat i < lo -> value c < key) ->
  (forall i c, vs !! i = Some c -> hi <= Z.of_nat i -> key <= value c) ->
  exists r, ketama_search fuel vs lo hi key = Ret r /\ 0 <= r <= zlen vs /\
    forall i c, vs !! i = Some c -> (value c < key <-> Z.of_nat i < r).
Proof.
  induction fuel as [|fuel IH]; intros lo hi Hs Hlo Hhi Hf Hl Hr; cbn [ketama_search]; destruct (Z.ltb_spec lo hi).
  1: lia.
  1, 3: exists hi; split; [done|]; split; [lia|]; intros i c Hi; split; intros Hv;
    [destruct (decide (Z.of_nat i < hi)); [done|]; pose proof (Hr i c Hi); lia | apply (Hl i c Hi); lia].
  set (mid := lo + (hi - lo) / 2). pose proof (Z.div_mod (hi - lo) 2 ltac:(lia)). pose proof (Z.mod_pos_bound (hi - lo) 2 ltac:(lia)).
  destruct (lookup_lt_is_Some_2 vs (Z.to_nat mid)) as [m Hm]; [unfold mid, zlen in *; lia|].
  rewrite (zget_ok _ _ m) by (done || lia). cbn [go_bind]. destruct (Z.ltb_spec (value m) key).
  - apply IH; [done|lia|lia|lia| |done]. intros i c Hi Hlt.
    pose proof (sorted_lookup vs i (Z.to_nat mid) c m Hs Hi Hm ltac:(lia)). lia.
  - apply IH; [done|lia|lia|lia|done|]. intros i c Hi Hge.
    pose proof (sorted_lookup vs (Z.to_nat mid) i m c Hs Hm Hi ltac:(lia)). lia.
Qed.

(** On a sorted array of points [Ketama] finds the key's point. *)
Lemma Ketama_clockwise servers vs key : StronglySorted in_order vs -> vs <> [] ->
  (forall c, c ∈ vs -> 0 <= index c < zlen servers) ->
  exists c s, clockwise vs key c /\ servers !! Z.to_nat (index c) = Some s /\ Ketama servers vs (zlen vs) key = Ret (pEvent s).
Proof.
  intros Hs Hne Hidx. pose proof (zlen_nonneg vs). unfold Ketama.
  destruct (search_ok vs key (Z.to_nat (zlen vs)) 0 (zlen vs)) as (r & -> & Hr & Hb); [done|lia|lia|lia|lia| |].
  { intros i c Hi Hge. apply lookup_lt_Some in Hi. unfold zlen in Hge. lia. }
  cbn [go_bind]. set (f := if r =? zlen vs then 0 else r).
  assert (0 < zlen vs) as Hpos by (destruct vs; [done|]; rewrite zlen_cons; pose proof (zlen_nonneg vs); lia).
  assert (0 <= f < zlen vs) as Hf by (unfold f; destruct (Z.eqb_spec r (zlen vs)); lia).
  destruct (lookup_lt_is_Some_2 vs (Z.to_nat f)) as [c Hc]; [unfold zlen in *; lia|].
  rewrite (zget_ok _ _ c) by (done || lia). cbn [go_bind].
  assert (c ∈ vs) as Hin by (apply list_elem_of_lookup; eauto). pose proof (Hidx c Hin) as Hi.
  destruct (lookup_lt_is_Some_2 servers (Z.to_nat (index c))) as [s Hsv]; [unfold zlen in Hi; lia|].
  exists c, s. rewrite (zget_ok _ _ s) by (done || lia). split; [|done]. split; [done|].
  unfold f in *. destruct (Z.eqb_spec r (zlen vs)) as [Er|Er].
  - right. intros p (i & Hp)%list_elem_of_lookup. pose proof (lookup_lt_Some _ _ _ Hp). split.
    + apply (Hb i p Hp). unfold zlen in *. lia.
    + apply (sorted_lookup vs 0 i); [done..|lia].
  - left. split; [pose proof (proj1 (Hb _ c Hc)); lia|]. intros p (i & Hp)%list_elem_of_lookup Hv.
    apply (sorted_lookup vs (Z.to_nat r) i); [done..|]. pose proof (proj2 (Hb i p Hp)). lia.
Qed.

Lemma clockwise_perm l l' key c : l ≡ₚ l' -> clockwise l key c -> clockwise l' key c.
Proof. unfold clockwise. intros Hp. by setoid_rewrite Hp. Qed.

Lemma points_from_index total nlive servers : forall i c, c ∈ points_from total nlive servers i ->
  i <= index c < i + zlen servers.
Proof.
  induction servers as [|s servers IH]; intros i c Hc; [by apply not_elem_of_nil in Hc|].
  cbn [points_from] in Hc. rewrite zlen_cons. pose proof (zlen_nonneg servers).
  apply elem_of_app in Hc as [Hc|Hc]; [|apply IH in Hc; lia].
  unfold server_points, host_points in Hc. apply list_elem_of_In, in_flat_map in Hc as (j & _ & Hc).
  apply in_map_iff in Hc as (x & <- & _). cbn. lia.
Qed.

Lemma ring_update qsort servers : qsort_sorts qsort -> ring_fits servers = true ->
  exists vs, KetamaUpdate qsort servers = Ret vs /\ vs ≡ₚ ring_points servers /\
    StronglySorted in_order vs /\ vs <> [].
Proof.
  intros Hq Hf. unfold ring_fits in Hf. rewrite !andb_true_iff, Z.ltb_lt, Z.leb_le, Z.ltb_lt in Hf.
  destruct Hf as [[[Hf Hpos] Hcap] Hn]. pose proof (zlen_nonneg servers). unfold KetamaUpdate.
  unfold KETAMA_CONTINUUM_ADDITION, KETAMA_POINTS_PER_SERVER in *. rewrite !wrap_small by (rewrite ?wrap_small by lia; lia).
  rewrite new_continuum_ok by lia. cbn [go_bind].
  change (points_total servers) with (points_sum (total_weight servers) (zlen servers) servers) in *.
  rewrite servers_ok by (done || (change (zlen []) with 0; lia)). cbn [go_bind app]. fold (ring_points servers).
  pose proof (zlen_points_from _ _ servers 0 Hf) as Hl. fold (ring_points servers) in Hl.
  rewrite Z.add_0_l, <- Hl. unfold zlen at 1. rewrite Nat2Z.id, firstn_all.
  destruct (Hq (ring_points servers)) as [Hperm Hsort]. eexists. split; [done|]. split; [done|]. split; [done|].
  intros E. rewrite E in Hperm. apply Permutation_nil in Hperm. rewrite Hperm in Hl. change (zlen []) with 0 in Hl. lia.
Qed.

Lemma ring_index servers c : c ∈ ring_points servers -> 0 <= index c < zlen servers.
Proof. intros Hc. apply points_from_index in Hc. lia. Qed.

(** The ring of a configuration that fits answers every key. *)
Lemma ring_serves qsort servers : qsort_sorts qsort -> ring_fits servers = true ->
  exists vs, KetamaUpdate qsort servers = Ret vs /\
  forall uiKey, exists c s, clockwise (ring_points servers) uiKey c /\ servers !! Z.to_nat (index c) = Some s /\
    Ketama servers vs (zlen vs) uiKey = Ret (pEvent s).
Proof.
  intros Hq Hf. destruct (ring_update qsort servers Hq Hf) as (vs & Hup & Hperm & Hsort & Hne).
  exists vs. split; [done|]. intros key. destruct (Ketama_clockwise servers vs key Hsort Hne) as (c & s & Hc & Hs & Hk).
  { intros c Hc. rewrite Hperm in Hc. by apply ring_index. }
  exists c, s. split; [by apply (clockwise_perm vs)|]. done.
Qed.

(** Two points a key may belong to have one value. *)
Lemma clockwise_value pts key c c' : clockwise pts key c -> clockwise pts key c' -> value c = value c'.
Proof.
  intros [Hc [[Hk Hmin]|Hall]] [Hc' [[Hk' Hmin']|Hall']].
  - pose proof (Hmin c' Hc' Hk'). pose proof (Hmin' c Hc Hk). lia.
  - pose proof (Hall' c Hc). lia.
  - pose proof (Hall c' Hc'). lia.
  - pose proof (Hall c' Hc'). pose proof (Hall' c Hc). lia.
Qed.

Lemma clockwise_sub l l' key c : c ∈ l -> clockwise (l ++ l') key c -> clockwise l key c.
Proof.
  intros Hc [_ [[Hk Hmin]|Hall]]; (split; [done|]).
  - left. split; [done|]. intros p Hp. apply Hmin. apply elem_of_app. by left.
  - right. intros p Hp. apply Hall. apply elem_of_app. by left.
Qed.

(** Servers that keep their number of points keep their points. *)
Lemma points_from_kept t n t' n' servers : forall i,
  forallb (fun s => points_count t n s =? points_count t' n' s) servers = true ->
  points_from t n servers i = points_from t' n' servers i.
Proof.
  induction servers as [|s servers IH]; intros i Hk; [done|]. cbn [forallb] in Hk. apply andb_true_iff in Hk as [Hs Hk].
  apply Z.eqb_eq in Hs. cbn [points_from]. by rewrite Hs, (IH (i + 1)).
Qed.

Lemma points_from_app t n s1 s2 : forall i, points_from t n (s1 ++ s2) i = points_from t n s1 i ++ points_from t n s2 (i + zlen s1).
Proof.
  induction s1 as [|s s1 IH]; intros i; cbn [points_from app]; [by rewrite Z.add_0_r|].
  rewrite IH, <- app_assoc, zlen_cons. do 3 f_equal. lia.
Qed.

(** A sort that keeps C's promise. *)
Definition merge_points : list continuum -> list continuum := merge_sort in_order.

Lemma merge_points_sorts : qsort_sorts merge_points.
Proof.
  intros l. split; [apply merge_sort_Permutation|]. apply StronglySorted_merge_sort.
  - intros a b c. rewrite !cmp_le. lia.
  - intros a b. rewrite !cmp_le. lia.
Qed.

(** C14: The ketama distribution: on every configuration that fits, building the
    ring succeeds, and for every 32-bit hash the binary search ends with the
    server of the first point clockwise from it, whatever order [qsort] leaves
    equal points in. *)
Theorem ketama_clockwise (qsort : list continuum -> list continuum) (servers : list GR_RedisServer)
    (Hqsort : qsort_sorts qsort) (Hfits : ring_fits servers = true) :
  exists vs, KetamaUpdate qsort servers = Ret vs /\
  forall uiKey, exists c s, clockwise (ring_points servers) uiKey c /\ servers !! Z.to_nat (index c) = Some s /\
    Ketama servers vs (zlen vs) uiKey = Ret (pEvent s).
Proof. by apply ring_serves. Qed.

Definition two_servers : list GR_RedisServer := [mkServer (str "alpha") 1 10; mkServer (str "beta") 1 20].
Definition server_three : GR_RedisServer := mkServer (str "gamma") 1 30.

Lemma ketama_clockwise_witness :
  exists vs, KetamaUpdate merge_points two_servers = Ret vs /\
  forall uiKey, exists c s, clockwise (ring_points two_servers) uiKey c /\ two_servers !! Z.to_nat (index c) = Some s /\
    Ketama two_servers vs (zlen vs) uiKey = Ret (pEvent s).
Proof. apply (ketama_clockwise merge_points two_servers); [apply merge_points_sorts | vm_compute; reflexivity]. Defined.

(** C28: Consistent hashing: when a server is added and the others keep their number
    of points, a key stays where it was or goes to the new server, unless two of
    the old servers have in common the very point the key belongs to; then
    [qsort] may have left it to either. *)
Theorem ketama_consistent (qsort : list continuum -> list continuum) (servers : list GR_RedisServer) (new : GR_RedisServer)
    (Hqsort : qsort_sorts qsort) (Hfits : ring_fits servers = true) (Hfits' : ring_fits (servers ++ [new]) = true)
    (Hkept : forallb (fun s => points_count (total_weight servers) (zlen servers) s =?
                               points_count (total_weight (servers ++ [new])) (zlen (servers ++ [new])) s) servers = true) :
  exists vs vs', KetamaUpdate qsort servers = Ret vs /\ KetamaUpdate qsort (servers ++ [new]) = Ret vs' /\
  forall uiKey, exists e e', Ketama servers vs (zlen vs) uiKey = Ret e /\ Ketama (servers ++ [new]) vs' (zlen vs') uiKey = Ret e' /\
    (e' = e \/ e' = pEvent new \/
     exists p q, clockwise (ring_points servers) uiKey p /\ clockwise (ring_points servers) uiKey q /\
       value p = value q /\ index p <> index q).
Proof.
  destruct (ring_serves qsort servers Hqsort Hfits) as (vs & Hup & Hk).
  destruct (ring_serves qsort _ Hqsort Hfits') as (vs' & Hup' & Hk').
  exists vs, vs'. split; [done|]. split; [done|]. intros key.
  destruct (Hk key) as (c & s & Hc & Hs & HK), (Hk' key) as (c' & s' & Hc' & Hs' & HK').
  exists (pEvent s), (pEvent s'). split; [done|]. split; [done|].
  assert (ring_points (servers ++ [new]) = ring_points servers ++
    points_from (total_weight (servers ++ [new])) (zlen (servers ++ [new])) [new] (0 + zlen servers)) as Hring.
  { unfold ring_points at 1. rewrite points_from_app. f_equal. symmetry. by apply points_from_kept. }
  rewrite Hring in Hc'. destruct Hc' as [Hin Hcw]. pose proof Hin as Hin'. apply elem_of_app in Hin as [Hin|Hin].
  - pose proof (clockwise_sub _ _ _ _ Hin (conj Hin' Hcw)) as Hold.
    pose proof (ring_index _ _ Hin) as Hi. rewrite lookup_app_l in Hs' by (unfold zlen in Hi; lia).
    destruct (decide (index c = index c')) as [E|E]; [left; rewrite E in Hs; congruence|].
    right. right. exists c, c'. pose proof (clockwise_value _ _ _ _ Hc Hold). done.
  - right. left. apply points_from_index in Hin. change (zlen [new]) with 1 in Hin.
    replace (Z.to_nat (index c')) with (length servers + 0)%nat in Hs' by (unfold zlen in Hin; lia).
    rewrite lookup_app_r, Nat.add_0_r, Nat.sub_diag in Hs' by lia. cbn in Hs'. congruence.
Qed.

Lemma ketama_consistent_witness :
  exists vs vs', KetamaUpdate merge_points two_servers = Ret vs /\ KetamaUpdate merge_points (two_servers ++ [server_three]) = Ret vs' /\
  forall uiKey, exists e e', Ketama two_servers vs (zlen vs) uiKey = Ret e /\
    Ketama (two_servers ++ [server_three]) vs' (zlen vs') uiKey = Ret e' /\
    (e' = e \/ e' = 30 \/
     exists p q, clockwise (ring_points two_servers) uiKey p /\ clockwise (ring_points two_servers) uiKey q /\
       value p = value q /\ index p <> index q).
Proof.
  apply (ketama_consistent merge_points two_servers server_three);
    [apply merge_points_sorts | vm_compute; reflexivity | vm_compute; reflexivity | vm_compute; reflexivity].
Defined.

(** ** Hash tags and the weighted table *)

(** The part of a key between the first [l] and the first [r] behind it, when
    there is one and it is not empty; else the key. *)
Inductive tagged (l r : Z) : list Z -> list Z -> Prop :=
| tagged_tag pre tag post : l ∉ pre -> r ∉ tag -> tag <> [] -> tagged l r (pre ++ l :: tag ++ r :: post) tag
| tagged_whole key :
    (forall pre tag post, key = pre ++ l :: tag ++ r :: post -> l ∉ pre -> r ∉ tag -> tag = []) -> tagged l r key key.

Lemma gr_strchr_app c pre post : c ∉ pre -> gr_strchr (pre ++ c :: post) c = Some (pre, post).
Proof.
  induction pre as [|b pre IH]; intros Hc; cbn [gr_strchr app]; [by rewrite Z.eqb_refl|].
  apply not_elem_of_cons in Hc as [Hb Hc]. rewrite (proj2 (Z.eqb_neq b c)) by congruence. by rewrite IH.
Qed.

Lemma gr_strchr_Some l c pre post : gr_strchr l c = Some (pre, post) -> l = pre ++ c :: post /\ c ∉ pre.
Proof.
  revert pre. induction l as [|b l IH]; intros pre E; [done|]. cbn [gr_strchr] in E. destruct (Z.eqb_spec b c) as [->|Hb].
  - injection E as <- <-. split; [done|apply not_elem_of_nil].
  - destruct (gr_strchr l c) as [[pre' post']|]; [|done]. injection E as <- <-. destruct (IH pre' eq_refl) as [-> Hc].
    split; [done|]. by apply not_elem_of_cons.
Qed.

Lemma tag_part l r key part : tagged l r key part -> twem_hash_key (Some (l, r)) key = part.
Proof.
  intros [pre tag post Hl Hr Hne|key' Hno]; cbn [twem_hash_key].
  - rewrite gr_strchr_app, gr_strchr_app by done. destruct tag as [|b tag]; [done|]. pose proof (zlen_nonneg tag).
    rewrite zlen_cons. by replace (1 <? 1 + zlen tag + 1) with true by lia.
  - destruct (gr_strchr key' l) as [[pre after]|] eqn:E1; [|done]. destruct (gr_strchr after r) as [[tag post]|] eqn:E2; [|done].
    apply gr_strchr_Some in E1 as [-> Hl]. apply gr_strchr_Some in E2 as [-> Hr].
    by rewrite (Hno pre tag post eq_refl Hl Hr).
Qed.

(** The weights before a server, and of all. *)
Definition weights (servers : list GR_RedisServer) : Z := foldr (fun s t => iWeight s + t) 0 servers.

Lemma weights_app s1 s2 : weights (s1 ++ s2) = weights s1 + weights s2.
Proof. induction s1 as [|s s1 IH]; [done|]. cbn [app weights foldr]. fold (weights (s1 ++ s2)) (weights s1). lia. Qed.

Lemma weights_nonneg servers : Forall (fun s => 0 <= iWeight s) servers -> 0 <= weights servers.
Proof. induction 1; [done|]. cbn [weights foldr]. fold (weights l). lia. Qed.

Lemma total_weight_sum servers t : Forall (fun s => 0 <= iWeight s) servers -> 0 <= t -> t + weights servers < 2 ^ 32 ->
  fold_left (fun t s => u32 (t + iWeight s)) servers t = t + weights servers.
Proof.
  intros Hw. revert t. induction Hw as [|s servers Hs Hw IH]; intros t Ht Hb; cbn [fold_left weights foldr]; [lia|].
  fold (weights servers) in *. cbn [weights foldr] in Hb. fold (weights servers) in Hb. pose proof (weights_nonneg servers Hw).
  rewrite wrap_small by lia. rewrite IH by lia. lia.
Qed.

(** Server [i] as often as its weight. *)
Fixpoint weighted (servers : list GR_RedisServer) (i : Z) : list continuum :=
  match servers with
  | [] => []
  | s :: servers => replicate (Z.to_nat (iWeight s)) (mkCont i 0) ++ weighted servers (i + 1)
  end.

Lemma zlen_weighted servers : forall i, Forall (fun s => 0 <= iWeight s) servers -> zlen (weighted servers i) = weights servers.
Proof.
  intros i Hw. revert i. induction Hw as [|s servers Hs Hw IH]; intros i; [done|]. cbn [weighted weights foldr].
  rewrite zlen_app, IH. unfold zlen. rewrite length_replicate. fold (weights servers). lia.
Qed.

Lemma modula_servers_ok cap servers : forall i acc, Forall (fun s => 0 <= iWeight s < 2 ^ 32) servers ->
  zlen acc + weights servers <= cap -> modula_servers cap servers i acc = Ret (acc ++ weighted servers i).
Proof.
  induction servers as [|s servers IH]; intros i acc Hw Hc; cbn [modula_servers weighted]; [by rewrite app_nil_r|].
  inversion_clear Hw as [|?? Hs Hw']. cbn [weights foldr] in Hc. fold (weights servers) in Hc.
  assert (0 <= weights servers) by (apply weights_nonneg; eapply Forall_impl; [done|]; cbn; lia).
  assert (zlen (replicate (Z.to_nat (iWeight s)) (mkCont i 0)) = iWeight s) as Hr by (unfold zlen; rewrite length_replicate; lia).
  rewrite wrap_small by lia. rewrite push_all_ok by lia. cbn [go_bind].
  rewrite IH, <- app_assoc; [done|done|]. rewrite zlen_app. lia.
Qed.

Lemma weighted_lookup s1 s s2 : forall i j, Forall (fun s => 0 <= iWeight s) s1 -> weights s1 <= j < weights s1 + iWeight s ->
  weighted (s1 ++ s :: s2) i !! Z.to_nat j = Some (mkCont (i + zlen s1) 0).
Proof.
  intros i j Hw. revert i j. induction Hw as [|a s1 Ha Hw IH]; intros i j Hj; cbn [weighted app].
  - cbn in Hj. rewrite lookup_app_l by (rewrite length_replicate; lia). rewrite lookup_replicate_2 by lia.
    by rewrite Z.add_0_r.
  - cbn [weights foldr] in Hj. fold (weights s1) in Hj. pose proof (weights_nonneg s1 Hw).
    rewrite lookup_app_r by (rewrite length_replicate; lia). rewrite length_replicate.
    replace (Z.to_nat j - Z.to_nat (iWeight a))%nat with (Z.to_nat (j - iWeight a)) by lia.
    rewrite IH by lia. rewrite zlen_cons. do 2 f_equal. lia.
Qed.

(** The array has no more than 2^31 - 1 elements: a total weight from 2^31 - 10
    on makes its size negative. *)
Example modula_too_heavy : ModulaUpdate [mkServer (str "a") (2 ^ 30) 10; mkServer (str "b") (2 ^ 30) 20] = Panic.
Proof. reflexivity. Qed.

(** C27: The modula distribution behind [Route], for weights that are not negative
    and less than 2^31 - 10 in all: the table is built without an error, and a key goes to the server in whose share of the weights the hash
    of its tag falls; so each server has as many residues as its weight, and
    keys with one tag share a server. *)
Theorem modula_route (before after : list GR_RedisServer) (s : GR_RedisServer) (l r : Z) (m_FuncHash : list Z -> Z) (key part : list Z)
    (Hw : Forall (fun s => 0 <= iWeight s) (before ++ s :: after)) (Hmax : weights (before ++ s :: after) < 2 ^ 31 - 10)
    (Hpart : tagged l r key part)
    (Hshare : weights before <= m_FuncHash part mod weights (before ++ s :: after) < weights before + iWeight s) :
  exists vs, ModulaUpdate (before ++ s :: after) = Ret vs /\ zlen vs = weights (before ++ s :: after) /\
    Route (Some (l, r)) m_FuncHash (Modula (before ++ s :: after) vs (zlen vs)) key = Ret (pEvent s).
Proof.
  set (servers := before ++ s :: after) in *. pose proof (weights_nonneg servers Hw) as Hn.
  assert (total_weight servers = weights servers) as Ht by (unfold total_weight; rewrite total_weight_sum by (done || lia); lia).
  assert (Forall (fun s => 0 <= iWeight s < 2 ^ 32) servers) as Hw32.
  { rewrite Forall_forall in Hw |- *. intros x Hx. split; [by apply Hw|]. apply list_elem_of_split in Hx as (a & b & Hx).
    rewrite Hx in Hmax, Hw. rewrite weights_app in Hmax. cbn [weights foldr] in Hmax. fold (weights a) (weights b) in Hmax.
    assert (0 <= weights a /\ 0 <= weights b); [|lia]. rewrite <- Forall_forall in Hw. apply Forall_app in Hw as [Ha Hb].
    inversion_clear Hb. split; by apply weights_nonneg. }
  exists (weighted servers 0). pose proof (zlen_weighted servers 0 Hw) as Hl. split; [|split; [done|]].
  { unfold ModulaUpdate. rewrite Ht. unfold MODULA_CONTINUUM_ADDITION. rewrite wrap_small by lia.
    rewrite new_continuum_ok by lia. cbn [go_bind]. rewrite modula_servers_ok; [done|done|]. change (zlen []) with 0. lia. }
  unfold Route. rewrite (tag_part l r key part Hpart), Hl. apply Forall_app in Hw as [Hb Hsa].
  pose proof (weights_nonneg before Hb) as Hb0. unfold Modula.
  assert (weights servers <> 0) as Hne by (unfold servers in *; inversion_clear Hsa; rewrite weights_app in *; cbn [weights foldr] in *;
    fold (weights after) in *; pose proof (weights_nonneg after ltac:(done)); lia).
  rewrite (proj2 (Z.eqb_neq _ _)) by done. rewrite (zget_ok _ _ (mkCont (0 + zlen before) 0)) by (try apply weighted_lookup; done || lia).
  cbn [go_bind index]. rewrite (zget_ok _ _ s); [done|pose proof (zlen_nonneg before); lia|].
  unfold zlen. rewrite Z.add_0_l, Nat2Z.id. unfold servers. by rewrite lookup_app_r, Nat.sub_diag by lia.
Qed.

Lemma modula_route_witness :
  let servers := [mkServer (str "a") 2 10; mkServer (str "b") 3 20; mkServer (str "c") 1 30] in
  exists vs, ModulaUpdate servers = Ret vs /\ zlen vs = 6 /\
    Route (Some (123, 125)) Crc32a (Modula servers vs (zlen vs)) (str "x{7}y") = Ret 10.
Proof.
  apply (modula_route [] [mkServer (str "b") 3 20; mkServer (str "c") 1 30] (mkServer (str "a") 2 10) 123 125
    Crc32a (str "x{7}y") (str "7")).
  - repeat constructor; cbn; lia.
  - cbn. lia.
  - apply (tagged_tag 123 125 (str "x") (str "7") (str "y")); [refine (bool_decide_unpack _ _); by vm_compute..|done].
  - vm_compute. split; congruence.
Defined.
