(* ===== verification/Clusterroute.v ===== *)
(** * native/gr_clusterroute.cpp and route.cpp: the slots of a cluster

    [GR_ClusterRoute] keeps a table from the 16384 slots of a Redis Cluster to
    servers; [GR_Route] keeps the servers by address and in an array.  Servers
    and the events of their connections are objects with addresses, here
    numbers.  The use of a server that has been deleted, of a null pointer or
    of a place outside an array is [Panic], and so is a failed [ASSERT].  An
    address is the number [AddrToLong] makes of it. *)

From S2P Require Import Prelude Gostrings Resp Crc16 Hashes Redismsg.

Definition CLUSTER_SLOTS : Z := 16384.
Definition MAX_REDIS_GROUP : Z := 1024.

Definition cluster_KeyHashSlot (szKey : list Z) : Z :=
  let iKeyLen := zlen szKey in
  let s := scan_byte szKey 123 0 in
  if s =? iKeyLen then Z.land (Crc16 szKey) 0x3FFF
  else
    let e := scan_byte (drop (Z.to_nat (s + 1)) szKey) 125 (s + 1) in
    if (e =? iKeyLen) || (e =? s + 1) then Z.land (Crc16 szKey) 0x3FFF
    else Z.land (Crc16 (take (Z.to_nat (e - s - 1)) (drop (Z.to_nat (s + 1)) szKey))) 0x3FFF.

(** [GR_RedisServer] *)
Record server := mkSrv { ulIdenty : Z; ulIdx : Z; srv_event : option nat }.

(** [GR_RedisEvent]: [ev_ok] is [ConnectOK()], [ev_open] is [m_iFD > 0]. *)
Record event := mkEv { m_pServer : nat; ev_ok : bool; ev_open : bool }.

(** [m_vServers] has [m_iSrvNum] elements here. *)
Record croute := mkRoute {
  srvs : gmap nat server;
  events : gmap nat event;
  fresh : nat;
  m_mapServers : gmap Z nat;
  m_vServers : list nat;
  m_vRedisSlot : list (option nat)
}.

Definition new_route : croute := mkRoute ∅ ∅ 0 ∅ [] (replicate (Z.to_nat CLUSTER_SLOTS) None).

Definition look {A} (m : gmap nat A) (k : nat) : go A := match m !! k with Some x => Ret x | None => Panic end.

Definition set_srv (r : croute) (k : nat) (s : server) : croute :=
  mkRoute (<[k := s]> (srvs r)) (events r) (fresh r) (m_mapServers r) (m_vServers r) (m_vRedisSlot r).
Definition set_ev (r : croute) (k : nat) (e : event) : croute :=
  mkRoute (srvs r) (<[k := e]> (events r)) (fresh r) (m_mapServers r) (m_vServers r) (m_vRedisSlot r).
Definition set_slots (r : croute) (t : list (option nat)) : croute :=
  mkRoute (srvs r) (events r) (fresh r) (m_mapServers r) (m_vServers r) t.

(** [pServer->pEvent != nullptr && pServer->pEvent->ConnectOK()] *)
Definition srv_ok (r : croute) (k : nat) : go bool :=
  let! s := look (srvs r) k in
  match srv_event s with
  | None => Ret false
  | Some e => let! ev := look (events r) e in Ret (ev_ok ev)
  end.

(** [AddRedis]: the server of the address if it is connected, else a new one;
    null when there are too many. *)
Definition AddRedis (r : croute) (ident : Z) : go (croute * option nat) :=
  let! known := match m_mapServers r !! ident with
                | Some k => let! b := srv_ok r k in Ret (if b then Some k else None)
                | None => Ret None
                end in
  match known with
  | Some k => Ret (r, Some k)
  | None =>
      if zlen (m_vServers r) + 1 =? MAX_REDIS_GROUP then Ret (r, None)
      else
        let k := fresh r in
        Ret (mkRoute (<[k := mkSrv ident (zlen (m_vServers r)) None]> (srvs r)) (events r) (S k) (<[ident := k]> (m_mapServers r))
               (m_vServers r ++ [k]) (m_vRedisSlot r), Some k)
  end.

(** What comes of [ConnectToRedis]: the connection is on its way; no socket can
    be set up; [connect] succeeds at once, and [ConnectResult] leaves the
    status as it is; [connect] fails at once, and the server is deleted while its
    method [Connect] runs, which then prints the server's address. *)
Inductive conn := CStarted | CNoSocket | CNow | CRefused.
(** What a TCP socket that does not block is expected to do. *)
Definition in_progress (c : conn) : Prop := c = CStarted \/ c = CNoSocket.

#[global] Instance conn_eq : EqDecision conn.
Proof. solve_decision. Defined.

(** [GR_RedisServer::Connect] of a server without an event, and whether it
    returns [GR_OK]. *)
Definition Connect (r : croute) (k : nat) (c : conn) : go (croute * bool) :=
  let! s := look (srvs r) k in
  let e := fresh r in
  let with_event ev := mkRoute (<[k := mkSrv (ulIdenty s) (ulIdx s) (Some e)]> (srvs r)) (<[e := ev]> (events r)) (S e)
                               (m_mapServers r) (m_vServers r) (m_vRedisSlot r) in
  match c with
  | CStarted => Ret (with_event (mkEv k true true), true)
  | CNoSocket => Ret (with_event (mkEv k false false), false)
  | CNow => Ret (with_event (mkEv k false true), true)
  | CRefused => Panic
  end.

(** A slot is given to the server [k] if no connected server has it. *)
Definition assign_slot (k : nat) (r : croute) (iStart : Z) : go croute :=
  if iStart <? 0 then Panic
  else match m_vRedisSlot r !! Z.to_nat iStart with
  | None => Panic
  | Some o =>
      let! taken := match o with None => Ret false | Some k' => srv_ok r k' end in
      Ret (if taken : bool then r else set_slots r (<[Z.to_nat iStart := Some k]> (m_vRedisSlot r)))
  end.

Fixpoint assign_slots (k : nat) (l : list Z) (r : croute) : go croute :=
  match l with
  | [] => Ret r
  | i :: l => let! r := assign_slot k r i in assign_slots k l r
  end.

(** The numbers from [iBegin] to [iEnd]. *)
Definition range (s : Z * Z) : list Z := seqZ (fst s) (snd s - fst s + 1).

Record ClusterInfo := mkCluster { info_addr : Z; listSlots : list (Z * Z) }.

(** [AddRedisServer], with the server and whether it returns [GR_OK]. *)
Definition AddRedisServer (r : croute) (info : ClusterInfo) (c : conn) : go (croute * option nat * bool) :=
  let! (r, o) := AddRedis r (info_addr info) in
  match o with
  | None => Ret (r, None, false)
  | Some k =>
      let! b := srv_ok r k in
      let! (r, ok) := if b : bool then Ret (r, true) else Connect r k c in
      if ok : bool then
        let! r := assign_slots k (concat (map range (listSlots info))) r in Ret (r, Some k, true)
      else Ret (r, Some k, false)
  end.

Definition slot_ready (r : croute) (o : option nat) : go bool :=
  match o with None => Ret false | Some k => srv_ok r k end.

Fixpoint all_ready (r : croute) (l : list (option nat)) : go bool :=
  match l with
  | [] => Ret true
  | o :: l => let! b := slot_ready r o in if b : bool then all_ready r l else Ret false
  end.

Definition ReadyCheck (r : croute) : go bool := all_ready r (m_vRedisSlot r).

(** The event of the server a key belongs to, with the error of the key
    "cluster". *)
Definition cluster_Route (r : croute) (szKey : list Z) : go (option nat * bool) :=
  if (zlen szKey =? 7) && icmp (fun a => default 0 (szKey !! Z.to_nat a)) 0 (str "cluster") then Ret (None, true)
  else
    match m_vRedisSlot r !! Z.to_nat (cluster_KeyHashSlot szKey) with
    | None => Panic
    | Some None => Ret (None, false)
    | Some (Some k) => let! s := look (srvs r) k in Ret (srv_event s, false)
    end.

(** [GetRedis]: by address, or by the number each server carries. *)
Fixpoint find_ident (r : croute) (l : list nat) (ident : Z) : go (option nat) :=
  match l with
  | [] => Ret None
  | k :: l => let! s := look (srvs r) k in if ulIdenty s =? ident then Ret (Some k) else find_ident r l ident
  end.

Definition GetRedis (r : croute) (ident : Z) : go (option nat) :=
  match m_mapServers r !! ident with
  | Some k => Ret (Some k)
  | None => find_ident r (m_vServers r) ident
  end.

(** [SlotChanged] after a request has been redirected to the server of [e]. *)
Definition SlotChanged (r : croute) (iAskTimes iSlot : Z) (e : nat) : go croute :=
  if 0 <? iAskTimes then Ret r
  else
    let! ev := look (events r) e in
    if (0 <=? iSlot) && (iSlot <? CLUSTER_SLOTS) then Ret (set_slots r (<[Z.to_nat iSlot := Some (m_pServer ev)]> (m_vRedisSlot r)))
    else Panic.

(** [GR_Route::DelRedis]: the last server takes the place of the one at [i]. *)
Definition remove_at (l : list nat) (i : nat) : list nat :=
  let n := pred (length l) in
  if (i =? n)%nat then take n l else <[i := default 0%nat (l !! n)]> (take n l).

(** The loop: the server at its own index with this address. *)
Fixpoint find_at (r : croute) (l : list nat) (i : nat) (ulValue idx : Z) : go (option nat) :=
  match l with
  | [] => Ret None
  | k :: l =>
      let! s := look (srvs r) k in
      if negb (ulIdenty s =? 0) && (ulIdenty s =? ulValue) && (idx =? Z.of_nat i) then Ret (Some i)
      else find_at r l (S i) ulValue idx
  end.

Definition DelRedis_base (r : croute) (e : nat) : go croute :=
  let! ev := look (events r) e in
  let! s := look (srvs r) (m_pServer ev) in
  if zlen (m_vServers r) <=? ulIdx s then Ret r
  else match m_mapServers r !! ulIdenty s with
  | None => Panic
  | Some k =>
      let! p := look (srvs r) k in
      let r := set_srv r k (mkSrv (ulIdenty p) (ulIdx p) None) in
      let r := if ulIdx p =? ulIdx s
               then mkRoute (srvs r) (events r) (fresh r) (delete (ulIdenty s) (m_mapServers r)) (m_vServers r) (m_vRedisSlot r) else r in
      let! o := find_at r (m_vServers r) 0 (ulIdenty s) (ulIdx s) in
      match o with
      | None => Ret r
      | Some i =>
          match m_vServers r !! i with
          | None => Panic
          | Some d => Ret (mkRoute (delete d (srvs r)) (events r) (fresh r) (m_mapServers r) (remove_at (m_vServers r) i) (m_vRedisSlot r))
          end
      end
  end.

(** [GR_ClusterRoute::DelRedis] *)
Definition DelRedis (r : croute) (e : nat) : go croute :=
  let! ev := look (events r) e in
  DelRedis_base (set_slots r ((fun o => if bool_decide (o = Some (m_pServer ev)) then None else o) <$> m_vRedisSlot r)) e.

(** [GR_RedisEvent::Close], as far as the route is concerned. *)
Definition event_Close (r : croute) (e : nat) : go croute :=
  let! ev := look (events r) e in
  if negb (ev_open ev) then Ret r
  else DelRedis (set_ev r e (mkEv (m_pServer ev) false false)) e.

(** ** Slots of keys *)

Lemma Crc16_slot l : Forall is_byte l -> Z.land (Crc16 l) 0x3FFF = crc_xmodem l mod 16384.
Proof.
  intros Hl. pose proof (Crc16_low l 0 Hl) as E. fold (Crc16 l) in E.
  change (fold_left crc_byte l (u16 0)) with (crc_xmodem l) in E.
  rewrite (land_mask 14) by lia. rewrite <- E. symmetry. apply (wrap_mod_pow2 16 14). lia.
Qed.

Lemma key_slot_range key : 0 <= cluster_KeyHashSlot key < CLUSTER_SLOTS.
Proof.
  assert (forall x, 0 <= Z.land x 0x3FFF < CLUSTER_SLOTS) as Hr.
  { intros x. rewrite (land_mask 14) by lia. unfold CLUSTER_SLOTS. apply Z.mod_pos_bound. lia. }
  unfold cluster_KeyHashSlot. by repeat case_match.
Qed.

Lemma scan_byte_bounds l c : forall i, i <= scan_byte l c i <= i + zlen l.
Proof.
  induction l as [|b l IH]; intros i; cbn [scan_byte]; [rewrite zlen_nil; lia|]. rewrite zlen_cons. pose proof (zlen_nonneg l).
  case_match; [lia|]. specialize (IH (i + 1)). lia.
Qed.

Lemma land_slot x : Z.land x 0x3FFF = x mod 16384.
Proof. by rewrite (land_mask 14). Qed.

(** The proxy and the front board give a key the same slot. *)
Lemma same_slot key : Forall is_byte key -> KeyHashSlot key = Ret (cluster_KeyHashSlot key).
Proof.
  intros Hk. unfold KeyHashSlot, cluster_KeyHashSlot. rewrite crc16_full by done. cbn [go_bind].
  rewrite !Crc16_slot by (done || by apply Forall_take, Forall_drop). rewrite !land_slot. case_match eqn:Es; [done|]. case_match eqn:Ee; [done|].
  set (s := scan_byte key 123 0) in *. pose proof (scan_byte_bounds key 123 0) as Hs. fold s in Hs.
  pose proof (scan_byte_bounds (drop (Z.to_nat (s + 1)) key) 125 (s + 1)) as He.
  rewrite zlen_drop in He. set (e := scan_byte _ 125 _) in *.
  rewrite slice_ok by lia. cbn [go_bind]. unfold sub. rewrite crc16_take.
  - cbn [go_bind]. rewrite land_slot, take_take. repeat f_equal. lia.
  - by apply Forall_take, Forall_drop.
  - rewrite zlen_take, zlen_drop. lia.
Qed.

(** ** The invariant of the table *)

Record route_ok (r : croute) : Prop := {
  ok_len : length (m_vRedisSlot r) = Z.to_nat CLUSTER_SLOTS;
  ok_fresh : forall k, (fresh r <= k)%nat -> srvs r !! k = None /\ events r !! k = None;
  ok_vec : forall i k, m_vServers r !! i = Some k -> exists s, srvs r !! k = Some s /\ Z.of_nat i <= ulIdx s;
  ok_nodup : NoDup (m_vServers r);
  ok_room : zlen (m_vServers r) + 1 <= MAX_REDIS_GROUP;
  ok_map : forall a k, m_mapServers r !! a = Some k -> exists s, srvs r !! k = Some s /\ ulIdenty s = a;
  ok_event : forall k s e, srvs r !! k = Some s -> srv_event s = Some e -> exists ev, events r !! e = Some ev /\ m_pServer ev = k;
  ok_same : forall e ev, events r !! e = Some ev -> ev_ok ev = ev_open ev;
  ok_open : forall e ev, events r !! e = Some ev -> ev_open ev = true ->
    exists s, srvs r !! m_pServer ev = Some s /\ srv_event s = Some e /\ m_mapServers r !! ulIdenty s = Some (m_pServer ev) /\
      forall j d sd, m_vServers r !! j = Some d -> srvs r !! d = Some sd -> ulIdenty sd = ulIdenty s -> d <> m_pServer ev -> Z.of_nat j < ulIdx s;
  ok_slots : forall i k, m_vRedisSlot r !! i = Some (Some k) ->
    exists s e ev, srvs r !! k = Some s /\ srv_event s = Some e /\ events r !! e = Some ev /\ ev_open ev = true
}.

Lemma new_route_ok : route_ok new_route.
Proof.
  split; unfold new_route; cbn [srvs events fresh m_mapServers m_vServers m_vRedisSlot].
  - by rewrite length_replicate.
  - done.
  - done.
  - constructor.
  - by vm_compute.
  - done.
  - done.
  - done.
  - done.
  - intros i k Hi. by apply lookup_replicate in Hi as [Hi _].
Qed.

(** A server is connected when its event is open. *)
Lemma srv_ok_spec r k s : route_ok r -> srvs r !! k = Some s ->
  exists b, srv_ok r k = Ret b /\ (b = true <-> exists e ev, srv_event s = Some e /\ events r !! e = Some ev /\ ev_open ev = true).
Proof.
  intros Hok Hs. unfold srv_ok, look. rewrite Hs. cbn [go_bind]. destruct (srv_event s) as [e|] eqn:He.
  - destruct (ok_event r Hok k s e Hs He) as (ev & Hev & _). rewrite Hev. cbn [go_bind]. exists (ev_ok ev). split; [done|].
    rewrite (ok_same r Hok e ev Hev). split; [intros; by exists e, ev|]. intros (e' & ev' & E & Hev' & Ho). congruence.
  - exists false. split; [done|]. split; [done|]. by intros (? & ? & ? & _).
Qed.

Lemma slot_taken r i o : route_ok r -> m_vRedisSlot r !! i = Some o ->
  match o with None => Ret false | Some k => srv_ok r k end = Ret (bool_decide (o <> None)).
Proof.
  intros Hok Hi. destruct o as [k|]; [|done]. destruct (ok_slots r Hok i k Hi) as (s & e & ev & Hs & He & Hev & Ho).
  destruct (srv_ok_spec r k s Hok Hs) as (b & -> & Hb). f_equal. rewrite bool_decide_true by done. apply Hb. eauto.
Qed.

(** *** Adding servers *)

Lemma fresh_srv r : route_ok r -> srvs r !! fresh r = None.
Proof. intros Hok. by apply (ok_fresh r Hok). Qed.

Lemma fresh_ev r : route_ok r -> events r !! fresh r = None.
Proof. intros Hok. by apply (ok_fresh r Hok). Qed.

(** A new server of an address without an open connection. *)
Definition with_new (r : croute) (a : Z) : croute :=
  mkRoute (<[fresh r := mkSrv a (zlen (m_vServers r)) None]> (srvs r)) (events r) (S (fresh r)) (<[a := fresh r]> (m_mapServers r))
    (m_vServers r ++ [fresh r]) (m_vRedisSlot r).

Lemma with_new_srv r a k s : route_ok r -> srvs r !! k = Some s -> srvs (with_new r a) !! k = Some s.
Proof.
  intros Hok Hk. cbn. rewrite lookup_insert_ne; [done|]. intros <-. by rewrite (fresh_srv r Hok) in Hk.
Qed.

Lemma vec_fresh r i : route_ok r -> m_vServers r !! i <> Some (fresh r).
Proof. intros Hok Hi. destruct (ok_vec r Hok i _ Hi) as (s & Hs & _). by rewrite (fresh_srv r Hok) in Hs. Qed.

Lemma with_new_ok r a : route_ok r -> zlen (m_vServers r) + 1 < MAX_REDIS_GROUP ->
  (forall e ev s, events r !! e = Some ev -> ev_open ev = true -> srvs r !! m_pServer ev = Some s -> ulIdenty s <> a) ->
  route_ok (with_new r a).
Proof.
  intros Hok Hroom Hno. pose proof (with_new_srv r a) as Hold. split; cbn [with_new srvs events fresh m_mapServers m_vServers m_vRedisSlot].
  - apply Hok.
  - intros k Hk. destruct (ok_fresh r Hok k ltac:(lia)) as [Hs He]. split; [|done]. by rewrite lookup_insert_ne by lia.
  - intros i k Hi. apply lookup_snoc_Some in Hi as [[_ Hi]|[-> <-]].
    + destruct (ok_vec r Hok i k Hi) as (s & Hs & Hle). exists s. split; [by apply Hold|done].
    + eexists. split; [apply lookup_insert_eq|]. done.
  - apply NoDup_app. split_and!; [apply Hok| |apply NoDup_singleton]. intros x Hx ->%list_elem_of_singleton.
    apply list_elem_of_lookup in Hx as [i Hi]. by apply (vec_fresh r i Hok) in Hi.
  - rewrite zlen_app, zlen_cons, zlen_nil. lia.
  - intros a' k [[<- <-]|[Hne Hm]]%lookup_insert_Some; [eexists; by rewrite lookup_insert_eq|].
    destruct (ok_map r Hok a' k Hm) as (s & Hs & E). exists s. split; [by apply Hold|done].
  - intros k s e [[<- <-]|[Hne Hs]]%lookup_insert_Some He; [done|]. by apply (ok_event r Hok k s).
  - apply Hok.
  - intros e ev Hev Ho. destruct (ok_open r Hok e ev Hev Ho) as (s & Hs & He & Hm & Hpos). exists s.
    split; [by apply Hold|]. split; [done|]. pose proof (Hno e ev s Hev Ho Hs) as Hne.
    split; [by rewrite lookup_insert_ne by congruence|]. intros j d sd [[_ Hj]|[-> <-]]%lookup_snoc_Some Hd E Hdne.
    + apply (Hpos j d sd Hj); [|done|done]. rewrite lookup_insert_ne in Hd; [done|]. intros <-. by apply (vec_fresh r j Hok).
    + rewrite lookup_insert_eq in Hd. injection Hd as <-. cbn in E. congruence.
  - intros i k Hi. destruct (ok_slots r Hok i k Hi) as (s & e & ev & Hs & ?). exists s, e, ev. split; [by apply Hold|done].
Qed.

(** No more servers are taken. *)
Definition full (r : croute) : Prop := zlen (m_vServers r) + 1 = MAX_REDIS_GROUP.

Lemma AddRedis_ok r a : route_ok r -> (AddRedis r a = Ret (r, None) /\ full r) \/
  exists r' k s, AddRedis r a = Ret (r', Some k) /\ route_ok r' /\ srvs r' !! k = Some s /\ ulIdenty s = a /\
    m_mapServers r' !! a = Some k /\ m_vRedisSlot r' = m_vRedisSlot r /\ events r' = events r /\
    (forall k' s', srvs r !! k' = Some s' -> srvs r' !! k' = Some s') /\
    zlen (m_vServers r') <= zlen (m_vServers r) + 1 /\
    ((r' = r /\ srv_ok r k = Ret true) \/
     (srv_event s = None /\ ulIdx s = zlen (m_vServers r) /\ m_vServers r' = m_vServers r ++ [k] /\ fresh r = k /\ fresh r' = S k)).
Proof.
  intros Hok. unfold AddRedis.
  assert (exists known, match m_mapServers r !! a with
            | Some k => let! b := srv_ok r k in Ret (if b then Some k else None) | None => Ret None end = Ret known /\
          match known with
          | Some k => m_mapServers r !! a = Some k /\ srv_ok r k = Ret true
          | None => forall e ev s, events r !! e = Some ev -> ev_open ev = true -> srvs r !! m_pServer ev = Some s -> ulIdenty s <> a
          end) as (known & -> & Hknown).
  { destruct (m_mapServers r !! a) as [k|] eqn:Hm.
    - destruct (ok_map r Hok a k Hm) as (s & Hs & Ea). destruct (srv_ok_spec r k s Hok Hs) as (b & Hb & Hiff). rewrite Hb. cbn [go_bind].
      destruct b; [by exists (Some k)|]. exists None. split; [done|]. intros e ev s' Hev Ho Hs' Es.
      destruct (ok_open r Hok e ev Hev Ho) as (s0 & Hs0 & He0 & Hm0 & _). rewrite Hs' in Hs0. injection Hs0 as <-.
      rewrite Es, Hm in Hm0. injection Hm0 as ->. rewrite Hs in Hs'. injection Hs' as <-. assert (false = true); [|done]. apply Hiff. eauto.
    - exists None. split; [done|]. intros e ev s' Hev Ho Hs' Es. destruct (ok_open r Hok e ev Hev Ho) as (s0 & Hs0 & _ & Hm0 & _).
      rewrite Hs' in Hs0. injection Hs0 as <-. rewrite Es in Hm0. congruence. }
  cbn [go_bind]. destruct known as [k|].
  - destruct Hknown as [Hm Hb]. destruct (ok_map r Hok a k Hm) as (s & Hs & Ea). right. exists r, k, s. split_and!; try done; [lia|by left].
  - pose proof (ok_room r Hok) as Hroom. destruct (Z.eqb_spec (zlen (m_vServers r) + 1) MAX_REDIS_GROUP) as [Hfull|Hmax]; [by left|right].
    exists (with_new r a), (fresh r), (mkSrv a (zlen (m_vServers r)) None).
    split_and!; try done.
    + apply with_new_ok; [done|lia|done].
    + apply lookup_insert_eq.
    + apply lookup_insert_eq.
    + intros k' s'. by apply with_new_srv.
    + cbn. rewrite zlen_app. done.
    + by right.
Qed.

(** The connection of a server that has none. *)
Lemma Connect_ok r k s (c : conn) : route_ok r -> srvs r !! k = Some s -> srv_event s = None -> in_progress c ->
  m_mapServers r !! ulIdenty s = Some k ->
  (forall j d, m_vServers r !! j = Some d -> d <> k -> Z.of_nat j < ulIdx s) ->
  exists r', Connect r k c = Ret (r', bool_decide (c = CStarted)) /\ route_ok r' /\
    srvs r' !! k = Some (mkSrv (ulIdenty s) (ulIdx s) (Some (fresh r))) /\
    events r' !! fresh r = Some (mkEv k (bool_decide (c = CStarted)) (bool_decide (c = CStarted))) /\
    m_vRedisSlot r' = m_vRedisSlot r /\ m_vServers r' = m_vServers r /\
    (forall k' s', k' <> k -> srvs r !! k' = Some s' -> srvs r' !! k' = Some s') /\
    (forall e ev, events r !! e = Some ev -> events r' !! e = Some ev).
Proof.
  intros Hok Hs Hnone Hc Hm Hpos. unfold Connect, look. rewrite Hs. cbn [go_bind]. set (b := bool_decide (c = CStarted)).
  set (r' := mkRoute (<[k := mkSrv (ulIdenty s) (ulIdx s) (Some (fresh r))]> (srvs r)) (<[fresh r := mkEv k b b]> (events r)) (S (fresh r))
               (m_mapServers r) (m_vServers r) (m_vRedisSlot r)).
  exists r'. split; [unfold r', b; by destruct Hc as [-> | ->]|].
  assert (forall k' s', k' <> k -> srvs r !! k' = Some s' -> srvs r' !! k' = Some s') as Hsrv by (intros; cbn; by rewrite lookup_insert_ne).
  assert (forall e ev, events r !! e = Some ev -> events r' !! e = Some ev) as Hevs.
  { intros e ev Hev. cbn. rewrite lookup_insert_ne; [done|]. intros <-. by rewrite (fresh_ev r Hok) in Hev. }
  assert (forall d sd, srvs r !! d = Some sd -> exists sd', srvs r' !! d = Some sd' /\ ulIdenty sd' = ulIdenty sd /\ ulIdx sd' = ulIdx sd) as Hkeep.
  { intros d sd Hd. destruct (decide (d = k)) as [->|]; [|eauto]. rewrite Hs in Hd. injection Hd as <-. eexists. split; [apply lookup_insert_eq|done]. }
  split; [|split_and!; try done; [apply lookup_insert_eq|apply lookup_insert_eq]].
  split; try apply Hok.
  - intros k' Hk'. cbn in Hk'. destruct (ok_fresh r Hok k' ltac:(lia)) as [Hs' He']. cbn. rewrite !lookup_insert_ne; [done|lia|].
    intros <-. congruence.
  - intros i d Hi. destruct (ok_vec r Hok i d Hi) as (sd & Hd & Hle). destruct (Hkeep d sd Hd) as (sd' & ? & ? & E). exists sd'. split; [done|]. lia.
  - intros a d Hd. destruct (ok_map r Hok a d Hd) as (sd & Hsd & E). destruct (Hkeep d sd Hsd) as (sd' & ? & E' & _). exists sd'. split; [done|]. congruence.
  - intros d sd e Hd He. cbn in Hd. apply lookup_insert_Some in Hd as [[<- <-]|[Hne Hd]].
    + injection He as <-. eexists. split; [apply lookup_insert_eq|done].
    + destruct (ok_event r Hok d sd e Hd He) as (ev & Hev & E). exists ev. split; [by apply Hevs|done].
  - intros e ev Hev. cbn in Hev. apply lookup_insert_Some in Hev as [[<- <-]|[Hne Hev]]; [done|]. by apply (ok_same r Hok e).
  - intros e ev Hev Ho. cbn in Hev. apply lookup_insert_Some in Hev as [[<- <-]|[Hne Hev]].
    + cbn [m_pServer]. eexists. split; [apply lookup_insert_eq|]. split; [done|]. split; [done|].
      intros j d sd Hj _ _ Hd. by apply (Hpos j d).
    + destruct (ok_open r Hok e ev Hev Ho) as (s1 & Hs1 & He1 & Hm1 & Hp1).
      assert (m_pServer ev <> k) as Hk by (intros E; rewrite E, Hs in Hs1; injection Hs1 as <-; congruence).
      exists s1. split; [by apply Hsrv|]. split; [done|]. split; [done|]. intros j d sd Hj Hd E Hdne.
      destruct (ok_vec r Hok j d Hj) as (sd0 & Hd0 & _). destruct (Hkeep d sd0 Hd0) as (sd' & Hd' & E' & _).
      rewrite Hd in Hd'. injection Hd' as <-. apply (Hp1 j d sd0); [done|done|congruence|done].
  - intros i d Hi. destruct (ok_slots r Hok i d Hi) as (sd & e & ev & Hd & He & Hev & Ho).
    assert (d <> k) as Hk by (intros ->; rewrite Hs in Hd; injection Hd as <-; congruence).
    exists sd, e, ev. split; [by apply Hsrv|]. split; [done|]. split; [by apply Hevs|done].
Qed.

(** *** Assigning slots *)

(** Slots that are free go to the server [k]; the others stay. *)
Definition assigned (k : nat) (l : list Z) (t t' : list (option nat)) : Prop :=
  length t' = length t /\
  forall i o, t !! i = Some o -> t' !! i = Some (match o with Some k' => Some k' | None => if bool_decide (Z.of_nat i ∈ l) then Some k else None end).

Lemma pick_ext (P Q : Prop) `{Decision P, Decision Q} (k : nat) : (P <-> Q) ->
  (if bool_decide P then Some k else None) = (if bool_decide Q then Some k else None).
Proof. intros HPQ. by rewrite (bool_decide_ext P Q HPQ). Qed.

Lemma set_slot_ok r i k s e ev : route_ok r -> srvs r !! k = Some s -> srv_event s = Some e -> events r !! e = Some ev -> ev_open ev = true ->
  route_ok (set_slots r (<[i := Some k]> (m_vRedisSlot r))).
Proof.
  intros Hok Hs He Hev Ho. split; try apply Hok; cbn [set_slots m_vRedisSlot srvs events].
  - rewrite length_insert. apply Hok.
  - intros j d Hj. apply list_lookup_insert_Some in Hj as [(_ & E & _)|[_ Hj]]; [injection E as <-; by exists s, e, ev|].
    by apply (ok_slots r Hok j d).
Qed.

Lemma assign_slots_ok k s e ev l : forall r, route_ok r -> srvs r !! k = Some s -> srv_event s = Some e -> events r !! e = Some ev -> ev_open ev = true ->
  Forall (fun i => 0 <= i < CLUSTER_SLOTS) l ->
  exists t, assign_slots k l r = Ret (set_slots r t) /\ route_ok (set_slots r t) /\ assigned k l (m_vRedisSlot r) t.
Proof.
  induction l as [|i l IH]; intros r Hok Hs He Hev Ho Hl; cbn [assign_slots].
  - exists (m_vRedisSlot r). split; [by destruct r|]. split; [by destruct r|]. split; [done|]. intros j o Hj. rewrite Hj. by destruct o.
  - inversion_clear Hl as [|?? Hi Hl']. unfold assign_slot. rewrite (proj2 (Z.ltb_ge i 0)) by lia.
    destruct (lookup_lt_is_Some_2 (m_vRedisSlot r) (Z.to_nat i)) as [o Hio]; [rewrite (ok_len r Hok); lia|].
    rewrite Hio, (slot_taken r _ o Hok Hio). cbn [go_bind]. destruct o as [k'|].
    + rewrite bool_decide_true by done. cbn [go_bind]. destruct (IH r) as (t & -> & Hok' & Hlen & Ht); [done..|]. exists t. split; [done|]. split; [done|]. split; [done|].
      intros j o Hj. rewrite (Ht j o Hj). destruct o as [|]; [done|]. f_equal. apply pick_ext. rewrite elem_of_cons.
      split; [by right|]. intros [<-|?]; [|done]. rewrite Nat2Z.id in Hio. congruence.
    + rewrite bool_decide_false by (by intros []). cbn [go_bind].
      set (r1 := set_slots r (<[Z.to_nat i := Some k]> (m_vRedisSlot r))).
      destruct (IH r1) as (t & -> & Hok' & Hlen & Ht); [by apply (set_slot_ok r _ k s e ev)|done..|]. exists t. split; [done|]. split; [done|].
      split; [rewrite Hlen; cbn; apply length_insert|]. intros j o Hj. destruct (decide (j = Z.to_nat i)) as [->|Hne].
      * rewrite Hio in Hj. injection Hj as <-. rewrite (Ht _ (Some k)).
        -- rewrite bool_decide_true; [done|]. rewrite Z2Nat.id by lia. by left.
        -- cbn. apply list_lookup_insert_eq. by apply lookup_lt_Some in Hio.
      * rewrite (Ht j o) by (cbn; by rewrite list_lookup_insert_ne). destruct o as [|]; [done|]. f_equal.
        apply pick_ext. rewrite elem_of_cons. split; [by right|]. intros [<-|?]; [|done]. lia.
Qed.

(** The event [e] is that of an open connection to the server at [a]. *)
Definition served_by (r : croute) (e : nat) (a : Z) : Prop :=
  exists ev s, events r !! e = Some ev /\ ev_open ev = true /\ srvs r !! m_pServer ev = Some s /\ ulIdenty s = a.

Lemma ranges_of info : Forall (fun s => 0 <= fst s /\ snd s < CLUSTER_SLOTS) (listSlots info) ->
  Forall (fun i => 0 <= i < CLUSTER_SLOTS) (concat (map range (listSlots info))).
Proof.
  intros Hl. apply Forall_concat, Forall_fmap. eapply Forall_impl; [exact Hl|]. intros [b e] [Hb He]. cbn in *.
  apply Forall_forall. intros i Hi. unfold range in Hi. apply elem_of_seqZ in Hi. cbn in Hi. lia.
Qed.

Lemma AddRedisServer_ok r info c : route_ok r -> in_progress c ->
  Forall (fun s => 0 <= fst s /\ snd s < CLUSTER_SLOTS) (listSlots info) -> (AddRedisServer r info c = Ret (r, None, false) /\ full r) \/
  exists r' k s b, AddRedisServer r info c = Ret (r', Some k, b) /\ route_ok r' /\ zlen (m_vServers r') <= zlen (m_vServers r) + 1 /\
    srvs r' !! k = Some s /\ ulIdenty s = info_addr info /\
    (forall k' s', srvs r !! k' = Some s' -> exists s1, srvs r' !! k' = Some s1 /\ ulIdenty s1 = ulIdenty s') /\
    (if b : bool then assigned k (concat (map range (listSlots info))) (m_vRedisSlot r) (m_vRedisSlot r') else m_vRedisSlot r' = m_vRedisSlot r) /\
    (b = true -> exists e, srv_event s = Some e /\ served_by r' e (info_addr info)) /\ (b = false -> c = CNoSocket).
Proof.
  intros Hok Hc Hl. pose proof (ranges_of info Hl) as Hl'. unfold AddRedisServer.
  destruct (AddRedis_ok r (info_addr info) Hok) as [[-> Hfull]|(r1 & k & s & -> & Hok1 & Hs & Ea & Hm & Hsl & Hev & Hold & Hlen & Hcase)]; [by left|]. right. cbn [go_bind].
  destruct (srv_ok_spec r1 k s Hok1 Hs) as (b & Hb & Hiff). rewrite Hb. cbn [go_bind].
  destruct Hcase as [[-> Hk]|(Hnone & Hidx & Hvec & Hfr & Hfr')].
  - rewrite Hk in Hb. injection Hb as <-. destruct (proj1 Hiff eq_refl) as (e & ev & He & Hee & Ho). cbn [go_bind].
    destruct (assign_slots_ok k s e ev _ r Hok1 Hs He Hee Ho Hl') as (t & -> & Hok2 & Ht). cbn [go_bind].
    exists (set_slots r t), k, s, true. split_and!; try done; [intros k' s' Hk'; by exists s'|]. intros _. exists e. split; [done|].
    exists ev, s. destruct (ok_event r Hok k s e Hs He) as (ev' & Hev' & E). rewrite Hee in Hev'. injection Hev' as <-. by rewrite E.
  - assert (b = false) as ->. { apply not_true_iff_false. rewrite Hiff. intros (e & ev & He & _). congruence. }
    destruct (Connect_ok r1 k s c Hok1 Hs Hnone Hc) as (r2 & -> & Hok2 & Hs2 & He2 & Hsl2 & Hv2 & Hold2 & _); [congruence| |].
    { intros j d Hj Hd. rewrite Hvec in Hj. apply lookup_snoc_Some in Hj as [[Hj _]|[_ Hj]]; [unfold zlen in Hidx; lia|congruence]. }
    cbn [go_bind].
    assert (forall k' s', srvs r !! k' = Some s' -> srvs r2 !! k' = Some s') as Hold'.
    { intros k' s' Hk'. apply Hold2; [|by apply Hold]. intros ->. rewrite <- Hfr, (fresh_srv r Hok) in Hk'. done. }
    destruct Hc as [-> | ->].
    + rewrite bool_decide_true in He2 |- * by done.
      destruct (assign_slots_ok k _ _ _ _ r2 Hok2 Hs2 eq_refl He2 eq_refl Hl') as (t & -> & Hok3 & Ht). cbn [go_bind].
      exists (set_slots r2 t), k, (mkSrv (ulIdenty s) (ulIdx s) (Some (fresh r1))), true. rewrite Hsl2, Hsl in Ht. split_and!; try done.
      * cbn. by rewrite Hv2.
      * intros k' s' Hk'. exists s'. split; [by apply Hold'|done].
      * intros _. exists (fresh r1). split; [done|]. eexists _, _. by split_and!.
    + rewrite bool_decide_false by done. exists r2, k, (mkSrv (ulIdenty s) (ulIdx s) (Some (fresh r1))), false. split_and!; try done.
      * by rewrite Hv2.
      * intros k' s' Hk'. exists s'. split; [by apply Hold'|done].
      * congruence.
Qed.

(** *** Removing servers *)

Lemma remove_at_spec l i d : NoDup l -> l !! i = Some d ->
  NoDup (remove_at l i) /\ zlen (remove_at l i) = zlen l - 1 /\
  forall j x, remove_at l i !! j = Some x -> x <> d /\ exists j', l !! j' = Some x /\ (j <= j')%nat.
Proof.
  intros Hnd Hi. pose proof (lookup_lt_Some _ _ _ Hi) as Hlt. unfold remove_at. set (n := pred (length l)).
  assert (forall j x, take n l !! j = Some x -> l !! j = Some x /\ (j < n)%nat) as Htake by (intros j x; rewrite lookup_take_Some; tauto).
  destruct (Nat.eqb_spec i n) as [->|Hne].
  - split; [pose proof Hnd as Hnd0; rewrite <- (take_drop n l) in Hnd0; by apply NoDup_app in Hnd0 as [? _]|]. split; [unfold zlen; rewrite length_take; lia|]. intros j x Hj. apply Htake in Hj as [Hj Hjn].
    split; [|by exists j]. intros ->. pose proof (NoDup_lookup l j n d Hnd Hj Hi). lia.
  - destruct (lookup_lt_is_Some_2 l n ltac:(lia)) as [y Hy]. rewrite Hy. cbn [default from_option id].
    assert (forall j x, <[i:=y]> (take n l) !! j = Some x -> x <> d /\ exists j', l !! j' = Some x /\ (j <= j')%nat) as Hlook.
    { intros j x Hj. apply list_lookup_insert_Some in Hj as [(<- & <- & _)|[Hij Hj]].
      - split; [|exists n; split; [done|lia]]. intros ->. pose proof (NoDup_lookup l i n d Hnd Hi Hy). lia.
      - apply Htake in Hj as [Hj Hjn]. split; [|by exists j]. intros ->. pose proof (NoDup_lookup l i j d Hnd Hi Hj). lia. }
    split; [|split; [unfold zlen; rewrite length_insert, length_take; lia|done]].
    apply NoDup_alt. intros j1 j2 x H1 H2. apply list_lookup_insert_Some in H1, H2.
    destruct H1 as [(<- & <- & _)|[Hne1 H1]], H2 as [(<- & E & _)|[Hne2 H2]]; try done.
    + apply Htake in H2 as [H2 ?]. pose proof (NoDup_lookup l j2 n y Hnd H2 Hy). lia.
    + subst. apply Htake in H1 as [H1 ?]. pose proof (NoDup_lookup l j1 n x Hnd H1 Hy). lia.
    + apply Htake in H1 as [H1 _], H2 as [H2 _]. by apply (NoDup_lookup l j1 j2 x).
Qed.

Lemma find_at_spec r v idx l : forall i, (forall k, k ∈ l -> is_Some (srvs r !! k)) ->
  exists o, find_at r l i v idx = Ret o /\
  forall m, o = Some m -> exists k s, (i <= m)%nat /\ l !! (m - i)%nat = Some k /\ srvs r !! k = Some s /\ ulIdenty s = v /\ idx = Z.of_nat m.
Proof.
  induction l as [|k l IH]; intros i Hl; cbn [find_at]; [by exists None|].
  destruct (Hl k) as [s Hs]; [by left|]. unfold look. rewrite Hs. cbn [go_bind].
  destruct (negb (ulIdenty s =? 0) && (ulIdenty s =? v) && (idx =? Z.of_nat i)) eqn:E.
  - exists (Some i). split; [done|]. intros m [= <-]. exists k, s. rewrite Nat.sub_diag. split_and!; try done; lia.
  - destruct (IH (S i)) as (o & Ho & Hm); [intros k' Hk'; apply Hl; by right|]. exists o. split; [done|].
    intros m ->. destruct (Hm m eq_refl) as (k' & s' & Hle & Hk' & ?). exists k', s'. split; [lia|]. split; [|done].
    replace (m - i)%nat with (S (m - S i)) by lia. done.
Qed.

(** The state after the slots of a closing event have been cleared. *)
Definition without_slots (r : croute) (e k : nat) : croute :=
  set_slots (set_ev r e (mkEv k false false)) ((fun o => if bool_decide (o = Some k) then None else o) <$> m_vRedisSlot r).

Lemma without_slots_ok r e ev s : route_ok r -> events r !! e = Some ev -> srvs r !! m_pServer ev = Some s -> srv_event s = Some e ->
  route_ok (without_slots r e (m_pServer ev)).
Proof.
  intros Hok Hev Hs He. set (k := m_pServer ev) in *. split; try apply Hok; cbn [without_slots set_slots set_ev srvs events fresh m_mapServers m_vServers m_vRedisSlot].
  - rewrite length_fmap. apply Hok.
  - intros k' Hk'. destruct (ok_fresh r Hok k' Hk') as [? He']. split; [done|]. rewrite lookup_insert_ne; [done|]. congruence.
  - intros k' s' e' Hs' He'. destruct (ok_event r Hok k' s' e' Hs' He') as (ev' & Hev' & E). destruct (decide (e' = e)) as [->|Hne].
    + eexists. split; [apply lookup_insert_eq|]. cbn. rewrite Hev in Hev'. injection Hev' as <-. done.
    + exists ev'. split; [by rewrite lookup_insert_ne|done].
  - intros e' ev' [[<- <-]|[Hne Hev']]%lookup_insert_Some; [done|]. by apply (ok_same r Hok e').
  - intros e' ev' [[<- <-]|[Hne Hev']]%lookup_insert_Some Ho; [done|]. by apply (ok_open r Hok e').
  - intros i k' Hi. rewrite list_lookup_fmap in Hi. destruct (m_vRedisSlot r !! i) as [o|] eqn:Hio; [|done]. cbn in Hi.
    destruct (decide (o = Some k)) as [->|Hne]; [by rewrite bool_decide_true in Hi|]. rewrite bool_decide_false in Hi by done.
    injection Hi as ->. destruct (ok_slots r Hok i k' Hio) as (s' & e' & ev' & Hs' & He' & Hev' & Ho). exists s', e', ev'. split; [done|]. split; [done|].
    split; [|done]. rewrite lookup_insert_ne; [done|]. intros <-. destruct (ok_event r Hok k' s' e Hs' He') as (ev0 & Hev0 & E).
    apply Hne. unfold k. congruence.
Qed.

(** The server [k] without its event and out of the map. *)
Definition without_server (r : croute) (k : nat) (s : server) : croute :=
  mkRoute (<[k := mkSrv (ulIdenty s) (ulIdx s) None]> (srvs r)) (events r) (fresh r) (delete (ulIdenty s) (m_mapServers r)) (m_vServers r) (m_vRedisSlot r).

Lemma without_server_ok r k s : route_ok r -> srvs r !! k = Some s -> m_mapServers r !! ulIdenty s = Some k ->
  (forall e ev, events r !! e = Some ev -> ev_open ev = true -> m_pServer ev <> k) -> (forall i, m_vRedisSlot r !! i <> Some (Some k)) ->
  route_ok (without_server r k s).
Proof.
  intros Hok Hs Hm Hno Hsl.
  assert (forall k' s', srvs r !! k' = Some s' -> exists s1, srvs (without_server r k s) !! k' = Some s1 /\ ulIdenty s1 = ulIdenty s' /\ ulIdx s1 = ulIdx s') as Hold.
  { intros k' s' Hs'. cbn. destruct (decide (k' = k)) as [->|]; [|exists s'; by rewrite lookup_insert_ne].
    rewrite lookup_insert_eq. rewrite Hs in Hs'. injection Hs' as <-. by eexists. }
  assert (forall k', k' <> k -> srvs (without_server r k s) !! k' = srvs r !! k') as Hne by (intros; cbn; by rewrite lookup_insert_ne).
  split; try apply Hok.
  - intros k' Hk'. destruct (ok_fresh r Hok k' Hk'). rewrite Hne; [done|]. congruence.
  - intros i k' Hi. destruct (ok_vec r Hok i k' Hi) as (s' & Hs' & ?). destruct (Hold k' s' Hs') as (s1 & ? & ? & E). exists s1. split; [done|lia].
  - intros a k' Ha. cbn in Ha. apply lookup_delete_Some in Ha as [Hna Ha]. destruct (ok_map r Hok a k' Ha) as (s' & Hs' & E).
    destruct (Hold k' s' Hs') as (s1 & ? & E1 & _). exists s1. split; [done|congruence].
  - intros k' s' e' Hs' He'. destruct (decide (k' = k)) as [->|Hk].
    + cbn in Hs'. rewrite lookup_insert_eq in Hs'. injection Hs' as <-. done.
    + rewrite Hne in Hs' by done. by apply (ok_event r Hok k' s').
  - intros e ev Hev Ho. pose proof (Hno e ev Hev Ho) as Hk. destruct (ok_open r Hok e ev Hev Ho) as (s' & Hs' & He' & Hm' & Hpos).
    exists s'. rewrite Hne by done. split; [done|]. split; [done|]. split.
    + cbn. rewrite lookup_delete_ne; [done|]. intros E. rewrite E in Hm. congruence.
    + intros j d sd Hj Hd E Hdne. destruct (ok_vec r Hok j d Hj) as (sd0 & Hd0 & _). destruct (Hold d sd0 Hd0) as (s1 & Hs1 & E1 & _).
      rewrite Hd in Hs1. injection Hs1 as <-. apply (Hpos j d sd0); [done|done|congruence|done].
  - intros i k' Hi. change (m_vRedisSlot r !! i = Some (Some k')) in Hi. pose proof (Hsl i) as Hik. assert (k' <> k) by congruence. rewrite Hne by done. by apply (ok_slots r Hok i k').
Qed.

(** The server [k] is deleted. *)
Lemma delete_server_ok r k s i : route_ok r -> srvs r !! k = Some s -> m_vServers r !! i = Some k ->
  (forall a, m_mapServers r !! a <> Some k) -> (forall e ev, events r !! e = Some ev -> ev_open ev = true -> m_pServer ev <> k) ->
  (forall j, m_vRedisSlot r !! j <> Some (Some k)) ->
  route_ok (mkRoute (delete k (srvs r)) (events r) (fresh r) (m_mapServers r) (remove_at (m_vServers r) i) (m_vRedisSlot r)).
Proof.
  intros Hok Hs Hi Hmap Hno Hsl. destruct (remove_at_spec _ i k (ok_nodup r Hok) Hi) as (Hnd & Hlen & Hrem).
  split; try apply Hok; cbn [srvs events fresh m_mapServers m_vServers m_vRedisSlot].
  - intros k' Hk'. destruct (ok_fresh r Hok k' Hk'). split; [|done]. apply lookup_delete_None. by right.
  - intros j k' Hj. destruct (Hrem j k' Hj) as (Hne & j' & Hj' & Hle). destruct (ok_vec r Hok j' k' Hj') as (s' & Hs' & ?).
    exists s'. rewrite lookup_delete_ne by done. split; [done|lia].
  - done.
  - pose proof (ok_room r Hok). lia.
  - intros a k' Ha. destruct (ok_map r Hok a k' Ha) as (s' & Hs' & E). exists s'. rewrite lookup_delete_ne; [done|]. intros <-. by apply (Hmap a).
  - intros k' s' e' [Hne Hs']%lookup_delete_Some He'. by apply (ok_event r Hok k' s').
  - intros e ev Hev Ho. destruct (ok_open r Hok e ev Hev Ho) as (s' & Hs' & He' & Hm' & Hpos). exists s'.
    rewrite lookup_delete_ne by (symmetry; by apply (Hno e ev)). split_and!; try done.
    intros j d sd Hj [Hne Hd]%lookup_delete_Some E Hdne. destruct (Hrem j d Hj) as (_ & j' & Hj' & Hle).
    pose proof (Hpos j' d sd Hj' Hd E Hdne). lia.
  - intros j k' Hj. pose proof (Hsl j) as Hjk. destruct (ok_slots r Hok j k' Hj) as (s' & e' & ev' & Hs' & ?). exists s', e', ev'.
    rewrite lookup_delete_ne; [done|]. congruence.
Qed.

Lemma event_Close_ok r e ev : route_ok r -> events r !! e = Some ev ->
  exists r', event_Close r e = Ret r' /\ route_ok r' /\ zlen (m_vServers r') <= zlen (m_vServers r).
Proof.
  intros Hok Hev. unfold event_Close, look at 1. rewrite Hev. cbn [go_bind]. destruct (ev_open ev) eqn:Ho; cbn [negb]; [|by exists r].
  destruct (ok_open r Hok e ev Hev Ho) as (s & Hs & He & Hm & Hpos). set (k := m_pServer ev) in *.
  pose proof (without_slots_ok r e ev s Hok Hev Hs He) as Hok2. fold k in Hok2. set (r2 := without_slots r e k) in *.
  assert (forall e' ev', events r2 !! e' = Some ev' -> ev_open ev' = true -> m_pServer ev' <> k) as Hno.
  { intros e' ev' Hev' Ho' E. cbn in Hev'. apply lookup_insert_Some in Hev' as [[<- <-]|[Hne Hev']]; [done|].
    destruct (ok_open r Hok e' ev' Hev' Ho') as (s' & Hs' & He' & _). rewrite E, Hs in Hs'. injection Hs' as <-. congruence. }
  assert (forall j, m_vRedisSlot r2 !! j <> Some (Some k)) as Hsl.
  { intros j Hj. cbn in Hj. rewrite list_lookup_fmap in Hj. destruct (m_vRedisSlot r !! j) as [o|]; [|done]. cbn in Hj.
    destruct (decide (o = Some k)) as [->|]; [by rewrite bool_decide_true in Hj|]. rewrite bool_decide_false in Hj by done. congruence. }
  unfold DelRedis, look at 1. cbn [events set_ev]. rewrite lookup_insert_eq. cbn [go_bind m_pServer]. change (set_slots _ _) with r2.
  assert (events r2 !! e = Some (mkEv k false false)) as Hev2 by apply lookup_insert_eq. assert (srvs r2 !! k = Some s) as Hs2 by done.
  unfold DelRedis_base, look at 1. rewrite Hev2. cbn [go_bind m_pServer]. unfold look at 1. rewrite Hs2. cbn [go_bind]. change (m_vServers r2) with (m_vServers r).
  destruct (Z.leb_spec (zlen (m_vServers r)) (ulIdx s)) as [Hge|Hlt]; [by exists r2|].
  change (m_mapServers r2) with (m_mapServers r). rewrite Hm. unfold look at 1. rewrite Hs2. cbn [go_bind]. rewrite Z.eqb_refl.
  pose proof (without_server_ok r2 k s Hok2 Hs Hm Hno Hsl) as Hok3. set (r3 := without_server r2 k s) in *.
  change (mkRoute _ _ _ (delete _ _) _ _) with r3. change (m_vServers r3) with (m_vServers r).
  destruct (find_at_spec r3 (ulIdenty s) (ulIdx s) (m_vServers r) 0) as (o & -> & Hm').
  { intros k' (i & Hi)%list_elem_of_lookup. destruct (ok_vec r3 Hok3 i k' Hi) as (s' & ? & _). by exists s'. }
  cbn [go_bind]. destruct o as [i|]; [|by exists r3]. destruct (Hm' i eq_refl) as (d & sd & _ & Hd & Hsd & Ed & Eidx). rewrite Nat.sub_0_r in Hd. rewrite Hd.
  assert (d = k) as ->.
  { destruct (decide (d = k)) as [|Hne]; [done|]. exfalso. assert (srvs r !! d = Some sd) as Hsd0 by (revert Hsd; cbn; by rewrite lookup_insert_ne).
    pose proof (Hpos i d sd Hd Hsd0 Ed Hne). lia. }
  eexists. split; [done|]. split.
  - apply (delete_server_ok r3 k sd i); [done..| |exact Hno|exact Hsl]. intros a Ha. cbn in Ha. apply lookup_delete_Some in Ha as [Hna Ha].
    destruct (ok_map r Hok a k Ha) as (s' & Hs' & E). congruence.
  - cbn. destruct (remove_at_spec _ i k (ok_nodup r Hok) Hd) as (_ & -> & _). lia.
Qed.

(** ** What a table answers *)

Lemma Route_ok r key : route_ok r ->
  exists o err, cluster_Route r key = Ret (o, err) /\ forall e, o = Some e -> exists ev, events r !! e = Some ev /\ ev_open ev = true.
Proof.
  intros Hok. unfold cluster_Route. case_match; [by exists None, true|].
  destruct (m_vRedisSlot r !! _) as [[k|]|] eqn:Hi.
  - destruct (ok_slots r Hok _ k Hi) as (s & e & ev & Hs & He & Hev & Ho). unfold look. rewrite Hs. cbn [go_bind]. rewrite He.
    exists (Some e), false. split; [done|]. intros e' [= <-]. by exists ev.
  - by exists None, false.
  - exfalso. apply lookup_ge_None in Hi. rewrite (ok_len r Hok) in Hi. pose proof (key_slot_range key). lia.
Qed.

Lemma ready_spec r : route_ok r -> ReadyCheck r = Ret (forallb (fun o => bool_decide (o <> None)) (m_vRedisSlot r)).
Proof.
  intros Hok. unfold ReadyCheck. pose proof (slot_taken r) as Ht. assert (forall o, o ∈ m_vRedisSlot r -> slot_ready r o = Ret (bool_decide (o <> None))) as Hall.
  { intros o (i & Hi)%list_elem_of_lookup. by apply (Ht i). }
  clear Ht. induction (m_vRedisSlot r) as [|o l IH]; [done|]. cbn [all_ready forallb]. rewrite Hall by (by left). cbn [go_bind].
  destruct (bool_decide (o <> None)); [|done]. apply IH. intros o' Ho'. apply Hall. by right.
Qed.

Lemma slot_lookup r key : route_ok r -> exists o, m_vRedisSlot r !! Z.to_nat (cluster_KeyHashSlot key) = Some o.
Proof.
  intros Hok. apply lookup_lt_is_Some_2. rewrite (ok_len r Hok). pose proof (key_slot_range key). lia.
Qed.

(** The key is "cluster", in letters of either case. *)
Definition cluster_word (key : list Z) : Prop := Forall2 (fun x c => x = c \/ x = c - 32) key (str "cluster").

Lemma not_cluster key : ~ cluster_word key -> (zlen key =? 7) && icmp (fun a => default 0 (key !! Z.to_nat a)) 0 (str "cluster") = false.
Proof.
  intros Hk. apply not_true_iff_false. intros [H7%Z.eqb_eq H]%andb_true_iff. apply Hk.
  destruct key as [|a [|b [|c [|d [|e [|f [|g [|? key]]]]]]]]; unfold zlen in H7; cbn [length] in H7; try lia.
  change (icmp _ 0 _) with (((a =? 99) || (a =? 67)) && (((b =? 108) || (b =? 76)) && (((c =? 117) || (c =? 85)) && (((d =? 115) || (d =? 83)) &&
    (((e =? 116) || (e =? 84)) && (((f =? 101) || (f =? 69)) && (((g =? 114) || (g =? 82)) && true))))))) in H.
  unfold cluster_word. change (str "cluster") with [99; 108; 117; 115; 116; 101; 114].
  repeat first [apply Forall2_nil_2 | apply Forall2_cons; split; [lia|]].
Qed.

Lemma ready_Route r key : route_ok r -> ReadyCheck r = Ret true -> ~ cluster_word key ->
  exists e ev, cluster_Route r key = Ret (Some e, false) /\ events r !! e = Some ev /\ ev_open ev = true.
Proof.
  intros Hok Hready Hkey. rewrite ready_spec in Hready by done. injection Hready as Hready. rewrite forallb_forall in Hready.
  destruct (slot_lookup r key Hok) as [o Hi]. specialize (Hready o). rewrite bool_decide_eq_true in Hready.
  unfold cluster_Route. rewrite not_cluster, Hi by done. destruct o as [k|].
  - destruct (ok_slots r Hok _ k Hi) as (s & e & ev & Hs & He & Hev & Ho). unfold look. rewrite Hs. cbn [go_bind]. rewrite He. by exists e, ev.
  - exfalso. apply Hready; [|done]. apply list_elem_of_In. apply list_elem_of_lookup. eauto.
Qed.

(** ** Every run *)

(** The table from the start: nodes are added, with a connection on its way or
    no socket for it (see [connected_at_once] and [refused_at_once] for the
    others); connections close; a redirected request has been answered by a
    server that is connected. *)
Inductive reachable : croute -> Prop :=
| reach_new : reachable new_route
| reach_add r info c r' o b : reachable r -> in_progress c ->
    Forall (fun s => 0 <= fst s /\ snd s < CLUSTER_SLOTS) (listSlots info) ->
    AddRedisServer r info c = Ret (r', o, b) -> reachable r'
| reach_close r e r' : reachable r -> event_Close r e = Ret r' -> reachable r'
| reach_slot r a i e ev r' : reachable r -> events r !! e = Some ev -> ev_open ev = true -> SlotChanged r a i e = Ret r' -> reachable r'.

Lemma SlotChanged_ok r a i e ev : route_ok r -> events r !! e = Some ev -> ev_open ev = true -> 0 <= i < CLUSTER_SLOTS ->
  exists r', SlotChanged r a i e = Ret r' /\ route_ok r'.
Proof.
  intros Hok Hev Ho Hi. unfold SlotChanged. case_match; [by exists r|]. unfold look. rewrite Hev. cbn [go_bind].
  replace ((0 <=? i) && (i <? CLUSTER_SLOTS)) with true by lia. eexists. split; [done|].
  destruct (ok_open r Hok e ev Hev Ho) as (s & Hs & He & _). by apply (set_slot_ok r _ _ s e ev).
Qed.

Lemma reachable_ok r : reachable r -> route_ok r.
Proof.
  induction 1 as [|r info c r' o b Hr IH Hc Hl E|r e r' Hr IH E|r a i e ev r' Hr IH Hev Ho E].
  - apply new_route_ok.
  - destruct (AddRedisServer_ok r info c IH Hc Hl) as [[E1 _]|(r1 & k & s & b1 & E1 & Hok & _)]; congruence.
  - destruct (events r !! e) as [ev|] eqn:Hev.
    + destruct (event_Close_ok r e ev IH Hev) as (r1 & E1 & Hok & _). congruence.
    + unfold event_Close, look in E. by rewrite Hev in E.
  - destruct (decide (0 <= i < CLUSTER_SLOTS)) as [Hi|Hi].
    + destruct (SlotChanged_ok r a i e ev IH Hev Ho Hi) as (r1 & E1 & Hok). congruence.
    + unfold SlotChanged, look in E. rewrite Hev in E. cbn [go_bind] in E. case_match; [by injection E as <-|].
      replace ((0 <=? i) && (i <? CLUSTER_SLOTS)) with false in E by lia. done.
Qed.

(** C5: Whatever nodes were added, connections lost and slots moved, when every
    [connect] was under way or no socket could be had: no server that has been
    deleted is used.  Adding a node goes through, and gives a server at its
    address unless there are 1023 already; it is connected unless no socket
    could be had.  Closing any connection goes through, and so does moving a
    slot to a connected server.  [Route] gives null or the event of an open
    connection, and when [ReadyCheck] says so it gives one for every key but
    "cluster". *)
Theorem cluster_table_sound (r : croute) (Hr : reachable r) :
  (forall info c, in_progress c -> Forall (fun s => 0 <= fst s /\ snd s < CLUSTER_SLOTS) (listSlots info) ->
     exists r' o b, AddRedisServer r info c = Ret (r', o, b) /\ reachable r' /\
       match o with
       | None => r' = r /\ full r
       | Some k => exists s, srvs r' !! k = Some s /\ ulIdenty s = info_addr info /\
           if b : bool then exists e, srv_event s = Some e /\ served_by r' e (info_addr info) else c = CNoSocket
       end) /\
  (forall e ev, events r !! e = Some ev -> exists r', event_Close r e = Ret r' /\ reachable r' /\ zlen (m_vServers r') <= zlen (m_vServers r)) /\
  (forall a i e ev, events r !! e = Some ev -> ev_open ev = true -> 0 <= i < CLUSTER_SLOTS -> exists r', SlotChanged r a i e = Ret r' /\ reachable r') /\
  (forall key, exists o err, cluster_Route r key = Ret (o, err) /\ forall e, o = Some e -> exists ev, events r !! e = Some ev /\ ev_open ev = true) /\
  (ReadyCheck r = Ret true -> forall key, ~ cluster_word key -> exists e ev, cluster_Route r key = Ret (Some e, false) /\ events r !! e = Some ev /\ ev_open ev = true).
Proof.
  pose proof (reachable_ok r Hr) as Hok. split; [|split; [|split; [|split]]].
  - intros info c Hc Hl. destruct (AddRedisServer_ok r info c Hok Hc Hl) as [[E Hfull]|(r' & k & s & b & E & _ & _ & Hs & Ea & _ & _ & Hb & Hb')].
    + exists r, None, false. by split_and!.
    + exists r', (Some k), b. split; [done|]. split; [by eapply reach_add|]. exists s. split; [done|]. split; [done|]. destruct b; auto.
  - intros e ev Hev. destruct (event_Close_ok r e ev Hok Hev) as (r' & E & _ & Hlen). exists r'. split; [done|]. split; [by eapply reach_close|done].
  - intros a i e ev Hev Ho Hi. destruct (SlotChanged_ok r a i e ev Hok Hev Ho Hi) as (r' & E & _). exists r'. split; [done|]. by eapply reach_slot.
  - intros key. by apply Route_ok.
  - intros Hready key Hkey. by apply ready_Route.
Qed.

Lemma one_node_reachable : exists r, AddRedisServer new_route (mkCluster 7 [(0, 1)]) CStarted = Ret (r, Some 0%nat, true) /\ reachable r /\ zlen (m_vServers r) = 1.
Proof.
  eexists. split; [reflexivity|]. split; [|reflexivity].
  refine (reach_add new_route (mkCluster 7 [(0, 1)]) CStarted _ (Some 0%nat) true reach_new (or_introl eq_refl) _ eq_refl). by repeat constructor.
Defined.

Lemma cluster_table_sound_witness :
  exists r, zlen (m_vServers r) = 1 /\ exists r' o b, AddRedisServer r (mkCluster 9 [(1, 2)]) CStarted = Ret (r', o, b) /\ reachable r'.
Proof.
  destruct one_node_reachable as (r & _ & Hr & Hlen). exists r. split; [exact Hlen|].
  destruct (proj1 (cluster_table_sound r Hr) (mkCluster 9 [(1, 2)]) CStarted) as (r' & o & b & E & Hr' & _); [by left|by repeat constructor|].
  exists r', o, b. by split.
Defined.

(** A connect that is refused at once deletes the server, which is then used. *)
Example refused_at_once : AddRedisServer new_route (mkCluster 7 [(0, 16383)]) CRefused = Panic.
Proof. reflexivity. Qed.

(** A connect that succeeds at once leaves the status as it is, so the server at
    7 counts as not connected and is added three times.  When the second of them,
    which has taken the place of the first, loses its connection, the third is
    deleted in its stead; its slots keep it, and a request that comes for one of
    them uses the deleted server. *)
Definition three_times : go croute :=
  let! (r, _, _) := AddRedisServer new_route (mkCluster 7 [(3300, 3300)]) CNow in
  let! (r, _, _) := AddRedisServer r (mkCluster 8 [(3301, 3301)]) CStarted in
  let! (r, _, _) := AddRedisServer r (mkCluster 7 [(3300, 3300)]) CNow in
  let! r := event_Close r 1 in
  let! (r, _, _) := AddRedisServer r (mkCluster 7 [(3300, 3300)]) CStarted in
  event_Close r 5.

Example connected_at_once : match three_times with Ret r => cluster_Route r (str "b") = Panic | Panic => False end.
Proof. vm_compute. done. Qed.

(** ** Adding the nodes of a cluster *)

(** The nodes one after the other, each with a connection on its way. *)
Fixpoint add_servers (l : list ClusterInfo) (r : croute) : go croute :=
  match l with
  | [] => Ret r
  | info :: l => let! (r, _, _) := AddRedisServer r info CStarted in add_servers l r
  end.

(** A node has the slot [i]. *)
Definition covers (i : Z) (info : ClusterInfo) : bool := existsb (fun s => (fst s <=? i) && (i <=? snd s)) (listSlots info).

Lemma covers_elem i info : i ∈ concat (map range (listSlots info)) <-> covers i info = true.
Proof.
  unfold covers. rewrite list_elem_of_In, in_concat, existsb_exists. setoid_rewrite in_map_iff. split.
  - intros (l & ([b e] & <- & Hs) & Hi). exists (b, e). split; [done|]. apply list_elem_of_In, elem_of_seqZ in Hi. cbn in *. lia.
  - intros ([b e] & Hs & Hi). exists (range (b, e)). split; [by exists (b, e)|]. apply list_elem_of_In, elem_of_seqZ. cbn in *. lia.
Qed.

(** The server a slot had, or one with the address of the first of the nodes
    that has the slot. *)
Definition owner (l : list ClusterInfo) (r r' : croute) (i : nat) : Prop :=
  match m_vRedisSlot r !! i with
  | None => False
  | Some (Some k) => m_vRedisSlot r' !! i = Some (Some k)
  | Some None =>
      match List.find (covers (Z.of_nat i)) l with
      | None => m_vRedisSlot r' !! i = Some None
      | Some info => exists k s, m_vRedisSlot r' !! i = Some (Some k) /\ srvs r' !! k = Some s /\ ulIdenty s = info_addr info
      end
  end.

Lemma add_servers_ok l : forall r, route_ok r -> zlen (m_vServers r) + zlen l < MAX_REDIS_GROUP ->
  Forall (fun info => Forall (fun s => 0 <= fst s /\ snd s < CLUSTER_SLOTS) (listSlots info)) l ->
  exists r', add_servers l r = Ret r' /\ route_ok r' /\
    (forall k s, srvs r !! k = Some s -> exists s1, srvs r' !! k = Some s1 /\ ulIdenty s1 = ulIdenty s) /\
    forall i, (i < Z.to_nat CLUSTER_SLOTS)%nat -> owner l r r' i.
Proof.
  induction l as [|info l IH]; intros r Hok Hlen Hl; cbn [add_servers].
  - exists r. split; [done|]. split; [done|]. split; [intros k s ?; by exists s|]. intros i Hi. unfold owner.
    destruct (lookup_lt_is_Some_2 (m_vRedisSlot r) i) as [o Ho]; [by rewrite (ok_len r Hok)|]. rewrite Ho. by destruct o.
  - inversion_clear Hl as [|?? Hi Hl']. rewrite zlen_cons in Hlen. pose proof (zlen_nonneg l).
    destruct (AddRedisServer_ok r info CStarted Hok) as [[_ Hfull]|(r1 & k & s & b & -> & Hok1 & Hlen1 & Hs & Ea & Hold & Has & _ & Hb)]; [by left|done|unfold full in Hfull; lia|].
    destruct b; [|by discriminate Hb]. cbn [go_bind].
    destruct (IH r1) as (r' & -> & Hok' & Hold' & How); [done|lia|done|]. exists r'. split; [done|]. split; [done|]. split.
    + intros k' s' Hk'. destruct (Hold k' s' Hk') as (s1 & Hs1 & <-). by apply Hold'.
    + intros i Hlt. specialize (How i Hlt). unfold owner in *.
      destruct (lookup_lt_is_Some_2 (m_vRedisSlot r) i) as [o Ho]; [by rewrite (ok_len r Hok)|]. rewrite Ho.
      destruct Has as [_ Has]. rewrite (Has i o Ho) in How. destruct o as [k'|]; [done|]. cbn [List.find].
      destruct (covers (Z.of_nat i) info) eqn:Ec.
      * rewrite bool_decide_true in How by (by apply covers_elem). destruct (Hold' k s Hs) as (s1 & Hs1 & E1). exists k, s1. split; [done|]. split; [done|congruence].
      * rewrite bool_decide_false in How; [done|]. rewrite covers_elem. by rewrite Ec.
Qed.

Lemma add_servers_reachable l : forall r r', reachable r -> zlen (m_vServers r) + zlen l < MAX_REDIS_GROUP ->
  Forall (fun info => Forall (fun s => 0 <= fst s /\ snd s < CLUSTER_SLOTS) (listSlots info)) l -> add_servers l r = Ret r' -> reachable r'.
Proof.
  induction l as [|info l IH]; intros r r' Hr Hlen Hl E; cbn [add_servers] in E; [by injection E as <-|].
  inversion_clear Hl as [|?? Hi Hl']. rewrite zlen_cons in Hlen. pose proof (zlen_nonneg l).
  destruct (AddRedisServer_ok r info CStarted (reachable_ok r Hr) (or_introl eq_refl) Hi) as [[_ Hfull]|(r1 & k & s & b & E1 & _ & Hlen1 & _)]; [unfold full in Hfull; lia|].
  rewrite E1 in E. cbn [go_bind] in E. apply (IH r1); [|lia|done|done]. by apply (reach_add r info CStarted r1 (Some k) b Hr (or_introl eq_refl) Hi).
Qed.

(** ** Where requests go *)

Lemma proxy_slot key part : Forall is_byte key -> hashed key part -> cluster_KeyHashSlot key = crc_xmodem part mod 16384.
Proof.
  intros Hkey Hpart. pose proof (same_slot key Hkey) as E. rewrite <- land_slot. destruct Hpart as [pre tag post Hpre Htag Hne|key Hno].
  - apply Forall_app in Hkey as [_ Hkey]. apply Forall_cons in Hkey as [_ Hkey]. apply Forall_app in Hkey as [Ht Hkey]. apply Forall_cons in Hkey as [_ Hp].
    rewrite slot_of_tag in E by done. by injection E.
  - rewrite slot_of_whole in E by done. by injection E.
Qed.

Lemma slot_served r key k s : route_ok r -> ~ cluster_word key -> m_vRedisSlot r !! Z.to_nat (cluster_KeyHashSlot key) = Some (Some k) -> srvs r !! k = Some s ->
  exists e, cluster_Route r key = Ret (Some e, false) /\ served_by r e (ulIdenty s).
Proof.
  intros Hok Hkey Hi Hs. destruct (ok_slots r Hok _ k Hi) as (s' & e & ev & Hs' & He & Hev & Ho). rewrite Hs in Hs'. injection Hs' as <-.
  unfold cluster_Route. rewrite not_cluster, Hi by done. unfold look. rewrite Hs. cbn [go_bind]. rewrite He. exists e. split; [done|]. exists ev, s.
  destruct (ok_event r Hok k s e Hs He) as (ev' & Hev' & E). rewrite Hev in Hev'. injection Hev' as <-. by rewrite E.
Qed.

Lemma slot_null r key : ~ cluster_word key -> m_vRedisSlot r !! Z.to_nat (cluster_KeyHashSlot key) = Some None -> cluster_Route r key = Ret (None, false).
Proof. intros Hkey Hi. unfold cluster_Route. by rewrite not_cluster, Hi. Qed.

(** The answers of a table to which nodes have been added. *)
Definition answers (l : list ClusterInfo) (r r' : croute) (key : list Z) (slot : Z) : Prop :=
  (forall e a, cluster_Route r key = Ret (Some e, false) -> served_by r e a -> exists e', cluster_Route r' key = Ret (Some e', false) /\ served_by r' e' a) /\
  (cluster_Route r key = Ret (None, false) ->
   match List.find (covers slot) l with
   | None => cluster_Route r' key = Ret (None, false)
   | Some info => exists e', cluster_Route r' key = Ret (Some e', false) /\ served_by r' e' (info_addr info)
   end).

Lemma owner_answers l r r' key : route_ok r -> route_ok r' -> ~ cluster_word key ->
  (forall k s, srvs r !! k = Some s -> exists s1, srvs r' !! k = Some s1 /\ ulIdenty s1 = ulIdenty s) ->
  owner l r r' (Z.to_nat (cluster_KeyHashSlot key)) -> answers l r r' key (cluster_KeyHashSlot key).
Proof.
  intros Hok Hok' Hkey Hold How. pose proof (key_slot_range key) as Hrange. unfold owner in How. rewrite Z2Nat.id in How by lia.
  destruct (slot_lookup r key Hok) as [[k|] Hi]; rewrite Hi in How.
  - destruct (ok_slots r Hok _ k Hi) as (s & e0 & ev0 & Hs & _). destruct (slot_served r key k s Hok Hkey Hi Hs) as (e & E & Hsv).
    destruct (Hold k s Hs) as (s1 & Hs1 & Es1). destruct (slot_served r' key k s1 Hok' Hkey How Hs1) as (e' & E' & Hsv'). split; [|congruence].
    intros e1 a E1 Ha. rewrite E in E1. injection E1 as <-. exists e'. split; [done|]. rewrite Es1 in Hsv'.
    assert (a = ulIdenty s) as ->; [|done].
    destruct Hsv as (ev & s2 & Hev & _ & Hs2 & Ea2), Ha as (ev' & s3 & Hev' & _ & Hs3 & Ea3). congruence.
  - unfold answers. rewrite (slot_null r key Hkey Hi). split; [congruence|]. intros _. destruct (List.find _ l) as [info|]; [|by apply slot_null].
    destruct How as (k & s & Hk & Hs & Ea). rewrite <- Ea. by apply (slot_served r' key k s).
Qed.

(** Every slot has a server. *)
Lemma owner_ready l r r' : route_ok r -> route_ok r' -> (forall i, (i < Z.to_nat CLUSTER_SLOTS)%nat -> owner l r r' i) ->
  exists b, ReadyCheck r' = Ret b /\
    (b = true <-> forall i, 0 <= i < CLUSTER_SLOTS -> (exists k, m_vRedisSlot r !! Z.to_nat i = Some (Some k)) \/ existsb (covers i) l = true).
Proof.
  intros Hok Hok' How. rewrite ready_spec by done. eexists. split; [done|]. rewrite forallb_forall.
  assert (forall i, 0 <= i < CLUSTER_SLOTS -> (exists k, m_vRedisSlot r' !! Z.to_nat i = Some (Some k)) <->
            (exists k, m_vRedisSlot r !! Z.to_nat i = Some (Some k)) \/ existsb (covers i) l = true) as Hslot.
  { intros i Hi. specialize (How (Z.to_nat i) ltac:(lia)). unfold owner in How. rewrite Z2Nat.id in How by lia.
    destruct (m_vRedisSlot r !! Z.to_nat i) as [[k|]|]; [| |done].
    - split; [intros _; left; by exists k|by exists k].
    - destruct (List.find (covers i) l) as [info|] eqn:Ef.
      + destruct How as (k & s & Hk & _). apply find_some in Ef as [Hin Hc]. split; [|by exists k]. intros _. right. apply existsb_exists. eauto.
      + rewrite How. split; [by intros (k & ?)|]. intros [[k ?]|He]; [done|]. apply existsb_exists in He as (x & Hx & Hc). by rewrite (find_none _ _ Ef x Hx) in Hc. }
  split.
  - intros Hall i Hi. apply Hslot; [done|]. destruct (lookup_lt_is_Some_2 (m_vRedisSlot r') (Z.to_nat i)) as [o Ho]; [rewrite (ok_len r' Hok'); lia|].
    specialize (Hall o). rewrite bool_decide_eq_true in Hall. destruct o as [k|]; [by exists k|]. exfalso. apply Hall; [|done]. apply list_elem_of_In, list_elem_of_lookup. eauto.
  - intros Hall o Ho. apply bool_decide_eq_true. apply list_elem_of_In, list_elem_of_lookup in Ho as [i Hi]. pose proof (lookup_lt_Some _ _ _ Hi) as Hlt.
    rewrite (ok_len r' Hok') in Hlt. destruct (proj2 (Hslot (Z.of_nat i) ltac:(lia)) (Hall (Z.of_nat i) ltac:(lia))) as [k Hk]. rewrite Nat2Z.id in Hk. congruence.
Qed.
