(* ===== verification/Clusternodes.v ===== *)
(** * native/gr_clusterroute.cpp: reading the nodes of a cluster

    The answer to CLUSTER NODES is cut into lines and fields inside the buffer
    it was read into: [GR_SplitLine] gives pointers and lengths, and
    [GetClusterInfo] writes NUL bytes over the separators and reads the pieces
    as C strings.  The buffer is a list of bytes and a pointer an offset into
    it; an access outside of the buffer, a C string without its NUL, [atoi] of
    a number that is not an [int] (undefined in C) and a failed [ASSERT] are
    [Panic].  [inet_aton] is a parameter. *)

From S2P Require Import Prelude Gostrings Resp Crc16 Hashes Redismsg Clusterroute.

(** ** The C library *)

(** The C string a list of bytes starts with. *)
Fixpoint cstr (l : list Z) : go (list Z) :=
  match l with
  | [] => Panic
  | b :: l => if b =? 0 then Ret [] else let! s := cstr l in Ret (b :: s)
  end.

Fixpoint strchr (s : list Z) (c : Z) : option nat :=
  match s with
  | [] => None
  | b :: s => if b =? c then Some 0%nat else S <$> strchr s c
  end.

Fixpoint strrchr (s : list Z) (c : Z) : option nat :=
  match s with
  | [] => None
  | b :: s => match strrchr s c with Some i => Some (S i) | None => if b =? c then Some 0%nat else None end
  end.

Definition tolower (b : Z) : Z := if (65 <=? b) && (b <=? 90) then b + 32 else b.

(** [!strcasecmp(s, w)] *)
Definition same_case (s w : list Z) : bool := bool_decide (map tolower s = map tolower w).

Definition isspace (b : Z) : bool := (b =? 32) || ((9 <=? b) && (b <=? 13)).

Fixpoint skip_space (s : list Z) : list Z :=
  match s with b :: s' => if isspace b then skip_space s' else s | [] => [] end.

Fixpoint digits_value (s : list Z) (acc : Z) : Z :=
  match s with
  | b :: s => if (48 <=? b) && (b <=? 57) then digits_value s (10 * acc + (b - 48)) else acc
  | [] => acc
  end.

Definition atoi (s : list Z) : go Z :=
  let v := match skip_space s with
           | 45 :: s => - digits_value s 0
           | 43 :: s => digits_value s 0
           | s => digits_value s 0
           end in
  if (- 2 ^ 31 <=? v) && (v <? 2 ^ 31) then Ret v else Panic.

(** ** The buffer *)

Definition put (buf : list Z) (i : nat) (b : Z) : go (list Z) :=
  if bool_decide (i < length buf)%nat then Ret (<[i := b]> buf) else Panic.

Definition cstr_at (buf : list Z) (p : nat) : go (list Z) := cstr (drop p buf).

Record GR_String := mkStr { szChar : nat; iLen : nat }.

(** The loop of [GR_SplitLine] over the bytes at [i]; a separator that is the
    last byte does not start a new piece. *)
Fixpoint split_loop (l : list Z) (dot : Z) (i : nat) (tmpRet : GR_String) : list GR_String :=
  match l with
  | [] => if (iLen tmpRet =? 0)%nat then [] else [tmpRet]
  | c :: l =>
      if c =? dot then tmpRet :: split_loop l dot (S i) (match l with [] => tmpRet | _ => mkStr (S i) 0 end)
      else split_loop l dot (S i) (mkStr (szChar tmpRet) (S (iLen tmpRet)))
  end.

Definition GR_SplitLine (buf : list Z) (szSrc iSrcLen : nat) (dot : Z) : go (list GR_String) :=
  if (iSrcLen =? 0)%nat then Ret []
  else if bool_decide (szSrc + iSrcLen <= length buf)%nat
  then Ret (split_loop (take iSrcLen (drop szSrc buf)) dot szSrc (mkStr szSrc 0)) else Panic.

Definition elem (v : list GR_String) (i : nat) : go GR_String := match v !! i with Some s => Ret s | None => Panic end.

(** The NUL after a piece. *)
Definition terminate (buf : list Z) (s : GR_String) : go (list Z) := put buf (szChar s + iLen s) 0.

(** ** GetClusterInfo *)

Record node_info := mkInfo { szIP : option nat; usPort : Z; iFlags : Z; info_slots : list (Z * Z) }.

Definition CLUSTER_NODE_MASTER : Z := 1.
Definition CLUSTER_NODE_MYSELF : Z := 16.

(** [info.szIP] and [info.usPort], or null. *)
Definition read_addr (buf : list Z) (d : GR_String) : go (list Z * option (nat * Z)) :=
  let! buf := terminate buf d in
  let! s := cstr_at buf (szChar d) in
  match strrchr s 58 with
  | None => Ret (buf, None)
  | Some i =>
      let! buf := put buf (szChar d + i) 0 in
      let port := (szChar d + i + 1)%nat in
      let! t := cstr_at buf port in
      let! buf := match strchr t 64 with Some j => put buf (port + j) 0 | None => Ret buf end in
      let! t := cstr_at buf port in
      let! v := atoi t in
      Ret (buf, Some (szChar d, u16 v))
  end.

(** The flags: [inl] when the function returns inside the loop, with [iResult];
    [inr] with the flags and [iResult] after it. *)
Fixpoint read_flags (fuel : nat) (buf : list Z) (s : nat) (flags : Z) (iResult : bool) : go (list Z * (bool + Z * bool)) :=
  match fuel with
  | O => Panic
  | S fuel =>
      let! t := cstr_at buf s in
      let p := strchr t 44 in
      let! buf := match p with Some i => put buf (s + i) 0 | None => Ret buf end in
      let! t := cstr_at buf s in
      let next flags iResult :=
        match p with Some i => read_flags fuel buf (s + i + 1) flags iResult | None => Ret (buf, inr (flags, iResult)) end in
      if same_case t (str "myself") then next (Z.lor flags CLUSTER_NODE_MYSELF) iResult
      else if same_case t (str "master") then next (Z.lor flags CLUSTER_NODE_MASTER) iResult
      else if same_case t (str "slave") then Ret (buf, inl iResult)
      else if same_case t (str "fail?") then Ret (buf, inl iResult)
      else if same_case t (str "fail") then Ret (buf, inl iResult)
      else if same_case t (str "handshake") then Ret (buf, inl iResult)
      else if same_case t (str "noaddr") then Ret (buf, inl iResult)
      else if same_case t (str "nofailover") then Ret (buf, inl iResult)
      else if same_case t (str "noflags") then next flags iResult
      else next flags false
  end.

(** The slots of a field. *)
Definition read_slot (buf : list Z) (d : GR_String) : go (list Z * (Z * Z)) :=
  let! buf := terminate buf d in
  let! v := GR_SplitLine buf (szChar d) (iLen d) 45 in
  let! s0 := elem v 0 in
  let! buf := terminate buf s0 in
  let! t := cstr_at buf (szChar s0) in
  let! b := atoi t in
  if (length v =? 2)%nat then
    let! s1 := elem v 1 in
    let! buf := terminate buf s1 in
    let! t := cstr_at buf (szChar s1) in
    let! e := atoi t in Ret (buf, (b, e))
  else Ret (buf, (b, b)).

Fixpoint read_slots (buf : list Z) (v : list GR_String) : go (list Z * list (Z * Z)) :=
  match v with
  | [] => Ret (buf, [])
  | d :: v =>
      match buf !! szChar d with
      | None => Panic
      | Some c =>
          if c =? 91 then read_slots buf v
          else
            let! (buf, s) := read_slot buf d in
            let! (buf, l) := read_slots buf v in Ret (buf, s :: l)
      end
  end.

(** With whether [iResult] is [GR_OK]. *)
Definition GetClusterInfo (buf : list Z) (vNodeData : list GR_String) : go (list Z * node_info * bool) :=
  let! d1 := elem vNodeData 1 in
  let! (buf, a) := read_addr buf d1 in
  match a with
  | None => Ret (buf, mkInfo None 0 0 [], false)
  | Some (ip, port) =>
      let! d2 := elem vNodeData 2 in
      let! buf := terminate buf d2 in
      let! (buf, f) := read_flags (S (length buf)) buf (szChar d2) 0 true in
      match f with
      | inl iResult => Ret (buf, mkInfo (Some ip) port 0 [], iResult)
      | inr (flags, iResult) =>
          let! (buf, l) := read_slots buf (drop 8 vNodeData) in
          Ret (buf, mkInfo (Some ip) port flags l, iResult)
      end
  end.

(** ** ParseClusterNodes *)

(** What is left to do when the nodes have been added. *)
Inductive nodes_end := NExit | NRetry | NListen | NReady.

(** [m_uiReConnectTimes], a [uint32] that starts at 0. *)
Definition nodes_finish (bReady : bool) (times : Z) : nodes_end * Z :=
  if bReady then
    let times := u32 (times + 1) in
    let times := if 1024 <? times then 2 else times in
    (if times =? 1 then NListen else NReady, times)
  else (if times =? 0 then NExit else NRetry, times).

Section parse.

Variable inet_aton : list Z -> option Z.

(** With [AddRedis], which goes on when the address is not one. *)
Definition AddrToLong (ip : list Z) (port : Z) : Z :=
  match inet_aton ip with
  | None => 0
  | Some a => u64 (Z.lor (Z.shiftl a 32) port)
  end.

(** What [AddRedisServer] is given. *)
Definition server_info (buf : list Z) (info : node_info) : go ClusterInfo :=
  match szIP info with
  | None => Panic
  | Some p => let! ip := cstr_at buf p in Ret (mkCluster (AddrToLong ip (usPort info)) (info_slots info))
  end.

(** A line of the answer; [c] is what comes of a connection that is made. *)
Definition parse_node (buf : list Z) (line : GR_String) (c : conn) (r : croute) : go (list Z * croute) :=
  let! vNodeData := GR_SplitLine buf (szChar line) (iLen line) 32 in
  if (length vNodeData <? 8)%nat then Ret (buf, r)
  else
    let! (buf, info, ok) := GetClusterInfo buf vNodeData in
    if negb ok then Ret (buf, r)
    else match info_slots info with
    | [] => Ret (buf, r)
    | _ =>
        let! i := server_info buf info in
        let! (r, _, _) := AddRedisServer r i c in Ret (buf, r)
    end.

Fixpoint parse_nodes (buf : list Z) (lines : list GR_String) (c : nat -> conn) (r : croute) : go (list Z * croute) :=
  match lines with
  | [] => Ret (buf, r)
  | line :: lines =>
      let! (buf, r) := parse_node buf line (c 0%nat) r in
      parse_nodes buf lines (fun i => c (S i)) r
  end.

(** The text is at [szStart], [c i] is the connection of line [i] and
    [m_uiReConnectTimes] is [times]. *)
Definition ParseClusterNodes (buf : list Z) (szStart iLen : nat) (c : nat -> conn) (r : croute) (times : Z) : go (list Z * croute * (nodes_end * Z)) :=
  let! vResults := GR_SplitLine buf szStart iLen 10 in
  let! (buf, r) := parse_nodes buf vResults c r in
  let! bReady := ReadyCheck r in
  Ret (buf, r, nodes_finish bReady times).

(** *** SlotRedirect *)

(** The event a redirected request goes to; null when [SlotRedirect] fails. *)
Definition redirect_target (buf : list Z) (szStart iLen : nat) (c : conn) (r : croute) : go (list Z * croute * option nat) :=
  let! v := GR_SplitLine buf szStart iLen 32 in
  if negb (length v =? 3)%nat then Ret (buf, r, None)
  else
    let! d := elem v 2 in
    let! buf := terminate buf d in
    let! s := cstr_at buf (szChar d) in
    match strchr s 58 with
    | None => Ret (buf, r, None)
    | Some i =>
        let! buf := put buf (szChar d + i) 0 in
        let! t := cstr_at buf (szChar d + i + 1) in
        let! iPort := atoi t in
        let! ip := cstr_at buf (szChar d) in
        let ident := AddrToLong ip (u16 iPort) in
        let! o := GetRedis r ident in
        let! e := match o with None => Ret None | Some k => let! s := look (srvs r) k in Ret (srv_event s) end in
        match e with
        | Some e => Ret (buf, r, Some e)
        | None =>
            let! (r, o, ok) := AddRedisServer r (mkCluster ident []) c in
            match o with
            | Some k => if ok : bool then let! s := look (srvs r) k in Ret (buf, r, srv_event s) else Ret (buf, r, None)
            | None => Ret (buf, r, None)
            end
        end
    end.

End parse.

(** ** Numbers *)

Lemma digits_value_app ds l acc : Forall (fun d => 48 <= d <= 57) ds ->
  digits_value (ds ++ l) acc = digits_value l (fold_left (fun v d => v * 10 + (d - 48)) ds acc).
Proof.
  intros Hd. revert acc. induction Hd as [|d ds Hd _ IH]; intros acc; [done|]. cbn [app digits_value fold_left].
  replace ((48 <=? d) && (d <=? 57)) with true by lia. rewrite IH. do 2 f_equal. lia.
Qed.

Lemma atoi_dec n : 0 <= n < 2 ^ 31 -> atoi (dec n) = Ret n.
Proof.
  intros Hn. destruct (dec_spec n ltac:(lia)) as (Hv & Hd & Hne). unfold atoi.
  assert (skip_space (dec n) = dec n /\ digits_value (dec n) 0 = n) as [-> Hval].
  { split.
    - destruct Hd as [|d ds Hd _]; [done|]. cbn [skip_space]. unfold isspace. by replace (_ || _) with false by lia.
    - rewrite <- (app_nil_r (dec n)) at 1. by rewrite digits_value_app. }
  destruct Hd as [|d ds Hd _]; [done|]. destruct (decide (d = 45 \/ d = 43)) as [|Hs]; [lia|].
  replace (match d :: ds with 45 :: s => - digits_value s 0 | 43 :: s => digits_value s 0 | s => digits_value s 0 end) with n.
  - by replace ((- 2 ^ 31 <=? n) && (n <? 2 ^ 31)) with true by lia.
  - rewrite <- Hval. destruct d as [|d|d]; [done| |done]. do 6 (destruct d as [d|d|]; try done); exfalso; apply Hs; lia.
Qed.

(** ** Bytes in the buffer *)

(** The bytes [s] are at [p]. *)
Definition has (buf : list Z) (p : nat) (s : list Z) : Prop := forall i b, s !! i = Some b -> buf !! (p + i)%nat = Some b.

(** Only the [n] bytes at [p] may differ. *)
Definition same_outside (p n : nat) (buf buf' : list Z) : Prop :=
  length buf' = length buf /\ forall j, (j < p \/ p + n <= j)%nat -> buf' !! j = buf !! j.

Lemma has_app buf p s t : has buf p (s ++ t) <-> has buf p s /\ has buf (p + length s) t.
Proof.
  split.
  - intros Hst. split; intros i b Hi.
    + apply Hst. by apply lookup_app_l_Some.
    + rewrite <- Nat.add_assoc. apply Hst. rewrite lookup_app_r by lia. by replace (length s + i - length s)%nat with i by lia.
  - intros [Hs Ht] i b Hi. apply lookup_app_Some in Hi as [Hi|[Hle Hi]]; [by apply Hs|].
    replace (p + i)%nat with (p + length s + (i - length s))%nat by lia. by apply Ht.
Qed.

Lemma has_cons buf p b s : has buf p (b :: s) <-> buf !! p = Some b /\ has buf (S p) s.
Proof.
  change (b :: s) with ([b] ++ s). rewrite has_app. cbn [length]. replace (p + 1)%nat with (S p) by lia. split; intros [Hb Hs]; (split; [|done]).
  - rewrite <- (Nat.add_0_r p). by apply Hb.
  - intros i c Hi. apply list_lookup_singleton_Some in Hi as [-> ->]. by rewrite Nat.add_0_r.
Qed.

Lemma has_nil buf p : has buf p [].
Proof. by intros i b Hi. Qed.

Lemma has_length buf p s : has buf p s -> s <> [] -> (p + length s <= length buf)%nat.
Proof.
  intros Hs Hne. destruct s as [|b s] using rev_ind; [done|]. apply has_app in Hs as [_ Hb]. apply has_cons in Hb as [Hb _].
  apply lookup_lt_Some in Hb. rewrite length_app. cbn. lia.
Qed.

Lemma has_outside p n buf buf' q s : same_outside p n buf buf' -> (q + length s <= p \/ p + n <= q)%nat -> has buf q s -> has buf' q s.
Proof.
  intros [_ Hs] Hq Hh i b Hi. pose proof (lookup_lt_Some _ _ _ Hi). rewrite Hs by lia. by apply Hh.
Qed.

Lemma outside_refl p n buf : same_outside p n buf buf.
Proof. done. Qed.

Lemma outside_trans p n a b c : same_outside p n a b -> same_outside p n b c -> same_outside p n a c.
Proof. intros [Ha1 Ha2] [Hb1 Hb2]. split; [congruence|]. intros j Hj. rewrite Hb2, Ha2 by done. done. Qed.

Lemma outside_weaken p n p' n' a b : same_outside p n a b -> (p' <= p)%nat -> (p + n <= p' + n')%nat -> same_outside p' n' a b.
Proof. intros [? Ha] ? ?. split; [done|]. intros j Hj. apply Ha. lia. Qed.

Lemma put_ok buf p n i b : (i < length buf)%nat -> (p <= i < p + n)%nat ->
  exists buf', put buf i b = Ret buf' /\ same_outside p n buf buf' /\ buf' !! i = Some b /\ forall j, j <> i -> buf' !! j = buf !! j.
Proof.
  intros Hi Hp. unfold put. rewrite bool_decide_true by done. eexists. split; [done|]. split; [split|split].
  - apply length_insert.
  - intros j Hj. apply list_lookup_insert_ne. lia.
  - by apply list_lookup_insert_eq.
  - intros j Hj. by apply list_lookup_insert_ne.
Qed.

(** Bytes away from the one that is written stay. *)
Lemma has_put buf buf' i q s : (forall j, j <> i -> buf' !! j = buf !! j) -> (q + length s <= i \/ i < q)%nat -> has buf q s -> has buf' q s.
Proof. intros Hj Hq Hh k b Hk. pose proof (lookup_lt_Some _ _ _ Hk). rewrite Hj by lia. by apply Hh. Qed.

Lemma drop_has buf p b s : has buf p (b :: s) -> drop p buf = b :: drop (S p) buf.
Proof. intros Hh. apply has_cons in Hh as [Hb _]. by apply drop_S. Qed.

Lemma cstr_has buf s : forall p, has buf p (s ++ [0]) -> 0 ∉ s -> cstr_at buf p = Ret s.
Proof.
  unfold cstr_at. induction s as [|b s IH]; intros p Hh H0; cbn [app] in Hh; rewrite (drop_has _ _ _ _ Hh); cbn [cstr]; [done|].
  apply not_elem_of_cons in H0 as [Hb H0]. rewrite (proj2 (Z.eqb_neq b 0)) by done. apply has_cons in Hh as [_ Hh]. by rewrite IH.
Qed.

(** A NUL written anywhere leaves a C string a prefix of what it was. *)
Lemma cstr_put buf i c s : forall p, has buf p (s ++ [0]) -> c ∉ s -> 0 ∉ s ->
  exists s', cstr_at (<[i := 0]> buf) p = Ret s' /\ c ∉ s'.
Proof.
  unfold cstr_at. induction s as [|b s IH]; intros p Hh Hc H0; cbn [app] in Hh.
  - apply has_cons in Hh as [Hb _]. exists []. split; [|apply not_elem_of_nil]. assert ((<[i := 0]> buf) !! p = Some 0) as Hp.
    { apply list_lookup_insert_Some. destruct (decide (i = p)) as [->|]; [left|by right]. split_and!; try done. by apply lookup_lt_Some in Hb. }
    by rewrite (drop_S _ _ _ Hp).
  - apply has_cons in Hh as [Hb Hh]. apply not_elem_of_cons in H0 as [Hb0 H0], Hc as [Hcb Hc]. destruct (decide (i = p)) as [->|Hne].
    + exists []. split; [|apply not_elem_of_nil]. rewrite (drop_S _ 0 p); [done|]. apply list_lookup_insert_eq. by apply lookup_lt_Some in Hb.
    + destruct (IH (S p) Hh Hc H0) as (s' & E & Hs'). exists (b :: s'). rewrite (drop_S _ b p) by (by rewrite list_lookup_insert_ne). cbn [cstr].
      rewrite (proj2 (Z.eqb_neq b 0)), E by done. split; [done|]. by apply not_elem_of_cons.
Qed.

Lemma strchr_found s c t : c ∉ s -> strchr (s ++ c :: t) c = Some (length s).
Proof.
  induction s as [|b s IH]; intros Hc; cbn [app strchr length]; [by rewrite Z.eqb_refl|]. apply not_elem_of_cons in Hc as [Hb Hc].
  by rewrite (proj2 (Z.eqb_neq b c)), IH by done.
Qed.

Lemma strchr_none s c : c ∉ s -> strchr s c = None.
Proof.
  induction s as [|b s IH]; intros Hc; cbn [strchr]; [done|]. apply not_elem_of_cons in Hc as [Hb Hc]. by rewrite (proj2 (Z.eqb_neq b c)), IH by done.
Qed.

Lemma strrchr_none s c : c ∉ s -> strrchr s c = None.
Proof.
  induction s as [|b s IH]; intros Hc; cbn [strrchr]; [done|]. apply not_elem_of_cons in Hc as [Hb Hc]. by rewrite IH, (proj2 (Z.eqb_neq b c)) by done.
Qed.

Lemma strrchr_found s c t : c ∉ t -> strrchr (s ++ c :: t) c = Some (length s).
Proof.
  intros Ht. induction s as [|b s IH]; cbn [app strrchr length]; [by rewrite strrchr_none, Z.eqb_refl|]. by rewrite IH.
Qed.

(** ** Pieces *)

Lemma snoc_not_nil (s : list Z) c : s ++ [c] <> [].
Proof. by destruct s. Qed.

Fixpoint join (dot : Z) (ps : list (list Z)) : list Z :=
  match ps with
  | [] => []
  | [p] => p
  | p :: ps => p ++ dot :: join dot ps
  end.

(** Where the pieces of [join dot ps] are. *)
Fixpoint places (i : nat) (ps : list (list Z)) : list GR_String :=
  match ps with
  | [] => []
  | p :: ps => mkStr i (length p) :: places (i + length p + 1) ps
  end.

Lemma split_skip p l dot q : forall i n, dot ∉ p -> split_loop (p ++ l) dot i (mkStr q n) = split_loop l dot (i + length p) (mkStr q (n + length p)).
Proof.
  induction p as [|b p IH]; intros i n Hp; cbn [app length]; [by rewrite !Nat.add_0_r|]. apply not_elem_of_cons in Hp as [Hb Hp].
  cbn [split_loop]. rewrite (proj2 (Z.eqb_neq b dot)) by done. cbn [szChar iLen]. rewrite IH by done. f_equal; [lia|]. f_equal. lia.
Qed.

Lemma split_cons p l dot i : dot ∉ p -> l <> [] ->
  split_loop (p ++ dot :: l) dot i (mkStr i 0) = mkStr i (length p) :: split_loop l dot (i + length p + 1) (mkStr (i + length p + 1) 0).
Proof.
  intros Hp Hl. rewrite split_skip by done. cbn [split_loop]. rewrite Z.eqb_refl. destruct l as [|c l]; [done|].
  replace (i + length p + 1)%nat with (S (i + length p)) by lia. by rewrite Nat.add_0_l.
Qed.

Lemma split_one p dot i : dot ∉ p -> p <> [] -> split_loop p dot i (mkStr i 0) = [mkStr i (length p)].
Proof.
  intros Hp Hne. rewrite <- (app_nil_r p) at 1. rewrite split_skip by done. cbn [split_loop iLen]. destruct p as [|b p]; [done|]. done.
Qed.

(** The last piece before a separator at the end comes twice. *)
Lemma split_last p dot i : dot ∉ p -> p <> [] -> split_loop (p ++ [dot]) dot i (mkStr i 0) = [mkStr i (length p); mkStr i (length p)].
Proof.
  intros Hp Hne. rewrite split_skip by done. cbn [split_loop]. rewrite Z.eqb_refl. cbn [iLen]. destruct p as [|b p]; [done|]. done.
Qed.

Lemma join_cons dot p ps : ps <> [] -> join dot (p :: ps) = p ++ dot :: join dot ps.
Proof. by destruct ps. Qed.

Lemma join_nonempty dot ps q : join dot (ps ++ [q]) <> [] \/ q = [].
Proof.
  destruct ps as [|p ps]; [destruct q; [by right|by left]|]. left. cbn [app]. rewrite join_cons by (by destruct ps). by destruct p.
Qed.

Lemma split_join dot ps q : Forall (fun p => dot ∉ p) (ps ++ [q]) -> q <> [] -> forall i,
  split_loop (join dot (ps ++ [q])) dot i (mkStr i 0) = places i (ps ++ [q]).
Proof.
  intros Hps Hq. induction ps as [|p ps IH]; intros i; cbn [app] in *; inversion_clear Hps as [|?? Hp Hps'].
  - by apply split_one.
  - rewrite join_cons by (by destruct ps). rewrite split_cons; [|done|by destruct (join_nonempty dot ps q)]. cbn [places]. f_equal. by apply IH.
Qed.

(** What is known of any piece. *)
Lemma split_ends l dot : forall i q n, (q + n <= i)%nat -> Forall (fun s => szChar s + iLen s <= i + length l)%nat (split_loop l dot i (mkStr q n)).
Proof.
  induction l as [|b l IH]; intros i q n Hi; cbn [split_loop iLen length].
  - case_match; [constructor|]. repeat constructor. cbn. lia.
  - case_match.
    + constructor; [cbn; lia|]. destruct l as [|c l]; [|eapply Forall_impl; [apply IH; lia|cbn; lia]].
      eapply Forall_impl; [apply IH; lia|cbn; lia].
    + eapply Forall_impl; [apply IH; cbn; lia|cbn; lia].
Qed.

Lemma split_first l dot : forall i q n s, split_loop l dot i (mkStr q n) !! 0%nat = Some s -> szChar s = q.
Proof.
  induction l as [|b l IH]; intros i q n s Hs; cbn [split_loop iLen szChar] in Hs.
  - case_match; [done|]. by injection Hs as <-.
  - case_match; [by injection Hs as <-|]. by apply IH in Hs.
Qed.

Lemma split_has buf p l dot : has buf p l -> l <> [] -> GR_SplitLine buf p (length l) dot = Ret (split_loop l dot p (mkStr p 0)).
Proof.
  intros Hh Hl. pose proof (has_length _ _ _ Hh Hl). unfold GR_SplitLine. destruct (Nat.eqb_spec (length l) 0); [by destruct l|].
  rewrite bool_decide_true by done. do 2 f_equal. apply list_eq. intros i. destruct (decide (i < length l)%nat) as [Hi|Hi].
  - rewrite lookup_take_lt, lookup_drop by done. destruct (lookup_lt_is_Some_2 l i Hi) as [b Hb]. rewrite Hb. by apply Hh.
  - rewrite lookup_take_ge by lia. symmetry. apply lookup_ge_None. lia.
Qed.

Lemma terminate_ok buf s p n : (szChar s + iLen s < length buf)%nat -> (p <= szChar s)%nat -> (szChar s + iLen s < p + n)%nat ->
  exists buf', terminate buf s = Ret buf' /\ same_outside p n buf buf' /\ buf' !! (szChar s + iLen s)%nat = Some 0 /\
    forall j, j <> (szChar s + iLen s)%nat -> buf' !! j = buf !! j.
Proof. intros. apply put_ok; lia. Qed.

(** A piece and the byte after it, as a C string. *)
Lemma terminate_has buf s p c : has buf p (s ++ [c]) ->
  exists buf', terminate buf (mkStr p (length s)) = Ret buf' /\ same_outside p (length s + 1) buf buf' /\ has buf' p (s ++ [0]).
Proof.
  intros Hh. pose proof (has_length _ _ _ Hh (snoc_not_nil s c)) as Hl. rewrite length_app in Hl. cbn in Hl.
  destruct (terminate_ok buf (mkStr p (length s)) p (length s + 1)) as (buf' & E & Hs & H0 & Hj); cbn; try lia. exists buf'. split; [done|]. split; [done|].
  apply has_app in Hh as [Hh _]. apply has_app. split; [eapply has_put; [exact Hj|cbn; lia|done]|]. by apply has_cons.
Qed.

(** ** The fields of a line *)

(** After the port: nothing, or the port of the cluster bus. *)
Definition bus_ok (bus : list Z) : Prop := bus = [] \/ exists w, bus = 64 :: w /\ 58 ∉ w /\ 0 ∉ w.

Lemma dec_no n c : 0 <= n -> c < 48 \/ 57 < c -> c ∉ dec n.
Proof. intros Hn Hc Hin. destruct (dec_spec n Hn) as (_ & Hd & _). rewrite Forall_forall in Hd. specialize (Hd c Hin). cbn in Hd. lia. Qed.

Lemma has_split buf p s b t : has buf p (s ++ b :: t) <-> has buf p s /\ buf !! (p + length s)%nat = Some b /\ has buf (p + length s + 1) t.
Proof. rewrite has_app, has_cons. by replace (S (p + length s)) with (p + length s + 1)%nat by lia. Qed.

Lemma bus_none bus c : bus_ok bus -> c = 58 \/ c = 0 -> c ∉ bus.
Proof. intros [->|(w & -> & ? & ?)] Hc; [apply not_elem_of_nil|]. apply not_elem_of_cons. by destruct Hc as [-> | ->]. Qed.

(** The port as a C string. *)
Lemma read_port buf q port bus : has buf q (dec port ++ bus ++ [0]) -> 0 <= port -> bus_ok bus ->
  exists buf', (match strchr (dec port ++ bus) 64 with Some j => put buf (q + j) 0 | None => Ret buf end) = Ret buf' /\
    same_outside q (length (dec port ++ bus) + 1) buf buf' /\ has buf' q (dec port ++ [0]).
Proof.
  intros Hh Hp [->|(w & -> & _ & _)].
  - rewrite app_nil_r, strchr_none by (apply dec_no; lia). by exists buf.
  - rewrite strchr_found by (apply dec_no; lia). cbn [app] in Hh. apply has_split in Hh as (Hd & Hb & _).
    destruct (put_ok buf q (length (dec port ++ 64 :: w) + 1) (q + length (dec port)) 0) as (buf' & -> & Hs & H0 & Hj).
    { by apply lookup_lt_Some in Hb. }
    { rewrite length_app. lia. }
    exists buf'. split; [done|]. split; [done|]. apply has_app. split; [eapply has_put; [exact Hj|lia|done]|]. by apply has_cons.
Qed.

Definition addr_text (ip : list Z) (port : Z) (bus : list Z) : list Z := ip ++ 58 :: dec port ++ bus.

Lemma read_addr_ok buf p ip port bus c : has buf p (addr_text ip port bus ++ [c]) -> 0 ∉ ip -> 0 <= port < 65536 -> bus_ok bus ->
  exists buf', read_addr buf (mkStr p (length (addr_text ip port bus))) = Ret (buf', Some (p, port)) /\
    same_outside p (length (addr_text ip port bus) + 1) buf buf' /\ has buf' p (ip ++ [0]).
Proof.
  intros Hh Hip Hp Hbus. set (n := (length (addr_text ip port bus) + 1)%nat).
  assert (n = length ip + 1 + length (dec port ++ bus) + 1)%nat as En by (unfold n, addr_text; rewrite length_app; cbn [length]; lia).
  pose proof (dec_no port 0 ltac:(lia) ltac:(lia)) as Hd0. pose proof (dec_no port 58 ltac:(lia) ltac:(lia)) as Hd58.
  pose proof (bus_none bus 0 Hbus ltac:(lia)) as Hb0. pose proof (bus_none bus 58 Hbus ltac:(lia)) as Hb58.
  destruct (terminate_has buf _ p c Hh) as (buf1 & E1 & Hs1 & H1). unfold read_addr. rewrite E1. cbn [go_bind szChar].
  rewrite (cstr_has _ _ _ H1) by (unfold addr_text; rewrite elem_of_app, elem_of_cons, elem_of_app; intros [?|[?|[?|?]]]; done).
  cbn [go_bind]. unfold addr_text at 1. rewrite strrchr_found by (rewrite elem_of_app; intros [?|?]; done).
  unfold addr_text in H1 |- *. rewrite <- app_assoc in H1. cbn [app] in H1. apply has_split in H1 as (Hi1 & Hc1 & Hr1). rewrite <- app_assoc in Hr1.
  destruct (put_ok buf1 p n (p + length ip) 0) as (buf2 & -> & Hs2 & H02 & Hj2); [by apply lookup_lt_Some in Hc1|lia|]. cbn [go_bind].
  assert (has buf2 (p + length ip + 1) (dec port ++ bus ++ [0])) as Hr2 by (eapply has_put; [exact Hj2|lia|done]).
  assert (has buf2 p (ip ++ [0])) as Hi2.
  { apply has_app. split; [eapply has_put; [exact Hj2|lia|done]|]. by apply has_cons. }
  rewrite (cstr_has _ (dec port ++ bus)) by (rewrite <- ?app_assoc, ?elem_of_app; tauto). cbn [go_bind].
  destruct (read_port buf2 _ port bus Hr2 ltac:(lia) Hbus) as (buf3 & -> & Hs3 & Hr3). cbn [go_bind].
  rewrite (cstr_has _ _ _ Hr3 Hd0). cbn [go_bind]. rewrite atoi_dec by lia. cbn [go_bind].
  exists buf3. split; [|split].
  - rewrite wrap_small by lia. done.
  - eapply outside_trans; [exact Hs1|]. eapply outside_trans; [exact Hs2|]. eapply outside_weaken; [exact Hs3|lia|lia].
  - eapply has_outside; [exact Hs3| |exact Hi2]. rewrite length_app. cbn. lia.
Qed.

(** *** Flags *)

(** The loop over the flags never runs out of fuel: every round moves on in the
    buffer. *)
Lemma strchr_bound s c i : strchr s c = Some i -> (i < length s)%nat.
Proof.
  revert i. induction s as [|b s IH]; intros i Hi; cbn [strchr length] in *; [done|]. case_match; [injection Hi as <-; lia|].
  destruct (strchr s c) as [j|]; [|done]. injection Hi as <-. specialize (IH j eq_refl). lia.
Qed.

Lemma cstr_length l s : cstr l = Ret s -> (length s < length l)%nat.
Proof.
  revert s. induction l as [|b l IH]; intros s Hs; cbn [cstr length] in *; [done|]. case_match; [injection Hs as <-; cbn; lia|].
  destruct (cstr l) as [t|]; [|done]. injection Hs as <-. specialize (IH t eq_refl). cbn. lia.
Qed.

Lemma read_flags_fuel fuel : forall extra buf s flags ok, (length buf - s < fuel)%nat ->
  read_flags (fuel + extra) buf s flags ok = read_flags fuel buf s flags ok.
Proof.
  induction fuel as [|fuel IH]; intros extra buf s flags ok Hf; [lia|]. cbn [Nat.add read_flags].
  destruct (cstr_at buf s) as [t|] eqn:Et; [|done]. cbn [go_bind]. pose proof (cstr_length _ _ Et) as Hl. rewrite length_drop in Hl.
  destruct (strchr t 44) as [i|] eqn:Ei; [|done]. pose proof (strchr_bound _ _ _ Ei).
  unfold put. case_match; [|done]. cbn [go_bind]. destruct (cstr_at _ s) as [t'|]; [|done]. cbn [go_bind].
  assert (forall flags ok, read_flags (fuel + extra) (<[(s + i)%nat := 0]> buf) (s + i + 1) flags ok = read_flags fuel (<[(s + i)%nat := 0]> buf) (s + i + 1) flags ok) as Hn.
  { intros. apply IH. rewrite length_insert. lia. }
  by rewrite !Hn.
Qed.

Inductive flag := FMyself | FMaster | FSlave | FPfail | FFail | FHandshake | FNoaddr | FNofailover | FNoflags.

Definition flag_text (f : flag) : list Z :=
  match f with
  | FMyself => str "myself" | FMaster => str "master" | FSlave => str "slave" | FPfail => str "fail?" | FFail => str "fail"
  | FHandshake => str "handshake" | FNoaddr => str "noaddr" | FNofailover => str "nofailover" | FNoflags => str "noflags"
  end.

(** A node with any other flag is left out. *)
Definition serving (f : flag) : bool := match f with FMyself | FMaster | FNoflags => true | _ => false end.

Definition flag_bit (f : flag) : Z := match f with FMyself => 16 | FMaster => 1 | _ => 0 end.

Fixpoint flags_result (fs : list flag) (flags : Z) : bool + Z * bool :=
  match fs with
  | [] => inr (flags, true)
  | f :: fs => if serving f then flags_result fs (Z.lor flags (flag_bit f)) else inl true
  end.

Lemma flag_clean f c : c ∈ flag_text f -> 63 <= c <= 122.
Proof.
  assert (Forall (fun b => 63 <= b <= 122) (flag_text f)) as Hf by (destruct f; vm_compute; repeat constructor; done).
  rewrite Forall_forall in Hf. apply Hf.
Qed.

Lemma flag_no f c : c < 63 -> c ∉ flag_text f.
Proof. intros Hc Hin%flag_clean. lia. Qed.

Lemma flags_no sep fs c : c < 63 -> c <> sep -> c ∉ join sep (map flag_text fs).
Proof.
  intros Hc Hs. induction fs as [|f [|g fs] IH]; cbn [map]; [apply not_elem_of_nil|by apply flag_no|].
  rewrite join_cons by done. rewrite elem_of_app, elem_of_cons. intros [?%flag_no|[?|?]]; try done.
Qed.

(** One round on a word that is a flag. *)
Lemma read_flags_round fuel buf p f rest acc :
  has buf p (flag_text f ++ rest) -> (rest = [0] \/ exists r, rest = 44 :: r ++ [0] /\ 0 ∉ r) ->
  exists buf', same_outside p (length (flag_text f) + 1) buf buf' /\
    read_flags (S fuel) buf p acc true =
      if serving f then
        (if bool_decide (rest = [0]) then Ret (buf', inr (Z.lor acc (flag_bit f), true))
         else read_flags fuel buf' (p + length (flag_text f) + 1) (Z.lor acc (flag_bit f)) true)
      else Ret (buf', inl true).
Proof.
  intros Hh Hr. pose proof (flag_no f 0 ltac:(lia)) as H0. pose proof (flag_no f 44 ltac:(lia)) as H44. cbn [read_flags]. destruct Hr as [->|(r & -> & Hr)].
  - rewrite (cstr_has _ _ _ Hh H0). cbn [go_bind]. rewrite strchr_none by done. cbn [go_bind]. rewrite (cstr_has _ _ _ Hh H0). cbn [go_bind].
    exists buf. split; [done|]. rewrite bool_decide_true by done. destruct f; cbn; by rewrite ?Z.lor_0_r.
  - assert (has buf p ((flag_text f ++ 44 :: r) ++ [0])) as Hh' by (by rewrite <- app_assoc).
    rewrite (cstr_has _ _ _ Hh') by (rewrite elem_of_app, elem_of_cons; intros [?|[?|?]]; done). cbn [go_bind]. rewrite strchr_found by done.
    pose proof (proj1 (has_split _ _ _ _ _) Hh) as (Hf & Hc & _).
    destruct (put_ok buf p (length (flag_text f) + 1) (p + length (flag_text f)) 0) as (buf' & -> & Hs & Hz & Hj); [by apply lookup_lt_Some in Hc|lia|].
    cbn [go_bind]. exists buf'. split; [done|]. rewrite bool_decide_false by done. rewrite (cstr_has buf' (flag_text f)).
    + cbn [go_bind]. destruct f; cbn -[read_flags]; by rewrite ?Z.lor_0_r.
    + apply has_app. split; [eapply has_put; [exact Hj|lia|done]|]. by apply has_cons.
    + done.
Qed.

Lemma read_flags_ok f fs : forall fuel buf p acc, (length fs < fuel)%nat -> has buf p (join 44 (map flag_text (f :: fs)) ++ [0]) ->
  exists buf', read_flags fuel buf p acc true = Ret (buf', flags_result (f :: fs) acc) /\
    same_outside p (length (join 44 (map flag_text (f :: fs))) + 1) buf buf'.
Proof.
  revert f. induction fs as [|g fs IH]; intros f fuel buf p acc Hf Hh; (destruct fuel as [|fuel]; [lia|]); cbn [map] in *.
  - destruct (read_flags_round fuel buf p f [0] acc Hh (or_introl eq_refl)) as (buf' & Hs & ->). exists buf'. split; [|done].
    rewrite bool_decide_true by done. cbn. by destruct (serving f).
  - rewrite join_cons, <- app_assoc in Hh by done. cbn [app] in Hh. destruct (read_flags_round fuel buf p f _ acc Hh) as (buf1 & Hs & ->).
    { right. eexists. split; [done|]. by apply (flags_no 44 (g :: fs)). }
    rewrite (join_cons 44 (flag_text f)), length_app by done. cbn [length]. set (n := length (join _ _)). set (m := length (flag_text f)) in *.
    rewrite bool_decide_false by done. cbn [flags_result]. destruct (serving f).
    + apply has_split in Hh as (_ & _ & Hh). destruct (IH g fuel buf1 (p + m + 1)%nat (Z.lor acc (flag_bit f))) as (buf' & E & Hs'); [cbn in *; lia| |].
      { eapply has_outside; [exact Hs|lia|done]. }
      exists buf'. split; [exact E|]. eapply outside_trans; [eapply outside_weaken; [exact Hs|lia|lia]|]. eapply outside_weaken; [exact Hs'|lia|]. cbn [map]. unfold n. lia.
    + exists buf1. split; [done|]. eapply outside_weaken; [exact Hs|lia|lia].
Qed.

(** *** Slots *)

(** A slot, slots from one to another, or a slot on its way to another node. *)
Inductive nslot := SOne (b : Z) | SRange (b e : Z) | SMoving (w : list Z).

Definition slot_text (s : nslot) : list Z :=
  match s with SOne b => dec b | SRange b e => dec b ++ 45 :: dec e | SMoving w => 91 :: w end.

Definition slot_range (s : nslot) : list (Z * Z) := match s with SOne b => [(b, b)] | SRange b e => [(b, e)] | SMoving _ => [] end.

Definition slot_wf (s : nslot) : Prop :=
  match s with
  | SOne b => 0 <= b < CLUSTER_SLOTS
  | SRange b e => 0 <= b < CLUSTER_SLOTS /\ 0 <= e < CLUSTER_SLOTS
  | SMoving w => 32 ∉ w /\ 10 ∉ w
  end.

(** A piece that is a number. *)
Lemma read_number buf p n c : has buf p (dec n ++ [c]) -> 0 <= n < CLUSTER_SLOTS ->
  exists buf', terminate buf (mkStr p (length (dec n))) = Ret buf' /\ same_outside p (length (dec n) + 1) buf buf' /\
    cstr_at buf' p = Ret (dec n) /\ atoi (dec n) = Ret n.
Proof.
  intros Hh Hn. destruct (terminate_has buf (dec n) p c Hh) as (buf' & E & Hs & H0). exists buf'. split; [done|]. split; [done|].
  split; [apply cstr_has; [done|apply dec_no; lia]|]. apply atoi_dec. unfold CLUSTER_SLOTS in Hn. lia.
Qed.

Lemma dec_nonempty n : 0 <= n -> dec n <> [].
Proof. intros Hn. by destruct (dec_spec n Hn) as (_ & _ & ?). Qed.

Lemma read_one buf p b c : has buf p (dec b ++ [c]) -> 0 <= b < CLUSTER_SLOTS ->
  exists buf', read_slot buf (mkStr p (length (dec b))) = Ret (buf', (b, b)) /\ same_outside p (length (dec b) + 1) buf buf'.
Proof.
  intros Hh Hb. pose proof (dec_nonempty b ltac:(lia)) as Hne. destruct (terminate_has _ _ _ _ Hh) as (buf1 & E1 & Hs1 & H1).
  unfold read_slot. rewrite E1. cbn [go_bind szChar iLen]. rewrite split_has by (done || by apply has_app in H1 as [? _]).
  rewrite split_one by (done || apply dec_no; lia). cbn [go_bind elem lookup list_lookup].
  destruct (read_number buf1 p b 0 H1 Hb) as (buf2 & -> & Hs2 & Hc & Ha). cbn [go_bind szChar]. rewrite Hc. cbn [go_bind]. rewrite Ha. cbn.
  exists buf2. split; [done|]. by eapply outside_trans.
Qed.

Lemma read_range buf p b e c : has buf p ((dec b ++ 45 :: dec e) ++ [c]) -> 0 <= b < CLUSTER_SLOTS -> 0 <= e < CLUSTER_SLOTS ->
  exists buf', read_slot buf (mkStr p (length (dec b ++ 45 :: dec e))) = Ret (buf', (b, e)) /\
    same_outside p (S (length (dec b ++ 45 :: dec e))) buf buf'.
Proof.
  intros Hh Hb He. pose proof (dec_nonempty e ltac:(lia)) as Hne. destruct (terminate_has _ _ _ _ Hh) as (buf1 & E1 & Hs1 & H1).
  pose proof (proj1 (has_app _ _ _ _) H1) as [H1' _]. unfold read_slot. rewrite E1. cbn [go_bind szChar iLen]. rewrite split_has by (done || by destruct (dec b)).
  rewrite split_cons, split_one by (done || apply dec_no; lia). cbn [go_bind elem lookup list_lookup].
  rewrite <- app_assoc in H1. cbn [app] in H1. apply has_split in H1 as (Hd & Hm & He1). rewrite length_app in *. cbn [length] in *.
  destruct (read_number buf1 p b 45) as (buf2 & -> & Hs2 & Hc & Ha); [by apply has_app; split; [|apply has_cons]|done|].
  cbn [go_bind szChar]. rewrite Hc. cbn [go_bind]. rewrite Ha. cbn [go_bind length Nat.eqb].
  destruct (read_number buf2 (p + length (dec b) + 1) e 0) as (buf3 & -> & Hs3 & Hc3 & Ha3); [eapply has_outside; [exact Hs2|lia|done]|done|].
  cbn [go_bind szChar]. rewrite Hc3. cbn [go_bind]. rewrite Ha3. cbn [go_bind]. exists buf3. split; [done|].
  eapply outside_trans; [eapply outside_weaken; [exact Hs1|lia|lia]|]. eapply outside_trans; [eapply outside_weaken; [exact Hs2|lia|lia]|].
  eapply outside_weaken; [exact Hs3|lia|lia].
Qed.

Lemma read_slots_step buf p s c v : has buf p (slot_text s ++ [c]) -> slot_wf s ->
  exists buf', same_outside p (length (slot_text s) + 1) buf buf' /\
    read_slots buf (mkStr p (length (slot_text s)) :: v) = let! (buf, l) := read_slots buf' v in Ret (buf, slot_range s ++ l).
Proof.
  assert (forall b d, has buf p (dec b ++ d) -> 0 <= b -> exists x, buf !! p = Some x /\ x =? 91 = false) as Hhead.
  { intros b d Hd Hb. destruct (dec_spec b Hb) as (_ & Hdig & Hne). destruct Hdig as [|x xs Hx _]; [done|]. exists x. split; [by apply has_cons in Hd as [? _]|lia]. }
  intros Hh Hw. cbn [read_slots szChar]. destruct s as [b|b e|w]; cbn [slot_text slot_wf slot_range app] in *.
  - destruct (Hhead _ _ Hh ltac:(lia)) as (x & -> & ->). destruct (read_one buf p b c Hh Hw) as (buf' & -> & Hs). by exists buf'.
  - pose proof Hh as Hh'. rewrite <- app_assoc in Hh'. destruct (Hhead _ _ Hh' ltac:(lia)) as (x & -> & ->).
    destruct (read_range buf p b e c Hh) as (buf' & -> & Hs); [tauto..|]. exists buf'. split; [|done]. eapply outside_weaken; [exact Hs|lia|lia].
  - apply has_cons in Hh as [-> _]. rewrite Z.eqb_refl. exists buf. split; [done|]. by destruct (read_slots buf v) as [[? ?]|].
Qed.

Lemma read_slots_ok l c : forall buf p, Forall slot_wf l -> l <> [] -> has buf p (join 32 (map slot_text l) ++ [c]) ->
  exists buf', read_slots buf (places p (map slot_text l)) = Ret (buf', concat (map slot_range l)) /\
    same_outside p (length (join 32 (map slot_text l)) + 1) buf buf'.
Proof.
  induction l as [|s l IH]; intros buf p Hl Hne Hh; [done|]. inversion_clear Hl as [|?? Hs Hl']. cbn [map places concat]. destruct l as [|s' l].
  - destruct (read_slots_step buf p s c [] Hh Hs) as (buf' & Hs' & E). exists buf'. split; [|done]. cbn [map places]. rewrite E. reflexivity.
  - set (l0 := s' :: l) in *. cbn [map] in Hh. rewrite join_cons, <- app_assoc in Hh by done. cbn [app] in Hh. pose proof (proj1 (has_split _ _ _ _ _) Hh) as (Ht & Hc & Hr).
    destruct (read_slots_step buf p s 32 (places (p + length (slot_text s) + 1) (map slot_text l0))) as (buf1 & Hs1 & ->); [apply has_app; split; [done|by apply has_cons]|done|].
    destruct (IH buf1 (p + length (slot_text s) + 1)%nat) as (buf' & -> & Hs2); [done|done|eapply has_outside; [exact Hs1|lia|done]|]. cbn [go_bind].
    exists buf'. split; [done|]. rewrite join_cons, length_app by done. cbn [length].
    eapply outside_trans; (eapply outside_weaken; [eassumption|lia|lia]).
Qed.

(** ** A line of the answer *)

(** What Redis prints of a node: name, address, flags, four fields that are not
    read (the master's name, two times and an epoch), the state of the link, slots. *)
Record cnode := mkNode {
  n_id : list Z;
  n_ip : list Z;
  n_port : Z;
  n_bus : list Z;
  n_flags : list flag;
  n_mid : list (list Z);
  n_link : list Z;
  n_slots : list nslot
}.

Definition clean (l : list Z) : Prop := 32 ∉ l /\ 10 ∉ l.

Record node_wf (nd : cnode) : Prop := {
  wf_id : clean (n_id nd);
  wf_ip : clean (n_ip nd) /\ 0 ∉ n_ip nd /\ 58 ∉ n_ip nd;
  wf_port : 0 <= n_port nd < 65536;
  wf_bus : bus_ok (n_bus nd) /\ clean (n_bus nd);
  wf_flags : n_flags nd <> [];
  wf_mid : length (n_mid nd) = 4%nat /\ Forall clean (n_mid nd);
  wf_link : clean (n_link nd) /\ n_link nd <> [];
  wf_slots : Forall slot_wf (n_slots nd)
}.

Definition fields (nd : cnode) : list (list Z) :=
  [n_id nd; addr_text (n_ip nd) (n_port nd) (n_bus nd); join 44 (map flag_text (n_flags nd))] ++ n_mid nd ++ [n_link nd] ++ map slot_text (n_slots nd).

Definition node_line (nd : cnode) : list Z := join 32 (fields nd).

(** The slots the answer gives the node, which it lists as its own. *)
Definition own_slots (nd : cnode) : list (Z * Z) := concat (map slot_range (n_slots nd)).

(** A node that has slots is marked as a master that works; see
    [marked_masters] for the others. *)
Definition working (nd : cnode) : Prop := own_slots nd <> [] -> forallb serving (n_flags nd) = true.

Definition node_infos (inet_aton : list Z -> option Z) (nd : cnode) : list ClusterInfo :=
  let l := own_slots nd in
  if negb (bool_decide (l = [])) then [mkCluster (AddrToLong inet_aton (n_ip nd) (n_port nd)) l] else [].

Lemma clean_dec n : 0 <= n -> clean (dec n).
Proof. intros Hn. split; apply dec_no; lia. Qed.

Lemma clean_app a b : clean (a ++ b) <-> clean a /\ clean b.
Proof. unfold clean. rewrite !elem_of_app. tauto. Qed.

Lemma clean_cons c l : c <> 32 -> c <> 10 -> clean l -> clean (c :: l).
Proof. intros ? ? [? ?]. split; apply not_elem_of_cons; done. Qed.

Lemma clean_slot s : slot_wf s -> clean (slot_text s) /\ slot_text s <> [].
Proof.
  destruct s as [b|b e|w]; cbn.
  - intros Hb. split; [apply clean_dec; lia|apply dec_nonempty; lia].
  - intros [Hb He]. split; [|by destruct (dec b)]. apply clean_app. split; [apply clean_dec; lia|]. by apply clean_cons; [| |apply clean_dec; lia].
  - intros [? ?]. split; [|done]. by apply clean_cons.
Qed.

Lemma fields_clean nd : node_wf nd -> Forall clean (fields nd).
Proof.
  intros Hw. unfold fields. constructor; [apply Hw|]. constructor; [|constructor].
  - unfold addr_text. apply clean_app. split; [apply (wf_ip nd Hw)|]. apply clean_cons; [done..|]. apply clean_app. split; [apply clean_dec; pose proof (wf_port nd Hw); lia|apply (wf_bus nd Hw)].
  - split; apply flags_no; done.
  - apply Forall_app. split; [apply (wf_mid nd Hw)|]. constructor; [apply (wf_link nd Hw)|]. apply Forall_fmap. eapply Forall_impl; [apply (wf_slots nd Hw)|].
    intros s Hs. by apply clean_slot.
Qed.

(** The last field is not empty. *)
Lemma fields_last nd : node_wf nd -> exists ps q, fields nd = ps ++ [q] /\ q <> [].
Proof.
  intros Hw. unfold fields. destruct (n_slots nd) as [|s l _] eqn:E using rev_ind.
  - eexists (_ ++ n_mid nd), (n_link nd). cbn [map]. rewrite app_nil_r, app_assoc. split; [done|]. apply (wf_link nd Hw).
  - eexists (_ ++ n_mid nd ++ [n_link nd] ++ map slot_text l), (slot_text s). rewrite map_app, !app_assoc. split; [done|].
    pose proof (wf_slots nd Hw) as Hs. rewrite E in Hs. apply Forall_app in Hs as [_ Hs]. inversion_clear Hs. by apply clean_slot.
Qed.

Lemma split_line nd : node_wf nd -> forall i, split_loop (node_line nd) 32 i (mkStr i 0) = places i (fields nd).
Proof.
  intros Hw i. unfold node_line. destruct (fields_last nd Hw) as (ps & q & E & Hq). pose proof (fields_clean nd Hw) as Hc. rewrite E in *.
  apply split_join; [|done]. eapply Forall_impl; [exact Hc|]. by intros ? [? _].
Qed.

Lemma places_app ps : forall i qs, ps <> [] -> places i (ps ++ qs) = places i ps ++ places (i + length (join 32 ps) + 1) qs.
Proof.
  induction ps as [|p [|p' ps] IH]; intros i qs Hne; [done|done|]. cbn [app]. change (places i (p :: p' :: ps ++ qs)) with (mkStr i (length p) :: places (i + length p + 1) ((p' :: ps) ++ qs)).
  rewrite IH by done. rewrite (join_cons 32 p), length_app by done. cbn [length places app]. do 4 f_equal. lia.
Qed.

Lemma join_app ps qs : ps <> [] -> qs <> [] -> join 32 (ps ++ qs) = join 32 ps ++ 32 :: join 32 qs.
Proof.
  intros Hp Hq. induction ps as [|p [|p' ps] IH]; [done|by destruct qs|]. cbn [app]. rewrite !(join_cons 32 p) by done.
  change (p' :: ps ++ qs) with ((p' :: ps) ++ qs). rewrite IH by done. by rewrite <- app_assoc.
Qed.

Lemma flags_result_spec fs : forall acc, exists v, flags_result fs acc = if forallb serving fs then inr (v, true) else inl true.
Proof.
  induction fs as [|f fs IH]; intros acc; cbn [flags_result forallb]; [by eexists|]. destruct (serving f); [apply IH|by exists 0].
Qed.

Lemma flags_length fs : (length fs <= length (join 44 (map flag_text fs)))%nat.
Proof.
  induction fs as [|f [|g fs] IH]; [done|destruct f; cbn; lia|]. cbn [map]. rewrite join_cons, length_app by done. cbn [length map] in *. lia.
Qed.

(** The flags of a line, from the field on. *)
Lemma read_flags_field fs buf q c : fs <> [] -> has buf q (join 44 (map flag_text fs) ++ [c]) ->
  exists buf1 buf2 v, terminate buf (mkStr q (length (join 44 (map flag_text fs)))) = Ret buf1 /\
    read_flags (S (length buf1)) buf1 q 0 true = Ret (buf2, if forallb serving fs then inr (v, true) else inl true) /\
    same_outside q (length (join 44 (map flag_text fs)) + 1) buf buf2.
Proof.
  intros Hne Hh. destruct (terminate_has _ _ _ _ Hh) as (buf1 & E & Hs & H1). destruct fs as [|f fs]; [done|].
  pose proof (has_length _ _ _ H1 (snoc_not_nil _ _)) as Hlen. rewrite length_app in Hlen. pose proof (flags_length (f :: fs)).
  destruct (read_flags_ok f fs (S (length buf1)) buf1 q 0) as (buf2 & E2 & Hs2); [cbn [length] in *; lia|done|].
  destruct (flags_result_spec (f :: fs) 0) as [v Hv]. rewrite Hv in E2. exists buf1, buf2, v. split; [done|]. split; [done|]. by eapply outside_trans.
Qed.

(** The first eight fields. *)
Definition fixed (nd : cnode) : list (list Z) :=
  [n_id nd; addr_text (n_ip nd) (n_port nd) (n_bus nd); join 44 (map flag_text (n_flags nd))] ++ n_mid nd ++ [n_link nd].

Lemma fields_fixed nd : fields nd = fixed nd ++ map slot_text (n_slots nd).
Proof. unfold fields, fixed. by rewrite <- !app_assoc. Qed.

Lemma places_length ps : forall i, length (places i ps) = length ps.
Proof. induction ps as [|p ps IH]; intros i; [done|]. cbn. by rewrite IH. Qed.

Lemma slots_places nd p : node_wf nd -> drop 8 (places p (fields nd)) = places (p + length (join 32 (fixed nd)) + 1) (map slot_text (n_slots nd)).
Proof.
  intros Hw. rewrite fields_fixed, places_app by done. rewrite drop_app_ge; rewrite places_length; unfold fixed; rewrite !length_app, (proj1 (wf_mid nd Hw)); cbn; [|lia].
  by rewrite drop_0.
Qed.

Lemma read_slots_field nd buf p c : node_wf nd -> has buf p (node_line nd ++ [c]) ->
  forall buf1, same_outside p (length (join 32 (fixed nd)) + 1) buf buf1 ->
  exists buf2, read_slots buf1 (drop 8 (places p (fields nd))) = Ret (buf2, concat (map slot_range (n_slots nd))) /\
    same_outside (p + length (join 32 (fixed nd)) + 1) (length (node_line nd) - length (join 32 (fixed nd))) buf1 buf2.
Proof.
  intros Hw Hh buf1 Hs. rewrite slots_places by done. unfold node_line in *. rewrite fields_fixed in *. destruct (n_slots nd) as [|s l] eqn:E.
  - exists buf1. done.
  - rewrite <- E in *. assert (n_slots nd <> []) as Hne by (by rewrite E). assert (map slot_text (n_slots nd) <> []) as Hne' by (by rewrite E).
    rewrite join_app in * by done. rewrite <- app_assoc in Hh. cbn [app] in Hh. apply has_split in Hh as (_ & _ & Hh).
    destruct (read_slots_ok (n_slots nd) c buf1 (p + length (join 32 (fixed nd)) + 1)) as (buf2 & E2 & Hs2); [apply (wf_slots nd Hw)|done|eapply has_outside; [exact Hs|lia|done]|].
    exists buf2. split; [done|]. eapply outside_weaken; [exact Hs2|lia|]. rewrite length_app. cbn [length]. lia.
Qed.

(** The fields that are read, and the rest. *)
Definition head_of (nd : cnode) (r : list Z) : list Z :=
  n_id nd ++ 32 :: addr_text (n_ip nd) (n_port nd) (n_bus nd) ++ 32 :: join 44 (map flag_text (n_flags nd)) ++ 32 :: r.

Lemma fixed_head nd : exists r, join 32 (fixed nd) = head_of nd r.
Proof.
  unfold fixed, head_of. set (t := n_mid nd ++ [n_link nd]). assert (t <> []) as Ht by (unfold t; by destruct (n_mid nd)).
  exists (join 32 t). cbn [app]. by rewrite !join_cons.
Qed.

Lemma line_head nd c : exists r, node_line nd ++ [c] = head_of nd r.
Proof.
  unfold node_line, fields, head_of. set (t := n_mid nd ++ [n_link nd] ++ map slot_text (n_slots nd)). assert (t <> []) as Ht by (unfold t; by destruct (n_mid nd)).
  exists (join 32 t ++ [c]). cbn [app]. rewrite !join_cons by done. by repeat (rewrite <- app_assoc; cbn [app]).
Qed.

Lemma head_length nd r : length (head_of nd r) =
  (length (n_id nd) + 1 + length (addr_text (n_ip nd) (n_port nd) (n_bus nd)) + 1 + length (join 44 (map flag_text (n_flags nd))) + 1 + length r)%nat.
Proof. unfold head_of. rewrite !length_app. cbn [length]. rewrite !length_app. cbn [length]. rewrite !length_app. cbn [length]. lia. Qed.

(** What [GetClusterInfo] finds, with the address at [ip]. *)
Definition found (nd : cnode) (ip : nat) (v : Z) : node_info :=
  if forallb serving (n_flags nd) then mkInfo (Some ip) (n_port nd) v (concat (map slot_range (n_slots nd))) else mkInfo (Some ip) (n_port nd) 0 [].

Lemma GetClusterInfo_ok nd buf p c ip : node_wf nd -> has buf p (node_line nd ++ [c]) -> ip = (p + length (n_id nd) + 1)%nat ->
  exists buf' v, GetClusterInfo buf (places p (fields nd)) = Ret (buf', found nd ip v, true) /\
    same_outside p (length (node_line nd) + 1) buf buf' /\ has buf' p (n_id nd ++ [32]) /\ has buf' ip (n_ip nd ++ [0]).
Proof.
  intros Hw Hh Eip. destruct (wf_ip nd Hw) as (_ & Hip0 & _). destruct (wf_bus nd Hw) as [Hbus _]. pose proof Hh as Hline.
  destruct (line_head nd c) as [r Er]. destruct (fixed_head nd) as [r' Er']. rewrite Er in Hh. pose proof (head_length nd r') as Hl'. rewrite <- Er' in Hl'.
  assert (length (node_line nd) >= length (join 32 (fixed nd)))%nat as Hlen.
  { unfold node_line. rewrite fields_fixed. destruct (map slot_text (n_slots nd)) as [|x l]; [rewrite app_nil_r; lia|]. rewrite join_app, length_app by done. lia. }
  set (addr := addr_text _ _ _) in *. set (ft := join 44 _) in *.
  unfold head_of in Hh. fold addr ft in Hh. apply has_split in Hh as (Hid & Hsp & Hh). rewrite <- Eip in Hh. pose proof (proj1 (has_split _ _ _ _ _) Hh) as (Ha & Hsp2 & Hf).
  unfold GetClusterInfo. unfold fields at 1. cbn [app places elem lookup list_lookup go_bind]. rewrite <- Eip. fold addr.
  destruct (read_addr_ok buf ip (n_ip nd) (n_port nd) (n_bus nd) 32) as (buf1 & E1 & Hs1 & Hi1); [|done|apply (wf_port nd Hw)|done|].
  { apply has_app. split; [done|]. by apply has_cons. }
  fold addr in E1, Hs1. rewrite E1. cbn [go_bind]. unfold fields at 1. cbn [app places elem lookup list_lookup go_bind szChar]. rewrite <- Eip. fold addr ft.
  pose proof (proj1 (has_split _ _ _ _ _) Hf) as (Hf1 & Hf2 & _).
  destruct (read_flags_field (n_flags nd) buf1 (ip + length addr + 1) 32 (wf_flags nd Hw)) as (buf2 & buf3 & v & E2 & E3 & Hs3).
  { eapply has_outside; [exact Hs1|lia|]. apply has_app. split; [done|]. by apply has_cons. }
  fold ft in E2, Hs3. rewrite E2. cbn [go_bind]. rewrite E3. cbn [go_bind].
  assert (same_outside ip (length (join 32 (fixed nd)) - length (n_id nd)) buf1 buf3 /\ same_outside p (length (join 32 (fixed nd)) + 1) buf buf3) as [Hb1 Hb].
  { split; [eapply outside_weaken; [exact Hs3|lia|lia]|]. eapply outside_trans; (eapply outside_weaken; [eassumption|lia|lia]). }
  assert (has buf3 p (n_id nd ++ [32]) /\ has buf3 ip (n_ip nd ++ [0])) as [Hid3 Hip3].
  { split.
    - eapply has_outside; [exact Hs3|rewrite length_app; cbn; lia|]. eapply has_outside; [exact Hs1|rewrite length_app; cbn; lia|]. apply has_app. split; [done|]. by apply has_cons.
    - eapply has_outside; [exact Hs3| |exact Hi1]. unfold addr, addr_text. rewrite !length_app. cbn [length]. lia. }
  unfold found. destruct (forallb serving (n_flags nd)).
  - destruct (read_slots_field nd buf p c Hw Hline buf3 Hb) as (buf4 & E4 & Hs4). rewrite E4. cbn [go_bind]. exists buf4, v. split; [done|].
    split; [|split; (eapply has_outside; [exact Hs4| |done])].
    + eapply outside_trans; (eapply outside_weaken; [eassumption|lia|lia]).
    + rewrite length_app. cbn [length]. lia.
    + assert (length (n_ip nd) <= length addr)%nat by (unfold addr, addr_text; rewrite length_app; lia). rewrite length_app. cbn [length]. lia.
  - exists buf3, v. split; [done|]. split; [|done]. eapply outside_weaken; [exact Hb|lia|lia].
Qed.

Section answer.

Variable inet_aton : list Z -> option Z.

(** A line adds its node to the table, or nothing; the name and the address
    stay, the address as a C string. *)
Lemma parse_node_ok nd buf p c r r' : node_wf nd -> working nd -> has buf p (node_line nd ++ [c]) -> add_servers (node_infos inet_aton nd) r = Ret r' ->
  exists buf', parse_node inet_aton buf (mkStr p (length (node_line nd))) CStarted r = Ret (buf', r') /\
    same_outside p (length (node_line nd) + 1) buf buf' /\ has buf' p (n_id nd ++ [32]) /\ has buf' (p + length (n_id nd) + 1) (n_ip nd ++ [0]).
Proof.
  intros Hw Hf Hh Hr. destruct (line_head nd c) as [rest Er]. pose proof (proj1 (has_app _ _ _ _) Hh) as [Hl _].
  assert (node_line nd <> []) as Hne.
  { unfold node_line. destruct (fields_last nd Hw) as (ps & q & -> & Hq). by destruct (join_nonempty 32 ps q). }
  unfold parse_node. cbn [szChar iLen]. rewrite split_has, split_line by done. cbn [go_bind].
  assert (8 <= length (fields nd))%nat as H8 by (rewrite fields_fixed; unfold fixed; rewrite !length_app, (proj1 (wf_mid nd Hw)); cbn; lia).
  rewrite places_length. destruct (Nat.ltb_spec (length (fields nd)) 8) as [|_]; [lia|].
  destruct (GetClusterInfo_ok nd buf p c _ Hw Hh eq_refl) as (buf' & v & -> & Hs & Hid & Hip). cbn [go_bind negb]. exists buf'. split; [|done].
  unfold node_infos in Hr. unfold found, working in *. change (concat (map slot_range (n_slots nd))) with (own_slots nd).
  destruct (own_slots nd) as [|s l] eqn:El; cbn [info_slots].
  - rewrite bool_decide_true in Hr by done. injection Hr as <-. by destruct (forallb serving (n_flags nd)).
  - rewrite Hf by done. rewrite bool_decide_false in Hr by done. cbn [negb] in Hr. cbn [info_slots]. unfold server_info. cbn [szIP usPort info_slots].
    rewrite (cstr_has _ _ _ Hip) by apply (wf_ip nd Hw). cbn [go_bind]. cbn [add_servers] in Hr.
    destruct (AddRedisServer r _ _) as [[[r1 o] b]|]; [|done]. cbn [go_bind] in *. by injection Hr as <-.
Qed.

(** The line that comes a second time is passed over. *)
Lemma parse_node_again buf p n id ip c r : has buf p (id ++ [32]) -> has buf (p + length id + 1) (ip ++ [0]) -> 32 ∉ id -> 0 ∉ ip -> 58 ∉ ip ->
  (length id + 1 + length ip < n)%nat -> (p + n < length buf)%nat ->
  exists buf', parse_node inet_aton buf (mkStr p n) c r = Ret (buf', r).
Proof.
  intros Hid Hip Hs H0 H58 Hn Hlen. unfold parse_node, GR_SplitLine. cbn [szChar iLen]. destruct (Nat.eqb_spec n 0) as [|_]; [lia|].
  rewrite bool_decide_true by lia. cbn [go_bind].
  assert (exists l, l <> [] /\ take n (drop p buf) = id ++ 32 :: l) as (l & Hl & El).
  { exists (drop (length id + 1) (take n (drop p buf))). split.
    - intros E%(f_equal length). rewrite length_drop, length_take, length_drop in E. cbn in E. lia.
    - change (id ++ 32 :: ?x) with (id ++ [32] ++ x). rewrite app_assoc. rewrite <- (take_drop (length id + 1) (take n (drop p buf))) at 1. f_equal.
      apply list_eq. intros i. rewrite take_take. destruct (decide (i < length id + 1)%nat) as [Hi|Hi].
      + rewrite lookup_take_lt, lookup_drop by lia. destruct (lookup_lt_is_Some_2 (id ++ [32]) i) as [b Hb]; [rewrite length_app; cbn; lia|].
        rewrite Hb. by apply Hid.
      + rewrite lookup_take_ge by lia. symmetry. apply lookup_ge_None. rewrite length_app. cbn. lia. }
  rewrite El, split_cons by done. destruct (split_loop l 32 _ _) as [|d v'] eqn:Ev; [by exists buf|].
  destruct (Nat.ltb_spec (length (mkStr p (length id) :: d :: v')) 8) as [_|H8]; [by exists buf|]. assert (szChar d = p + length id + 1)%nat as Ed.
  { apply (split_first l 32 (p + length id + 1) _ 0 d). by rewrite Ev. }
  assert (szChar d + iLen d < length buf)%nat as Hd.
  { pose proof (split_ends l 32 (p + length id + 1) (p + length id + 1) 0 ltac:(lia)) as Hends. rewrite Ev in Hends. inversion_clear Hends as [|?? Hd _].
    apply (f_equal length) in El. rewrite length_take, length_drop, length_app in El. cbn in El. lia. }
  unfold GetClusterInfo, read_addr, terminate, put. cbn [elem lookup list_lookup go_bind]. rewrite bool_decide_true by done. cbn [go_bind]. rewrite Ed.
  destruct (cstr_put buf (p + length id + 1 + iLen d) 58 ip _ Hip H58 H0) as (s & -> & Hc). cbn [go_bind]. rewrite strrchr_none by done. cbn. eauto.
Qed.

(** ** The whole answer *)

Definition nodes_text (nodes : list cnode) : list Z := concat (map (fun nd => node_line nd ++ [10]) nodes).

Definition nodes_infos (nodes : list cnode) : list ClusterInfo := concat (map (node_infos inet_aton) nodes).

Lemma join_no dot c ps : c <> dot -> Forall (fun p => c ∉ p) ps -> c ∉ join dot ps.
Proof.
  intros Hc Hps. induction Hps as [|p ps Hp Hps IH]; [apply not_elem_of_nil|]. destruct ps as [|p' ps]; [done|].
  rewrite join_cons by done. rewrite elem_of_app, elem_of_cons. intros [?|[?|?]]; done.
Qed.

Lemma line_clean nd : node_wf nd -> 10 ∉ node_line nd /\ node_line nd <> [].
Proof.
  intros Hw. split.
  - apply join_no; [done|]. eapply Forall_impl; [by apply fields_clean|]. by intros ? [_ ?].
  - unfold node_line. destruct (fields_last nd Hw) as (ps & q & -> & Hq). by destruct (join_nonempty 32 ps q).
Qed.

(** The last line is there twice. *)
Lemma split_nodes init nd : Forall node_wf (init ++ [nd]) -> forall p,
  split_loop (nodes_text (init ++ [nd])) 10 p (mkStr p 0) = places p (map node_line (init ++ [nd])) ++ [mkStr (p + length (nodes_text init)) (length (node_line nd))].
Proof.
  induction init as [|x init IH]; intros Hw p; cbn [app map] in *; inversion_clear Hw as [|?? Hx Hw']; destruct (line_clean _ Hx) as [H10 Hne].
  - unfold nodes_text. cbn [map concat]. rewrite app_nil_r, split_last by done. cbn. by rewrite Nat.add_0_r.
  - unfold nodes_text in *. cbn [map concat]. rewrite <- app_assoc. cbn [app]. rewrite split_cons; [|done|].
    + rewrite IH by done. cbn [places app]. rewrite !length_app. cbn [length]. by rewrite !Nat.add_assoc.
    + rewrite map_app, concat_app. cbn [map concat]. intros [_ [[_ ?]%app_eq_nil _]%app_eq_nil]%app_eq_nil. done.
Qed.

Lemma add_servers_app a b r : add_servers (a ++ b) r = let! r := add_servers a r in add_servers b r.
Proof.
  revert r. induction a as [|i a IH]; intros r; [done|]. cbn [app add_servers]. destruct (AddRedisServer r i CStarted) as [[[r1 o] k]|]; [|done]. apply IH.
Qed.

Lemma parse_lines nodes : forall buf p r r' tl, Forall node_wf nodes -> Forall working nodes -> has buf p (nodes_text nodes) -> add_servers (nodes_infos nodes) r = Ret r' ->
  exists buf', parse_nodes inet_aton buf (places p (map node_line nodes) ++ tl) (fun _ => CStarted) r = parse_nodes inet_aton buf' tl (fun _ => CStarted) r' /\
    same_outside p (length (nodes_text nodes)) buf buf'.
Proof.
  induction nodes as [|nd nodes IH]; intros buf p r r' tl Hw Hf Hh Hr.
  - exists buf. injection Hr as <-. done.
  - inversion_clear Hw as [|?? Hx Hw']. inversion_clear Hf as [|?? Hfx Hf']. unfold nodes_infos in Hr. cbn [map concat] in Hr. rewrite add_servers_app in Hr.
    destruct (add_servers (node_infos inet_aton nd) r) as [r1|] eqn:E1; [|done]. cbn [go_bind] in Hr.
    unfold nodes_text in Hh |- *. cbn [map concat places app parse_nodes] in *. apply has_app in Hh as [Hh1 Hh2]. rewrite length_app in Hh2. cbn [length] in Hh2.
    destruct (parse_node_ok nd buf p 10 r r1 Hx Hfx Hh1 E1) as (buf1 & -> & Hs1 & _). cbn [go_bind].
    destruct (IH buf1 (p + length (node_line nd) + 1)%nat r1 r' tl Hw' Hf') as (buf' & E & Hs); [|done|].
    { eapply has_outside; [exact Hs1|lia|]. by rewrite <- Nat.add_assoc. }
    exists buf'. split; [exact E|]. rewrite !length_app. cbn [length].
    eapply outside_trans; (eapply outside_weaken; [eassumption|lia|]); [lia|unfold nodes_text; lia].
Qed.

Lemma places_lines init nd : forall p,
  places p (map node_line (init ++ [nd])) = places p (map node_line init) ++ [mkStr (p + length (nodes_text init)) (length (node_line nd))].
Proof.
  induction init as [|x init IH]; intros p; [cbn; by rewrite Nat.add_0_r|]. cbn [app map places]. rewrite IH.
  unfold nodes_text. cbn [map concat]. rewrite !length_app. cbn [length]. by rewrite !Nat.add_assoc.
Qed.

Lemma parse_all nodes buf p r r' : Forall node_wf nodes -> Forall working nodes -> has buf p (nodes_text nodes) -> add_servers (nodes_infos nodes) r = Ret r' ->
  exists v buf', GR_SplitLine buf p (length (nodes_text nodes)) 10 = Ret v /\ parse_nodes inet_aton buf v (fun _ => CStarted) r = Ret (buf', r').
Proof.
  intros Hw Hf Hh Hr. destruct nodes as [|nd init _] using rev_ind; [exists [], buf; by injection Hr as <-|].
  assert (nodes_text (init ++ [nd]) = nodes_text init ++ node_line nd ++ [10]) as Et by (unfold nodes_text; rewrite map_app, concat_app; cbn; by rewrite app_nil_r).
  rewrite split_has; [|done|rewrite Et; destruct (nodes_text init), (node_line nd); done]. rewrite split_nodes by done. eexists.
  unfold nodes_infos in Hr. rewrite map_app, concat_app in Hr. cbn [map concat] in Hr. rewrite app_nil_r, add_servers_app in Hr.
  destruct (add_servers (nodes_infos init) r) as [r1|] eqn:E1; unfold nodes_infos in E1; rewrite E1 in Hr; [|done]. cbn [go_bind] in Hr.
  rewrite Et in Hh. apply has_app in Hh as [Hh1 Hh2]. apply Forall_app in Hw as [Hw Hx]. inversion_clear Hx as [|?? Hx' _]. apply Forall_app in Hf as [Hf Hfx]. inversion_clear Hfx as [|?? Hfx' _].
  set (q := (p + length (nodes_text init))%nat) in *.
  rewrite places_lines, <- app_assoc. fold q. destruct (parse_lines init buf p r r1 ([mkStr q (length (node_line nd))] ++ [mkStr q (length (node_line nd))]) Hw Hf Hh1 E1) as (buf1 & -> & Hs1).
  cbn [app parse_nodes]. destruct (parse_node_ok nd buf1 q 10 r1 r' Hx' Hfx') as (buf2 & -> & Hs2 & Hid & Hip); [eapply has_outside; [exact Hs1|lia|done]|done|]. cbn [go_bind].
  destruct (line_head nd 10) as [rest Er]. pose proof (f_equal length Er) as El. rewrite head_length, length_app in El. cbn [length] in El.
  pose proof (has_length _ _ _ Hh2 (snoc_not_nil _ _)) as Hlen. rewrite length_app in Hlen. cbn [length] in Hlen.
  destruct (parse_node_again buf2 q (length (node_line nd)) (n_id nd) (n_ip nd) CStarted r') as (buf3 & ->); try done.
  - apply (wf_id nd Hx').
  - apply (wf_ip nd Hx').
  - apply (wf_ip nd Hx').
  - assert (length (n_ip nd) < length (addr_text (n_ip nd) (n_port nd) (n_bus nd)))%nat by (unfold addr_text; rewrite length_app; cbn; lia). lia.
  - rewrite (proj1 Hs2), (proj1 Hs1). lia.
  - cbn [go_bind]. eauto.
Qed.

End answer.

Lemma nodes_infos_ok inet_aton nodes : Forall node_wf nodes ->
  Forall (fun info => Forall (fun s => 0 <= fst s /\ snd s < CLUSTER_SLOTS) (listSlots info)) (nodes_infos inet_aton nodes) /\
  zlen (nodes_infos inet_aton nodes) <= zlen nodes.
Proof.
  unfold nodes_infos. induction 1 as [|nd nodes Hw _ [IH1 IH2]]; [done|]. cbn [map concat]. rewrite zlen_app, zlen_cons. unfold node_infos at 1 3.
  case_match; cbn [app]; [|split; [done|rewrite zlen_nil; lia]]. split; [|rewrite zlen_cons, zlen_nil; lia]. constructor; [|done]. cbn [listSlots].
  apply Forall_concat, Forall_fmap. eapply Forall_impl; [apply (wf_slots nd Hw)|]. intros [b|b e|w] Hs; cbn in *; repeat constructor; cbn; lia.
Qed.

(** C4: The answer to CLUSTER NODES, in Redis's format and anywhere in a buffer,
    read by a proxy in any state it can be in.  Every node that has slots is
    marked as a master that works, every connect is under way, and the nodes and
    the servers that are there are fewer than 1024.  Parsing goes through, and
    afterwards a request (for any key but "cluster") goes to the first node that
    the answer lists with the slot of its key, the CRC-16 of the part of the key
    that Redis hashes, if the slot was free; a request that had a node keeps one
    at that address; the table is ready exactly when every slot has a node. *)
Theorem cluster_nodes_served (inet_aton : list Z -> option Z) (nodes : list cnode) (buf : list Z) (p : nat) (r : croute) (times : Z)
  (Hr : reachable r) (Hnodes : Forall node_wf nodes) (Hworking : Forall working nodes) (Hmax : zlen (m_vServers r) + zlen nodes < MAX_REDIS_GROUP)
  (Hbuf : has buf p (nodes_text nodes)) :
  exists buf' r' bReady,
    ParseClusterNodes inet_aton buf p (length (nodes_text nodes)) (fun _ => CStarted) r times = Ret (buf', r', nodes_finish bReady times) /\
    reachable r' /\
    (bReady = true <-> forall slot, 0 <= slot < CLUSTER_SLOTS ->
       (exists k, m_vRedisSlot r !! Z.to_nat slot = Some (Some k)) \/ existsb (covers slot) (nodes_infos inet_aton nodes) = true) /\
    forall key part, Forall is_byte key -> hashed key part -> ~ cluster_word key ->
      answers (nodes_infos inet_aton nodes) r r' key (crc_xmodem part mod 16384).
Proof.
  pose proof Hr as Hreach. apply reachable_ok in Hr. destruct (nodes_infos_ok inet_aton nodes Hnodes) as [Hranges Hlen].
  destruct (add_servers_ok (nodes_infos inet_aton nodes) r Hr ltac:(lia) Hranges) as (r' & Ha & Hr' & Hold & How).
  destruct (parse_all inet_aton nodes buf p r r' Hnodes Hworking Hbuf Ha) as (v & buf' & Ev & Ep). unfold ParseClusterNodes. rewrite Ev. cbn [go_bind]. rewrite Ep. cbn [go_bind].
  destruct (owner_ready _ r r' Hr Hr' How) as (b & -> & Hb). cbn [go_bind]. exists buf', r', b. split; [done|]. split; [eapply add_servers_reachable; [exact Hreach| |exact Hranges|exact Ha]; lia|]. split; [done|].
  intros key part Hkey Hpart H7. rewrite <- (proxy_slot key part Hkey Hpart). apply owner_answers; [done..|]. apply How. pose proof (key_slot_range key). lia.
Qed.

Lemma has_middle a s b : has (a ++ s ++ b) (length a) s.
Proof. intros i x Hi. rewrite lookup_app_r by lia. replace (length a + i - length a)%nat with i by lia. by apply lookup_app_l_Some. Qed.

(** A master with slots, one of them on its way to another node, a replica and
    another master. *)
Definition some_nodes : list cnode :=
  [mkNode (str "07c3") (str "10.0.0.1") 7000 (str "@17000") [FMyself; FMaster] [str "-"; str "0"; str "0"; str "1"] (str "connected") [SRange 0 5460; SMoving (str "93->-e7d1]")];
   mkNode (str "6ec2") (str "10.0.0.2") 7000 (str "@17000") [FSlave] [str "07c3"; str "0"; str "9"; str "1"] (str "connected") [];
   mkNode (str "e7d1") (str "10.0.0.3") 7000 (str "@17000") [FMaster] [str "-"; str "0"; str "9"; str "2"] (str "connected") [SRange 5461 16382; SOne 16383]].

(** Facts about concrete lists, by evaluation. *)
Ltac by_decision := match goal with |- ?P => apply (bool_decide_eq_true_1 P); reflexivity end.

#[global] Instance clean_decision l : Decision (clean l).
Proof. unfold clean. apply _. Defined.

#[global] Instance slot_wf_decision s : Decision (slot_wf s).
Proof. destruct s; apply _. Defined.

Lemma some_nodes_wf : Forall node_wf some_nodes.
Proof.
  apply Forall_cons; split; [|apply Forall_cons; split; [|apply Forall_singleton]]; split; cbn; try by_decision; try done;
    (split; [right; eexists; split; [reflexivity|split; by_decision]|by_decision]).
Qed.

Lemma some_nodes_working : Forall working some_nodes.
Proof. apply Forall_cons; split; [done|apply Forall_cons; split; [|apply Forall_singleton; done]]. intros Hs. by destruct Hs. Qed.

Lemma cluster_nodes_served_witness :
  exists buf' r' bReady,
    ParseClusterNodes (fun ip => Some (zlen ip)) (str "$" ++ nodes_text some_nodes ++ [13; 10]) 1 (length (nodes_text some_nodes)) (fun _ => CStarted) new_route 0 =
      Ret (buf', r', nodes_finish bReady 0) /\
    (bReady = true <-> forall slot, 0 <= slot < CLUSTER_SLOTS ->
       (exists k, m_vRedisSlot new_route !! Z.to_nat slot = Some (Some k)) \/ existsb (covers slot) (nodes_infos (fun ip => Some (zlen ip)) some_nodes) = true) /\
    answers (nodes_infos (fun ip => Some (zlen ip)) some_nodes) new_route r' (str "foo") (crc_xmodem (str "foo") mod 16384).
Proof.
  destruct (cluster_nodes_served (fun ip => Some (zlen ip)) some_nodes (str "$" ++ nodes_text some_nodes ++ [13; 10]) 1 new_route 0 reach_new some_nodes_wf some_nodes_working)
    as (buf' & r' & b & E & _ & Hb & Hk).
  - reflexivity.
  - apply (has_middle (str "$")).
  - exists buf', r', b. split; [exact E|]. split; [exact Hb|]. apply Hk; [by repeat constructor| |intros H%Forall2_length; discriminate H].
    apply hashed_whole. intros pre tag post Ekey _ _. exfalso. assert (123 ∈ str "foo") as Hin by (rewrite Ekey; apply elem_of_app; right; left).
    revert Hin. by_decision.
Defined.

(** Masters that Redis does not let fail over, or suspects to fail, are passed
    over with their slots. *)
Definition marked : list cnode :=
  [mkNode (str "07c3") (str "10.0.0.1") 7000 [] [FMaster; FNofailover] [str "-"; str "0"; str "0"; str "1"] (str "connected") [SRange 0 8191];
   mkNode (str "e7d1") (str "10.0.0.3") 7000 [] [FMaster; FPfail] [str "-"; str "0"; str "9"; str "2"] (str "connected") [SRange 8192 16383]].

Example marked_masters :
  match ParseClusterNodes (fun ip => Some (zlen ip)) (nodes_text marked ++ [13]) 0 (length (nodes_text marked)) (fun _ => CStarted) new_route 0 with
  | Ret (_, r, _) => m_vServers r = [] /\ cluster_Route r (str "b") = Ret (None, false)
  | Panic => False
  end.
Proof. vm_compute. done. Qed.

(** ** Redirections *)

(** "MOVED slot ip:port" or "ASK slot ip:port" *)
Definition redirect_text (word slot ip : list Z) (port : Z) : list Z := join 32 [word; slot; addr_text ip port []].

Lemma find_ident_ok r a l : (forall k, k ∈ l -> is_Some (srvs r !! k)) ->
  exists o, find_ident r l a = Ret o /\ forall k, o = Some k -> exists s, srvs r !! k = Some s /\ ulIdenty s = a.
Proof.
  induction l as [|k l IH]; intros Hl; cbn [find_ident]; [by exists None|]. destruct (Hl k) as [s Hs]; [by left|].
  unfold look. rewrite Hs. cbn [go_bind]. destruct (Z.eqb_spec (ulIdenty s) a) as [E|_].
  - exists (Some k). split; [done|]. intros k' [= <-]. by exists s.
  - apply IH. intros k' Hk'. apply Hl. by right.
Qed.

Lemma GetRedis_ok r a : route_ok r -> exists o, GetRedis r a = Ret o /\ forall k, o = Some k -> exists s, srvs r !! k = Some s /\ ulIdenty s = a.
Proof.
  intros Hok. unfold GetRedis. destruct (m_mapServers r !! a) as [k|] eqn:Hm.
  - exists (Some k). split; [done|]. intros k' [= <-]. by apply (ok_map r Hok).
  - apply find_ident_ok. intros k (i & Hi)%list_elem_of_lookup. destruct (ok_vec r Hok i k Hi) as (s & Hs & _). by exists s.
Qed.

(** The address of the message. *)
Lemma redirect_addr buf q ip port c : has buf q (addr_text ip port [] ++ [c]) -> 0 ∉ ip -> 58 ∉ ip -> 0 <= port < 65536 ->
  exists buf1 buf2, terminate buf (mkStr q (length (addr_text ip port []))) = Ret buf1 /\ cstr_at buf1 q = Ret (addr_text ip port []) /\
    put buf1 (q + length ip) 0 = Ret buf2 /\ cstr_at buf2 (q + length ip + 1) = Ret (dec port) /\ cstr_at buf2 q = Ret ip.
Proof.
  intros Hh H0 H58 Hp. destruct (terminate_has _ _ _ _ Hh) as (buf1 & E1 & _ & H1). pose proof (dec_no port 0 ltac:(lia) ltac:(lia)) as Hd.
  assert (0 ∉ addr_text ip port []) as Ha by (unfold addr_text; rewrite app_nil_r, elem_of_app, elem_of_cons; intros [?|[?|?]]; done).
  pose proof (cstr_has _ _ _ H1 Ha) as Ec. unfold addr_text in H1. rewrite app_nil_r, <- app_assoc in H1. cbn [app] in H1.
  apply has_split in H1 as (Hip & Hc & Hr). destruct (put_ok buf1 q (length ip + 1) (q + length ip) 0) as (buf2 & E2 & _ & Hz & Hj); [by apply lookup_lt_Some in Hc|lia|].
  exists buf1, buf2. split_and!; try done.
  - apply cstr_has; [|done]. eapply has_put; [exact Hj|lia|done].
  - apply cstr_has; [|done]. apply has_app. split; [eapply has_put; [exact Hj|lia|done]|]. by apply has_cons.
Qed.

(** The server that is found at [a] has the event [e] of a connection that has
    been closed, and no other is connected. *)
Definition stale (r : croute) (a : Z) (e : nat) : Prop :=
  (exists k s ev, GetRedis r a = Ret (Some k) /\ srvs r !! k = Some s /\ srv_event s = Some e /\ events r !! e = Some ev /\ ev_open ev = false) /\
  forall e', ~ served_by r e' a.

(** A connected server is the one that is found at its address. *)
Lemma GetRedis_served r a e : route_ok r -> served_by r e a -> exists k s, GetRedis r a = Ret (Some k) /\ srvs r !! k = Some s /\ srv_event s = Some e.
Proof.
  intros Hok (ev & s & Hev & Ho & Hs & Ea). destruct (ok_open r Hok e ev Hev Ho) as (s' & Hs' & He & Hm & _). rewrite Hs in Hs'. injection Hs' as <-.
  exists (m_pServer ev), s. unfold GetRedis. by rewrite <- Ea, Hm.
Qed.

Lemma assigned_nil k t t' : assigned k [] t t' -> t' = t.
Proof.
  intros [Hlen Has]. apply list_eq. intros i. destruct (t !! i) as [x|] eqn:Ei; [rewrite (Has i x Ei)|].
  - destruct x; [done|]. by rewrite bool_decide_false by apply not_elem_of_nil.
  - apply lookup_ge_None. apply lookup_ge_None in Ei. lia.
Qed.

(** A server that is found has an open connection, a closed one or none. *)
Lemma found_event r a o : route_ok r -> GetRedis r a = Ret o ->
  exists oe, (match o with None => Ret None | Some k => let! s := look (srvs r) k in Ret (srv_event s) end) = Ret oe /\
    match oe with Some e => served_by r e a \/ stale r a e | None => forall e, ~ served_by r e a end.
Proof.
  intros Hok E. destruct (GetRedis_ok r a Hok) as (o' & E' & Ho). rewrite E in E'. injection E' as <-.
  assert (forall e', served_by r e' a -> exists k s, o = Some k /\ srvs r !! k = Some s /\ srv_event s = Some e') as Hsv.
  { intros e' H. destruct (GetRedis_served r a e' Hok H) as (k & s & E1 & ?). exists k, s. split; [congruence|done]. }
  destruct o as [k|]; [|exists None; split; [done|]; by intros e (? & ? & ? & _)%Hsv].
  destruct (Ho k eq_refl) as (s & Hs & Ea). unfold look. rewrite Hs. exists (srv_event s). split; [done|]. destruct (srv_event s) as [e|] eqn:He.
  - destruct (ok_event r Hok k s e Hs He) as (ev & Hev & Ek). destruct (ev_open ev) eqn:Eo; [left; exists ev, s; by rewrite Ek|].
    right. split; [by exists k, s, ev|]. intros e' H. destruct (Hsv e' H) as (k' & s' & [= <-] & Hs' & He').
    destruct H as (ev' & _ & Hev' & Ho' & _). congruence.
  - intros e' (k' & s' & [= <-] & Hs' & He')%Hsv. congruence.
Qed.

(** A MOVED or ASK reply, in any state of the proxy: the request is given the
    event of an open connection to the address of the reply, a new one when no
    server is found there, or that of a closed one when the server is stale;
    the slots stay as they are until the answer has come. *)
Lemma redirect_target_ok (inet_aton : list Z -> option Z) (word slot ip : list Z) (port c : Z) (buf : list Z) (p : nat) (cn : conn) (r : croute)
  (Hr : reachable r) (Hcn : in_progress cn) (Hword : 32 ∉ word) (Hslot : 32 ∉ slot)
  (Hip : 32 ∉ ip /\ 0 ∉ ip /\ 58 ∉ ip) (Hport : 0 <= port < 65536) (Hbuf : has buf p (redirect_text word slot ip port ++ [c])) :
  exists buf' r' o,
    redirect_target inet_aton buf p (length (redirect_text word slot ip port)) cn r = Ret (buf', r', o) /\ reachable r' /\ m_vRedisSlot r' = m_vRedisSlot r /\
    match o with
    | Some e => served_by r' e (AddrToLong inet_aton ip port) \/ (r' = r /\ stale r (AddrToLong inet_aton ip port) e)
    | None => (cn = CNoSocket \/ full r) /\ forall e, ~ served_by r e (AddrToLong inet_aton ip port)
    end.
Proof.
  destruct Hip as (Hip32 & Hip0 & Hip58). pose proof (reachable_ok r Hr) as Hok. set (a := AddrToLong inet_aton ip port).
  assert (addr_text ip port [] <> []) as Hne by (unfold addr_text; by destruct ip).
  assert (32 ∉ addr_text ip port []) as H32.
  { unfold addr_text. rewrite app_nil_r, elem_of_app, elem_of_cons. pose proof (dec_no port 32 ltac:(lia) ltac:(lia)). intros [?|[?|?]]; done. }
  assert (redirect_text word slot ip port = word ++ 32 :: slot ++ 32 :: addr_text ip port []) as Et by done.
  pose proof Hbuf as Hbuf'. rewrite Et, <- app_assoc in Hbuf'. cbn [app] in Hbuf'. apply has_split in Hbuf' as (_ & _ & Hbuf').
  rewrite <- app_assoc in Hbuf'. cbn [app] in Hbuf'. apply has_split in Hbuf' as (_ & _ & Hbuf').
  destruct (redirect_addr _ _ _ _ _ Hbuf' Hip0 Hip58 Hport) as (buf1 & buf2 & E1 & E2 & E3 & E4 & E5).
  unfold redirect_target. rewrite split_has; [|by apply has_app in Hbuf as [? _]|rewrite Et; by destruct word].
  rewrite Et, split_cons by (done || by destruct slot). rewrite split_cons, split_one by done. cbn [go_bind length Nat.eqb negb elem lookup list_lookup szChar].
  rewrite E1. cbn [go_bind]. rewrite E2. cbn [go_bind]. unfold addr_text at 1. rewrite strchr_found by done. rewrite E3. cbn [go_bind]. rewrite E4. cbn [go_bind].
  rewrite atoi_dec by lia. cbn [go_bind]. rewrite E5. cbn [go_bind]. rewrite (wrap_small 16 port) by lia. fold a.
  destruct (GetRedis_ok r a Hok) as (o & Eo & _). rewrite Eo. cbn [go_bind]. destruct (found_event r a o Hok Eo) as (oe & -> & Hoe). cbn [go_bind].
  destruct oe as [e|].
  - exists buf2, r, (Some e). split_and!; try done. destruct Hoe as [Hsv|Hst]; [by left|by right].
  - destruct (AddRedisServer_ok r (mkCluster a []) cn Hok Hcn (Forall_nil_2 _)) as [[-> Hfull]|(r' & k & s & b & E & _ & _ & Hs & _ & _ & Has & Hev & Hb)].
    + exists buf2, r, None. split_and!; try done. by right.
    + rewrite E. cbn [go_bind]. pose proof (reach_add r (mkCluster a []) cn r' (Some k) b Hr Hcn (Forall_nil_2 _) E) as Hr'. destruct b.
      * destruct (Hev eq_refl) as (e & Ee & Hsv). unfold look. rewrite Hs. cbn [go_bind]. rewrite Ee. exists buf2, r', (Some e).
        split_and!; try done; [by eapply assigned_nil|by left].
      * exists buf2, r', None. split_and!; try done. left. by apply Hb.
Qed.

(** The servers at 1, 2 and 3 are added and the first connection is lost: the
    third server takes the first one's place but keeps the index 2.  When its
    own connection is lost, it stays in the array and in the map, and a request
    that is redirected to its address is given the closed connection. *)
Example stale_index :
  match (let! r := add_servers [mkCluster 1 []; mkCluster 2 []; mkCluster 3 []] new_route in
         let! r := event_Close r 1 in
         let! r := event_Close r 5 in
         let! o := GetRedis r 3 in Ret (r, o)) with
  | Ret (r, Some k) => m_vServers r = [k; 2%nat] /\ srvs r !! k = Some (mkSrv 3 2 (Some 5%nat)) /\ events r !! 5%nat = Some (mkEv k false false)
  | _ => False
  end.
Proof. vm_compute. done. Qed.

(** A line without a trailing separator is cut into its pieces; with one, the
    last piece comes twice. *)
Example split_twice : GR_SplitLine (str "ab c ") 0 4 32 = Ret [mkStr 0 2; mkStr 3 1] /\ GR_SplitLine (str "ab c ") 0 5 32 = Ret [mkStr 0 2; mkStr 3 1; mkStr 3 1].
Proof. done. Qed.
