(* ===== verification/Redirect.v ===== *)
(** * proxy/redisevent.cpp: redirected requests

    A server of a cluster that does not have the slot of a request replies MOVED
    or ASK with the address of another one; [GR_RedisEvent::SlotPending] then
    sends the request there instead of handing on the reply, and notes a slot
    that has moved once the other server has answered.  The reply is at the
    start of its block.  Of [SendMsg], which is in Forward, this file has the test
    of the connection's status: an event that is not connected answers the client
    with an error, and one that is takes the request, if its ring has room. *)

From S2P Require Import Prelude Gostrings Resp Crc16 Hashes Redismsg Clusterroute Clusternodes.

(** What [SlotPending] uses of a [GR_MsgIdenty]. *)
Record identy := mkIdenty { bRedirect : bool; iMovedTimes : Z; iAskTimes : Z; iSlot : Z }.

(** What becomes of the reply: it is handed on, the request is sent to an event
    (after ASKING or not) and joins its ring, or the client gets an error. *)
Inductive outcome := HandOn | SendTo (e : nat) (bAsking : bool) | RspDisconnect | RspMoved | RspCommErr.

(** [strNicmp] on the first bytes. *)
Definition icmp_text (buf w : list Z) : bool :=
  (length w <=? length buf)%nat && forallb (fun '(x, c) => (x =? c) || (x =? Z.lxor c 32)) (zip buf w).

Definition IS_MOVED_REDIRECT (buf : list Z) (iLen : nat) : bool := (5 <? iLen)%nat && icmp_text buf (str "-moved").
Definition IS_ASK_REDIRECT (buf : list Z) (iLen : nat) : bool := (3 <? iLen)%nat && icmp_text buf (str "-ask").

Definition count (n : Z) : go Z := if n + 1 <? 2 ^ 31 then Ret (n + 1) else Panic.

(** [SlotChanged] of an identity that has been redirected. *)
Definition note_slot (id : identy) (me : nat) (r : croute) : go croute :=
  if bRedirect id then SlotChanged r (iAskTimes id) (iSlot id) me else Ret r.

(** [SendMsg] as far as it tests the status, behind ASKING or not; the identity
    of ASKING has no client, so that only the request is answered. *)
Definition SendMsg (r : croute) (e : nat) (bAsking : bool) : go outcome :=
  let! ev := look (events r) e in
  Ret (if ev_ok ev then SendTo e bAsking else RspDisconnect).

Section pending.

Variable inet_aton : list Z -> option Z.

(** [SlotRedirect] of the line without its sign and its end. *)
Definition redirect (buf : list Z) (iLen : nat) (bAsking : bool) (c : conn) (r : croute) : go (croute * outcome) :=
  let! (buf, r, o) := redirect_target inet_aton buf 1 (iLen - 3) c r in
  let! out := match o with Some e => SendMsg r e bAsking | None => Ret RspCommErr end in
  Ret (r, out).

(** The reply has [iLen] bytes; [me] is the event, [c] what comes of a
    connection that is made. *)
Definition SlotPending (buf : list Z) (iLen : nat) (iErrFlag : Z) (c : conn) (me : nat) (id : identy) (r : croute) : go (croute * identy * outcome) :=
  if iErrFlag =? 0 then let! r := note_slot id me r in Ret (r, id, HandOn)
  else if IS_MOVED_REDIRECT buf iLen then
    let! n := count (iMovedTimes id) in
    let id := mkIdenty true n (iAskTimes id) (iSlot id) in
    if 1024 <? n then Ret (r, id, RspMoved)
    else let! (r, o) := redirect buf iLen false c r in Ret (r, id, o)
  else if IS_ASK_REDIRECT buf iLen then
    let! n := count (iAskTimes id) in
    let id := mkIdenty false (iMovedTimes id) n (iSlot id) in
    let! (r, o) := redirect buf iLen true c r in Ret (r, id, o)
  else let! r := note_slot id me r in Ret (r, id, HandOn).

(** ** Redirections *)

(** A reply that redirects to an address. *)
Definition redirect_reply (word slot ip : list Z) (port : Z) : list Z := 45 :: redirect_text word slot ip port ++ [13; 10].

Lemma icmp_has buf w l : has buf 0 l -> (length w <= length l)%nat -> icmp_text buf w = forallb (fun '(x, c) => (x =? c) || (x =? Z.lxor c 32)) (zip l w).
Proof.
  intros Hh Hl. assert (take (length l) buf = l) as E.
  { apply list_eq. intros i. destruct (decide (i < length l)%nat) as [Hi|Hi].
    - destruct (lookup_lt_is_Some_2 l i Hi) as [b Hb]. rewrite lookup_take_lt, Hb by done. by apply (Hh i b).
    - rewrite (lookup_ge_None_2 l) by lia. apply lookup_ge_None_2. rewrite length_take. lia. }
  unfold icmp_text. assert (length l <= length buf)%nat by (rewrite <- E, length_take; lia).
  destruct (Nat.leb_spec (length w) (length buf)); [|lia]. cbn [andb]. rewrite <- (take_drop (length l) buf), E. f_equal.
  generalize (drop (length l) buf) as t. intros t. clear - Hl. revert w Hl. induction l as [|x l IH]; intros [|c w] Hl; cbn in Hl |- *; try done; [by destruct t|lia|]. f_equal. apply IH. lia.
Qed.

Lemma reply_length word slot ip port : (length word + 5 <= length (redirect_reply word slot ip port))%nat.
Proof.
  unfold redirect_reply. cbn [length]. rewrite length_app. unfold redirect_text. cbn [join]. repeat (rewrite length_app; cbn [length]). lia.
Qed.

(** What becomes of a request that is redirected to [a] when [cn] comes of a
    connection: it joins the ring of an open connection to [a].  Otherwise the
    client gets an error: the server that is found there lost its connection and
    no other is connected, or no new one could be had. *)
Definition resent (a : Z) (cn : conn) (r r' : croute) (bAsking : bool) (out : outcome) : Prop :=
  (exists e, out = SendTo e bAsking /\ served_by r' e a) \/
  (out = RspDisconnect /\ r' = r /\ exists e, stale r a e) \/
  (out = RspCommErr /\ (cn = CNoSocket \/ full r) /\ forall e, ~ served_by r e a).

Lemma SendMsg_served r e a bAsking : reachable r -> served_by r e a -> SendMsg r e bAsking = Ret (SendTo e bAsking).
Proof.
  intros Hr (ev & s & Hev & Ho & _). unfold SendMsg, look. rewrite Hev. cbn [go_bind]. by rewrite (ok_same r (reachable_ok r Hr) e ev Hev), Ho.
Qed.

Lemma SendMsg_stale r e a bAsking : reachable r -> stale r a e -> SendMsg r e bAsking = Ret RspDisconnect.
Proof.
  intros Hr [(k & s & ev & _ & _ & _ & Hev & Ho) _]. unfold SendMsg, look. rewrite Hev. cbn [go_bind]. by rewrite (ok_same r (reachable_ok r Hr) e ev Hev), Ho.
Qed.

Lemma redirect_ok word slot ip port buf cn r bAsking : reachable r -> in_progress cn -> 32 ∉ word -> 32 ∉ slot ->
  32 ∉ ip /\ 0 ∉ ip /\ 58 ∉ ip -> 0 <= port < 65536 -> has buf 0 (redirect_reply word slot ip port) ->
  exists r' out, redirect buf (length (redirect_reply word slot ip port)) bAsking cn r = Ret (r', out) /\ reachable r' /\
    m_vRedisSlot r' = m_vRedisSlot r /\ resent (AddrToLong inet_aton ip port) cn r r' bAsking out.
Proof.
  intros Hr Hcn Hw Hs Hip Hp Hh. unfold redirect_reply in Hh. apply has_cons in Hh as [_ Hh].
  change [13; 10] with ([13] ++ [10]) in Hh. rewrite app_assoc in Hh. apply has_app in Hh as [Hh _].
  destruct (redirect_target_ok inet_aton word slot ip port 13 buf 1 cn r Hr Hcn Hw Hs Hip Hp Hh) as (buf' & r' & o & E & Hr' & Hsl & H).
  unfold redirect, redirect_reply. cbn [length]. rewrite length_app. cbn [length].
  replace (S (length (redirect_text word slot ip port) + 2) - 3)%nat with (length (redirect_text word slot ip port)) by lia.
  rewrite E. cbn [go_bind]. exists r'. destruct o as [e|].
  - destruct H as [Hsv|[-> Hst]].
    + rewrite (SendMsg_served _ _ _ _ Hr' Hsv). exists (SendTo e bAsking). split_and!; try done. left. by exists e.
    + rewrite (SendMsg_stale _ _ _ _ Hr Hst). exists RspDisconnect. split_and!; try done. right; left. split_and!; try done. by exists e.
  - exists RspCommErr. split_and!; try done. right; right. destruct H as [H Hno]. by split_and!.
Qed.

(** The two replies are told apart. *)
Lemma moved_text buf slot ip port : has buf 0 (redirect_reply (str "MOVED") slot ip port) ->
  IS_MOVED_REDIRECT buf (length (redirect_reply (str "MOVED") slot ip port)) = true.
Proof.
  intros Hh. pose proof (reply_length (str "MOVED") slot ip port) as Hl. change (length (str "MOVED")) with 5%nat in Hl. unfold IS_MOVED_REDIRECT.
  rewrite (icmp_has buf (str "-moved") _ Hh) by (change (length (str "-moved")) with 6%nat; lia). destruct (Nat.ltb_spec 5 (length (redirect_reply (str "MOVED") slot ip port))); [done|lia].
Qed.

Lemma ask_text buf slot ip port : has buf 0 (redirect_reply (str "ASK") slot ip port) ->
  IS_MOVED_REDIRECT buf (length (redirect_reply (str "ASK") slot ip port)) = false /\ IS_ASK_REDIRECT buf (length (redirect_reply (str "ASK") slot ip port)) = true.
Proof.
  intros Hh. pose proof (reply_length (str "ASK") slot ip port) as Hl. change (length (str "ASK")) with 3%nat in Hl. unfold IS_MOVED_REDIRECT, IS_ASK_REDIRECT.
  rewrite (icmp_has buf (str "-moved") _ Hh), (icmp_has buf (str "-ask") _ Hh) by (change (length (str "-moved")) with 6%nat || change (length (str "-ask")) with 4%nat; lia).
  destruct (Nat.ltb_spec 3 (length (redirect_reply (str "ASK") slot ip port))); [|lia]. split; [by rewrite andb_false_r|done].
Qed.

(** A later answer of the server moves the slot, unless ASK came in between. *)
Lemma note_slot_ok id me ev r : reachable r -> events r !! me = Some ev -> ev_open ev = true -> 0 <= iSlot id < CLUSTER_SLOTS ->
  exists r', note_slot id me r = Ret r' /\ reachable r' /\
    m_vRedisSlot r' = if bRedirect id && negb (0 <? iAskTimes id) then <[Z.to_nat (iSlot id) := Some (m_pServer ev)]> (m_vRedisSlot r) else m_vRedisSlot r.
Proof.
  intros Hr Hev Ho Hi. unfold note_slot. destruct (bRedirect id); [|by exists r]. cbn [andb].
  destruct (SlotChanged_ok r (iAskTimes id) (iSlot id) me ev (reachable_ok r Hr) Hev Ho Hi) as (r' & E & _).
  exists r'. split; [done|]. split; [by eapply reach_slot|]. revert E. unfold SlotChanged, look. destruct (0 <? iAskTimes id); cbn [negb]; [by intros [= <-]|].
  rewrite Hev. cbn [go_bind]. replace ((0 <=? iSlot id) && (iSlot id <? CLUSTER_SLOTS)) with true by lia. by intros [= <-].
Qed.

(** C37: Redirections of a cluster, in any state of the proxy, when every connect
    is under way or no socket can be had.  After MOVED the request joins the ring
    of an open connection to the address of the reply, and after ASK too, behind
    ASKING; this is so whenever a server there is connected.  Otherwise the client
    gets an error: the server that is found there has lost its connection, no
    socket could be had, or there are 1023 servers already.  The slots stay as
    they are.  When a connected server then answers, the answer is handed on; the
    slot is the server's if MOVED was the last redirection and there was never an
    ASK, and stays as it is otherwise.  After 1024 times MOVED the client gets an
    error, so that servers that point at each other do not keep a request for
    ever. *)
Theorem redirects_followed (slot ip : list Z) (port : Z) (buf : list Z) (cn : conn) (me : nat) (id : identy) (r : croute)
  (Hr : reachable r) (Hcn : in_progress cn) (Hslot : 32 ∉ slot)
  (Hip : 32 ∉ ip /\ 0 ∉ ip /\ 58 ∉ ip) (Hport : 0 <= port < 65536) (Hid : 0 <= iSlot id < CLUSTER_SLOTS)
  (Htimes : 0 <= iMovedTimes id <= 1024 /\ 0 <= iAskTimes id < 2 ^ 31 - 1) :
  let goes r' out asking := reachable r' /\ m_vRedisSlot r' = m_vRedisSlot r /\ resent (AddrToLong inet_aton ip port) cn r r' asking out in
  (has buf 0 (redirect_reply (str "MOVED") slot ip port) ->
     exists r' out, SlotPending buf (length (redirect_reply (str "MOVED") slot ip port)) 1 cn me id r =
       Ret (r', mkIdenty true (iMovedTimes id + 1) (iAskTimes id) (iSlot id), out) /\
       if iMovedTimes id <? 1024 then goes r' out false else out = RspMoved /\ r' = r) /\
  (has buf 0 (redirect_reply (str "ASK") slot ip port) ->
     exists r' out, SlotPending buf (length (redirect_reply (str "ASK") slot ip port)) 1 cn me id r =
       Ret (r', mkIdenty false (iMovedTimes id) (iAskTimes id + 1) (iSlot id), out) /\ goes r' out true) /\
  (forall n flag ev, flag = 0 \/ (IS_MOVED_REDIRECT buf n = false /\ IS_ASK_REDIRECT buf n = false) -> events r !! me = Some ev -> ev_open ev = true ->
     exists r', SlotPending buf n flag cn me id r = Ret (r', id, HandOn) /\ reachable r' /\
     m_vRedisSlot r' = if bRedirect id && negb (0 <? iAskTimes id) then <[Z.to_nat (iSlot id) := Some (m_pServer ev)]> (m_vRedisSlot r) else m_vRedisSlot r).
Proof.
  intros goes. destruct Htimes as [Hm Ha]. split; [|split].
  - intros Hh. unfold SlotPending. cbn [Z.eqb]. rewrite (moved_text buf _ _ _ Hh). unfold count. destruct (Z.ltb_spec (iMovedTimes id + 1) (2 ^ 31)); [|lia]. cbn [go_bind].
    destruct (Z.ltb_spec 1024 (iMovedTimes id + 1)); destruct (Z.ltb_spec (iMovedTimes id) 1024); try lia; [by exists r, RspMoved|].
    destruct (redirect_ok (str "MOVED") slot ip port buf cn r false Hr Hcn ltac:(by_decision) Hslot Hip Hport Hh) as (r' & out & -> & H').
    by exists r', out.
  - intros Hh. unfold SlotPending. cbn [Z.eqb]. destruct (ask_text buf _ _ _ Hh) as [-> ->]. unfold count. destruct (Z.ltb_spec (iAskTimes id + 1) (2 ^ 31)); [|lia]. cbn [go_bind].
    destruct (redirect_ok (str "ASK") slot ip port buf cn r true Hr Hcn ltac:(by_decision) Hslot Hip Hport Hh) as (r' & out & -> & H').
    by exists r', out.
  - intros n flag ev Hflag Hev Ho. unfold SlotPending. destruct (note_slot_ok id me ev r Hr Hev Ho Hid) as (r' & -> & H). exists r'. split; [|done].
    destruct Hflag as [-> | [-> ->]]; [done|]. by destruct (flag =? 0).
Qed.

End pending.

(** MOVED to a node that is not known yet. *)
Lemma redirects_followed_witness :
  exists r' out, SlotPending (fun ip => Some (zlen ip)) (redirect_reply (str "MOVED") (str "3999") (str "127.0.0.1") 6381) 29 1 CStarted 0 (mkIdenty false 0 0 3999) new_route =
    Ret (r', mkIdenty true 1 0 3999, out).
Proof.
  destruct (redirects_followed (fun ip => Some (zlen ip)) (str "3999") (str "127.0.0.1") 6381 (redirect_reply (str "MOVED") (str "3999") (str "127.0.0.1") 6381) CStarted 0
              (mkIdenty false 0 0 3999) new_route reach_new) as [H _]; [by left|by_decision|by_decision|lia|cbn; unfold CLUSTER_SLOTS; lia|cbn; lia|].
  destruct H as (r' & out & E & _); [intros i b Hi; exact Hi|]. exists r', out. exact E.
Defined.

(** ASK has no bound: a request that is asked over and over is sent each time. *)
Example ask_unbounded : exists r e,
  SlotPending (fun ip => Some (zlen ip)) (redirect_reply (str "ASK") (str "1") (str "h") 7) 13 1 CStarted 0 (mkIdenty false 0 5000 1) new_route =
    Ret (r, mkIdenty false 0 5001 1, SendTo e true).
Proof. eexists _, _. reflexivity. Qed.

(** The server at 3 has lost its connection but stays in the map, as in
    [stale_index]: a request that is redirected to it gets an error. *)
Example stale_redirect :
  match (let! r := add_servers [mkCluster 4294967297 []; mkCluster 4294967298 []; mkCluster 4294967299 []] new_route in
         let! r := event_Close r 1 in
         let! r := event_Close r 5 in
         SlotPending (fun ip => Some (zlen ip)) (redirect_reply (str "MOVED") (str "1") (str "h") 3) 15 1 CStarted 0 (mkIdenty false 0 0 1) r) with
  | Ret (_, _, out) => out = RspDisconnect
  | Panic => False
  end.
Proof. vm_compute. done. Qed.
