(* ===== verification/Timer.v ===== *)
(** * common/gr_timer.cpp: the timers of the proxy

    [GR_Timer] keeps its timers in two doubly linked lists, one of timers in
    use and one of free ones from a pool of [GR_TIMER_POOL_SIZE]; the event loop
    calls [Loop], which runs the callbacks that are due.  A timer has an
    address, here a number: the pool has the first ones.  The use of a deleted
    timer is [Panic], and so is a failed [ASSERT].

    A callback may add timers, end them and move them; what the [i]-th callback
    of a call of [Loop] does is a list of such acts.  The pool's size is a
    parameter of the constructor, so that small pools can be evaluated. *)

From S2P Require Import Prelude.

Definition GR_TIMER_POOL_SIZE : nat := Z.to_nat 0x3FFF.
Definition GR_EVENT_TT : Z := 1000.

(** [GR_TimerMeta]; the callback with its data is a number. *)
Record meta := mkMeta {
  bReuse : bool;
  bPoolMeta : bool;
  bInUse : bool;
  ulMS : Z;
  ulNextMS : Z;
  pCB : nat;
  pPreMeta : option nat;
  pNextMeta : option nat
}.

Definition set_pre (o : option nat) (m : meta) : meta :=
  mkMeta (bReuse m) (bPoolMeta m) (bInUse m) (ulMS m) (ulNextMS m) (pCB m) o (pNextMeta m).
Definition set_next (o : option nat) (m : meta) : meta :=
  mkMeta (bReuse m) (bPoolMeta m) (bInUse m) (ulMS m) (ulNextMS m) (pCB m) (pPreMeta m) o.
Definition set_unused (m : meta) : meta :=
  mkMeta (bReuse m) (bPoolMeta m) false (ulMS m) (ulNextMS m) (pCB m) (pPreMeta m) (pNextMeta m).
Definition set_due (ms : Z) (m : meta) : meta :=
  mkMeta (bReuse m) (bPoolMeta m) (bInUse m) (ulMS m) ms (pCB m) (pPreMeta m) (pNextMeta m).

(** [Finish] and [Use] *)
Definition meta_Finish (m : meta) : meta :=
  mkMeta false (bPoolMeta m) false (ulMS m) (ulNextMS m) (pCB m) (pPreMeta m) (pNextMeta m).
Definition meta_Use (cb : nat) (ms : Z) (reuse : bool) (now : Z) (m : meta) : meta :=
  mkMeta reuse (bPoolMeta m) true ms (u64 (now + ms)) cb (pPreMeta m) (pNextMeta m).

Record timer := mkTimer {
  metas : gmap nat meta;
  fresh : nat;
  m_pFreeMeta : option nat;
  m_pUsingMeta : option nat
}.

(** The constructor. *)
Definition pool_meta (n i : nat) : meta :=
  mkMeta false true false 0 0 0 (match i with O => None | S j => Some j end) (if (S i =? n)%nat then None else Some (S i)).

Definition new_timer (n : nat) : timer :=
  mkTimer (list_to_map ((fun i => (i, pool_meta n i)) <$> seq 0 n)) n (Some 0%nat) None.

Definition get (t : timer) (p : nat) : go meta := match metas t !! p with Some m => Ret m | None => Panic end.

Definition modify (t : timer) (p : nat) (f : meta -> meta) : go timer :=
  match metas t !! p with
  | Some m => Ret (mkTimer (<[p := f m]> (metas t)) (fresh t) (m_pFreeMeta t) (m_pUsingMeta t))
  | None => Panic
  end.

(** A write through a pointer that may be null. *)
Definition modify_opt (t : timer) (o : option nat) (f : meta -> meta) : go timer :=
  match o with Some p => modify t p f | None => Ret t end.

Definition set_free (t : timer) (o : option nat) : timer := mkTimer (metas t) (fresh t) o (m_pUsingMeta t).
Definition set_using (t : timer) (o : option nat) : timer := mkTimer (metas t) (fresh t) (m_pFreeMeta t) o.

Definition AddTimer (t : timer) (cb : nat) (ms : Z) (reuse : bool) (now : Z) : go (timer * nat) :=
  let! (t, p) :=
    match m_pFreeMeta t with
    | None =>
        let p := fresh t in
        Ret (mkTimer (<[p := mkMeta false false false 0 0 0 None None]> (metas t)) (S p) None (m_pUsingMeta t), p)
    | Some p =>
        let! m := get t p in
        let t := set_free t (pNextMeta m) in
        let! t := modify_opt t (m_pFreeMeta t) (set_pre None) in Ret (t, p)
    end in
  let! t := modify t p (meta_Use cb ms reuse now) in
  let! t := modify t p (set_next (m_pUsingMeta t)) in
  let! t := modify t p (set_pre None) in
  let! t := modify_opt t (m_pUsingMeta t) (set_pre (Some p)) in
  Ret (set_using t (Some p), p).

Definition DelTimer (t : timer) (p : nat) : go timer :=
  let! t := modify t p set_unused in
  let! m := get t p in
  let! t := modify_opt t (pPreMeta m) (set_next (pNextMeta m)) in
  let! t := modify_opt t (pNextMeta m) (set_pre (pPreMeta m)) in
  let t := if bool_decide (m_pUsingMeta t = Some p) then set_using t (pNextMeta m) else t in
  if bPoolMeta m then
    let! t := modify t p (set_pre None) in
    let! t := match m_pFreeMeta t with
              | Some f => let! t := modify t p (set_next (Some f)) in modify t f (set_pre (Some p))
              | None => Ret t
              end in
    Ret (set_free t (Some p))
  else Ret (mkTimer (delete p (metas t)) (fresh t) (m_pFreeMeta t) (m_pUsingMeta t)).

(** [Finish], [SetTriggerMS] and [AddTriggerMS] by pointer. *)
Definition Finish (t : timer) (p : nat) : go timer := modify t p meta_Finish.
Definition SetTriggerMS (t : timer) (p : nat) (ms : Z) : go timer := modify t p (set_due ms).
Definition AddTriggerMS (t : timer) (p : nat) (ms : Z) : go timer := modify t p (fun m => set_due (u64 (ulNextMS m + ms)) m).

(** [AddTriggerMS] by index: a timer of the pool, and any other is passed over. *)
Definition AddTriggerMS_at (t : timer) (ulIndex ms : Z) : go timer :=
  if 0 <? ulIndex then
    if ulIndex <? Z.of_nat GR_TIMER_POOL_SIZE then AddTriggerMS t (Z.to_nat ulIndex) ms else Ret t
  else Panic.

(** What the rest of the proxy does with timers. *)
Inductive act :=
| ActAdd (cb : nat) (ms : Z) (reuse : bool) (now : Z)
| ActFinish (p : nat)
| ActSet (p : nat) (ms : Z)
| ActMove (p : nat) (ms : Z).

Definition do_act (t : timer) (a : act) : go timer :=
  match a with
  | ActAdd cb ms reuse now => let! (t, _) := AddTimer t cb ms reuse now in Ret t
  | ActFinish p => Finish t p
  | ActSet p ms => SetTriggerMS t p ms
  | ActMove p ms => AddTriggerMS t p ms
  end.

Fixpoint do_acts (t : timer) (l : list act) : go timer :=
  match l with
  | [] => Ret t
  | a :: l => let! t := do_act t a in do_acts t l
  end.

(** The loop of [Loop] from [pMeta] on, with the callbacks that have run;
    [acts i] is what the [i]-th callback does. *)
Fixpoint loop (fuel : nat) (acts : nat -> list act) (now : Z) (t : timer) (pMeta : option nat) (fired : list nat) (mix : Z) : go (timer * list nat * Z) :=
  match pMeta with
  | None => Ret (t, fired, mix)
  | Some p =>
      if (length fired <? 10)%nat then
        match fuel with
        | O => Panic
        | S fuel =>
            let! m := get t p in
            if negb (bInUse m) then
              let! t := DelTimer t p in loop fuel acts now t (pNextMeta m) fired mix
            else if ulNextMS m <=? now then
              let cb := pCB m in
              let! t := do_acts t (acts (length fired)) in
              let! m := get t p in
              let next := pNextMeta m in
              if bReuse m then
                let due := u64 (now + ulMS m) in
                let! t := modify t p (set_due due) in
                loop fuel acts now t next (fired ++ [cb]) (if due <? mix then due else mix)
              else
                let! t := DelTimer t p in loop fuel acts now t next (fired ++ [cb]) mix
            else loop fuel acts now t (pNextMeta m) fired (if ulNextMS m <? mix then ulNextMS m else mix)
        end
      else Ret (t, fired, mix)
  end.

(** With the callbacks that ran, in order, and [ulMix]; the number of timers
    that exist bounds the rounds. *)
Definition Loop (acts : nat -> list act) (t : timer) (now : Z) : go (timer * list nat * Z) :=
  loop (size (metas t)) acts now t (m_pUsingMeta t) [] (u64 (now + GR_EVENT_TT)).

(** ** The two lists *)

Definition nx (h : gmap nat meta) (p : nat) : option nat := h !! p ≫= pNextMeta.
Definition pv (h : gmap nat meta) (p : nat) : option nat := h !! p ≫= pPreMeta.

(** The timers [l] are linked in both directions. *)
Definition links (h : gmap nat meta) (l : list nat) : Prop :=
  forall i p, l !! i = Some p -> nx h p = l !! S i /\ pv h p = match i with O => None | S j => l !! j end.

Lemma nx_next h o q p : is_Some (h !! q) -> nx (alter (set_next o) q h) p = if decide (q = p) then o else nx h p.
Proof. intros [m Hm]. unfold nx. rewrite lookup_alter. case_decide as E; [|done]. by rewrite Hm. Qed.

Lemma pv_pre h o q p : is_Some (h !! q) -> pv (alter (set_pre o) q h) p = if decide (q = p) then o else pv h p.
Proof. intros [m Hm]. unfold pv. rewrite lookup_alter. case_decide as E; [|done]. by rewrite Hm. Qed.

Lemma nx_same h f q p : (forall m, pNextMeta (f m) = pNextMeta m) -> nx (alter f q h) p = nx h p.
Proof. intros Hf. unfold nx. rewrite lookup_alter. case_decide as E; [|done]. subst. destruct (h !! p); cbn; [apply Hf|done]. Qed.

Lemma pv_same h f q p : (forall m, pPreMeta (f m) = pPreMeta m) -> pv (alter f q h) p = pv h p.
Proof. intros Hf. unfold pv. rewrite lookup_alter. case_decide as E; [|done]. subst. destruct (h !! p); cbn; [apply Hf|done]. Qed.

Definition alter_opt (f : meta -> meta) (o : option nat) (h : gmap nat meta) : gmap nat meta := match o with Some p => alter f p h | None => h end.

(** What a timer is set to, apart from its links. *)
Record ent := mkEnt { e_reuse : bool; e_use : bool; e_ms : Z; e_next : Z; e_cb : nat }.

Definition entry_of (m : meta) : ent := mkEnt (bReuse m) (bInUse m) (ulMS m) (ulNextMS m) (pCB m).

Definition data (h : gmap nat meta) (p : nat) : ent := match h !! p with Some m => entry_of m | None => mkEnt false false 0 0 0 end.

Lemma data_same h f q p : (forall m, entry_of (f m) = entry_of m) -> data (alter f q h) p = data h p.
Proof. intros Hf. unfold data. rewrite lookup_alter. case_decide as E; [|done]. subst. destruct (h !! p); cbn; [apply Hf|done]. Qed.

Lemma data_same_opt h f o p : (forall m, entry_of (f m) = entry_of m) -> data (alter_opt f o h) p = data h p.
Proof. intros Hf. destruct o; [by apply data_same|done]. Qed.

Lemma data_alter h f g q p : is_Some (h !! q) -> (forall m, entry_of (f m) = g (entry_of m)) -> data (alter f q h) p = if decide (q = p) then g (data h p) else data h p.
Proof. intros [m Hm] Hf. unfold data. rewrite lookup_alter. case_decide as E; [|done]. subst. rewrite Hm. cbn. apply Hf. Qed.

Definition with_metas (t : timer) (h : gmap nat meta) : timer := mkTimer h (fresh t) (m_pFreeMeta t) (m_pUsingMeta t).

Lemma modify_alter t p f : is_Some (metas t !! p) -> modify t p f = Ret (with_metas t (alter f p (metas t))).
Proof.
  intros [m Hm]. unfold modify, with_metas. rewrite Hm. do 2 f_equal. apply map_eq. intros q. rewrite lookup_alter, lookup_insert. case_decide; [|done]. by rewrite Hm.
Qed.

Lemma modify_opt_alter t o f : (forall p, o = Some p -> is_Some (metas t !! p)) -> modify_opt t o f = Ret (with_metas t (alter_opt f o (metas t))).
Proof. intros Ho. destruct o as [p|]; [|by destruct t]. by apply modify_alter, Ho. Qed.

Lemma alter_opt_dom f o h p : is_Some (alter_opt f o h !! p) <-> is_Some (h !! p).
Proof. destruct o; [apply lookup_alter_is_Some|done]. Qed.

(** The pool's timers are in one of the lists each. *)
Record timer_ok (n : nat) (t : timer) (fl ul : list nat) : Prop := {
  tk_free : m_pFreeMeta t = head fl;
  tk_using : m_pUsingMeta t = head ul;
  tk_fl : links (metas t) fl;
  tk_ul : links (metas t) ul;
  tk_nodup : NoDup (fl ++ ul);
  tk_all : forall p, p ∈ fl ++ ul <-> (p < n)%nat;
  tk_dom : forall p, is_Some (metas t !! p) <-> (p < n)%nat;
  tk_pool : forall p m, metas t !! p = Some m -> bPoolMeta m = true
}.

Lemma new_timer_lookup n p : metas (new_timer n) !! p = if decide (p < n)%nat then Some (pool_meta n p) else None.
Proof.
  cbn. case_decide as Hp.
  - apply elem_of_list_to_map_1.
    + rewrite <- list_fmap_compose. rewrite (list_fmap_ext _ id) by done. rewrite list_fmap_id. apply NoDup_seq.
    + apply list_elem_of_fmap. exists p. split; [done|]. apply elem_of_seq. lia.
  - apply not_elem_of_list_to_map_1. rewrite <- list_fmap_compose. intros (q & -> & Hq)%list_elem_of_fmap. apply elem_of_seq in Hq. cbn in Hp. lia.
Qed.

Lemma new_timer_ok n : (0 < n)%nat -> timer_ok n (new_timer n) (seq 0 n) [].
Proof.
  intros Hn. split.
  - destruct n; [lia|done].
  - done.
  - intros i p Hi. apply lookup_seq in Hi as [-> Hi]. unfold nx, pv. rewrite new_timer_lookup, decide_True by lia. cbn -[Nat.eqb seq]. split.
    + destruct (Nat.eqb_spec (S i) n) as [->|Hne]; symmetry; [apply lookup_seq_ge; lia|apply lookup_seq; lia].
    + destruct i as [|i]; [done|]. symmetry. apply lookup_seq. lia.
  - done.
  - rewrite app_nil_r. apply NoDup_seq.
  - intros p. rewrite app_nil_r, elem_of_seq. lia.
  - intros p. rewrite new_timer_lookup. case_decide; [split; [done|by eexists]|split; [by intros []|done]].
  - intros p m. rewrite new_timer_lookup. case_decide; [|done]. by intros [= <-].
Qed.

Section with_pool.

Context (n : nat).

Lemma ok_mem t fl ul p : timer_ok n t fl ul -> p ∈ fl ++ ul -> is_Some (metas t !! p).
Proof. intros Hok Hp. by apply (tk_dom n t fl ul Hok), (tk_all n t fl ul Hok). Qed.

Lemma head_elem (l : list nat) p : head l = Some p -> p ∈ l.
Proof. destruct l; [done|]. intros [= ->]. by left. Qed.

Lemma lookup_inj (l : list nat) i j p : NoDup l -> l !! i = Some p -> l !! j = Some p -> i = j.
Proof. intros Hl Hi Hj. by apply (NoDup_lookup l i j p). Qed.

(** A timer is taken from the front of one list and put in front of the
    other. *)
Lemma links_push h l p : links h l -> p ∉ l -> NoDup l -> is_Some (h !! p) -> (forall q, head l = Some q -> is_Some (h !! q)) ->
  links (alter_opt (set_pre (Some p)) (head l) (alter (set_pre None) p (alter (set_next (head l)) p h))) (p :: l).
Proof.
  intros Hl Hp Hnd Hdp Hdq.
  set (h1 := alter (set_pre None) p (alter (set_next (head l)) p h)).
  assert (forall x, nx h1 x = if decide (p = x) then head l else nx h x) as Hn1.
  { intros x. unfold h1. rewrite nx_same by done. by rewrite nx_next. }
  assert (forall x, pv h1 x = if decide (p = x) then None else pv h x) as Hp1.
  { intros x. unfold h1. rewrite pv_pre by (by apply lookup_alter_is_Some). case_decide; [done|]. by rewrite pv_same. }
  assert (forall x, nx (alter_opt (set_pre (Some p)) (head l) h1) x = nx h1 x) as Hn.
  { intros x. destruct (head l); [|done]. by apply nx_same. }
  assert (forall x, pv (alter_opt (set_pre (Some p)) (head l) h1) x = if decide (head l = Some x) then Some p else pv h1 x) as Hv.
  { intros x. destruct (head l) as [q|] eqn:Eq; [|by rewrite decide_False]. cbn [alter_opt]. rewrite pv_pre.
    - destruct (decide (q = x)) as [->|]; [by rewrite decide_True|]. rewrite decide_False; [done|]. congruence.
    - unfold h1. rewrite !lookup_alter_is_Some. by apply Hdq. }
  assert (forall x, x ∈ l -> p <> x) as Hne by (intros x Hx ->; done).
  intros i x Hi. rewrite Hn, Hv, Hn1, Hp1. destruct i as [|i]; cbn in Hi |- *.
  - injection Hi as <-. rewrite !decide_True by done. split; [by destruct l|]. rewrite decide_False; [by rewrite decide_True|]. intros E. by apply Hp, head_elem.
  - pose proof (list_elem_of_lookup_2 _ _ _ Hi) as Hx. rewrite !(decide_False (P := p = x)) by (by apply Hne). destruct (Hl i x Hi) as [-> ->]. split; [done|].
    rewrite head_lookup. destruct i as [|i]; [by rewrite decide_True|]. rewrite decide_False; [done|]. intros E. pose proof (lookup_inj l 0 (S i) x Hnd E Hi). lia.
Qed.

Lemma links_ext h h' l : (forall x, x ∈ l -> nx h' x = nx h x /\ pv h' x = pv h x) -> links h l -> links h' l.
Proof. intros Hx Hl i p Hi. destruct (Hx p (list_elem_of_lookup_2 _ _ _ Hi)) as [-> ->]. by apply Hl. Qed.

(** The first timer leaves. *)
Lemma links_pop h l p : links h (p :: l) -> NoDup (p :: l) -> (forall q, head l = Some q -> is_Some (h !! q)) -> links (alter_opt (set_pre None) (head l) h) l.
Proof.
  intros Hl Hnd Hdq i x Hi. destruct (Hl (S i) x Hi) as [Hn Hv]. split.
  - transitivity (nx h x); [|exact Hn]. destruct (head l); [by apply nx_same|done].
  - destruct (head l) as [q|] eqn:Eq; cbn [alter_opt].
    + rewrite pv_pre by (by apply Hdq). rewrite head_lookup in Eq. apply NoDup_cons in Hnd as [_ Hnd]. destruct i as [|i].
      * rewrite decide_True; [done|]. congruence.
      * rewrite decide_False; [done|]. intros ->. pose proof (lookup_inj l 0 (S i) x Hnd Eq Hi). lia.
    + destruct l; done.
Qed.

(** A timer leaves the middle. *)
Lemma links_remove h a p b : links h (a ++ p :: b) -> NoDup (a ++ p :: b) -> (forall x, x ∈ a ++ p :: b -> is_Some (h !! x)) ->
  links (alter_opt (set_pre (pv h p)) (nx h p) (alter_opt (set_next (nx h p)) (pv h p) h)) (a ++ b).
Proof.
  intros Hl Hnd Hd. set (l := a ++ p :: b) in *. assert (l !! length a = Some p) as Hp by (unfold l; by rewrite list_lookup_middle).
  destruct (Hl _ _ Hp) as [Hpn Hpv].
  assert (forall q, nx h p = Some q -> is_Some (h !! q)) as Hdn by (intros q Hq; apply Hd; rewrite Hpn in Hq; by apply list_elem_of_lookup_2 in Hq).
  assert (forall q, pv h p = Some q -> is_Some (h !! q)) as Hdv.
  { intros q Hq. apply Hd. rewrite Hpv in Hq. destruct (length a) as [|j]; [done|]. by apply list_elem_of_lookup_2 in Hq. }
  assert (forall x, nx (alter_opt (set_pre (pv h p)) (nx h p) (alter_opt (set_next (nx h p)) (pv h p) h)) x = if decide (pv h p = Some x) then nx h p else nx h x) as Hn.
  { intros x. transitivity (nx (alter_opt (set_next (nx h p)) (pv h p) h) x); [destruct (nx h p); [by apply nx_same|done]|].
    destruct (pv h p) as [q|] eqn:Eq; [|by rewrite decide_False]. cbn [alter_opt]. rewrite nx_next by (by apply Hdv).
    destruct (decide (q = x)) as [->|]; [by rewrite decide_True|]. rewrite decide_False; [done|congruence]. }
  assert (forall x, pv (alter_opt (set_pre (pv h p)) (nx h p) (alter_opt (set_next (nx h p)) (pv h p) h)) x = if decide (nx h p = Some x) then pv h p else pv h x) as Hv.
  { intros x. assert (forall y, pv (alter_opt (set_next (nx h p)) (pv h p) h) y = pv h y) as Hy by (intros y; destruct (pv h p); [by apply pv_same|done]).
    destruct (nx h p) as [q|] eqn:Eq; [|rewrite decide_False by done; apply Hy]. cbn [alter_opt] in *. rewrite pv_pre.
    - destruct (decide (q = x)) as [->|]; [by rewrite decide_True|]. rewrite decide_False; [apply Hy|congruence].
    - apply alter_opt_dom. by apply Hdn. }
  intros i x Hi. rewrite Hn, Hv. clear Hn Hv Hdn Hdv Hd. apply lookup_app_Some in Hi as [Hi|[Hge Hi]].
  - pose proof (lookup_lt_Some _ _ _ Hi) as Hlt. assert (l !! i = Some x) as Hi' by (unfold l; by rewrite lookup_app_l). destruct (Hl i x Hi') as [Hnx Hvx]. split.
    + rewrite Hpv. destruct (length a) as [|j] eqn:Ea; [lia|]. destruct (decide (i = j)) as [->|Hne].
      * rewrite decide_True by done. rewrite Hpn. unfold l. rewrite !lookup_app_r by lia. by replace (S (S j) - length a)%nat with 1%nat by lia; replace (S j - length a)%nat with 0%nat by lia.
      * rewrite decide_False by (intros E; pose proof (lookup_inj l j i x Hnd E Hi'); lia). rewrite Hnx. unfold l. by rewrite !lookup_app_l by lia.
    + rewrite decide_False; [rewrite Hvx; destruct i; [done|]; unfold l; by rewrite !lookup_app_l by lia|].
      rewrite Hpn. intros E. pose proof (lookup_inj l _ i x Hnd E Hi'). lia.
  - assert (l !! S i = Some x) as Hi'.
    { unfold l. rewrite lookup_app_r by lia. by replace (S i - length a)%nat with (S (i - length a)) by lia. }
    destruct (Hl _ x Hi') as [Hnx Hvx]. split.
    + rewrite decide_False.
      * rewrite Hnx. unfold l. rewrite !lookup_app_r by lia. by replace (S (S i) - length a)%nat with (S (S i - length a)) by lia.
      * rewrite Hpv. destruct (length a) as [|j] eqn:Ea; [done|]. intros E. pose proof (lookup_inj l j (S i) x Hnd E Hi'). lia.
    + rewrite Hpn. destruct (decide (i = length a)) as [->|Hne].
      * rewrite decide_True by done. rewrite Hpv. destruct (length a) as [|j] eqn:Ea; [done|]. unfold l. by rewrite !lookup_app_l by lia.
      * rewrite decide_False by (intros E; pose proof (lookup_inj l _ (S i) x Hnd E Hi'); lia). rewrite Hvx.
        destruct i as [|i]; [lia|]. unfold l. rewrite !lookup_app_r by lia. by replace (S i - length a)%nat with (S (i - length a)) by lia.
Qed.

Lemma dom_alter_opt f o h : (forall p, is_Some (h !! p) <-> (p < n)%nat) -> forall p, is_Some (alter_opt f o h !! p) <-> (p < n)%nat.
Proof. intros Hh p. by rewrite alter_opt_dom. Qed.

Lemma pool_alter_opt f o h : (forall m, bPoolMeta (f m) = bPoolMeta m) -> (forall p m, h !! p = Some m -> bPoolMeta m = true) ->
  forall p m, alter_opt f o h !! p = Some m -> bPoolMeta m = true.
Proof.
  intros Hf Hh p m Hm. destruct o as [q|]; [|by apply (Hh p)]. cbn in Hm. apply lookup_alter_Some in Hm as [(-> & m' & Hm' & ->)|[_ Hm]]; [|by apply (Hh p)].
  rewrite Hf. by apply (Hh p).
Qed.

(** Writing to another timer leaves the links of [x] as they are. *)
Lemma links_ne f o h x : o <> Some x -> nx (alter_opt f o h) x = nx h x /\ pv (alter_opt f o h) x = pv h x.
Proof. intros Ho. destruct o as [q|]; [|done]. unfold nx, pv. cbn. rewrite lookup_alter_ne by congruence. done. Qed.

Lemma links_ne1 f p h x : p <> x -> nx (alter f p h) x = nx h x /\ pv (alter f p h) x = pv h x.
Proof. intros Hp. apply (links_ne f (Some p)). congruence. Qed.

Lemma AddTimer_ok t p fl ul cb ms reuse now : timer_ok n t (p :: fl) ul ->
  exists t', AddTimer t cb ms reuse now = Ret (t', p) /\ timer_ok n t' fl (p :: ul) /\
    forall q, data (metas t') q = if decide (p = q) then mkEnt reuse true ms (u64 (now + ms)) cb else data (metas t) q.
Proof.
  intros Hok. pose proof (tk_nodup _ _ _ _ Hok) as Hnd. assert (forall x, x ∈ (p :: fl) ++ ul -> is_Some (metas t !! x)) as Hd by (intros x; by apply ok_mem).
  assert (is_Some (metas t !! p)) as [m Hm] by (apply Hd; by left). set (h := metas t) in *.
  assert (pNextMeta m = head fl) as Em.
  { destruct (tk_fl _ _ _ _ Hok 0%nat p eq_refl) as [E _]. unfold nx in E. fold h in E. rewrite Hm in E. cbn in E. rewrite E. by destruct fl. }
  unfold AddTimer. rewrite (tk_free _ _ _ _ Hok). cbn [head]. unfold get. fold h. rewrite Hm. cbn [go_bind]. rewrite Em.
  assert (forall q, head fl = Some q -> is_Some (h !! q)) as Hdf by (intros q Hq; apply Hd; right; apply elem_of_app; left; by apply head_elem).
  assert (forall q, head ul = Some q -> is_Some (h !! q)) as Hdu by (intros q Hq; apply Hd; apply elem_of_app; right; by apply head_elem).
  cbn [m_pFreeMeta set_free]. rewrite modify_opt_alter by done. cbn [go_bind metas set_free with_metas]. fold h.
  set (h0 := alter_opt (set_pre None) (head fl) h). assert (forall x, is_Some (h0 !! x) <-> is_Some (h !! x)) as Hd0 by (intros; apply alter_opt_dom).
  rewrite modify_alter by (cbn; rewrite Hd0; by exists m). cbn [go_bind metas with_metas]. set (h1 := alter (meta_Use _ _ _ _) p h0).
  assert (forall x, is_Some (h1 !! x) <-> is_Some (h !! x)) as Hd1 by (intros; unfold h1; by rewrite lookup_alter_is_Some).
  rewrite modify_alter by (cbn; rewrite Hd1; by exists m). cbn [go_bind metas with_metas m_pUsingMeta set_free].
  rewrite modify_alter by (cbn; rewrite lookup_alter_is_Some, Hd1; by exists m). cbn [go_bind metas with_metas m_pUsingMeta set_free].
  rewrite (tk_using _ _ _ _ Hok). rewrite modify_opt_alter by (intros q Hq; cbn; rewrite !lookup_alter_is_Some, Hd1; by apply Hdu).
  cbn [go_bind metas with_metas set_using set_free fresh m_pFreeMeta]. eexists. split; [done|].
  apply NoDup_app in Hnd as (Hndf & Hdis & Hndu). assert (p ∉ ul) as Hpu by (apply Hdis; by left). pose proof Hndf as Hndf'. apply NoDup_cons in Hndf as [Hpf Hndf].
  split; [split|].
  - done.
  - done.
  - cbn [metas set_using with_metas set_free]. eapply links_ext; [|apply (links_pop h fl p (tk_fl _ _ _ _ Hok) Hndf' Hdf)]. fold h0. intros x Hx.
    assert (p <> x) as Hpx by (by intros ->). assert (head ul <> Some x) as Hux by (intros E%head_elem; apply (Hdis x); [by right|done]).
    destruct (links_ne (set_pre (Some p)) _ (alter (set_pre None) p (alter (set_next (head ul)) p h1)) x Hux) as [-> ->].
    unfold h1. by rewrite !(fun f h => proj1 (links_ne1 f p h x Hpx)), !(fun f h => proj2 (links_ne1 f p h x Hpx)).
  - cbn [metas set_using with_metas set_free]. apply (links_push h1 ul p); [|done|done|rewrite Hd1; by exists m|intros q Hq; rewrite Hd1; by apply Hdu].
    eapply links_ext; [|apply (tk_ul _ _ _ _ Hok)]. intros x Hx. fold h. assert (p <> x) as Hpx by (by intros ->).
    assert (head fl <> Some x) as Hfx by (intros E%head_elem; apply (Hdis x); [by right|done]).
    unfold h1. destruct (links_ne1 (meta_Use cb ms reuse now) p h0 x Hpx) as [-> ->]. by apply links_ne.
  - rewrite <- Permutation_middle. apply (tk_nodup _ _ _ _ Hok).
  - intros q. rewrite <- (tk_all _ _ _ _ Hok q). cbn. rewrite !elem_of_app, !elem_of_cons, !elem_of_app. tauto.
  - intros q. cbn [metas set_using with_metas set_free]. rewrite alter_opt_dom, !lookup_alter_is_Some, Hd1. apply (tk_dom _ _ _ _ Hok).
  - cbn [metas set_using with_metas set_free]. apply pool_alter_opt; [done|]. apply (pool_alter_opt (set_pre None) (Some p)); [done|]. apply (pool_alter_opt (set_next (head ul)) (Some p)); [done|].
    apply (pool_alter_opt (meta_Use cb ms reuse now) (Some p)); [done|]. apply pool_alter_opt; [done|]. apply (tk_pool _ _ _ _ Hok).
  - intros q. cbn [metas set_using with_metas set_free]. transitivity (data h1 q).
    + destruct (head ul); cbn [alter_opt]; by rewrite !data_same.
    + unfold h1. rewrite (data_alter _ _ (fun _ => mkEnt reuse true ms (u64 (now + ms)) cb)) by (done || rewrite Hd0; by exists m).
      destruct (decide (p = q)); [done|]. unfold h0. destruct (head fl); cbn [alter_opt]; [by rewrite data_same|done].
Qed.

Lemma alter_pre_next (h : gmap nat meta) p o o' : alter (set_next o) p (alter (set_pre o') p h) = alter (set_pre o') p (alter (set_next o) p h).
Proof. apply map_eq. intros q. rewrite !lookup_alter. case_decide; [|done]. rewrite !decide_True by done. by destruct (h !! p). Qed.

(** The heap after [DelTimer]. *)
Definition deleted (h : gmap nat meta) (p f : nat) : gmap nat meta :=
  let h1 := alter set_unused p h in
  let h2 := alter_opt (set_pre (pv h1 p)) (nx h1 p) (alter_opt (set_next (nx h1 p)) (pv h1 p) h1) in
  alter (set_pre (Some p)) f (alter (set_pre None) p (alter (set_next (Some f)) p h2)).

Lemma DelTimer_run t p f m : metas t !! p = Some m -> bPoolMeta m = true -> m_pFreeMeta t = Some f -> is_Some (metas t !! f) ->
  (forall q, nx (metas t) p = Some q -> is_Some (metas t !! q)) -> (forall q, pv (metas t) p = Some q -> is_Some (metas t !! q)) ->
  DelTimer t p = Ret (mkTimer (deleted (metas t) p f) (fresh t) (Some p) (if bool_decide (m_pUsingMeta t = Some p) then nx (metas t) p else m_pUsingMeta t)).
Proof.
  intros Hm Hpool Hf Hdf Hdn Hdv. unfold DelTimer. rewrite modify_alter by (by exists m). cbn [go_bind]. unfold get. cbn [metas with_metas].
  unfold deleted. set (h := metas t) in *. set (h1 := alter set_unused p h). assert (h1 !! p = Some (set_unused m)) as Hm1 by (unfold h1; by rewrite lookup_alter_eq, Hm).
  assert (nx h1 p = pNextMeta m /\ nx h p = pNextMeta m) as [-> En] by (unfold nx; by rewrite Hm1, Hm).
  assert (pv h1 p = pPreMeta m /\ pv h p = pPreMeta m) as [-> Ev] by (unfold pv; by rewrite Hm1, Hm). rewrite En in *. rewrite Ev in *.
  assert (forall x, is_Some (h1 !! x) <-> is_Some (h !! x)) as Hd1 by (intros; unfold h1; by rewrite lookup_alter_is_Some).
  rewrite Hm1. cbn [go_bind pPreMeta pNextMeta set_unused bPoolMeta]. rewrite Hpool.
  rewrite modify_opt_alter by (intros q Hq; cbn; rewrite Hd1; by apply Hdv). cbn [go_bind metas with_metas].
  rewrite modify_opt_alter by (intros q Hq; cbn; rewrite alter_opt_dom, Hd1; by apply Hdn). cbn [go_bind metas with_metas m_pUsingMeta].
  set (h2 := alter_opt _ (pNextMeta m) _). assert (forall x, is_Some (h2 !! x) <-> is_Some (h !! x)) as Hd2 by (intros; unfold h2; by rewrite !alter_opt_dom, Hd1).
  set (t2 := if bool_decide _ then _ else _). assert (t2 = mkTimer h2 (fresh t) (Some f) (if bool_decide (m_pUsingMeta t = Some p) then pNextMeta m else m_pUsingMeta t)) as ->.
  { unfold t2. case_bool_decide; unfold set_using, with_metas; cbn; by rewrite Hf. }
  rewrite modify_alter by (cbn; rewrite Hd2; by exists m). cbn [go_bind metas with_metas m_pFreeMeta].
  rewrite modify_alter by (cbn; rewrite lookup_alter_is_Some, Hd2; by exists m). cbn [go_bind metas with_metas].
  rewrite modify_alter by (cbn; by rewrite !lookup_alter_is_Some, Hd2). cbn [go_bind]. unfold set_free, with_metas. cbn [metas fresh m_pUsingMeta m_pFreeMeta].
  by rewrite alter_pre_next.
Qed.

Lemma DelTimer_ok t f fl a p b : timer_ok n t (f :: fl) (a ++ p :: b) ->
  exists t', DelTimer t p = Ret t' /\ timer_ok n t' (p :: f :: fl) (a ++ b) /\ forall q, p <> q -> data (metas t') q = data (metas t) q.
Proof.
  intros Hok. pose proof (tk_nodup _ _ _ _ Hok) as Hnd. assert (forall x, x ∈ (f :: fl) ++ a ++ p :: b -> is_Some (metas t !! x)) as Hd by (intros x; by apply ok_mem).
  assert (is_Some (metas t !! p)) as [m Hm] by (apply Hd; set_solver).
  assert ((a ++ p :: b) !! length a = Some p) as Hp by (by rewrite list_lookup_middle). destruct (tk_ul _ _ _ _ Hok _ _ Hp) as [Hpn Hpv].
  rewrite (DelTimer_run t p f m Hm (tk_pool _ _ _ _ Hok p m Hm) (tk_free _ _ _ _ Hok)); [|apply Hd; by left| |].
  2: { intros q Hq. apply Hd, elem_of_app. right. rewrite Hpn in Hq. by apply list_elem_of_lookup_2 in Hq. }
  2: { intros q Hq. apply Hd, elem_of_app. right. rewrite Hpv in Hq. destruct (length a); [done|]. by apply list_elem_of_lookup_2 in Hq. }
  eexists. split; [done|]. apply NoDup_app in Hnd as (Hndf & Hdis & Hndu). set (h := metas t) in *.
  assert (p ∉ f :: fl) as Hpf by (intros Hin; apply (Hdis p Hin); rewrite elem_of_app, elem_of_cons; tauto).
  set (h1 := alter set_unused p h). assert (forall x, nx h1 x = nx h x) as Hnx by (intros; by apply nx_same). assert (forall x, pv h1 x = pv h x) as Hpx by (intros; by apply pv_same).
  assert (forall x, is_Some (h1 !! x) <-> is_Some (h !! x)) as Hd1 by (intros; unfold h1; by rewrite lookup_alter_is_Some).
  assert (forall l, links h l -> links h1 l) as Hl1 by (intros l; apply links_ext; auto).
  split; [split|]; cbn [metas m_pFreeMeta m_pUsingMeta].
  - done.
  - rewrite (tk_using _ _ _ _ Hok), Hpn. destruct a as [|x a]; cbn.
    + rewrite bool_decide_true by done. by destruct b.
    + rewrite bool_decide_false; [done|]. intros [= ->]. apply NoDup_cons in Hndu as [Hx _]. apply Hx. rewrite elem_of_app, elem_of_cons. tauto.
  - unfold deleted. fold h1. rewrite Hnx, Hpx. apply (links_push _ (f :: fl) p); [|done|done| |].
    + eapply links_ext; [|apply Hl1, (tk_fl _ _ _ _ Hok)]. intros x Hx. pose proof (Hdis x Hx) as Hxu.
      assert (nx h p <> Some x) as H1 by (rewrite Hpn; intros E%list_elem_of_lookup_2; done).
      assert (pv h p <> Some x) as H2 by (rewrite Hpv; destruct (length a); [done|]; intros E%list_elem_of_lookup_2; done).
      destruct (links_ne (set_pre (pv h p)) _ (alter_opt (set_next (nx h p)) (pv h p) h1) x H1) as [-> ->]. by apply links_ne.
    + rewrite !alter_opt_dom, Hd1. by exists m.
    + intros q [= <-]. rewrite !alter_opt_dom, Hd1. apply Hd. by left.
  - unfold deleted. fold h1. eapply links_ext; [|apply (links_remove h1 a p b); [apply Hl1, (tk_ul _ _ _ _ Hok)|done|]].
    + intros x Hx. assert (p <> x /\ f <> x) as [Hpx' Hfx].
      { split; intros <-; [|apply (Hdis f); [by left|]; rewrite elem_of_app, elem_of_cons in *; tauto].
        apply NoDup_app in Hndu as (_ & Hd1' & Hd2'). apply elem_of_app in Hx as [Hx|Hx]; [apply (Hd1' p Hx); by left|]. by apply NoDup_cons in Hd2' as [? _]. }
      rewrite (proj1 (links_ne1 _ f _ x Hfx)), (proj2 (links_ne1 _ f _ x Hfx)).
      by rewrite !(fun g k => proj1 (links_ne1 g p k x Hpx')), !(fun g k => proj2 (links_ne1 g p k x Hpx')).
    + intros x Hx. rewrite Hd1. apply Hd, elem_of_app. by right.
  - assert ((p :: f :: fl) ++ a ++ b ≡ₚ (f :: fl) ++ a ++ p :: b) as -> by (cbn; solve_Permutation). apply (tk_nodup _ _ _ _ Hok).
  - intros q. rewrite <- (tk_all _ _ _ _ Hok q). set_solver.
  - intros q. unfold deleted. rewrite !lookup_alter_is_Some, !alter_opt_dom. fold h1. rewrite Hd1. apply (tk_dom _ _ _ _ Hok).
  - unfold deleted. apply (pool_alter_opt (set_pre (Some p)) (Some f)); [done|]. apply (pool_alter_opt (set_pre None) (Some p)); [done|].
    apply (pool_alter_opt (set_next (Some f)) (Some p)); [done|]. apply pool_alter_opt; [done|]. apply pool_alter_opt; [done|].
    apply (pool_alter_opt set_unused (Some p)); [done|]. apply (tk_pool _ _ _ _ Hok).
  - intros q Hq. unfold deleted. rewrite !data_same by done. transitivity (data h1 q).
    + by rewrite !data_same_opt.
    + unfold h1, data. by rewrite lookup_alter_ne.
Qed.

End with_pool.

(** ** The timers as a list *)

(** The newest first, with what they are set to. *)
Notation timers := (list (nat * ent)) (only parsing).

Definition view (t : timer) (ul : list nat) : timers := (fun p => (p, data (metas t) p)) <$> ul.

Definition supd (p : nat) (g : ent -> ent) (l : timers) : timers := (fun x => if decide (p = fst x) then (fst x, g (snd x)) else x) <$> l.
Definition sdel (p : nat) (l : timers) : timers := filter (fun x => p <> fst x) l.

Definition e_finish (e : ent) : ent := mkEnt false false (e_ms e) (e_next e) (e_cb e).
Definition e_due (ms : Z) (e : ent) : ent := mkEnt (e_reuse e) (e_use e) (e_ms e) ms (e_cb e).

Inductive spec_act (l : timers) : act -> timers -> Prop :=
| sp_add cb ms reuse now p : p ∉ l.*1 -> spec_act l (ActAdd cb ms reuse now) ((p, mkEnt reuse true ms (u64 (now + ms)) cb) :: l)
| sp_finish p : spec_act l (ActFinish p) (supd p e_finish l)
| sp_set p ms : spec_act l (ActSet p ms) (supd p (e_due ms) l)
| sp_move p ms : spec_act l (ActMove p ms) (supd p (fun e => e_due (u64 (e_next e + ms)) e) l).

Inductive spec_acts : timers -> list act -> timers -> Prop :=
| sp_nil l : spec_acts l [] l
| sp_cons l a l1 al l2 : spec_act l a l1 -> spec_acts l1 al l2 -> spec_acts l (a :: al) l2.

(** [Loop] on the list: the timers there are at the start are looked at in turn,
    until ten callbacks have run. *)
Inductive spec_loop (acts : nat -> list act) (now : Z) : list nat -> list nat -> Z -> timers -> list nat -> Z -> timers -> Prop :=
| sl_end fired mix l : spec_loop acts now [] fired mix l fired mix l
| sl_max todo fired mix l : (10 <= length fired)%nat -> spec_loop acts now todo fired mix l fired mix l
| sl_ended p e todo fired mix l fired' mix' l' : (length fired < 10)%nat -> (p, e) ∈ l -> e_use e = false ->
    spec_loop acts now todo fired mix (sdel p l) fired' mix' l' -> spec_loop acts now (p :: todo) fired mix l fired' mix' l'
| sl_again p e e1 todo fired mix l l1 fired' mix' l' : (length fired < 10)%nat -> (p, e) ∈ l -> e_use e = true -> e_next e <= now ->
    spec_acts l (acts (length fired)) l1 -> (p, e1) ∈ l1 -> e_reuse e1 = true ->
    spec_loop acts now todo (fired ++ [e_cb e]) (Z.min mix (u64 (now + e_ms e1))) (supd p (e_due (u64 (now + e_ms e1))) l1) fired' mix' l' ->
    spec_loop acts now (p :: todo) fired mix l fired' mix' l'
| sl_once p e e1 todo fired mix l l1 fired' mix' l' : (length fired < 10)%nat -> (p, e) ∈ l -> e_use e = true -> e_next e <= now ->
    spec_acts l (acts (length fired)) l1 -> (p, e1) ∈ l1 -> e_reuse e1 = false ->
    spec_loop acts now todo (fired ++ [e_cb e]) mix (sdel p l1) fired' mix' l' -> spec_loop acts now (p :: todo) fired mix l fired' mix' l'
| sl_wait p e todo fired mix l fired' mix' l' : (length fired < 10)%nat -> (p, e) ∈ l -> e_use e = true -> now < e_next e ->
    spec_loop acts now todo fired (Z.min mix (e_next e)) l fired' mix' l' -> spec_loop acts now (p :: todo) fired mix l fired' mix' l'.

(** Pointers to timers of the pool. *)
Definition act_ok (n : nat) (a : act) : Prop := match a with ActAdd _ _ _ _ => True | ActFinish p | ActSet p _ | ActMove p _ => (p < n)%nat end.

Definition is_add (a : act) : bool := match a with ActAdd _ _ _ _ => true | _ => false end.
Definition adds (l : list act) : nat := length (List.filter is_add l).

(** Timers that callbacks from the [k]-th on may add. *)
Definition room (acts : nat -> list act) (k : nat) : nat := list_sum (map (fun i => adds (acts i)) (seq k (10 - k))).

Lemma room_S acts k : (k < 10)%nat -> room acts k = (adds (acts k) + room acts (S k))%nat.
Proof. intros Hk. unfold room. by replace (10 - k)%nat with (S (10 - S k)) by lia. Qed.

Lemma view_keep t t' ul : (forall q, q ∈ ul -> data (metas t') q = data (metas t) q) -> view t' ul = view t ul.
Proof. intros Hq. unfold view. apply list_fmap_ext. intros i p Hi. by rewrite Hq by (by apply list_elem_of_lookup_2 in Hi). Qed.

Lemma view_upd t t' ul p g : (forall q, data (metas t') q = if decide (p = q) then g (data (metas t) q) else data (metas t) q) ->
  view t' ul = supd p g (view t ul).
Proof.
  intros Hq. unfold view, supd. rewrite <- list_fmap_compose. apply list_fmap_ext. intros i q _. cbn. rewrite Hq. by case_decide.
Qed.

Lemma view_del t t' a p b : NoDup (a ++ p :: b) -> (forall q, p <> q -> data (metas t') q = data (metas t) q) ->
  view t' (a ++ b) = sdel p (view t (a ++ p :: b)).
Proof.
  intros Hnd Hq. assert (forall l, p ∉ l -> sdel p (view t l) = view t' l) as Hl.
  { intros l Hp. unfold sdel, view. induction l as [|x l IH]; [done|]. apply not_elem_of_cons in Hp as [Hx Hp].
    rewrite !fmap_cons. rewrite filter_cons_True by done. rewrite IH by done. by rewrite Hq. }
  apply NoDup_app in Hnd as (_ & Hd & Hnb). apply NoDup_cons in Hnb as [Hb _]. assert (p ∉ a) as Ha by (intros Hin; apply (Hd p Hin); by left).
  unfold view at 2. unfold sdel. rewrite fmap_app, filter_app, fmap_cons, filter_cons_False by (cbn; tauto).
  change (filter _ (?f <$> ?l)) with (sdel p (f <$> l)). fold (view t a) (view t b). rewrite !Hl by done. unfold view. by rewrite fmap_app.
Qed.

Lemma view_elem t ul p : p ∈ ul -> (p, data (metas t) p) ∈ view t ul.
Proof. intros Hp. unfold view. apply list_elem_of_fmap. by exists p. Qed.

Lemma view_ids t ul : (view t ul).*1 = ul.
Proof. unfold view. rewrite <- list_fmap_compose. apply list_fmap_id. Qed.

(** ** The lists implement it *)

Section simulation.

Context (n : nat).

Lemma modify_ok t fl ul p f g : timer_ok n t fl ul -> (p < n)%nat ->
  (forall m, entry_of (f m) = g (entry_of m) /\ pNextMeta (f m) = pNextMeta m /\ pPreMeta (f m) = pPreMeta m /\ bPoolMeta (f m) = bPoolMeta m) ->
  exists t', modify t p f = Ret t' /\ timer_ok n t' fl ul /\ forall l, view t' l = supd p g (view t l).
Proof.
  intros Hok Hp Hf. assert (is_Some (metas t !! p)) as Hd by (by apply (tk_dom _ _ _ _ Hok)). rewrite modify_alter by done. eexists. split; [done|]. split; [split|].
  - apply Hok.
  - apply Hok.
  - eapply links_ext; [|apply Hok]. intros x _. cbn. split; [apply nx_same|apply pv_same]; intros m; apply Hf.
  - eapply links_ext; [|apply Hok]. intros x _. cbn. split; [apply nx_same|apply pv_same]; intros m; apply Hf.
  - apply Hok.
  - apply Hok.
  - intros q. cbn. rewrite lookup_alter_is_Some. apply Hok.
  - cbn. apply (pool_alter_opt f (Some p)); [intros m; apply Hf|apply Hok].
  - intros l. apply view_upd. intros q. cbn. apply (data_alter _ _ g); [done|]. intros m. apply Hf.
Qed.

Lemma do_act_ok t fl ul a : timer_ok n t fl ul -> act_ok n a -> (adds [a] < length fl)%nat ->
  exists t' fl' new, do_act t a = Ret t' /\ timer_ok n t' fl' (new ++ ul) /\ (length fl' + adds [a] = length fl)%nat /\ spec_act (view t ul) a (view t' (new ++ ul)).
Proof.
  intros Hok Ha Hr. destruct a as [cb ms reuse now|p|p ms|p ms]; cbn [do_act act_ok] in *.
  - destruct fl as [|p fl]; [cbn in Hr; lia|]. destruct (AddTimer_ok n t p fl ul cb ms reuse now Hok) as (t' & -> & Hok' & Hq). cbn [go_bind].
    pose proof (tk_nodup _ _ _ _ Hok) as Hnd. assert (p ∉ ul) as Hp by (cbn in Hnd; apply NoDup_cons in Hnd as [Hp _]; rewrite elem_of_app in Hp; tauto).
    exists t', fl, [p]. split; [done|]. split; [done|]. split; [cbn; lia|]. cbn [app].
    replace (view t' (p :: ul)) with ((p, mkEnt reuse true ms (u64 (now + ms)) cb) :: view t ul); [constructor; by rewrite view_ids|].
    unfold view at 2. rewrite fmap_cons. fold (view t' ul). rewrite Hq, decide_True by done. f_equal. symmetry. apply view_keep. intros q Hin. rewrite Hq, decide_False; [done|]. by intros <-.
  - destruct (modify_ok t fl ul p meta_Finish e_finish Hok Ha) as (t' & E & Hok' & Hv); [done|]. exists t', fl, []. cbn [app]. rewrite (Hv ul). split_and!; [done|done|cbn; lia|constructor].
  - destruct (modify_ok t fl ul p (set_due ms) (e_due ms) Hok Ha) as (t' & E & Hok' & Hv); [done|]. exists t', fl, []. cbn [app]. rewrite (Hv ul). split_and!; [done|done|cbn; lia|constructor].
  - destruct (modify_ok t fl ul p (fun m => set_due (u64 (ulNextMS m + ms)) m) (fun e => e_due (u64 (e_next e + ms)) e) Hok Ha) as (t' & E & Hok' & Hv); [done|].
    exists t', fl, []. cbn [app]. rewrite (Hv ul). split_and!; [done|done|cbn; lia|constructor].
Qed.

Lemma do_acts_ok l : forall t fl ul, timer_ok n t fl ul -> Forall (act_ok n) l -> (adds l < length fl)%nat ->
  exists t' fl' new, do_acts t l = Ret t' /\ timer_ok n t' fl' (new ++ ul) /\ (length fl' + adds l = length fl)%nat /\ spec_acts (view t ul) l (view t' (new ++ ul)).
Proof.
  induction l as [|a l IH]; intros t fl ul Hok Hl Hr; cbn [do_acts].
  - exists t, fl, []. split_and!; [done|done|cbn; lia|constructor].
  - inversion_clear Hl as [|?? Ha Hl']. assert (adds (a :: l) = adds [a] + adds l)%nat as E by (unfold adds; cbn; by destruct (is_add a)).
    destruct (do_act_ok t fl ul a Hok Ha) as (t1 & fl1 & n1 & -> & Hok1 & Hlen1 & Hs1); [lia|]. cbn [go_bind].
    destruct (IH t1 fl1 (n1 ++ ul) Hok1 Hl') as (t2 & fl2 & n2 & -> & Hok2 & Hlen2 & Hs2); [lia|].
    exists t2, fl2, (n2 ++ n1). rewrite <- app_assoc. split_and!; [done|done|lia|by econstructor].
Qed.

Lemma get_ok t fl pre p todo : timer_ok n t fl (pre ++ p :: todo) ->
  exists m, get t p = Ret m /\ entry_of m = data (metas t) p /\ pNextMeta m = head todo /\ (p < n)%nat.
Proof.
  intros Hok. assert (p ∈ fl ++ pre ++ p :: todo) as Hin by set_solver. destruct (ok_mem n t fl _ p Hok Hin) as [m Hm].
  exists m. unfold get, data. rewrite Hm. split_and!; try done; [|by apply (tk_all _ _ _ _ Hok) in Hin].
  destruct (tk_ul _ _ _ _ Hok (length pre) p) as [E _]; [by rewrite list_lookup_middle|]. unfold nx in E. rewrite Hm in E. cbn in E. rewrite E, head_lookup.
  rewrite lookup_app_r by lia. by replace (S (length pre) - length pre)%nat with 1%nat by lia.
Qed.

Lemma loop_ok acts now (Hacts : forall i, Forall (act_ok n) (acts i)) todo : forall fuel t fl pre fired mix, timer_ok n t fl (pre ++ todo) ->
  (length todo <= fuel)%nat -> (room acts (length fired) < length fl)%nat ->
  exists t' fl' ul' fired' mix', loop fuel acts now t (head todo) fired mix = Ret (t', fired', mix') /\ timer_ok n t' fl' ul' /\
    (length fl <= length fl' + room acts (length fired))%nat /\
    spec_loop acts now todo fired mix (view t (pre ++ todo)) fired' mix' (view t' ul').
Proof.
  induction todo as [|p todo IH]; intros fuel t fl pre fired mix Hok Hfuel Hroom.
  { exists t, fl, (pre ++ []), fired, mix. destruct fuel; split_and!; try done; try lia; constructor. }
  destruct fuel as [|fuel]; [cbn in Hfuel; lia|]. cbn [length] in Hfuel. cbn [loop head]. destruct (Nat.ltb_spec (length fired) 10) as [Hf|Hf].
  2: { exists t, fl, (pre ++ p :: todo), fired, mix. split_and!; [done|done|lia|by apply sl_max]. }
  destruct (get_ok t fl pre p todo Hok) as (m & -> & Em & En & Hp). cbn [go_bind]. set (e := data (metas t) p) in *.
  assert ((p, e) ∈ view t (pre ++ p :: todo)) as Hin by (apply view_elem; set_solver). destruct fl as [|f fl]; [cbn in Hroom; lia|].
  change (bInUse m) with (e_use (entry_of m)). change (ulNextMS m) with (e_next (entry_of m)). rewrite Em. rewrite (room_S acts _ Hf) in Hroom |- *.
  destruct (e_use e) eqn:Eu; cbn [negb].
  - destruct (Z.leb_spec (e_next e) now) as [Hdue|Hdue].
    + destruct (do_acts_ok (acts (length fired)) t (f :: fl) (pre ++ p :: todo) Hok (Hacts _)) as (t1 & fl1 & nw & -> & Hok1 & Hlen1 & Hs1); [lia|]. cbn [go_bind].
      rewrite app_assoc in Hok1, Hs1. destruct (get_ok t1 fl1 (nw ++ pre) p todo Hok1) as (m1 & -> & Em1 & En1 & _). cbn [go_bind]. rewrite En1.
      change (bReuse m1) with (e_reuse (entry_of m1)). change (ulMS m1) with (e_ms (entry_of m1)). change (pCB m) with (e_cb (entry_of m)). rewrite Em1, Em. fold e.
      assert (length (fired ++ [e_cb e]) = S (length fired)) as El by (rewrite length_app; cbn; lia).
      assert ((p, data (metas t1) p) ∈ view t1 ((nw ++ pre) ++ p :: todo)) as Hin1 by (apply view_elem; set_solver). destruct (e_reuse (data (metas t1) p)) eqn:Er.
      * set (due := u64 (now + e_ms (data (metas t1) p))).
        destruct (modify_ok t1 fl1 _ p (set_due due) (e_due due) Hok1 Hp) as (t2 & -> & Hok2 & Hv2); [done|]. cbn [go_bind].
        replace (if due <? mix then due else mix) with (Z.min mix due) by (destruct (Z.ltb_spec due mix); lia).
        assert ((nw ++ pre) ++ p :: todo = ((nw ++ pre) ++ [p]) ++ todo) as Ea by (by rewrite <- (app_assoc _ [p])). rewrite Ea in *.
        destruct (IH fuel t2 fl1 ((nw ++ pre) ++ [p]) (fired ++ [e_cb e]) (Z.min mix due)) as (t' & fl' & ul' & fired' & mix' & E & Hok' & Hlen' & Hs'); [done|lia|rewrite El; lia|].
        exists t', fl', ul', fired', mix'. split; [done|]. split; [done|]. rewrite El in Hlen'. split; [lia|]. eapply sl_again; try done. by rewrite <- Hv2.
      * destruct fl1 as [|f1 fl1]; [cbn [length] in *; lia|]. destruct (DelTimer_ok n t1 f1 fl1 (nw ++ pre) p todo Hok1) as (t2 & -> & Hok2 & Hd2). cbn [go_bind].
        destruct (IH fuel t2 (p :: f1 :: fl1) (nw ++ pre) (fired ++ [e_cb e]) mix) as (t' & fl' & ul' & fired' & mix' & E & Hok' & Hlen' & Hs'); [done|lia|rewrite El; cbn in *; lia|].
        exists t', fl', ul', fired', mix'. split; [done|]. split; [done|]. rewrite El in Hlen'. split; [cbn in *; lia|]. eapply sl_once; try done.
        rewrite <- (view_del t1 t2); [done| |done]. pose proof (tk_nodup _ _ _ _ Hok1) as Hnd. by apply NoDup_app in Hnd as (_ & _ & ?).
    + rewrite En. replace (if e_next e <? mix then e_next e else mix) with (Z.min mix (e_next e)) by (destruct (Z.ltb_spec (e_next e) mix); lia).
      assert (pre ++ p :: todo = (pre ++ [p]) ++ todo) as Ea by (by rewrite <- app_assoc). rewrite Ea in *.
      destruct (IH fuel t (f :: fl) (pre ++ [p]) fired (Z.min mix (e_next e))) as (t' & fl' & ul' & fired' & mix' & E & Hok' & Hlen' & Hs'); [done|lia|rewrite room_S; lia|].
      exists t', fl', ul', fired', mix'. rewrite room_S in Hlen' by done. split_and!; [done|done|lia|]. by eapply sl_wait.
  - destruct (DelTimer_ok n t f fl pre p todo Hok) as (t2 & -> & Hok2 & Hd2). cbn [go_bind]. rewrite En.
    destruct (IH fuel t2 (p :: f :: fl) pre fired mix) as (t' & fl' & ul' & fired' & mix' & E & Hok' & Hlen' & Hs'); [done|lia|rewrite room_S by done; cbn in *; lia|].
    exists t', fl', ul', fired', mix'. rewrite room_S in Hlen' by done. split_and!; [done|done|cbn in *; lia|]. eapply sl_ended; try done.
    rewrite <- (view_del t t2); [done| |done]. pose proof (tk_nodup _ _ _ _ Hok) as Hnd. by apply NoDup_app in Hnd as (_ & _ & ?).
Qed.

End simulation.

(** ** Every run *)

(** The timers of a list, by following the pointers. *)
Fixpoint follow (fuel : nat) (h : gmap nat meta) (o : option nat) : list nat :=
  match fuel, o with
  | S fuel, Some p => p :: follow fuel h (nx h p)
  | _, _ => []
  end.

Definition free_timers (t : timer) : list nat := follow (size (metas t)) (metas t) (m_pFreeMeta t).
Definition used_timers (t : timer) : list nat := follow (size (metas t)) (metas t) (m_pUsingMeta t).
Definition listed (t : timer) : timers := view t (used_timers t).

(** The pool is never used up: a free timer is left whatever callbacks add. *)
Inductive reach (n : nat) : timer -> Prop :=
| reach_start : reach n (new_timer n)
| reach_act t a t' : reach n t -> act_ok n a -> (adds [a] < length (free_timers t))%nat -> do_act t a = Ret t' -> reach n t'
| reach_loop t acts now t' fired mix : reach n t -> (forall i, Forall (act_ok n) (acts i)) -> (room acts 0 < length (free_timers t))%nat ->
    Loop acts t now = Ret (t', fired, mix) -> reach n t'.

Lemma follow_links h l : forall pre fuel, links h (pre ++ l) -> (length l <= fuel)%nat -> follow fuel h (head l) = l.
Proof.
  induction l as [|p l IH]; intros pre fuel Hl Hf; [by destruct fuel|]. destruct fuel as [|fuel]; [cbn in Hf; lia|]. cbn [follow head]. f_equal.
  destruct (Hl (length pre) p) as [-> _]; [by rewrite list_lookup_middle|]. rewrite lookup_app_r by lia. replace (S (length pre) - length pre)%nat with 1%nat by lia.
  replace ((p :: l) !! 1%nat) with (head l) by (by destruct l). apply (IH (pre ++ [p])); [by rewrite <- app_assoc|cbn in Hf; lia].
Qed.

Lemma size_le n t fl ul : timer_ok n t fl ul -> (length fl + length ul <= size (metas t))%nat.
Proof.
  intros Hok. pose proof (tk_nodup _ _ _ _ Hok) as Hnd. rewrite <- length_app, <- size_dom. rewrite <- (size_list_to_set (C := gset nat) (fl ++ ul)) by done.
  apply subseteq_size. intros p Hp. apply elem_of_list_to_set in Hp. apply elem_of_dom. by apply (ok_mem n t fl ul).
Qed.

Lemma timers_of n t fl ul : timer_ok n t fl ul -> free_timers t = fl /\ used_timers t = ul.
Proof.
  intros Hok. pose proof (size_le n t fl ul Hok). unfold free_timers, used_timers. rewrite (tk_free _ _ _ _ Hok), (tk_using _ _ _ _ Hok).
  split; apply (follow_links _ _ []); try lia; cbn; apply Hok.
Qed.

Lemma Loop_ok n t fl ul acts now : timer_ok n t fl ul -> (forall i, Forall (act_ok n) (acts i)) -> (room acts 0 < length fl)%nat ->
  exists t' fl' ul' fired mix, Loop acts t now = Ret (t', fired, mix) /\ timer_ok n t' fl' ul' /\
    spec_loop acts now ul [] (u64 (now + GR_EVENT_TT)) (view t ul) fired mix (view t' ul').
Proof.
  intros Hok Ha Hr. unfold Loop. rewrite (tk_using _ _ _ _ Hok). pose proof (size_le n t fl ul Hok).
  destruct (loop_ok n acts now Ha ul (size (metas t)) t fl [] [] (u64 (now + GR_EVENT_TT)) Hok) as (t' & fl' & ul' & fired & mix & E & Hok' & _ & Hs); [lia|done|].
  by exists t', fl', ul', fired, mix.
Qed.

Lemma reach_ok n t : (0 < n)%nat -> reach n t -> exists fl ul, timer_ok n t fl ul.
Proof.
  intros Hn. induction 1 as [|t a t' _ (fl & ul & Hok) Ha Hr E|t acts now t' fired mix _ (fl & ul & Hok) Ha Hr E].
  - eexists _, _. by apply new_timer_ok.
  - rewrite (proj1 (timers_of n t fl ul Hok)) in Hr. destruct (do_act_ok n t fl ul a Hok Ha Hr) as (t1 & fl' & nw & E1 & Hok' & _). rewrite E in E1. injection E1 as <-. eauto.
  - rewrite (proj1 (timers_of n t fl ul Hok)) in Hr. destruct (Loop_ok n t fl ul acts now Hok Ha Hr) as (t1 & fl' & ul' & f1 & m1 & E1 & Hok' & _).
    rewrite E in E1. injection E1 as <- <- <-. eauto.
Qed.

(** C21: As long as the pool is not used up, the two linked lists behave like a list
    of timers: adding, ending and moving timers and running the callbacks that
    are due goes through, whatever the callbacks do with timers, no deleted
    timer is touched, and every timer is what the list says. *)
Theorem timers_refine_list (n : nat) (t : timer) (Hn : (0 < n)%nat) (Ht : reach n t) :
  (forall a, act_ok n a -> (adds [a] < length (free_timers t))%nat -> exists t', do_act t a = Ret t' /\ spec_act (listed t) a (listed t')) /\
  (forall acts now, (forall i, Forall (act_ok n) (acts i)) -> (room acts 0 < length (free_timers t))%nat ->
     exists t' fired mix, Loop acts t now = Ret (t', fired, mix) /\
       spec_loop acts now (used_timers t) [] (u64 (now + GR_EVENT_TT)) (listed t) fired mix (listed t')).
Proof.
  destruct (reach_ok n t Hn Ht) as (fl & ul & Hok). unfold listed. destruct (timers_of n t fl ul Hok) as [-> ->]. split.
  - intros a Ha Hr. destruct (do_act_ok n t fl ul a Hok Ha Hr) as (t' & fl' & nw & E & Hok' & _ & Hs). exists t'. split; [done|].
    by rewrite (proj2 (timers_of n t' _ _ Hok')).
  - intros acts now Ha Hr. destruct (Loop_ok n t fl ul acts now Hok Ha Hr) as (t' & fl' & ul' & fired & mix & E & Hok' & Hs). exists t', fired, mix. split; [done|].
    by rewrite (proj2 (timers_of n t' _ _ Hok')).
Qed.

(** ** When callbacks run *)

Definition due (now : Z) (x : nat * ent) : bool := e_use (snd x) && (e_next (snd x) <=? now).

(** Not before [mix], nor before [now]. *)
Definition later (now mix : Z) (x : nat * ent) : Prop := e_use (snd x) = true -> now < e_next (snd x) /\ mix <= e_next (snd x).

Lemma due_true now p e : e_use e = true -> e_next e <= now -> due now (p, e) = true.
Proof. intros Hu Hd. unfold due. cbn [snd]. rewrite Hu. by apply Z.leb_le. Qed.

Lemma due_false now p e : now < e_next e -> due now (p, e) <> true.
Proof. intros Hd. unfold due. cbn [snd]. rewrite (proj2 (Z.leb_gt _ _)) by done. by rewrite andb_false_r. Qed.

Lemma entry_unique (l : timers) p e e' : NoDup l.*1 -> (p, e) ∈ l -> (p, e') ∈ l -> e = e'.
Proof.
  intros Hnd (i & Hi)%list_elem_of_lookup (j & Hj)%list_elem_of_lookup. assert (i = j) as ->; [|congruence].
  apply (lookup_inj l.*1 i j p Hnd); rewrite list_lookup_fmap; [by rewrite Hi|by rewrite Hj].
Qed.

Lemma supd_middle (pre rest : timers) p e g : NoDup (pre ++ (p, e) :: rest).*1 -> supd p g (pre ++ (p, e) :: rest) = pre ++ (p, g e) :: rest.
Proof.
  intros Hnd. assert (forall l : timers, p ∉ l.*1 -> supd p g l = l) as Hl.
  { intros l Hp. unfold supd. rewrite <- (list_fmap_id l) at 2. apply list_fmap_ext. intros i x Hi. cbn. rewrite decide_False; [done|]. intros ->.
    apply Hp, list_elem_of_fmap. exists x. split; [done|]. by apply list_elem_of_lookup_2 in Hi. }
  rewrite fmap_app, fmap_cons in Hnd. apply NoDup_app in Hnd as (_ & Hd & Hr). apply NoDup_cons in Hr as [Hr _].
  unfold supd. rewrite fmap_app, fmap_cons. fold (supd p g pre) (supd p g rest). rewrite !Hl; [|done|intros Hin; apply (Hd p Hin); by left]. cbn. by rewrite decide_True.
Qed.

Lemma sdel_middle (pre rest : timers) p e : NoDup (pre ++ (p, e) :: rest).*1 -> sdel p (pre ++ (p, e) :: rest) = pre ++ rest.
Proof.
  intros Hnd. assert (forall l : timers, p ∉ l.*1 -> sdel p l = l) as Hl.
  { unfold sdel. induction l as [|x l IH]; intros Hp; [done|]. rewrite fmap_cons in Hp. apply not_elem_of_cons in Hp as [Hx Hp]. by rewrite filter_cons_True, IH. }
  rewrite fmap_app, fmap_cons in Hnd. apply NoDup_app in Hnd as (_ & Hd & Hr). apply NoDup_cons in Hr as [Hr _].
  unfold sdel. rewrite filter_app, filter_cons_False by (cbn; tauto). fold (sdel p pre) (sdel p rest). rewrite !Hl; [done|done|intros Hin; apply (Hd p Hin); by left].
Qed.

Lemma nodup_middle (pre rest : timers) x : NoDup (pre ++ x :: rest).*1 -> NoDup (pre ++ rest).*1.
Proof.
  rewrite !fmap_app, fmap_cons. intros (Hp & Hd & Hn)%NoDup_app. apply NoDup_cons in Hn as [_ Hn]. apply NoDup_app. split; [done|]. split; [|done].
  intros y Hy Hy2. apply (Hd y Hy). by right.
Qed.

Lemma spec_quiet now : forall todo fired mix l fired' mix' l', spec_loop (fun _ => []) now todo fired mix l fired' mix' l' ->
  forall pre rest, l = pre ++ rest -> rest.*1 = todo -> NoDup l.*1 -> Forall (fun x => 0 < e_ms (snd x) /\ now + e_ms (snd x) < 2 ^ 64) rest -> 0 <= now < mix ->
  fired' = fired ++ take (10 - length fired) ((fun x => e_cb (snd x)) <$> filter (fun x => due now x = true) rest) /\
  now < mix' <= mix /\ (Forall (later now mix) pre -> (length fired' < 10)%nat -> Forall (later now mix') l').
Proof.
  assert (forall mix mix' l, mix' <= mix -> Forall (later now mix) l -> Forall (later now mix') l) as Hmono.
  { intros m m' k Hm Hk. eapply Forall_impl; [exact Hk|]. intros x Hx Hu. destruct (Hx Hu). lia. }
  assert (forall p e (pre rest : timers) todo, rest.*1 = p :: todo -> NoDup (pre ++ rest).*1 -> (p, e) ∈ pre ++ rest -> exists r, rest = (p, e) :: r /\ r.*1 = todo) as Hhead.
  { intros p e pre rest todo Hr Hnd Hin. destruct rest as [|[q e'] r]; [done|]. injection Hr as -> Hr. exists r. split; [|done]. do 2 f_equal.
    apply (entry_unique (pre ++ (p, e') :: r) p); [done| |done]. set_solver. }
  intros todo0 fired0 mix0 l0 fired1 mix1 l2 Hs. induction Hs as [fired mix l|todo fired mix l H10|p e todo fired mix l fired' mix' l' Hlt Hin Hu _ IH|p e e1 todo fired mix l l1 fired' mix' l' Hlt Hin Hu Hdue Ha Hin1 Hre _ IH
    |p e e1 todo fired mix l l1 fired' mix' l' Hlt Hin Hu Hdue Ha Hin1 Hre _ IH|p e todo fired mix l fired' mix' l' Hlt Hin Hu Hdue _ IH]; intros pre rest -> Hr Hnd Hms Hmix.
  - destruct rest; [|done]. rewrite filter_nil, fmap_nil, take_nil, !app_nil_r. split; [done|]. split; [lia|]. intros Hpre _. done.
  - replace (10 - length fired)%nat with 0%nat by lia. rewrite take_0, app_nil_r. split; [done|]. split; [lia|]. intros _ ?. lia.
  - destruct (Hhead p e pre rest todo Hr Hnd Hin) as (r & -> & Hr'). rewrite sdel_middle in IH by done. inversion_clear Hms as [|?? _ Hms'].
    rewrite filter_cons_False by (unfold due; cbn; by rewrite Hu). apply IH; [done|done|by eapply nodup_middle|done|done].
  - inversion Ha; subst. destruct (Hhead p e pre rest todo Hr Hnd Hin) as (r & -> & Hr'). assert (e1 = e) as -> by (by apply (entry_unique _ p e1 e Hnd)).
    inversion_clear Hms as [|?? [Hpos Hov] Hms']. cbn in Hpos, Hov. set (d := u64 (now + e_ms e)) in *. assert (d = now + e_ms e) as Ed by (unfold d; apply wrap_small; lia).
    rewrite supd_middle in IH by done. destruct (IH (pre ++ [(p, e_due d e)]) r) as (Ef & Hm' & Hl'); [by rewrite <- app_assoc|done| |done|lia|].
    { rewrite fmap_app, fmap_cons in Hnd |- *. done. }
    rewrite filter_cons_True by (by apply due_true). rewrite fmap_cons. replace (10 - length fired)%nat with (S (10 - (length fired + 1))) by lia.
    cbn [take snd]. rewrite length_app, <- app_assoc in Ef. split; [done|]. split; [lia|]. intros Hpre. apply Hl'. apply Forall_app. split; [by apply (Hmono mix); [lia|]|]. apply Forall_singleton. intros _. cbn. lia.
  - inversion Ha; subst. destruct (Hhead p e pre rest todo Hr Hnd Hin) as (r & -> & Hr'). inversion_clear Hms as [|?? _ Hms'].
    rewrite sdel_middle in IH by done. destruct (IH pre r) as (Ef & Hm' & Hl'); [done|done|by eapply nodup_middle|done|lia|].
    rewrite filter_cons_True by (by apply due_true). rewrite fmap_cons. replace (10 - length fired)%nat with (S (10 - (length fired + 1))) by lia.
    cbn [take snd]. rewrite length_app, <- app_assoc in Ef. split; [done|]. split; [lia|]. exact Hl'.
  - destruct (Hhead p e pre rest todo Hr Hnd Hin) as (r & -> & Hr'). inversion_clear Hms as [|?? _ Hms'].
    destruct (IH (pre ++ [(p, e)]) r) as (E & Hm' & Hl'); [by rewrite <- app_assoc|done|done|done|lia|].
    rewrite filter_cons_False by (by apply due_false). split; [done|]. split; [lia|]. intros Hpre. apply Hl'. apply Forall_app.
    split; [by apply (Hmono mix); [lia|]|]. apply Forall_singleton. intros _. cbn. lia.
Qed.

(** C38: With positive intervals and a timer left in the pool, a round of [Loop]
    with callbacks that leave the timers alone runs exactly the callbacks that
    are due, in order and at most ten of them; [ulMix], the
    time until which the proxy may sleep, is after now and at most a second
    away; and if fewer than ten were due, every timer that is left is due after
    now and not before [ulMix]. *)
Theorem timer_deadlines (n : nat) (t : timer) (now : Z) (Hn : (0 < n)%nat) (Ht : reach n t) (Hfree : free_timers t <> [])
  (Hnow : 0 <= now /\ now + GR_EVENT_TT < 2 ^ 64) (Hms : Forall (fun x => 0 < e_ms (snd x) /\ now + e_ms (snd x) < 2 ^ 64) (listed t)) :
  exists t' fired mix, Loop (fun _ => []) t now = Ret (t', fired, mix) /\
    fired = take 10 ((fun x => e_cb (snd x)) <$> filter (fun x => due now x = true) (listed t)) /\
    now < mix <= now + GR_EVENT_TT /\
    ((length fired < 10)%nat -> Forall (later now mix) (listed t')).
Proof.
  destruct (reach_ok n t Hn Ht) as (fl & ul & Hok). unfold listed in *. destruct (timers_of n t fl ul Hok) as [Ef Eu]. rewrite Ef in Hfree. rewrite Eu in *.
  destruct (Loop_ok n t fl ul (fun _ => []) now Hok) as (t' & fl' & ul' & fired & mix & E & Hok' & Hs); [by constructor|destruct fl; [done|cbn; lia]|].
  exists t', fired, mix. split; [done|]. rewrite (proj2 (timers_of n t' _ _ Hok')). rewrite wrap_small in Hs by (unfold GR_EVENT_TT in *; lia).
  destruct (spec_quiet now _ _ _ _ _ _ _ Hs [] (view t ul)) as (-> & Hm & Hl); [done|by rewrite view_ids| |done|unfold GR_EVENT_TT; lia|].
  - rewrite view_ids. pose proof (tk_nodup _ _ _ _ Hok) as Hnd. by apply NoDup_app in Hnd as (_ & _ & ?).
  - split; [done|]. split; [done|]. by apply Hl.
Qed.

(** Two timers in a pool of three, the older one due at 110 and again every 10. *)
Definition after (t : timer) (c : go timer) : timer := match c with Ret t' => t' | Panic => t end.

Definition one_timer : timer := after (new_timer 3) (do_act (new_timer 3) (ActAdd 7 10 true 100)).
Definition both_timers : timer := after one_timer (do_act one_timer (ActAdd 8 500 false 100)).

Lemma after_ret t c : match c with Ret _ => true | Panic => false end = true -> c = Ret (after t c).
Proof. by destruct c. Qed.

Lemma do_acts_cons t a t' l : do_act t a = Ret t' -> do_acts t (a :: l) = do_acts t' l.
Proof. intros E. cbn [do_acts]. by rewrite E. Qed.

Lemma two_timers : exists t, do_acts (new_timer 3) [ActAdd 7 10 true 100; ActAdd 8 500 false 100] = Ret t /\ reach 3 t /\
  listed t = [(1%nat, mkEnt false true 500 600 8); (0%nat, mkEnt true true 10 110 7)] /\ free_timers t = [2%nat].
Proof.
  assert (do_act (new_timer 3) (ActAdd 7 10 true 100) = Ret one_timer) as E1 by (apply after_ret; by vm_compute).
  assert (do_act one_timer (ActAdd 8 500 false 100) = Ret both_timers) as E2 by (apply after_ret; by vm_compute).
  exists both_timers. split; [by rewrite (do_acts_cons _ _ _ _ E1), (do_acts_cons _ _ _ _ E2)|].
  split; [|split; by vm_compute].
  apply (reach_act 3 one_timer (ActAdd 8 500 false 100)); [|done|vm_compute; lia|done].
  apply (reach_act 3 (new_timer 3) (ActAdd 7 10 true 100)); [apply reach_start|done|vm_compute; lia|done].
Qed.

Lemma timers_refine_list_witness : exists t t', reach 3 t /\ do_act t (ActFinish 1) = Ret t' /\ spec_act (listed t) (ActFinish 1) (listed t').
Proof.
  destruct two_timers as (t & _ & Ht & _ & Hf). assert (0 < 3)%nat as H3 by lia.
  destruct (proj1 (timers_refine_list 3 t H3 Ht) (ActFinish 1)) as (t' & E & Hs); [cbn; lia|rewrite Hf; cbn; lia|]. exists t, t'. done.
Defined.

Lemma timer_deadlines_witness : exists t t' fired mix, listed t = [(1%nat, mkEnt false true 500 600 8); (0%nat, mkEnt true true 10 110 7)] /\
  Loop (fun _ => []) t 115 = Ret (t', fired, mix) /\ fired = [7%nat] /\ 115 < mix <= 115 + GR_EVENT_TT /\ ((length fired < 10)%nat -> Forall (later 115 mix) (listed t')).
Proof.
  destruct two_timers as (t & _ & Ht & Hl & Hf). assert (0 < 3)%nat as H3 by lia.
  destruct (timer_deadlines 3 t 115 H3 Ht) as (t' & fired & mix & E & Hfired & Hmix & Hlater).
  - rewrite Hf. done.
  - unfold GR_EVENT_TT. lia.
  - rewrite Hl. repeat constructor; cbn; lia.
  - exists t, t', fired, mix. split; [exact Hl|]. split; [exact E|]. split; [rewrite Hfired, Hl; reflexivity|]. split; [exact Hmix|exact Hlater].
Defined.

(** With the pool used up, a timer that is freed keeps its link into the list
    of timers in use; the next two timers are then given that timer and the one
    behind it, whose callback is lost, and the list of timers in use is a
    circle. *)
Example pool_used_up :
  match (let! t := do_acts (new_timer 2) [ActAdd 7 10 true 100; ActAdd 8 10 true 100; ActFinish 1] in
         let! (t, _, _) := Loop (fun _ => []) t 100 in
         do_acts t [ActAdd 9 10 true 100; ActAdd 10 10 true 100]) with
  | Ret t => nx (metas t) 0 = Some 1%nat /\ nx (metas t) 1 = Some 0%nat /\ pCB <$> metas t !! 0%nat = Some 10%nat /\ pCB <$> metas t !! 1%nat = Some 9%nat
  | Panic => False
  end.
Proof. vm_compute. done. Qed.
