(* ===== verification/Package.v ===== *)
(** * common/utils.cpp and redismsg.cpp: numbers and messages as text

    The number routines of the proxy ([digits10], [countDigits], [ll2string],
    [sdsll2str], [CharToInt]) and the messages it writes itself
    ([GR_MsgProcess::PackageMsg] and its callers).  A buffer is a list of
    bytes; a write outside of it, arithmetic that overflows a signed type and a
    failed [ASSERT] are [Panic].  [sprintf] writes the text and a NUL.  The
    memory pool is a function that gives a block of at least the size asked
    for, and never null. *)

From S2P Require Import Prelude Gostrings Resp Strconv Redismsg Redisstream Reqkey.

(** ** Buffers *)

Definition write (buf : list Z) (pos : Z) (l : list Z) : go (list Z) :=
  if (0 <=? pos) && (pos + zlen l <=? zlen buf) then Ret (overwrite buf (Z.to_nat pos) l) else Panic.

(** With the number of bytes printed. *)
Definition sprintf (buf : list Z) (pos : Z) (text : list Z) : go (list Z * Z) :=
  let! buf := write buf pos (text ++ [0]) in Ret (buf, zlen text).

(** ** Numbers *)

(** [digits10] of a [uint64]: the recursion divides by 10^12, so that two calls
    are enough. *)
Fixpoint digits10_rec (fuel : nat) (v : Z) : Z :=
  if v <? 10 then 1
  else if v <? 100 then 2
  else if v <? 1000 then 3
  else if v <? 1000000000000 then
    if v <? 100000000 then
      if v <? 1000000 then
        if v <? 10000 then 4 else 5 + Z.b2z (100000 <=? v)
      else 7 + Z.b2z (10000000 <=? v)
    else if v <? 10000000000 then 9 + Z.b2z (1000000000 <=? v)
    else 11 + Z.b2z (100000000000 <=? v)
  else match fuel with O => 0 | S fuel => 12 + digits10_rec fuel (v / 1000000000000) end.

Definition digits10 (v : Z) : Z := digits10_rec 1 v.

(** [countDigits]: four digits a round, and a [uint64] has twenty. *)
Fixpoint countDigits_loop (fuel : nat) (v result : Z) : Z :=
  if v <? 10 then result
  else if v <? 100 then result + 1
  else if v <? 1000 then result + 2
  else if v <? 10000 then result + 3
  else match fuel with O => 0 | S fuel => countDigits_loop fuel (v / 10000) (result + 4) end.

Definition countDigits (v : Z) : Z := countDigits_loop 5 v 1.

(** The static table of [ll2string]. *)
Definition digits : list Z :=
  str "00010203040506070809101112131415161718192021222324252627282930313233343536373839404142434445464748495051525354555657585960616263646566676869707172737475767778798081828384858687888990919293949596979899".

Definition digit_at (i : Z) : Z := default 0 (digits !! Z.to_nat i).

(** The loop of [ll2string]; a [uint64] has at most ten pairs of digits. *)
Fixpoint ll_loop (fuel : nat) (dst : list Z) (value next : Z) : go (list Z * Z * Z) :=
  if value <? 100 then Ret (dst, value, next)
  else match fuel with
  | O => Panic
  | S fuel =>
      let i := value mod 100 * 2 in
      let value := value / 100 in
      let! dst := write dst next [digit_at (i + 1)] in
      let! dst := write dst (u32 (next - 1)) [digit_at i] in
      ll_loop fuel dst value (u32 (next - 2))
  end.

(** The buffer has [dstlen] bytes. *)
Definition ll2string (dst : list Z) (svalue : Z) : go (list Z * Z) :=
  let value := if svalue <? 0 then (if svalue =? - 2 ^ 63 then 2 ^ 63 - 1 + 1 else - svalue) else svalue in
  let negative := Z.b2z (svalue <? 0) in
  let length := digits10 value + negative in
  if zlen dst <=? length then Ret (dst, 0)
  else
    let! dst := write dst length [0] in
    let! (dst, value, next) := ll_loop 10 dst value (length - 1) in
    let! dst := if value <? 10 then write dst next [48 + value]
                else
                  let i := value * 2 in
                  let! dst := write dst next [digit_at (i + 1)] in write dst (u32 (next - 1)) [digit_at i] in
    let! dst := if svalue <? 0 then write dst 0 [45] else Ret dst in
    Ret (dst, length).

(** [sdsll2str]: the digits backwards, then the two ends are exchanged. *)
Fixpoint sds_loop (fuel : nat) (s : list Z) (p v : Z) : go (list Z * Z) :=
  match fuel with
  | O => Panic
  | S fuel =>
      let! s := write s p [48 + v mod 10] in
      if v / 10 =? 0 then Ret (s, p + 1) else sds_loop fuel s (p + 1) (v / 10)
  end.

Fixpoint exchange (fuel : nat) (buf : list Z) (s p : nat) : list Z :=
  match fuel with
  | O => buf
  | S fuel =>
      if (s <? p)%nat then
        exchange fuel (<[p := default 0 (buf !! s)]> (<[s := default 0 (buf !! p)]> buf)) (S s) (pred p)
      else buf
  end.

(** Minus the least [long long] is undefined. *)
Definition sdsll2str (s : list Z) (value : Z) : go (list Z * Z) :=
  if value =? - 2 ^ 63 then Panic
  else
    let! (s, p) := sds_loop 20 s 0 (Z.abs value) in
    let! (s, p) := if value <? 0 then let! s := write s p [45] in Ret (s, p + 1) else Ret (s, p) in
    let! s := write s p [0] in
    Ret (exchange (Z.to_nat p) s 0 (Z.to_nat (p - 1)), p).

(** [CharToInt] of the signed bytes [szData]; an [int] that overflows is
    undefined. *)
Definition int_of (v : Z) : go Z := if (- 2 ^ 31 <=? v) && (v <? 2 ^ 31) then Ret v else Panic.

Fixpoint char_loop (l : list Z) (iResult : Z) : go Z :=
  match l with
  | [] => Ret iResult
  | b :: l =>
      let! t := int_of (iResult * 10) in
      let! t := int_of (t + swrap 8 b) in
      let! t := int_of (t - 48) in
      char_loop l t
  end.

(** With whether [iRet] is left alone, and not set to an error. *)
Definition CharToInt (szData : list Z) : go (Z * bool) :=
  match szData with
  | [] => Ret (0, false)
  | 45 :: l => let! v := char_loop l 0 in let! v := int_of (v * -1) in Ret (v, true)
  | l => let! v := char_loop l 0 in Ret (v, true)
  end.

(** ** Messages *)

Definition GR_BULKLEN (len : Z) : Z := 1 + countDigits len + 2 + len + 2.

(** The size is an [int]: what does not fit is cut off. *)
Fixpoint args_size (totlen : Z) (argv : list (list Z)) : Z :=
  match argv with
  | [] => totlen
  | arg :: argv => args_size (i32 (totlen + GR_BULKLEN (zlen arg))) argv
  end.

Fixpoint package_args (cmd : list Z) (pos : Z) (argv : list (list Z)) : go (list Z * Z) :=
  match argv with
  | [] => Ret (cmd, pos)
  | arg :: argv =>
      let! (cmd, k) := sprintf cmd pos (36 :: dec (zlen arg) ++ crlf) in
      let! pos := int_of (pos + k) in
      let! cmd := write cmd pos arg in
      let pos := i32 (pos + zlen arg) in
      let! cmd := write cmd pos [13] in
      let! pos := int_of (pos + 1) in
      let! cmd := write cmd pos [10] in
      let! pos := int_of (pos + 1) in
      package_args cmd pos argv
  end.

(** What the functions set of a [GR_MemPoolData]. *)
Record data := { m_uszData : list Z; m_sUsedSize : Z; m_cStaticFlag : Z }.

Definition set_static (d : data) : data :=
  {| m_uszData := m_uszData d; m_sUsedSize := m_sUsedSize d; m_cStaticFlag := 1 |}.

Section package.

(** [GR_MEMPOOL_GETDATA]: the block for a size. *)
Variable GetData : Z -> data.

(** The block with its bytes and the used size set. *)
Definition filled_with (d : data) (bytes : list Z) (used : Z) : data :=
  {| m_uszData := bytes; m_sUsedSize := used; m_cStaticFlag := m_cStaticFlag d |}.

Definition PackageMsg (argv : list (list Z)) : go data :=
  let totlen := args_size (1 + countDigits (zlen argv) + 2) argv in
  let! n := int_of (totlen + 1) in
  let pData := GetData n in
  let! (cmd, pos) := sprintf (m_uszData pData) 0 (42 :: dec (zlen argv) ++ crlf) in
  let! (cmd, pos) := package_args cmd pos argv in
  if pos =? totlen then
    let! cmd := write cmd pos [0] in Ret (filled_with pData cmd pos)
  else Panic.

Definition SentinelCmd (szSubCmd : list Z) (szArg : option (list Z)) : go data :=
  match szArg with
  | Some arg => PackageMsg [str "sentinel"; szSubCmd; arg]
  | None => PackageMsg [str "sentinel"; szSubCmd]
  end.

Definition SentinelGetAddrByName (name : list Z) : go data :=
  SentinelCmd (str "get-master-addr-by-name") (Some name).

Definition ClusterNodesCmd : go data := PackageMsg [str "cluster"; str "nodes"].

(** The static block of a command, made at the first call. *)
Definition AskingCmd (g_asking_data : option data) : go data :=
  match g_asking_data with
  | Some d => Ret d
  | None => let! d := PackageMsg [str "asking"] in Ret (set_static d)
  end.

Definition FlushdbCmd (g_flushdb_data : option data) : go data :=
  match g_flushdb_data with
  | Some d => Ret d
  | None =>
      let d := GetData 512 in
      let szCmd := str "*1" ++ crlf ++ str "$7" ++ crlf ++ str "flushdb" ++ crlf in
      let! bytes := write (m_uszData d) 0 szCmd in
      Ret (set_static (filled_with d bytes (zlen szCmd)))
  end.

Definition SelectCmd (iDB : Z) : go data :=
  let d := GetData 512 in
  let! (bytes, pos) := sprintf (m_uszData d) 0 (str "*2" ++ crlf ++ str "$6" ++ crlf ++ str "select" ++ crlf ++
                         36 :: dec (digits10 (u64 iDB)) ++ crlf ++ itoa iDB ++ crlf) in
  Ret (filled_with d bytes pos).

(** One range of the answer to CLUSTER SLOTS. *)
Definition slots_range (first last : Z) (ip : list Z) (port : Z) (id : list Z) : list Z :=
  str "*3" ++ crlf ++ 58 :: itoa first ++ crlf ++ 58 :: itoa last ++ crlf ++ str "*3" ++ crlf ++
  36 :: dec (zlen ip) ++ crlf ++ ip ++ crlf ++ 58 :: itoa port ++ crlf ++ str "$40" ++ crlf ++ id ++ crlf.

(** [support] is [m_bSupportClusterSlots]. *)
Definition ClusterSlots (support : bool) (szIp : list Z) (usPort : Z) : go data :=
  let d := GetData 2048 in
  let usPort2 := u16 (usPort + 1) in
  let usPort3 := u16 (usPort + 2) in
  let! (buf, pos) := sprintf (m_uszData d) 0 (str "*3" ++ crlf ++
                       slots_range 0 5460 szIp usPort (str "fbec008dfd093d2f9753f7058b8642484119e1ae")) in
  let usPort := if support then usPort2 else usPort in
  let! (buf, iLen) := sprintf buf pos (slots_range 5461 10922 szIp usPort (str "4101a328ac736cccfe65e1cfafef003e631b56b9")) in
  let pos := pos + iLen in
  let usPort := if support then usPort3 else usPort in
  let! (buf, iLen) := sprintf buf pos (slots_range 10923 10383 szIp usPort (str "698c3b1f3f7b773c5255f3ecd44cca76b46d74bc")) in
  let pos := pos + iLen in
  let! buf := write buf pos [0] in
  Ret (filled_with d buf pos).

End package.

(** ** Writing in a buffer *)

Lemma write_app a b c l : length b = length l -> write (a ++ b ++ c) (zlen a) l = Ret (a ++ l ++ c).
Proof.
  intros Hl. unfold write. rewrite !zlen_app. pose proof (zlen_nonneg a). pose proof (zlen_nonneg c).
  assert (zlen b = zlen l) as Hz by (unfold zlen; lia).
  destruct (Z.leb_spec 0 (zlen a)); [|lia]. destruct (Z.leb_spec (zlen a + zlen l) (zlen a + (zlen b + zlen c))); [|lia].
  cbn [andb]. unfold zlen at 1. rewrite Nat2Z.id, overwrite_rest by (rewrite length_app; lia).
  by rewrite drop_app_length'.
Qed.

(** Behind a prefix, where there is room. *)
Lemma write_rest a r l : zlen l <= zlen r -> write (a ++ r) (zlen a) l = Ret (a ++ l ++ drop (length l) r).
Proof.
  intros Hl. rewrite <- (take_drop (length l) r) at 1. apply write_app. rewrite length_take. unfold zlen in Hl. lia.
Qed.

(** ** The number of digits *)

Lemma dec_small n : 0 <= n < 10 -> dec n = [48 + n].
Proof. intros. rewrite dec_step, Z.div_small, Z.mod_small by lia. done. Qed.

Lemma dec_div k : forall n, 10 ^ Z.of_nat k <= n -> zlen (dec n) = Z.of_nat k + zlen (dec (n / 10 ^ Z.of_nat k)).
Proof.
  induction k as [|k IH]; intros n Hn; [by rewrite Z.div_1_r|].
  rewrite Nat2Z.inj_succ, Z.pow_succ_r in * by lia. pose proof (Z.pow_pos_nonneg 10 (Z.of_nat k) ltac:(lia) ltac:(lia)).
  assert (10 ^ Z.of_nat k <= n / 10) by (apply Z.div_le_lower_bound; lia).
  rewrite (dec_step n) by lia. destruct (Z.eqb_spec (n / 10) 0); [lia|].
  rewrite zlen_app, (IH (n / 10)), Z.div_div by lia. change (zlen [48 + n mod 10]) with 1. lia.
Qed.

Lemma dec_digits k n : 10 ^ Z.of_nat k <= n < 10 ^ Z.of_nat (S k) -> zlen (dec n) = Z.of_nat (S k).
Proof.
  intros Hn. rewrite Nat2Z.inj_succ, Z.pow_succ_r in Hn by lia. rewrite (dec_div k) by lia.
  pose proof (Z.pow_pos_nonneg 10 (Z.of_nat k) ltac:(lia) ltac:(lia)).
  assert (1 <= n / 10 ^ Z.of_nat k) by (apply Z.div_le_lower_bound; lia).
  assert (n / 10 ^ Z.of_nat k < 10) by (apply Z.div_lt_upper_bound; lia).
  rewrite dec_small by lia. unfold zlen. cbn [length]. lia.
Qed.

(** The digits of a number between two powers of ten. *)
Ltac count_digits :=
  match goal with
  | |- _ = zlen (dec ?n) =>
      first [ rewrite (dec_small n) by lia; reflexivity
            | rewrite (dec_digits 1 n) by lia; reflexivity | rewrite (dec_digits 2 n) by lia; reflexivity
            | rewrite (dec_digits 3 n) by lia; reflexivity | rewrite (dec_digits 4 n) by lia; reflexivity
            | rewrite (dec_digits 5 n) by lia; reflexivity | rewrite (dec_digits 6 n) by lia; reflexivity
            | rewrite (dec_digits 7 n) by lia; reflexivity | rewrite (dec_digits 8 n) by lia; reflexivity
            | rewrite (dec_digits 9 n) by lia; reflexivity | rewrite (dec_digits 10 n) by lia; reflexivity
            | rewrite (dec_digits 11 n) by lia; reflexivity ]
  end.

Lemma digits10_rec_dec f : forall v, 0 <= v < 1000000000000 ^ Z.of_nat (S f) -> digits10_rec f v = zlen (dec v).
Proof.
  induction f as [|f IH]; intros v Hv; cbn [digits10_rec].
  all: repeat (match goal with |- context [?a <? ?b] => destruct (Z.ltb_spec a b) end; [try count_digits|]).
  all: repeat match goal with |- context [?a <=? ?b] => destruct (Z.leb_spec a b) end; cbn [Z.b2z Z.add Pos.add]; try count_digits.
  - change (1000000000000 ^ Z.of_nat 1) with 1000000000000 in Hv. lia.
  - rewrite Nat2Z.inj_succ, Z.pow_succ_r in Hv by lia. rewrite (dec_div 12 v) by lia. change (10 ^ Z.of_nat 12) with 1000000000000.
    rewrite IH; [lia|]. split; [apply Z.div_pos; lia|apply Z.div_lt_upper_bound; lia].
Qed.

Lemma digits10_dec v : 0 <= v < 2 ^ 64 -> digits10 v = zlen (dec v).
Proof. intros. apply digits10_rec_dec. change (1000000000000 ^ Z.of_nat 2) with 1000000000000000000000000. lia. Qed.

Lemma countDigits_loop_dec f : forall v r, 0 <= v < 10000 ^ Z.of_nat (S f) -> countDigits_loop f v r = r - 1 + zlen (dec v).
Proof.
  induction f as [|f IH]; intros v r Hv; cbn [countDigits_loop].
  all: repeat (match goal with |- context [?a <? ?b] => destruct (Z.ltb_spec a b) end;
    [first [rewrite (dec_small v) by lia | rewrite (dec_digits 1 v) by lia | rewrite (dec_digits 2 v) by lia | rewrite (dec_digits 3 v) by lia];
     unfold zlen; cbn [length]; lia|]).
  - change (10000 ^ Z.of_nat 1) with 10000 in Hv. lia.
  - rewrite Nat2Z.inj_succ, Z.pow_succ_r in Hv by lia. rewrite (dec_div 4 v) by lia. change (10 ^ Z.of_nat 4) with 10000.
    rewrite IH; [lia|]. split; [apply Z.div_pos; lia|apply Z.div_lt_upper_bound; lia].
Qed.

Lemma countDigits_dec v : 0 <= v < 2 ^ 64 -> countDigits v = zlen (dec v).
Proof.
  intros. unfold countDigits. rewrite countDigits_loop_dec; [lia|].
  change (10000 ^ Z.of_nat 6) with 1000000000000000000000000. lia.
Qed.

(** ** Pairs of digits *)

Lemma digit_at_ok i : 0 <= i < 100 -> digit_at (i * 2) = 48 + i / 10 /\ digit_at (i * 2 + 1) = 48 + i mod 10.
Proof.
  intros Hi. assert (forallb (fun k => let i := Z.of_nat k in (digit_at (i * 2) =? 48 + i / 10) && (digit_at (i * 2 + 1) =? 48 + i mod 10)) (seq 0 100) = true) as H
    by (vm_compute; done).
  rewrite forallb_forall in H. specialize (H (Z.to_nat i)). rewrite in_seq in H. specialize (H ltac:(lia)).
  cbv zeta in H. rewrite Z2Nat.id in H by lia. apply andb_true_iff in H as [H1 H2]. split; by apply Z.eqb_eq.
Qed.

Lemma dec_pair v : 10 <= v < 100 -> dec v = [digit_at (v * 2); digit_at (v * 2 + 1)].
Proof.
  intros Hv. destruct (digit_at_ok v ltac:(lia)) as [-> ->]. rewrite dec_step by lia.
  assert (1 <= v / 10) by (apply Z.div_le_lower_bound; lia). assert (v / 10 < 10) by (apply Z.div_lt_upper_bound; lia).
  destruct (Z.eqb_spec (v / 10) 0); [lia|]. by rewrite dec_small by lia.
Qed.

Lemma dec_hundreds v : 100 <= v -> dec v = dec (v / 100) ++ [digit_at (v mod 100 * 2); digit_at (v mod 100 * 2 + 1)].
Proof.
  intros Hv. pose proof (Z.mod_pos_bound v 100 ltac:(lia)). destruct (digit_at_ok (v mod 100) ltac:(lia)) as [-> ->].
  assert (10 <= v / 10) by (apply Z.div_le_lower_bound; lia). assert (1 <= v / 10 / 10) by (apply Z.div_le_lower_bound; lia).
  rewrite (dec_step v) by lia. destruct (Z.eqb_spec (v / 10) 0); [lia|]. rewrite (dec_step (v / 10)) by lia.
  destruct (Z.eqb_spec (v / 10 / 10) 0); [lia|]. rewrite <- app_assoc, Z.div_div by lia. cbn [app].
  assert (v mod 100 / 10 = v / 10 mod 10) as -> by (change 100 with (10 * 10); rewrite Z.rem_mul_r, Z.mul_comm, Z.div_add, (Z.div_small (v mod 10)) by (try apply Z.mod_pos_bound; lia); lia).
  assert (v mod 100 mod 10 = v mod 10) as -> by (change 100 with (10 * 10); rewrite Z.rem_mul_r, Z.mul_comm, Z.mod_add, Z.mod_mod by lia; done).
  done.
Qed.

(** ** [ll2string] *)

(** Two digits, the second one first. *)
Lemma write_pair a x y r d e : zlen a < 2 ^ 31 ->
  (let! s := write (a ++ [x; y] ++ r) (zlen a + 1) [e] in write s (u32 (zlen a + 1 - 1)) [d]) = Ret (a ++ [d; e] ++ r).
Proof.
  intros Ha. pose proof (zlen_nonneg a). replace (a ++ [x; y] ++ r) with ((a ++ [x]) ++ [y] ++ r) by (by rewrite <- app_assoc).
  replace (zlen a + 1) with (zlen (a ++ [x])) at 1 by (by rewrite zlen_app).
  rewrite write_app by done. cbn [app]. rewrite wrap_small by lia. replace (zlen a + 1 - 1) with (zlen a) by lia.
  rewrite <- app_assoc. by apply (write_app a [x] (e :: r) [d]).
Qed.

(** The loop writes the last digits from the right, and leaves the place of the
    first one or two. *)
Lemma ll_loop_dec f : forall v a b r, 0 <= v < 100 ^ Z.of_nat (S f) -> length b = length (dec v) -> zlen (a ++ b) < 2 ^ 31 ->
  exists v' b' s, ll_loop f (a ++ b ++ r) v (zlen (a ++ b) - 1) = Ret (a ++ b' ++ s ++ r, v', zlen (a ++ b') - 1) /\
    0 <= v' < 100 /\ dec v = dec v' ++ s /\ length b' = length (dec v').
Proof.
  induction f as [|f IH]; intros v a b r Hv Hb Hz; cbn [ll_loop]; destruct (Z.ltb_spec v 100).
  1, 3: exists v, b, []; rewrite app_nil_r; cbn [app]; repeat split; [lia..|done].
  { change (100 ^ Z.of_nat 1) with 100 in Hv. lia. }
  pose proof (dec_hundreds v ltac:(lia)) as Hd. rewrite Hd, length_app in Hb. cbn [length] in Hb.
  rewrite Nat2Z.inj_succ, Z.pow_succ_r in Hv by lia.
  assert (0 <= v / 100 < 100 ^ Z.of_nat (S f)) as Hv' by (split; [apply Z.div_pos; lia|apply Z.div_lt_upper_bound; lia]).
  assert (exists b0 x y, b = b0 ++ [x; y] /\ length b0 = length (dec (v / 100))) as (b0 & x & y & -> & Hb0).
  { exists (take (length (dec (v / 100))) b). destruct (drop (length (dec (v / 100))) b) as [|x [|y [|z l]]] eqn:E;
      apply (f_equal length) in E as El; rewrite length_drop in El; cbn in El; try lia.
    exists x, y. rewrite <- E, take_drop, length_take. split; [done|lia]. }
  assert (zlen (a ++ b0 ++ [x; y]) - 1 = zlen (a ++ b0) + 1) as -> by (rewrite !zlen_app; change (zlen [x; y]) with 2; lia).
  rewrite !zlen_app in Hz. change (zlen [x; y]) with 2 in Hz. assert (zlen (a ++ b0) < 2 ^ 31) as Hz0 by (rewrite zlen_app; lia).
  pose proof (write_pair (a ++ b0) x y r (digit_at (v mod 100 * 2)) (digit_at (v mod 100 * 2 + 1)) Hz0) as Hw.
  rewrite <- !app_assoc in Hw. rewrite <- app_assoc. cbv zeta.
  destruct (write (a ++ b0 ++ [x; y] ++ r) (zlen (a ++ b0) + 1) [digit_at (v mod 100 * 2 + 1)]) as [s1|]; [|done]. cbn [go_bind] in Hw |- *. rewrite Hw. cbn [go_bind].
  assert (1 <= length b0)%nat as H1 by (destruct (dec_spec (v / 100)) as (_ & _ & Hne); [lia|]; rewrite Hb0; by destruct (dec (v / 100)); cbn; [|lia]).
  assert (1 <= zlen b0) by (unfold zlen; lia). pose proof (zlen_nonneg a). rewrite wrap_small by (rewrite zlen_app; lia).
  replace (zlen (a ++ b0) + 1 - 2) with (zlen (a ++ b0) - 1) by lia.
  destruct (IH (v / 100) a b0 ([digit_at (v mod 100 * 2); digit_at (v mod 100 * 2 + 1)] ++ r) Hv' Hb0 Hz0) as (v' & b' & s & -> & Hr & Hs & Hl).
  exists v', b', (s ++ [digit_at (v mod 100 * 2); digit_at (v mod 100 * 2 + 1)]). repeat split; try lia; [by rewrite <- !app_assoc|].
  by rewrite Hd, Hs, <- app_assoc.
Qed.

Lemma cut_buffer (l : list Z) n m : zlen l > Z.of_nat n + Z.of_nat m ->
  exists a b z, l = a ++ b ++ z :: drop (S (n + m)) l /\ length a = n /\ length b = m.
Proof.
  intros Hl. unfold zlen in Hl. destruct (lookup_lt_is_Some_2 l (n + m)) as [z Hz]; [lia|].
  exists (take n l), (take m (drop n l)), z. rewrite <- (drop_S l z (n + m)) by done. split; [|rewrite !length_take, length_drop; lia].
  by rewrite <- drop_drop, !take_drop.
Qed.

(** The last one or two digits. *)
Definition last_digits (dst : list Z) (value next : Z) : go (list Z) :=
  if value <? 10 then write dst next [48 + value]
  else let i := value * 2 in let! dst := write dst next [digit_at (i + 1)] in write dst (u32 (next - 1)) [digit_at i].

Lemma last_digits_dec a b r v : 0 <= v < 100 -> length b = length (dec v) -> zlen (a ++ b) < 2 ^ 31 ->
  last_digits (a ++ b ++ r) v (zlen (a ++ b) - 1) = Ret (a ++ dec v ++ r).
Proof.
  intros Hv Hb Hz. unfold last_digits. rewrite zlen_app in *. destruct (Z.ltb_spec v 10).
  - rewrite dec_small in * by lia. destruct b as [|x [|]]; try done. change (zlen [x]) with 1.
    replace (zlen a + 1 - 1) with (zlen a) by lia. by apply write_app.
  - rewrite dec_pair in * by lia. destruct b as [|x [|y [|]]]; try done. change (zlen [x; y]) with 2 in *.
    replace (zlen a + 2 - 1) with (zlen a + 1) by lia. apply write_pair. lia.
Qed.

Lemma ll_sign v : - 2 ^ 63 <= v < 2 ^ 63 ->
  (if v <? 0 then (if v =? - 2 ^ 63 then 2 ^ 63 - 1 + 1 else - v) else v) = Z.abs v /\
  itoa v = (if v <? 0 then [45] else []) ++ dec (Z.abs v).
Proof.
  intros Hv. unfold itoa. destruct (Z.ltb_spec v 0); [destruct (Z.eqb_spec v (- 2 ^ 63))|]; split; try lia;
    [by replace (Z.abs v) with (- v) by lia..|by replace (Z.abs v) with v by lia].
Qed.

(** C40: A number of 64 bits as text: [ll2string] writes exactly the decimal text and
    a NUL, leaves the rest of the buffer alone and returns the length, when the
    buffer has room for both; otherwise it writes nothing and returns 0.  No
    write is outside of the buffer, the least number included. *)
Theorem ll2string_is_itoa dst v : - 2 ^ 63 <= v < 2 ^ 63 ->
  ll2string dst v = if zlen dst <=? zlen (itoa v) then Ret (dst, 0)
                    else Ret (itoa v ++ 0 :: drop (S (length (itoa v))) dst, zlen (itoa v)).
Proof.
  intros Hv. destruct (ll_sign v Hv) as [Ev Ei]. unfold ll2string. rewrite Ev, digits10_dec by lia.
  set (sg := if v <? 0 then [45] else []) in *.
  assert (zlen (dec (Z.abs v)) + Z.b2z (v <? 0) = zlen (itoa v)) as -> by (rewrite Ei, zlen_app; unfold sg; destruct (v <? 0); cbn [Z.b2z]; [change (zlen [45]) with 1|change (zlen (@nil Z)) with 0]; lia).
  destruct (Z.leb_spec (zlen dst) (zlen (itoa v))); [done|].
  destruct (cut_buffer dst (length sg) (length (dec (Z.abs v)))) as (a & b & z & Ed & Ha & Hb).
  { rewrite Ei, zlen_app in *. unfold zlen in *. lia. }
  rewrite <- length_app, <- Ei in Ed. set (r := drop (S (length (itoa v))) dst) in *.
  assert (zlen (itoa v) = zlen (a ++ b)) as Hk by (rewrite Ei; unfold zlen; rewrite !length_app; lia).
  assert (zlen (a ++ b) < 2 ^ 31) as Hz.
  { pose proof (dec_length 19 (Z.abs v)) as Hl. change (10 ^ Z.of_nat 20) with 100000000000000000000 in Hl.
    assert (length sg <= 1)%nat by (unfold sg; destruct (v <? 0); cbn; lia). unfold zlen. rewrite length_app. lia. }
  assert (write dst (zlen (a ++ b)) [0] = Ret (a ++ b ++ [0] ++ r)) as Hw.
  { rewrite Ed, !app_assoc, <- (app_assoc _ [0]). by apply (write_app (a ++ b) [z] r [0]). }
  rewrite Hk, Hw. cbn [go_bind].
  destruct (ll_loop_dec 10 (Z.abs v) a b ([0] ++ r)) as (v' & b' & s & -> & Hv' & Hs & Hb'); [|done..|].
  { change (100 ^ Z.of_nat 11) with 10000000000000000000000. lia. }
  cbn [go_bind]. fold (last_digits (a ++ b' ++ s ++ [0] ++ r) v' (zlen (a ++ b') - 1)). rewrite last_digits_dec; [|done..|].
  2: { rewrite zlen_app in *. assert (length b = length (dec v') + length s)%nat by (by rewrite Hb, Hs, length_app). unfold zlen in *. lia. }
  cbn [go_bind]. rewrite (app_assoc (dec v')), <- Hs, Ei. unfold sg in *. destruct (v <? 0).
  - destruct a as [|x [|]]; try done. pose proof (write_app [] [x] (dec (Z.abs v) ++ [0] ++ r) [45] eq_refl) as Hs1.
    change (zlen (@nil Z)) with 0 in Hs1. cbn [app] in Hs1 |- *. by rewrite Hs1.
  - by destruct a.
Qed.

Lemma ll2string_is_itoa_witness : ll2string (replicate 8 1) (-120) = Ret ([45; 49; 50; 48; 0; 1; 1; 1], 4).
Proof. rewrite (ll2string_is_itoa (replicate 8 1) (-120)) by lia. reflexivity. Defined.

(** ** [sdsll2str] *)

Lemma exchange_reverse f : forall a l c, (length l <= f)%nat ->
  exchange f (a ++ l ++ c) (length a) (length a + length l - 1) = a ++ reverse l ++ c.
Proof.
  induction f as [|f IH]; intros a l c Hl; cbn [exchange]; [by destruct l; cbn in Hl; [|lia]|].
  destruct (Nat.ltb_spec (length a) (length a + length l - 1)) as [Hlt|Hge].
  - destruct l as [|x l]; [cbn in Hlt; lia|]. destruct l as [|y m _] using rev_ind; [cbn in Hlt; lia|].
    cbn [length] in Hl, Hlt |- *. rewrite length_app in Hl, Hlt |- *. cbn [length] in Hl, Hlt |- *.
    replace (length a + S (length m + 1) - 1)%nat with (length a + S (length m))%nat by lia.
    assert ((a ++ (x :: m ++ [y]) ++ c) !! length a = Some x) as -> by (cbn [app]; by rewrite list_lookup_middle).
    assert ((a ++ (x :: m ++ [y]) ++ c) !! (length a + S (length m))%nat = Some y) as ->.
    { rewrite lookup_app_r by lia. replace (length a + S (length m) - length a)%nat with (S (length m)) by lia. cbn [app lookup list_lookup]. rewrite <- app_assoc. by apply list_lookup_middle. }
    cbn [default from_option id].
    assert (<[(length a + S (length m))%nat := x]> (<[length a := y]> (a ++ (x :: m ++ [y]) ++ c)) = (a ++ [y]) ++ m ++ x :: c) as ->.
    { rewrite (insert_app_r_alt a _ (length a)), Nat.sub_diag by lia. rewrite insert_app_r_alt by lia.
      replace (length a + S (length m) - length a)%nat with (S (length m)) by lia. cbn [app insert list_insert]. rewrite <- !app_assoc. cbn [app]. do 2 f_equal.
      etransitivity; [apply (insert_app_r_alt m (y :: c) (length m) x); lia|]. by rewrite Nat.sub_diag. }
    specialize (IH (a ++ [y]) m (x :: c) ltac:(lia)). rewrite length_app in IH. cbn [length] in IH.
    replace (S (length a)) with (length a + 1)%nat by lia. replace (pred (length a + S (length m))) with (length a + 1 + length m - 1)%nat by lia.
    rewrite IH. by rewrite reverse_cons, reverse_app, <- !app_assoc.
  - destruct l as [|x [|y l]]; [done|done|]. cbn [length] in Hge. lia.
Qed.

Lemma sds_step f s p v : sds_loop (S f) s p v =
  let! s := write s p [48 + v mod 10] in if v / 10 =? 0 then Ret (s, p + 1) else sds_loop f s (p + 1) (v / 10).
Proof. done. Qed.

Lemma sds_loop_dec f : forall v a b r, 0 <= v < 10 ^ Z.of_nat (S f) -> length b = length (dec v) ->
  sds_loop (S f) (a ++ b ++ r) (zlen a) v = Ret (a ++ reverse (dec v) ++ r, zlen a + zlen (dec v)).
Proof.
  induction f as [|f IH]; intros v a b r Hv Hb; rewrite dec_step, length_app, Nat.add_1_r in Hb by lia;
    destruct b as [|x b]; try done; injection Hb as Hb;
    rewrite (dec_step v), reverse_app, reverse_singleton, zlen_app by lia; change (zlen [48 + v mod 10]) with 1;
    rewrite sds_step; change ((x :: b) ++ r) with ([x] ++ b ++ r); rewrite write_app by done; cbn [go_bind];
    destruct (Z.eqb_spec (v / 10) 0).
  1, 3: destruct b; try done; by rewrite Z.add_comm.
  - rewrite (Z.div_small v 10) in n by (change (10 ^ Z.of_nat 1) with 10 in Hv; lia). done.
  - rewrite Nat2Z.inj_succ, Z.pow_succ_r in Hv by lia. specialize (IH (v / 10) (a ++ [48 + v mod 10]) b r).
    rewrite zlen_app, <- !app_assoc in IH. change (zlen [48 + v mod 10]) with 1 in IH. rewrite IH; [|split; [apply Z.div_pos; lia|apply Z.div_lt_upper_bound; lia]|done].
    rewrite <- app_assoc. do 2 f_equal. lia.
Qed.

Lemma zlen_reverse (l : list Z) : zlen (reverse l) = zlen l.
Proof. unfold zlen. by rewrite length_reverse. Qed.

(** The NUL, and the exchange. *)
Lemma sds_finish l z r : (let! s := write (l ++ z :: r) (zlen l) [0] in
  Ret (exchange (Z.to_nat (zlen l)) s 0 (Z.to_nat (zlen l - 1)), zlen l)) = Ret (reverse l ++ 0 :: r, zlen l).
Proof.
  change (z :: r) with ([z] ++ r). rewrite (write_app l [z] r [0]) by done. cbn [go_bind]. do 2 f_equal.
  pose proof (exchange_reverse (length l) [] l ([0] ++ r) ltac:(lia)) as He. cbn [app length] in He. unfold zlen. rewrite Nat2Z.id.
  by replace (Z.to_nat (Z.of_nat (length l) - 1)) with (0 + length l - 1)%nat by lia.
Qed.

(** [sdsll2str] writes the same text, where the buffer has room. *)
Theorem sdsll2str_is_itoa s v : - 2 ^ 63 < v < 2 ^ 63 -> zlen (itoa v) < zlen s ->
  sdsll2str s v = Ret (itoa v ++ 0 :: drop (S (length (itoa v))) s, zlen (itoa v)).
Proof.
  intros Hv Hl. destruct (ll_sign v ltac:(lia)) as [_ Ei]. unfold sdsll2str. destruct (Z.eqb_spec v (- 2 ^ 63)); [lia|].
  destruct (cut_buffer s (length (dec (Z.abs v))) (length (if v <? 0 then [45] else []))) as (a & b & z & Es & Ha & Hb).
  { rewrite Ei, zlen_app in Hl. unfold zlen in *. lia. }
  rewrite Nat.add_comm, <- length_app, <- Ei in Es. set (r := drop (S (length (itoa v))) s) in *. rewrite Es.
  pose proof (sds_loop_dec 19 (Z.abs v) [] a (b ++ z :: r)) as El. cbn [app] in El. change (zlen (@nil Z)) with 0 in El. rewrite Z.add_0_l in El.
  rewrite El; [|change (10 ^ Z.of_nat 20) with 100000000000000000000; lia|done]. clear El. cbn [go_bind].
  rewrite Ei, <- (zlen_reverse (dec _)). destruct (v <? 0); destruct b as [|y [|]]; try done; cbn [app].
  - change (y :: z :: r) with ([y] ++ z :: r). rewrite (write_app _ [y] (z :: r) [45]) by done. cbn [go_bind].
    pose proof (sds_finish (reverse (dec (Z.abs v)) ++ [45]) z r) as Hf. rewrite zlen_app, <- app_assoc, reverse_app, reverse_involutive in Hf.
    change (zlen [45]) with 1 in Hf. cbn [app] in Hf |- *. rewrite Hf. do 2 f_equal. rewrite zlen_cons, zlen_reverse. lia.
  - pose proof (sds_finish (reverse (dec (Z.abs v))) z r) as Hf. rewrite reverse_involutive in Hf. cbn [go_bind] in Hf |- *. rewrite Hf. by rewrite zlen_reverse.
Qed.

(** ** [CharToInt] *)

Lemma int_of_ok v : - 2 ^ 31 <= v < 2 ^ 31 -> int_of v = Ret v.
Proof. intros. unfold int_of. destruct (Z.leb_spec (- 2 ^ 31) v); [|lia]. destruct (Z.ltb_spec v (2 ^ 31)); [done|lia]. Qed.

Lemma int_of_over v : 2 ^ 31 <= v -> int_of v = Panic.
Proof. intros. unfold int_of. destruct (Z.ltb_spec v (2 ^ 31)); [lia|]. by rewrite andb_false_r. Qed.

Lemma char_loop_app l1 l2 r : char_loop (l1 ++ l2) r = let! t := char_loop l1 r in char_loop l2 t.
Proof.
  revert r. induction l1 as [|b l1 IH]; intros r; [done|]. cbn [app char_loop].
  do 3 (destruct (int_of _); [|done]; cbn [go_bind]). apply IH.
Qed.

Lemma char_digit r d : 0 <= r -> 0 <= d < 10 ->
  char_loop [48 + d] r = if r * 10 + d + 48 <? 2 ^ 31 then Ret (r * 10 + d) else Panic.
Proof.
  intros Hr Hd. cbn [char_loop]. rewrite (swrap_small 8) by lia. destruct (Z.ltb_spec (r * 10 + d + 48) (2 ^ 31)).
  - do 3 (rewrite int_of_ok by lia; cbn [go_bind]). f_equal. lia.
  - destruct (Z.ltb_spec (r * 10) (2 ^ 31)); [rewrite int_of_ok by lia|by rewrite int_of_over by lia]. cbn [go_bind]. by rewrite int_of_over by lia.
Qed.

Lemma char_loop_dec n v : 0 <= v < 10 ^ Z.of_nat (S n) -> char_loop (dec v) 0 = if v + 48 <? 2 ^ 31 then Ret v else Panic.
Proof.
  revert v. induction n as [|n IH]; intros v Hv; pose proof (Z.mod_pos_bound v 10 ltac:(lia)).
  - change (10 ^ Z.of_nat 1) with 10 in Hv. rewrite dec_small, char_digit by lia. by rewrite Z.add_0_l.
  - rewrite Nat2Z.inj_succ, Z.pow_succ_r in Hv by lia. pose proof (Z.div_mod v 10 ltac:(lia)). rewrite dec_step, char_loop_app by lia.
    assert (0 <= v / 10 < 10 ^ Z.of_nat (S n)) by (split; [apply Z.div_pos; lia|apply Z.div_lt_upper_bound; lia]).
    destruct (Z.eqb_spec (v / 10) 0) as [E|]; [|rewrite IH by lia].
    + change (char_loop [48 + v mod 10] 0 = if v + 48 <? 2 ^ 31 then Ret v else Panic). rewrite char_digit by lia. by replace (0 * 10 + v mod 10) with v by lia.
    + destruct (Z.ltb_spec (v / 10 + 48) (2 ^ 31)); cbn [go_bind].
      * rewrite char_digit by lia. by replace (v / 10 * 10 + v mod 10) with v by lia.
      * destruct (Z.ltb_spec (v + 48) (2 ^ 31)); [lia|done].
Qed.

Lemma dec_leads n : 0 <= n -> exists b l, dec n = b :: l /\ 48 <= b <= 57.
Proof. intros Hn. destruct (dec_spec n Hn) as (_ & Hd & Hne). destruct (dec n) as [|b l]; [done|]. exists b, l. by inversion Hd. Qed.

(** [CharToInt] reads back a number as it is written.  The digit is added before
    48 is taken away, so that the last 48 numbers of an [int] on either side
    overflow. *)
Theorem chartoint_reads v : CharToInt (itoa v) = (if Z.abs v + 48 <? 2 ^ 31 then Ret (v, true) else Panic).
Proof.
  assert (exists n, Z.abs v < 10 ^ Z.of_nat (S n)) as [n Hn].
  { exists (Z.to_nat (Z.abs v)). rewrite Nat2Z.inj_succ, Z2Nat.id by lia. pose proof (Z.pow_gt_lin_r 10 (Z.succ (Z.abs v)) ltac:(lia) ltac:(lia)). lia. }
  pose proof (char_loop_dec n (Z.abs v) ltac:(lia)) as Hl. unfold itoa. destruct (Z.ltb_spec v 0) as [Hneg|Hpos].
  - replace (- v) with (Z.abs v) by lia. cbn [CharToInt]. rewrite Hl. destruct (Z.ltb_spec (Z.abs v + 48) (2 ^ 31)); [|done].
    cbn [go_bind]. rewrite int_of_ok by lia. cbn [go_bind]. do 2 f_equal. lia.
  - replace (Z.abs v) with v in * by lia. destruct (dec_leads v Hpos) as (b & l & E & Hb). rewrite E in *.
    assert (CharToInt (b :: l) = let! v := char_loop (b :: l) 0 in Ret (v, true)) as ->.
    { unfold CharToInt. repeat (match goal with |- context [match ?x with _ => _ end] => is_var x; destruct x end; try done; try lia). }
    rewrite Hl. by destruct (v + 48 <? 2 ^ 31).
Qed.

(** ** Messages *)

Lemma zlen_arg_line x : zlen x < 2 ^ 64 -> zlen (arg_line x) = GR_BULKLEN (zlen x).
Proof.
  intros. pose proof (zlen_nonneg x). unfold GR_BULKLEN. rewrite countDigits_dec by lia. unfold arg_line, prefix_of_arg.
  rewrite !zlen_app, zlen_cons, zlen_app. change (zlen crlf) with 2. lia.
Qed.

Lemma arg_line_longer x : zlen x + 5 < zlen (arg_line x).
Proof.
  unfold arg_line, prefix_of_arg. rewrite !zlen_app, zlen_cons, zlen_app. change (zlen crlf) with 2.
  destruct (dec_leads (zlen x) (zlen_nonneg x)) as (b & l & -> & _). rewrite zlen_cons. pose proof (zlen_nonneg l). lia.
Qed.

Lemma arg_lines_cons x xs : arg_lines (x :: xs) = arg_line x ++ arg_lines xs.
Proof. done. Qed.

Lemma args_size_ok argv : forall t, 0 <= t -> t + zlen (arg_lines argv) < 2 ^ 31 -> args_size t argv = t + zlen (arg_lines argv).
Proof.
  induction argv as [|x argv IH]; intros t Ht Hl; [change (zlen (arg_lines [])) with 0; cbn; lia|].
  rewrite arg_lines_cons, zlen_app in *. pose proof (arg_line_longer x). pose proof (zlen_nonneg x). pose proof (zlen_nonneg (arg_lines argv)).
  cbn [args_size]. rewrite <- zlen_arg_line, swrap_small, IH by lia. lia.
Qed.

(** What is written behind [w] leaves room for the NUL. *)
Lemma sprintf_rest w r t : zlen t < zlen r -> exists r', sprintf (w ++ r) (zlen w) t = Ret ((w ++ t) ++ r', zlen t) /\ zlen r' = zlen r - zlen t.
Proof.
  intros Hl. unfold sprintf. rewrite write_rest by (rewrite zlen_app; change (zlen [0]) with 1; lia). cbn [go_bind].
  exists (0 :: drop (length (t ++ [0])) r). split; [by rewrite <- !app_assoc|]. rewrite zlen_cons, zlen_drop, length_app. unfold zlen in *. cbn [length]. lia.
Qed.

Lemma write_behind w r l : zlen l <= zlen r -> exists r', write (w ++ r) (zlen w) l = Ret ((w ++ l) ++ r') /\ zlen r' = zlen r - zlen l.
Proof.
  intros Hl. exists (drop (length l) r). rewrite write_rest by done. split; [by rewrite <- app_assoc|]. rewrite zlen_drop. unfold zlen in *. lia.
Qed.

Lemma package_args_ok argv : forall w r, zlen (arg_lines argv) < zlen r -> zlen w + zlen (arg_lines argv) < 2 ^ 31 ->
  exists r', package_args (w ++ r) (zlen w) argv = Ret ((w ++ arg_lines argv) ++ r', zlen (w ++ arg_lines argv)) /\ zlen r' = zlen r - zlen (arg_lines argv).
Proof.
  induction argv as [|x argv IH]; intros w r Hr Hw.
  { exists r. change (arg_lines []) with (@nil Z). rewrite app_nil_r. split; [done|]. change (zlen (@nil Z)) with 0. lia. }
  rewrite arg_lines_cons, app_assoc, !zlen_app in *. pose proof (zlen_nonneg w). pose proof (zlen_nonneg (arg_lines argv)). pose proof (zlen_nonneg x).
  assert (zlen (arg_line x) = zlen (prefix_of_arg x) + zlen x + 2) as Ha by (unfold arg_line; rewrite !zlen_app; change (zlen crlf) with 2; lia).
  pose proof (zlen_nonneg (prefix_of_arg x)). cbn [package_args]. fold (prefix_of_arg x).
  destruct (sprintf_rest w r (prefix_of_arg x)) as (r1 & -> & Hr1); [lia|]. cbn [go_bind]. rewrite int_of_ok by lia. cbn [go_bind].
  rewrite <- (zlen_app w). destruct (write_behind (w ++ prefix_of_arg x) r1 x) as (r2 & -> & Hr2); [lia|]. cbn [go_bind].
  rewrite swrap_small by (rewrite ?zlen_app; lia). rewrite <- (zlen_app _ x).
  destruct (write_behind ((w ++ prefix_of_arg x) ++ x) r2 [13]) as (r3 & -> & Hr3); [change (zlen [13]) with 1; lia|]. change (zlen [13]) with 1 in Hr3. cbn [go_bind].
  rewrite int_of_ok by (rewrite !zlen_app; lia). cbn [go_bind]. replace (zlen ((w ++ prefix_of_arg x) ++ x) + 1) with (zlen (((w ++ prefix_of_arg x) ++ x) ++ [13])) by (by rewrite zlen_app).
  destruct (write_behind (((w ++ prefix_of_arg x) ++ x) ++ [13]) r3 [10]) as (r4 & -> & Hr4); [change (zlen [10]) with 1; lia|]. change (zlen [10]) with 1 in Hr4. cbn [go_bind].
  rewrite int_of_ok by (rewrite !zlen_app; change (zlen [13]) with 1; lia). cbn [go_bind].
  replace ((((w ++ prefix_of_arg x) ++ x) ++ [13]) ++ [10]) with (w ++ arg_line x) by (unfold arg_line, crlf; by rewrite <- !app_assoc).
  replace (zlen (((w ++ prefix_of_arg x) ++ x) ++ [13]) + 1) with (zlen (w ++ arg_line x)) by (rewrite !zlen_app, Ha; change (zlen [13]) with 1; lia).
  destruct (IH (w ++ arg_line x) r4) as (r5 & -> & Hr5); [lia|rewrite zlen_app; lia|]. exists r5. split; [by rewrite !zlen_app|lia].
Qed.

(** The used bytes of the block are the request. *)
Definition carries (d : data) (args : list (list Z)) : Prop :=
  exists rest, m_uszData d = request args ++ rest /\ m_sUsedSize d = zlen (request args).

Section messages.

Context (GetData : Z -> data) (Hroom : forall k, 0 < k -> k <= zlen (m_uszData (GetData k))).

Lemma package_ok args : zlen (request args) + 1 < 2 ^ 31 ->
  exists d, PackageMsg GetData args = Ret d /\ carries d args /\ m_cStaticFlag d = m_cStaticFlag (GetData (zlen (request args) + 1)).
Proof.
  intros Hl. pose proof (zlen_nonneg args). pose proof (zlen_nonneg (arg_lines args)). rewrite request_eq, zlen_app in *.
  assert (zlen (head_of (zlen args)) = 1 + zlen (dec (zlen args)) + 2) as Hh by (unfold head_of; rewrite zlen_cons, zlen_app; change (zlen crlf) with 2; lia).
  pose proof (zlen_nonneg (dec (zlen args))). assert (zlen args <= zlen (arg_lines args)) as Hn.
  { clear. induction args as [|x args IH]; [done|]. rewrite arg_lines_cons, zlen_app, zlen_cons. pose proof (arg_line_longer x). pose proof (zlen_nonneg x). lia. }
  unfold PackageMsg. rewrite countDigits_dec, <- Hh, args_size_ok by lia. cbv zeta. rewrite int_of_ok by lia. cbn [go_bind].
  pose proof (Hroom (zlen (head_of (zlen args)) + zlen (arg_lines args) + 1) ltac:(lia)) as Hr.
  set (d := GetData _) in *. fold (head_of (zlen args)).
  destruct (sprintf_rest [] (m_uszData d) (head_of (zlen args))) as (r1 & Hs & Hr1); [lia|]. cbn [app] in Hs. change (zlen (@nil Z)) with 0 in Hs. rewrite Hs. cbn [go_bind].
  destruct (package_args_ok args (head_of (zlen args)) r1) as (r2 & -> & Hr2); [lia|lia|]. cbn [go_bind]. rewrite <- zlen_app, Z.eqb_refl.
  destruct (write_behind (head_of (zlen args) ++ arg_lines args) r2 [0]) as (r3 & -> & _); [change (zlen [0]) with 1; lia|]. cbn [go_bind].
  eexists. split; [done|]. split; [|done]. exists ([0] ++ r3). cbn [m_uszData m_sUsedSize filled_with]. rewrite request_eq. split; [by rewrite <- app_assoc|done].
Qed.

Lemma select_ok db : 0 <= db < 2 ^ 31 -> exists d, SelectCmd GetData db = Ret d /\ carries d [str "select"; dec db].
Proof.
  intros Hdb. unfold SelectCmd. rewrite wrap_small, digits10_dec by lia. unfold itoa. destruct (Z.ltb_spec db 0); [lia|].
  pose proof (dec_length 9 db) as Hl. change (10 ^ Z.of_nat 10) with 10000000000 in Hl. specialize (Hl ltac:(lia)).
  assert (zlen (dec (zlen (dec db))) <= 2) as Hl2.
  { pose proof (dec_length 1 (zlen (dec db))) as Hk. change (10 ^ Z.of_nat 2) with 100 in Hk. unfold zlen in *. lia. }
  set (t := str "*2" ++ _). assert (t = request [str "select"; dec db]) as Et.
  { unfold t. rewrite request_eq. unfold arg_lines, arg_line, prefix_of_arg, head_of. cbn [fmap list_fmap concat]. rewrite app_nil_r. change (zlen (str "select")) with 6.
    change (zlen [str "select"; dec db]) with 2. change (dec 2) with [50]. change (dec 6) with [54]. change (str "*2") with [42; 50].
    change (str "$6") with [36; 54]. cbn [app]. rewrite <- !app_assoc. cbn [app]. done. }
  assert (zlen t < 512).
  { unfold t. rewrite !zlen_app, zlen_cons, !zlen_app. change (zlen crlf) with 2. change (zlen (str "*2")) with 2.
    change (zlen (str "$6")) with 2. change (zlen (str "select")) with 6. unfold zlen in *. lia. }
  pose proof (Hroom 512 ltac:(lia)). destruct (sprintf_rest [] (m_uszData (GetData 512)) t) as (r & Hs & _); [lia|].
  cbn [app] in Hs. change (zlen (@nil Z)) with 0 in Hs. rewrite Hs. cbn [go_bind]. eexists. split; [done|]. exists r. by rewrite <- Et.
Qed.

Lemma flushdb_ok : exists d, FlushdbCmd GetData None = Ret d /\ carries d [str "flushdb"] /\ m_cStaticFlag d = 1.
Proof.
  unfold FlushdbCmd. set (t := str "*1" ++ _). assert (t = request [str "flushdb"]) as Et by reflexivity.
  pose proof (Hroom 512 ltac:(lia)). destruct (write_behind [] (m_uszData (GetData 512)) t) as (r & Hw & _); [change (zlen t) with 17; lia|].
  cbn [app] in Hw. change (zlen (@nil Z)) with 0 in Hw. cbv zeta. rewrite Hw. cbn [go_bind]. eexists. split; [done|]. split; [|done]. exists r. by rewrite <- Et.
Qed.

(** C22: The messages the proxy writes itself are the requests they mean: any list of
    arguments whose request fits an [int] is packed without a write outside of
    the block and without a failed assertion, and the questions to the sentinel,
    CLUSTER NODES, ASKING, SELECT and FLUSHDB are what a server reads as such;
    the shared blocks are marked static. *)
Theorem commands_are_requests args name db : zlen (request args) + 1 < 2 ^ 31 -> zlen name < 2 ^ 30 -> 0 <= db < 2 ^ 31 ->
  (exists d, PackageMsg GetData args = Ret d /\ carries d args) /\
  (exists d, SentinelGetAddrByName GetData name = Ret d /\ carries d [str "sentinel"; str "get-master-addr-by-name"; name]) /\
  (exists d, ClusterNodesCmd GetData = Ret d /\ carries d [str "cluster"; str "nodes"]) /\
  (exists d, AskingCmd GetData None = Ret d /\ carries d [str "asking"] /\ m_cStaticFlag d = 1) /\
  (exists d, FlushdbCmd GetData None = Ret d /\ carries d [str "flushdb"] /\ m_cStaticFlag d = 1) /\
  (exists d, SelectCmd GetData db = Ret d /\ carries d [str "select"; dec db]).
Proof.
  intros Hl Hname Hdb. split; [destruct (package_ok args Hl) as (d & ? & ? & _); eauto|]. split.
  - destruct (package_ok [str "sentinel"; str "get-master-addr-by-name"; name]) as (d & ? & ? & _); [|eauto].
    rewrite request_eq, zlen_app. change (zlen (head_of (zlen [str "sentinel"; str "get-master-addr-by-name"; name]))) with 4. unfold arg_lines, arg_line, prefix_of_arg. cbn [fmap list_fmap concat]. rewrite !zlen_app, !zlen_cons, !zlen_app.
    pose proof (dec_length 9 (zlen name)) as Hk. change (10 ^ Z.of_nat 10) with 10000000000 in Hk. pose proof (zlen_nonneg name). specialize (Hk ltac:(lia)).
    assert (zlen (dec (zlen name)) <= 10) by (unfold zlen in *; lia).
    change (zlen crlf) with 2. change (zlen (str "sentinel")) with 8. change (zlen (str "get-master-addr-by-name")) with 23.
    change (zlen (dec 8)) with 1. change (zlen (dec 23)) with 2. change (zlen (@nil Z)) with 0. lia.
  - split; [destruct (package_ok [str "cluster"; str "nodes"]) as (d & ? & ? & _); [by vm_compute|eauto]|].
    split; [|split; [apply flushdb_ok|by apply select_ok]].
    unfold AskingCmd. destruct (package_ok [str "asking"]) as (d & -> & Hc & _); [by vm_compute|]. cbn [go_bind]. exists (set_static d). done.
Qed.

(** One range as a value of the protocol. *)
Definition range_value (first last : Z) (ip : list Z) (port : Z) (id : list Z) : rval :=
  RArr [RLine 58 (itoa first); RLine 58 (itoa last); RArr [RBulk ip; RLine 58 (itoa port); RBulk id]].

Lemma slots_range_wire first last ip port id : zlen id = 40 ->
  slots_range first last ip port id = wire (range_value first last ip port id).
Proof.
  intros Hid. unfold slots_range, range_value. cbn [wire map concat]. rewrite Hid. change (dec (zlen [RBulk ip; RLine 58 (itoa port); RBulk id])) with [51].
  change (dec (zlen [RLine 58 (itoa first); RLine 58 (itoa last); RArr [RBulk ip; RLine 58 (itoa port); RBulk id]])) with [51].
  change (dec 40) with [52; 48]. change (str "*3") with [42; 51]. change (str "$40") with [36; 52; 48]. rewrite !app_nil_r. cbn [app]. rewrite <- !app_assoc. done.
Qed.

Lemma itoa_short v : 0 <= v < 65536 -> zlen (itoa v) <= 5.
Proof.
  intros Hv. unfold itoa. destruct (Z.ltb_spec v 0); [lia|]. pose proof (dec_length 4 v) as Hl. change (10 ^ Z.of_nat 5) with 100000 in Hl. unfold zlen. lia.
Qed.

Lemma slots_range_short first last ip port id : 0 <= first < 65536 -> 0 <= last < 65536 -> 0 <= port < 65536 -> zlen ip < 256 -> zlen id = 40 ->
  zlen (slots_range first last ip port id) <= 400.
Proof.
  intros Hf Hl Hp Hi Hid. pose proof (itoa_short first Hf). pose proof (itoa_short last Hl). pose proof (itoa_short port Hp). pose proof (zlen_nonneg ip).
  pose proof (dec_length 2 (zlen ip)) as Hk. change (10 ^ Z.of_nat 3) with 1000 in Hk. specialize (Hk ltac:(lia)).
  assert (zlen (dec (zlen ip)) <= 3) by (unfold zlen in *; lia). unfold slots_range.
  repeat (rewrite zlen_app || rewrite zlen_cons). change (zlen crlf) with 2. change (zlen (str "*3")) with 2. change (zlen (str "$40")) with 3. lia.
Qed.

(** The answer to CLUSTER SLOTS: for an address of fewer than 256 bytes the reply
    fits its block of 2048 bytes and is one value of the protocol, an array of
    three ranges with the three ports; the last one runs from 10923 to 10383, so
    that no range has the slots above 10922. *)
Theorem cluster_slots_reply support ip port : zlen ip < 256 -> 0 <= port < 65536 ->
  let port2 := if support : bool then u16 (port + 1) else port in let port3 := if support then u16 (port + 2) else port in
  let reply := wire (RArr [range_value 0 5460 ip port (str "fbec008dfd093d2f9753f7058b8642484119e1ae");
                           range_value 5461 10922 ip port2 (str "4101a328ac736cccfe65e1cfafef003e631b56b9");
                           range_value 10923 10383 ip port3 (str "698c3b1f3f7b773c5255f3ecd44cca76b46d74bc")]) in
  exists d rest, ClusterSlots GetData support ip port = Ret d /\ m_uszData d = reply ++ rest /\ m_sUsedSize d = zlen reply.
Proof.
  intros Hip Hp port2 port3 reply.
  assert (0 <= port2 < 65536) as Hp2 by (unfold port2; destruct support; [apply (wrap_range 16); lia|lia]).
  assert (0 <= port3 < 65536) as Hp3 by (unfold port3; destruct support; [apply (wrap_range 16); lia|lia]).
  unfold ClusterSlots. cbv zeta. fold port2. replace (if support then u16 (port + 2) else port2) with port3 by (unfold port2, port3; by destruct support).
  set (s1 := slots_range 0 5460 ip port _). set (s2 := slots_range 5461 10922 ip port2 _). set (s3 := slots_range 10923 10383 ip port3 _).
  assert (zlen s1 <= 400) by (apply slots_range_short; done || lia). assert (zlen s2 <= 400) by (apply slots_range_short; done || lia).
  assert (zlen s3 <= 400) by (apply slots_range_short; done || lia).
  assert (reply = ((str "*3" ++ crlf ++ s1) ++ s2) ++ s3) as Er.
  { unfold reply, s1, s2, s3. rewrite !slots_range_wire by done. set (r1 := range_value _ _ _ _ _). set (r2 := range_value _ _ _ _ _). set (r3 := range_value _ _ _ _ _).
    change (wire (RArr [r1; r2; r3])) with (str "*3" ++ crlf ++ wire r1 ++ wire r2 ++ wire r3 ++ []). by rewrite app_nil_r, <- !app_assoc. }
  pose proof (Hroom 2048 ltac:(lia)) as Hr. set (t1 := str "*3" ++ crlf ++ s1) in *.
  assert (zlen t1 = 4 + zlen s1) as Ht by (unfold t1; rewrite !zlen_app; change (zlen crlf) with 2; change (zlen (str "*3")) with 2; lia).
  destruct (sprintf_rest [] (m_uszData (GetData 2048)) t1) as (r1 & Hs & Hr1); [lia|]. cbn [app] in Hs. change (zlen (@nil Z)) with 0 in Hs. rewrite Hs. cbn [go_bind].
  destruct (sprintf_rest t1 r1 s2) as (r2 & -> & Hr2); [lia|]. cbn [go_bind]. rewrite <- zlen_app.
  destruct (sprintf_rest (t1 ++ s2) r2 s3) as (r3 & -> & Hr3); [lia|]. cbn [go_bind]. rewrite <- zlen_app.
  destruct (write_behind ((t1 ++ s2) ++ s3) r3 [0]) as (r4 & -> & _); [change (zlen [0]) with 1; lia|]. cbn [go_bind].
  eexists _, ([0] ++ r4). split; [done|]. cbn [m_uszData m_sUsedSize filled_with]. rewrite Er. by rewrite <- (app_assoc _ [0]).
Qed.

End messages.

(** A pool whose blocks have just the size. *)
Definition exact_pool (k : Z) : data := {| m_uszData := replicate (Z.to_nat k) 0; m_sUsedSize := 0; m_cStaticFlag := 0 |}.

Lemma exact_pool_room k : 0 < k -> k <= zlen (m_uszData (exact_pool k)).
Proof. intros. unfold exact_pool, zlen. cbn [m_uszData]. rewrite length_replicate. lia. Qed.

Lemma commands_are_requests_witness : exists d, PackageMsg exact_pool [str "get"; str "k"] = Ret d /\ carries d [str "get"; str "k"].
Proof.
  destruct (commands_are_requests exact_pool exact_pool_room [str "get"; str "k"] (str "m1") 3) as [H _]; [by vm_compute|by vm_compute|lia|]. exact H.
Defined.

Lemma cluster_slots_reply_witness : exists d, ClusterSlots exact_pool true (str "10.0.0.1") 65535 = Ret d /\ m_sUsedSize d < 2048.
Proof.
  destruct (cluster_slots_reply exact_pool exact_pool_room true (str "10.0.0.1") 65535) as (d & rest & E & _ & Hu); [by vm_compute|lia|].
  exists d. split; [exact E|]. rewrite Hu. by vm_compute.
Defined.

(** A negative data base is announced with twenty digits. *)
Example select_negative : exists d, SelectCmd exact_pool (-1) = Ret d /\
  take (Z.to_nat (m_sUsedSize d)) (m_uszData d) = str "*2" ++ crlf ++ str "$6" ++ crlf ++ str "select" ++ crlf ++ str "$20" ++ crlf ++ str "-1" ++ crlf.
Proof. eexists. split; [vm_compute; reflexivity|]. by vm_compute. Qed.

(** 2147483647 is an [int], and reading it overflows. *)
Example chartoint_overflows : CharToInt (str "2147483647") = Panic.
Proof. done. Qed.
